(* ===== verification/_CoqProject ===== *)
-Q . S2P
Prelude.v
Interleave.v
SafeMap.v
SafeMapSpec.v
ThreadPool.v
ThreadPoolSpec.v
SafeInt.v
ByteOrder.v
CText.v
Multimap.v
StringList.v
Mem.v
Encoders.v
IPV4.v
MACADDR.v
Datetime.v
Vars.v
VarsSpec.v
VarMap.v
StreamableObject.v
BBase.v
BMem.v
BChunk.v
BChunks.v
BChunksFacts.v
BChunksSpec.v
BChunksProps.v
BRef.v
SocketStream.v
SocketDelim.v
BufferedReader.v
SocketDummy.v
SubParser.v
SubParserSpec.v
MultiDelim.v
DirectDelimiter.v
Parser.v
Preserves.v
Lens.v
Lines.v
LineRecv.v
UrlStream.v
BoostText.v
Random.v
UrlVars.v
UrlVarsSpec.v
MimeHeader.v
HttpLines.v
HttpCookies.v
HttpHeaders.v
HttpChunked.v
HttpContent.v
HttpContentSpec.v
MimeHeaderSpec.v
HttpTransfer.v
HttpBase.v
HttpClient.v
HttpClientSpec.v
HttpServer.v
HttpServerSpec.v
HttpExchange.v
HttpRefusals.v
HttpFiles.v
MimeMessage.v
Json.v
JsonModel.v
StreamableJson.v
JsonEval.v
JsonEvalSpec.v
JsonEvalTree.v
JsonEvalText.v
ApiReturn.v
Jwt.v
Restful.v
Sessions.v
WebSessions.v
WebSessionsSpec.v
JwtSpec.v
FastRpc.v
FastRpcThreads.v
