(* ===== verification/Prelude.v ===== *)
(** * Verification of the core of libMantids30

    This library models and verifies the parts of libMantids30 its protocols
    and servers are built on: the byte containers, the streams they are written
    to, the incremental parsers fed by those streams, HTTP and MIME on top of
    them, the encoders and transformers, the stream sockets, the typed
    variables, the tokens and sessions with the methods they give access to, the
    remote procedure calls, the expressions over JSON, and the structures that
    threads share. File names below are relative to src/Mantids30/ on the code
    side.

    ** The parts and how they interact

    A _stream_ (StreamableObject) is an object one writes bytes to; each write
    may take a part of the bytes, and a status object counts them and remembers
    a failure. A _container_ (B_Base) is a stream that keeps the bytes; there
    are three kinds verified here: a flat view of memory (B_MEM), a list of
    heap chunks (B_Chunks, which moves its data to a mapped file over a
    configured size) and a window on another container (B_Ref). A container can
    copy any interval of itself to another stream. A _transformer_ is a stream
    that rewrites what it receives into a destination. A _parser_ is a stream
    that gives what it receives to its current element parser (SubParser),
    which keeps the bytes in a B_Chunks until its parse mode is satisfied (a
    delimiter, a size, the end of the stream), shows them to [parse()] through
    a B_Ref, and says how many of them it used; the parser calls it again with
    the rest. The protocols are parsers: lines, HTTP from both sides (request
    and status lines, headers, a body by length, by chunks or to the end),
    URL variables and MIME messages. A _stream socket_ (Socket_Stream) is a
    stream over a device that transfers pieces, and the readers and writers of
    integers, strings and lines on top of it.

    A _typed variable_ (Var) has a value of one of twenty types and converts
    from and to text. A _JSON value_ is one of JsonCpp, which is a parameter: a
    table of its operations with their laws. A _token_ (JWT) is made of claims,
    a JSON value, and a signature; a _session_ is made from a token that was
    verified; the handlers of the RESTful and of the monolithic API call a
    _method_ for a caller whose token allows it. A connection of _FastRPC3_
    runs the requests of its peer as tasks of the thread pool, with a session
    of its own, and gives the answers of the peer to the threads that wait for
    them. The _map of items_ counts the readers of each item and makes its
    destroyer wait for them; the _thread pool_ runs the tasks that callers put
    in its bounded queues.

    ** Files, in dependency order

    - Prelude: this header; the error and state monads ([res], [st]); bytes,
      character classes and strtoul of the C library; lists addressed by
      integers ([zlen], [ztake], [zdrop], [slice]) with a rewrite database;
      64-bit unsigned arithmetic ([u64]); memchr and memcmp.
    - Interleave: threads that interleave, as an executable step [exec] from a
      label and a state; runs, reachability and invariants; condition variables
      ([notify_one], [notify_all]), whose waiters are the threads in a sleeping
      state, and counting of threads.
    - SafeMap, SafeMapSpec: Threads/map.h and mapitem.cpp; the threads that
      call the map, with the heap of its items.
    - ThreadPool, ThreadPoolSpec: Threads/threadpool.cpp and the shuffle of
      Helpers/random.h; the workers and the callers by critical section.
    - SafeInt: Helpers/safeint.h. An integer type is a signedness and a width;
      integer promotion and unsigned wrap-around are explicit.
    - ByteOrder: the bytes of integers on a host of either byte order, and the
      macros of Memory/endian2.h.
    - CText: std::to_string, strtol and the case of texts.
    - Multimap: std::multimap and std::set as sorted lists.
    - StringList: Memory/a_stringlist.cpp.
    - Mem: Helpers/mem.h and mem.cpp. The copies that write take the whole
      object and answer [OutOfBounds] when they leave it.
    - Encoders: Helpers/encoders.cpp. OpenSSL's base64 filter and the seeded
      random engine are parameters.
    - IPV4, MACADDR, Datetime: Memory/a_ipv4.cpp, a_macaddr.cpp, a_datetime.cpp.
    - Vars, VarsSpec: Memory/a_var.cpp and the other classes of variables
      (a_bool, a_int8 .. a_uint64, a_string, a_varchar, a_bin, a_double, a_ptr,
      a_ipv6). A variable is a declared type and the payload of its class.
    - VarMap: Memory/a_map.cpp, over a store of variables.
    - StreamableObject: Memory/streamableobject.h and .cpp, streamablestring,
      streamablenull. [Streamable] is the virtual interface; [Sink],
      [ShortWrites] and [FullSink] are the contracts of destinations: they
      append what they accept, may accept less than asked, accept all of it
      while they have room.
    - BBase: Memory/b_base.h and b_base.cpp. [BBase] is the table of virtual
      operations, the non-virtual members are defined once over it, as in the
      code. [Readable], [Indexed], [Displaceable] and [Searchable] are the
      contracts the concrete containers discharge.
    - BMem, BChunk, BChunks, BRef: Memory/b_mem.cpp, b_chunk.h, b_chunks.cpp,
      b_ref.cpp, each with its instance of [BBase] and of the contracts it
      keeps. BChunksFacts and BChunksSpec hold the invariant of the chunks and
      the refinement of each operation to the list of bytes; BChunksProps the
      theorems about containers.
    - SocketStream, SocketDelim: Net_Sockets/socket_stream.cpp,
      socket_stream_reader and socket_stream_writer, over the class
      [StreamSocket] of the devices; [Incoming] and [Outgoing] are the contracts
      of devices that deliver and accept a text in pieces of any size.
    - BufferedReader: Net_Sockets/streams_bufferedreader.cpp.
    - SocketDummy: Net_Sockets/socket_stream_dummy.cpp, a device made of two
      chunked containers.
    - SubParser, SubParserSpec, MultiDelim, DirectDelimiter: Memory/subparser.h
      and .cpp, with all seven parse modes over the class of element parsers;
      the theorems on the modes.
    - Parser: Memory/parser.cpp, over the class of protocols. Preserves (what
      a parser leaves alone), Lens (parts of an object as parsers), Lines
      (element parsers that take lines) are shared by the protocols.
    - LineRecv: Protocol_LineRecv/, with its specification on the whole text.
    - UrlStream: Memory/streamabletransformer.cpp,
      Protocol_HTTP/streamdecoder_url.cpp and streamencoder_url.cpp.
    - BoostText: the string algorithms and regular expressions of Boost the code
      uses, as classes with laws, and reference instances for the witnesses.
    - Random: Helpers/random.cpp over a source of random bytes.
    - UrlVars, UrlVarsSpec: Protocol_HTTP/common_urlvars.cpp and its element.
    - MimeHeader, MimeHeaderSpec: Protocol_MIME/mime_sub_header.cpp.
    - HttpLines, HttpCookies, HttpHeaders: the request and status lines, dates
      and cookies, and the header fields (the hdr_ files) of Protocol_HTTP/.
    - HttpChunked: Protocol_HTTP/common_content_chunked_subparser.cpp, with a
      receiver of the transfer coding as its specification.
    - HttpContent, HttpContentSpec, HttpTransfer:
      Protocol_HTTP/common_content.cpp, the element parser of a message body
      in its three modes; the specification is a reader that takes the body one
      byte at a time; HttpTransfer joins it to the sender of HttpChunked.
    - HttpBase, HttpClient, HttpClientSpec, HttpServer, HttpServerSpec:
      Protocol_HTTP/httpv1_base, httpv1_client.cpp, httpv1_server.cpp.
      HttpExchange joins the two sides, HttpRefusals the requests that are
      refused, HttpFiles the search for the file of a URI, over a file system
      that is a parameter.
    - MimeMessage: Protocol_MIME/mime_message.cpp, its parts and boundaries.
    - Json, JsonModel: the class [JsonCpp] with its laws, Helpers/json.cpp and
      the macros of json.h; a model of the values for the witnesses.
    - StreamableJson: Memory/streamablejson.cpp. ApiReturn:
      Protocol_HTTP/api_return.h.
    - JsonEval, JsonEvalSpec, JsonEvalTree, JsonEvalText: Scripts_JSONExprEval/,
      and the expressions that its texts mean.
    - Jwt, JwtSpec: DataFormat_JWT/. OpenSSL is a table of operations.
    - Restful: API_RESTful/methodshandler.cpp. Sessions: Sessions/ and
      API_Monolith/. WebSessions, WebSessionsSpec:
      Server_MonolithWebAPI/sessionsmanager.cpp, by critical section.
    - FastRpc: the messages, the answers a connection keeps and the local tasks
      of Protocol_FastRPC3/; FastRpcThreads: its threads, by critical section.

    Operations keep the name of the code. Where two files define the same name
    ([size], [find], [append2]) it is written with its file, as
    [BChunks.size]. An operation that changes its object is a function from
    the object to a result, or an exception, and the object it leaves, also
    when it throws. [std::nullopt] is [None]. [undefined] marks a use that the
    language leaves undefined (a null pointer, a read past the end, a member
    that nothing has set).

    ** What the theorems show

    - Streams: writing a buffer completely over a stream that accepts pieces
      terminates and delivers exactly the buffer; the write status is a state
      machine that throws once failed or finished.
    - Containers: append adds what fits and says how much; truncate, displace
      and the reads act as on one list of bytes whatever the chunks; the binary
      search for a chunk and the search for a needle are exact; a transfer
      between containers writes the interval once and in order.
    - Parsers: a delimiter is found wherever the writes cut it, a size is
      collected exactly, the part of a delimiter that must wait is the longest
      one; and, over all the layers at once, the line receiver delivers the
      lines of the text, the receivers of an HTTP body, of an answer, of URL
      variables and of JSON what the text means, independently of how the
      network cuts it.
    - HTTP and MIME: the answer that the server writes is the one the client
      reads; requests of another major version, of 1.1 without a host, or with a
      content that is too long are refused with the status they deserve; the search for a file never leaves the
      directory of the server; a multipart message within its limit of parts
      stays within it.
    - Encoders: round trips of the URL, hexadecimal, base32 and base64 forms,
      of the streaming URL codecs, of URL variables, and of the chunked transfer
      coding, against a decoder and from the sender to the receiver.
    - Sockets: complete reads and writes are exact whatever the pieces the
      device transfers; integers travel in network order; what is written as
      strings is read back, in order, across any fragmentation; delimited
      blocks end at the first delimiter, and so do buffered lines, for a reader
      that has the size of its buffer (its constructor does not set it).
    - Tokens and sessions: a token that is accepted was signed with a secret of
      the object and is in time, and a token that is signed is accepted; the
      cache keeps the newest payloads within its size; a revoked signature is
      in the list until it expires, and while it is there its token is refused,
      unless the cache has its payload; a method of the RESTful API is called
      exactly by callers with its rights, and one of the monolithic API with
      the permissions it requires;
      the sessions of a web server are those of its map of clients.
    - Remote procedure calls: what is sent is what the peer reads; a request
      other than the commands of the session is answered with success only for
      a session with the rights of its method; on every schedule each request
      of the peer is answered once and before the connection ends, a caller
      gets what was answered to its own request, only requests that could not
      be sent are left behind, and sessions hold verified tokens.
    - Expressions over JSON: the text of a tree of conditions compiles, and its
      value on every JSON value is that of the tree.
    - Threads: in every interleaving, no item of the map is used after it was
      deleted, and a thread that destroys is woken by the last reader; the
      queues of the pool are bounded and first-in first-out, no worker sleeps
      through a task, no caller sleeps through a place; a worker leaves only
      when the pool stops and its queues are empty.
    - Variables: the object of a variable is always of the class that its
      declared type stands for, which makes the casts of the callers sound;
      integers are read back from their text, or wrap; VARCHAR stays inside its
      area; addresses with masks, Ethernet addresses, dates and lists of
      strings are read back from their text, under the conditions stated; a
      name belongs to one of the two maps.
    - Integers and memory: the checked arithmetic is exact or throws; blocked
      comparison and move agree with their plain definitions.
    - Where the code departs from what it means to do, a theorem or an example
      states what it does: offsets lost after a displacement, a delimiter in
      pieces that is not found, exchanged pieces of a long prepend, an encoder
      that never ends on a refusing stream, chunk sizes that wrap, networks
      whose mask ends inside a byte, quoted elements in a row, INT8 objects that
      declare another type, tasks accepted after stop(), a reader that spins at
      the end of the stream, payloads in the cache of tokens that need no
      signature, roles that are never required, sessions whose user is locked
      out after they are collected, groups that are true on every value.

    ** Bounds and fuel

    [size_t] and [uint64_t] are integers reduced modulo 2^64 by [u64] where the
    code computes with them. Theorems about sizes assume that data in memory
    stays under 2^63 bytes, which the address space guarantees. Loops whose
    recursion is not structural carry fuel. A loop over a buffer of n bytes has
    n + 1 rounds, since each round of a loop that goes on consumes a byte; the
    binary search has one round more than there are chunks; the parser's
    recursion is bounded by the code's own round limit; the groups of an
    expression are found in the square of one more than its opening
    parentheses. Running out is
    the result [Exc diverges] (or [OutOfFuel] for memory copies), which the
    theorems exclude, so each of them is also a statement of termination; the
    exceptions are [encoder_loops_on_refusal] and
    [bufferedReadUntil_spins_at_eof], which show that no fuel is enough. The
    list of strings has three rounds for each character: a position is visited
    to enter the quotes, in them, and without them. Threads need no fuel: a run
    is a list of labels.

    ** What is not modelled

    Allocation failure, except where the code tests it (the buffers and contexts
    of OpenSSL in the tokens); the contents of memory the code reads
    uninitialised (a parameter where it matters); the data members no operation
    reads. The file-backed container (b_mmap.cpp, filemap.cpp) is any container:
    the chunked container only calls it through the base class. Functions of the
    C library whose result depends on the system (mktime, inet_pton), on floating
    point text (stod, the conversion %f) or on a random engine are parameters,
    with what the theorems use of them as hypotheses; clocks are arguments.
    OpenSSL, Boost and JsonCpp are classes with the laws that are used. The file
    system does not change while a URI is searched; a pointer for information
    that the callers of a search pass is never null.

    Locks of variables, of their maps, of tokens and of sessions are not
    modelled: each call is one step. Limits of web sessions do not change while
    threads run. Each header object counts its own random draws; the parts of a
    MIME message are held by value; a URL or a MIME body that a client prepares
    is outside, and a second compile() of an expression object.

    Of FastRPC3: the pings, the keys and the timeouts of connections and close().
    Its map of connections is whether one is open (SafeMap verifies the map), and
    its pool takes a task or refuses it and starts the tasks in any order
    (ThreadPool verifies the pool).

    Outside, since they are calls of the operating system, of database clients or
    of libraries with little logic between them: the sockets of the system and
    their bridges and chains, the network interfaces, the SQL connectors, the
    client handlers of the web servers, the logs, the configuration files and
    the program service, FastRPC1, which FastRPC3 replaces. *)

From Stdlib Require Export ZArith Lia Ascii String.
From stdpp Require Export base list option strings sets.

(** ** Notations and scopes *)

Declare Scope mantids_scope.
Delimit Scope mantids_scope with M.
#[global] Open Scope Z_scope.

(** A C++ [char]/[unsigned char] cell is an [ascii]; a pointer with a length is
    the list of the bytes it spans. *)
Abbreviation byte := ascii (only parsing).
Abbreviation bytes := (list ascii) (only parsing).

(** ** Automation shared by every file *)

Create HintDb mantids discriminated.
Create Rewrite HintDb zlist.

(** Case analysis on the innermost condition of the goal. *)
Ltac case_cond :=
  match goal with
  | |- context [if ?b then _ else _] =>
      lazymatch b with
      | context [if _ then _ else _] => fail
      | _ => let E := fresh "E" in destruct b eqn:E
      end
  end.

(** Boolean comparisons of the hypotheses as propositions. *)
Ltac zbool :=
  repeat match goal with
  | H : andb _ _ = true |- _ => apply andb_true_iff in H as [? ?]
  | H : orb _ _ = false |- _ => apply orb_false_iff in H as [? ?]
  | H : negb _ = true |- _ => apply negb_true_iff in H
  | H : negb _ = false |- _ => apply negb_false_iff in H
  | H : Z.ltb _ _ = true |- _ => apply Z.ltb_lt in H
  | H : Z.ltb _ _ = false |- _ => apply Z.ltb_ge in H
  | H : Z.leb _ _ = true |- _ => apply Z.leb_le in H
  | H : Z.leb _ _ = false |- _ => apply Z.leb_gt in H
  | H : Z.gtb _ _ = true |- _ => rewrite Z.gtb_ltb in H
  | H : Z.gtb _ _ = false |- _ => rewrite Z.gtb_ltb in H
  | H : Z.geb _ _ = true |- _ => rewrite Z.geb_leb in H
  | H : Z.geb _ _ = false |- _ => rewrite Z.geb_leb in H
  | H : Z.eqb _ _ = true |- _ => apply Z.eqb_eq in H
  | H : Z.eqb _ _ = false |- _ => apply Z.eqb_neq in H
  end.

(** Split every remaining condition of the goal and close the arithmetic. *)
Ltac case_conds := repeat (case_cond; zbool; try lia).

(** Linear arithmetic with quotients and remainders by constants. *)
Ltac divlia := Z.to_euclidean_division_equations; lia.

(** ** Control flow: a C++ call returns a value or throws *)

(** [diverges] and [undefined] are no exceptions of the code: the first marks a
    computation that needs more rounds than its fuel allows, the second one
    whose behaviour the language leaves undefined; no handler of the model
    catches them. *)
Inductive exc : Type :=
| diverges
| undefined (why : string)
| runtime_error (what : string)
| overflow_error (what : string)
| underflow_error (what : string)
| invalid_argument (what : string)
| out_of_range (what : string).

Inductive res (A : Type) : Type :=
| Ret (a : A)
| Exc (e : exc).
Arguments Ret {A} a.
Arguments Exc {A} e.

Definition res_bind {A B} (m : res A) (k : A -> res B) : res B :=
  match m with Ret a => k a | Exc e => Exc e end.

(** A method of a class whose objects have state [S]: the state it leaves,
    also when it throws, and its result. *)
Definition st (S A : Type) : Type := S -> res A * S.

Definition ret {S A} (a : A) : st S A := fun s => (Ret a, s).
Definition throw {S A} (e : exc) : st S A := fun s => (Exc e, s).
Definition bind {S A B} (m : st S A) (k : A -> st S B) : st S B :=
  fun s => match m s with (Ret a, s') => k a s' | (Exc e, s') => (Exc e, s') end.
Definition gets {S A} (f : S -> A) : st S A := fun s => (Ret (f s), s).
Definition modify {S} (f : S -> S) : st S unit := fun s => (Ret tt, f s).
Definition lift_res {S A} (m : res A) : st S A := fun s => (m, s).

Notation "'let!' x := m 'in' k" := (bind m (fun x => k))
  (at level 10, x binder, m at level 100, k at level 200) : mantids_scope.
Notation "'do!' m 'in' k" := (bind m (fun _ => k))
  (at level 10, m at level 100, k at level 200) : mantids_scope.
Notation "'let?' x := m 'in' k" := (res_bind m (fun x => k))
  (at level 10, x binder, m at level 100, k at level 200) : mantids_scope.
#[global] Open Scope mantids_scope.

(** ** Characters *)

Definition uchar (c : ascii) : Z := Z.of_N (N_of_ascii c).
(** Plain [char] is signed on the platforms the library builds for. *)
Definition schar (c : ascii) : Z := if uchar c <? 128 then uchar c else uchar c - 256.
(** Conversion of an integer to a character cell: modulo 2^8. *)
Definition chr (z : Z) : ascii := ascii_of_N (Z.to_N (z mod 256)).

Lemma uchar_range c : 0 <= uchar c < 256.
Proof. unfold uchar. pose proof (N_ascii_bounded c). lia. Qed.

Lemma chr_uchar c : chr (uchar c) = c.
Proof.
  unfold chr. rewrite Z.mod_small by apply uchar_range.
  unfold uchar. rewrite N2Z.id. apply ascii_N_embedding.
Qed.

Lemma uchar_chr z : uchar (chr z) = z mod 256.
Proof.
  unfold uchar, chr. pose proof (Z.mod_pos_bound z 256 eq_refl).
  rewrite N_ascii_embedding by lia. apply Z2N.id. lia.
Qed.

Lemma uchar_inj a b : uchar a = uchar b -> a = b.
Proof. intros H. rewrite <- (chr_uchar a), <- (chr_uchar b). by rewrite H. Qed.

Lemma chr_schar c : chr (schar c) = c.
Proof.
  unfold schar. case_cond; [apply chr_uchar|].
  rewrite <- (chr_uchar c) at 2. unfold chr. do 2 f_equal.
  replace (uchar c - 256) with (uchar c + (-1) * 256) by lia. apply Z.mod_add. lia.
Qed.

#[global] Arguments uchar : simpl never.
#[global] Arguments schar : simpl never.
#[global] Arguments chr : simpl never.

(** A property of every character, decided by listing the 256 of them. *)
Definition all_chars : list ascii := map (fun n => chr (Z.of_nat n)) (seq 0 256).

Lemma elem_of_all_chars c : c ∈ all_chars.
Proof.
  unfold all_chars. apply list_elem_of_fmap. exists (Z.to_nat (uchar c)).
  pose proof (uchar_range c). split.
  - by rewrite Z2Nat.id, chr_uchar by lia.
  - apply elem_of_seq. lia.
Qed.

Lemma forall_chars (P : ascii -> bool) : forallb P all_chars = true -> forall c, P c = true.
Proof.
  intros H c. rewrite forallb_forall in H. apply H.
  apply list_elem_of_In, elem_of_all_chars.
Qed.

(** The [<cctype>] predicates in the "C" locale. *)
Definition in_range (lo hi : Z) (c : ascii) : bool := (lo <=? uchar c) && (uchar c <=? hi).
Definition isupper (c : ascii) : bool := in_range 65 90 c.
Definition islower (c : ascii) : bool := in_range 97 122 c.
Definition isdigit (c : ascii) : bool := in_range 48 57 c.
Definition isalpha (c : ascii) : bool := isupper c || islower c.
Definition isalnum (c : ascii) : bool := isalpha c || isdigit c.
Definition isxdigit (c : ascii) : bool := isdigit c || in_range 65 70 c || in_range 97 102 c.
Definition tolower (c : ascii) : ascii := if isupper c then chr (uchar c + 32) else c.
Definition toupper (c : ascii) : ascii := if islower c then chr (uchar c - 32) else c.

(** String literals of the source, as bytes. *)
Definition str (s : string) : bytes := String.list_ascii_of_string s.

(** ** [strtoul] and [strtoull] of the C library, for a base from 2 to 16

    On the characters up to the first NUL: spaces, a sign, the prefix 0x in
    base 16, digits. The answer is the value, saturated at the maximum and
    negated modulo 2^64 after a minus sign, and the characters from [*endptr];
    [None] when nothing was converted. *)

Fixpoint c_str (s : list ascii) : list ascii :=
  match s with
  | c :: s => if uchar c =? 0 then [] else c :: c_str s
  | [] => []
  end.

(** A string, its terminator and what follows in the area. *)
Lemma c_str_terminated s rest : c_str (s ++ chr 0 :: rest) = c_str s.
Proof.
  induction s as [|c s IH]; cbn [app c_str]; [done|]. by rewrite IH.
Qed.

Definition isspace (c : ascii) : bool := in_range 9 13 c || (uchar c =? 32).

Fixpoint skip_spaces (s : list ascii) : list ascii :=
  match s with
  | c :: s' => if isspace c then skip_spaces s' else s
  | [] => []
  end.

Definition digit_value (base : Z) (c : ascii) : option Z :=
  let v := if isdigit c then uchar c - 48
           else if isalpha c then uchar (tolower c) - 97 + 10
           else base in
  if v <? base then Some v else None.

(** The digits at the start of [s], after [n]. *)
Fixpoint digits (base n : Z) (s : list ascii) : Z * list ascii :=
  match s with
  | c :: s' => match digit_value base c with
               | Some v => digits base (n * base + v) s'
               | None => (n, s)
               end
  | [] => (n, [])
  end.

Definition strtoul (base : Z) (s : list ascii) : option (Z * list ascii) :=
  let s := skip_spaces (c_str s) in
  let negative := match s with c :: _ => uchar c =? 45 | [] => false end in
  let s := match s with
           | c :: s' => if (uchar c =? 45) || (uchar c =? 43) then s' else s
           | [] => []
           end in
  let s := match s with
           | z :: x :: d :: _ =>
               if (base =? 16) && (uchar z =? 48) && (uchar (tolower x) =? 120)
                  && bool_decide (is_Some (digit_value 16 d)) then drop 2 s else s
           | _ => s
           end in
  match s with
  | d :: _ =>
      match digit_value base d with
      | Some _ =>
          let (n, rest) := digits base 0 s in
          Some (if n >? 2 ^ 64 - 1 then 2 ^ 64 - 1 else if negative then (- n) mod 2 ^ 64 else n, rest)
      | None => None
      end
  | [] => None
  end.

(** ** Lists indexed by Z, as [size_t] offsets index memory *)

Definition zlen {A} (l : list A) : Z := Z.of_nat (length l).
(** The first [n] elements; all of them when there are fewer. The bound keeps
    the conversion to [nat] within the length of the list. *)
Definition ztake {A} (n : Z) (l : list A) : list A := take (Z.to_nat (Z.min n (zlen l))) l.
Definition zdrop {A} (n : Z) (l : list A) : list A := drop (Z.to_nat (Z.min n (zlen l))) l.
Definition slice {A} (off n : Z) (l : list A) : list A := ztake n (zdrop off l).

Section zlists.
Context {A : Type}.
Implicit Types l : list A.

Lemma zlen_nonneg l : 0 <= zlen l.
Proof. unfold zlen. lia. Qed.
Lemma zlen_nil : zlen (@nil A) = 0.
Proof. reflexivity. Qed.
Lemma zlen_cons x l : zlen (x :: l) = 1 + zlen l.
Proof. unfold zlen. simpl length. lia. Qed.
Lemma zlen_app l1 l2 : zlen (l1 ++ l2) = zlen l1 + zlen l2.
Proof. unfold zlen. rewrite length_app. lia. Qed.
Lemma zlen_ztake n l : zlen (ztake n l) = Z.max 0 (Z.min n (zlen l)).
Proof. unfold ztake, zlen. rewrite length_take. lia. Qed.
Lemma zlen_zdrop n l : zlen (zdrop n l) = zlen l - Z.max 0 (Z.min n (zlen l)).
Proof. unfold zdrop, zlen. rewrite length_drop. lia. Qed.
Lemma zlen_0_nil l : zlen l = 0 -> l = [].
Proof. destruct l; [done|]. rewrite zlen_cons. pose proof (zlen_nonneg l). lia. Qed.

Lemma ztake_ge n l : zlen l <= n -> ztake n l = l.
Proof. intros. unfold ztake. apply take_ge. unfold zlen in *. lia. Qed.
Lemma ztake_le0 n l : n <= 0 -> ztake n l = [].
Proof. intros. unfold ztake. replace (Z.to_nat _) with 0%nat by lia. done. Qed.
Lemma zdrop_ge n l : zlen l <= n -> zdrop n l = [].
Proof. intros. unfold zdrop. apply drop_ge. unfold zlen in *. lia. Qed.
Lemma zdrop_le0 n l : n <= 0 -> zdrop n l = l.
Proof. intros. unfold zdrop. replace (Z.to_nat _) with 0%nat by lia. done. Qed.
Lemma ztake_zdrop n l : ztake n l ++ zdrop n l = l.
Proof. apply take_drop. Qed.
Lemma ztake_nil n : ztake n (@nil A) = [].
Proof. unfold ztake. apply take_nil. Qed.
Lemma zdrop_nil n : zdrop n (@nil A) = [].
Proof. unfold zdrop. apply drop_nil. Qed.

Lemma ztake_take n l : ztake n l = take (Z.to_nat n) l.
Proof.
  unfold ztake. destruct (Z.le_gt_cases n (zlen l)); [by rewrite Z.min_l by lia|].
  rewrite !take_ge; [done|..]; unfold zlen in *; lia.
Qed.
Lemma zdrop_drop n l : zdrop n l = drop (Z.to_nat n) l.
Proof.
  unfold zdrop. destruct (Z.le_gt_cases n (zlen l)); [by rewrite Z.min_l by lia|].
  rewrite !drop_ge; [done|..]; unfold zlen in *; lia.
Qed.
Lemma ztake_app n l1 l2 : ztake n (l1 ++ l2) = ztake n l1 ++ ztake (n - zlen l1) l2.
Proof. rewrite !ztake_take, take_app. do 2 f_equal. unfold zlen. lia. Qed.
Lemma zdrop_app n l1 l2 : zdrop n (l1 ++ l2) = zdrop n l1 ++ zdrop (n - zlen l1) l2.
Proof. rewrite !zdrop_drop, drop_app. do 2 f_equal. unfold zlen. lia. Qed.
Lemma ztake_app_le n l1 l2 : n <= zlen l1 -> ztake n (l1 ++ l2) = ztake n l1.
Proof. intros. rewrite ztake_app, (ztake_le0 (n - _)), app_nil_r by lia. done. Qed.
Lemma ztake_app_ge n l1 l2 : zlen l1 <= n -> ztake n (l1 ++ l2) = l1 ++ ztake (n - zlen l1) l2.
Proof. intros. by rewrite ztake_app, (ztake_ge n l1). Qed.
Lemma zdrop_app_le n l1 l2 : n <= zlen l1 -> zdrop n (l1 ++ l2) = zdrop n l1 ++ l2.
Proof. intros. by rewrite zdrop_app, (zdrop_le0 (n - _)) by lia. Qed.
Lemma zdrop_app_ge n l1 l2 : zlen l1 <= n -> zdrop n (l1 ++ l2) = zdrop (n - zlen l1) l2.
Proof. intros. by rewrite zdrop_app, (zdrop_ge n l1). Qed.
Lemma ztake_length_app l1 l2 : ztake (zlen l1) (l1 ++ l2) = l1.
Proof. rewrite ztake_app_le by lia. by rewrite ztake_ge by lia. Qed.
Lemma zdrop_length_app l1 l2 : zdrop (zlen l1) (l1 ++ l2) = l2.
Proof. rewrite zdrop_app_ge by lia. apply zdrop_le0. lia. Qed.
Lemma zdrop_zdrop n m l : 0 <= n -> 0 <= m -> zdrop n (zdrop m l) = zdrop (m + n) l.
Proof. intros. rewrite !zdrop_drop, drop_drop. f_equal. lia. Qed.
Lemma ztake_ztake n m l : ztake n (ztake m l) = ztake (Z.min n m) l.
Proof. rewrite !ztake_take, take_take. f_equal. lia. Qed.
Lemma zdrop_ztake n m l : 0 <= n -> zdrop n (ztake m l) = ztake (m - n) (zdrop n l).
Proof.
  intros. pose proof (zlen_nonneg l).
  destruct (Z.le_gt_cases (Z.min m (zlen l)) n).
  - rewrite zdrop_ge by (rewrite zlen_ztake; lia).
    symmetry. apply zlen_0_nil. rewrite zlen_ztake, zlen_zdrop. lia.
  - rewrite <- (ztake_zdrop n l) at 1.
    rewrite ztake_app_ge by (rewrite zlen_ztake; lia).
    rewrite zdrop_app_ge by (rewrite zlen_ztake; lia).
    rewrite zlen_ztake, zdrop_le0 by lia. f_equal. lia.
Qed.

Lemma zlen_slice off n l :
  0 <= off -> 0 <= n -> off + n <= zlen l -> zlen (slice off n l) = n.
Proof. intros. unfold slice. rewrite zlen_ztake, zlen_zdrop. lia. Qed.
Lemma slice_all l : slice 0 (zlen l) l = l.
Proof. unfold slice. rewrite zdrop_le0 by lia. by apply ztake_ge. Qed.
Lemma slice_0 n l : slice 0 n l = ztake n l.
Proof. unfold slice. by rewrite zdrop_le0 by lia. Qed.
Lemma slice_app_split off n m l :
  0 <= off -> 0 <= n -> 0 <= m ->
  slice off (n + m) l = slice off n l ++ slice (off + n) m l.
Proof.
  intros. unfold slice. rewrite <- (zdrop_zdrop n off) by lia.
  rewrite <- (ztake_zdrop n (zdrop off l)) at 1.
  set (d := zdrop off l). pose proof (zlen_nonneg d).
  rewrite ztake_app, ztake_ztake, zlen_ztake.
  rewrite (Z.min_r (n + m) n) by lia. f_equal.
  destruct (Z.le_gt_cases n (zlen d)).
  - f_equal. lia.
  - rewrite (zdrop_ge n) by lia. by rewrite !ztake_nil.
Qed.
End zlists.

#[export] Hint Rewrite @zlen_nil @zlen_cons @zlen_app @zlen_ztake @zlen_zdrop : zlist.
#[export] Hint Resolve zlen_nonneg : mantids.

(** Normalise the lengths of the goal and close it by arithmetic. *)
Ltac zlia :=
  repeat match goal with
  | l : list _ |- _ => lazymatch goal with
                       | _ : 0 <= zlen l |- _ => fail
                       | _ => pose proof (zlen_nonneg l)
                       end
  end;
  autorewrite with zlist in *; lia.

(** ** size_t *)

Definition SIZE_MAX : Z := 2 ^ 64 - 1.
(** The value a [size_t] expression has: its mathematical value modulo 2^64. *)
Definition u64 (z : Z) : Z := z mod 2 ^ 64.
Definition is_size (z : Z) : Prop := 0 <= z <= SIZE_MAX.

Lemma u64_small z : is_size z -> u64 z = z.
Proof. unfold is_size, SIZE_MAX, u64. intros. apply Z.mod_small. lia. Qed.
Lemma u64_range z : is_size (u64 z).
Proof. unfold is_size, SIZE_MAX, u64. pose proof (Z.mod_pos_bound z (2 ^ 64) eq_refl). lia. Qed.
#[export] Hint Resolve u64_range : mantids.

(** ** <cstring> *)

(** [memchr]: index of the first occurrence. *)
Fixpoint memchr (c : ascii) (l : bytes) : option Z :=
  match l with
  | [] => None
  | x :: r => if decide (x = c) then Some 0 else option_map Z.succ (memchr c r)
  end.

Lemma memchr_None c l : memchr c l = None <-> c ∉ l.
Proof.
  induction l as [|x r IH]; simpl; [by split; [intros _ ?%elem_of_nil|]|].
  rewrite not_elem_of_cons, <- IH. case_decide as Hx.
  - subst. split; [done|]. by intros [? _].
  - destruct (memchr c r); simpl; split; [done|by intros [_ ?]|done|done].
Qed.

Lemma memchr_free c a r : c ∉ a -> memchr c (a ++ c :: r) = Some (zlen a).
Proof.
  induction a as [|x a IH]; intros Hn; cbn [app memchr]; [by rewrite decide_True|].
  apply not_elem_of_cons in Hn as [Hx Hn]. rewrite decide_False by done. rewrite IH by done. cbn [option_map].
  f_equal. rewrite zlen_cons. lia.
Qed.

Lemma zdrop_succ {A} (x : A) l q : 0 <= q -> zdrop (q + 1) (x :: l) = zdrop q l.
Proof. intros. rewrite !zdrop_drop. by replace (Z.to_nat (q + 1)) with (S (Z.to_nat q)) by lia. Qed.
Lemma ztake_succ {A} (x : A) l q : 0 <= q -> ztake (q + 1) (x :: l) = x :: ztake q l.
Proof. intros. rewrite !ztake_take. by replace (Z.to_nat (q + 1)) with (S (Z.to_nat q)) by lia. Qed.

(** The byte of [v] at [q] is [c]. *)
Definition has_char (v : bytes) (q : Z) (c : ascii) : Prop := v !! Z.to_nat q = Some c.

Lemma memchr_first c l :
  match memchr c l with
  | Some p => 0 <= p < zlen l /\ has_char l p c /\ forall q, 0 <= q < p -> ~ has_char l q c
  | None => forall q, 0 <= q -> ~ has_char l q c
  end.
Proof.
  unfold has_char. induction l as [|x r IH]; cbn [memchr].
  { intros q _. by rewrite lookup_nil. }
  assert (Hcons : forall q, 0 < q -> (x :: r) !! Z.to_nat q = r !! Z.to_nat (q - 1)).
  { intros q ?. by replace (Z.to_nat q) with (S (Z.to_nat (q - 1))) by lia. }
  rewrite zlen_cons. pose proof (zlen_nonneg r). case_decide as Hx.
  { subst x. split; [lia|]. split; [done|]. intros. lia. }
  assert (Hzero : (x :: r) !! Z.to_nat 0 <> Some c) by (simpl; congruence).
  destruct (memchr c r) as [p|]; simpl.
  - destruct IH as (Hp & Hc & Hb). split; [lia|]. rewrite Hcons by lia.
    replace (Z.succ p - 1) with p by lia. split; [done|].
    intros q Hq. destruct (decide (q = 0)) as [->|]; [done|]. rewrite Hcons by lia. apply Hb. lia.
  - intros q Hq. destruct (decide (q = 0)) as [->|]; [done|]. rewrite Hcons by lia. apply IH. lia.
Qed.

(** Searching a suffix. *)
Lemma has_char_zdrop v off q c :
  0 <= off -> 0 <= q -> has_char (zdrop off v) q c <-> has_char v (off + q) c.
Proof.
  intros. unfold has_char. rewrite zdrop_drop, lookup_drop. by rewrite Z2Nat.inj_add by lia.
Qed.

Lemma memchr_suffix c v off :
  0 <= off <= zlen v ->
  match memchr c (zdrop off v) with
  | Some p => 0 <= p < zlen v - off /\ has_char v (off + p) c /\
      forall q, off <= q < off + p -> ~ has_char v q c
  | None => forall q, off <= q -> ~ has_char v q c
  end.
Proof.
  intros Ho. pose proof (memchr_first c (zdrop off v)) as Hm.
  assert (Hsub : forall q, off <= q -> has_char v q c -> has_char (zdrop off v) (q - off) c).
  { intros q ? ?. apply has_char_zdrop; [lia..|]. by replace (off + (q - off)) with q by lia. }
  destruct (memchr c (zdrop off v)) as [p|].
  - destruct Hm as (Hp & Hc & Hb). rewrite zlen_zdrop in Hp. split; [lia|].
    apply has_char_zdrop in Hc; [|lia..]. split; [done|].
    intros q Hq Hh. apply (Hb (q - off)); [lia|]. apply Hsub; [lia|done].
  - intros q Hq Hh. apply (Hm (q - off)); [lia|]. by apply Hsub.
Qed.

Lemma has_char_app v w q c :
  0 <= q -> has_char (v ++ w) q c <-> if decide (q < zlen v) then has_char v q c else has_char w (q - zlen v) c.
Proof.
  intros. unfold has_char, zlen. case_decide; [rewrite lookup_app_l by lia|rewrite lookup_app_r by lia].
  - done.
  - by replace (Z.to_nat (q - Z.of_nat (length v))) with (Z.to_nat q - length v)%nat by lia.
Qed.

Lemma has_char_lt v q c : 0 <= q -> has_char v q c -> q < zlen v.
Proof. intros ? Hc%lookup_lt_Some. unfold zlen. lia. Qed.

(** The answer of a search that may stop early but does not pass over [ch]
    between [from] and its answer. *)
Definition no_skip (v : bytes) (from : Z) (ch : ascii) (r : option Z) : Prop :=
  match r with
  | Some p => from <= p < zlen v /\ forall q, from <= q < p -> ~ has_char v q ch
  | None => forall q, from <= q -> ~ has_char v q ch
  end.

(** [memcmp] on two areas of the same length, as unsigned characters: the sign
    of the first difference. *)
Fixpoint memcmp (a b : bytes) : Z :=
  match a, b with
  | x :: a', y :: b' =>
      if uchar x =? uchar y then memcmp a' b' else if uchar x <? uchar y then -1 else 1
  | _, _ => 0
  end.

Lemma memcmp_0 a b : length a = length b -> memcmp a b = 0 <-> a = b.
Proof.
  revert b. induction a as [|x a IH]; intros [|y b]; simpl; try done.
  intros [= Hl]. destruct (uchar x =? uchar y) eqn:E; zbool.
  - rewrite (IH b Hl). apply uchar_inj in E as ->. split; [by intros ->|congruence].
  - split; [case_cond; lia|]. intros [= -> ->]. done.
Qed.

(** *** Line ends *)

Definition LF : ascii := chr 10.
Definition CR : ascii := chr 13.

Definition count_LF (text : bytes) : Z := zlen (filter (fun c => c = LF) text).

Lemma count_LF_app t1 t2 : count_LF (t1 ++ t2) = count_LF t1 + count_LF t2.
Proof. unfold count_LF. by rewrite filter_app, zlen_app. Qed.

Lemma count_LF_cons t : count_LF (LF :: t) = 1 + count_LF t.
Proof. unfold count_LF. by rewrite filter_cons_True, zlen_cons. Qed.

Lemma count_LF_nonneg t : 0 <= count_LF t.
Proof. apply zlen_nonneg. Qed.
