(* ===== verification/Interleave.v ===== *)
(** * Interleavings of threads

    What the models of Threads/ share. A system of threads is an executable
    step [exec l s]: the label [l] says which thread moves and resolves what
    the code leaves open (which waiter [notify_one] wakes, a timeout, a spurious
    wake-up), and the result is [None] when that step cannot happen in [s]. A
    step is one critical section: everything a thread does while it holds the
    mutex, up to the place where it releases it, which is its end or a wait on
    a condition variable.

    A condition variable is a function [wake] on the state of a thread: it
    answers the state of the thread once woken when the thread sleeps on that
    variable, and [None] when it does not. *)

From stdpp Require Import gmap.
From S2P Require Import Prelude.

(** A thread of the program. *)
Abbreviation tid := nat (only parsing).

Section System.
  Context {St Lab : Type}.
  Variable initial : St -> Prop.
  Variable exec : Lab -> St -> option St.

Inductive reachable : St -> Prop :=
| reachable_initial s : initial s -> reachable s
| reachable_step s l s' : reachable s -> exec l s = Some s' -> reachable s'.

(** A schedule, as the list of its labels. *)
Fixpoint run (ls : list Lab) (s : St) : option St :=
  match ls with
  | [] => Some s
  | l :: rest => match exec l s with
                 | Some s' => run rest s'
                 | None => None
                 end
  end.

Lemma reachable_invariant (I : St -> Prop) :
  (forall s, initial s -> I s) ->
  (forall s l s', I s -> exec l s = Some s' -> I s') ->
  forall s, reachable s -> I s.
Proof. intros Hinit Hstep s Hr. induction Hr; eauto. Qed.

(** The same with what is already known of the reachable states. *)
Lemma reachable_invariant_with (J I : St -> Prop) :
  (forall s, reachable s -> J s) ->
  (forall s, initial s -> I s) ->
  (forall s l s', J s -> I s -> exec l s = Some s' -> I s') ->
  forall s, reachable s -> I s.
Proof. intros HJ Hinit Hstep s Hr. induction Hr; eauto. Qed.

Lemma run_reachable ls : forall s s',
  reachable s -> run ls s = Some s' -> reachable s'.
Proof.
  induction ls as [|l ls IH]; intros s s' Hs Hrun; simpl in Hrun.
  - by simplify_eq.
  - destruct (exec l s) as [s1|] eqn:E; [|done].
    exact (IH s1 s' (reachable_step s l s1 Hs E) Hrun).
Qed.

(** An invariant of the steps whose labels are allowed. *)
Lemma run_invariant (I : St -> Prop) (allowed : Lab -> Prop) :
  (forall s l s', allowed l -> I s -> exec l s = Some s' -> I s') ->
  forall ls s s', Forall allowed ls -> I s -> run ls s = Some s' -> I s'.
Proof.
  intros Hstep ls. induction ls as [|l ls IH]; intros s s' Hall Hs Hrun; simpl in Hrun.
  - by simplify_eq.
  - apply Forall_cons in Hall as [Hl Hall]. destruct (exec l s) as [s1|] eqn:E; [|done].
    exact (IH s1 s' Hall (Hstep s l s1 Hl Hs E) Hrun).
Qed.

End System.

(** ** Condition variables *)

Section Condition.
  Context {Th : Type}.
  Variable wake : Th -> option Th.

Definition nobody_sleeps (ths : gmap tid Th) : Prop :=
  map_Forall (fun _ th => wake th = None) ths.

#[export] Instance nobody_sleeps_dec `{!EqDecision Th} ths : Decision (nobody_sleeps ths).
Proof. unfold nobody_sleeps. apply _. Defined.

Context `{!EqDecision Th}.

(** [notify_one]: the system picks the thread, and picks none only when no
    thread sleeps on the variable. *)
Definition notify_one (choice : option tid) (ths : gmap tid Th) : option (gmap tid Th) :=
  match choice with
  | Some t => match ths !! t with
              | Some th => match wake th with
                           | Some th' => Some (<[t := th']> ths)
                           | None => None
                           end
              | None => None
              end
  | None => if decide (nobody_sleeps ths) then Some ths else None
  end.

Definition notify_all (ths : gmap tid Th) : gmap tid Th :=
  (fun th => default th (wake th)) <$> ths.

Lemma notify_one_inv choice ths ths' :
  notify_one choice ths = Some ths' ->
  (ths' = ths /\ nobody_sleeps ths) \/
  exists t th th', ths !! t = Some th /\ wake th = Some th' /\ ths' = <[t := th']> ths.
Proof.
  unfold notify_one. intros H. destruct choice as [t|].
  - destruct (ths !! t) as [th|] eqn:E; [|done]. destruct (wake th) as [th'|] eqn:E'; [|done].
    simplify_eq. right. by exists t, th, th'.
  - case_decide; [|done]. simplify_eq. by left.
Qed.

(** Some choice is always possible: a notification never blocks. *)
Lemma notify_one_enabled ths : exists choice ths', notify_one choice ths = Some ths'.
Proof.
  destruct (decide (nobody_sleeps ths)) as [Hn|Hn].
  - exists None, ths. simpl. by rewrite decide_True.
  - apply map_not_Forall in Hn as (t & th & Ht & Hw); [|intros ??; apply _].
    destruct (wake th) as [th'|] eqn:E; [|done].
    exists (Some t), (<[t := th']> ths). simpl. by rewrite Ht, E.
Qed.

Lemma notify_all_lookup ths t :
  notify_all ths !! t = (fun th => default th (wake th)) <$> ths !! t.
Proof. apply lookup_fmap. Qed.

End Condition.

(** ** Counting threads *)

Section Count.
  Context {Th : Type} (P : Th -> bool).

Definition b2z (b : bool) : Z := if b then 1 else 0.

Definition count (ths : gmap tid Th) : Z :=
  map_fold (fun _ th n => b2z (P th) + n) 0 ths.

Lemma count_fresh ths t th :
  ths !! t = None -> count (<[t := th]> ths) = b2z (P th) + count ths.
Proof.
  intros Ht. unfold count. rewrite map_fold_insert_L; [done| |done].
  intros. cbv beta. lia.
Qed.

Lemma count_delete ths t th :
  ths !! t = Some th -> count (delete t ths) = count ths - b2z (P th).
Proof.
  intros Ht. rewrite <- (insert_delete_id ths t th) at 2 by done.
  rewrite count_fresh by apply lookup_delete_eq. lia.
Qed.

Lemma count_insert ths t th th' :
  ths !! t = Some th -> count (<[t := th']> ths) = count ths - b2z (P th) + b2z (P th').
Proof.
  intros Ht. rewrite <- insert_delete_eq, count_fresh by apply lookup_delete_eq.
  rewrite (count_delete _ _ _ Ht). lia.
Qed.

Lemma count_nonneg ths : 0 <= count ths.
Proof.
  induction ths as [|t th ths Ht IH] using map_ind; [done|].
  rewrite count_fresh by done. destruct (P th); simpl; lia.
Qed.

Lemma count_pos ths t th : ths !! t = Some th -> P th = true -> 0 < count ths.
Proof.
  intros Ht Hp. pose proof (count_delete _ _ _ Ht). pose proof (count_nonneg (delete t ths)).
  rewrite Hp in *. simpl in *. lia.
Qed.

Lemma count_exists ths : 0 < count ths -> exists t th, ths !! t = Some th /\ P th = true.
Proof.
  induction ths as [|t th ths Ht IH] using map_ind; [done|].
  rewrite count_fresh by done. intros Hc. destruct (P th) eqn:E.
  - exists t, th. by rewrite lookup_insert_eq.
  - destruct IH as (u & th' & Hu & Hp); [simpl in Hc; lia|]. exists u, th'.
    rewrite lookup_insert_ne by congruence. done.
Qed.

Lemma count_zero ths t th : count ths = 0 -> ths !! t = Some th -> P th = false.
Proof.
  intros Hc Ht. destruct (P th) eqn:E; [|done]. pose proof (count_pos ths t th Ht E). lia.
Qed.

Lemma count_none ths : (forall t th, ths !! t = Some th -> P th = false) -> count ths = 0.
Proof.
  intros Hall. pose proof (count_nonneg ths).
  destruct (Z.eq_dec (count ths) 0) as [|Hne]; [done|].
  destruct (count_exists ths) as (t & th & Ht & Hp); [lia|]. by rewrite (Hall t th Ht) in Hp.
Qed.

End Count.
