(* ===== verification/SafeMap.v ===== *)
(** * The map shared by threads: Threads/map.h and mapitem.h

    [Map<T>] keeps items by key. A thread that wants an item opens it, uses it
    and releases it; a thread that destroys an item makes it unavailable, tells
    its readers to stop, sleeps until the last one releases it, and deletes it.
    The operations are functions on the map; [exec] is the system of the
    threads that call them, with the heap of the items.

    The clients keep the contract of the class: a thread releases only what it
    opened, gives [addElement] an item it owns, and calls one operation at a
    time. Under that contract no item is used after it was deleted and no
    thread that destroys sleeps for ever. *)

From stdpp Require Import gmap.
From S2P Require Import Prelude Interleave.

(** ** The heap of the items *)

(** What the code must never do. *)
Inductive fault : Type :=
| UseAfterFree      (** an item is used, told to stop or deleted once deleted *)
| InvalidClose      (** releaseElement throws "Invalid close on Mutex MAP" *)
| LostElement.      (** releaseElement does not find what was opened *)

#[export] Instance fault_eq_dec : EqDecision fault.
Proof. solve_decision. Defined.

(** The address of a MapItem; [nullptr] is [None]. *)
Abbreviation ptr := positive (only parsing).

Record Heap := mkHeap {
  alive : gset ptr;
  m_mapFinished : gset ptr;     (** the items whose m_mapFinished is set *)
  faults : list fault
}.

Definition touch (p : ptr) (h : Heap) : Heap :=
  if decide (p ∈ alive h) then h
  else mkHeap (alive h) (m_mapFinished h) (UseAfterFree :: faults h).

(** [new MapItem]: the address of an item that was deleted may come back. *)
Definition newItem (p : ptr) (h : Heap) : Heap :=
  mkHeap ({[p]} ∪ alive h) (m_mapFinished h ∖ {[p]}) (faults h).

Definition deleteItem (p : ptr) (h : Heap) : Heap :=
  let h := touch p h in mkHeap (alive h ∖ {[p]}) (m_mapFinished h) (faults h).

(** MapItem::stopReaders; stopSignal is virtual and does nothing here. *)
Definition stopReaders (p : ptr) (h : Heap) : Heap :=
  let h := touch p h in mkHeap (alive h) ({[p]} ∪ m_mapFinished h) (faults h).

Definition report (f : fault) (h : Heap) : Heap :=
  mkHeap (alive h) (m_mapFinished h) (f :: faults h).

Section SafeMap.
  Context {K : Type} `{Countable K}.

(** ** The operations of the map *)

Record MapElement := mkMapElement {
  item : option ptr;
  numReaders : Z                (** std::atomic<uint32_t> *)
}.

Definition MapElement0 : MapElement := mkMapElement None 0.

Abbreviation map := (gmap K MapElement) (only parsing).

Definition u32 (n : Z) : Z := n mod 2 ^ 32.

(** [m_keyValueMap[key]]: operator[] of std::map adds the missing entry. *)
Definition subscript (key : K) (m : map) : MapElement * map :=
  match m !! key with
  | Some e => (e, m)
  | None => (MapElement0, <[key := MapElement0]> m)
  end.

Definition getKeys (m : map) : gset K := dom m.

Definition isMember (key : K) (m : map) : bool := bool_decide (is_Some (m !! key)).

Definition addElement (key : K) (element : option ptr) (m : map) : bool * map :=
  if isMember key m then (false, m)
  else let '(e, m) := subscript key m in
       (true, <[key := mkMapElement element (numReaders e)]> m).

Definition openElement (key : K) (m : map) : option ptr * map :=
  if isMember key m then
    let '(e, m) := subscript key m in
    match item e with
    | Some p => (Some p, <[key := mkMapElement (Some p) (u32 (numReaders e + 1))]> m)
    | None => (None, m)
    end
  else (None, m).

(** The second component says whether noReadersCondition is notified. *)
Definition releaseElement (key : K) (m : map) : res (bool * bool) * map :=
  if isMember key m then
    let '(e, m) := subscript key m in
    if numReaders e =? 0 then
      (Exc (runtime_error "Invalid close on Mutex MAP"), m)
    else
      let n := u32 (numReaders e - 1) in
      (Ret (true, n =? 0), <[key := mkMapElement (item e) n]> m)
  else (Ret (false, false), m).

(** destroyElement up to its loop: the item it is going to delete. *)
Definition destroyElement_begin (key : K) (m : map) : option ptr * map :=
  if isMember key m then
    let '(e, m) := subscript key m in
    match item e with
    | Some p => (Some p, <[key := mkMapElement None (numReaders e)]> m)
    | None => (None, m)
    end
  else (None, m).

Inductive destroy_outcome :=
| DestroyWaits                      (** asleep on noReadersCondition *)
| DestroyDone (notify : bool).      (** erased; was the map left empty? *)

(** One round of the loop of destroyElement, and what follows it when the loop
    ends. *)
Definition destroyElement_round (key : K) (delElement : ptr) (m : map) (h : Heap)
  : destroy_outcome * map * Heap :=
  let '(e, m) := subscript key m in
  if negb (numReaders e =? 0) then
    (DestroyWaits, m, stopReaders delElement h)
  else
    let h := deleteItem delElement h in
    let m := delete key m in
    (DestroyDone (bool_decide (m = ∅)), m, h).

(** ** The threads *)

(** A thread inside an operation that sleeps, or that was woken and has not
    taken the mutex again yet. Every other thread is absent. *)
Inductive thread :=
| Destroying (key : K) (delElement : ptr) (woken : bool)
| WaitingEmpty (woken : bool).

#[export] Instance thread_eq_dec : EqDecision thread.
Proof. solve_decision. Defined.

Definition noReadersCondition (key : K) (th : thread) : option thread :=
  match th with
  | Destroying key' p false =>
      if decide (key' = key) then Some (Destroying key' p true) else None
  | _ => None
  end.

Definition m_noItemsOnMapCondition (th : thread) : option thread :=
  match th with
  | WaitingEmpty false => Some (WaitingEmpty true)
  | _ => None
  end.

Record state := mkState {
  m_keyValueMap : map;
  heap : Heap;
  threads : gmap tid thread;
  handles : list (K * ptr);     (** what the clients opened and did not release *)
  owned : gset ptr              (** the items the clients created and did not add *)
}.

Definition initial (s : state) : Prop := s = mkState ∅ (mkHeap ∅ ∅ []) ∅ [] ∅.

(** The items a pointer gives away. *)
Definition item_set (element : option ptr) : gset ptr :=
  match element with Some p => {[p]} | None => ∅ end.

(** One handle less. *)
Fixpoint drop_handle (x : K * ptr) (l : list (K * ptr)) : list (K * ptr) :=
  match l with
  | [] => []
  | y :: l => if decide (x = y) then l else y :: drop_handle x l
  end.

Inductive label :=
| New (p : ptr)
| Add (key : K) (element : option ptr)
| Open (key : K)
| Use (key : K) (p : ptr)
| Release (key : K) (p : ptr) (choice : option tid)
| Destroy (t : tid) (key : K) (choice : option tid)
| WaitEmpty (t : tid)
| Resume (t : tid) (choice : option tid)
| Spurious (t : tid).

(** A thread runs the loop of destroyElement until it sleeps or returns. *)
Definition destroy_step (t : tid) (key : K) (p : ptr) (choice : option tid) (s : state)
  : option state :=
  let '(o, m, h) := destroyElement_round key p (m_keyValueMap s) (heap s) in
  match o with
  | DestroyWaits =>
      Some (mkState m h (<[t := Destroying key p false]> (threads s)) (handles s) (owned s))
  | DestroyDone notify =>
      let ths := delete t (threads s) in
      match (if notify then notify_one m_noItemsOnMapCondition choice ths else Some ths) with
      | Some ths => Some (mkState m h ths (handles s) (owned s))
      | None => None
      end
  end.

(** waitForEmptyMap from where it holds the mutex. *)
Definition waitForEmptyMap (t : tid) (s : state) : state :=
  mkState (m_keyValueMap s) (heap s)
    (if decide (m_keyValueMap s = ∅) then delete t (threads s)
     else <[t := WaitingEmpty false]> (threads s)) (handles s) (owned s).

Definition exec (l : label) (s : state) : option state :=
  let '(mkState m h ths hs ow) := s in
  match l with
  | New p =>
      if decide (p ∈ alive h) then None
      else Some (mkState m (newItem p h) ths hs ({[p]} ∪ ow))
  | Add key element =>
      if decide (item_set element ⊆ ow) then
        let '(ok, m) := addElement key element m in
        Some (mkState m h ths hs
                (if ok then ow ∖ item_set element else ow))
      else None
  | Open key =>
      if decide (zlen hs < 2 ^ 32 - 1) then
        let '(r, m) := openElement key m in
        Some (mkState m h ths (match r with Some p => (key, p) :: hs | None => hs end) ow)
      else None
  | Use key p =>
      if decide ((key, p) ∈ hs) then Some (mkState m (touch p h) ths hs ow) else None
  | Release key p choice =>
      if decide ((key, p) ∈ hs) then
        let hs := drop_handle (key, p) hs in
        let '(r, m) := releaseElement key m in
        match r with
        | Ret (true, true) =>
            match notify_one (noReadersCondition key) choice ths with
            | Some ths => Some (mkState m h ths hs ow)
            | None => None
            end
        | Ret (true, false) => Some (mkState m h ths hs ow)
        | Ret (false, _) => Some (mkState m (report LostElement h) ths hs ow)
        | Exc _ => Some (mkState m (report InvalidClose h) ths hs ow)
        end
      else None
  | Destroy t key choice =>
      match ths !! t with
      | Some _ => None
      | None =>
          let '(r, m) := destroyElement_begin key m in
          match r with
          | Some p => destroy_step t key p choice (mkState m h ths hs ow)
          | None => Some (mkState m h ths hs ow)
          end
      end
  | WaitEmpty t =>
      match ths !! t with
      | Some _ => None
      | None => Some (waitForEmptyMap t s)
      end
  | Resume t choice =>
      match ths !! t with
      | Some (Destroying key p true) => destroy_step t key p choice s
      | Some (WaitingEmpty true) => Some (waitForEmptyMap t s)
      | _ => None
      end
  | Spurious t =>
      match ths !! t with
      | Some (Destroying key p false) =>
          Some (mkState m h (<[t := Destroying key p true]> ths) hs ow)
      | Some (WaitingEmpty false) => Some (mkState m h (<[t := WaitingEmpty true]> ths) hs ow)
      | _ => None
      end
  end.

End SafeMap.
