(* ===== verification/SafeMapSpec.v ===== *)
(** * Safety and progress of the shared map

    The invariant of the threads that use a [Map], by induction on the
    interleaving: the reader counts are the open handles, an item belongs to one
    element, to the thread that destroys it or to its creator, and a thread
    asleep in destroyElement has readers to wait for. *)

From stdpp Require Import gmap.
From S2P Require Import Prelude Interleave SafeMap.

Section Spec.
  Context {K : Type} `{Countable K}.
  Implicit Types (key : K) (p : positive) (x y : K * positive) (s : state (K := K)).

(** ** What the operations do *)

Lemma isMember_spec key (m : gmap K MapElement) :
  isMember key m = match m !! key with Some _ => true | None => false end.
Proof. unfold isMember. by destruct (m !! key); [rewrite bool_decide_true|rewrite bool_decide_false]. Qed.

Lemma addElement_spec key i (m : gmap K MapElement) :
  addElement key i m = match m !! key with
                       | Some _ => (false, m)
                       | None => (true, <[key := mkMapElement i 0]> m)
                       end.
Proof.
  unfold addElement, subscript. rewrite isMember_spec.
  destruct (m !! key); [done|]. by rewrite insert_insert_eq.
Qed.

Lemma openElement_spec key (m : gmap K MapElement) :
  openElement key m = match m !! key with
                      | Some (mkMapElement (Some p) n) =>
                          (Some p, <[key := mkMapElement (Some p) (u32 (n + 1))]> m)
                      | _ => (None, m)
                      end.
Proof.
  unfold openElement, subscript. rewrite isMember_spec.
  by destruct (m !! key) as [[[p|] n]|].
Qed.

Lemma releaseElement_spec key (m : gmap K MapElement) :
  releaseElement key m =
  match m !! key with
  | Some (mkMapElement i n) =>
      if n =? 0 then (Exc (runtime_error "Invalid close on Mutex MAP"), m)
      else (Ret (true, u32 (n - 1) =? 0), <[key := mkMapElement i (u32 (n - 1))]> m)
  | None => (Ret (false, false), m)
  end.
Proof.
  unfold releaseElement, subscript. rewrite isMember_spec.
  by destruct (m !! key) as [[i n]|].
Qed.

Lemma destroyElement_begin_spec key (m : gmap K MapElement) :
  destroyElement_begin key m =
  match m !! key with
  | Some (mkMapElement (Some p) n) => (Some p, <[key := mkMapElement None n]> m)
  | _ => (None, m)
  end.
Proof.
  unfold destroyElement_begin, subscript. rewrite isMember_spec.
  by destruct (m !! key) as [[[p|] n]|].
Qed.

Lemma destroyElement_round_spec key p (m : gmap K MapElement) h i n :
  m !! key = Some (mkMapElement i n) ->
  destroyElement_round key p m h =
  if n =? 0 then (DestroyDone (bool_decide (delete key m = ∅)), delete key m, deleteItem p h)
  else (DestroyWaits, m, stopReaders p h).
Proof.
  intros E. unfold destroyElement_round, subscript. rewrite E. simpl. by destruct (n =? 0).
Qed.

Lemma touch_alive p h : p ∈ alive h -> touch p h = h.
Proof. intros Hp. unfold touch. by rewrite decide_True. Qed.

(** ** Handles *)

Definition readers key (hs : list (K * positive)) : Z :=
  zlen (filter (fun x => x.1 = key) hs).

Lemma readers_cons key x hs :
  readers key (x :: hs) = readers key hs + (if decide (x.1 = key) then 1 else 0).
Proof.
  unfold readers, zlen. rewrite filter_cons. case_decide; simpl; lia.
Qed.

Lemma readers_bounds key hs : 0 <= readers key hs <= zlen hs.
Proof. unfold readers, zlen. pose proof (length_filter (fun x => x.1 = key) hs). lia. Qed.

Lemma readers_pos key p hs : (key, p) ∈ hs -> 0 < readers key hs.
Proof.
  induction hs as [|x hs IH]; [by intros ?%elem_of_nil|]. rewrite readers_cons, elem_of_cons.
  pose proof (readers_bounds key hs). intros [<-|Hp].
  - simpl. rewrite decide_True by done. lia.
  - specialize (IH Hp). case_decide; lia.
Qed.

Lemma readers_exists key hs : 0 < readers key hs -> exists p, (key, p) ∈ hs.
Proof.
  induction hs as [|[k p] hs IH]; [done|]. rewrite readers_cons. simpl.
  case_decide; [subst; exists p; rewrite elem_of_cons; by left|].
  rewrite Z.add_0_r. intros (q & Hq)%IH. exists q. rewrite elem_of_cons. by right.
Qed.

Lemma drop_handle_readers key x hs : x ∈ hs ->
  readers key (drop_handle x hs) = readers key hs - (if decide (x.1 = key) then 1 else 0).
Proof.
  induction hs as [|y hs IH]; [by intros ?%elem_of_nil|]. simpl. rewrite elem_of_cons.
  intros Hin. destruct (decide (x = y)) as [->|Hne].
  - rewrite readers_cons. case_decide; lia.
  - rewrite !readers_cons, IH by naive_solver. lia.
Qed.

Lemma drop_handle_elem x y hs : x ∈ drop_handle y hs -> x ∈ hs.
Proof.
  induction hs as [|z hs IH]; simpl; [done|]. case_decide; rewrite !elem_of_cons; naive_solver.
Qed.

Lemma drop_handle_zlen x hs : zlen (drop_handle x hs) <= zlen hs.
Proof.
  unfold zlen. induction hs as [|z hs IH]; simpl; [lia|]. case_decide; simpl; lia.
Qed.

(** ** The invariant *)

Definition destroying s t key p : Prop :=
  exists woken, threads s !! t = Some (Destroying key p woken).

(** The element of [key], or the thread that destroys it, keeps [p]. *)
Definition holds s key p : Prop :=
  (exists n, m_keyValueMap s !! key = Some (mkMapElement (Some p) n)) \/
  (exists t, destroying s t key p).

Record inv s : Prop := {
  inv_count : forall key i n, m_keyValueMap s !! key = Some (mkMapElement i n) ->
    n = readers key (handles s);
  inv_handle : forall key p, (key, p) ∈ handles s -> holds s key p;
  inv_alive : forall key p, holds s key p -> p ∈ alive (heap s) /\ p ∉ owned s;
  inv_owned : owned s ⊆ alive (heap s);
  inv_key : forall key1 key2 p, holds s key1 p -> holds s key2 p -> key1 = key2;
  inv_slot : forall t key p, destroying s t key p ->
    exists n, m_keyValueMap s !! key = Some (mkMapElement None n);
  inv_one : forall t1 t2 key p1 p2,
    destroying s t1 key p1 -> destroying s t2 key p2 -> t1 = t2;
  inv_asleep : forall t key p, threads s !! t = Some (Destroying key p false) ->
    0 < readers key (handles s) /\ p ∈ m_mapFinished (heap s);
  inv_bound : zlen (handles s) < 2 ^ 32;
  inv_faults : faults (heap s) = []
}.

Lemma inv_initial s : initial s -> inv s.
Proof.
  intros ->. split; unfold holds, destroying; simpl; try set_solver; try done;
    try (intros; naive_solver).
Qed.

Lemma inv_element s key p : inv s -> (key, p) ∈ handles s -> is_Some (m_keyValueMap s !! key).
Proof.
  intros Hi [[n Hn]|[t Ht]]%(inv_handle s Hi); [by eexists|].
  destruct (inv_slot s Hi t key p Ht) as [n Hn]. by eexists.
Qed.

Lemma inv_readers_none s key : inv s -> m_keyValueMap s !! key = None -> readers key (handles s) = 0.
Proof.
  intros Hi Hm. destruct (Z.eq_dec (readers key (handles s)) 0) as [|Hne]; [done|].
  destruct (readers_exists key (handles s)) as [p Hp];
    [pose proof (readers_bounds key (handles s)); lia|].
  destruct (inv_element s key p Hi Hp) as [? ?]. congruence.
Qed.

Lemma inv_new m h ths hs ow p :
  p ∉ alive h -> inv (mkState m h ths hs ow) ->
  inv (mkState m (newItem p h) ths hs ({[p]} ∪ ow)).
Proof.
  intros Hp [Ic Ih Ia Io Ik Is I1 Il Ib If].
  split; simpl in *; try assumption.
  - intros key q Hq. change (holds (mkState m h ths hs ow) key q) in Hq.
    destruct (Ia key q Hq). set_solver.
  - set_solver.
  - intros t key q Hq. destruct (Il t key q Hq) as [? Hf].
    assert (Hq' : q ∈ alive h) by (apply (Ia key q); right; exists t; by exists false).
    split; [done|]. set_solver.
Qed.

Lemma inv_add m h ths hs ow key i :
  item_set i ⊆ ow -> m !! key = None -> inv (mkState m h ths hs ow) ->
  inv (mkState (<[key := mkMapElement i 0]> m) h ths hs (ow ∖ item_set i)).
Proof.
  intros Hi Hm Hinv. pose proof (inv_readers_none _ key Hinv Hm) as Hno. simpl in Hno.
  destruct Hinv as [Ic Ih Ia Io Ik Is I1 Il Ib If].
  assert (Hh : forall k q, holds (mkState (<[key := mkMapElement i 0]> m) h ths hs (ow ∖ item_set i)) k q ->
     (k = key /\ i = Some q) \/ holds (mkState m h ths hs ow) k q).
  { unfold holds. simpl. setoid_rewrite lookup_insert_Some. naive_solver. }
  split; simpl in *; try assumption.
  - intros k j n. rewrite lookup_insert_Some. naive_solver.
  - intros k q Hq. specialize (Ih k q Hq). unfold holds, destroying in *. simpl in *.
    setoid_rewrite lookup_insert_Some. naive_solver.
  - intros k q Hq. apply Hh in Hq as [[-> ->]|Hq]; simpl in *; [|destruct (Ia k q Hq); set_solver].
    set_solver.
  - set_solver.
  - intros k1 k2 q H1 H2. apply Hh in H1 as [[-> ->]|H1], H2 as [[-> ?]|H2]; simpl in *.
    + done.
    + destruct (Ia k2 q H2). set_solver.
    + destruct (Ia k1 q H1). set_solver.
    + by apply (Ik k1 k2 q).
  - intros t k q Hd. destruct (Is t k q Hd) as [n Hn]. exists n. rewrite lookup_insert_Some. naive_solver.
Qed.

Lemma u32_small n : 0 <= n < 2 ^ 32 -> u32 n = n.
Proof. intros. unfold u32. by rewrite Z.mod_small. Qed.

Lemma inv_open m h ths hs ow key p n :
  m !! key = Some (mkMapElement (Some p) n) -> zlen hs < 2 ^ 32 - 1 ->
  inv (mkState m h ths hs ow) ->
  inv (mkState (<[key := mkMapElement (Some p) (u32 (n + 1))]> m) h ths ((key, p) :: hs) ow).
Proof.
  intros Hm Hb Hinv. destruct Hinv as [Ic Ih Ia Io Ik Is I1 Il Ib If]. simpl in *.
  pose proof (Ic key (Some p) n Hm) as Hn. pose proof (readers_bounds key hs) as Hr.
  assert (Hh : forall k q,
     holds (mkState (<[key := mkMapElement (Some p) (u32 (n + 1))]> m) h ths ((key, p) :: hs) ow) k q
     <-> holds (mkState m h ths hs ow) k q).
  { intros k q. unfold holds, destroying. simpl. setoid_rewrite lookup_insert_Some.
    destruct (decide (key = k)) as [->|]; naive_solver. }
  split; simpl; try done.
  - intros k i j. rewrite lookup_insert_Some, readers_cons. simpl. intros [[-> ?]|[Hne Hk]]; simplify_eq.
    + rewrite decide_True by done. rewrite u32_small by lia. done.
    + rewrite decide_False by done. rewrite Z.add_0_r. by apply (Ic k i j).
  - intros k q. rewrite elem_of_cons, Hh. intros [[= -> ->]|?]; [left; by exists n|by apply Ih].
  - intros k q. rewrite Hh. apply Ia.
  - intros k1 k2 q. rewrite !Hh. apply Ik.
  - intros t k q Hd. destruct (Is t k q Hd) as [j Hj]. exists j. rewrite lookup_insert_Some.
    right. split; [congruence|done].
  - intros t k q Ht. rewrite readers_cons. destruct (Il t k q Ht). split; [|done]. case_decide; lia.
  - unfold zlen in *. simpl. lia.
Qed.

Lemma inv_release m h ths hs ow key p i n :
  m !! key = Some (mkMapElement i n) -> (key, p) ∈ hs ->
  (readers key (drop_handle (key, p) hs) = 0 ->
   forall t q, ths !! t <> Some (Destroying key q false)) ->
  inv (mkState m h ths hs ow) ->
  inv (mkState (<[key := mkMapElement i (u32 (n - 1))]> m) h ths (drop_handle (key, p) hs) ow).
Proof.
  intros Hm Hin Hz [Ic Ih Ia Io Ik Is I1 Il Ib If]. simpl in *.
  pose proof (Ic key i n Hm) as Hn. pose proof (readers_bounds key hs) as Hr.
  pose proof (readers_pos key p hs Hin) as Hpos.
  set (hs' := drop_handle (key, p) hs) in *.
  assert (Hcnt : forall k, readers k hs' = readers k hs - (if decide (key = k) then 1 else 0)).
  { intros k. by apply (drop_handle_readers k (key, p)). }
  assert (Hh : forall k q,
     holds (mkState (<[key := mkMapElement i (u32 (n - 1))]> m) h ths hs' ow) k q
     <-> holds (mkState m h ths hs ow) k q).
  { intros k q. unfold holds, destroying. simpl. setoid_rewrite lookup_insert_Some.
    destruct (decide (key = k)) as [->|]; naive_solver. }
  split; simpl; try done.
  - intros k j c. rewrite lookup_insert_Some, Hcnt. intros [[-> ?]|[Hne Hk]]; simplify_eq.
    + rewrite decide_True by done. rewrite u32_small by lia. done.
    + rewrite decide_False by done. rewrite Z.sub_0_r. by apply (Ic k j c).
  - intros k q Hq. rewrite Hh. apply Ih. by apply drop_handle_elem in Hq.
  - intros k q. rewrite Hh. apply Ia.
  - intros k1 k2 q. rewrite !Hh. apply Ik.
  - intros t k q Hd. destruct (Is t k q Hd) as [j Hj]. destruct (decide (key = k)) as [->|Hne].
    + rewrite lookup_insert_eq. rewrite Hm in Hj. simplify_eq. by eexists.
    + rewrite lookup_insert_ne by done. by exists j.
  - intros t k q Ht. destruct (Il t k q Ht) as [Hp Hf]. split; [|done].
    pose proof (readers_bounds k hs'). destruct (decide (key = k)) as [->|Hne].
    + destruct (Z.eq_dec (readers k hs') 0) as [E|]; [|lia]. by destruct (Hz E t q).
    + rewrite Hcnt, decide_False by done. lia.
  - pose proof (drop_handle_zlen (key, p) hs). fold hs' in H0. lia.
Qed.

(** Threads that only fall asleep or wake up elsewhere. *)
Lemma inv_threads m h ths ths' hs ow :
  (forall t key p, destroying (mkState m h ths' hs ow) t key p <->
                   destroying (mkState m h ths hs ow) t key p) ->
  (forall t key p, ths' !! t = Some (Destroying key p false) ->
                   ths !! t = Some (Destroying key p false)) ->
  inv (mkState m h ths hs ow) -> inv (mkState m h ths' hs ow).
Proof.
  intros Hd Hs [Ic Ih Ia Io Ik Is I1 Il Ib If]. simpl in *.
  assert (Hh : forall k q, holds (mkState m h ths' hs ow) k q <-> holds (mkState m h ths hs ow) k q).
  { intros k q. unfold holds. by setoid_rewrite Hd. }
  split; simpl; try done.
  - intros k q Hq. rewrite Hh. by apply Ih.
  - intros k q. rewrite Hh. apply Ia.
  - intros k1 k2 q. rewrite !Hh. apply Ik.
  - intros t k q. rewrite Hd. apply Is.
  - intros t1 t2 k p1 p2. rewrite !Hd. apply I1.
  - intros t k q Ht. by apply (Il t), Hs.
Qed.

Lemma inv_wake m h ths hs ow t th th' :
  ths !! t = Some th ->
  (th' = th \/ (exists key p, th = Destroying key p false /\ th' = Destroying key p true) \/
   (exists b b', th = WaitingEmpty b /\ th' = WaitingEmpty b')) ->
  inv (mkState m h ths hs ow) -> inv (mkState m h (<[t := th']> ths) hs ow).
Proof.
  intros Ht Hth. apply inv_threads.
  - intros u k q. unfold destroying. simpl. setoid_rewrite lookup_insert_Some.
    destruct (decide (t = u)) as [->|]; [rewrite Ht|]; naive_solver.
  - intros u k q. rewrite lookup_insert_Some. naive_solver.
Qed.

Lemma inv_waitForEmptyMap t s :
  (threads s !! t = None \/ exists b, threads s !! t = Some (WaitingEmpty b)) ->
  inv s -> inv (waitForEmptyMap t s).
Proof.
  destruct s as [m h ths hs ow]. unfold waitForEmptyMap. simpl. intros Ht. apply inv_threads.
  - intros u k q. unfold destroying. simpl. case_decide.
    + setoid_rewrite lookup_delete_Some. naive_solver.
    + setoid_rewrite lookup_insert_Some. naive_solver.
  - intros u k q. case_decide; [rewrite lookup_delete_Some|rewrite lookup_insert_Some]; naive_solver.
Qed.

(** What a notification on one of the two conditions does to the threads. *)
Lemma notify_empty_inv m h ths ths' hs ow choice :
  notify_one m_noItemsOnMapCondition choice ths = Some ths' ->
  inv (mkState m h ths hs ow) -> inv (mkState m h ths' hs ow).
Proof.
  intros [[-> _]|(t & th & th' & Ht & Hw & ->)]%notify_one_inv; [done|].
  eapply inv_wake; [done|]. destruct th as [| []]; naive_solver.
Qed.

Lemma noReadersCondition_Some key th th' :
  noReadersCondition key th = Some th' ->
  exists p, th = Destroying key p false /\ th' = Destroying key p true.
Proof.
  destruct th as [k p []|]; simpl; try done. case_decide; [|done]. intros. simplify_eq. by exists p.
Qed.

Lemma notify_readers_inv m h ths ths' hs ow key choice :
  notify_one (noReadersCondition key) choice ths = Some ths' ->
  inv (mkState m h ths hs ow) ->
  inv (mkState m h ths' hs ow) /\ forall t q, ths' !! t <> Some (Destroying key q false).
Proof.
  intros [[-> Hn]|(t & th & th' & Ht & Hw & ->)]%notify_one_inv Hinv.
  - split; [done|]. intros t q Ht. specialize (Hn t _ Ht). simpl in Hn. by rewrite decide_True in Hn.
  - apply noReadersCondition_Some in Hw as (p & -> & ->). split; [eapply inv_wake; naive_solver|].
    intros u q Hu. apply lookup_insert_Some in Hu as [[-> ?]|[Hne Hu]]; [done|].
    apply Hne. apply (inv_one _ Hinv t u key p q); by eexists.
Qed.

(** destroyElement takes the item out of its element. *)
Lemma inv_begin m h ths hs ow t key p n :
  ths !! t = None -> m !! key = Some (mkMapElement (Some p) n) ->
  inv (mkState m h ths hs ow) ->
  inv (mkState (<[key := mkMapElement None n]> m) h (<[t := Destroying key p true]> ths) hs ow).
Proof.
  intros Ht Hm [Ic Ih Ia Io Ik Is I1 Il Ib If]. simpl in *.
  assert (Hd : forall u k q,
    destroying (mkState (<[key := mkMapElement None n]> m) h (<[t := Destroying key p true]> ths) hs ow) u k q
    <-> (u = t /\ k = key /\ q = p) \/ destroying (mkState m h ths hs ow) u k q).
  { intros u k q. unfold destroying. simpl. setoid_rewrite lookup_insert_Some.
    destruct (decide (t = u)) as [->|]; [rewrite Ht|]; naive_solver. }
  assert (Hno : forall u q, ~ destroying (mkState m h ths hs ow) u key q).
  { intros u q Hq. destruct (Is u key q Hq) as [j Hj]. congruence. }
  assert (Hh : forall k q,
    holds (mkState (<[key := mkMapElement None n]> m) h (<[t := Destroying key p true]> ths) hs ow) k q
    <-> holds (mkState m h ths hs ow) k q).
  { intros k q. unfold holds. setoid_rewrite Hd. simpl. setoid_rewrite lookup_insert_Some.
    destruct (decide (key = k)) as [->|]; [|naive_solver]. rewrite Hm. naive_solver. }
  split; simpl; try done.
  - intros k i j. rewrite lookup_insert_Some. naive_solver.
  - intros k q Hq. rewrite Hh. by apply Ih.
  - intros k q. rewrite Hh. apply Ia.
  - intros k1 k2 q. rewrite !Hh. apply Ik.
  - intros u k q. rewrite Hd. setoid_rewrite lookup_insert_Some.
    intros [(-> & -> & ->)|Hq]; [by eexists; left|]. destruct (Is u k q Hq) as [j Hj].
    exists j. right. split; [|done]. intros ->. congruence.
  - intros u1 u2 k p1 p2. rewrite !Hd.
    intros [(E1&E2&E3)|Ha] [(E4&E5&E6)|Hb]; subst; try done;
      [by apply Hno in Hb|by apply Hno in Ha|by apply (I1 u1 u2 k p1 p2)].
  - intros u k q. rewrite lookup_insert_Some. intros [[-> ?]|[_ Hu]]; [done|]. by apply (Il u).
Qed.

(** The loop of destroyElement goes back to sleep. *)
Lemma inv_sleep m h ths hs ow t key p :
  ths !! t = Some (Destroying key p true) -> 0 < readers key hs ->
  inv (mkState m h ths hs ow) ->
  inv (mkState m (stopReaders p h) (<[t := Destroying key p false]> ths) hs ow).
Proof.
  intros Ht Hr [Ic Ih Ia Io Ik Is I1 Il Ib If]. simpl in *.
  assert (Hd : forall u k q,
    destroying (mkState m (stopReaders p h) (<[t := Destroying key p false]> ths) hs ow) u k q
    <-> destroying (mkState m h ths hs ow) u k q).
  { intros u k q. unfold destroying. simpl. setoid_rewrite lookup_insert_Some.
    destruct (decide (t = u)) as [->|]; [rewrite Ht|]; naive_solver. }
  assert (Hh : forall k q,
    holds (mkState m (stopReaders p h) (<[t := Destroying key p false]> ths) hs ow) k q
    <-> holds (mkState m h ths hs ow) k q).
  { intros k q. unfold holds. by setoid_rewrite Hd. }
  assert (Hp : p ∈ alive h) by (apply (Ia key p); right; exists t; by exists true).
  split; simpl; rewrite ?touch_alive by done; try done.
  - intros k q Hq. rewrite Hh. by apply Ih.
  - intros k q. rewrite Hh. apply Ia.
  - intros k1 k2 q. rewrite !Hh. apply Ik.
  - intros u k q. rewrite Hd. apply Is.
  - intros u1 u2 k p1 p2. rewrite !Hd. apply I1.
  - intros u k q. rewrite lookup_insert_Some. intros [[-> ?]|[_ Hu]]; simplify_eq.
    + split; [done|]. set_solver.
    + destruct (Il u k q Hu). split; [done|]. set_solver.
Qed.

(** The loop ends: the item is deleted and the element erased. *)
Lemma inv_erase m h ths hs ow t key p :
  ths !! t = Some (Destroying key p true) -> readers key hs = 0 ->
  inv (mkState m h ths hs ow) ->
  inv (mkState (delete key m) (deleteItem p h) (delete t ths) hs ow).
Proof.
  intros Ht Hr [Ic Ih Ia Io Ik Is I1 Il Ib If]. simpl in *.
  assert (Htd : destroying (mkState m h ths hs ow) t key p) by (by exists true).
  assert (Hp : p ∈ alive h /\ p ∉ ow) by (apply (Ia key p); right; by exists t).
  assert (Hd : forall u k q,
    destroying (mkState (delete key m) (deleteItem p h) (delete t ths) hs ow) u k q
    <-> u <> t /\ destroying (mkState m h ths hs ow) u k q).
  { intros u k q. unfold destroying. simpl. setoid_rewrite lookup_delete_Some. naive_solver. }
  assert (Hh : forall k q,
    holds (mkState (delete key m) (deleteItem p h) (delete t ths) hs ow) k q
    <-> k <> key /\ holds (mkState m h ths hs ow) k q).
  { intros k q. unfold holds. setoid_rewrite Hd. simpl. setoid_rewrite lookup_delete_Some.
    split.
    - intros [(n & Hne & Hn)|(u & Hu & Hq)]; [split; [done|left; by exists n]|].
      split; [|right; by exists u]. intros ->. by apply Hu, (I1 u t key q p).
    - intros [Hne [[n Hn]|[u Hu]]]; [left; by exists n|]. right. exists u. split; [|done].
      intros ->. destruct Hu as [w Hw]. simpl in Hw. congruence. }
  split; simpl; rewrite ?touch_alive by apply Hp; try done.
  - intros k i n. rewrite lookup_delete_Some. intros [_ Hk]. by apply (Ic k i n).
  - intros k q Hq. rewrite Hh. split; [|by apply Ih]. intros ->.
    apply readers_pos in Hq. lia.
  - intros k q. rewrite Hh. intros [Hne Hq]. destruct (Ia k q Hq). split; [|done].
    apply elem_of_difference. split; [done|]. intros ->%elem_of_singleton.
    apply Hne, (Ik k key p); [done|]. right. by exists t.
  - set_solver.
  - intros k1 k2 q. rewrite !Hh. intros [_ Ha] [_ Hb]. by apply (Ik k1 k2 q).
  - intros u k q. rewrite Hd. intros [Hu Hq]. destruct (Is u k q Hq) as [n Hn]. exists n.
    rewrite lookup_delete_Some. split; [|done]. intros ->. by apply Hu, (I1 u t k q p).
  - intros u1 u2 k p1 p2. rewrite !Hd. intros [_ Ha] [_ Hb]. by apply (I1 u1 u2 k p1 p2).
  - intros u k q. rewrite lookup_delete_Some. intros [_ Hu]. by apply (Il u).
Qed.

Lemma inv_destroy_step t key p choice s s' n :
  threads s !! t = Some (Destroying key p true) ->
  m_keyValueMap s !! key = Some (mkMapElement None n) ->
  inv s -> destroy_step t key p choice s = Some s' -> inv s'.
Proof.
  destruct s as [m h ths hs ow]. simpl. intros Ht Hm Hinv.
  pose proof (inv_count _ Hinv key None n Hm) as Hn. simpl in Hn.
  pose proof (readers_bounds key hs) as Hr.
  unfold destroy_step. simpl. rewrite (destroyElement_round_spec key p m h None n Hm).
  destruct (n =? 0) eqn:E; zbool; simpl.
  - assert (Hi : inv (mkState (delete key m) (deleteItem p h) (delete t ths) hs ow))
      by (apply inv_erase; [done|lia|done]).
    intros Hs. case_bool_decide.
    + destruct (notify_one _ choice _) as [ths'|] eqn:En; [|done]. simplify_eq.
      by eapply notify_empty_inv.
    + by simplify_eq.
  - intros. simplify_eq. apply inv_sleep; [done|lia|done].
Qed.

(** Taking the mutex for the first time or after a wake-up makes no difference
    to the loop. *)
Lemma destroy_step_woken t key p choice m h ths hs ow :
  destroy_step t key p choice (mkState m h (<[t := Destroying key p true]> ths) hs ow) =
  destroy_step t key p choice (mkState m h ths hs ow).
Proof.
  unfold destroy_step. simpl. destruct (destroyElement_round key p m h) as [[[|b] m'] h'].
  - by rewrite insert_insert_eq.
  - by rewrite delete_insert_eq.
Qed.

Lemma inv_exec s l s' : inv s -> exec l s = Some s' -> inv s'.
Proof.
  destruct s as [m h ths hs ow]. intros Hinv.
  destruct l as [p|key i|key|key p|key p choice|t key choice|t|t choice|t]; simpl.
  - case_decide; intros; simplify_eq. by apply inv_new.
  - case_decide as Hi; [|done]. rewrite addElement_spec.
    destruct (m !! key) eqn:Hm; intros; simplify_eq; [done|]. by apply inv_add.
  - case_decide as Hb; [|done]. rewrite openElement_spec.
    destruct (m !! key) as [[[p|] n]|] eqn:Hm; intros; simplify_eq; [|done|done].
    by apply inv_open.
  - case_decide as Hin; [|done]. intros. simplify_eq.
    destruct (inv_alive _ Hinv key p (inv_handle _ Hinv key p Hin)) as [Hp _].
    by rewrite touch_alive.
  - case_decide as Hin; [|done]. rewrite releaseElement_spec.
    destruct (inv_element _ key p Hinv Hin) as [[i n] Hm]. simpl in Hm. rewrite Hm.
    pose proof (inv_count _ Hinv key i n Hm) as Hn. simpl in Hn.
    pose proof (readers_pos key p hs Hin) as Hpos. pose proof (readers_bounds key hs).
    pose proof (inv_bound _ Hinv) as Hb. simpl in Hb.
    pose proof (drop_handle_readers key (key, p) hs Hin) as Hd. simpl in Hd.
    rewrite decide_True in Hd by done.
    destruct (n =? 0) eqn:E0; zbool; [lia|]. rewrite (u32_small (n - 1)) by lia.
    intros Hs. destruct (n - 1 =? 0) eqn:E1; zbool.
    + destruct (notify_one _ choice ths) as [ths'|] eqn:En; [|done]. simplify_eq.
      destruct (notify_readers_inv _ _ _ _ _ _ _ _ En Hinv) as [Hinv' Hw].
      rewrite <- (u32_small (readers key hs - 1)) by lia. by apply inv_release.
    + simplify_eq. rewrite <- (u32_small (readers key hs - 1)) by lia.
      apply inv_release; try done. lia.
  - destruct (ths !! t) eqn:Ht; [done|]. rewrite destroyElement_begin_spec.
    destruct (m !! key) as [[[p|] n]|] eqn:Hm; intros Hs; [|by simplify_eq|by simplify_eq].
    rewrite <- destroy_step_woken in Hs. eapply (inv_destroy_step t key p choice); [| | |exact Hs]; simpl.
    + apply lookup_insert_eq.
    + apply lookup_insert_eq.
    + by apply inv_begin.
  - destruct (ths !! t) eqn:Ht; [done|]. intros. simplify_eq.
    apply (inv_waitForEmptyMap t); [by left|done].
  - destruct (ths !! t) as [[key p []|[]]|] eqn:Ht; try done; intros Hs.
    + destruct (inv_slot _ Hinv t key p) as [n Hn]; [by exists true|].
      exact (inv_destroy_step t key p choice (mkState m h ths hs ow) s' n Ht Hn Hinv Hs).
    + simplify_eq. apply (inv_waitForEmptyMap t); [right; by exists true|done].
  - destruct (ths !! t) as [[key p []|[]]|] eqn:Ht; intros; simplify_eq;
      eapply inv_wake; try done; [right; left; by exists key, p|].
    right; right. by exists false, true.
Qed.

Lemma inv_reachable s : reachable initial exec s -> inv s.
Proof.
  apply (reachable_invariant initial exec inv); [apply inv_initial|intros ???; apply inv_exec].
Qed.

(** ** Safety *)

(** C26: whatever the threads that use a map do, in whatever order, no item is
    used, told to stop or deleted after it was deleted, releaseElement never
    throws nor misses its element, and what a client has open is alive. *)
Theorem map_items_are_safe s :
  reachable initial exec s ->
  faults (heap s) = [] /\ forall key p, (key, p) ∈ handles s -> p ∈ alive (heap s).
Proof.
  intros Hi%inv_reachable. split; [by apply inv_faults|].
  intros key p Hin. by apply (inv_alive s Hi key p), inv_handle.
Qed.

(** ** Progress of destroyElement *)

(** The threads after a step, for a thread that destroys [key]. *)
Lemma destroy_step_readers u k q choice s s' key :
  destroy_step u k q choice s = Some s' -> readers key (handles s') = readers key (handles s).
Proof.
  unfold destroy_step. destruct (destroyElement_round _ _ _ _) as [[[|[]] m'] h']; simpl; intros Hs;
    try by simplify_eq.
  destruct (notify_one _ _ _) as [ths'|]; [by simplify_eq|done].
Qed.

(** C32: while a thread destroys the item of a key, nobody opens it, so its
    readers only decrease, and the item has been told to stop when the thread
    sleeps; once the readers are gone the thread is not asleep, and its next
    step erases the key, deletes the item and returns. *)
Theorem destroyer_finishes s t key p woken :
  reachable initial exec s -> threads s !! t = Some (Destroying key p woken) ->
  (forall l s', exec l s = Some s' -> readers key (handles s') <= readers key (handles s)) /\
  (woken = false -> p ∈ m_mapFinished (heap s)) /\
  (readers key (handles s) = 0 ->
   woken = true /\
   exists choice s', exec (Resume t choice) s = Some s' /\
     m_keyValueMap s' !! key = None /\ p ∉ alive (heap s') /\ threads s' !! t = None).
Proof.
  intros Hi%inv_reachable Ht.
  destruct (inv_slot s Hi t key p) as [n Hn]; [by exists woken|].
  pose proof (inv_count s Hi key None n Hn) as Hc.
  split; [|split].
  - intros l s' Hs. destruct s as [m h ths hs ow]; simpl in *.
    destruct l as [q|k i|k|k q|k q choice|u k choice|u|u choice|u]; simpl in Hs.
    + case_decide; [done|]. by simplify_eq.
    + case_decide; [|done]. destruct (addElement k i m). by simplify_eq.
    + case_decide; [|done]. rewrite openElement_spec in Hs.
      destruct (decide (k = key)) as [->|Hne]; [rewrite Hn in Hs; by simplify_eq|].
      destruct (m !! k) as [[[q|] j]|]; simplify_eq; simpl; try done.
      rewrite readers_cons, decide_False by done. lia.
    + case_decide; [|done]. by simplify_eq.
    + case_decide as Hin; [|done].
      assert (Hd : readers key (drop_handle (k, q) hs) <= readers key hs)
        by (rewrite (drop_handle_readers key (k, q) hs Hin); case_decide; lia).
      destruct (releaseElement k m) as [[[[] []]|] m']; try by simplify_eq.
      destruct (notify_one _ _ _); by simplify_eq.
    + destruct (ths !! u); [done|]. destruct (destroyElement_begin k m) as [[q|] m'].
      * apply (destroy_step_readers _ _ _ _ _ _ key) in Hs. simpl in Hs. lia.
      * by simplify_eq.
    + destruct (ths !! u); [done|]. by simplify_eq.
    + destruct (ths !! u) as [[k q []|[]]|]; try done.
      * apply (destroy_step_readers _ _ _ _ _ _ key) in Hs. simpl in Hs. lia.
      * by simplify_eq.
    + destruct (ths !! u) as [[k q []|[]]|]; by simplify_eq.
  - intros ->. by apply (inv_asleep s Hi t key p).
  - intros Hr. destruct woken; [|destruct (inv_asleep s Hi t key p Ht); lia].
    split; [done|]. destruct s as [m h ths hs ow]; simpl in *.
    destruct (notify_one_enabled m_noItemsOnMapCondition (delete t ths)) as (c & ths' & Hc').
    exists c. rewrite Ht. unfold destroy_step. simpl.
    rewrite (destroyElement_round_spec key p m h None n Hn), (proj2 (Z.eqb_eq n 0)) by lia.
    case_bool_decide.
    + rewrite Hc'. eexists. split; [done|]. simpl. rewrite lookup_delete_eq.
      split; [done|]. split; [set_solver|].
      apply notify_one_inv in Hc' as [[-> _]|(u & th & th' & Hu & _ & ->)]; [apply lookup_delete_eq|].
      apply lookup_delete_Some in Hu as [Hne _]. by rewrite lookup_insert_ne, lookup_delete_eq.
    + eexists. split; [done|]. simpl. rewrite !lookup_delete_eq. split; [done|].
      split; [set_solver|done].
Qed.

(** ** waitForEmptyMap *)

Lemma destroy_step_inv t key p choice s s' n :
  m_keyValueMap s !! key = Some (mkMapElement None n) ->
  destroy_step t key p choice s = Some s' ->
  (m_keyValueMap s' = m_keyValueMap s /\
   threads s' = <[t := Destroying key p false]> (threads s)) \/
  (m_keyValueMap s' = delete key (m_keyValueMap s) /\
   if decide (m_keyValueMap s' = ∅)
   then notify_one m_noItemsOnMapCondition choice (delete t (threads s)) = Some (threads s')
   else threads s' = delete t (threads s)).
Proof.
  intros Hn. unfold destroy_step. rewrite (destroyElement_round_spec key p _ _ None n Hn).
  destruct (n =? 0); [|intros; simplify_eq; by left]. case_bool_decide.
  - destruct (notify_one _ _ _) eqn:E; [|done]. intros. simplify_eq. right. simpl.
    by rewrite decide_True.
  - intros. simplify_eq. right. simpl. by rewrite decide_False.
Qed.

(** [w] is the only thread that waits, and not in vain. *)
Definition waits_well (w : tid) s : Prop :=
  (forall t b, threads s !! t = Some (WaitingEmpty b) -> t = w) /\
  (m_keyValueMap s = ∅ -> threads s !! w <> Some (WaitingEmpty false)).

Lemma waits_well_destroy_step w t key p choice s s' n :
  m_keyValueMap s !! key = Some (mkMapElement None n) ->
  (forall b, threads s !! t <> Some (WaitingEmpty b)) ->
  (forall u b, threads s !! u = Some (WaitingEmpty b) -> u = w) ->
  destroy_step t key p choice s = Some s' -> waits_well w s'.
Proof.
  intros Hn Ht Hw Hs.
  destruct (destroy_step_inv _ _ _ _ _ _ _ Hn Hs) as [[Em Eth]|[Em Eth]].
  - split.
    + intros u b. rewrite Eth, lookup_insert_Some. intros [[_ ?]|[_ Hu]]; [done|]. by apply Hw in Hu.
    + rewrite Em. intros E. by rewrite E, lookup_empty in Hn.
  - case_decide as Ee.
    + apply notify_one_inv in Eth as [[Eth Hno]|(u & th & th' & Hu & Hk & Eth)]; split.
      * intros u b Hu. rewrite Eth, lookup_delete_Some in Hu. by eapply Hw, Hu.
      * intros _ Hu. rewrite Eth in Hu. by specialize (Hno _ _ Hu).
      * intros v b. rewrite Eth, lookup_insert_Some, lookup_delete_Some.
        intros [[<- Hb]|[_ [_ Hv]]]; [|by eapply Hw]. apply lookup_delete_Some in Hu as [_ Hu].
        destruct th as [|[]]; simplify_eq/=. by eapply Hw.
      * intros _. rewrite Eth, lookup_insert_Some. apply lookup_delete_Some in Hu as [_ Hu].
        destruct th as [|[]]; simplify_eq/=.
        rewrite (Hw u false Hu). intros [[_ ?]|[? _]]; done.
    + split; [|done]. intros u b. rewrite Eth, lookup_delete_Some. intros [_ Hu]. by eapply Hw.
Qed.

(** The labels of a program in which only [w] calls waitForEmptyMap. *)
Definition only_waiter (w : tid) (l : label (K := K)) : Prop :=
  match l with WaitEmpty t => t = w | _ => True end.

Lemma waits_well_waitForEmptyMap w t s :
  t = w -> waits_well w s -> waits_well w (waitForEmptyMap t s).
Proof.
  intros -> [Hw He]. unfold waitForEmptyMap. split; simpl; case_decide as E.
  - intros u b. rewrite lookup_delete_Some. intros [_ Hu]. by eapply Hw.
  - intros u b. rewrite lookup_insert_Some. intros [[? _]|[_ Hu]]; [done|]. by eapply Hw.
  - by rewrite lookup_delete_eq.
  - done.
Qed.

(** Steps that leave the waiters alone and the map not emptier. *)
Lemma waits_well_other w s s' :
  (forall t b, threads s' !! t = Some (WaitingEmpty b) -> threads s !! t = Some (WaitingEmpty b)) ->
  (m_keyValueMap s' = ∅ -> m_keyValueMap s = ∅) ->
  waits_well w s -> waits_well w s'.
Proof.
  intros Ht Hm [Hw He]. split; [intros t b Hu; by eapply Hw, Ht|].
  intros E Hu. by eapply He, Ht; [apply Hm|].
Qed.

#[local] Ltac other Hw :=
  eapply waits_well_other; [| |exact Hw]; simpl;
  [try done|first [done|by intros ?%insert_non_empty]].

Lemma waits_well_exec w s l s' :
  inv s -> only_waiter w l -> waits_well w s -> exec l s = Some s' -> waits_well w s'.
Proof.
  destruct s as [m h ths hs ow]. intros Hinv Hl Hw.
  destruct l as [q|k i|k|k q|k q choice|u k choice|u|u choice|u]; simpl in *.
  - case_decide; [done|]. intros. simplify_eq. other Hw.
  - case_decide; [|done]. rewrite addElement_spec. destruct (m !! k) eqn:Hm; intros; simplify_eq;
      other Hw.
  - case_decide; [|done]. rewrite openElement_spec.
    destruct (m !! k) as [[[q|] n]|] eqn:Hm; intros; simplify_eq;
      other Hw.
  - case_decide; [|done]. intros. simplify_eq. other Hw.
  - case_decide as Hin; [|done]. rewrite releaseElement_spec.
    destruct (inv_element _ k q Hinv Hin) as [[i n] Hm]. simpl in Hm. rewrite Hm.
    destruct (n =? 0); [intros; simplify_eq; other Hw|].
    destruct (u32 (n - 1) =? 0).
    + destruct (notify_one _ choice ths) as [ths'|] eqn:En; [|done]. intros. simplify_eq.
      other Hw.
      intros t b. apply notify_one_inv in En as [[-> _]|(v & th & th' & Hv & Hk & ->)]; [done|].
      apply noReadersCondition_Some in Hk as (r & -> & ->).
      rewrite lookup_insert_Some. intros [[_ ?]|[_ ?]]; done.
    + intros. simplify_eq. other Hw.
  - destruct (ths !! u) eqn:Hu; [done|]. rewrite destroyElement_begin_spec.
    destruct (m !! k) as [[[q|] n]|] eqn:Hm; intros Hs; [|simplify_eq; other Hw|simplify_eq; other Hw].
    eapply (waits_well_destroy_step w u k q choice _ s' n); [| | |exact Hs]; simpl.
    + apply lookup_insert_eq.
    + intros b. by rewrite Hu.
    + apply Hw.
  - destruct (ths !! u); [done|]. intros. simplify_eq. by apply waits_well_waitForEmptyMap.
  - destruct (ths !! u) as [[k q []|[]]|] eqn:Hu; try done; intros Hs.
    + destruct (inv_slot _ Hinv u k q) as [n Hn]; [by exists true|].
      eapply (waits_well_destroy_step w u k q choice (mkState m h ths hs ow) s' n);
        [done| |apply Hw|exact Hs]. intros b. simpl. by rewrite Hu.
    + simplify_eq. apply waits_well_waitForEmptyMap; [|done]. by apply (proj1 Hw u true).
  - destruct (ths !! u) as [[k q []|[]]|] eqn:Hu; intros; simplify_eq.
    + other Hw. intros t b.
      rewrite lookup_insert_Some. intros [[_ ?]|[_ ?]]; done.
    + destruct Hw as [Hw He]. split; simpl in *.
      * intros t b. rewrite lookup_insert_Some. intros [[<- _]|[_ Ht]]; [by eapply Hw|by eapply Hw].
      * intros E. rewrite (Hw u false Hu), lookup_insert_eq. done.
Qed.

(** With one thread in waitForEmptyMap, the last destroyElement wakes it:
    whatever the schedule, it does not sleep when the map is empty, and its
    next step returns unless the map has elements again. *)
Theorem single_waiter_is_woken w ls s s' :
  initial s -> Forall (only_waiter w) ls -> run exec ls s = Some s' ->
  m_keyValueMap s' = ∅ ->
  threads s' !! w <> Some (WaitingEmpty false) /\
  (threads s' !! w = Some (WaitingEmpty true) ->
   exists s'', exec (Resume w None) s' = Some s'' /\ threads s'' !! w = None).
Proof.
  intros Hs Hl Hrun He.
  assert (Hw : inv s' /\ waits_well w s').
  { refine (run_invariant exec (fun s => inv s /\ waits_well w s) (only_waiter w) _ ls s s' Hl _ Hrun).
    - intros s1 l s2 Ha [Hi Hw] Hx. split; [by eapply inv_exec|by eapply waits_well_exec].
    - split; [by apply inv_initial|]. rewrite Hs. split; done. }
  split; [by apply Hw|]. intros Ht. destruct s' as [m h ths hs ow]. simpl in *. rewrite Ht.
  eexists. split; [done|]. unfold waitForEmptyMap. simpl. rewrite decide_True by done.
  apply lookup_delete_eq.
Qed.

(** [w] sleeps on an empty map, and no thread is left to wake it. *)
Definition forgotten (w : tid) s : Prop :=
  m_keyValueMap s = ∅ /\ handles s = [] /\ threads s !! w = Some (WaitingEmpty false) /\
  forall t key p b, threads s !! t <> Some (Destroying key p b).

(** Nothing is added and the system does not wake [w] by itself. *)
Definition quiet (w : tid) (l : label (K := K)) : Prop :=
  match l with Add _ _ => False | Spurious t => t <> w | _ => True end.

Lemma forgotten_exec w s l s' :
  quiet w l -> forgotten w s -> exec l s = Some s' -> forgotten w s'.
Proof.
  destruct s as [m h ths hs ow]. intros Hl (Hm & Hh & Hw & Hd). simpl in *.
  destruct l as [q|k i|k|k q|k q choice|u k choice|u|u choice|u]; simpl in *; subst m hs.
  - case_decide; [done|]. intros. simplify_eq. by repeat split.
  - done.
  - case_decide; [|done]. rewrite openElement_spec, lookup_empty. intros. simplify_eq. by repeat split.
  - case_decide as Hin; [|done]. by apply elem_of_nil in Hin.
  - case_decide as Hin; [|done]. by apply elem_of_nil in Hin.
  - destruct (ths !! u) eqn:Hu; [done|]. rewrite destroyElement_begin_spec, lookup_empty.
    intros. simplify_eq. by repeat split.
  - destruct (ths !! u) eqn:Hu; [done|]. intros. simplify_eq. unfold forgotten, waitForEmptyMap.
    simpl. rewrite decide_True by done. assert (u <> w) by congruence.
    rewrite lookup_delete_ne by done. split_and!; try done.
    intros t k p b. rewrite lookup_delete_Some. intros [_ Ht]. by apply Hd in Ht.
  - destruct (ths !! u) as [[k q []|[]]|] eqn:Hu; try done; [by apply Hd in Hu|].
    intros. simplify_eq. unfold forgotten, waitForEmptyMap.
    simpl. rewrite decide_True by done. assert (u <> w) by congruence.
    rewrite lookup_delete_ne by done. split_and!; try done.
    intros t k p b. rewrite lookup_delete_Some. intros [_ Ht]. by apply Hd in Ht.
  - destruct (ths !! u) as [[k q []|[]]|] eqn:Hu; try done; [by apply Hd in Hu|].
    intros. simplify_eq. unfold forgotten. simpl. rewrite lookup_insert_ne by done.
    split_and!; try done. intros t k p b. rewrite lookup_insert_Some.
    intros [[_ ?]|[_ Ht]]; [done|by apply Hd in Ht].
Qed.

(** An element without item: what [addElement(key, nullptr)] leaves. *)
Definition hollow key s : Prop :=
  m_keyValueMap s !! key = Some (mkMapElement None 0) /\
  (forall p, (key, p) ∉ handles s) /\
  forall t p b, threads s !! t <> Some (Destroying key p b).

Lemma destroy_step_other t key p choice s s' n :
  m_keyValueMap s !! key = Some (mkMapElement None n) ->
  destroy_step t key p choice s = Some s' ->
  handles s' = handles s /\
  (forall k, k <> key -> m_keyValueMap s' !! k = m_keyValueMap s !! k) /\
  (forall u k q b, threads s' !! u = Some (Destroying k q b) ->
     k = key \/ threads s !! u = Some (Destroying k q b)).
Proof.
  intros Hn Hs. split.
  { unfold destroy_step in Hs. destruct (destroyElement_round _ _ _ _) as [[[|[]] ?] ?];
      simplify_eq/=; try done. destruct (notify_one _ _ _); by simplify_eq. }
  destruct (destroy_step_inv _ _ _ _ _ _ _ Hn Hs) as [[Em Eth]|[Em Eth]]; rewrite Em.
  - split; [done|]. intros u k q b. rewrite Eth, lookup_insert_Some.
    intros [[_ ?]|[_ ?]]; simplify_eq; auto.
  - split; [intros k Hk; by rewrite lookup_delete_ne|]. intros u k q b.
    assert (Hdel : delete t (threads s) !! u = Some (Destroying k q b) ->
      k = key \/ threads s !! u = Some (Destroying k q b))
      by (rewrite lookup_delete_Some; intros [_ ?]; auto).
    case_decide; [|by rewrite Eth].
    apply notify_one_inv in Eth as [[-> _]|(v & th & th' & Hv & Hk & ->)]; [done|].
    rewrite lookup_insert_Some. intros [[_ ?]|[_ ?]]; [|auto].
    destruct th as [|[]]; simplify_eq/=.
Qed.

Lemma hollow_destroy_step t k p choice s s' n key :
  k <> key -> m_keyValueMap s !! k = Some (mkMapElement None n) ->
  destroy_step t k p choice s = Some s' -> hollow key s -> hollow key s'.
Proof.
  intros Hne Hn Hs (Hm & Hh & Hd).
  destruct (destroy_step_other _ _ _ _ _ _ _ Hn Hs) as (Eh & Em & Ed).
  split; [by rewrite Em|]. split; [by rewrite Eh|].
  intros u q b Hu. destruct (Ed _ _ _ _ Hu) as [?|Hu']; [done|by apply Hd in Hu'].
Qed.

Lemma hollow_exec key s l s' : inv s -> hollow key s -> exec l s = Some s' -> hollow key s'.
Proof.
  destruct s as [m h ths hs ow]. intros Hinv Hhol. pose proof Hhol as (Hm & Hh & Hd). simpl in *.
  destruct l as [q|k i|k|k q|k q choice|u k choice|u|u choice|u]; simpl.
  - case_decide; [done|]. intros. by simplify_eq.
  - case_decide; [|done]. rewrite addElement_spec.
    destruct (m !! k) eqn:Hk; intros; simplify_eq; [done|].
    split; [|done]. simpl. rewrite lookup_insert_ne by congruence. done.
  - case_decide; [|done]. rewrite openElement_spec.
    destruct (m !! k) as [[[q|] n]|] eqn:Hk; intros; simplify_eq; [|done|done].
    assert (k <> key) by congruence.
    split; [simpl; by rewrite lookup_insert_ne|]. split; [|done].
    intros r. simpl. rewrite elem_of_cons. intros [?|Hr]; [congruence|by apply Hh in Hr].
  - case_decide; [|done]. intros. by simplify_eq.
  - case_decide as Hin; [|done]. rewrite releaseElement_spec.
    assert (k <> key) by (intros ->; by apply Hh in Hin).
    destruct (inv_element _ k q Hinv Hin) as [[i n] Hk]. simpl in Hk. rewrite Hk.
    assert (Hh' : forall r, (key, r) ∉ drop_handle (k, q) hs)
      by (intros r Hr; by apply drop_handle_elem, Hh in Hr).
    destruct (n =? 0); [intros; by simplify_eq|].
    assert (Hm' : <[k := mkMapElement i (u32 (n - 1))]> m !! key = Some (mkMapElement None 0))
      by (by rewrite lookup_insert_ne).
    destruct (u32 (n - 1) =? 0); [|intros; by simplify_eq].
    destruct (notify_one _ choice ths) as [ths'|] eqn:En; [|done]. intros. simplify_eq.
    split; [done|]. split; [done|]. simpl.
    apply notify_one_inv in En as [[-> _]|(v & th & th' & Hv & Hk' & ->)]; [done|].
    apply noReadersCondition_Some in Hk' as (r & -> & ->).
    intros t p b. rewrite lookup_insert_Some. intros [[_ ?]|[_ Ht]]; [congruence|by apply Hd in Ht].
  - destruct (ths !! u) eqn:Hu; [done|]. rewrite destroyElement_begin_spec.
    destruct (m !! k) as [[[q|] n]|] eqn:Hk; intros Hs; [|by simplify_eq|by simplify_eq].
    assert (k <> key) by congruence.
    apply (hollow_destroy_step _ _ _ _ _ _ n key) in Hs; [done|done|apply lookup_insert_eq|].
    split; [simpl; by rewrite lookup_insert_ne|done].
  - destruct (ths !! u) eqn:Hu; [done|]. intros. simplify_eq. split; [done|]. split; [done|].
    unfold waitForEmptyMap. simpl. intros t p b. case_decide.
    + rewrite lookup_delete_Some. intros [_ Ht]. by apply Hd in Ht.
    + rewrite lookup_insert_Some. intros [[_ ?]|[_ Ht]]; [done|by apply Hd in Ht].
  - destruct (ths !! u) as [[k q []|[]]|] eqn:Hu; try done; intros Hs.
    + destruct (inv_slot _ Hinv u k q) as [n Hn]; [by exists true|]. simpl in Hn.
      assert (k <> key) by (intros ->; by apply Hd in Hu).
      by apply (hollow_destroy_step _ _ _ _ _ _ n key) in Hs.
    + simplify_eq. split; [done|]. split; [done|].
      unfold waitForEmptyMap. simpl. intros t p b. case_decide.
      * rewrite lookup_delete_Some. intros [_ Ht]. by apply Hd in Ht.
      * rewrite lookup_insert_Some. intros [[_ ?]|[_ Ht]]; [done|by apply Hd in Ht].
  - destruct (ths !! u) as [[k q []|[]]|] eqn:Hu; intros; simplify_eq;
      (split; [done|]; split; [done|]); simpl; intros t p b; rewrite lookup_insert_Some;
      intros [[_ ?]|[_ Ht]]; simplify_eq; try by apply Hd in Ht. by apply Hd in Hu.
Qed.

End Spec.

(** Of two threads in waitForEmptyMap the code wakes one when the map
    becomes empty (notify_one); the other one sleeps on, whatever is run after
    that, until an element is added again. *)
Theorem second_waiter_sleeps :
  exists s : state (K := nat),
    run exec [New 1; Add 7%nat (Some 1%positive); WaitEmpty 1; WaitEmpty 2;
              Destroy 0 7%nat (Some 1%nat); Resume 1 None]
      (mkState ∅ (mkHeap ∅ ∅ []) ∅ [] ∅) = Some s /\
    m_keyValueMap s = ∅ /\ threads s !! 1%nat = None /\
    forall ls s', Forall (quiet 2) ls -> run exec ls s = Some s' ->
      m_keyValueMap s' = ∅ /\ threads s' !! 2%nat = Some (WaitingEmpty false).
Proof.
  eexists. split; [vm_compute; reflexivity|]. split; [reflexivity|]. split; [reflexivity|].
  intros ls s' Hl Hrun.
  assert (Hf : forgotten 2 s'); [|destruct Hf as (? & _ & ? & _); done].
  refine (run_invariant exec (forgotten 2) (quiet 2) _ ls _ s' Hl _ Hrun).
  - intros s1 l s2. apply forgotten_exec.
  - split_and!; try reflexivity. intros t key p b Ht.
    change (({[2%nat := WaitingEmpty false]} : gmap nat (thread (K := nat))) !! t
            = Some (Destroying key p b)) in Ht.
    by apply lookup_singleton_Some in Ht as [_ ?].
Qed.

(** [addElement] accepts a null item; the element it makes is a member of
    the map for ever, since nothing opens, releases or destroys it: a
    waitForEmptyMap started after it never returns. *)
Theorem null_element_stays `{Countable K} (key : K) s ls s' :
  reachable initial exec s -> m_keyValueMap s !! key = None ->
  run exec (Add key None :: ls) s = Some s' ->
  m_keyValueMap s' !! key = Some (mkMapElement None 0) /\
  forall t, waitForEmptyMap t s' = mkState (m_keyValueMap s') (heap s')
    (<[t := WaitingEmpty false]> (threads s')) (handles s') (owned s').
Proof.
  intros Hi%inv_reachable Hm Hrun.
  assert (Hh : inv s' /\ hollow key s').
  { simpl in Hrun. destruct (exec (Add key None) s) as [s1|] eqn:Hs1; [|done].
    refine (run_invariant exec (fun s => inv s /\ hollow key s) (fun _ => True) _ ls s1 s' _ _ Hrun).
    - intros s2 l s3 _ [Hi2 Hh2] Hx. split; [by eapply inv_exec|by eapply hollow_exec].
    - by apply Forall_true.
    - split; [by eapply inv_exec|]. pose proof (fun t p => inv_slot s Hi t key p) as Hsl.
      assert (Hno : forall p, (key, p) ∉ handles s)
        by (intros p Hp; destruct (inv_element s key p Hi Hp); congruence).
      destruct s as [m h ths hs ow]. simpl in *. rewrite decide_True, addElement_spec, Hm in Hs1 by set_solver.
      simplify_eq. split; [apply lookup_insert_eq|]. split; [done|].
      intros t p b Ht. destruct (Hsl t p) as [n Hn]; [by exists b|congruence]. }
  destruct Hh as [_ Hh].
  split; [by apply Hh|]. intros t. unfold waitForEmptyMap. rewrite decide_False; [done|].
  intros E. destruct Hh as [Hk _]. by rewrite E, lookup_empty in Hk.
Qed.

(** ** Witnesses *)

(** Thread 0 destroys the item of key 7 while a client has it open and thread 5
    waits for the map to be empty; then the client releases it. *)
Definition demo_labels : list (label (K := nat)) :=
  [New 1; Add 7%nat (Some 1%positive); Open 7%nat; WaitEmpty 5; Destroy 0 7%nat None;
   Use 7%nat 1%positive].

Definition demo_release : list (label (K := nat)) := [Release 7%nat 1%positive (Some 0%nat)].

Definition demo_end : list (label (K := nat)) := [Resume 0 (Some 5%nat)].

Definition demo_initial : state (K := nat) := mkState ∅ (mkHeap ∅ ∅ []) ∅ [] ∅.

Definition after (ls : list (label (K := nat))) : state :=
  default demo_initial (run exec ls demo_initial).

Lemma after_reachable ls s :
  run exec ls demo_initial = Some s -> reachable initial exec (after ls).
Proof.
  intros Hr. unfold after. rewrite Hr. eapply run_reachable; [|exact Hr].
  by apply reachable_initial.
Qed.

Lemma map_items_are_safe_witness :
  handles (after demo_labels) = [(7%nat, 1%positive)] /\
  faults (heap (after demo_labels)) = [].
Proof.
  split; [reflexivity|]. apply (map_items_are_safe (after demo_labels)).
  eapply after_reachable. vm_compute. reflexivity.
Defined.

Lemma destroyer_finishes_witness :
  1%positive ∈ m_mapFinished (heap (after demo_labels)) /\
  exists choice s', exec (Resume 0 choice) (after (demo_labels ++ demo_release)) = Some s' /\
    m_keyValueMap s' !! 7%nat = None /\ 1%positive ∉ alive (heap s') /\ threads s' !! 0%nat = None.
Proof.
  split.
  - apply (destroyer_finishes (after demo_labels) 0 7%nat 1%positive false); try reflexivity.
    eapply after_reachable. vm_compute. reflexivity.
  - apply (destroyer_finishes (after (demo_labels ++ demo_release)) 0 7%nat 1%positive true);
      try reflexivity.
    eapply after_reachable. vm_compute. reflexivity.
Defined.

Lemma single_waiter_is_woken_witness :
  let s := after (demo_labels ++ demo_release ++ demo_end) in
  m_keyValueMap s = ∅ /\
  exists s'', exec (Resume 5 None) s = Some s'' /\ threads s'' !! 5%nat = None.
Proof.
  split; [reflexivity|].
  apply (single_waiter_is_woken 5 (demo_labels ++ demo_release ++ demo_end) demo_initial);
    try reflexivity.
  repeat constructor.
Defined.

Lemma null_element_stays_witness :
  let s := after [Add 7%nat None; Destroy 0 7%nat None; WaitEmpty 1] in
  m_keyValueMap s !! 7%nat = Some (mkMapElement None 0).
Proof.
  apply (null_element_stays 7%nat demo_initial [Destroy 0 7%nat None; WaitEmpty 1]);
    [by apply reachable_initial|reflexivity|reflexivity].
Defined.
