(* ===== verification/ThreadPool.v ===== *)
(** * The thread pool: Threads/threadpool.cpp, Helpers/random.h

    Workers take tasks from several queues; a caller puts a task in one of a
    few queues, which its key and its priority select, and waits while that
    queue is full. Every access to the queues is under one mutex; workers sleep
    on m_insertedElementCond, callers on the cond_removedElement of their
    queue; notifications are sent after the mutex is released.

    The engine std::minstd_rand0 is the one of the C++ standard; what
    std::uniform_int_distribution does with it, and std::hash, are parameters.
    A float is a binary32 of SpecFloat. The limit of the queues is set before
    the pool is used: setMaxTasksPerQueue takes no mutex, and the races of a
    later call are not modelled. *)

From stdpp Require Import gmap.
From Stdlib Require Import SpecFloat.
From S2P Require Import Prelude Interleave.

(** ** Random choices *)

(** std::minstd_rand0: a linear congruential engine. *)
Definition minstd_modulus : Z := 2147483647.

Definition minstd_seed (s : Z) : Z :=
  if s mod minstd_modulus =? 0 then 1 else s mod minstd_modulus.

Definition minstd_next (x : Z) : Z := 16807 * x mod minstd_modulus.

(** std::swap of two elements of a vector. *)
Definition swap {A} (i j : nat) (l : list A) : list A :=
  match l !! i, l !! j with
  | Some x, Some y => <[i := y]> (<[j := x]> l)
  | _, _ => l
  end.

Section Random.
  (** uniform_int_distribution(lo, hi) applied to an engine. *)
  Variable uniform : Z -> Z -> Z -> Z * Z.

Fixpoint shuffle_loop {A} (i : nat) (gen : Z) (l : list A) : list A :=
  match i with
  | O => l
  | S i' => let '(j, gen) := uniform 0 (Z.of_nat i) gen in
            shuffle_loop i' gen (swap i (Z.to_nat j) l)
  end.

Definition safe_random_shuffle {A} (l : list A) (hash : Z) : list A :=
  if (length l <=? 1)%nat then l
  else shuffle_loop (length l - 1) (minstd_seed hash) l.

(** ** Tasks and queues *)

(** A function pointer and a shared pointer, either may be null. *)
Record Task := mkTask { task : option nat; data : option nat }.

Definition isNull (t : Task) : bool :=
  match task t, data t with None, None => true | _, _ => false end.

Definition Task0 : Task := mkTask None None.

(** ** Choice of a queue *)

(** static_cast<size_t> of a float; the other values are undefined. *)
Definition float_to_size_t (f : spec_float) : option Z :=
  match f with
  | S754_zero _ => Some 0
  | S754_finite s m e =>
      let n := if 0 <=? e then Zpos m * 2 ^ e else Zpos m / 2 ^ (- e) in
      if s then (if n =? 0 then Some 0 else None)
      else if n <? 2 ^ 64 then Some n else None
  | _ => None
  end.

Definition float_of_size_t (n : Z) : spec_float := binary_normalize 24 128 n 0 false.

(** [m_queues.size()*priority] as the number of queues to choose from. *)
Definition priority_elements (size : nat) (priority : spec_float) : option nat :=
  match float_to_size_t (SFmul 24 128 (float_of_size_t (Z.of_nat size)) priority) with
  | None => None
  | Some e =>
      let e := if e =? 0 then 1 else e in
      Some (if Z.of_nat size <? e then size else Z.to_nat e)
  end.

  Variable hashFunction : string -> Z.

(** The queue for a key, and the engine it leaves. [None]: the cast is
    undefined, or there is no queue and the distribution has no value. *)
Definition getRandomQueueByKey (size : nat) (key : string) (priority : spec_float) (lRand : Z)
  : option (nat * Z) :=
  match priority_elements size priority with
  | None | Some O => None
  | Some elements =>
      let fullVector := safe_random_shuffle (seq 0 size) (hashFunction key) in
      let reducedVector := take elements fullVector in
      let '(i, lRand) := uniform 0 (Z.of_nat elements - 1) lRand in
      match reducedVector !! Z.to_nat i with
      | Some x => Some (x, lRand)
      | None => None
      end
  end.

(** The first queue with tasks, in a random order. *)
Fixpoint first_with_elements (order : list nat) (queues : list (list Task)) : option nat :=
  match order with
  | [] => None
  | i :: order =>
      match queues !! i with
      | Some (_ :: _) => Some i
      | _ => first_with_elements order queues
      end
  end.

Definition getRandomTaskQueueWithElements (queues : list (list Task)) (lRand : Z)
  : option nat * Z :=
  let '(h, lRand) := uniform 0 (2 ^ 64 - 1) lRand in
  (first_with_elements (safe_random_shuffle (seq 0 (length queues)) h) queues, lRand).

(** ** The threads *)

Inductive worker :=
| Popping                         (** about to take the mutex in popTask *)
| Sleeping                        (** on m_insertedElementCond *)
| Woken
| PopNotifies (q : nat) (t : Task) (** has [t], about to notify the queue *)
| Running (t : Task)
| Exited
| Crashed.                        (** called a null function *)

Inductive caller :=
| PushAt (q : nat) (t : Task) (timeoutMS : Z)     (** about to take the mutex *)
| PushSleeps (q : nat) (t : Task) (timeoutMS : Z) (** on cond_removedElement *)
| PushWoken (q : nat) (t : Task) (timeoutMS : Z)
| PushNotifies                    (** inserted, about to notify the workers *)
| StopNotifies.                   (** m_terminate set, about to notify all *)

#[export] Instance Task_eq_dec : EqDecision Task.
Proof. solve_decision. Defined.
#[export] Instance worker_eq_dec : EqDecision worker.
Proof. solve_decision. Defined.
#[export] Instance caller_eq_dec : EqDecision caller.
Proof. solve_decision. Defined.

Definition m_insertedElementCond (w : worker) : option worker :=
  match w with Sleeping => Some Woken | _ => None end.

Definition cond_removedElement (q : nat) (c : caller) : option caller :=
  match c with
  | PushSleeps q' t tmo => if decide (q' = q) then Some (PushWoken q' t tmo) else None
  | _ => None
  end.

(** The pool and its threads; [pushed] and [popped] remember what went through
    the queues, in order. *)
Record state := mkState {
  m_queues : list (list Task);
  m_terminate : bool;
  m_maxTasksPerQueue : Z;
  m_threadCount : nat;
  m_lRand : Z;
  workers : gmap tid worker;
  callers : gmap tid caller;
  pushed : list (nat * Task);
  popped : list (nat * Task)
}.

Definition ThreadPool (threadsCount taskQueues : nat) (maxTasks rd : Z) : state :=
  mkState (replicate taskQueues []) false maxTasks threadsCount (minstd_seed rd) ∅ ∅ [] [].

Definition initial (s : state) : Prop :=
  exists threadsCount taskQueues maxTasks rd, 0 <= maxTasks < 2 ^ 32 /\
    s = ThreadPool threadsCount taskQueues maxTasks rd.

Definition set_workers (ws : gmap tid worker) (s : state) : state :=
  mkState (m_queues s) (m_terminate s) (m_maxTasksPerQueue s) (m_threadCount s) (m_lRand s)
    ws (callers s) (pushed s) (popped s).

Definition set_callers (cs : gmap tid caller) (s : state) : state :=
  mkState (m_queues s) (m_terminate s) (m_maxTasksPerQueue s) (m_threadCount s) (m_lRand s)
    (workers s) cs (pushed s) (popped s).

Definition set_lRand (g : Z) (s : state) : state :=
  mkState (m_queues s) (m_terminate s) (m_maxTasksPerQueue s) (m_threadCount s) g
    (workers s) (callers s) (pushed s) (popped s).

Definition set_terminate (s : state) : state :=
  mkState (m_queues s) true (m_maxTasksPerQueue s) (m_threadCount s) (m_lRand s)
    (workers s) (callers s) (pushed s) (popped s).

(** Task [t] enters, or leaves, queue [q], which becomes [l]. *)
Definition set_pushed (q : nat) (l : list Task) (t : Task) (s : state) : state :=
  mkState (<[q := l]> (m_queues s)) (m_terminate s) (m_maxTasksPerQueue s) (m_threadCount s)
    (m_lRand s) (workers s) (callers s) (pushed s ++ [(q, t)]) (popped s).

Definition set_popped (q : nat) (l : list Task) (t : Task) (s : state) : state :=
  mkState (<[q := l]> (m_queues s)) (m_terminate s) (m_maxTasksPerQueue s) (m_threadCount s)
    (m_lRand s) (workers s) (callers s) (pushed s) (popped s ++ [(q, t)]).

(** ** The operations, by critical section *)

Definition start (s : state) : state :=
  set_workers (list_to_map ((fun i => (i, Popping)) <$> seq 0 (m_threadCount s))) s.

(** static_cast<uint32_t>(-1): no time limit. *)
Definition no_timeout : Z := 2 ^ 32 - 1.

(** pushTask before the mutex. *)
Definition pushTask_choose (c : tid) (t : Task) (timeoutMS : Z) (priority : spec_float)
    (key : string) (s : state) : option state :=
  match getRandomQueueByKey (length (m_queues s)) key priority (m_lRand s) with
  | Some (q, g) => Some (set_callers (<[c := PushAt q t timeoutMS]> (callers s)) (set_lRand g s))
  | None => None
  end.

(** The loop of pushTask while it holds the mutex: insert or sleep. *)
Definition pushTask_loop (c : tid) (q : nat) (t : Task) (timeoutMS : Z) (s : state)
  : option state :=
  match m_queues s !! q with
  | None => None
  | Some l =>
      if zlen l >? m_maxTasksPerQueue s
      then Some (set_callers (<[c := PushSleeps q t timeoutMS]> (callers s)) s)
      else Some (set_callers (<[c := PushNotifies]> (callers s)) (set_pushed q (l ++ [t]) t s))
  end.

Definition pushTask_locked (c : tid) (q : nat) (t : Task) (timeoutMS : Z) (s : state)
  : option state :=
  if m_terminate s then Some (set_callers (delete c (callers s)) s)  (* returns false *)
  else pushTask_loop c q t timeoutMS s.

(** The end of popTask while it holds the mutex. *)
Definition popTask_take (w : tid) (q : nat) (s : state) : option state :=
  match m_queues s !! q with
  | Some (r :: l) =>
      Some (set_workers (<[w := PopNotifies q r]> (workers s)) (set_popped q l r s))
  | _ => None
  end.

(** popTask from its beginning. *)
Definition popTask_first (w : tid) (s : state) : option state :=
  let '(tq, g) := getRandomTaskQueueWithElements (m_queues s) (m_lRand s) in
  let s := set_lRand g s in
  match tq with
  | None => Some (set_workers (<[w := Sleeping]> (workers s)) s)
  | Some q => popTask_take w q s
  end.

(** popTask after its wait: m_terminate is tested here only. *)
Definition popTask_woken (w : tid) (s : state) : option state :=
  let '(tq, g) := getRandomTaskQueueWithElements (m_queues s) (m_lRand s) in
  let s := set_lRand g s in
  match tq with
  | None =>
      if m_terminate s
      then Some (set_workers (<[w := Exited]> (workers s)) s)
      else Some (set_workers (<[w := Sleeping]> (workers s)) s)
  | Some q => popTask_take w q s
  end.

(** taskProcessor with the task popTask returned. *)
Definition taskProcessor_run (r : Task) : worker :=
  if isNull r then Exited
  else match task r with
       | None => Crashed
       | Some _ => Running r
       end.

Inductive label :=
| Start
| Push (c : tid) (t : Task) (timeoutMS : Z) (priority : spec_float) (key : string)
| PushLock (c : tid)
| PushTimeout (c : tid)
| PushNotify (c : tid) (choice : option tid)
| Stop (c : tid)
| StopNotify (c : tid)
| Pop (w : tid)
| PopNotify (w : tid) (choice : option tid)
| Finish (w : tid)
| SpuriousWorker (w : tid)
| SpuriousCaller (c : tid).

Definition exec (l : label) (s : state) : option state :=
  match l with
  | Start => if decide (workers s = ∅) then Some (start s) else None
  | Push c t timeoutMS priority key =>
      match callers s !! c with
      | None => pushTask_choose c t timeoutMS priority key s
      | Some _ => None
      end
  | PushLock c =>
      match callers s !! c with
      | Some (PushAt q t timeoutMS) => pushTask_locked c q t timeoutMS s
      | Some (PushWoken q t timeoutMS) => pushTask_loop c q t timeoutMS s
      | _ => None
      end
  | PushTimeout c =>
      match callers s !! c with
      | Some (PushSleeps q t timeoutMS) | Some (PushWoken q t timeoutMS) =>
          if timeoutMS =? no_timeout then None
          else Some (set_callers (delete c (callers s)) s)          (* returns false *)
      | _ => None
      end
  | PushNotify c choice =>
      match callers s !! c with
      | Some PushNotifies =>
          match notify_one m_insertedElementCond choice (workers s) with
          | Some ws => Some (set_callers (delete c (callers s)) (set_workers ws s))
          | None => None
          end
      | _ => None
      end
  | Stop c =>
      match callers s !! c with
      | None => Some (set_callers (<[c := StopNotifies]> (callers s)) (set_terminate s))
      | Some _ => None
      end
  | StopNotify c =>
      match callers s !! c with
      | Some StopNotifies =>
          Some (set_callers (delete c (callers s))
                  (set_workers (notify_all m_insertedElementCond (workers s)) s))
      | _ => None
      end
  | Pop w =>
      match workers s !! w with
      | Some Popping => popTask_first w s
      | Some Woken => popTask_woken w s
      | _ => None
      end
  | PopNotify w choice =>
      match workers s !! w with
      | Some (PopNotifies q r) =>
          match notify_one (cond_removedElement q) choice (callers s) with
          | Some cs =>
              Some (set_workers (<[w := taskProcessor_run r]> (workers s)) (set_callers cs s))
          | None => None
          end
      | _ => None
      end
  | Finish w =>
      match workers s !! w with
      | Some (Running _) => Some (set_workers (<[w := Popping]> (workers s)) s)
      | _ => None
      end
  | SpuriousWorker w =>
      match workers s !! w with
      | Some Sleeping => Some (set_workers (<[w := Woken]> (workers s)) s)
      | _ => None
      end
  | SpuriousCaller c =>
      match callers s !! c with
      | Some (PushSleeps q t timeoutMS) =>
          Some (set_callers (<[c := PushWoken q t timeoutMS]> (callers s)) s)
      | _ => None
      end
  end.

(** ~ThreadPool returns once every worker has been joined. *)
Definition joinable (s : state) : Prop :=
  forall i, (i < m_threadCount s)%nat -> workers s !! i = Some Exited.

End Random.
