(* ===== verification/ThreadPoolSpec.v ===== *)
(** * The thread pool: order, bounds, progress

    The choice of a queue is exact whatever the generator; then, by induction on
    the interleaving of workers and callers: each queue is first in first out
    and keeps its bound, no task waits while the workers it could wake sleep,
    and no caller waits for a queue that has room. The last theorems show what
    stop() misses. *)

From stdpp Require Import gmap.
From Stdlib Require Import SpecFloat.
From S2P Require Import Prelude Interleave ThreadPool.

(** ** Shuffling *)

Lemma swap_permutation {A} i j (l : list A) : swap i j l ≡ₚ l.
Proof.
  unfold swap. destruct (l !! i) as [x|] eqn:Hi, (l !! j) as [y|] eqn:Hj; try done.
  apply Permutation_inj. rewrite !length_insert. split; [done|].
  exists (fun k => if decide (k = i) then j else if decide (k = j) then i else k). split.
  - intros a b. repeat case_decide; congruence.
  - intros k. apply lookup_lt_Some in Hi as Hil. apply lookup_lt_Some in Hj as Hjl.
    destruct (decide (k = i)) as [->|Hki].
    + rewrite list_lookup_insert_eq by (by rewrite length_insert). done.
    + rewrite list_lookup_insert_ne by done. case_decide; subst.
      * by rewrite list_lookup_insert_eq.
      * by rewrite list_lookup_insert_ne.
Qed.

Section Spec.
  Variable uniform : Z -> Z -> Z -> Z * Z.
  Variable hashFunction : string -> Z.

Lemma shuffle_loop_permutation {A} i : forall gen (l : list A),
  shuffle_loop uniform i gen l ≡ₚ l.
Proof.
  induction i as [|i IH]; intros gen l; [done|]. cbn [shuffle_loop].
  destruct (uniform _ _ _) as [j g]. by rewrite IH, swap_permutation.
Qed.

(** The shuffle keeps the elements: its result is a permutation of the
    vector, whatever numbers are drawn. *)
Theorem safe_random_shuffle_permutation {A} (l : list A) hash :
  safe_random_shuffle uniform l hash ≡ₚ l.
Proof.
  unfold safe_random_shuffle. destruct (length l <=? 1)%nat; [done|].
  apply shuffle_loop_permutation.
Qed.

Lemma shuffled_permutation {A} (l : list A) hash : safe_random_shuffle uniform l hash ≡ₚ l.
Proof.
  unfold safe_random_shuffle. destruct (length l <=? 1)%nat; [done|].
  apply shuffle_loop_permutation.
Qed.

Lemma first_with_elements_Some order queues q :
  first_with_elements order queues = Some q -> exists r l, queues !! q = Some (r :: l).
Proof.
  induction order as [|i order IH]; [done|]. simpl.
  destruct (queues !! i) as [[|r l]|] eqn:E; auto. intros. simplify_eq. by exists r, l.
Qed.

Lemma first_with_elements_None order queues i l :
  first_with_elements order queues = None -> i ∈ order -> queues !! i = Some l -> l = [].
Proof.
  induction order as [|j order IH]; simpl; [by intros _ ?%elem_of_nil|].
  intros Hn Hin Hi. apply elem_of_cons in Hin as [->|Hin].
  - rewrite Hi in Hn. by destruct l.
  - destruct (queues !! j) as [[|? ?]|]; auto. done.
Qed.

Lemma first_shuffled_None queues h q l :
  first_with_elements (safe_random_shuffle uniform (seq 0 (length queues)) h) queues = None ->
  queues !! q = Some l -> l = [].
Proof.
  intros Hn Hq. apply (first_with_elements_None _ _ q l Hn); [|done].
  rewrite shuffled_permutation. apply elem_of_seq. apply lookup_lt_Some in Hq. lia.
Qed.

(** The queue that popTask takes a task from has one; when it finds no
    queue, every queue is empty. *)
Theorem getRandomTaskQueueWithElements_exact queues lRand :
  match (getRandomTaskQueueWithElements uniform queues lRand).1 with
  | Some q => exists r l, queues !! q = Some (r :: l)
  | None => forall q l, queues !! q = Some l -> l = []
  end.
Proof.
  unfold getRandomTaskQueueWithElements. destruct (uniform _ _ _) as [h g]. simpl.
  destruct (first_with_elements _ queues) as [q|] eqn:E.
  - by apply first_with_elements_Some in E.
  - intros q l. exact (first_shuffled_None queues h q l E).
Qed.

Lemma getRandom_Some queues lRand q g :
  getRandomTaskQueueWithElements uniform queues lRand = (Some q, g) ->
  exists r l, queues !! q = Some (r :: l).
Proof.
  unfold getRandomTaskQueueWithElements. destruct (uniform _ _ _) as [h g']. intros. simplify_eq.
  by eapply first_with_elements_Some.
Qed.

Lemma getRandom_None queues lRand g :
  getRandomTaskQueueWithElements uniform queues lRand = (None, g) ->
  forall q l, queues !! q = Some l -> l = [].
Proof.
  unfold getRandomTaskQueueWithElements. destruct (uniform _ _ _) as [h g'].
  intros [= Hn _] q l. exact (first_shuffled_None queues h q l Hn).
Qed.

Section Range.
  Hypothesis uniform_range : forall lo hi g, lo <= hi -> lo <= (uniform lo hi g).1 <= hi.

Lemma priority_elements_range size priority e :
  priority_elements size priority = Some e -> (0 < size)%nat -> (1 <= e <= size)%nat.
Proof.
  unfold priority_elements.
  destruct (float_to_size_t (SFmul 24 128 (float_of_size_t (Z.of_nat size)) priority)) as [z|] eqn:E;
    [|done].
  assert (Hz : 0 <= z).
  { revert E. destruct (SFmul _ _ _ _) as [| | |s m x]; simpl; try (intros; simplify_eq; lia).
    set (n := if 0 <=? x then _ else _).
    assert (0 <= n) by (unfold n; case_cond; zbool; [nia|apply Z.div_pos; lia]).
    destruct s; case_cond; intros; simplify_eq; lia. }
  intros [= <-] Hsize. destruct (z =? 0) eqn:E0; zbool; case_cond; zbool; lia.
Qed.

(** The queue of a key is one of the pool's, and one of those at the head
    of the order that the key alone determines; a key with a priority that
    makes the cast defined always has one. *)
Theorem getRandomQueueByKey_range size key priority lRand e :
  (0 < size)%nat -> priority_elements size priority = Some e ->
  exists q g, getRandomQueueByKey uniform hashFunction size key priority lRand = Some (q, g) /\
    (q < size)%nat /\
    q ∈ take e (safe_random_shuffle uniform (seq 0 size) (hashFunction key)).
Proof.
  intros Hsize He. destruct (priority_elements_range _ _ _ He Hsize) as [H1 H2].
  unfold getRandomQueueByKey. rewrite He. destruct e as [|e]; [lia|].
  pose proof (uniform_range 0 (Z.of_nat (S e) - 1) lRand ltac:(lia)) as Hr.
  destruct (uniform 0 _ lRand) as [i g]. simpl in Hr.
  set (v := safe_random_shuffle uniform (seq 0 size) (hashFunction key)).
  assert (Hlen : length v = size)
    by (rewrite <- (length_seq size 0); apply Permutation_length, shuffled_permutation).
  destruct (lookup_lt_is_Some_2 (take (S e) v) (Z.to_nat i)) as [x Hx]; [rewrite length_take; lia|].
  rewrite Hx. exists x, g. split; [done|]. apply list_elem_of_lookup_2 in Hx. split; [|done].
  assert (Hv : x ∈ v) by (apply elem_of_take in Hx as (k & Hk & _); by eapply list_elem_of_lookup_2).
  unfold v in Hv. rewrite shuffled_permutation in Hv. apply elem_of_seq in Hv. lia.
Qed.

End Range.

(** ** Each queue is first in first out, and bounded *)

Definition of_queue (q : nat) (h : list (nat * Task)) : list Task :=
  snd <$> filter (fun x => x.1 = q) h.

Lemma of_queue_app q h h' : of_queue q (h ++ h') = of_queue q h ++ of_queue q h'.
Proof. unfold of_queue. by rewrite filter_app, fmap_app. Qed.

Lemma of_queue_one q q' t : of_queue q [(q', t)] = if decide (q' = q) then [t] else [].
Proof. unfold of_queue. rewrite filter_cons. simpl. by case_decide. Qed.

Record orderly (s : state) : Prop := {
  orderly_fifo : forall q l, m_queues s !! q = Some l ->
    of_queue q (pushed s) = of_queue q (popped s) ++ l;
  orderly_bound : forall q l, m_queues s !! q = Some l -> zlen l <= m_maxTasksPerQueue s + 1;
  orderly_max : 0 <= m_maxTasksPerQueue s
}.

(** Steps that change neither the queues nor their history. *)
Lemma orderly_same s s' :
  m_queues s' = m_queues s -> pushed s' = pushed s -> popped s' = popped s ->
  m_maxTasksPerQueue s' = m_maxTasksPerQueue s -> orderly s -> orderly s'.
Proof. intros Eq Eu Eo Em [Hf Hb Hm]. split; rewrite ?Eq, ?Eu, ?Eo, ?Em; done. Qed.

Lemma orderly_push s q l t :
  m_queues s !! q = Some l -> zlen l <= m_maxTasksPerQueue s ->
  orderly s -> orderly (set_pushed q (l ++ [t]) t s).
Proof.
  intros Hq Hl [Hf Hb Hm]. split; simpl; [| |done]; intros q' l'; rewrite list_lookup_insert_Some.
  - rewrite of_queue_app, of_queue_one. intros [(-> & <- & _)|(Hne & Hq')].
    + rewrite decide_True, (Hf q' l Hq) by done. by rewrite <- app_assoc.
    + rewrite decide_False, app_nil_r by done. by apply Hf.
  - intros [(-> & <- & _)|(Hne & Hq')]; [rewrite zlen_app; unfold zlen in *; simpl; lia|by apply (Hb q')].
Qed.

Lemma orderly_pop s q r l :
  m_queues s !! q = Some (r :: l) -> orderly s -> orderly (set_popped q l r s).
Proof.
  intros Hq [Hf Hb Hm]. split; simpl; [| |done]; intros q' l'; rewrite list_lookup_insert_Some.
  - rewrite of_queue_app, of_queue_one. intros [(-> & <- & _)|(Hne & Hq')].
    + rewrite decide_True, (Hf q' (r :: l) Hq) by done. by rewrite <- app_assoc.
    + rewrite decide_False, app_nil_r by done. by apply Hf.
  - intros [(-> & <- & _)|(Hne & Hq')]; [|by apply (Hb q')].
    specialize (Hb q' _ Hq). unfold zlen in *. simpl in *. lia.
Qed.

Lemma orderly_loop c q t tmo s s' :
  pushTask_loop c q t tmo s = Some s' -> orderly s -> orderly s'.
Proof.
  unfold pushTask_loop. destruct (m_queues s !! q) as [l|] eqn:Hq; [|done].
  case_cond; zbool; intros; simplify_eq; [by apply (orderly_same s)|].
  eapply orderly_same; [..|by apply (orderly_push s q l t)]; done.
Qed.

Lemma orderly_take w q s s' : popTask_take w q s = Some s' -> orderly s -> orderly s'.
Proof.
  unfold popTask_take. destruct (m_queues s !! q) as [[|r l]|] eqn:Hq; intros; simplify_eq.
  eapply orderly_same; [..|by apply (orderly_pop s q r l)]; done.
Qed.

Lemma orderly_exec s l s' :
  exec uniform hashFunction l s = Some s' -> orderly s -> orderly s'.
Proof.
  assert (Hsame : forall s s', m_queues s' = m_queues s /\ pushed s' = pushed s /\
    popped s' = popped s /\ m_maxTasksPerQueue s' = m_maxTasksPerQueue s -> orderly s -> orderly s')
    by (intros ?? (? & ? & ? & ?); by apply orderly_same).
  intros Hs Ho.
  destruct l as [|c t tmo pr key|c|c|c ch|c|c|w|w ch|w|w|c]; simpl in Hs.
  - case_decide; simplify_eq. by apply (Hsame s).
  - destruct (callers s !! c); [done|]. unfold pushTask_choose in Hs.
    destruct (getRandomQueueByKey _ _ _ _ _ _) as [[q g]|]; simplify_eq. by apply (Hsame s).
  - destruct (callers s !! c) as [[q t tmo| |q t tmo| |]|]; try done; [|by eapply orderly_loop].
    unfold pushTask_locked in Hs. destruct (m_terminate s); [simplify_eq; by apply (Hsame s)|].
    by eapply orderly_loop.
  - destruct (callers s !! c) as [[|q t tmo|q t tmo| |]|]; try done;
      (destruct (tmo =? no_timeout); simplify_eq; by apply (Hsame s)).
  - destruct (callers s !! c) as [[| | | |]|]; try done.
    destruct (notify_one _ _ _); simplify_eq. by apply (Hsame s).
  - destruct (callers s !! c); simplify_eq. by apply (Hsame s).
  - destruct (callers s !! c) as [[| | | |]|]; simplify_eq. by apply (Hsame s).
  - destruct (workers s !! w) as [[| | | | | |]|]; try done.
    + unfold popTask_first in Hs. destruct (getRandomTaskQueueWithElements _ _ _) as [[q|] g].
      * eapply orderly_take; [exact Hs|]. by apply (Hsame s).
      * simplify_eq. by apply (Hsame s).
    + unfold popTask_woken in Hs. destruct (getRandomTaskQueueWithElements _ _ _) as [[q|] g].
      * eapply orderly_take; [exact Hs|]. by apply (Hsame s).
      * destruct (m_terminate _); simplify_eq; by apply (Hsame s).
  - destruct (workers s !! w) as [[| | |q r| | |]|]; try done.
    destruct (notify_one _ _ _); simplify_eq. by apply (Hsame s).
  - destruct (workers s !! w) as [[| | | | | |]|]; simplify_eq. by apply (Hsame s).
  - destruct (workers s !! w) as [[| | | | | |]|]; simplify_eq. by apply (Hsame s).
  - destruct (callers s !! c) as [[| | | |]|]; simplify_eq. by apply (Hsame s).
Qed.

Lemma orderly_initial s : initial s -> orderly s.
Proof.
  intros (n & k & m & g & Hm & ->). split; simpl; [| |lia].
  - intros q l [-> _]%lookup_replicate. done.
  - intros q l [-> _]%lookup_replicate. unfold zlen. simpl. lia.
Qed.

(** C27: whatever the interleaving, what was inserted in a queue is what was
    taken from it followed by what it holds, in this order: no task is lost,
    duplicated or overtaken in its queue; and no queue exceeds the limit by
    more than one. *)
Theorem queues_are_fifo_and_bounded s q l :
  reachable initial (exec uniform hashFunction) s -> m_queues s !! q = Some l ->
  of_queue q (pushed s) = of_queue q (popped s) ++ l /\ zlen l <= m_maxTasksPerQueue s + 1.
Proof.
  intros Hr Hq. assert (Ho : orderly s).
  { revert Hr. apply reachable_invariant; [apply orderly_initial|].
    intros s1 lb s2 Ho Hx. by eapply orderly_exec. }
  split; [by apply (orderly_fifo s Ho)|by apply (orderly_bound s Ho q)].
Qed.

(** ** No task waits for a worker that sleeps *)

Definition sleeping (w : worker) : bool :=
  match w with Sleeping => true | _ => false end.

(** The workers that will look at the queues again by themselves. *)
Definition awake (w : worker) : bool :=
  match w with Popping | Woken | PopNotifies _ _ | Running _ => true | _ => false end.

Definition notifies (c : caller) : bool :=
  match c with PushNotifies => true | _ => false end.

Fixpoint queued (queues : list (list Task)) : Z :=
  match queues with
  | [] => 0
  | l :: queues => zlen l + queued queues
  end.

Lemma queued_insert queues : forall q l l',
  queues !! q = Some l -> queued (<[q := l']> queues) = queued queues - zlen l + zlen l'.
Proof.
  induction queues as [|m queues IH]; intros [|q] l l' Hq; simpl in *; try done.
  - simplify_eq. lia.
  - rewrite (IH _ _ _ Hq). lia.
Qed.

Lemma queued_none queues : (forall q l, queues !! q = Some l -> l = []) -> queued queues = 0.
Proof.
  induction queues as [|m queues IH]; intros Hall; [done|]. simpl.
  rewrite (Hall 0%nat m) by done. rewrite IH; [done|]. intros q l. exact (Hall (S q) l).
Qed.

Lemma queued_nonneg queues : 0 <= queued queues.
Proof. induction queues as [|m queues IH]; simpl; [done|]. unfold zlen. lia. Qed.

Lemma queued_zero queues : queued queues = 0 -> forall q l, queues !! q = Some l -> l = [].
Proof.
  induction queues as [|m queues IH]; [done|]. simpl. pose proof (queued_nonneg queues).
  unfold zlen. intros Hz [|q] l Hq; simpl in Hq; simplify_eq.
  - apply nil_length_inv. lia.
  - apply (IH ltac:(unfold zlen in *; lia) q l Hq).
Qed.

(** Tasks with a function, wherever they are. *)
Definition runnable (t : Task) : Prop := task t <> None.

Record attended (s : state) : Prop := {
  attended_queues : forall q l t, m_queues s !! q = Some l -> t ∈ l -> runnable t;
  attended_callers : forall c q t tmo, callers s !! c = Some (PushAt q t tmo) \/
    callers s !! c = Some (PushSleeps q t tmo) \/ callers s !! c = Some (PushWoken q t tmo) ->
    runnable t;
  attended_workers : forall w q t, workers s !! w = Some (PopNotifies q t) -> runnable t;
  attended_count : 0 < count sleeping (workers s) ->
    queued (m_queues s) <= count notifies (callers s) + count awake (workers s)
}.

Lemma notify_worker ch ws ws' :
  notify_one m_insertedElementCond ch ws = Some ws' ->
  (forall w q t, ws' !! w = Some (PopNotifies q t) -> ws !! w = Some (PopNotifies q t)) /\
  ((count sleeping ws' = 0 /\ count awake ws' = count awake ws) \/
   (count sleeping ws' = count sleeping ws - 1 /\ count awake ws' = count awake ws + 1)).
Proof.
  intros [[-> Hn]|(w & th & th' & Hw & Hk & ->)]%notify_one_inv.
  - split; [done|]. left. split; [|done]. apply count_none. intros w th Hw.
    specialize (Hn w th Hw). by destruct th.
  - destruct th; simplify_eq/=. split.
    + intros v q t. rewrite lookup_insert_Some. intros [[_ ?]|[_ ?]]; done.
    + right. rewrite !(count_insert _ _ _ _ _ Hw). simpl. lia.
Qed.

Lemma notify_all_workers ws :
  count sleeping (notify_all m_insertedElementCond ws) = 0 /\
  (forall w q t, notify_all m_insertedElementCond ws !! w = Some (PopNotifies q t) ->
     ws !! w = Some (PopNotifies q t)).
Proof.
  assert (Hl : forall w th, notify_all m_insertedElementCond ws !! w = Some th ->
    exists th0, ws !! w = Some th0 /\ th = default th0 (m_insertedElementCond th0)).
  { intros w th. rewrite notify_all_lookup. destruct (ws !! w) as [th0|]; simpl; [|done].
    intros. simplify_eq. by exists th0. }
  split.
  - apply count_none. intros w th (th0 & _ & ->)%Hl. by destruct th0.
  - intros w q t (th0 & Hw & E)%Hl. by destruct th0; simplify_eq/=.
Qed.

Lemma notify_caller q ch cs cs' :
  notify_one (cond_removedElement q) ch cs = Some cs' ->
  cs' = cs /\ nobody_sleeps (cond_removedElement q) cs \/
  exists c t tmo, cs !! c = Some (PushSleeps q t tmo) /\ cs' = <[c := PushWoken q t tmo]> cs.
Proof.
  intros [[-> ?]|(c & th & th' & Hc & Hk & ->)]%notify_one_inv; [by left|]. right.
  destruct th; simplify_eq/=. case_decide; simplify_eq. by exists c, t, timeoutMS.
Qed.

(** The callers give a function with every task. *)
Definition good (l : label) : Prop :=
  match l with Push _ t _ _ _ => runnable t | _ => True end.

(** A step on the callers that keeps their tasks and the inserted elements. *)
Lemma attended_set_callers s cs :
  (forall c q t tmo, cs !! c = Some (PushAt q t tmo) \/
    cs !! c = Some (PushSleeps q t tmo) \/ cs !! c = Some (PushWoken q t tmo) -> runnable t) ->
  count notifies (callers s) <= count notifies cs ->
  attended s -> attended (set_callers cs s).
Proof. intros Hc Hn [Aq Ac Aw An]. split; simpl; try done. intros Hs. specialize (An Hs). lia. Qed.

(** A step of one worker that does not touch the queues. *)
Lemma attended_set_worker s w th th' :
  workers s !! w = Some th -> (forall q t, th' <> PopNotifies q t) ->
  b2z (awake th) <= b2z (awake th') ->
  (sleeping th' = true -> sleeping th = true) ->
  attended s -> attended (set_workers (<[w := th']> (workers s)) s).
Proof.
  intros Hw Hp Ha Hs [Aq Ac Aw An]. split; simpl; try done.
  - intros v q t. rewrite lookup_insert_Some. intros [[_ ?]|[_ ?]]; [by apply Hp in H|by apply (Aw v q)].
  - rewrite !(count_insert _ _ _ _ _ Hw). intros Hc. assert (0 < count sleeping (workers s)).
    { destruct (sleeping th') eqn:E; [by apply (count_pos _ _ w th Hw), Hs|].
      destruct (sleeping th); simpl in Hc; lia. }
    specialize (An H). lia.
Qed.

Lemma attended_set_lRand g s : attended s -> attended (set_lRand g s).
Proof. intros [Aq Ac Aw An]. by split. Qed.

Lemma attended_loop c q t tmo s s' :
  callers s !! c = Some (PushAt q t tmo) \/ callers s !! c = Some (PushWoken q t tmo) ->
  pushTask_loop c q t tmo s = Some s' -> attended s -> attended s'.
Proof.
  intros Hc Hs Ha. pose proof Ha as [Aq Ac Aw An].
  assert (Ht : runnable t) by (apply (Ac c q t tmo); naive_solver).
  assert (Hn : forall th, count notifies (<[c := th]> (callers s)) = count notifies (callers s) + b2z (notifies th))
    by (intros th; destruct Hc as [Hc|Hc]; rewrite (count_insert _ _ _ _ _ Hc); simpl; lia).
  assert (Hold : forall th c' q' t' tmo', (forall q t tmo, th = PushAt q t tmo \/ th = PushSleeps q t tmo \/ th = PushWoken q t tmo -> runnable t) ->
    <[c := th]> (callers s) !! c' = Some (PushAt q' t' tmo') \/
    <[c := th]> (callers s) !! c' = Some (PushSleeps q' t' tmo') \/
    <[c := th]> (callers s) !! c' = Some (PushWoken q' t' tmo') -> runnable t').
  { intros th c' q' t' tmo' Hth. rewrite !lookup_insert_Some.
    intros [[[_ ->]|[_ ?]]|[[[_ ->]|[_ ?]]|[[_ ->]|[_ ?]]]]; eauto 6. }
  unfold pushTask_loop in Hs. destruct (m_queues s !! q) as [l|] eqn:Hq; [|done].
  destruct (zlen l >? m_maxTasksPerQueue s); simplify_eq.
  - apply attended_set_callers; [|rewrite Hn; simpl; lia|done].
    intros c' q' t' tmo'. apply Hold. intros ??? [?|[?|?]]; by simplify_eq.
  - split; simpl; [| |done|].
    + intros q' l' t'. rewrite list_lookup_insert_Some.
      intros [(-> & <- & _)|(_ & Hq')] Hin; [|by eapply Aq].
      apply elem_of_app in Hin as [Hin|Hin]; [by eapply Aq|].
      apply list_elem_of_singleton in Hin as ->. done.
    + intros c' q' t' tmo'. apply Hold. intros ??? [?|[?|?]]; by simplify_eq.
    + intros Hc0. specialize (An Hc0). rewrite Hn, (queued_insert _ _ _ _ Hq), zlen_app.
      simpl. unfold zlen at 3. simpl. lia.
Qed.

Lemma attended_take w q th s s' :
  workers s !! w = Some th -> sleeping th = false -> awake th = true ->
  popTask_take w q s = Some s' -> attended s -> attended s'.
Proof.
  intros Hw Hsl Haw Hs [Aq Ac Aw An]. unfold popTask_take in Hs.
  destruct (m_queues s !! q) as [[|r l]|] eqn:Hq; simplify_eq. split; simpl; try done.
  - intros q' l' t'. rewrite list_lookup_insert_Some.
    intros [(-> & <- & _)|(_ & Hq')] Hin; [|by eapply Aq].
    apply (Aq q' (r :: l)); [done|]. rewrite elem_of_cons. by right.
  - intros v q' t. rewrite lookup_insert_Some. intros [[_ ?]|[_ ?]]; [|by apply (Aw v q')].
    simplify_eq. apply (Aq q' (t :: l)); [done|]. rewrite elem_of_cons. by left.
  - rewrite !(count_insert _ _ _ _ _ Hw), Hsl, Haw, (queued_insert _ _ _ _ Hq). simpl.
    intros Hc. specialize (An ltac:(lia)). unfold zlen in *. simpl in *. lia.
Qed.

Lemma attended_idle w th s th' :
  workers s !! w = Some th -> th' = Sleeping \/ th' = Exited -> sleeping th = false ->
  (forall q l, m_queues s !! q = Some l -> l = []) ->
  attended s -> attended (set_workers (<[w := th']> (workers s)) s).
Proof.
  intros Hw Hth' Hsl Hq [Aq Ac Aw An]. split; simpl; try done.
  - intros v q t. rewrite lookup_insert_Some. intros [[_ ?]|[_ ?]]; [naive_solver|by apply (Aw v q)].
  - intros _. rewrite (queued_none _ Hq). pose proof (count_nonneg notifies (callers s)).
    pose proof (count_nonneg awake (<[w := th']> (workers s))). lia.
Qed.

Lemma attended_drop_caller s c th :
  callers s !! c = Some th -> notifies th = false ->
  attended s -> attended (set_callers (delete c (callers s)) s).
Proof.
  intros Hc Hn Ha. apply attended_set_callers; [| |done].
  - intros c' q t tmo. rewrite !lookup_delete_Some. intros Hd.
    apply (attended_callers s Ha c' q t tmo). naive_solver.
  - rewrite (count_delete _ _ _ _ Hc), Hn. simpl. lia.
Qed.

Lemma attended_change_caller s c th :
  notifies th = false ->
  (forall q t tmo, th = PushAt q t tmo \/ th = PushSleeps q t tmo \/ th = PushWoken q t tmo ->
     runnable t) ->
  (callers s !! c = None \/ exists th0, callers s !! c = Some th0 /\ notifies th0 = false) ->
  attended s -> attended (set_callers (<[c := th]> (callers s)) s).
Proof.
  intros Hn Ht Hc Ha. apply attended_set_callers; [| |done].
  - intros c' q t tmo. rewrite !lookup_insert_Some.
    intros [[[_ ->]|[_ ?]]|[[[_ ->]|[_ ?]]|[[_ ->]|[_ ?]]]]; eauto 6;
      apply (attended_callers s Ha c' q t tmo); auto.
  - destruct Hc as [Hc|(th0 & Hc & Hn0)].
    + rewrite count_fresh by done. rewrite Hn. simpl. lia.
    + rewrite (count_insert _ _ _ _ _ Hc), Hn, Hn0. simpl. lia.
Qed.

Lemma attended_exec l s s' :
  good l -> exec uniform hashFunction l s = Some s' -> attended s -> attended s'.
Proof.
  intros Hl Hs Ha.
  destruct l as [|c t tmo pr key|c|c|c ch|c|c|w|w ch|w|w|c]; simpl in Hs.
  - case_decide as Hw; simplify_eq. destruct Ha as [Aq Ac Aw An].
    assert (Hp : forall w th, workers (start s) !! w = Some th -> th = Popping).
    { unfold start. simpl. intros w th Hw'. apply elem_of_list_to_map_2, list_elem_of_fmap in Hw'.
      naive_solver. }
    split; simpl; try done.
    + intros w q t Hw'. by apply Hp in Hw'.
    + intros Hc. apply count_exists in Hc as (w & th & Hw' & Hth). apply Hp in Hw' as ->. done.
  - destruct (callers s !! c) eqn:Hc; [done|]. unfold pushTask_choose in Hs.
    destruct (getRandomQueueByKey _ _ _ _ _ _) as [[q g]|]; simplify_eq.
    apply (attended_change_caller (set_lRand g s)); [done| |by left|by apply attended_set_lRand].
    intros ??? [?|[?|?]]; by simplify_eq.
  - destruct (callers s !! c) as [[q t tmo| |q t tmo| |]|] eqn:Hc; try done.
    + unfold pushTask_locked in Hs. destruct (m_terminate s);
        [simplify_eq; by eapply attended_drop_caller|by apply (attended_loop c q t tmo s); auto].
    + by apply (attended_loop c q t tmo s); auto.
  - destruct (callers s !! c) as [[|q t tmo|q t tmo| |]|] eqn:Hc; try done;
      (destruct (tmo =? no_timeout); simplify_eq; by eapply attended_drop_caller).
  - destruct (callers s !! c) as [[| | | |]|] eqn:Hc; try done.
    destruct (notify_one _ _ _) as [ws|] eqn:En; simplify_eq.
    apply notify_worker in En as [Hpn Hcnt]. destruct Ha as [Aq Ac Aw An]. split; simpl; try done.
    + intros c' q t tmo. rewrite !lookup_delete_Some. intros Hd. apply (Ac c' q t tmo). naive_solver.
    + intros w q t Hw%Hpn. by apply (Aw w q).
    + rewrite (count_delete _ _ _ _ Hc). simpl. intros Hc0. destruct Hcnt as [Hcnt|Hcnt]; [lia|].
      specialize (An ltac:(lia)). lia.
  - destruct (callers s !! c) eqn:Hc; simplify_eq.
    apply (attended_change_caller (set_terminate s)); [done| |by left|by destruct Ha].
    intros ??? [?|[?|?]]; by simplify_eq.
  - destruct (callers s !! c) as [[| | | |]|] eqn:Hc; simplify_eq.
    destruct (notify_all_workers (workers s)) as [Hz Hpn].
    apply (attended_drop_caller (set_workers (notify_all m_insertedElementCond (workers s)) s) c StopNotifies);
      [done|done|].
    destruct Ha as [Aq Ac Aw An]. split; simpl; try done; [|lia].
    intros w q t Hw%Hpn. by apply (Aw w q).
  - destruct (workers s !! w) as [[| | | | | |]|] eqn:Hw; try done.
    + unfold popTask_first in Hs. destruct (getRandomTaskQueueWithElements _ _ _) as [[q|] g] eqn:Eg.
      * eapply (attended_take w q Popping); [| | |exact Hs|]; try done. by apply attended_set_lRand.
      * simplify_eq. eapply (attended_idle w Popping (set_lRand g s));
          [done|by left|done|by eapply getRandom_None|by apply attended_set_lRand].
    + unfold popTask_woken in Hs. destruct (getRandomTaskQueueWithElements _ _ _) as [[q|] g] eqn:Eg.
      * eapply (attended_take w q Woken); [| | |exact Hs|]; try done. by apply attended_set_lRand.
      * destruct (m_terminate _); simplify_eq; eapply (attended_idle w Woken (set_lRand g s));
          [done|by right|done|by eapply getRandom_None|by apply attended_set_lRand
          |done|by left|done|by eapply getRandom_None|by apply attended_set_lRand].
  - destruct (workers s !! w) as [[| | |q r| | |]|] eqn:Hw; try done.
    destruct (notify_one _ _ _) as [cs|] eqn:En; simplify_eq.
    assert (Hr : taskProcessor_run r = Running r).
    { pose proof (attended_workers s Ha w q r Hw) as Hrun. unfold runnable in Hrun.
      unfold taskProcessor_run, isNull. by destruct (task r). }
    rewrite Hr. apply (attended_set_worker (set_callers cs s) w (PopNotifies q r)); try done.
    apply attended_set_callers; [| |done];
      apply notify_caller in En as [[-> _]|(c & t & tmo & Hc & ->)]; try done.
    + apply (attended_callers s Ha).
    + intros c' q' t' tmo'. rewrite !lookup_insert_Some. intros Hd.
      destruct (decide (c = c')) as [->|].
      * apply (attended_callers s Ha c' q t' tmo). naive_solver.
      * apply (attended_callers s Ha c' q' t' tmo'). naive_solver.
    + rewrite (count_insert _ _ _ _ _ Hc). simpl. lia.
  - destruct (workers s !! w) as [[| | | | | |]|] eqn:Hw; simplify_eq.
    by eapply attended_set_worker.
  - destruct (workers s !! w) as [[| | | | | |]|] eqn:Hw; simplify_eq.
    by eapply attended_set_worker.
  - destruct (callers s !! c) as [[|q t tmo| | |]|] eqn:Hc; simplify_eq.
    apply attended_change_caller; [done| |right; by eexists|done].
    intros ??? [?|[?|?]]; simplify_eq. eapply (attended_callers s Ha c). eauto.
Qed.

Lemma attended_initial s : initial s -> attended s.
Proof.
  intros (n & k & m & g & Hm & ->). split; simpl; try done.
  - intros q l t [-> _]%lookup_replicate ?%elem_of_nil. done.
  - intros c q t tmo. rewrite lookup_empty. naive_solver.
Qed.

(** C31: no wake-up of a worker is lost. Whatever the schedule of a program that
    pushes functions, while a worker sleeps there are at most as many tasks in
    the queues as notifications about to be sent and workers awake; so when
    every worker sleeps and no notification is due, no task waits. *)
Theorem no_task_waits_for_a_sleeper ls s s' :
  initial s -> Forall good ls -> run (exec uniform hashFunction) ls s = Some s' ->
  0 < count sleeping (workers s') ->
  queued (m_queues s') <= count notifies (callers s') + count awake (workers s') /\
  ((forall w th, workers s' !! w = Some th -> awake th = false) ->
   (forall c, callers s' !! c <> Some PushNotifies) ->
   forall q l, m_queues s' !! q = Some l -> l = []).
Proof.
  intros Hi Hl Hr Hc. assert (Ha : attended s').
  { refine (run_invariant _ attended good _ ls s s' Hl (attended_initial s Hi) Hr).
    intros s1 l s2 Hg Ha Hx. by eapply attended_exec. }
  pose proof (attended_count s' Ha Hc) as Hn. split; [done|]. intros Hw Hcl. apply queued_zero.
  pose proof (queued_nonneg (m_queues s')).
  rewrite (count_none awake _ Hw), (count_none notifies) in Hn; [lia|].
  intros c th Hc'. destruct th; try done. by apply Hcl in Hc'.
Qed.

(** ** No caller waits for a queue that has room *)

Definition sleeps_on (q : nat) (c : caller) : bool :=
  match c with PushSleeps q' _ _ => (q' =? q)%nat | _ => false end.

Definition woken_on (q : nat) (c : caller) : bool :=
  match c with PushWoken q' _ _ => (q' =? q)%nat | _ => false end.

Definition pops_from (q : nat) (w : worker) : bool :=
  match w with PopNotifies q' _ => (q' =? q)%nat | _ => false end.

Definition roomy (q : nat) (s : state) : Prop :=
  forall l, m_queues s !! q = Some l -> 0 < count (sleeps_on q) (callers s) ->
    m_maxTasksPerQueue s + 1 <=
      zlen l + count (woken_on q) (callers s) + count (pops_from q) (workers s).

(** No time limit expires. *)
Definition patient (l : label) : Prop :=
  match l with PushTimeout _ => False | _ => True end.

(** A step that changes no queue and does not disturb who waits for [q]. *)
Lemma roomy_same q s s' :
  m_queues s' = m_queues s -> m_maxTasksPerQueue s' = m_maxTasksPerQueue s ->
  count (sleeps_on q) (callers s') <= count (sleeps_on q) (callers s) ->
  count (woken_on q) (callers s) <= count (woken_on q) (callers s') ->
  count (pops_from q) (workers s) <= count (pops_from q) (workers s') ->
  roomy q s -> roomy q s'.
Proof.
  intros Eq Em Hs Hw Hp Hr l. rewrite Eq, Em. intros Hl Hc. specialize (Hr l Hl). lia.
Qed.

Lemma roomy_loop q c q0 t tmo s s' :
  callers s !! c = Some (PushAt q0 t tmo) \/ callers s !! c = Some (PushWoken q0 t tmo) ->
  pushTask_loop c q0 t tmo s = Some s' -> roomy q s -> roomy q s'.
Proof.
  intros Hc Hs Hr. unfold pushTask_loop in Hs. destruct (m_queues s !! q0) as [l0|] eqn:Hq; [|done].
  assert (Hcnt : forall th,
    count (sleeps_on q) (<[c := th]> (callers s)) =
      count (sleeps_on q) (callers s) + b2z (sleeps_on q th) /\
    count (woken_on q) (callers s) + b2z (woken_on q th) - b2z (q0 =? q)%nat <=
      count (woken_on q) (<[c := th]> (callers s))).
  { intros th. destruct Hc as [Hc|Hc]; rewrite !(count_insert _ _ _ _ _ Hc); simpl;
      destruct (q0 =? q)%nat; simpl; lia. }
  destruct (zlen l0 >? m_maxTasksPerQueue s) eqn:E; zbool; simplify_eq; intros l; simpl.
  - destruct (Hcnt (PushSleeps q0 t tmo)) as [H1 H2]. simpl in *. rewrite H1.
    intros Hl Hpos. pose proof (count_nonneg (pops_from q) (workers s)).
    pose proof (count_nonneg (woken_on q) (<[c := PushSleeps q0 t tmo]> (callers s))).
    destruct (Nat.eqb_spec q0 q) as [->|Hne]; simpl in *; [simplify_eq; lia|].
    specialize (Hr l Hl). lia.
  - destruct (Hcnt PushNotifies) as [H1 H2]. simpl in *. rewrite H1.
    rewrite list_lookup_insert_Some. intros Hl Hpos. rewrite Z.add_0_r in *.
    destruct Hl as [(-> & <- & _)|(Hne & Hl)].
    + specialize (Hr l0 Hq Hpos). rewrite Nat.eqb_refl in H2. rewrite zlen_app.
      unfold zlen at 2. simpl in *. lia.
    + rewrite (proj2 (Nat.eqb_neq q0 q)) in H2 by done. specialize (Hr l Hl Hpos). simpl in *. lia.
Qed.

Lemma roomy_take q w q0 th s s' :
  workers s !! w = Some th -> pops_from q th = false ->
  popTask_take w q0 s = Some s' -> roomy q s -> roomy q s'.
Proof.
  intros Hw Hth Hs Hr. unfold popTask_take in Hs.
  destruct (m_queues s !! q0) as [[|r l0]|] eqn:Hq; simplify_eq. intros l. simpl.
  rewrite list_lookup_insert_Some, (count_insert _ _ _ _ _ Hw), Hth. simpl.
  intros [(-> & <- & _)|(Hne & Hl)] Hpos.
  - specialize (Hr _ Hq Hpos). rewrite Nat.eqb_refl. unfold zlen in *. simpl in *. lia.
  - rewrite (proj2 (Nat.eqb_neq q0 q)) by done. specialize (Hr _ Hl Hpos). simpl. lia.
Qed.

Lemma notify_worker_pops q ch ws ws' :
  notify_one m_insertedElementCond ch ws = Some ws' ->
  count (pops_from q) ws' = count (pops_from q) ws.
Proof.
  intros [[-> Hn]|(w & th & th' & Hw & Hk & ->)]%notify_one_inv; [done|].
  destruct th; simplify_eq/=. rewrite (count_insert _ _ _ _ _ Hw). simpl. lia.
Qed.

Lemma notify_all_pops q ws :
  count (pops_from q) (notify_all m_insertedElementCond ws) = count (pops_from q) ws.
Proof.
  unfold notify_all. induction ws as [|w th ws Hw IH] using map_ind; [done|].
  rewrite fmap_insert, !count_fresh; [|done|by rewrite lookup_fmap, Hw]. rewrite IH.
  by destruct th.
Qed.

(** The notification of a removal from [q0] reaches a caller that waits for it. *)
Lemma roomy_notify q q0 w r ch cs s th' :
  workers s !! w = Some (PopNotifies q0 r) -> pops_from q th' = false ->
  notify_one (cond_removedElement q0) ch (callers s) = Some cs ->
  roomy q s -> roomy q (set_workers (<[w := th']> (workers s)) (set_callers cs s)).
Proof.
  intros Hw Hth En Hr l Hl. simpl in *. rewrite (count_insert _ _ _ _ _ Hw), Hth. simpl.
  apply notify_caller in En as [[-> Hn]|(c & t & tmo & Hc & ->)].
  - intros Hpos. specialize (Hr l Hl Hpos). destruct (Nat.eqb_spec q0 q) as [->|]; simpl; [|lia].
    apply count_exists in Hpos as (c & th & Hc & Hs). specialize (Hn c th Hc).
    destruct th; simplify_eq/=. apply Nat.eqb_eq in Hs as ->. by rewrite decide_True in Hn.
  - rewrite !(count_insert _ _ _ _ _ Hc). simpl. intros Hpos.
    specialize (Hr l Hl). destruct (q0 =? q)%nat; simpl in *; lia.
Qed.

Lemma roomy_exec q l s s' :
  patient l -> exec uniform hashFunction l s = Some s' -> roomy q s -> roomy q s'.
Proof.
  intros Hl Hs Hr.
  destruct l as [|c t tmo pr key|c|c|c ch|c|c|w|w ch|w|w|c]; simpl in Hs; try done.
  - case_decide as Hw; simplify_eq. eapply roomy_same; [..|exact Hr]; simpl; try done.
    rewrite Hw. apply count_nonneg.
  - destruct (callers s !! c) eqn:Hc; [done|]. unfold pushTask_choose in Hs.
    destruct (getRandomQueueByKey _ _ _ _ _ _) as [[q0 g]|]; simplify_eq.
    eapply roomy_same; [..|exact Hr]; simpl; try done; rewrite count_fresh by done; simpl; lia.
  - destruct (callers s !! c) as [[q0 t tmo| |q0 t tmo| |]|] eqn:Hc; try done.
    + unfold pushTask_locked in Hs. destruct (m_terminate s);
        [simplify_eq; eapply roomy_same; [..|exact Hr]; simpl; try done;
         rewrite (count_delete _ _ _ _ Hc); simpl; lia|].
      by apply (roomy_loop q c q0 t tmo s); auto.
    + by apply (roomy_loop q c q0 t tmo s); auto.
  - destruct (callers s !! c) as [[| | | |]|] eqn:Hc; try done.
    destruct (notify_one _ _ _) as [ws|] eqn:En; simplify_eq.
    apply (notify_worker_pops q) in En.
    eapply roomy_same; [..|exact Hr]; simpl; try done; rewrite ?(count_delete _ _ _ _ Hc); simpl; lia.
  - destruct (callers s !! c) eqn:Hc; simplify_eq.
    eapply roomy_same; [..|exact Hr]; simpl; try done; rewrite count_fresh by done; simpl; lia.
  - destruct (callers s !! c) as [[| | | |]|] eqn:Hc; simplify_eq.
    eapply roomy_same; [..|exact Hr]; simpl; try done; rewrite ?notify_all_pops, ?(count_delete _ _ _ _ Hc);
      simpl; lia.
  - assert (Hg : forall g, roomy q (set_lRand g s)) by (intros g; by eapply roomy_same).
    assert (Hset : forall th th' g, workers s !! w = Some th -> pops_from q th = false ->
      roomy q (set_workers (<[w := th']> (workers s)) (set_lRand g s))).
    { intros th th' g Hw Hth. eapply roomy_same; [..|exact Hr]; simpl; try done.
      rewrite (count_insert _ _ _ _ _ Hw), Hth. destruct (pops_from q th'); simpl; lia. }
    destruct (workers s !! w) as [[| | | | | |]|] eqn:Hw; try done.
    + unfold popTask_first in Hs. destruct (getRandomTaskQueueWithElements _ _ _) as [[q0|] g].
      * by apply (roomy_take q w q0 Popping (set_lRand g s)).
      * simplify_eq. by eapply Hset.
    + unfold popTask_woken in Hs. destruct (getRandomTaskQueueWithElements _ _ _) as [[q0|] g].
      * by apply (roomy_take q w q0 Woken (set_lRand g s)).
      * destruct (m_terminate _); simplify_eq; by eapply Hset.
  - destruct (workers s !! w) as [[| | |q0 r| | |]|] eqn:Hw; try done.
    destruct (notify_one _ _ _) as [cs|] eqn:En; simplify_eq.
    eapply roomy_notify; [done| |done|done].
    unfold taskProcessor_run. destruct (isNull r); [done|]. by destruct (task r).
  - destruct (workers s !! w) as [[| | | | | |]|] eqn:Hw; simplify_eq.
    eapply roomy_same; [..|exact Hr]; simpl; try done. rewrite (count_insert _ _ _ _ _ Hw). simpl. lia.
  - destruct (workers s !! w) as [[| | | | | |]|] eqn:Hw; simplify_eq.
    eapply roomy_same; [..|exact Hr]; simpl; try done. rewrite (count_insert _ _ _ _ _ Hw). simpl. lia.
  - destruct (callers s !! c) as [[|q0 t tmo| | |]|] eqn:Hc; simplify_eq. intros l Hql Hpos.
    simpl in *. rewrite (count_insert _ _ _ _ _ Hc) in Hpos. rewrite (count_insert _ _ _ _ _ Hc).
    simpl in *. specialize (Hr l Hql). destruct (q0 =? q)%nat; simpl in *; lia.
Qed.

(** Without expired time limits no wake-up of a caller is lost: a caller
    that sleeps in pushTask waits for a full queue, unless another one is awake
    for that queue or a worker is about to notify it. *)
Theorem no_caller_waits_for_room ls s s' q l c t tmo :
  initial s -> Forall patient ls -> run (exec uniform hashFunction) ls s = Some s' ->
  callers s' !! c = Some (PushSleeps q t tmo) -> m_queues s' !! q = Some l ->
  m_maxTasksPerQueue s' + 1 <=
    zlen l + count (woken_on q) (callers s') + count (pops_from q) (workers s').
Proof.
  intros Hi Hl Hr Hc Hq. assert (Hro : roomy q s').
  { refine (run_invariant _ (roomy q) patient _ ls s s' Hl _ Hr).
    - intros s1 lb s2 Hp H1 Hx. by eapply roomy_exec.
    - destruct Hi as (n & k & m & g & Hm & ->). intros l0 _ Hpos. done. }
  apply Hro; [done|]. apply (count_pos _ _ _ _ Hc). simpl. apply Nat.eqb_refl.
Qed.

(** ** Termination *)

(** A worker leaves popTask with a null task only after a wake-up, when the
    pool terminates and every queue is empty; otherwise it goes on with the
    head of a queue that has one, or sleeps. *)
Theorem popTask_drains w s s' :
  exec uniform hashFunction (Pop w) s = Some s' ->
  (workers s' !! w = Some Exited /\ workers s !! w = Some Woken /\ m_terminate s = true /\
     m_queues s' = m_queues s /\ (forall q l, m_queues s !! q = Some l -> l = [])) \/
  (workers s' !! w = Some Sleeping /\ (m_terminate s = false \/ workers s !! w = Some Popping) /\
     m_queues s' = m_queues s /\ (forall q l, m_queues s !! q = Some l -> l = [])) \/
  (exists q r l, m_queues s !! q = Some (r :: l) /\ m_queues s' = <[q := l]> (m_queues s) /\
     workers s' !! w = Some (PopNotifies q r)).
Proof.
  assert (Htake : forall q g, popTask_take w q (set_lRand g s) = Some s' ->
    exists q r l, m_queues s !! q = Some (r :: l) /\ m_queues s' = <[q := l]> (m_queues s) /\
      workers s' !! w = Some (PopNotifies q r)).
  { intros q g Ht. unfold popTask_take in Ht. simpl in Ht.
    destruct (m_queues s !! q) as [[|r l]|] eqn:Hq; simplify_eq. exists q, r, l.
    split; [done|]. split; [done|]. apply lookup_insert_eq. }
  simpl. destruct (workers s !! w) as [[| | | | | |]|] eqn:Hw; try done.
  - unfold popTask_first. destruct (getRandomTaskQueueWithElements _ _ _) as [[q|] g] eqn:Eg; intros Hs.
    + right; right. by eapply Htake.
    + simplify_eq. right; left. simpl. rewrite lookup_insert_eq. split_and!; auto.
      by eapply getRandom_None.
  - unfold popTask_woken. destruct (getRandomTaskQueueWithElements _ _ _) as [[q|] g] eqn:Eg; intros Hs.
    + right; right. by eapply Htake.
    + simpl in Hs. pose proof (getRandom_None _ _ _ Eg).
      destruct (m_terminate s) eqn:Et; simplify_eq; simpl; rewrite lookup_insert_eq.
      * by left.
      * right; left. split_and!; auto.
Qed.

(** Nobody calls stop() again and no wake-up is spurious. *)
Definition no_more_stops (l : label) : Prop :=
  match l with Stop _ | SpuriousWorker _ => False | _ => True end.

(** Worker [w] sleeps and every later call of pushTask is refused. *)
Definition abandoned (w : tid) (s : state) : Prop :=
  workers s !! w = Some Sleeping /\ (m_terminate s = true /\ (w < m_threadCount s)%nat) /\
  forall c th, callers s !! c = Some th -> exists q t tmo, th = PushAt q t tmo.

Lemma abandoned_worker w v th s :
  v <> w -> abandoned w s -> abandoned w (set_workers (<[v := th]> (workers s)) s).
Proof. intros Hne (Hw & [Ht Hn] & Hc). split; [simpl; by rewrite lookup_insert_ne|done]. Qed.

Lemma abandoned_take w v q s s' :
  v <> w -> popTask_take v q s = Some s' -> abandoned w s -> abandoned w s'.
Proof.
  intros Hne Hs (Hw & [Ht Hn] & Hc). unfold popTask_take in Hs.
  destruct (m_queues s !! q) as [[|r l]|]; simplify_eq. split; [|done].
  simpl. by rewrite lookup_insert_ne.
Qed.

Lemma abandoned_exec w l s s' :
  no_more_stops l -> exec uniform hashFunction l s = Some s' -> abandoned w s -> abandoned w s'.
Proof.
  intros Hl Hs Ha. pose proof Ha as (Hw & [Ht Hn] & Hc).
  assert (Hne : forall v th, workers s !! v = Some th -> th <> Sleeping -> v <> w) by congruence.
  destruct l as [|c t tmo pr key|c|c|c ch|c|c|v|v ch|v|v|c]; simpl in Hs; try done.
  - case_decide as He; [|done]. by rewrite He, lookup_empty in Hw.
  - destruct (callers s !! c) eqn:E; [done|]. unfold pushTask_choose in Hs.
    destruct (getRandomQueueByKey _ _ _ _ _ _) as [[q0 g]|]; simplify_eq.
    split; [done|]. split; [done|]. intros c' th. simpl. rewrite lookup_insert_Some.
    intros [[_ <-]|[_ ?]]; [by eauto|by eapply Hc].
  - destruct (callers s !! c) as [th|] eqn:E; [|done]. destruct (Hc c th E) as (q & t & tmo & ->).
    unfold pushTask_locked in Hs. rewrite Ht in Hs. simplify_eq. split; [done|]. split; [done|].
    intros c' th. simpl. rewrite lookup_delete_Some. intros [_ ?]. by eapply Hc.
  - destruct (callers s !! c) as [th|] eqn:E; [|done]. by destruct (Hc c th E) as (q & t & tmo & ->).
  - destruct (callers s !! c) as [th|] eqn:E; [|done]. by destruct (Hc c th E) as (q & t & tmo & ->).
  - destruct (callers s !! c) as [th|] eqn:E; [|done]. by destruct (Hc c th E) as (q & t & tmo & ->).
  - destruct (workers s !! v) as [th|] eqn:E; [|done].
    destruct th; try done; specialize (Hne v _ E ltac:(done)).
    + unfold popTask_first in Hs. destruct (getRandomTaskQueueWithElements _ _ _) as [[q|] g].
      * by apply (abandoned_take w v q (set_lRand g s)).
      * simplify_eq. by apply (abandoned_worker w v _ (set_lRand g s)).
    + unfold popTask_woken in Hs. destruct (getRandomTaskQueueWithElements _ _ _) as [[q|] g].
      * by apply (abandoned_take w v q (set_lRand g s)).
      * simpl in Hs. rewrite Ht in Hs. simplify_eq. by apply (abandoned_worker w v _ (set_lRand g s)).
  - destruct (workers s !! v) as [th|] eqn:E; [|done].
    destruct th as [| | |q0 r| | |]; try done; specialize (Hne v _ E ltac:(done)).
    destruct (notify_one _ _ _) as [cs|] eqn:En; simplify_eq.
    apply notify_caller in En as [[-> _]|(c & t & tmo & E' & ->)].
    + by apply (abandoned_worker w v _ (set_callers (callers s) s)).
    + by destruct (Hc c _ E') as (? & ? & ? & ?).
  - destruct (workers s !! v) as [th|] eqn:E; [|done].
    destruct th; try done; specialize (Hne v _ E ltac:(done)). simplify_eq. by apply abandoned_worker.
  - destruct (callers s !! c) as [th|] eqn:E; [|done]. by destruct (Hc c th E) as (q & t & tmo & ->).
Qed.

(** PopTask tests m_terminate only after a wait. A worker that runs a task
    while stop() is called finds the queues empty afterwards and sleeps; nothing
    but another call of stop() wakes it, whatever the other threads do, so the
    destructor, which calls stop() once and joins, never returns. *)
Theorem stop_misses_a_busy_worker w s t :
  m_terminate s = true -> workers s !! w = Some (Running t) -> callers s = ∅ ->
  (forall q l, m_queues s !! q = Some l -> l = []) -> (w < m_threadCount s)%nat ->
  exists s', run (exec uniform hashFunction) [Finish w; Pop w] s = Some s' /\
    forall ls s'', Forall no_more_stops ls -> run (exec uniform hashFunction) ls s' = Some s'' ->
      workers s'' !! w = Some Sleeping /\ ~ joinable s''.
Proof.
  intros Ht Hw Hc Hq Hn. simpl. rewrite Hw. simpl. rewrite lookup_insert_eq. unfold popTask_first. simpl.
  destruct (getRandomTaskQueueWithElements uniform (m_queues s) (m_lRand s)) as [[q|] g] eqn:Eg.
  { apply getRandom_Some in Eg as (r & l & Hl). by apply Hq in Hl. }
  eexists. split; [done|]. intros ls s'' Hl Hr.
  assert (Ha : forall s1, workers s1 !! w = Some Sleeping /\ (m_terminate s1 = true /\ (w < m_threadCount s1)%nat) /\
      callers s1 = ∅ ->
    abandoned w s1).
  { intros s1 (? & ? & E). split; [done|]. split; [done|]. intros c th. by rewrite E, lookup_empty. }
  assert (Hfin : abandoned w s'').
  { refine (run_invariant _ (abandoned w) no_more_stops _ ls _ s'' Hl _ Hr).
    - intros s1 lb s2 Hp H1 Hx. by eapply abandoned_exec.
    - apply Ha. simpl. rewrite lookup_insert_eq. done. }
  destruct Hfin as (Hsl & [_ Hlt] & _). split; [done|]. intros Hj. specialize (Hj w Hlt). congruence.
Qed.

End Spec.

(** ** Runs of the pool *)

(** A distribution that takes the engine modulo the size of its range. *)
Definition uniform_mod (lo hi gen : Z) : Z * Z :=
  (lo + minstd_next gen mod (hi - lo + 1), minstd_next gen).

Lemma uniform_mod_range lo hi gen : lo <= hi -> lo <= (uniform_mod lo hi gen).1 <= hi.
Proof.
  intros Hle. unfold uniform_mod. simpl.
  pose proof (Z.mod_pos_bound (minstd_next gen) (hi - lo + 1) ltac:(lia)). lia.
Qed.

Definition hash_length (key : string) : Z := Z.of_nat (String.length key).

(** 0.5f, the default priority. *)
Definition half : spec_float := S754_finite false 8388608 (-24).

Definition demo_task (n : nat) : Task := mkTask (Some n) None.

Definition demo_run (threads queues : nat) (max : Z) (ls : list label) : option state :=
  run (exec uniform_mod hash_length) ls (ThreadPool threads queues max 1).

Definition demo_push (c : tid) (n : nat) : label := Push c (demo_task n) no_timeout half EmptyString.

(** A caller that waits for room does not look at m_terminate again: it
    inserts its task, and pushTask answers true, when the pool was stopped and
    every worker has been joined; nobody is left to run the task. *)
Theorem pushTask_accepts_after_stop :
  exists s,
    demo_run 1 1 0
      [Start; demo_push 10 1; PushLock 10; PushNotify 10 None; Pop 0; PopNotify 0 None;
       demo_push 11 2; PushLock 11; PushNotify 11 None; demo_push 12 3; PushLock 12;
       Stop 13; StopNotify 13; Finish 0; Pop 0; PopNotify 0 (Some 12%nat); Finish 0; Pop 0;
       Stop 13; StopNotify 13; Pop 0; PushLock 12; PushNotify 12 None] = Some s /\
    m_terminate s = true /\ joinable s /\ callers s = ∅ /\ m_queues s = [[demo_task 3]].
Proof.
  eexists. split; [vm_compute; reflexivity|]. split; [reflexivity|].
  split; [|split; reflexivity]. intros i Hi. simpl in Hi. destruct i; [reflexivity|lia].
Qed.

(** The limit is passed by one: with the limit 0 a queue holds a task. *)
Lemma limit_passed_by_one :
  exists s, demo_run 1 1 0 [demo_push 10 1; PushLock 10] = Some s /\ m_queues s = [[demo_task 1]].
Proof. eexists. split; vm_compute; reflexivity. Qed.

(** isNull wants both pointers null: data without a function is called. *)
Lemma null_function_is_called d : taskProcessor_run (mkTask None (Some d)) = Crashed.
Proof. reflexivity. Qed.

Definition demo_labels : list label :=
  [Start; Pop 0; Pop 1; demo_push 10 1; PushLock 10; PushNotify 10 (Some 0%nat);
   demo_push 10 2; PushLock 10].

Definition after (threads queues : nat) (max : Z) (ls : list label) : state :=
  default (ThreadPool threads queues max 1) (demo_run threads queues max ls).

Lemma demo_initial threads queues max : 0 <= max < 2 ^ 32 -> initial (ThreadPool threads queues max 1).
Proof. intros Hm. by exists threads, queues, max, 1. Qed.

Lemma queues_are_fifo_and_bounded_witness :
  let s := after 2 1 100 demo_labels in
  m_queues s = [[demo_task 1; demo_task 2]] /\
  of_queue 0 (pushed s) = of_queue 0 (popped s) ++ [demo_task 1; demo_task 2].
Proof.
  assert (E : demo_run 2 1 100 demo_labels = Some (after 2 1 100 demo_labels))
    by (vm_compute; reflexivity).
  split; [vm_compute; reflexivity|].
  apply (queues_are_fifo_and_bounded uniform_mod hash_length (after 2 1 100 demo_labels) 0).
  - eapply run_reachable; [|exact E]. apply reachable_initial, demo_initial. lia.
  - vm_compute. reflexivity.
Defined.

Lemma no_task_waits_for_a_sleeper_witness :
  let s := after 2 1 100 demo_labels in
  queued (m_queues s) = 2 /\
  queued (m_queues s) <= count notifies (callers s) + count awake (workers s).
Proof.
  assert (E : demo_run 2 1 100 demo_labels = Some (after 2 1 100 demo_labels))
    by (vm_compute; reflexivity).
  split; [vm_compute; reflexivity|].
  apply (no_task_waits_for_a_sleeper uniform_mod hash_length demo_labels (ThreadPool 2 1 100 1)
           (after 2 1 100 demo_labels)).
  - apply demo_initial. lia.
  - unfold demo_labels. repeat constructor; discriminate.
  - exact E.
  - vm_compute. reflexivity.
Defined.

Lemma getRandomQueueByKey_range_witness :
  priority_elements 36 half = Some 18%nat /\
  exists q g, getRandomQueueByKey uniform_mod hash_length 36 EmptyString half 7 = Some (q, g) /\
    (q < 36)%nat /\ q ∈ take 18 (safe_random_shuffle uniform_mod (seq 0 36) 0).
Proof.
  split; [reflexivity|].
  apply (getRandomQueueByKey_range uniform_mod hash_length uniform_mod_range 36 EmptyString half 7 18);
    [lia|reflexivity].
Defined.

Definition demo_full : list label :=
  [demo_push 10 1; PushLock 10; PushNotify 10 None; demo_push 11 2; PushLock 11].

Lemma no_caller_waits_for_room_witness :
  let s := after 1 1 0 demo_full in
  m_maxTasksPerQueue s + 1 <=
    zlen [demo_task 1] + count (woken_on 0) (callers s) + count (pops_from 0) (workers s).
Proof.
  assert (E : demo_run 1 1 0 demo_full = Some (after 1 1 0 demo_full)) by (vm_compute; reflexivity).
  refine (no_caller_waits_for_room uniform_mod hash_length demo_full (ThreadPool 1 1 0 1) _ 0 _ 11
    (demo_task 2) no_timeout _ _ E _ _).
  - apply demo_initial. lia.
  - repeat constructor.
  - vm_compute. reflexivity.
  - vm_compute. reflexivity.
Defined.

Lemma popTask_drains_witness :
  let s := after 1 1 100 [Start; Pop 0; Stop 10; StopNotify 10] in
  let s' := after 1 1 100 [Start; Pop 0; Stop 10; StopNotify 10; Pop 0] in
  exec uniform_mod hash_length (Pop 0) s = Some s' /\
  workers s' !! 0%nat = Some Exited /\ (forall q l, m_queues s !! q = Some l -> l = []).
Proof.
  intros s s'.
  assert (E : exec uniform_mod hash_length (Pop 0) s = Some s') by (vm_compute; reflexivity).
  assert (Hx : workers s' !! 0%nat = Some Exited) by (vm_compute; reflexivity).
  split; [exact E|]. split; [exact Hx|].
  destruct (popTask_drains uniform_mod hash_length 0 s s' E)
    as [(_ & _ & _ & _ & Hq)|[(Hs & _)|(q & r & l & _ & _ & Hs)]];
    [exact Hq|congruence|congruence].
Defined.

Definition demo_busy : list label :=
  [Start; demo_push 10 1; PushLock 10; PushNotify 10 None; Pop 0; PopNotify 0 None;
   Stop 10; StopNotify 10].

Lemma stop_misses_a_busy_worker_witness :
  exists s', run (exec uniform_mod hash_length) [Finish 0; Pop 0] (after 1 1 100 demo_busy) = Some s' /\
    ~ joinable s'.
Proof.
  destruct (stop_misses_a_busy_worker uniform_mod hash_length 0 (after 1 1 100 demo_busy) (demo_task 1))
    as (s' & Hrun & Hall); [vm_compute; reflexivity..| | |].
  - assert (Eq : m_queues (after 1 1 100 demo_busy) = [[]]) by (vm_compute; reflexivity).
    rewrite Eq. intros [|q] l Hl; simpl in Hl; [by injection Hl as <-|done].
  - apply Nat.ltb_lt. vm_compute. reflexivity.
  - exists s'. split; [exact Hrun|]. apply (Hall [] s'); [constructor|reflexivity].
Defined.
