(* ===== verification/SafeInt.v ===== *)
(** * Checked integer arithmetic (Helpers/safeint.h)

    The templates of safeint.h, instantiated at an integer type given by its
    signedness and width. An arithmetic expression of an unsigned type wraps;
    one of a signed type is the mathematical value (the theorems show that the
    guards keep it in range, so no signed overflow is ever evaluated). *)

From S2P Require Import Prelude.

Inductive ity : Type :=
| Signed (w : Z)
| Unsigned (w : Z).

Definition width (T : ity) : Z := match T with Signed w | Unsigned w => w end.

(** [std::numeric_limits<T>::min()] and [max()]. *)
Definition imin (T : ity) : Z := match T with Signed w => - 2 ^ (w - 1) | Unsigned _ => 0 end.
Definition imax (T : ity) : Z :=
  match T with Signed w => 2 ^ (w - 1) - 1 | Unsigned w => 2 ^ w - 1 end.

Definition in_type (T : ity) (z : Z) : Prop := imin T <= z <= imax T.
#[export] Instance in_type_dec T z : Decision (in_type T z).
Proof. unfold in_type. apply _. Defined.

(** The value of an arithmetic expression of type [T]. *)
Definition arith (T : ity) (z : Z) : Z :=
  match T with Signed _ => z | Unsigned w => z mod 2 ^ w end.

(** [static_cast<T>]: modulo 2^w. *)
Definition cast (T : ity) (z : Z) : Z :=
  match T with
  | Unsigned w => z mod 2 ^ w
  | Signed w => (z + 2 ^ (w - 1)) mod 2 ^ w - 2 ^ (w - 1)
  end.

(** The literal [-1] in a comparison with a [T]: unsigned types of at least
    the width of int convert it, narrower ones are promoted to int. *)
Definition minus_one (T : ity) : Z :=
  match T with Unsigned w => if 32 <=? w then 2 ^ w - 1 else -1 | Signed _ => -1 end.

Definition safeAdd (T : ity) (a b : Z) : res Z :=
  if (a >? 0) && (b >? 0) && (arith T (imax T - a) <? b) then
    Exc (overflow_error "Safe Add: Overflow detected")
  else if (a <? 0) && (b <? 0) && (arith T (imin T - a) >? b) then
    Exc (underflow_error "Safe Add: Underflow detected")
  else Ret (arith T (a + b)).

Definition safeSubtract (T : ity) (a b : Z) : res Z :=
  if (b >? 0) && (a <? arith T (imin T + b)) then
    Exc (underflow_error "Safe Subtract: Underflow detected")
  else if (b <? 0) && (a >? arith T (imax T + b)) then
    Exc (overflow_error "Safe Subtract: Overflow detected")
  else Ret (arith T (a - b)).

Definition safeMultiply (T : ity) (a b : Z) : res Z :=
  if (a >? 0) && (b >? 0) && (a >? Z.quot (imax T) b) then
    Exc (overflow_error "Safe Multiply: Overflow detected")
  else if (a <? 0) && (b <? 0) && (a <? Z.quot (imax T) b) then
    Exc (overflow_error "Safe Multiply: Overflow detected")
  else if (a >? 0) && (b <? 0) && (b <? Z.quot (imin T) a) then
    Exc (underflow_error "Safe Multiply: Underflow detected")
  else if (a <? 0) && (b >? 0) && (a <? Z.quot (imin T) b) then
    Exc (underflow_error "Safe Multiply: Underflow detected")
  else Ret (arith T (a * b)).

Definition safeDivide (T : ity) (a b : Z) : res Z :=
  if b =? 0 then Exc (invalid_argument "Safe Divide: Division by zero")
  else if (a =? imin T) && (b =? minus_one T) then
    Exc (overflow_error "Safe Divide: Overflow detected")
  else Ret (arith T (Z.quot a b)).

Definition safeStaticCast (To From : ity) (value : Z) : res Z :=
  if value >? cast From (imax To) then
    Exc (out_of_range "Safe Static Cast: Value out of range for target type")
  else if value <? cast From (imin To) then
    Exc (underflow_error "Safe Static Cast: Value out of range for target type")
  else Ret (cast To value).

Definition unsafeStaticCast (To From : ity) (value : Z) : Z :=
  if value >? cast From (imax To) then 0
  else if value <? cast From (imin To) then 0
  else cast To value.

(** ** Specification: the exact result when the type holds it, an exception
    otherwise *)

Definition is_exc {A} (r : res A) : Prop := exists e, r = Exc e.

Definition checked (T : ity) (z : Z) (r : res Z) : Prop :=
  (in_type T z -> r = Ret z) /\ (~ in_type T z -> is_exc r).

Lemma arith_id T z : in_type T z -> arith T z = z.
Proof.
  destruct T; unfold in_type; simpl; [done|]. intros. apply Z.mod_small. lia.
Qed.

Lemma width_pow T : 1 <= width T -> 0 < 2 ^ (width T - 1) /\ 2 ^ width T = 2 * 2 ^ (width T - 1).
Proof.
  intros. split; [apply Z.pow_pos_nonneg; lia|].
  rewrite <- Z.pow_succ_r by lia. f_equal. lia.
Qed.

Lemma cast_id T z : 1 <= width T -> in_type T z -> cast T z = z.
Proof.
  intros Hw. pose proof (width_pow T Hw) as [Hp He]. destruct T; simpl in *; unfold in_type; simpl.
  - intros. rewrite Z.mod_small by lia. lia.
  - intros. apply Z.mod_small. lia.
Qed.

(** The bounds of a type, for [lia]. *)
Lemma type_bounds T : 1 <= width T -> imin T <= 0 <= imax T /\ (imin T < 0 -> imin T = - imax T - 1)
  /\ (forall w, T = Unsigned w -> imin T = 0).
Proof.
  intros Hw. pose proof (width_pow T Hw). destruct T; simpl in *; (split; [lia|]); (split; [lia|]);
    intros ? [=]; done.
Qed.

Ltac exc_or_exact :=
  split; intros Hin; unfold in_type in *; case_conds; try lia;
  try (eexists; reflexivity); try (rewrite arith_id by (unfold in_type; lia); reflexivity);
  try (f_equal; apply arith_id; unfold in_type; lia).

Lemma safeAdd_checked T a b :
  1 <= width T -> in_type T a -> in_type T b -> checked T (a + b) (safeAdd T a b).
Proof.
  intros Hw Ha Hb. destruct (type_bounds T Hw) as (? & ? & ?). unfold checked, safeAdd.
  unfold in_type in *.
  destruct (Z.gtb_spec a 0), (Z.gtb_spec b 0), (Z.ltb_spec a 0), (Z.ltb_spec b 0); simpl; try lia;
    rewrite ?(arith_id T (imax T - a)), ?(arith_id T (imin T - a)) by (unfold in_type; lia);
    exc_or_exact.
Qed.

Lemma safeSubtract_checked T a b :
  1 <= width T -> in_type T a -> in_type T b -> checked T (a - b) (safeSubtract T a b).
Proof.
  intros Hw Ha Hb. destruct (type_bounds T Hw) as (? & ? & ?). unfold checked, safeSubtract.
  unfold in_type in *.
  destruct (Z.gtb_spec b 0), (Z.ltb_spec b 0); simpl; try lia;
    rewrite ?(arith_id T (imin T + b)), ?(arith_id T (imax T + b)) by (unfold in_type; lia);
    exc_or_exact.
Qed.

(** Comparing with a truncated quotient is comparing products. *)
Lemma quot_lt_pos m x b : 0 <= m -> 0 < b -> (Z.quot m b <? x) = (m <? x * b).
Proof.
  intros. rewrite Z.quot_div_nonneg by lia. apply eq_true_iff_eq. rewrite !Z.ltb_lt. split; intros.
  - pose proof (Z.mul_succ_div_gt m b ltac:(lia)). nia.
  - apply Z.div_lt_upper_bound; lia.
Qed.

Lemma lt_quot_neg_divisor m x b : 0 <= m -> b < 0 -> (x <? Z.quot m b) = (m <? x * b).
Proof.
  intros. replace b with (- - b) at 1 by lia. rewrite Z.quot_opp_r by lia.
  replace (x <? - Z.quot m (- b)) with (Z.quot m (- b) <? - x)
    by (apply eq_true_iff_eq; rewrite !Z.ltb_lt; lia).
  rewrite quot_lt_pos by lia. by rewrite Z.mul_opp_opp.
Qed.

Lemma lt_quot_neg_dividend m x b : m <= 0 -> 0 < b -> (x <? Z.quot m b) = (x * b <? m).
Proof.
  intros. replace m with (- - m) at 1 by lia. rewrite Z.quot_opp_l by lia.
  replace (x <? - Z.quot (- m) b) with (Z.quot (- m) b <? - x)
    by (apply eq_true_iff_eq; rewrite !Z.ltb_lt; lia).
  rewrite quot_lt_pos by lia. apply eq_true_iff_eq. rewrite !Z.ltb_lt. lia.
Qed.

Lemma safeMultiply_checked T a b :
  1 <= width T -> in_type T a -> in_type T b -> checked T (a * b) (safeMultiply T a b).
Proof.
  intros Hw Ha Hb. destruct (type_bounds T Hw) as (? & ? & ?). unfold checked, safeMultiply.
  unfold in_type in *. rewrite !Z.gtb_ltb.
  destruct (Z.ltb_spec 0 a), (Z.ltb_spec 0 b), (Z.ltb_spec a 0), (Z.ltb_spec b 0);
    simpl; try lia;
    rewrite ?Z.gtb_ltb, ?quot_lt_pos, ?lt_quot_neg_divisor, ?lt_quot_neg_dividend by lia;
    rewrite ?(Z.mul_comm b a);
    split; intros Hin; case_conds; try lia; try (eexists; reflexivity);
    try (f_equal; apply arith_id; unfold in_type; nia);
    try (exfalso; nia).
Qed.

Lemma quot_in_type w a b :
  1 <= w -> in_type (Signed w) a -> b <> 0 -> ~ (a = imin (Signed w) /\ b = -1) ->
  in_type (Signed w) b -> in_type (Signed w) (Z.quot a b).
Proof.
  intros Hw Ha Hb Hn Hb'. pose proof (width_pow (Signed w) Hw) as [Hp _].
  unfold in_type in *; simpl in *. set (M := 2 ^ (w - 1)) in *.
  destruct (decide (b = 1)) as [->|]; [rewrite Z.quot_1_r; lia|].
  destruct (decide (b = -1)) as [->|].
  { change (-1) with (- (1)). rewrite Z.quot_opp_r, Z.quot_1_r by lia. lia. }
  pose proof (Z.quot_abs a b Hb) as Habs.
  assert (Z.quot (Z.abs a) (Z.abs b) <= M - 1).
  { rewrite Z.quot_div_nonneg by lia. apply Z.lt_succ_r.
    apply Z.div_lt_upper_bound; [lia|]. nia. }
  lia.
Qed.

(** ** Properties *)

(** C40: for an integer type of any signedness and width, [safeAdd],
    [safeSubtract] and [safeMultiply] return the mathematical sum, difference
    and product whenever the type can hold it, and throw otherwise: no result
    is ever silently wrapped. *)
Theorem safe_arithmetic_exact T a b :
  1 <= width T -> in_type T a -> in_type T b ->
  checked T (a + b) (safeAdd T a b) /\ checked T (a - b) (safeSubtract T a b)
  /\ checked T (a * b) (safeMultiply T a b).
Proof.
  intros. split; [|split].
  - by apply safeAdd_checked.
  - by apply safeSubtract_checked.
  - by apply safeMultiply_checked.
Qed.

Lemma safe_arithmetic_exact_witness :
  checked (Unsigned 8) (200 + 100) (safeAdd (Unsigned 8) 200 100)
  /\ checked (Unsigned 8) (200 - 100) (safeSubtract (Unsigned 8) 200 100)
  /\ checked (Unsigned 8) (200 * 100) (safeMultiply (Unsigned 8) 200 100).
Proof.
  apply (safe_arithmetic_exact (Unsigned 8) 200 100);
    unfold in_type; simpl; lia.
Defined.

(** [safeDivide] of a signed type is exact or throws; of an unsigned type
    of 32 bits or more it also throws on [0 / max], whose quotient is [0],
    because the test [b == -1] converts [-1] to the maximum. *)
Theorem safeDivide_signed_exact_unsigned_spurious w :
  32 <= w ->
  (forall a b, in_type (Signed w) a -> in_type (Signed w) b ->
     if decide (b = 0) then is_exc (safeDivide (Signed w) a b)
     else checked (Signed w) (Z.quot a b) (safeDivide (Signed w) a b)) /\
  (in_type (Unsigned w) (Z.quot 0 (imax (Unsigned w))) /\
   is_exc (safeDivide (Unsigned w) 0 (imax (Unsigned w)))).
Proof.
  intros Hw. pose proof (width_pow (Signed w) ltac:(simpl; lia)) as [Hp He]. simpl in Hp, He.
  split.
  - intros a b Ha Hb. unfold safeDivide, minus_one. case_decide as H0.
    { subst. simpl. by eexists. }
    replace (b =? 0) with false by lia.
    destruct ((a =? imin (Signed w)) && (b =? -1)) eqn:E; zbool.
    + subst. split; [|by eexists]. intros Hq. exfalso. unfold in_type in Hq.
      change (-1) with (- (1)) in Hq. rewrite Z.quot_opp_r, Z.quot_1_r in Hq by lia.
      simpl in Hq. lia.
    + assert (in_type (Signed w) (Z.quot a b)) as Hq.
      { apply quot_in_type; try done; [lia|]. intros [-> ->]. by rewrite !Z.eqb_refl in E. }
      split; [|done]. intros _. done.
  - assert (32 <= 2 ^ w).
    { transitivity (2 ^ 32); [done|]. apply Z.pow_le_mono_r; lia. }
    unfold safeDivide, minus_one, is_exc, in_type. simpl imin. simpl imax.
    rewrite Z.quot_0_l by lia. split; [lia|].
    replace (32 <=? w) with true by lia. replace (2 ^ w - 1 =? 0) with false by lia.
    rewrite !Z.eqb_refl. simpl. by eexists.
Qed.

Lemma safeDivide_signed_exact_unsigned_spurious_witness :
  is_exc (safeDivide (Unsigned 64) 0 (2 ^ 64 - 1)).
Proof.
  exact (proj2 (proj2 (safeDivide_signed_exact_unsigned_spurious 64 ltac:(lia)))).
Defined.

(** [safeStaticCast] is exact or throws as long as the source type holds
    the limits of the target (the narrowing casts the library makes, such as
    [size_t] to [unsigned int]); on a widening from a signed type to an
    unsigned one the limits wrap and every value is refused. *)
Theorem safeStaticCast_narrowing_exact_widening_refused :
  (forall To From v, 1 <= width To -> 1 <= width From ->
     in_type From (imin To) -> in_type From (imax To) -> in_type From v ->
     checked To v (safeStaticCast To From v)) /\
  (forall v, in_type (Signed 32) v -> is_exc (safeStaticCast (Unsigned 64) (Signed 32) v)).
Proof.
  split.
  - intros To From v HwT HwF Hlo Hhi Hv. unfold checked, safeStaticCast.
    rewrite !cast_id by done. unfold in_type in *. rewrite Z.gtb_ltb.
    split; intros Hin; case_conds; try lia; try (by eexists).
    f_equal. by apply cast_id.
  - intros v Hv. unfold safeStaticCast.
    replace (cast (Signed 32) (imax (Unsigned 64))) with (-1) by reflexivity.
    replace (cast (Signed 32) (imin (Unsigned 64))) with 0 by reflexivity.
    rewrite Z.gtb_ltb. case_conds; by eexists.
Qed.

Lemma safeStaticCast_narrowing_exact_widening_refused_witness :
  checked (Unsigned 32) (2 ^ 40) (safeStaticCast (Unsigned 32) (Unsigned 64) (2 ^ 40)).
Proof.
  apply (proj1 safeStaticCast_narrowing_exact_widening_refused);
    unfold in_type; simpl; lia.
Defined.
