(* ===== verification/ByteOrder.v ===== *)
(** * Integers in memory

    The bytes of an unsigned integer of [w] bytes on a host of either byte
    order, the conversions to the byte order of the network (the system's htonl
    and its family, and the macros of Memory/endian2.h), and what they do. *)

From S2P Require Import Prelude.

Section ByteOrder.
  Variable big_endian : bool.

Fixpoint le_bytes (w : nat) (x : Z) : bytes :=
  match w with
  | O => []
  | S w => chr x :: le_bytes w (x / 256)
  end.

Fixpoint le_int (l : bytes) : Z :=
  match l with
  | [] => 0
  | b :: l => uchar b + 256 * le_int l
  end.

Definition be_bytes (w : nat) (x : Z) : bytes := rev (le_bytes w x).
Definition be_int (l : bytes) : Z := le_int (rev l).

(** The bytes of an object of type uint8_t .. uint64_t, and its value. *)
Definition store (w : nat) (x : Z) : bytes := if big_endian then be_bytes w x else le_bytes w x.
Definition load (l : bytes) : Z := if big_endian then be_int l else le_int l.

(** htons and htonl (and ntohs, ntohl) of the system: the integer whose bytes
    in memory are those of [x] in network order. *)
Definition hton (w : nat) (x : Z) : Z := load (be_bytes w x).
Definition ntoh (w : nat) (x : Z) : Z := be_int (store w x).

(** The macros htonll and ntohll of the sources. *)
Definition htonll (x : Z) : Z :=
  if big_endian then x
  else Z.lor (Z.shiftl (hton 4 (Z.land x (2 ^ 32 - 1))) 32) (hton 4 (Z.shiftr x 32)).
Definition ntohll (x : Z) : Z :=
  if big_endian then x
  else Z.lor (Z.shiftl (ntoh 4 (Z.land x (2 ^ 32 - 1))) 32) (ntoh 4 (Z.shiftr x 32)).

End ByteOrder.

(** ** The bytes and the integers *)

Lemma lor_shiftl a b k : 0 <= k -> 0 <= b < 2 ^ k -> Z.lor (Z.shiftl a k) b = a * 2 ^ k + b.
Proof.
  intros Hk Hb. rewrite <- Z.add_nocarry_lor, Z.shiftl_mul_pow2; [done|done|].
  apply Z.bits_inj'. intros n Hn. rewrite Z.land_spec, Z.bits_0.
  destruct (Z.lt_ge_cases n k); [by rewrite Z.shiftl_spec_low by lia|].
  rewrite <- (Z.mod_small b (2 ^ k)) by lia. rewrite Z.mod_pow2_bits_high by lia. apply andb_false_r.
Qed.

Lemma length_le_bytes w x : length (le_bytes w x) = w.
Proof. revert x. induction w as [|w IH]; intros x; simpl; auto. Qed.

Lemma length_be_bytes w x : length (be_bytes w x) = w.
Proof. unfold be_bytes. by rewrite length_rev, length_le_bytes. Qed.

Lemma zlen_be_bytes w x : zlen (be_bytes w x) = Z.of_nat w.
Proof. unfold zlen. by rewrite length_be_bytes. Qed.

Lemma pow256_S (w : nat) : 256 ^ Z.of_nat (S w) = 256 * 256 ^ Z.of_nat w.
Proof. rewrite Nat2Z.inj_succ, Z.pow_succ_r by lia. done. Qed.

Lemma pow256_pos (w : nat) : 0 < 256 ^ Z.of_nat w.
Proof. apply Z.pow_pos_nonneg; lia. Qed.

Lemma le_int_range l : 0 <= le_int l < 256 ^ zlen l.
Proof.
  induction l as [|b l IH]; simpl le_int; [done|]. unfold zlen in *. simpl length. rewrite pow256_S.
  pose proof (uchar_range b). lia.
Qed.

Lemma le_int_le_bytes w x : le_int (le_bytes w x) = x mod 256 ^ Z.of_nat w.
Proof.
  revert x. induction w as [|w IH]; intros x; simpl le_int; [by rewrite Z.mod_1_r|].
  rewrite uchar_chr, IH, pow256_S. pose proof (pow256_pos w). rewrite Z.rem_mul_r by lia. done.
Qed.

Lemma le_bytes_le_int l : le_bytes (length l) (le_int l) = l.
Proof.
  induction l as [|b l IH]; [done|]. simpl. pose proof (uchar_range b). f_equal.
  - rewrite <- (chr_uchar b) at 2. unfold chr. f_equal. f_equal. rewrite (Z.mul_comm 256), Z.mod_add by lia.
    done.
  - transitivity (le_bytes (length l) (le_int l)); [|exact IH]. f_equal.
    rewrite (Z.mul_comm 256), Z.div_add, Z.div_small by lia. lia.
Qed.

(** Only the low bytes count. *)
Lemma le_bytes_mod w x : le_bytes w (x mod 256 ^ Z.of_nat w) = le_bytes w x.
Proof.
  rewrite <- le_int_le_bytes. rewrite <- (length_le_bytes w x) at 1. apply le_bytes_le_int.
Qed.

Lemma le_bytes_app m n x : le_bytes (m + n) x = le_bytes m x ++ le_bytes n (x / 256 ^ Z.of_nat m).
Proof.
  revert x. induction m as [|m IH]; intros x; simpl; [by rewrite Z.div_1_r|].
  rewrite IH, pow256_S. pose proof (pow256_pos m). by rewrite Z.div_div by lia.
Qed.

Lemma le_int_app l1 l2 : le_int (l1 ++ l2) = le_int l1 + 256 ^ zlen l1 * le_int l2.
Proof.
  induction l1 as [|b l1 IH]; [unfold zlen; simpl; lia|]. simpl. rewrite IH.
  unfold zlen. simpl length. rewrite pow256_S. lia.
Qed.

Lemma be_int_range l : 0 <= be_int l < 256 ^ zlen l.
Proof. unfold be_int. pose proof (le_int_range (rev l)) as Hr. unfold zlen in *. by rewrite length_rev in Hr. Qed.

Lemma be_int_be_bytes w x : be_int (be_bytes w x) = x mod 256 ^ Z.of_nat w.
Proof. unfold be_int, be_bytes. by rewrite rev_involutive, le_int_le_bytes. Qed.

Lemma be_bytes_be_int l : be_bytes (length l) (be_int l) = l.
Proof.
  unfold be_int, be_bytes. rewrite <- (length_rev l), le_bytes_le_int. apply rev_involutive.
Qed.

Lemma be_bytes_app m n x : be_bytes (m + n) x = be_bytes n (x / 256 ^ Z.of_nat m) ++ be_bytes m x.
Proof. unfold be_bytes. by rewrite le_bytes_app, rev_app_distr. Qed.

Lemma be_int_app l1 l2 : be_int (l1 ++ l2) = be_int l1 * 256 ^ zlen l2 + be_int l2.
Proof. unfold be_int. rewrite rev_app_distr, le_int_app. unfold zlen. rewrite length_rev. lia. Qed.

Section Bytes.
  Variable big : bool.

Lemma length_store w x : length (store big w x) = w.
Proof. unfold store. destruct big; [apply length_be_bytes|apply length_le_bytes]. Qed.

Lemma store_load l : store big (length l) (load big l) = l.
Proof. unfold store, load. destruct big; [apply be_bytes_be_int|apply le_bytes_le_int]. Qed.

Lemma store_hton w x : store big w (hton big w x) = be_bytes w x.
Proof. unfold hton. rewrite <- (length_be_bytes w x) at 1. apply store_load. Qed.

Lemma ntoh_load w l : length l = w -> ntoh big w (load big l) = be_int l.
Proof. intros <-. unfold ntoh. by rewrite store_load. Qed.

Lemma load_range l : 0 <= load big l < 256 ^ zlen l.
Proof. unfold load. destruct big; [apply be_int_range|apply le_int_range]. Qed.

End Bytes.

Lemma store_htonll big x : 0 <= x < 2 ^ 64 -> store big 8 (htonll big x) = be_bytes 8 x.
Proof.
  intros Hx. destruct big; [done|]. unfold htonll.
  assert (Hr : forall y, 0 <= hton false 4 y < 2 ^ 32).
  { intros y. unfold hton. pose proof (load_range false (be_bytes 4 y)) as Hr.
    unfold zlen in Hr. by rewrite length_be_bytes in Hr. }
  pose proof (store_hton false 4) as Hs. unfold store in *.
  rewrite lor_shiftl by (done || apply Hr).
  change 8%nat with (4 + 4)%nat. rewrite le_bytes_app, (be_bytes_app 4 4).
  change (256 ^ Z.of_nat 4) with (2 ^ 32). f_equal.
  - rewrite <- (le_bytes_mod 4). change (256 ^ Z.of_nat 4) with (2 ^ 32).
    rewrite Z.add_comm, Z.mod_add, Z.mod_small by (lia || apply Hr).
    by rewrite Hs, Z.shiftr_div_pow2 by lia.
  - rewrite Z.add_comm, Z.div_add, Z.div_small by (lia || apply Hr). rewrite Z.add_0_l, Hs.
    change (2 ^ 32 - 1) with (Z.ones 32). rewrite Z.land_ones by lia.
    unfold be_bytes. f_equal. apply (le_bytes_mod 4).
Qed.

Lemma ntohll_load big l : length l = 8%nat -> ntohll big (load big l) = be_int l.
Proof.
  intros Hl. destruct big; [done|]. unfold ntohll, load.
  assert (Hsplit : l = take 4 l ++ drop 4 l) by (symmetry; apply take_drop).
  assert (H4 : length (take 4 l) = 4%nat) by (rewrite length_take; lia).
  assert (H4' : length (drop 4 l) = 4%nat) by (rewrite length_drop; lia).
  assert (Hn : forall k, length k = 4%nat -> ntoh false 4 (le_int k) = be_int k).
  { intros k Hk. unfold ntoh, store. rewrite <- Hk. by rewrite le_bytes_le_int. }
  assert (Hz : zlen (take 4 l) = 4 /\ zlen (drop 4 l) = 4) by (unfold zlen; lia). destruct Hz as [Hz Hz'].
  pose proof (le_int_range (take 4 l)) as Hr. rewrite Hz in Hr.
  rewrite Hsplit, le_int_app, be_int_app, Hz, Hz'. change (256 ^ 4) with (2 ^ 32) in *.
  change (2 ^ 32 - 1) with (Z.ones 32). rewrite Z.land_ones by lia.
  rewrite (Z.mul_comm (2 ^ 32)), Z.mod_add, Z.mod_small, Z.shiftr_div_pow2, Z.div_add, Z.div_small by lia.
  rewrite Z.add_0_l, !Hn by done.
  pose proof (be_int_range (drop 4 l)) as Hr'. rewrite Hz' in Hr'. rewrite lor_shiftl by (lia || done).
  done.
Qed.
