(* ===== verification/CText.v ===== *)
(** * Numbers and text of the C and C++ libraries

    std::to_string and strtol in base 10, with what one gives for the text of
    the other; strtoul is in Prelude. The order of strings, std::multimap and
    std::string::find. *)

From S2P Require Import Prelude SafeInt.

(** The decimal digits of [n], before [acc]. Twenty are enough for 64 bits. *)
Fixpoint dec_digits (fuel : nat) (n : Z) (acc : bytes) : bytes :=
  match fuel with
  | O => acc
  | S fuel =>
      let d := chr (48 + n mod 10) in
      if n <? 10 then d :: acc else dec_digits fuel (n / 10) (d :: acc)
  end.

(** std::to_string of an integer of 64 bits or less. *)
Definition to_string (z : Z) : bytes :=
  if z <? 0 then "-"%char :: dec_digits 20 (- z) [] else dec_digits 20 z [].

(** strtol(s, nullptr, 10), and strtoll: saturated to 64 bits, 0 when there is
    no digit. *)
Definition strtol (s : bytes) : Z :=
  let s := skip_spaces (c_str s) in
  let negative := match s with c :: _ => uchar c =? 45 | [] => false end in
  let s := match s with
           | c :: s' => if (uchar c =? 45) || (uchar c =? 43) then s' else s
           | [] => []
           end in
  let n := fst (digits 10 0 s) in
  let n := if negative then - n else n in
  Z.max (- 2 ^ 63) (Z.min (2 ^ 63 - 1) n).

(** strtoul(s, nullptr, 10), and strtoull. *)
Definition strtoul10 (s : bytes) : Z :=
  match strtoul 10 s with Some (n, _) => n | None => 0 end.

(** The end of a line. *)
Definition CRLF : bytes := map chr [13; 10].

(** The order of std::map<std::string, ...> and std::multimap: bytes as unsigned char. *)
Fixpoint name_leb (a b : bytes) : bool :=
  match a, b with
  | [], _ => true
  | _ :: _, [] => false
  | x :: a, y :: b => if uchar x =? uchar y then name_leb a b else uchar x <? uchar y
  end.

Definition name_le (a b : bytes) : Prop := name_leb a b = true.
#[export] Instance name_le_dec : RelDecision name_le.
Proof. intros a b. unfold name_le. apply _. Defined.

(** ** std::multimap<std::string, ...> *)

(** A list in the order of the keys; an insertion goes after the equal ones. *)
Fixpoint multimap_insert {A} (kv : bytes * A) (m : list (bytes * A)) : list (bytes * A) :=
  match m with
  | [] => [kv]
  | x :: m' => if name_leb (fst x) (fst kv) then x :: multimap_insert kv m' else kv :: m
  end.

Definition equal_range {A} (key : bytes) (m : list (bytes * A)) : list (bytes * A) :=
  filter (fun kv => fst kv = key) m.

(** ** std::map<std::string, ...>

    A list in the order of the keys, each of them once. *)

(** [m[key] = value]. *)
Fixpoint map_assign {A} (kv : bytes * A) (m : list (bytes * A)) : list (bytes * A) :=
  match m with
  | [] => [kv]
  | x :: m' =>
      if decide (fst x = fst kv) then kv :: m'
      else if name_leb (fst x) (fst kv) then x :: map_assign kv m' else kv :: m
  end.

Definition map_find {A} (key : bytes) (m : list (bytes * A)) : option A := option_map snd (head (equal_range key m)).
Definition map_erase {A} (key : bytes) (m : list (bytes * A)) : list (bytes * A) := filter (fun kv => fst kv <> key) m.

Lemma map_find_cons {A} key k (v : A) m :
  map_find key ((k, v) :: m) = if decide (key = k) then Some v else map_find key m.
Proof.
  unfold map_find, equal_range. rewrite filter_cons. cbn [fst].
  destruct (decide (k = key)), (decide (key = k)); congruence || done.
Qed.

Lemma map_find_assign {A} key (v : A) m key' :
  map_find key' (map_assign (key, v) m) = if decide (key' = key) then Some v else map_find key' m.
Proof.
  induction m as [|[k w] m IH]; cbn [map_assign fst]; [apply map_find_cons|].
  destruct (decide (k = key)) as [->|Hk]; [rewrite !map_find_cons; by destruct (decide (key' = key))|].
  destruct (name_leb k key); rewrite !map_find_cons; [|done]. rewrite IH.
  destruct (decide (key' = k)), (decide (key' = key)); congruence || done.
Qed.

Lemma map_find_erase {A} key (m : list (bytes * A)) key' :
  map_find key' (map_erase key m) = if decide (key' = key) then None else map_find key' m.
Proof.
  unfold map_erase. induction m as [|[k w] m IH]; [by destruct (decide _)|]. rewrite filter_cons, map_find_cons. cbn [fst].
  destruct (decide (k <> key)) as [Hk|Hk]; rewrite ?map_find_cons, IH;
    destruct (decide (key' = k)), (decide (key' = key)); congruence || (try done).
  exfalso. apply Hk. congruence.
Qed.

(** std::string::find. *)
Fixpoint string_find (needle s : bytes) : option Z :=
  if bool_decide (take (length needle) s = needle) then Some 0
  else match s with
       | [] => None
       | _ :: s => option_map Z.succ (string_find needle s)
       end.

(** ** Reading back what was printed *)

Lemma uchar_digit d : 0 <= d < 10 -> uchar (chr (48 + d)) = 48 + d.
Proof. intros Hd. rewrite uchar_chr. apply Z.mod_small. lia. Qed.

Lemma digit_value_dec d : 0 <= d < 10 -> digit_value 10 (chr (48 + d)) = Some d.
Proof.
  intros Hd. unfold digit_value, isdigit, in_range. rewrite uchar_digit by done.
  replace ((48 <=? 48 + d) && (48 + d <=? 57)) with true by lia.
  replace (48 + d - 48) with d by lia. by replace (d <? 10) with true by lia.
Qed.

Lemma digits_dec fuel : forall n acc,
  0 <= n < 10 ^ Z.of_nat fuel -> (0 < fuel)%nat ->
  digits 10 0 (dec_digits fuel n acc) = digits 10 n acc.
Proof.
  induction fuel as [|fuel IH]; intros n acc Hn Hf; [lia|]. cbn [dec_digits].
  assert (Hd : forall m, digits 10 m (chr (48 + n mod 10) :: acc) = digits 10 (m * 10 + n mod 10) acc).
  { intros m. cbn [digits]. rewrite digit_value_dec; [done|]. apply Z.mod_pos_bound. lia. }
  case_cond; zbool.
  - rewrite Hd, Z.mod_small by lia. done.
  - rewrite Nat2Z.inj_succ, Z.pow_succ_r in Hn by lia.
    destruct fuel as [|fuel]; [change (Z.of_nat 0) with 0 in Hn; simpl in Hn; lia|].
    rewrite IH, Hd; [f_equal; pose proof (Z.div_mod n 10 ltac:(lia)); lia| |lia].
    split; [apply Z.div_pos; lia|]. apply Z.div_lt_upper_bound; lia.
Qed.

(** Decimal digits are neither spaces, signs nor the end of the string. *)
Definition dec_chars (l : bytes) : Prop := Forall (fun c => 48 <= uchar c <= 57) l.

Lemma dec_digits_chars fuel : forall n acc, 0 <= n -> dec_chars acc -> dec_chars (dec_digits fuel n acc).
Proof.
  induction fuel as [|fuel IH]; intros n acc Hn Ha; [done|]. cbn [dec_digits].
  assert (Hm : 0 <= n mod 10 < 10) by (apply Z.mod_pos_bound; lia).
  assert (Hd : dec_chars (chr (48 + n mod 10) :: acc)).
  { constructor; [|done]. rewrite uchar_digit by lia. lia. }
  case_cond; [done|]. apply IH; [apply Z.div_pos; lia|done].
Qed.

Lemma dec_digits_nonempty fuel n acc : (0 < fuel)%nat -> dec_digits fuel n acc <> [].
Proof.
  revert n acc. induction fuel as [|fuel IH]; intros n acc Hf; [lia|]. cbn [dec_digits].
  case_cond; [done|]. destruct fuel; [done|]. apply IH. lia.
Qed.

Lemma c_str_dec l : dec_chars l -> c_str l = l.
Proof.
  induction 1 as [|c l Hc _ IH]; [done|]. cbn [c_str]. replace (uchar c =? 0) with false by lia.
  by rewrite IH.
Qed.

Lemma skip_spaces_dec c l : 48 <= uchar c <= 57 \/ uchar c = 45 -> skip_spaces (c :: l) = c :: l.
Proof.
  intros Hc. cbn [skip_spaces]. unfold isspace, in_range.
  by replace (((9 <=? uchar c) && (uchar c <=? 13)) || (uchar c =? 32)) with false by lia.
Qed.

(** Up to 64 bits, twenty digits hold a number. *)
Lemma dec_fuel n : 0 <= n <= 2 ^ 64 -> 0 <= n < 10 ^ Z.of_nat 20.
Proof. intros. change (10 ^ Z.of_nat 20) with 100000000000000000000. lia. Qed.

(** A non-empty run of digits. *)
Lemma dec_text n : 0 <= n <= 2 ^ 64 ->
  exists c l, dec_digits 20 n [] = c :: l /\ 48 <= uchar c <= 57 /\
    c_str (c :: l) = c :: l /\ fst (digits 10 0 (c :: l)) = n.
Proof.
  intros Hn. pose proof (dec_digits_chars 20 n [] ltac:(lia) ltac:(constructor)) as Hc.
  pose proof (dec_digits_nonempty 20 n [] ltac:(lia)) as Hne.
  pose proof (digits_dec 20 n [] (dec_fuel n Hn) ltac:(lia)) as Hd.
  destruct (dec_digits 20 n []) as [|c l]; [done|]. exists c, l.
  split; [done|]. split; [by inversion Hc|]. split; [by apply c_str_dec|]. by rewrite Hd.
Qed.

Lemma strtol_to_string z : - 2 ^ 63 <= z <= 2 ^ 63 - 1 -> strtol (to_string z) = z.
Proof.
  intros Hz. unfold strtol, to_string. case_cond; zbool.
  - destruct (dec_text (- z) ltac:(lia)) as (c & l & -> & Hc & Hs & Hd).
    assert (E45 : uchar "-"%char = 45) by reflexivity.
    cbn [c_str]. rewrite E45. cbn [Z.eqb]. cbn [c_str] in Hs. rewrite Hs.
    rewrite skip_spaces_dec by (by right). rewrite E45. cbn -[digits Z.max Z.min Z.pow].
    rewrite Hd. lia.
  - destruct (dec_text z ltac:(lia)) as (c & l & -> & Hc & -> & Hd).
    rewrite skip_spaces_dec by (by left). replace (uchar c =? 45) with false by lia.
    replace (uchar c =? 43) with false by lia. cbn [orb]. rewrite Hd. lia.
Qed.

Lemma strtoul_to_string z : 0 <= z <= 2 ^ 64 - 1 -> strtoul10 (to_string z) = z.
Proof.
  intros Hz. unfold strtoul10, strtoul, to_string. replace (z <? 0) with false by lia.
  pose proof (dec_digits_chars 20 z [] ltac:(lia) ltac:(constructor)) as Hch.
  destruct (dec_text z ltac:(lia)) as (c & l & E & Hc & Hs & Hd). rewrite E in *. rewrite Hs.
  rewrite skip_spaces_dec by (by left). replace (uchar c =? 45) with false by lia.
  replace (uchar c =? 43) with false by lia. cbn [orb].
  assert (H16 : match c :: l with
                | z :: x :: d :: _ => if (10 =? 16) && (uchar z =? 48) && (uchar (tolower x) =? 120)
                    && bool_decide (is_Some (digit_value 16 d)) then drop 2 (c :: l) else c :: l
                | _ => c :: l
                end = c :: l) by (by destruct l as [|? [|? ?]]).
  rewrite H16. assert (Hv : exists v, digit_value 10 c = Some v).
  { unfold digit_value, isdigit, in_range. exists (uchar c - 48).
    replace ((48 <=? uchar c) && (uchar c <=? 57)) with true by lia.
    by replace (uchar c - 48 <? 10) with true by lia. }
  destruct Hv as [v ->]. destruct (digits 10 0 (c :: l)) as [n rest]. cbn [fst] in Hd. subst n.
  replace (z >? 2 ^ 64 - 1) with false by lia. done.
Qed.

(** ** The range of strtoul *)

Lemma digit_value_nonneg base c v : 0 <= base -> digit_value base c = Some v -> 0 <= v.
Proof.
  intros Hb. assert (Hall : forallb (fun c => (if isdigit c then 0 <=? uchar c - 48 else true) &&
    (if isalpha c then 0 <=? uchar (tolower c) - 97 + 10 else true)) all_chars = true) by (vm_compute; reflexivity).
  pose proof (forall_chars _ Hall c) as Hc. simpl in Hc. unfold digit_value.
  destruct (isdigit c), (isalpha c); cbn [andb] in Hc; repeat (case_cond; try done); zbool; intros [= <-]; lia.
Qed.

Lemma digits_nonneg base s : 0 <= base -> forall n, 0 <= n -> 0 <= fst (digits base n s).
Proof.
  intros Hb. induction s as [|c s IH]; intros n Hn; cbn [digits]; [done|].
  destruct (digit_value base c) as [v|] eqn:E; [|done]. apply digit_value_nonneg in E; [|done]. apply IH. nia.
Qed.

Lemma strtoul_range base s n rest : 0 <= base -> strtoul base s = Some (n, rest) -> 0 <= n <= 2 ^ 64 - 1.
Proof.
  intros Hb. unfold strtoul. cbn zeta. generalize (match skip_spaces (c_str s) with c :: _ => uchar c =? 45 | [] => false end).
  intros negative. match goal with |- match ?text with _ => _ end = _ -> _ => destruct text as [|d l]; [done|] end.
  destruct (digit_value base d); [|done]. pose proof (digits_nonneg base (d :: l) Hb 0 ltac:(lia)) as Hd.
  destruct (digits base 0 (d :: l)) as [x r]. cbn [fst] in Hd. pose proof (Z.mod_pos_bound (- x) (2 ^ 64) eq_refl).
  destruct negative; case_cond; zbool; intros [= <- _]; lia.
Qed.

(** The digits of a number. *)
Lemma to_string_length n : 0 <= n -> zlen (to_string n) <= 20.
Proof.
  intros Hn. unfold to_string. replace (n <? 0) with false by lia.
  assert (Hd : forall fuel m acc, zlen (dec_digits fuel m acc) <= Z.of_nat fuel + zlen acc).
  { induction fuel as [|fuel IH]; intros m acc; cbn [dec_digits]; [lia|]. case_cond; [rewrite zlen_cons; lia|].
    etransitivity; [apply IH|]. rewrite zlen_cons. lia. }
  specialize (Hd 20%nat n []). change (zlen []) with 0 in Hd. lia.
Qed.

Lemma dec_chars_digits l : dec_chars l -> forallb isdigit l = true.
Proof. intros Hd. apply forallb_forall. intros c Hc%list_elem_of_In. unfold dec_chars in Hd. rewrite Forall_forall in Hd. specialize (Hd c Hc). unfold isdigit, in_range. lia. Qed.

Lemma to_string_dec k : 0 <= k -> dec_chars (to_string k).
Proof. intros Hk. unfold to_string. replace (k <? 0) with false by lia. apply dec_digits_chars; [done|constructor]. Qed.

Lemma to_string_digits k : 0 <= k -> forallb isdigit (to_string k) = true.
Proof. intros Hk. by apply dec_chars_digits, to_string_dec. Qed.

Lemma to_string_nonempty z : to_string z <> [].
Proof. unfold to_string. destruct (z <? 0); [done|]. apply dec_digits_nonempty. lia. Qed.
