(* ===== verification/Multimap.v ===== *)
(** * std::multimap<std::string, ...> in order

    The lists of CText.v that stand for multimaps: their order, and what an
    insertion and a removal do to the values of a key. *)

From stdpp Require Import sorting.
From S2P Require Import Prelude CText.

Definition key_le {A} (x y : bytes * A) : Prop := name_le (fst x) (fst y).

Lemma name_leb_total a b : name_leb a b = false -> name_leb b a = true.
Proof.
  revert b. induction a as [|x a IH]; intros [|y b]; cbn [name_leb]; try done.
  rewrite (Z.eqb_sym (uchar y)). case_cond; zbool; [apply IH|]. intros Hl. zbool. lia.
Qed.

Lemma name_leb_trans a b c : name_leb a b = true -> name_leb b c = true -> name_leb a c = true.
Proof.
  revert b c. induction a as [|x a IH]; intros [|y b] [|z c]; cbn [name_leb]; try done.
  case_conds; intros; zbool; try lia; try congruence. by apply (IH b).
Qed.

Lemma insert_in {A} (kv : bytes * A) l x : x ∈ multimap_insert kv l <-> x = kv \/ x ∈ l.
Proof.
  induction l as [|y l IH]; cbn [multimap_insert]; [by rewrite elem_of_cons|].
  case_cond; rewrite !elem_of_cons; [rewrite IH|]; tauto.
Qed.

Lemma insert_sorted {A} (kv : bytes * A) l : StronglySorted key_le l -> StronglySorted key_le (multimap_insert kv l).
Proof.
  induction 1 as [|y l Hl IH Hy]; cbn [multimap_insert]; [by repeat constructor|].
  case_cond.
  - constructor; [done|]. apply Forall_forall. intros x [->|Hx]%insert_in; [done|].
    rewrite Forall_forall in Hy. by apply Hy.
  - constructor; [by constructor|]. apply name_leb_total in E. constructor; [done|].
    eapply Forall_impl; [exact Hy|]. intros x Hx. by apply (name_leb_trans _ (fst y)).
Qed.

(** An insertion after all the others. *)
Lemma insert_last {A} (kv : bytes * A) l : Forall (fun x => key_le x kv) l -> multimap_insert kv l = l ++ [kv].
Proof. induction 1 as [|y l Hy _ IH]; [done|]. cbn [multimap_insert app]. unfold key_le, name_le in Hy. by rewrite Hy, IH. Qed.

(** ** The values of a key *)

Lemma name_leb_refl a : name_leb a a = true.
Proof. induction a as [|x a IH]; [done|]. cbn [name_leb]. by rewrite Z.eqb_refl. Qed.

Definition values_of {A} (key : bytes) (m : list (bytes * A)) : list A := map snd (equal_range key m).

Lemma values_of_cons {A} key k (v : A) m :
  values_of key ((k, v) :: m) = if decide (k = key) then v :: values_of key m else values_of key m.
Proof. unfold values_of, equal_range. rewrite filter_cons. cbn [fst]. by destruct (decide (k = key)). Qed.

Lemma values_of_app {A} key (m1 m2 : list (bytes * A)) : values_of key (m1 ++ m2) = values_of key m1 ++ values_of key m2.
Proof. unfold values_of, equal_range. by rewrite filter_app, map_app. Qed.

Lemma values_of_none {A} key (m : list (bytes * A)) : Forall (fun kv => fst kv <> key) m -> values_of key m = [].
Proof. induction 1 as [|[k v] m Hk _ IH]; [done|]. rewrite values_of_cons. by rewrite decide_False. Qed.

(** An insertion adds its value after those of the same key. *)
Lemma values_of_insert {A} key k (v : A) m :
  StronglySorted key_le m ->
  values_of key (multimap_insert (k, v) m) = if decide (k = key) then values_of key m ++ [v] else values_of key m.
Proof.
  induction 1 as [|[k' v'] m Hm IH Hk']; cbn [multimap_insert fst]; [by rewrite values_of_cons; case_decide|].
  destruct (name_leb k' k) eqn:Hle.
  - rewrite !values_of_cons, IH. by destruct (decide (k' = key)), (decide (k = key)).
  - rewrite (values_of_cons key k). destruct (decide (k = key)) as [->|]; [|done].
    assert (Hnone : Forall (fun kv => fst kv <> key) ((k', v') :: m)).
    { constructor; [intros He; cbn in He; subst; by rewrite name_leb_refl in Hle|].
      eapply Forall_impl; [exact Hk'|]. intros [k2 v2] Hle2 He. cbn in He. subst k2. unfold key_le, name_le in Hle2. cbn in Hle2. congruence. }
    by rewrite values_of_none.
Qed.

Lemma filter_sorted {A} (P : bytes * A -> Prop) `{!forall x, Decision (P x)} m :
  StronglySorted key_le m -> StronglySorted key_le (filter P m).
Proof.
  induction 1 as [|x m Hm IH Hx]; [constructor|]. rewrite filter_cons. case_decide; [|done].
  constructor; [done|]. apply Forall_forall. intros y [_ Hy]%list_elem_of_filter. rewrite Forall_forall in Hx. by apply Hx.
Qed.

Lemma values_of_remove {A} key k (m : list (bytes * A)) :
  values_of key (filter (fun kv => fst kv <> k) m) = if decide (k = key) then [] else values_of key m.
Proof.
  induction m as [|[k' v] m IH]; [by case_decide|]. rewrite filter_cons. cbn [fst]. destruct (decide (k' <> k)) as [Hn|He].
  - rewrite !values_of_cons, IH. destruct (decide (k' = key)), (decide (k = key)); congruence || done.
  - apply dec_stable in He. subst k'. rewrite IH, values_of_cons. by destruct (decide (k = key)).
Qed.

(** A multimap is, up to its order, the list of what it was made from. *)
Lemma insert_permutation {A} (kv : bytes * A) m : multimap_insert kv m ≡ₚ kv :: m.
Proof.
  induction m as [|x m IH]; cbn [multimap_insert]; [done|]. case_cond; [|done]. rewrite IH. constructor.
Qed.
