(* ===== verification/StringList.v ===== *)
(** * Lists of strings as text: Memory/a_stringlist.cpp

    The elements are separated by commas; an element with a comma or a double
    quote is written between quotes, its quotes doubled. A position in the
    input is the rest of the input from there. *)

From S2P Require Import Prelude.

Definition QUOTE : ascii := chr 34.
Definition COMMA : ascii := chr 44.

(** ** toString *)

Definition needsQuotes (element : bytes) : bool :=
  bool_decide (COMMA ∈ element) || bool_decide (QUOTE ∈ element).

(** The element with its quotes doubled. *)
Definition escaped (element : bytes) : bytes :=
  flat_map (fun c => if decide (c = QUOTE) then [QUOTE; QUOTE] else [c]) element.

Definition field_text (element : bytes) : bytes :=
  if needsQuotes element then QUOTE :: escaped element ++ [QUOTE] else element.

Fixpoint toString_loop (isFirst : bool) (values : list bytes) : bytes :=
  match values with
  | [] => []
  | element :: values =>
      (if isFirst then [] else [COMMA]) ++ field_text element ++ toString_loop false values
  end.

Definition toString (values : list bytes) : bytes := toString_loop true values.

(** ** fromString *)

(** find_first_of(','): the field before the comma and what follows it. *)
Fixpoint split_comma (s : bytes) : option (bytes * bytes) :=
  match s with
  | [] => None
  | c :: s =>
      if decide (c = COMMA) then Some ([], s)
      else match split_comma s with
           | Some (field, rest) => Some (c :: field, rest)
           | None => None
           end
  end.

(** The variables of the loops. *)
Record scan := mkScan {
  currentPosition : bytes;
  startOfCurrentField : bytes;
  inQuotes : bool;
  currentFieldValue : bytes;
  finalValues : list bytes
}.

(** The loop in quotes. A completed field does not leave it. *)
Fixpoint quoted_loop (s start : bytes) (inQuotes : bool) (value : bytes) (out : list bytes) : scan :=
  match s with
  | [] => mkScan [] start inQuotes value out
  | c :: s1 =>
      if decide (c = QUOTE) then
        match s1 with
        | [] => mkScan [] start false [] (out ++ [value])
        | d :: s2 =>
            if decide (d = COMMA) then quoted_loop s2 s2 false [] (out ++ [value])
            else if bool_decide (d = QUOTE) && negb (bool_decide (s2 = []))
            then quoted_loop s2 start inQuotes (value ++ [c]) out
            else mkScan s start inQuotes (str "IGN") out
        end
      else quoted_loop s1 start inQuotes (value ++ [c]) out
  end.

Fixpoint fields_loop (fuel : nat) (s start : bytes) (inQuotes_ processWithoutQuotes : bool)
    (out : list bytes) : res (list bytes) :=
  match fuel with
  | O => Exc diverges
  | S fuel =>
      match s with
      | [] => Ret out
      | c :: s1 =>
          if negb inQuotes_ then
            if negb processWithoutQuotes && bool_decide (c = QUOTE) then
              fields_loop fuel s1 s true processWithoutQuotes out
            else
              match split_comma s with
              | Some (field, rest) => fields_loop fuel rest start false false (out ++ [field])
              | None => Ret (out ++ [s])
              end
          else
            let p := quoted_loop s start inQuotes_ [] out in
            if bool_decide (currentFieldValue p = [])
            then fields_loop fuel (currentPosition p) (startOfCurrentField p) (inQuotes p)
                   processWithoutQuotes (finalValues p)
            else fields_loop fuel (startOfCurrentField p) (startOfCurrentField p) false true
                   (finalValues p)
      end
  end.

Definition fromString (inputString : bytes) : res (list bytes) :=
  fields_loop (S (3 * length inputString + 3)) inputString inputString false false [].

(** ** Termination *)

Lemma split_comma_spec s :
  match split_comma s with
  | Some (field, rest) => s = field ++ COMMA :: rest /\ COMMA ∉ field
  | None => COMMA ∉ s
  end.
Proof.
  induction s as [|c s IH]; simpl; [apply not_elem_of_nil|]. case_decide as Hc.
  - subst. split; [done|apply not_elem_of_nil].
  - destruct (split_comma s) as [[field rest]|].
    + destruct IH as [-> Hn]. split; [done|]. rewrite not_elem_of_cons. done.
    + rewrite not_elem_of_cons. done.
Qed.

(** The loop in quotes either stops at the end of the input or keeps a value;
    the field it restarts from is in what it read. *)
Lemma quoted_loop_progress s : forall start q value out,
  let p := quoted_loop s start q value out in
  (currentFieldValue p = [] -> currentPosition p = []) /\
  (startOfCurrentField p = start \/ (length (startOfCurrentField p) < length s)%nat).
Proof.
  assert (Hlen : forall n s, (length s <= n)%nat -> forall start q value out,
    let p := quoted_loop s start q value out in
    (currentFieldValue p = [] -> currentPosition p = []) /\
    (startOfCurrentField p = start \/ (length (startOfCurrentField p) < length s)%nat)).
  { induction n as [|n IH]; intros [|c s1] Hn start q value out; simpl in *; try (split; [done|by left]); [lia|].
    case_decide as Hc.
    - destruct s1 as [|d s2]; [split; [done|by left]|]. simpl in Hn. case_decide as Hd.
      + destruct (IH s2 ltac:(lia) s2 false [] (out ++ [value])) as [Hp Hs]. split; [exact Hp|].
        right. destruct Hs as [->|]; simpl; lia.
      + destruct (_ && _).
        * destruct (IH s2 ltac:(lia) start q (value ++ [c]) out) as [Hp Hs]. split; [exact Hp|].
          destruct Hs as [|]; [by left|right; simpl; lia].
        * split; [done|by left].
    - destruct (IH s1 ltac:(lia) start q (value ++ [c]) out) as [Hp Hs]. split; [exact Hp|].
      destruct Hs as [|]; [by left|right; simpl; lia]. }
  intros start q value out. by apply (Hlen (length s)).
Qed.

(** What is left to do: a position is visited at most three times, to enter the
    quotes, in them, and without them. *)
Definition work (s start : bytes) (q pwq : bool) : nat :=
  if q then 3 * length start + 1 else if pwq then 3 * length s else 3 * length s + 2.

Lemma fields_loop_terminates fuel : forall s start q pwq out,
  (work s start q pwq < fuel)%nat -> (q = true -> length s < length start)%nat ->
  exists l, fields_loop fuel s start q pwq out = Ret l.
Proof.
  induction fuel as [|fuel IH]; intros s start q pwq out Hf Hq; [lia|]. cbn [fields_loop].
  destruct s as [|c s1]; [by eexists|]. destruct q; cbn [negb].
  - specialize (Hq eq_refl). pose proof (quoted_loop_progress (c :: s1) start true [] out) as [Hp Hs].
    unfold work in Hf. case_bool_decide as Hv.
    + rewrite (Hp Hv). destruct fuel; [lia|]. by eexists.
    + apply IH; [|done]. unfold work. destruct Hs as [->|Hs]; [lia|]. simpl in *. lia.
  - unfold work in Hf. destruct (negb pwq && bool_decide (c = QUOTE)) eqn:Eq.
    + apply andb_true_iff in Eq as [Epwq _]. destruct pwq; [done|].
      apply IH; simpl in *; [lia|]. intros _. simpl. lia.
    + pose proof (split_comma_spec (c :: s1)) as Hsp. destruct (split_comma (c :: s1)) as [[field rest]|]; [|by eexists].
      destruct Hsp as [Hsp _]. apply (f_equal length) in Hsp. rewrite length_app in Hsp.
      apply IH; [|done]. unfold work. simpl in *. destruct pwq; lia.
Qed.

Lemma fromString_returns inputString : exists l, fromString inputString = Ret l.
Proof. apply fields_loop_terminates; [|done]. unfold work. lia. Qed.

(** FromString ends on every input, with at most three rounds for each of
    its characters. *)
Theorem fromString_terminates inputString : exists l, fromString inputString = Ret l.
Proof. apply fromString_returns. Qed.

(** ** The round trip *)

(** An element written without quotes. *)
Definition plain (element : bytes) : Prop := COMMA ∉ element /\ QUOTE ∉ element.

Lemma plain_needs element : plain element <-> needsQuotes element = false.
Proof.
  unfold plain, needsQuotes. rewrite orb_false_iff, !bool_decide_eq_false. done.
Qed.

Lemma quoted_loop_plain s : forall start q value out,
  QUOTE ∉ s -> quoted_loop s start q value out = mkScan [] start q (value ++ s) out.
Proof.
  induction s as [|c s IH]; intros start q value out Hs; cbn [quoted_loop]; [by rewrite app_nil_r|].
  apply not_elem_of_cons in Hs as [Hc Hs]. rewrite decide_False by congruence.
  rewrite IH by done. by rewrite <- app_assoc.
Qed.

Lemma quoted_loop_escaped e : forall start q value out rest,
  quoted_loop (escaped e ++ QUOTE :: rest) start q value out =
  quoted_loop (QUOTE :: rest) start q (value ++ e) out.
Proof.
  induction e as [|c e IH]; intros start q value out rest; [by rewrite app_nil_r|].
  unfold escaped. cbn [flat_map]. fold (escaped e). case_decide as Hc.
  - subst c. cbn [app quoted_loop]. rewrite decide_True by done. rewrite decide_False by done.
    rewrite bool_decide_true by done. rewrite bool_decide_false by (by destruct (escaped e)).
    cbn [andb negb]. rewrite IH. by rewrite <- app_assoc.
  - cbn [app]. cbn [quoted_loop]. rewrite decide_False by done. rewrite IH. by rewrite <- app_assoc.
Qed.

Lemma quoted_loop_last e start out :
  quoted_loop (escaped e ++ [QUOTE]) start true [] out = mkScan [] start false [] (out ++ [e]).
Proof. rewrite quoted_loop_escaped. cbn [quoted_loop app]. by rewrite decide_True. Qed.

Lemma quoted_loop_next e start out rest :
  QUOTE ∉ rest ->
  quoted_loop (escaped e ++ QUOTE :: COMMA :: rest) start true [] out =
  mkScan [] rest false rest (out ++ [e]).
Proof.
  intros Hr. rewrite quoted_loop_escaped. cbn [quoted_loop app]. rewrite !decide_True by done.
  by rewrite quoted_loop_plain.
Qed.

Lemma split_comma_plain e rest : COMMA ∉ e -> split_comma (e ++ COMMA :: rest) = Some (e, rest).
Proof.
  induction e as [|c e IH]; intros He; cbn [app split_comma]; [done|].
  apply not_elem_of_cons in He as [Hc He]. rewrite decide_False by congruence. by rewrite IH.
Qed.

Lemma split_comma_none e : COMMA ∉ e -> split_comma e = None.
Proof.
  induction e as [|c e IH]; intros He; simpl; [done|].
  apply not_elem_of_cons in He as [Hc He]. rewrite decide_False by congruence. by rewrite IH.
Qed.


Lemma fields_loop_mono fuel : forall fuel' s start q pwq out l,
  fields_loop fuel s start q pwq out = Ret l -> (fuel <= fuel')%nat ->
  fields_loop fuel' s start q pwq out = Ret l.
Proof.
  induction fuel as [|fuel IH]; intros [|fuel'] s start q pwq out l E Hf; try done; [lia|].
  cbn [fields_loop] in *. destruct s as [|c s1]; [done|].
  destruct (negb q).
  - destruct (_ && _); [eapply IH; [done|lia]|].
    destruct (split_comma (c :: s1)) as [[field rest]|]; [eapply IH; [done|lia]|done].
  - cbn zeta in *. destruct (bool_decide _); (eapply IH; [done|lia]).
Qed.

(** What the loop gives with some fuel is what fromString gives. *)
Lemma fromString_fuel fuel s l :
  fields_loop fuel s s false false [] = Ret l -> fromString s = Ret l.
Proof.
  intros E. destruct (fields_loop_terminates (S (3 * length s + 3)) s s false false []) as [l' E'];
    [unfold work; lia|done|].
  unfold fromString. rewrite E'. pose proof (fields_loop_mono _ (fuel + S (3 * length s + 3)) _ _ _ _ _ _ E ltac:(lia)) as H1.
  pose proof (fields_loop_mono _ (fuel + S (3 * length s + 3)) _ _ _ _ _ _ E' ltac:(lia)) as H2.
  congruence.
Qed.

(** The elements with a comma after each. *)
Definition fields_text (l : list bytes) : bytes := flat_map (fun e => field_text e ++ [COMMA]) l.

Lemma toString_loop_false l : toString_loop false l = flat_map (fun e => COMMA :: field_text e) l.
Proof. induction l as [|e l IH]; [done|]. cbn [toString_loop flat_map app]. by rewrite IH. Qed.

Lemma commas_around l r :
  flat_map (fun e => COMMA :: field_text e) l ++ COMMA :: r = COMMA :: fields_text l ++ r.
Proof.
  induction l as [|y l IH]; [done|]. unfold fields_text. cbn [flat_map app]. fold (fields_text l).
  by rewrite <- !app_assoc, IH.
Qed.

Lemma toString_app l e l' : toString (l ++ e :: l') = fields_text l ++ toString (e :: l').
Proof.
  destruct l as [|x l]; [done|]. unfold toString. cbn [app toString_loop].
  rewrite !toString_loop_false, flat_map_app. cbn [flat_map app]. rewrite commas_around.
  unfold fields_text. cbn [flat_map]. by rewrite <- !app_assoc.
Qed.

Lemma field_text_plain e : plain e -> field_text e = e.
Proof. intros He. unfold field_text. by rewrite (proj1 (plain_needs e) He). Qed.

Lemma fields_loop_field fuel e rest start pwq out :
  plain e ->
  fields_loop (S fuel) (e ++ COMMA :: rest) start false pwq out =
  fields_loop fuel rest start false false (out ++ [e]).
Proof.
  intros [Hc Hq]. pose proof (split_comma_plain e rest Hc) as Hs. cbn [fields_loop].
  destruct e as [|c e]; cbn [app] in *.
  - cbn [negb]. rewrite andb_false_r by done. by rewrite Hs.
  - rewrite Hs. apply not_elem_of_cons in Hq as [Hq _]. cbn [negb].
    rewrite bool_decide_false by congruence. by rewrite andb_false_r.
Qed.

Lemma fields_loop_before l : forall fuel rest start out,
  Forall plain l ->
  fields_loop (length l + fuel) (fields_text l ++ rest) start false false out =
  fields_loop fuel rest start false false (out ++ l).
Proof.
  induction l as [|e l IH]; intros fuel rest start out Hl; [by rewrite app_nil_r|].
  inversion_clear Hl as [|? ? He Hl']. unfold fields_text. cbn [flat_map length Nat.add].
  rewrite field_text_plain by done. rewrite <- !app_assoc. cbn [app].
  rewrite fields_loop_field by done. fold (fields_text l). rewrite IH by done. by rewrite <- app_assoc.
Qed.

(** Elements without quotes, the last one not empty, in either state. *)
Lemma fields_loop_plain l start pwq out :
  Forall plain l -> last l <> Some [] ->
  exists fuel, fields_loop fuel (toString l) start false pwq out = Ret (out ++ l).
Proof.
  intros Hl Hlast. destruct l as [|e l _] using rev_ind; [exists 1%nat; by rewrite app_nil_r|].
  apply Forall_app in Hl as [Hl He]. inversion_clear He as [|? ? [Hc Hq] _].
  rewrite last_snoc in Hlast. rewrite toString_app.
  assert (Et : toString [e] = e).
  { unfold toString. cbn [toString_loop app]. by rewrite app_nil_r, field_text_plain. }
  rewrite Et. assert (Hone : forall out, fields_loop 1 e start false false out = Ret (out ++ [e])).
  { intros o. cbn [fields_loop]. rewrite split_comma_none by done. destruct e as [|c e]; [done|].
    apply not_elem_of_cons in Hq as [Hq _]. cbn [negb]. by rewrite bool_decide_false by congruence. }
  assert (Hfalse : exists fuel, fields_loop fuel (fields_text l ++ e) start false false out = Ret (out ++ l ++ [e])).
  { exists (length l + 1)%nat. rewrite fields_loop_before by done. rewrite Hone. by rewrite <- app_assoc. }
  destruct pwq; [|done]. destruct l as [|x l].
  - exists 1%nat. cbn [fields_loop fields_text flat_map app]. rewrite split_comma_none by done.
    by destruct e.
  - inversion_clear Hl as [|? ? Hx Hl']. exists (S (length l + 1)). unfold fields_text. cbn [flat_map].
    rewrite field_text_plain by done. rewrite <- !app_assoc. cbn [app].
    rewrite fields_loop_field by done. fold (fields_text l). rewrite fields_loop_before, Hone by done.
    by rewrite <- !app_assoc.
Qed.

Lemma toString_plain_quote l : Forall plain l -> QUOTE ∉ toString l.
Proof.
  intros Hl. unfold toString. destruct Hl as [|e l [Hc Hq] Hl]; [apply not_elem_of_nil|].
  cbn [toString_loop app]. rewrite field_text_plain by done. rewrite toString_loop_false.
  apply not_elem_of_app. split; [done|]. induction Hl as [|x l Hx Hl IH]; [apply not_elem_of_nil|].
  cbn [flat_map app]. rewrite field_text_plain by done. destruct Hx as [? ?].
  apply not_elem_of_cons. split; [done|]. by apply not_elem_of_app.
Qed.

Lemma toString_cons e l : l <> [] -> toString (e :: l) = field_text e ++ COMMA :: toString l.
Proof. destruct l as [|x l]; done. Qed.

(** A quoted element first, the others without quotes. *)
Lemma fields_loop_quoted q l start out :
  needsQuotes q = true -> Forall plain l -> last l <> Some [] ->
  exists fuel, fields_loop fuel (toString (q :: l)) start false false out = Ret (out ++ q :: l).
Proof.
  intros Hq Hl Hlast. destruct (decide (l = [])) as [->|Hne].
  - exists 3%nat. unfold toString. cbn [toString_loop app]. rewrite app_nil_r. unfold field_text.
    rewrite Hq. set (text := QUOTE :: escaped q ++ [QUOTE]). cbn [fields_loop text negb andb].
    rewrite bool_decide_true by done. cbn [fields_loop negb andb].
    destruct (escaped q ++ [QUOTE]) as [|c s] eqn:E; [by destruct (escaped q)|].
    rewrite <- E, quoted_loop_last. done.
  - rewrite toString_cons by done. unfold field_text. rewrite Hq.
    destruct (fields_loop_plain l (toString l) true (out ++ [q]) Hl Hlast) as [fuel E].
    exists (S (S fuel)). rewrite <- app_comm_cons, <- app_assoc. cbn [app fields_loop negb andb].
    rewrite bool_decide_true by done. cbn [fields_loop negb].
    destruct (escaped q ++ QUOTE :: COMMA :: toString l) as [|c s] eqn:Es; [by destruct (escaped q)|].
    rewrite <- Es, quoted_loop_next by (by apply toString_plain_quote). cbn.
    rewrite bool_decide_false; [by rewrite E, <- app_assoc|].
    intros En. rewrite En in E. destruct l as [|x [|y l]]; [done| |].
    + apply Hlast. unfold toString in En. cbn [toString_loop app] in En. rewrite app_nil_r in En.
      inversion_clear Hl. rewrite field_text_plain in En by done. by subst.
    + rewrite toString_cons in En by done. by destruct (field_text x).
Qed.

(** At most one element in quotes. *)
Definition one_quoted (l : list bytes) : Prop :=
  (length (filter (fun e => needsQuotes e = true) l) <= 1)%nat.

Lemma one_quoted_inv l :
  one_quoted l ->
  Forall plain l \/ exists l1 q l2, l = l1 ++ q :: l2 /\ Forall plain l1 /\ needsQuotes q = true /\ Forall plain l2.
Proof.
  unfold one_quoted. induction l as [|e l IH]; [by left|]. rewrite filter_cons.
  case_decide as Hq; intros Hl.
  - right. exists [], e, l. do 3 (split; [done|]). simpl in Hl. apply Forall_forall. intros x Hx.
    apply plain_needs. destruct (needsQuotes x) eqn:E; [|done].
    assert (Hin : x ∈ filter (fun e => needsQuotes e = true) l) by (by apply list_elem_of_filter).
    destruct (filter _ l); [by apply not_elem_of_nil in Hin|simpl in Hl; lia].
  - apply not_true_is_false, plain_needs in Hq.
    destruct (IH Hl) as [Hp|(l1 & q & l2 & -> & H1 & Hq' & H2)]; [left; by constructor|].
    right. exists (e :: l1), q, l2. split; [done|]. split; [by constructor|]. done.
Qed.

(** C39: a list of strings is read back from its text when one element at most
    holds a comma or a double quote and the last element is not empty. *)
Theorem stringlist_roundtrip l :
  one_quoted l -> last l <> Some [] -> fromString (toString l) = Ret l.
Proof.
  intros Hone Hlast.
  destruct (one_quoted_inv l Hone) as [Hp|(l1 & q & l2 & -> & H1 & Hq & H2)].
  - destruct (fields_loop_plain l (toString l) false [] Hp Hlast) as [fuel E]. by apply (fromString_fuel fuel).
  - rewrite toString_app.
    assert (Hlast2 : last l2 <> Some []).
    { rewrite last_app_cons in Hlast. by destruct l2. }
    destruct (fields_loop_quoted q l2 (fields_text l1 ++ toString (q :: l2)) l1 Hq H2 Hlast2) as [fuel E].
    apply (fromString_fuel (length l1 + fuel)). by rewrite fields_loop_before.
Qed.

(** Elements with nothing to quote, an empty one and one with quotes. *)
Definition sample : list bytes := [str "a"; QUOTE :: str "x, y" ++ [QUOTE]; []; str "b"].

Lemma stringlist_roundtrip_witness :
  one_quoted sample /\ last sample <> Some [] /\ fromString (toString sample) = Ret sample.
Proof.
  assert (H1 : one_quoted sample) by (unfold one_quoted; vm_compute; lia).
  assert (H2 : last sample <> Some []) by (vm_compute; congruence).
  split; [exact H1|]. split; [exact H2|]. exact (stringlist_roundtrip _ H1 H2).
Defined.

(** Two quoted elements in a row are not read back: the loop in quotes goes
    on after the first one, and the second is cut at its comma. *)
Theorem two_quoted_elements_are_cut :
  fromString (toString [str "a,b"; str "c,d"]) = Ret [str "a,b"; QUOTE :: str "c"; str "d" ++ [QUOTE]].
Proof. vm_compute. reflexivity. Qed.
