(* ===== verification/Mem.v ===== *)
(** * Memory primitives (Helpers/mem.h, Helpers/mem.cpp)

    The case-folding table and the comparisons built on it, the blocked
    variants of memcmp, memcpy and memmove, and the byte accumulator
    [BinaryDataContainer]. A pointer to an area is the list of the bytes of the
    area; the two area operations that write take the bytes of the whole
    object and fault when they leave it. *)

From S2P Require Import Prelude.

Definition KB_MULT : Z := 1024.

(** [Mem::m_cmpMatrix]: the initialiser, run by run. *)
Definition m_cmpMatrix : list Z :=
  seqZ 0 65 ++ seqZ 97 26 ++ seqZ 91 6 ++ seqZ 97 26 ++ seqZ 123 133.

Definition cmpMatrix_at (c : ascii) : Z := nth (Z.to_nat (uchar c)) m_cmpMatrix 0.

Definition icharcmp (c1 c2 : ascii) : bool := cmpMatrix_at c1 =? cmpMatrix_at c2.

Definition BLOCK : Z := 64 * KB_MULT.

(** The loop of [memcmp64]; the fuel bounds the number of blocks. *)
Fixpoint memcmp64_loop (fuel : nat) (s1 s2 : bytes) (n offset : Z) : Z :=
  match fuel with
  | O => 0
  | S fuel =>
      if offset <? n then
        let currentBlock := Z.min (n - offset) BLOCK in
        let result := memcmp (slice offset currentBlock s1) (slice offset currentBlock s2) in
        if negb (result =? 0) then result
        else memcmp64_loop fuel s1 s2 n (offset + BLOCK)
      else 0
  end.

Definition memcmp64 (s1 s2 : bytes) (n : Z) : Z :=
  memcmp64_loop (S (Z.to_nat (n / BLOCK + 1))) s1 s2 n 0.

Fixpoint memicmp_loop (p1 p2 : bytes) : Z :=
  match p1, p2 with
  | x :: p1, y :: p2 => if negb (icharcmp x y) then -1 else memicmp_loop p1 p2
  | _, _ => 0
  end.

Definition memicmp2 (s1 s2 : bytes) (n : Z) (caseSensitive : bool) : Z :=
  if caseSensitive then memcmp64 s1 s2 n
  else memicmp_loop (ztake n s1) (ztake n s2).

(** ** Writing areas *)

(** [memmove] inside one object of bytes [m]; [None] when either area leaves
    the object. *)
Definition splice (d : Z) (new m : bytes) : bytes :=
  ztake d m ++ new ++ zdrop (d + zlen new) m.

Definition memmove (m : bytes) (d s n : Z) : option bytes :=
  if (0 <=? d) && (d + n <=? zlen m) && (0 <=? s) && (s + n <=? zlen m)
  then Some (splice d (slice s n m) m) else None.

(** The outcome of a blocked copy: the object after it, an access outside of
    the object, or more iterations than the fuel. *)
Inductive copied : Type :=
| Copied (m : bytes)
| OutOfBounds
| OutOfFuel.

(** [memcpy64] between an object [dest] and an object [source]. *)
Fixpoint memcpy64_loop (fuel : nat) (dest source : bytes) (currentOffset numBytes : Z) : copied :=
  match fuel with
  | O => OutOfFuel
  | S fuel =>
      if 0 <? numBytes then
        let blockSizeToCopy := Z.min numBytes BLOCK in
        if (currentOffset + blockSizeToCopy <=? zlen dest)
           && (currentOffset + blockSizeToCopy <=? zlen source) then
          let dest := splice currentOffset (slice currentOffset blockSizeToCopy source) dest in
          let currentOffset := u64 (currentOffset + blockSizeToCopy) in
          let numBytes := u64 (numBytes - blockSizeToCopy) in
          let currentOffset := u64 (currentOffset + blockSizeToCopy) in
          let numBytes := u64 (numBytes - blockSizeToCopy) in
          memcpy64_loop fuel dest source currentOffset numBytes
        else OutOfBounds
      else Copied dest
  end.

Definition memcpy64 (fuel : nat) (dest source : bytes) (numBytes : Z) : copied :=
  memcpy64_loop fuel dest source 0 numBytes.

(** [memmove64] inside one object, from index [src] to index [dest]. *)
Fixpoint memmove64_down (fuel : nat) (m : bytes) (dest src currentBlock numBytes : Z) : copied :=
  match fuel with
  | O => OutOfFuel
  | S fuel =>
      if negb (numBytes =? 0) then
        match memmove m (u64 (dest + numBytes - currentBlock)) (u64 (src + numBytes - currentBlock))
                currentBlock with
        | Some m => memmove64_down fuel m dest src currentBlock (u64 (numBytes - currentBlock))
        | None => OutOfBounds
        end
      else Copied m
  end.

Fixpoint memmove64_up (fuel : nat) (m : bytes) (dest src currentBlock currentOffset numBytes : Z)
    : copied :=
  match fuel with
  | O => OutOfFuel
  | S fuel =>
      if negb (numBytes =? 0) then
        match memmove m (u64 (dest + currentOffset)) (u64 (src + currentOffset)) currentBlock with
        | Some m =>
            memmove64_up fuel m dest src currentBlock (u64 (currentOffset + currentBlock))
              (u64 (numBytes - currentBlock))
        | None => OutOfBounds
        end
      else Copied m
  end.

Definition memmove64 (fuel : nat) (m : bytes) (dest src numBytes : Z) : copied :=
  let blockSize := BLOCK in
  let currentBlock := if numBytes >? blockSize then blockSize else numBytes in
  if dest >? src then memmove64_down fuel m dest src currentBlock numBytes
  else if dest <? src then memmove64_up fuel m dest src currentBlock 0 numBytes
  else Copied m.

(** ** Mem::BinaryDataContainer (allocation succeeds) *)

Record BinaryDataContainer : Type := mkBDC {
  bdc_data : option bytes;
  bdc_length : Z;
  bdc_cur : Z
}.

Definition BinaryDataContainer_of (data : bytes) (len : Z) : BinaryDataContainer :=
  if len =? 0 then mkBDC None 0 0 else mkBDC (Some (ztake len data)) len 0.

Definition BinaryDataContainer_zeroed (len : Z) : BinaryDataContainer :=
  if len =? 0 then mkBDC None 0 0
  else mkBDC (Some (replicate (Z.to_nat len) (chr 0))) len 0.

Definition bdc_append (c : ascii) : st BinaryDataContainer unit := fun r =>
  if bdc_length r <=? bdc_cur r then
    (Exc (runtime_error "Attempt to append to a full BinaryDataContainer"), r)
  else
    (Ret tt, mkBDC (option_map (splice (bdc_cur r) [c]) (bdc_data r)) (bdc_length r)
               (bdc_cur r + 1)).

Definition bdc_toString (r : BinaryDataContainer) : bytes :=
  ztake (bdc_length r) (default [] (bdc_data r)).

(** ** Lemmas *)

Lemma icharcmp_tolower c1 c2 : icharcmp c1 c2 = bool_decide (tolower c1 = tolower c2).
Proof.
  assert (Hall : forall a b, Bool.eqb (icharcmp a b) (bool_decide (tolower a = tolower b)) = true).
  { assert (Ht : forall a, (cmpMatrix_at a =? uchar (tolower a)) = true).
    { apply forall_chars. vm_compute. reflexivity. }
    intros a b. unfold icharcmp.
    rewrite (proj1 (Z.eqb_eq _ _) (Ht a)), (proj1 (Z.eqb_eq _ _) (Ht b)).
    case_bool_decide as H.
    - rewrite H, Z.eqb_refl. done.
    - destruct (uchar (tolower a) =? uchar (tolower b)) eqn:E; [|done].
      zbool. by apply uchar_inj in E. }
  apply Bool.eqb_prop, Hall.
Qed.

Lemma memicmp_loop_0 a b :
  length a = length b -> memicmp_loop a b = 0 <-> map tolower a = map tolower b.
Proof.
  revert b. induction a as [|x a IH]; intros [|y b]; simpl; try done.
  intros [= Hl]. rewrite icharcmp_tolower. case_bool_decide as H; simpl.
  - rewrite (IH b Hl). split; [by intros ->; rewrite H|congruence].
  - split; [done|congruence].
Qed.

Lemma BLOCK_pos : 0 < BLOCK.
Proof. reflexivity. Qed.

Lemma memcmp_app a b c d :
  length a = length c ->
  memcmp (a ++ b) (c ++ d) = if memcmp a c =? 0 then memcmp b d else memcmp a c.
Proof.
  revert c. induction a as [|x a IH]; intros [|y c]; simpl; try done.
  intros [= Hl]. case_cond; [by apply IH|]. by case_cond.
Qed.

Lemma memcmp64_loop_correct fuel s1 s2 n offset :
  0 <= offset -> n <= zlen s1 -> n <= zlen s2 ->
  n - offset <= Z.of_nat fuel * BLOCK -> (0 < fuel)%nat ->
  memcmp64_loop fuel s1 s2 n offset =
  memcmp (slice offset (n - offset) s1) (slice offset (n - offset) s2).
Proof.
  pose proof BLOCK_pos.
  revert offset. induction fuel as [|fuel IH]; intros offset Ho H1 H2 Hf Hf0; [lia|]. simpl.
  case_cond; zbool.
  2:{ unfold slice. by rewrite !(ztake_le0 (n - offset)) by lia. }
  set (b := Z.min (n - offset) BLOCK).
  replace (n - offset) with (b + (n - offset - b)) by lia.
  rewrite !(slice_app_split offset b) by lia. rewrite memcmp_app.
  2:{ apply Nat2Z.inj. change (zlen (slice offset b s1) = zlen (slice offset b s2)).
      by rewrite !zlen_slice by lia. }
  destruct (memcmp (slice offset b s1) (slice offset b s2) =? 0); simpl; [|done].
  destruct (Z.le_gt_cases (n - offset) BLOCK).
  - replace (n - offset - b) with 0 by lia. unfold slice at 1 2. rewrite !ztake_le0 by lia. simpl.
    destruct fuel; simpl; [done|]. replace (offset + BLOCK <? n) with false by lia. done.
  - rewrite IH; [|lia..]. replace (offset + b) with (offset + BLOCK) by lia.
    by replace (n - (offset + BLOCK)) with (n - offset - b) by lia.
Qed.

Lemma memcmp64_correct s1 s2 n :
  0 <= n -> n <= zlen s1 -> n <= zlen s2 ->
  memcmp64 s1 s2 n = memcmp (ztake n s1) (ztake n s2).
Proof.
  intros. unfold memcmp64. pose proof BLOCK_pos.
  pose proof (Z.div_pos n BLOCK ltac:(lia) ltac:(lia)).
  pose proof (Z.mul_succ_div_gt n BLOCK ltac:(lia)).
  rewrite memcmp64_loop_correct; [|lia..|nia|lia].
  by rewrite !slice_0, Z.sub_0_r.
Qed.

(** How a comparison of [n] bytes is decided. *)
Definition same_text (caseSensitive : bool) (a b : bytes) : Prop :=
  if caseSensitive then a = b else map tolower a = map tolower b.

#[export] Instance same_text_dec cs a b : Decision (same_text cs a b).
Proof. destruct cs; simpl; apply _. Defined.

Lemma memicmp2_same_text s1 s2 n cs :
  0 <= n -> n <= zlen s1 -> n <= zlen s2 ->
  memicmp2 s1 s2 n cs = 0 <-> same_text cs (ztake n s1) (ztake n s2).
Proof.
  intros. assert (length (ztake n s1) = length (ztake n s2)).
  { apply Nat2Z.inj. change (zlen (ztake n s1) = zlen (ztake n s2)). rewrite !zlen_ztake. lia. }
  unfold memicmp2. destruct cs; simpl.
  - rewrite memcmp64_correct by done. by apply memcmp_0.
  - by apply memicmp_loop_0.
Qed.

(** ** Lemmas on written areas *)

Lemma zlen_splice d new m :
  0 <= d -> d + zlen new <= zlen m -> zlen (splice d new m) = zlen m.
Proof. intros. unfold splice. zlia. Qed.

Lemma splice_nil d m : splice d [] m = m.
Proof. unfold splice. rewrite zlen_nil, Z.add_0_r. simpl. apply ztake_zdrop. Qed.

(** Reading entirely before or entirely after the written area. *)
Lemma slice_splice_before d new m off n :
  0 <= off -> 0 <= n -> off + n <= d -> d <= zlen m -> slice off n (splice d new m) = slice off n m.
Proof.
  intros. unfold splice, slice. pose proof (zlen_nonneg new).
  rewrite zdrop_app_le by (rewrite zlen_ztake; lia).
  rewrite ztake_app_le by (rewrite zlen_zdrop, zlen_ztake; lia).
  rewrite <- (ztake_zdrop d m) at 2.
  rewrite zdrop_app_le by (rewrite zlen_ztake; lia).
  rewrite ztake_app_le by (rewrite zlen_zdrop, zlen_ztake; lia). done.
Qed.

Lemma slice_splice_after d new m off n :
  0 <= d -> d + zlen new <= off -> d + zlen new <= zlen m ->
  slice off n (splice d new m) = slice off n m.
Proof.
  intros. unfold splice, slice. pose proof (zlen_nonneg new). f_equal.
  rewrite zdrop_app_ge by (rewrite zlen_ztake; lia).
  rewrite zdrop_app_ge by (rewrite zlen_ztake; lia).
  rewrite zlen_ztake, zdrop_zdrop by lia. f_equal. lia.
Qed.

(** Two adjacent writes are one. *)
Lemma splice_splice_right d a b m :
  0 <= d -> d + zlen a + zlen b <= zlen m ->
  splice (d + zlen a) b (splice d a m) = splice d (a ++ b) m.
Proof.
  intros. pose proof (zlen_nonneg a). pose proof (zlen_nonneg b).
  unfold splice at 1.
  assert (Ht : ztake (d + zlen a) (splice d a m) = ztake d m ++ a).
  { unfold splice. rewrite app_assoc, ztake_app_le by zlia. apply ztake_ge. zlia. }
  assert (Hd : zdrop (d + zlen a + zlen b) (splice d a m) = zdrop (d + zlen (a ++ b)) m).
  { unfold splice. rewrite app_assoc, zdrop_app_ge by zlia.
    rewrite zdrop_zdrop by zlia. f_equal. zlia. }
  rewrite Ht, Hd. unfold splice. by rewrite <- !app_assoc.
Qed.

Lemma splice_splice_left d a b m :
  0 <= d -> d + zlen a + zlen b <= zlen m ->
  splice d a (splice (d + zlen a) b m) = splice d (a ++ b) m.
Proof.
  intros. pose proof (zlen_nonneg a). pose proof (zlen_nonneg b).
  unfold splice at 1.
  assert (Ht : ztake d (splice (d + zlen a) b m) = ztake d m).
  { unfold splice. rewrite ztake_app_le by zlia. rewrite ztake_ztake. f_equal. lia. }
  assert (Hd : zdrop (d + zlen a) (splice (d + zlen a) b m) = b ++ zdrop (d + zlen (a ++ b)) m).
  { unfold splice. rewrite zdrop_app_ge by zlia. rewrite zdrop_le0 by zlia. do 2 f_equal. zlia. }
  rewrite Ht, Hd. unfold splice. by rewrite <- !app_assoc.
Qed.

Lemma memmove_some m d s n :
  0 <= d -> 0 <= s -> d + n <= zlen m -> s + n <= zlen m ->
  memmove m d s n = Some (splice d (slice s n m) m).
Proof.
  intros. unfold memmove. destruct (_ && _) eqn:E; [done|].
  rewrite !andb_false_iff in E. exfalso. rewrite !Z.leb_gt in E. lia.
Qed.

Definition fits (m : bytes) (d s n : Z) : Prop :=
  0 <= d /\ 0 <= s /\ 0 <= n /\ d + n <= zlen m /\ s + n <= zlen m /\ zlen m <= SIZE_MAX.

(** Blocks of [b] bytes, from the last to the first, of a destination that is
    above its source. *)
Lemma memmove64_down_blocks k fuel m d s b n :
  0 < b -> fits m d s n -> s < d -> n = Z.of_nat k * b -> (k < fuel)%nat ->
  memmove64_down fuel m d s b n = Copied (splice d (slice s n m) m).
Proof.
  revert fuel m n. induction k as [|k IH]; intros fuel m n Hb (Hd & Hs & Hn & Hdn & Hsn & Hm) Hlt Hk Hf;
    (destruct fuel as [|fuel]; [lia|]); cbn [memmove64_down].
  - assert (n = 0) as -> by lia. simpl. unfold slice. rewrite ztake_le0 by lia. by rewrite splice_nil.
  - assert (0 < n) by nia. replace (n =? 0) with false by lia. cbn [negb].
    assert (b <= n) by nia.
    rewrite !u64_small by (unfold is_size; lia).
    rewrite memmove_some by lia.
    set (w := slice (s + n - b) b m).
    assert (Hw : zlen w = b) by (unfold w; rewrite zlen_slice; lia).
    rewrite (IH fuel _ (n - b)); [|lia| |lia|lia|lia].
    2:{ unfold fits. rewrite zlen_splice by lia. lia. }
    f_equal. replace (d + n - b) with (d + zlen (slice s (n - b) m)) by (rewrite zlen_slice; lia).
    rewrite slice_splice_before by (rewrite ?zlen_slice; lia).
    rewrite splice_splice_left by (rewrite ?zlen_slice; lia).
    f_equal. unfold w. replace (s + n - b) with (s + (n - b)) by lia.
    rewrite <- slice_app_split by lia. f_equal. lia.
Qed.

Lemma memmove64_up_blocks k fuel m d s b cur n :
  0 < b -> 0 <= cur -> fits m d s (cur + n) -> d < s -> n = Z.of_nat k * b -> (k < fuel)%nat ->
  memmove64_up fuel m d s b cur n = Copied (splice (d + cur) (slice (s + cur) n m) m).
Proof.
  revert fuel m cur n.
  induction k as [|k IH]; intros fuel m cur n Hb Hc (Hd & Hs & Hn & Hdn & Hsn & Hm) Hlt Hk Hf;
    (destruct fuel as [|fuel]; [lia|]); cbn [memmove64_up].
  - assert (n = 0) as -> by lia. simpl. unfold slice. rewrite ztake_le0 by lia. by rewrite splice_nil.
  - assert (0 < n) by nia. replace (n =? 0) with false by lia. cbn [negb].
    assert (b <= n) by nia.
    rewrite !u64_small by (unfold is_size; lia).
    rewrite memmove_some by lia.
    set (w := slice (s + cur) b m).
    assert (Hw : zlen w = b) by (unfold w; rewrite zlen_slice; lia).
    rewrite (IH fuel _ (cur + b) (n - b)); [|lia|lia| |lia|lia|lia].
    2:{ unfold fits. rewrite zlen_splice by lia. lia. }
    f_equal. rewrite slice_splice_after by lia.
    replace (d + (cur + b)) with (d + cur + zlen w) by lia.
    rewrite splice_splice_right by (rewrite ?zlen_slice; lia).
    f_equal. unfold w. rewrite Z.add_assoc.
    rewrite <- slice_app_split by lia. f_equal. lia.
Qed.

(** ** Properties *)

(** [memicmp2] answers 0 exactly when the first [n] bytes of the two areas
    are the same text, byte for byte or up to ASCII letter case, whatever the
    number of 64 KiB blocks the comparison is cut into; the folding table is
    exactly [tolower]. *)
Theorem memicmp2_spec s1 s2 n caseSensitive :
  0 <= n -> n <= zlen s1 -> n <= zlen s2 ->
  (memicmp2 s1 s2 n caseSensitive = 0 <->
   same_text caseSensitive (ztake n s1) (ztake n s2)) /\
  memcmp64 s1 s2 n = memcmp (ztake n s1) (ztake n s2) /\
  (forall c1 c2, icharcmp c1 c2 = bool_decide (tolower c1 = tolower c2)).
Proof.
  intros. split; [by apply memicmp2_same_text|]. split; [by apply memcmp64_correct|].
  apply icharcmp_tolower.
Qed.

Lemma memicmp2_spec_witness :
  memicmp2 (str "Host") (str "hOST") 4 false = 0 <->
  same_text false (ztake 4 (str "Host")) (ztake 4 (str "hOST")).
Proof. apply memicmp2_spec; vm_compute; discriminate. Defined.

(** [memmove64] between two in-range areas of one object, overlapping in
    either direction, leaves exactly what a single [memmove] leaves, provided
    the length is at most one block or a multiple of the block. *)
Theorem memmove64_is_memmove m dest src n fuel :
  fits m dest src n -> n <= BLOCK \/ n mod BLOCK = 0 -> n / BLOCK + 1 < Z.of_nat fuel ->
  memmove64 fuel m dest src n = Copied (splice dest (slice src n m) m) /\
  memmove m dest src n = Some (splice dest (slice src n m) m).
Proof.
  intros Hfits Hn Hfuel. pose proof BLOCK_pos as HB.
  pose proof Hfits as (Hd & Hs & Hn0 & Hdn & Hsn & Hm).
  split; [|apply memmove_some; lia].
  assert (Hblocks : exists k, n = Z.of_nat k * (if n >? BLOCK then BLOCK else n) /\ (k < fuel)%nat
    /\ 0 <= (if n >? BLOCK then BLOCK else n) /\ (n <> 0 -> 0 < (if n >? BLOCK then BLOCK else n))).
  { rewrite Z.gtb_ltb. pose proof (Z.div_pos n BLOCK ltac:(lia) ltac:(lia)). case_cond; zbool.
    - exists (Z.to_nat (n / BLOCK)). destruct Hn as [|Hmod]; [lia|].
      pose proof (Z.div_mod n BLOCK ltac:(lia)). rewrite Z2Nat.id by lia. lia.
    - exists 1%nat. lia. }
  destruct Hblocks as (k & Hk & Hkf & Hb0 & Hb).
  unfold memmove64. destruct (decide (n = 0)) as [->|Hne].
  { simpl. unfold slice. rewrite ztake_le0 by lia. rewrite splice_nil.
    destruct fuel; [lia|]. simpl. by case_conds. }
  specialize (Hb Hne). rewrite !Z.gtb_ltb in *. case_cond; [|case_cond]; zbool.
  - by apply (memmove64_down_blocks k).
  - replace dest with (dest + 0) at 2 by lia. replace src with (src + 0) at 2 by lia.
    by apply (memmove64_up_blocks k).
  - assert (dest = src) as -> by lia. f_equal. unfold splice, slice.
    rewrite zlen_ztake, zlen_zdrop. replace (src + _) with (src + n) by lia.
    rewrite <- (zdrop_zdrop n src) by lia. by rewrite !ztake_zdrop.
Qed.

Lemma memmove64_is_memmove_witness :
  memmove64 3 (str "abcdef") 2 0 4 = Copied (splice 2 (slice 0 4 (str "abcdef")) (str "abcdef"))
  /\ memmove (str "abcdef") 2 0 4 = Some (splice 2 (slice 0 4 (str "abcdef")) (str "abcdef")).
Proof.
  apply memmove64_is_memmove; [|left; vm_compute; discriminate|vm_compute; reflexivity].
  unfold fits. repeat split; vm_compute; discriminate.
Defined.

(** [memcpy64] advances twice per block, so the byte count wraps below
    zero: a copy of any length from 1 to 64 KiB between two objects of exactly
    that length runs out of both of them instead of returning. *)
Theorem memcpy64_leaves_the_objects dest source n fuel :
  0 < n <= BLOCK -> zlen dest = n -> zlen source = n -> (2 <= fuel)%nat ->
  memcpy64 fuel dest source n = OutOfBounds.
Proof.
  intros Hn Hd Hs Hf. change BLOCK with 65536 in *.
  destruct fuel as [|[|fuel]]; [lia..|]. unfold memcpy64. simpl.
  replace (0 <? n) with true by lia. change BLOCK with 65536.
  replace (Z.min n 65536) with n by lia.
  rewrite !Z.add_0_l.
  replace (n <=? zlen dest) with true by lia. replace (n <=? zlen source) with true by lia. simpl.
  rewrite Z.sub_diag, ?Z.add_0_l. change (u64 0) with 0. rewrite (u64_small n) by (unfold is_size, SIZE_MAX; lia).
  rewrite (u64_small (n + n)) by (unfold is_size, SIZE_MAX; lia).
  assert (Hw : u64 (0 - n) = 2 ^ 64 - n).
  { unfold u64. replace (0 - n) with ((2 ^ 64 - n) + (-1) * 2 ^ 64) by lia.
    rewrite Z.mod_add by lia. apply Z.mod_small. lia. }
  rewrite Hw. replace (0 <? 2 ^ 64 - n) with true by lia.
  replace (n + n + Z.min (2 ^ 64 - n) 65536 <=? _) with false; [done|].
  rewrite zlen_splice by (rewrite ?zlen_slice; lia). lia.
Qed.

Lemma memcpy64_leaves_the_objects_witness :
  memcpy64 10 (str "abc") (str "xyz") 3 = OutOfBounds.
Proof. apply memcpy64_leaves_the_objects; [split; vm_compute; congruence|reflexivity..|lia]. Defined.
