(* ===== verification/Encoders.v ===== *)
(** * Text encoders and decoders (Helpers/encoders.cpp)

    URL percent-encoding, hexadecimal, base32 and base64. The library's own
    loops are defined here as written; the two things encoders.cpp takes from
    outside are parameters of the definitions that use them: the base64 BIO
    filter of OpenSSL ([b64_encode], [b64_decode]) and the stream of values of
    [std::uniform_int_distribution<char>] over a seeded mt19937_64 ([dis]). *)

From S2P Require Import Prelude Mem.

Inductive URL_ENCODING_TYPE : Type :=
| STRICT_ENCODING
| QUOTEPRINT_ENCODING.

#[export] Instance URL_ENCODING_TYPE_eq_dec : EqDecision URL_ENCODING_TYPE.
Proof. solve_decision. Defined.

(** ** Hexadecimal digits *)

(** [toHexFrom4bitChar]: [nibble] is a plain (signed) char. *)
Definition toHexFrom4bitChar (nibble : ascii) (position : Z) : ascii :=
  let nibble :=
    if position =? 1 then chr (Z.quot (schar nibble) 16)
    else if position =? 2 then chr (Z.land (schar nibble) 15)
    else nibble in
  let n := schar nibble in
  if (0 <=? n) && (n <=? 9) then chr (48 + n)
  else if (10 <=? n) && (n <=? 15) then chr (65 + n - 10)
  else chr 48.

Definition hexToValue (v : ascii) : Z :=
  let n := schar v in
  if (48 <=? n) && (n <=? 57) then n - 48
  else if (65 <=? n) && (n <=? 70) then n - 65 + 10
  else if (97 <=? n) && (n <=? 102) then n - 97 + 10
  else 0.

(** [strtol(s, NULL, 16)] on two hexadecimal digits is their value. *)
Definition hexPairToByte (b0 b1 : ascii) : ascii :=
  if negb (isxdigit b0) || negb (isxdigit b1) then chr 0
  else chr (hexToValue b0 * 16 + hexToValue b1).

(** [toHex]: [sprintf "%02X"] of every byte. *)
Definition hex_digit (n : Z) : ascii := if n <? 10 then chr (48 + n) else chr (65 + n - 10).
Definition sprintf_02X (c : ascii) : bytes := [hex_digit (uchar c / 16); hex_digit (uchar c mod 16)].

Fixpoint toHex (data : bytes) : bytes :=
  match data with
  | [] => []
  | x :: data => sprintf_02X x ++ toHex data
  end.

(** [fromHex]: the bytes it writes at the start of [data]. *)
Fixpoint fromHex_loop (n : nat) (hexValue : bytes) : bytes :=
  match n, hexValue with
  | S n, h :: l :: rest => chr (hexToValue h * 16 + hexToValue l) :: fromHex_loop n rest
  | _, _ => []
  end.

Definition fromHex (hexValue : bytes) (maxlen : Z) : bytes :=
  let maxlen := if zlen hexValue / 2 <? maxlen then zlen hexValue / 2 else maxlen in
  fromHex_loop (Z.to_nat maxlen) hexValue.

(** ** Percent-encoding *)

Definition getIfMustBeURLEncoded (c : ascii) (t : URL_ENCODING_TYPE) : bool :=
  match t with
  | QUOTEPRINT_ENCODING =>
      if bool_decide (c = chr 34) then true
      else if (32 <=? schar c) && (schar c <=? 126) then false else true
  | STRICT_ENCODING => if isalnum c then false else true
  end.

Fixpoint calcURLEncodingExpandedStringSize (s : bytes) (t : URL_ENCODING_TYPE) : Z :=
  match s with
  | [] => 0
  | c :: s => (if getIfMustBeURLEncoded c t then 3 else 1) + calcURLEncodingExpandedStringSize s t
  end.

(** [toURL]: the loop writes cell by cell into a string allocated with the
    size computed beforehand. *)
Fixpoint toURL_loop (s : bytes) (t : URL_ENCODING_TYPE) (x : nat) (out : bytes) : bytes :=
  match s with
  | [] => out
  | c :: s =>
      if getIfMustBeURLEncoded c t then
        let out := <[x := chr 37]> out in
        let out := <[S x := toHexFrom4bitChar c 1]> out in
        let out := <[S (S x) := toHexFrom4bitChar c 2]> out in
        toURL_loop s t (S (S (S x))) out
      else toURL_loop s t (S x) (<[x := c]> out)
  end.

Definition toURL (s : bytes) (t : URL_ENCODING_TYPE) : bytes :=
  toURL_loop s t 0 (replicate (Z.to_nat (calcURLEncodingExpandedStringSize s t)) (chr 32)).

Fixpoint fromURL (s : bytes) : bytes :=
  match s with
  | [] => []
  | c :: s' =>
      match s' with
      | h :: l :: rest =>
          if bool_decide (c = chr 37) && isxdigit h && isxdigit l
          then chr (hexToValue h * 16 + hexToValue l) :: fromURL rest
          else c :: fromURL s'
      | _ => c :: fromURL s'
      end
  end.

(** ** replaceHexCodes: the pattern [\0x] followed by two digits *)

Definition hex_code : bytes := str "\0x".

(** [content.find(pattern, pos)]. *)
Fixpoint str_find_from (fuel : nat) (pattern content : bytes) (pos : Z) : option Z :=
  match fuel with
  | O => None
  | S fuel =>
      if pos + zlen pattern <=? zlen content then
        if bool_decide (slice pos (zlen pattern) content = pattern) then Some pos
        else str_find_from fuel pattern content (pos + 1)
      else None
  end.
Definition str_find (pattern content : bytes) (pos : Z) : option Z :=
  str_find_from (S (length content)) pattern content pos.

Definition char_at (s : bytes) (i : Z) : ascii := default (chr 0) (s !! Z.to_nat i).

Fixpoint replaceHexCodes_loop (fuel : nat) (content : bytes) (pos : Z) : option bytes :=
  match fuel with
  | O => None
  | S fuel =>
      match str_find hex_code content pos with
      | None => Some content
      | Some pos =>
          if (pos + 4 <? zlen content) && isxdigit (char_at content (pos + 3))
             && isxdigit (char_at content (pos + 4)) then
            let replSrc := hexPairToByte (char_at content (pos + 3)) (char_at content (pos + 4)) in
            replaceHexCodes_loop fuel (ztake pos content ++ [replSrc] ++ zdrop (pos + 5) content) pos
          else replaceHexCodes_loop fuel content (pos + 3)
      end
  end.

Definition replaceHexCodes (content : bytes) : option bytes :=
  replaceHexCodes_loop (S (length content)) content 0.

(** ** Base32 *)

Definition base32_chars : bytes := str "ABCDEFGHIJKLMNOPQRSTUVWXYZ234567".

(** State of the loop: the bits gathered, how many are missing, the output. *)
Record b32_state : Type := mkB32 { currentByte : Z; bitsRemaining : Z; binarySecret : bytes }.

Definition b32_bit (val : Z) (bits : Z) (s : b32_state) : b32_state :=
  let bit := Z.land (Z.shiftr val (bits - 1)) 1 in
  let cb := Z.lor (Z.shiftl (currentByte s) 1) bit in
  if bitsRemaining s - 1 =? 0 then mkB32 0 8 (binarySecret s ++ [chr cb])
  else mkB32 cb (bitsRemaining s - 1) (binarySecret s).

Fixpoint b32_bits (bits : nat) (val : Z) (s : b32_state) : b32_state :=
  match bits with
  | O => s
  | S n => b32_bits n val (b32_bit val (Z.of_nat bits) s)
  end.

Fixpoint b32_loop (input : bytes) (s : b32_state) : option b32_state :=
  match input with
  | [] => Some s
  | c :: input =>
      if bool_decide (c = chr 61) then Some s
      else match memchr c base32_chars with
           | None => None
           | Some val => b32_loop input (b32_bits 5 val s)
           end
  end.

Definition decodeFromBase32 (base32Value : bytes) : bytes :=
  match b32_loop base32Value (mkB32 0 8 []) with
  | None => []
  | Some s =>
      if negb (bitsRemaining s =? 8) && (bitsRemaining s <? 5)
      then binarySecret s ++ [chr (Z.shiftl (currentByte s) (bitsRemaining s + 3))]
      else binarySecret s
  end.

(** ** Base64 *)

Definition m_b64Chars : bytes :=
  str "ABCDEFGHIJKLMNOPQRSTUVWXYZabcdefghijklmnopqrstuvwxyz0123456789+/".

(** [(unsigned char) m_b64Chars.find(c)]; [npos] becomes 255. *)
Definition b64_index (c : ascii) : Z := match memchr c m_b64Chars with Some v => v | None => 255 end.

(** [boost::replace_all] of one character by another. *)
Definition replace_char (a b : ascii) (s : bytes) : bytes :=
  map (fun c => if bool_decide (c = a) then b else c) s.

Section Base64.
(** The bytes OpenSSL's base64 filter BIO (no newlines) writes for a buffer,
    and what reading through it yields ([None]: a negative count). *)
Context (b64_encode : bytes -> bytes) (b64_decode : bytes -> option bytes).
(** [dis seed i]: the [i]-th value drawn from the generator. *)
Context (dis : Z -> nat -> Z).

Definition encodeToBase64 (buf : bytes) (url : bool) : bytes :=
  let result := match buf with [] => [] | _ => b64_encode buf end in
  if url then
    let result := replace_char (chr 47) (chr 95) result in
    let result := replace_char (chr 43) (chr 45) result in
    List.filter (fun c => negb (bool_decide (c = chr 61))) result
  else result.

(** The padding of the url variant; [None]: the length is 1 modulo 4. *)
Definition url_padding (input : bytes) : option bytes :=
  let padded :=
    if zlen input mod 4 =? 0 then Some input
    else if zlen input mod 4 =? 2 then Some (input ++ str "==")
    else if zlen input mod 4 =? 3 then Some (input ++ str "=")
    else None in
  option_map (fun s => replace_char (chr 45) (chr 43) (replace_char (chr 95) (chr 47) s)) padded.

Definition decodeFromBase64 (input : bytes) (url : bool) : bytes :=
  match (if url then url_padding input else Some input) with
  | None => []
  | Some inputx => default [] (b64_decode inputx)
  end.

(** [decodeFromBase64ToBin]: the zeroed container of [length + 2] bytes with
    the decoded bytes over it. *)
Definition decodeFromBase64ToBin (input : bytes) (url : bool) : BinaryDataContainer :=
  let r := BinaryDataContainer_zeroed (zlen input + 2) in
  match (if url then url_padding input else Some input) with
  | None => r
  | Some inputx =>
      match b64_decode inputx with
      | None => r
      | Some d => mkBDC (option_map (splice 0 d) (bdc_data r)) (zlen d) (bdc_cur r)
      end
  end.

Fixpoint obfuscate (seed : Z) (i : nat) (buf : bytes) : bytes :=
  match buf with
  | [] => []
  | x :: buf => chr (Z.lxor (uchar x) (dis seed i)) :: obfuscate seed (S i) buf
  end.

Definition encodeToBase64Obf (buf : bytes) (seed : Z) : bytes :=
  encodeToBase64 (obfuscate seed 0 buf) false.

Definition b64_three (c0 c1 c2 c3 : Z) : list Z :=
  [ (Z.shiftl c0 2 + Z.shiftr (Z.land c1 48) 4) mod 256;
    (Z.shiftl (Z.land c1 15) 4 + Z.shiftr (Z.land c2 60) 2) mod 256;
    (Z.shiftl (Z.land c2 3) 6 + c3) mod 256 ].

(** The decoded bytes are unmasked in output order. *)
Fixpoint unmask (seed : Z) (i : nat) (cont3 : list Z) : bytes :=
  match cont3 with
  | [] => []
  | v :: cont3 => chr (Z.lxor v (dis seed i)) :: unmask seed (S i) cont3
  end.

Definition b64_accepts (c : ascii) : bool :=
  negb (bool_decide (c = chr 61)) &&
  (isalnum c || bool_decide (c = chr 47) || bool_decide (c = chr 43)).

(** The characters gathered so far ([cont4], fewer than four of them) and the
    number of bytes produced. *)
Fixpoint decodeFromBase64Obf_loop (seed : Z) (input : bytes) (cont4 : list ascii) (i : nat)
    : bytes :=
  let tail :=
    match cont4 with
    | [] => []
    | _ =>
        let full := cont4 ++ replicate (4 - length cont4) (chr 0) in
        match map b64_index full with
        | [c0; c1; c2; c3] => unmask seed i (take (length cont4 - 1) (b64_three c0 c1 c2 c3))
        | _ => []
        end
    end in
  match input with
  | [] => tail
  | c :: input =>
      if b64_accepts c then
        match cont4 ++ [c] with
        | [k0; k1; k2; k3] =>
            unmask seed i (b64_three (b64_index k0) (b64_index k1) (b64_index k2) (b64_index k3))
            ++ decodeFromBase64Obf_loop seed input [] (3 + i)
        | cont4 => decodeFromBase64Obf_loop seed input cont4 i
        end
      else tail
  end.

Definition decodeFromBase64Obf (input : bytes) (seed : Z) : bytes :=
  decodeFromBase64Obf_loop seed input [] 0.
End Base64.

(** The filter as an interface: the bytes it writes, and what is read through
    it, [None] for a negative count. *)
Class Base64Encoder : Type := b64_encode : bytes -> bytes.
Class Base64Decoder : Type := b64_decode : bytes -> option bytes.

Example hex_code_nested : replaceHexCodes (str "a\0x5c0x41b\0xZZ") = Some (str "aAb\0xZZ").
Proof. vm_compute. reflexivity. Qed.
Example base32_foo : decodeFromBase32 (str "MZXW6===") = str "foo".
Proof. vm_compute. reflexivity. Qed.

(** ** Lemmas: percent-encoding *)

(** What [toURL] writes for one character. *)
Definition url_char (t : URL_ENCODING_TYPE) (c : ascii) : bytes :=
  if getIfMustBeURLEncoded c t then [chr 37; toHexFrom4bitChar c 1; toHexFrom4bitChar c 2] else [c].

Lemma calc_nonneg s t : 0 <= calcURLEncodingExpandedStringSize s t.
Proof. induction s; simpl; [lia|]. case_cond; lia. Qed.

Lemma toURL_loop_writes s t w k :
  toURL_loop s t (length w)
    (w ++ replicate (Z.to_nat (calcURLEncodingExpandedStringSize s t) + k) (chr 32))
  = w ++ flat_map (url_char t) s ++ replicate k (chr 32).
Proof.
  revert w. induction s as [|c s IH]; intros w; [done|].
  cbn [calcURLEncodingExpandedStringSize toURL_loop flat_map]. pose proof (calc_nonneg s t).
  unfold url_char at 1. case_cond.
  - replace (Z.to_nat (3 + _) + k)%nat
      with (S (S (S (Z.to_nat (calcURLEncodingExpandedStringSize s t) + k)))) by lia.
    cbn [replicate].
    rewrite !insert_app_r_alt by lia. rewrite Nat.sub_diag.
    replace (S (length w) - length w)%nat with 1%nat by lia.
    replace (S (S (length w)) - length w)%nat with 2%nat by lia.
    cbn [insert list_insert].
    specialize (IH (w ++ [chr 37; toHexFrom4bitChar c 1; toHexFrom4bitChar c 2])).
    rewrite length_app in IH. cbn [length] in IH.
    replace (length w + 3)%nat with (S (S (S (length w)))) in IH by lia.
    rewrite <- !app_assoc in IH. cbn [app] in IH. exact IH.
  - replace (Z.to_nat (1 + _) + k)%nat
      with (S (Z.to_nat (calcURLEncodingExpandedStringSize s t) + k)) by lia.
    cbn [replicate].
    rewrite insert_app_r_alt by lia. rewrite Nat.sub_diag. cbn [insert list_insert].
    specialize (IH (w ++ [c])). rewrite length_app in IH. cbn [length] in IH.
    replace (length w + 1)%nat with (S (length w)) in IH by lia.
    rewrite <- !app_assoc in IH. cbn [app] in IH. exact IH.
Qed.

Lemma toURL_chars s t : toURL s t = flat_map (url_char t) s.
Proof.
  unfold toURL. pose proof (toURL_loop_writes s t [] 0) as H. simpl in H.
  by rewrite Nat.add_0_r, app_nil_r in H.
Qed.

(** The character a decoder recovers from the encoding of [c]. *)
Definition url_recovered (c : ascii) : ascii :=
  if uchar c <? 128 then c else chr (uchar c mod 16).

Lemma fromURL_plain c s : c <> chr 37 -> fromURL (c :: s) = c :: fromURL s.
Proof.
  intros Hc. simpl. rewrite bool_decide_eq_false_2 by done. by destruct s as [|? [|? ?]].
Qed.

Lemma fromURL_code h l s :
  isxdigit h = true -> isxdigit l = true ->
  fromURL (chr 37 :: h :: l :: s) = chr (hexToValue h * 16 + hexToValue l) :: fromURL s.
Proof. intros Hh Hl. simpl. by rewrite Hh, Hl. Qed.

Lemma strict_code_ok c :
  (if getIfMustBeURLEncoded c STRICT_ENCODING then
     isxdigit (toHexFrom4bitChar c 1) && isxdigit (toHexFrom4bitChar c 2) &&
     bool_decide (chr (hexToValue (toHexFrom4bitChar c 1) * 16 + hexToValue (toHexFrom4bitChar c 2))
                  = url_recovered c)
   else negb (bool_decide (c = chr 37)) && bool_decide (url_recovered c = c)) = true.
Proof. revert c. apply forall_chars. vm_compute. reflexivity. Qed.

Lemma fromURL_strict_char c s :
  fromURL (url_char STRICT_ENCODING c ++ s) = url_recovered c :: fromURL s.
Proof.
  pose proof (strict_code_ok c) as H. unfold url_char.
  destruct (getIfMustBeURLEncoded c STRICT_ENCODING).
  - apply andb_true_iff in H as [[H1 H2]%andb_true_iff H3%bool_decide_eq_true].
    cbn [app]. by rewrite fromURL_code, H3.
  - apply andb_true_iff in H as [H1%negb_true_iff%bool_decide_eq_false H2%bool_decide_eq_true].
    cbn [app]. by rewrite fromURL_plain, H2.
Qed.

(** ** Lemmas: hexadecimal *)

Lemma hex_digit_ok c :
  (isxdigit (hex_digit (uchar c / 16)) && isxdigit (hex_digit (uchar c mod 16)) &&
   bool_decide (chr (hexToValue (hex_digit (uchar c / 16)) * 16 + hexToValue (hex_digit (uchar c mod 16))) = c))
  = true.
Proof. revert c. apply forall_chars. vm_compute. reflexivity. Qed.

Lemma zlen_toHex d : zlen (toHex d) = 2 * zlen d.
Proof. induction d as [|x d IH]; [done|]. simpl toHex. zlia. Qed.

Lemma fromHex_loop_toHex d : fromHex_loop (length d) (toHex d) = d.
Proof.
  induction d as [|x d IH]; [done|]. simpl. rewrite IH. f_equal.
  pose proof (hex_digit_ok x) as H. apply andb_true_iff in H as [_ H%bool_decide_eq_true]. done.
Qed.

(** ** Lemmas: base32 *)

(** The bits of a value, most significant first. *)
Fixpoint msb_bits (n : nat) (v : Z) : list bool :=
  match n with O => [] | S m => Z.testbit v (Z.of_nat m) :: msb_bits m v end.

Definition bits_value (bs : list bool) : Z := foldl (fun a b => 2 * a + Z.b2z b) 0 bs.

(** RFC 4648 base32: the bits in groups of five, the last one completed with
    zeros, padded with '=' to a multiple of eight characters. *)
Fixpoint groups5 (bs : list bool) : list Z :=
  match bs with
  | [] => []
  | a :: b :: c :: d :: e :: rest => bits_value [a; b; c; d; e] :: groups5 rest
  | _ => [bits_value (take 5 (bs ++ replicate 5 false))]
  end.

Definition base32_encode (d : bytes) : bytes :=
  let chars := map (fun v => nth (Z.to_nat v) base32_chars (chr 0))
                   (groups5 (flat_map (fun c => msb_bits 8 (uchar c)) d)) in
  chars ++ replicate (Nat.modulo (8 - Nat.modulo (length chars) 8) 8) (chr 61).

(** One bit of the decoder's loop. *)
Definition b32_step (b : bool) (s : b32_state) : b32_state := b32_bit (Z.b2z b) 1 s.

Lemma land_shiftr_1 v k : 0 <= k -> Z.land (Z.shiftr v k) 1 = Z.b2z (Z.testbit v k).
Proof.
  intros. change 1 with (Z.ones 1) at 1. rewrite Z.land_ones by lia.
  change (2 ^ 1) with 2. rewrite <- Z.bit0_mod, Z.shiftr_spec by lia. done.
Qed.

Lemma b32_bit_testbit val bits s : 0 < bits -> b32_bit val bits s = b32_step (Z.testbit val (bits - 1)) s.
Proof.
  intros. unfold b32_step, b32_bit. rewrite !land_shiftr_1 by lia.
  replace (Z.testbit (Z.b2z (Z.testbit val (bits - 1))) (1 - 1)) with (Z.testbit val (bits - 1));
    [done|]. by destruct (Z.testbit val (bits - 1)).
Qed.

Lemma b32_bits_fold n val s : b32_bits n val s = foldl (fun s b => b32_step b s) s (msb_bits n val).
Proof.
  revert s. induction n as [|n IH]; intros s; [done|]. simpl.
  rewrite IH, b32_bit_testbit by lia. do 3 f_equal. lia.
Qed.

Lemma lor_double a (b : bool) : 0 <= a -> Z.lor (Z.shiftl a 1) (Z.b2z b) = 2 * a + Z.b2z b.
Proof. intros. destruct a as [|p|p], b; try lia; reflexivity. Qed.

(** A whole byte, from a state that holds no bit. *)
Lemma b32_byte c out :
  foldl (fun s b => b32_step b s) (mkB32 0 8 out) (msb_bits 8 (uchar c)) = mkB32 0 8 (out ++ [c]).
Proof. destruct c as [[] [] [] [] [] [] [] []]; vm_compute; reflexivity. Qed.

Lemma b32_bytes d out :
  foldl (fun s b => b32_step b s) (mkB32 0 8 out) (flat_map (fun c => msb_bits 8 (uchar c)) d)
  = mkB32 0 8 (out ++ d).
Proof.
  revert out. induction d as [|c d IH]; intros out; [by rewrite app_nil_r|].
  cbn [flat_map]. rewrite foldl_app, b32_byte, IH. by rewrite <- app_assoc.
Qed.

Lemma list_ind5 {A} (P : list A -> Prop) :
  (forall l, (length l < 5)%nat -> P l) ->
  (forall a b c d e l, P l -> P (a :: b :: c :: d :: e :: l)) -> forall l, P l.
Proof.
  intros H0 H5. fix go 1. intros [|a [|b [|c [|d [|e l]]]]]; try (apply H0; simpl; lia).
  apply H5, go.
Qed.

Lemma mod5_step n : Nat.modulo (S (S (S (S (S n))))) 5 = Nat.modulo n 5.
Proof. replace (S (S (S (S (S n))))) with (n + 1 * 5)%nat by lia. by apply Nat.Div0.mod_add. Qed.

Definition pad5 (n : nat) : nat := Nat.modulo (5 - Nat.modulo n 5) 5.

Lemma groups5_bits bs :
  flat_map (msb_bits 5) (groups5 bs) = bs ++ replicate (pad5 (length bs)) false.
Proof.
  induction bs as [l Hl|a b c d e l IH] using list_ind5.
  - destruct l as [|a [|b [|c [|d [|e l]]]]]; simpl in Hl; try lia; [done|..];
      repeat match goal with x : bool |- _ => destruct x end; reflexivity.
  - cbn [groups5 flat_map]. rewrite IH. unfold pad5. cbn [length]. rewrite mod5_step.
    destruct a, b, c, d, e; reflexivity.
Qed.

Lemma groups5_range bs : Forall (fun v => 0 <= v < 32) (groups5 bs).
Proof.
  assert (Hf : forall a b c d e, 0 <= bits_value [a; b; c; d; e] < 32).
  { intros [] [] [] [] []; vm_compute; split; congruence. }
  induction bs as [l Hl|a b c d e l IH] using list_ind5; [|cbn [groups5]; constructor; [apply Hf|done]].
  destruct l as [|a [|b [|c [|d [|e l]]]]]; simpl in Hl; try lia; [constructor|..];
    (constructor; [apply Hf|constructor]).
Qed.

Lemma base32_char v :
  0 <= v < 32 ->
  memchr (nth (Z.to_nat v) base32_chars (chr 0)) base32_chars = Some v
  /\ nth (Z.to_nat v) base32_chars (chr 0) <> chr 61.
Proof.
  intros Hv. assert (Hall : forallb (fun n =>
    bool_decide (memchr (nth n base32_chars (chr 0)) base32_chars = Some (Z.of_nat n))
    && negb (bool_decide (nth n base32_chars (chr 0) = chr 61))) (seq 0 32) = true)
    by (vm_compute; reflexivity).
  rewrite forallb_forall in Hall. specialize (Hall (Z.to_nat v)).
  rewrite in_seq in Hall. specialize (Hall ltac:(lia)).
  apply andb_true_iff in Hall as [H1%bool_decide_eq_true H2%negb_true_iff%bool_decide_eq_false].
  rewrite Z2Nat.id in H1 by lia. done.
Qed.

Lemma b32_loop_chars vs rest s :
  Forall (fun v => 0 <= v < 32) vs ->
  b32_loop (map (fun v => nth (Z.to_nat v) base32_chars (chr 0)) vs ++ rest) s
  = b32_loop rest (foldl (fun s b => b32_step b s) s (flat_map (msb_bits 5) vs)).
Proof.
  intros H. revert s. induction H as [|v vs Hv _ IH]; intros s; [done|].
  cbn [map app b32_loop flat_map]. destruct (base32_char v Hv) as [H1 H2].
  rewrite bool_decide_eq_false_2 by done. rewrite H1, IH, b32_bits_fold, foldl_app. done.
Qed.

Lemma b32_loop_padding n s : b32_loop (replicate n (chr 61)) s = Some s.
Proof. by destruct n. Qed.

Lemma length_bits8 d : length (flat_map (fun c => msb_bits 8 (uchar c)) d) = (8 * length d)%nat.
Proof.
  induction d as [|c d IH]; [done|]. cbn [flat_map]. rewrite length_app, IH. simpl length. lia.
Qed.

Lemma pad5_bits n :
  pad5 (8 * n) = match Nat.modulo n 5 with 0 => 0 | 1 => 2 | 2 => 4 | 3 => 1 | _ => 3 end%nat.
Proof.
  unfold pad5. assert (H : Nat.modulo (8 * n) 5 = Nat.modulo (8 * Nat.modulo n 5) 5).
  { by rewrite Nat.Div0.mul_mod_idemp_r. }
  rewrite H. pose proof (Nat.mod_upper_bound n 5 ltac:(lia)).
  destruct (Nat.modulo n 5) as [|[|[|[|[|]]]]] eqn:E; [reflexivity..|lia].
Qed.

(** ** Lemmas: base64 *)

(** RFC 4648 base64, the documented behaviour of the BIO filter. *)
Definition b64_char (v : Z) : ascii := nth (Z.to_nat v) m_b64Chars (chr 0).

Fixpoint rfc4648_base64 (d : bytes) : bytes :=
  match d with
  | [] => []
  | [x] => map b64_char [uchar x / 4; (uchar x mod 4) * 16] ++ str "=="
  | [x; y] =>
      map b64_char [uchar x / 4; (uchar x mod 4) * 16 + uchar y / 16; (uchar y mod 16) * 4] ++ str "="
  | x :: y :: z :: d =>
      map b64_char [uchar x / 4; (uchar x mod 4) * 16 + uchar y / 16;
                    (uchar y mod 16) * 4 + uchar z / 64; uchar z mod 64]
      ++ rfc4648_base64 d
  end.

Lemma b64_char_ok v : 0 <= v < 64 -> b64_index (b64_char v) = v /\ b64_accepts (b64_char v) = true.
Proof.
  intros Hv. assert (Hall : forallb (fun n =>
    (b64_index (b64_char (Z.of_nat n)) =? Z.of_nat n) && b64_accepts (b64_char (Z.of_nat n)))
    (seq 0 64) = true) by (vm_compute; reflexivity).
  rewrite forallb_forall in Hall. specialize (Hall (Z.to_nat v)).
  rewrite in_seq in Hall. specialize (Hall ltac:(lia)).
  rewrite Z2Nat.id in Hall by lia. by apply andb_true_iff in Hall as [H1%Z.eqb_eq H2].
Qed.

(** The bit fields of a six-bit value, by arithmetic. *)
Lemma six_bits v :
  0 <= v < 64 ->
  Z.shiftl v 2 = 4 * v /\ Z.shiftr (Z.land v 48) 4 = v / 16 /\ Z.shiftl (Z.land v 15) 4 = 16 * (v mod 16)
  /\ Z.shiftr (Z.land v 60) 2 = v / 4 /\ Z.shiftl (Z.land v 3) 6 = 64 * (v mod 4).
Proof.
  intros Hv. assert (Hall : forallb (fun n => let v := Z.of_nat n in
    (Z.shiftl v 2 =? 4 * v) && (Z.shiftr (Z.land v 48) 4 =? v / 16) &&
    (Z.shiftl (Z.land v 15) 4 =? 16 * (v mod 16)) && (Z.shiftr (Z.land v 60) 2 =? v / 4) &&
    (Z.shiftl (Z.land v 3) 6 =? 64 * (v mod 4))) (seq 0 64) = true) by (vm_compute; reflexivity).
  rewrite forallb_forall in Hall. specialize (Hall (Z.to_nat v)).
  rewrite in_seq in Hall. specialize (Hall ltac:(lia)). cbv zeta in Hall.
  rewrite Z2Nat.id in Hall by lia. zbool. done.
Qed.

(** Three bytes through the two conversions. *)
Lemma b64_three_bytes x y z :
  0 <= x < 256 -> 0 <= y < 256 -> 0 <= z < 256 ->
  b64_three (x / 4) ((x mod 4) * 16 + y / 16) ((y mod 16) * 4 + z / 64) (z mod 64) = [x; y; z].
Proof.
  intros Hx Hy Hz. unfold b64_three.
  destruct (six_bits (x / 4)) as (-> & _); [divlia|].
  destruct (six_bits (x mod 4 * 16 + y / 16)) as (_ & -> & -> & _); [divlia|].
  destruct (six_bits (y mod 16 * 4 + z / 64)) as (_ & _ & _ & -> & ->); [divlia|].
  repeat f_equal; divlia.
Qed.

#[local] Arguments b64_index : simpl never.
#[local] Arguments b64_char : simpl never.

Section Base64_lemmas.
Context (dis : Z -> nat -> Z).

Lemma unmask_app seed i a b :
  unmask dis seed i (a ++ b) = unmask dis seed i a ++ unmask dis seed (length a + i) b.
Proof.
  revert i. induction a as [|v a IH]; intros i; [done|]. simpl. rewrite IH.
  do 3 f_equal. lia.
Qed.

Lemma chr_lxor_mod a k : chr (Z.lxor (a mod 256) k) = chr (Z.lxor a k).
Proof.
  unfold chr. do 2 f_equal. change 256 with (2 ^ 8). apply Z.bits_inj'. intros n Hn.
  destruct (Z.lt_ge_cases n 8).
  - rewrite !Z.mod_pow2_bits_low, !Z.lxor_spec, Z.mod_pow2_bits_low by lia. done.
  - by rewrite !Z.mod_pow2_bits_high by lia.
Qed.

Lemma unmask_obfuscate seed i buf :
  unmask dis seed i (map uchar (obfuscate dis seed i buf)) = buf.
Proof.
  revert i. induction buf as [|x buf IH]; intros i; [done|]. simpl. rewrite IH. f_equal.
  rewrite uchar_chr, chr_lxor_mod. rewrite Z.lxor_assoc, Z.lxor_nilpotent, Z.lxor_0_r.
  apply chr_uchar.
Qed.

(** The library's own base64 loop, on the encoding of [d]. *)
Lemma decode_rfc4648 n d seed i :
  (length d <= n)%nat ->
  decodeFromBase64Obf_loop dis seed (rfc4648_base64 d) [] i = unmask dis seed i (map uchar d).
Proof.
  revert d i. induction n as [|n IH]; intros d i Hn.
  { destruct d; simpl in *; [done|lia]. }
  destruct d as [|x [|y [|z d]]]; [done|..].
  - cbn [rfc4648_base64 map app]. pose proof (uchar_range x) as Hx.
    destruct (b64_char_ok (uchar x / 4)) as [I1 A1]; [divlia|].
    destruct (b64_char_ok (uchar x mod 4 * 16)) as [I2 A2]; [divlia|].
    cbn [decodeFromBase64Obf_loop app length replicate Nat.sub map take].
    rewrite A1, A2. cbn. rewrite I1, I2. unfold b64_three.
    destruct (six_bits (uchar x / 4)) as (-> & _); [divlia|].
    destruct (six_bits (uchar x mod 4 * 16)) as (_ & -> & _); [divlia|].
    cbn. do 3 f_equal. divlia.
  - cbn [rfc4648_base64 map app].
    pose proof (uchar_range x) as Hx. pose proof (uchar_range y) as Hy.
    destruct (b64_char_ok (uchar x / 4)) as [I1 A1]; [divlia|].
    destruct (b64_char_ok (uchar x mod 4 * 16 + uchar y / 16)) as [I2 A2]; [divlia|].
    destruct (b64_char_ok (uchar y mod 16 * 4)) as [I3 A3]; [divlia|].
    cbn [decodeFromBase64Obf_loop app]. rewrite A1, A2, A3. cbn. rewrite I1, I2, I3. unfold b64_three.
    destruct (six_bits (uchar x / 4)) as (-> & _); [divlia|].
    destruct (six_bits (uchar x mod 4 * 16 + uchar y / 16)) as (_ & -> & -> & _); [divlia|].
    destruct (six_bits (uchar y mod 16 * 4)) as (_ & _ & _ & -> & _); [divlia|].
    cbn. repeat f_equal; divlia.
  - cbn [rfc4648_base64 map app].
    pose proof (uchar_range x) as Hx. pose proof (uchar_range y) as Hy. pose proof (uchar_range z) as Hz.
    destruct (b64_char_ok (uchar x / 4)) as [I1 A1]; [divlia|].
    destruct (b64_char_ok (uchar x mod 4 * 16 + uchar y / 16)) as [I2 A2]; [divlia|].
    destruct (b64_char_ok (uchar y mod 16 * 4 + uchar z / 64)) as [I3 A3]; [divlia|].
    destruct (b64_char_ok (uchar z mod 64)) as [I4 A4]; [divlia|].
    cbn [decodeFromBase64Obf_loop app]. rewrite A1, A2, A3, A4. rewrite I1, I2, I3, I4.
    rewrite b64_three_bytes by done. rewrite IH by (simpl in Hn; lia).
    change (uchar x :: uchar y :: uchar z :: map uchar d)
      with ([uchar x; uchar y; uchar z] ++ map uchar d).
    by rewrite unmask_app.
Qed.
End Base64_lemmas.

(** *** The filter that keeps to RFC 4648 *)

Class Base64Laws `{Base64Encoder, Base64Decoder} : Prop := {
  encodes_rfc4648 d : d <> [] -> b64_encode d = rfc4648_base64 d;
  decodes_rfc4648 d : b64_decode (rfc4648_base64 d) = Some d
}.

(** *** The url form *)

Definition b64_text (s : bytes) : Prop := Forall (fun c => b64_accepts c = true) s.

Lemma rfc4648_shape n d :
  (length d <= n)%nat ->
  exists t, b64_text t /\
    ((rfc4648_base64 d = t /\ zlen t mod 4 = 0) \/ (rfc4648_base64 d = t ++ str "==" /\ zlen t mod 4 = 2) \/
     (rfc4648_base64 d = t ++ str "=" /\ zlen t mod 4 = 3)).
Proof.
  revert d. induction n as [|n IH]; intros d Hn.
  { destruct d; cbn in Hn; [|lia]. exists []. split; [constructor|by left]. }
  destruct d as [|x [|y [|z d]]]; [exists []; split; [constructor|by left]|..].
  - pose proof (uchar_range x) as Hx. eexists [_; _]. split; [|right; left; split; reflexivity].
    repeat constructor; apply b64_char_ok; divlia.
  - pose proof (uchar_range x) as Hx. pose proof (uchar_range y) as Hy. eexists [_; _; _]. split; [|right; right; split; reflexivity].
    repeat constructor; apply b64_char_ok; divlia.
  - pose proof (uchar_range x) as Hx. pose proof (uchar_range y) as Hy. pose proof (uchar_range z) as Hz.
    destruct (IH d ltac:(cbn in Hn; lia)) as (t & Ht & Hcases). cbn [rfc4648_base64 map].
    match goal with |- exists t, _ /\ ((?l ++ _ = _ /\ _) \/ _) => exists (l ++ t) end. split.
    { apply Forall_app. split; [|done]. repeat constructor; apply b64_char_ok; divlia. }
    rewrite zlen_app. cbn [zlen length]. rewrite <- Z.add_mod_idemp_l by lia. change (Z.of_nat 4 mod 4) with 0. cbn [Z.add].
    destruct Hcases as [[-> ?]|[[-> ?]|[-> ?]]]; eauto 6.
Qed.

(** Without padding the url form only exchanges characters, and the reader
    exchanges them back. *)
Definition url_form (s : bytes) : bytes :=
  List.filter (fun c => negb (bool_decide (c = chr 61))) (replace_char (chr 43) (chr 45) (replace_char (chr 47) (chr 95) s)).

Lemma url_form_char c :
  b64_accepts c = true ->
  exists d, url_form [c] = [d] /\ replace_char (chr 45) (chr 43) (replace_char (chr 95) (chr 47) [d]) = [c] /\ d <> chr 46.
Proof.
  assert (Hall : forall c, implb (b64_accepts c) match url_form [c] with
    | [d] => bool_decide (replace_char (chr 45) (chr 43) (replace_char (chr 95) (chr 47) [d]) = [c]) && negb (bool_decide (d = chr 46))
    | _ => false end = true) by (apply forall_chars; vm_compute; reflexivity).
  intros Hc. specialize (Hall c). rewrite Hc in Hall. cbn [implb] in Hall.
  destruct (url_form [c]) as [|d [|]]; [done| |done].
  apply andb_true_iff in Hall as [?%bool_decide_eq_true ?%negb_true_iff%bool_decide_eq_false]. eauto.
Qed.

Lemma url_form_text s :
  b64_text s ->
  zlen (url_form s) = zlen s /\ replace_char (chr 45) (chr 43) (replace_char (chr 95) (chr 47) (url_form s)) = s /\ chr 46 ∉ url_form s.
Proof.
  induction 1 as [|c s Hc _ (Hl & Hr & Hd)]; [split; [done|split; [done|apply not_elem_of_nil]]|].
  destruct (url_form_char c Hc) as (d & Hd1 & Hd2 & Hd3).
  assert (E : url_form (c :: s) = d :: url_form s).
  { change (c :: s) with ([c] ++ s). unfold url_form, replace_char. rewrite !map_app, List.filter_app. fold (replace_char (chr 47) (chr 95) s).
    fold (replace_char (chr 43) (chr 45) (replace_char (chr 47) (chr 95) s)). fold (url_form s).
    change (url_form [c] ++ url_form s = d :: url_form s). by rewrite Hd1. }
  rewrite E, !zlen_cons, Hl. split; [done|]. split; [|rewrite not_elem_of_cons; done].
  injection Hd2 as Hd2. unfold replace_char in Hr |- *. cbn [map]. by rewrite Hr, Hd2.
Qed.

(** What the url variant writes is padded back to the text of the filter, and
    has no dot. *)
Lemma url_variant `{Base64Laws} d :
  url_padding (encodeToBase64 b64_encode d true) = Some (rfc4648_base64 d) /\ chr 46 ∉ encodeToBase64 b64_encode d true.
Proof.
  assert (E : encodeToBase64 b64_encode d true = url_form (rfc4648_base64 d)).
  { unfold encodeToBase64, url_form. destruct d; [done|]. by rewrite encodes_rfc4648. }
  rewrite E. destruct (rfc4648_shape (length d) d ltac:(lia)) as (t & Ht & Hcases). destruct (url_form_text t Ht) as (Hl & Hr & Hd).
  assert (Ef : url_form (rfc4648_base64 d) = url_form t).
  { destruct Hcases as [[-> _]|[[-> _]|[-> _]]]; [done|..]; unfold url_form, replace_char; rewrite !map_app, List.filter_app; apply app_nil_r. }
  rewrite Ef. split; [|done]. unfold url_padding. rewrite Hl.
  assert (Hpad : forall p, replace_char (chr 45) (chr 43) (replace_char (chr 95) (chr 47) (url_form t ++ p)) =
    t ++ replace_char (chr 45) (chr 43) (replace_char (chr 95) (chr 47) p)).
  { intros p. unfold replace_char in Hr |- *. by rewrite !map_app, Hr. }
  destruct Hcases as [[-> ->]|[[-> ->]|[-> ->]]]; cbn [Z.eqb Pos.eqb option_map].
  - by rewrite Hr.
  - by rewrite Hpad.
  - by rewrite Hpad.
Qed.

Lemma url_roundtrip `{Base64Laws} d : decodeFromBase64 b64_decode (encodeToBase64 b64_encode d true) true = d.
Proof. unfold decodeFromBase64. rewrite (proj1 (url_variant d)). by rewrite decodes_rfc4648. Qed.

(** ** Properties *)

(** The string [toURL] returns is exactly as long as the size it allocates
    beforehand (so no cell is written out of range), and decoding a strict
    encoding gives back every ASCII character. A character of 128 or more is
    not recovered: its code carries the low four bits only, because the high
    nibble is computed by dividing a negative [char]. *)
Theorem toURL_fromURL s :
  (forall t, zlen (toURL s t) = calcURLEncodingExpandedStringSize s t) /\
  fromURL (toURL s STRICT_ENCODING) = map url_recovered s /\
  (Forall (fun c => uchar c < 128) s -> fromURL (toURL s STRICT_ENCODING) = s).
Proof.
  assert (Hmain : fromURL (toURL s STRICT_ENCODING) = map url_recovered s).
  { rewrite toURL_chars. induction s as [|c s IH]; [done|].
    cbn [flat_map map]. by rewrite fromURL_strict_char, IH. }
  split; [|split; [done|]].
  - intros t. rewrite toURL_chars. clear Hmain. induction s as [|c s IH]; [done|].
    cbn [flat_map calcURLEncodingExpandedStringSize]. rewrite zlen_app, IH. unfold url_char.
    case_cond; reflexivity.
  - intros H. rewrite Hmain. clear Hmain. induction H as [|c s Hc _ IH]; [done|].
    simpl. rewrite IH. unfold url_recovered. by replace (uchar c <? 128) with true by lia.
Qed.

Lemma toURL_fromURL_witness : fromURL (toURL (str "a b&c") STRICT_ENCODING) = str "a b&c".
Proof. apply (proj2 (proj2 (toURL_fromURL (str "a b&c")))). repeat constructor. Defined.

(** [fromHex] inverts [toHex] for every byte string and every buffer that
    has room for it, and never writes more than [maxlen] bytes. *)
Theorem fromHex_toHex d maxlen :
  zlen d <= maxlen ->
  fromHex (toHex d) maxlen = d /\
  (forall h m, 0 <= m -> zlen (fromHex h m) <= m).
Proof.
  intros Hm. split.
  - unfold fromHex. rewrite zlen_toHex. replace (2 * zlen d / 2) with (zlen d) by divlia.
    replace (if zlen d <? maxlen then zlen d else maxlen) with (zlen d) by (case_conds; lia).
    unfold zlen. rewrite Nat2Z.id. apply fromHex_loop_toHex.
  - intros h m Hm0. unfold fromHex.
    assert (Hl : forall n h, zlen (fromHex_loop n h) <= Z.of_nat n).
    { clear. induction n as [|n IH]; intros [|? [|? h]]; simpl; rewrite ?zlen_cons, ?zlen_nil; try lia.
      specialize (IH h). lia. }
    etrans; [apply Hl|]. pose proof (zlen_nonneg h). case_conds; divlia.
Qed.

Lemma fromHex_toHex_witness : fromHex (toHex (str "Az~")) 16 = str "Az~".
Proof. apply fromHex_toHex. vm_compute. discriminate. Defined.

(** Decoding the RFC 4648 base32 encoding of any byte string returns the
    string, except that a spurious NUL byte is appended when the length is 2
    modulo 5 (the four bits of padding are taken for a byte). *)
Theorem decodeFromBase32_encode d :
  decodeFromBase32 (base32_encode d) =
  d ++ (if Nat.eqb (Nat.modulo (length d) 5) 2 then [chr 0] else []).
Proof.
  unfold decodeFromBase32, base32_encode. rewrite b32_loop_chars by apply groups5_range.
  rewrite b32_loop_padding, groups5_bits, foldl_app, b32_bytes, length_bits8, pad5_bits.
  pose proof (Nat.mod_upper_bound (length d) 5 ltac:(lia)). cbn [app].
  destruct (Nat.modulo (length d) 5) as [|[|[|[|[|]]]]]; [..|lia];
    cbn; by rewrite ?app_nil_r.
Qed.

(** For every seed, every mask generator and every buffer, decoding the
    obfuscated base64 text gives the buffer back, when the base64 filter used
    for encoding produces RFC 4648 base64. *)
Theorem base64Obf_roundtrip b64_encode dis buf seed :
  (forall d, d <> [] -> b64_encode d = rfc4648_base64 d) ->
  decodeFromBase64Obf dis (encodeToBase64Obf b64_encode dis buf seed) seed = buf.
Proof.
  intros Hb64. unfold encodeToBase64Obf, encodeToBase64, decodeFromBase64Obf.
  replace (match obfuscate dis seed 0 buf with [] => [] | _ => _ end)
    with (rfc4648_base64 (obfuscate dis seed 0 buf)).
  - rewrite (decode_rfc4648 dis (length (obfuscate dis seed 0 buf))) by done. apply unmask_obfuscate.
  - destruct (obfuscate dis seed 0 buf) eqn:E; [done|]. by rewrite Hb64.
Qed.

Lemma base64Obf_roundtrip_witness :
  decodeFromBase64Obf (fun s i => s + 7 * Z.of_nat i)
    (encodeToBase64Obf rfc4648_base64 (fun s i => s + 7 * Z.of_nat i) (str "secret!") 42) 42
  = str "secret!".
Proof. apply base64Obf_roundtrip. reflexivity. Defined.
