(* ===== verification/IPV4.v ===== *)
(** * IPv4 addresses with a mask: Memory/a_ipv4.cpp

    An in_addr is its member s_addr: the integer of 32 bits whose bytes in
    memory are those of the address, on a host of either byte order. inet_ntop
    writes the four bytes in decimal between dots; inet_pton is a parameter,
    of which the theorems assume that it reads that text back. *)

From S2P Require Import Prelude SafeInt ByteOrder CText.

Definition DOT : ascii := chr 46.
Definition SLASH : ascii := chr 47.

(** The decimal bytes with a dot between them. *)
Fixpoint dotted (l : bytes) : bytes :=
  match l with
  | [] => []
  | [b] => to_string (uchar b)
  | b :: l => to_string (uchar b) ++ DOT :: dotted l
  end.

(** std::string::find_first_of of one character, and the text around it. *)
Fixpoint split_at (c : ascii) (s : bytes) : option (bytes * bytes) :=
  match s with
  | [] => None
  | x :: s => if decide (x = c) then Some ([], s)
              else match split_at c s with Some (a, b) => Some (x :: a, b) | None => None end
  end.

Section IPV4.
  (** The byte order of the host, and inet_pton(AF_INET, text, &x): the bytes
      it stores when it returns 1. *)
  Variables (big_endian : bool) (inet_pton : bytes -> option bytes).

(** inet_ntop(AF_INET, &value, ...) *)
Definition inet_ntop (s_addr : Z) : bytes := dotted (store big_endian 4 s_addr).

(** u64pow multiplies by two whatever its base. *)
Definition u64pow (base exponent : Z) : Z :=
  if exponent =? 0 then 1 else Nat.iter (Z.to_nat (exponent - 1)) (fun result => u64 (result * 2)) base.

Definition htonl (x : Z) : Z := hton big_endian 4 (x mod 2 ^ 32).

Definition _matchRange (haystack cidr needle : Z) : bool :=
  let baseNetmaskCIDR := cidr in
  if baseNetmaskCIDR >? 32 then false
  else
    let baseNetmask := htonl (u64 (u64pow 2 baseNetmaskCIDR - 1)) in
    let cmp01 := Z.land (htonl haystack) baseNetmask in
    let cmp02 := Z.land (htonl needle) baseNetmask in
    cmp01 =? cmp02.

Definition _toString (value cidrMask : Z) : bytes :=
  inet_ntop value ++ (if cidrMask =? 32 then [] else SLASH :: to_string cidrMask).

(** The address, and *ok. *)
Definition _fromString (value : bytes) : Z * bool :=
  if bool_decide (value = []) then (0, true)
  else match inet_pton (c_str value) with
       | Some octets => (load big_endian octets, true)
       | None => (0, false)
       end.

(** The address and the mask, and *ok. The mask goes through uint8_t. *)
Definition _fromStringWithNetmask (value : bytes) : (Z * Z) * bool :=
  match split_at SLASH value with
  | None => let (a, ok) := _fromString value in ((a, 32), ok)
  | Some (before, detectedNetmask) =>
      if negb (zlen detectedNetmask =? 1) && negb (zlen detectedNetmask =? 2) then ((0, 0), false)
      else
        let mask := strtoul10 detectedNetmask mod 2 ^ 8 in
        if mask >? 32 then ((0, 0), false)
        else let (a, ok) := _fromString before in ((a, mask), ok)
  end.

(** The masks _toCIDRMask knows, in its order. *)
Definition cidr_masks : list (bytes * Z) := [
  (str "255.255.255.255", 32); (str "255.255.255.254", 31); (str "255.255.255.252", 30);
  (str "255.255.255.248", 29); (str "255.255.255.240", 28); (str "255.255.255.224", 27);
  (str "255.255.255.192", 26); (str "255.255.255.128", 25); (str "255.255.255.0", 24);
  (str "255.255.254.0", 23); (str "255.255.252.0", 22); (str "255.255.248.0", 21);
  (str "255.255.240.0", 20); (str "255.255.224.0", 19); (str "255.255.192.0", 18);
  (str "255.255.128.0", 17); (str "255.255.0.0", 16); (str "255.254.0.0", 15);
  (str "255.252.0.0", 14); (str "255.248.0.0", 13); (str "255.240.0.0", 12);
  (str "255.224.0.0", 11); (str "255.192.0.0", 10); (str "255.128.0.0", 9);
  (str "255.0.0.0", 8); (str "254.0.0.0", 7); (str "252.0.0.0", 6); (str "248.0.0.0", 5);
  (str "240.0.0.0", 4); (str "224.0.0.0", 3); (str "192.0.0.0", 2); (str "128.0.0.0", 1);
  (str "0.0.0.0", 0)].

Fixpoint first_mask (maskValue : bytes) (l : list (bytes * Z)) : Z :=
  match l with
  | [] => 255
  | (text, n) :: l => if decide (maskValue = text) then n else first_mask maskValue l
  end.

Definition _toCIDRMask (value : Z) : Z := first_mask (_toString value 32) cidr_masks.

(** The netmask, and *ok. *)
Definition _fromCIDRMask (value : Z) : Z * bool :=
  if value <=? 32 then (u64 (u64pow 2 value - 1) mod 2 ^ 32, true)
  else (fst (_fromString (str "0.0.0.0")), false).

(** ** The object *)

Record IPV4 := mkIPV4 { m_value : Z; m_cidrMask : Z }.

Definition setValue (value cidrMask : Z) : st IPV4 bool := fun _ => (Ret true, mkIPV4 value cidrMask).

Definition toString : st IPV4 bytes := gets (fun v => _toString (m_value v) 32).

Definition fromString (value : bytes) : st IPV4 bool :=
  let '((a, mask), r) := _fromStringWithNetmask value in
  let! _ := setValue a mask in
  ret r.

(** matchRange(const in_addr &). *)
Definition matchRange (value : Z) : st IPV4 bool :=
  gets (fun v => _matchRange (m_value v) (m_cidrMask v) value).

(** The _matchRange of two texts. *)
Definition _matchRange_text (haystack needle : bytes) : bool :=
  let (aNeedle, ok) := _fromString needle in
  if negb ok then false
  else
    let '((a, mask), ok) := _fromStringWithNetmask haystack in
    if negb ok then false else _matchRange a mask aNeedle.

End IPV4.

(** * What the IPv4 addresses do: masks, networks and text *)

(** ** Bytes and bits *)

Lemma land_256 x y : Z.land x y = Z.land (x mod 256) (y mod 256) + 256 * Z.land (x / 256) (y / 256).
Proof.
  change 256 with (2 ^ 8). rewrite <- !Z.shiftr_div_pow2 by lia. rewrite <- Z.shiftr_land.
  rewrite <- !Z.land_ones by lia. replace (Z.land (Z.land x (Z.ones 8)) (Z.land y (Z.ones 8)))
    with (Z.land (Z.land x y) (Z.ones 8)).
  - rewrite Z.land_ones, Z.shiftr_div_pow2 by lia. pose proof (Z.div_mod (Z.land x y) (2 ^ 8)). lia.
  - apply Z.bits_inj'. intros n _. rewrite !Z.land_spec. by destruct (Z.testbit x n), (Z.testbit y n), (Z.testbit (Z.ones 8) n).
Qed.

Definition band (a b : ascii) : ascii := chr (Z.land (uchar a) (uchar b)).

Lemma uchar_band a b : uchar (band a b) = Z.land (uchar a) (uchar b).
Proof.
  unfold band. rewrite uchar_chr. pose proof (uchar_range a). pose proof (uchar_range b).
  apply Z.mod_small. split; [apply Z.land_nonneg; lia|].
  assert (E : Z.land (uchar a) (uchar b) = Z.land (uchar a) (uchar b) mod 2 ^ 8).
  { rewrite <- Z.land_ones, <- Z.land_assoc by lia. f_equal. rewrite Z.land_ones by lia. symmetry. apply Z.mod_small. lia. }
  rewrite E. apply Z.mod_pos_bound. lia.
Qed.

Lemma le_int_band l : forall m, length l = length m -> Z.land (le_int l) (le_int m) = le_int (zip_with band l m).
Proof.
  induction l as [|a l IH]; intros [|b m] Hl; try done. cbn [le_int zip_with].
  rewrite uchar_band. rewrite <- IH by (by injection Hl). rewrite land_256.
  pose proof (uchar_range a). pose proof (uchar_range b).
  rewrite (Z.mul_comm 256 (le_int l)), (Z.mul_comm 256 (le_int m)), !Z_mod_plus_full, !Z.div_add by lia.
  by rewrite !Z.mod_small, !Z.div_small by lia.
Qed.

Lemma zip_with_rev l : forall m, length l = length m -> zip_with band (rev l) (rev m) = rev (zip_with band l m).
Proof.
  induction l as [|a l IH]; intros [|b m] Hl; try done. cbn [rev zip_with].
  injection Hl as Hl. rewrite zip_with_app by (by rewrite !length_rev). by rewrite IH.
Qed.

Lemma le_int_inj l m : length l = length m -> le_int l = le_int m -> l = m.
Proof. intros Hl E. rewrite <- (le_bytes_le_int l), <- (le_bytes_le_int m). by rewrite Hl, E. Qed.

Lemma be_int_inj l m : length l = length m -> be_int l = be_int m -> l = m.
Proof. intros Hl E. rewrite <- (be_bytes_be_int l), <- (be_bytes_be_int m). by rewrite Hl, E. Qed.

(** The bytes of a number are all its value. *)
Lemma le_bytes_small w x : 0 <= x < 256 ^ Z.of_nat w -> le_int (le_bytes w x) = x.
Proof. intros Hx. rewrite le_int_le_bytes. by apply Z.mod_small. Qed.

(** ** The doublings of u64pow *)

Lemma iter_double n : (Z.of_nat n < 63) -> Nat.iter n (fun result => u64 (result * 2)) 2 = 2 ^ (Z.of_nat n + 1).
Proof.
  induction n as [|n IH]; intros Hn; [done|]. cbn [Nat.iter nat_rect]. unfold Nat.iter in IH. rewrite IH by lia.
  replace (2 ^ (Z.of_nat n + 1) * 2) with (2 ^ (Z.of_nat (S n) + 1)).
  - apply u64_small. unfold is_size, SIZE_MAX.
    assert (2 ^ (Z.of_nat (S n) + 1) <= 2 ^ 63) by (apply Z.pow_le_mono_r; lia).
    assert (0 < 2 ^ (Z.of_nat (S n) + 1)) by (apply Z.pow_pos_nonneg; lia). lia.
  - replace (Z.of_nat (S n) + 1) with (Z.succ (Z.of_nat n + 1)) by lia. rewrite Z.pow_succ_r by lia. lia.
Qed.

Lemma u64pow_2 c : 0 <= c <= 63 -> u64pow 2 c = 2 ^ c.
Proof.
  intros Hc. unfold u64pow. case_cond; zbool; [by subst|]. rewrite iter_double by lia. f_equal. lia.
Qed.

Lemma low_bits c : 0 <= c <= 32 -> u64 (u64pow 2 c - 1) = 2 ^ c - 1 /\ 0 <= 2 ^ c - 1 < 2 ^ 32.
Proof.
  intros Hc. rewrite u64pow_2 by lia. assert (0 < 2 ^ c <= 2 ^ 32).
  { split; [apply Z.pow_pos_nonneg; lia|]. apply Z.pow_le_mono_r; lia. }
  split; [|lia]. apply u64_small. unfold is_size, SIZE_MAX. lia.
Qed.

(** ** Networks on a little-endian host *)

(** htonl reverses the bytes. *)
Lemma htonl_rev l : length l = 4%nat -> htonl false (le_int l) = be_int l.
Proof.
  intros Hl. unfold htonl, hton, load, be_bytes, be_int. f_equal. f_equal.
  change (2 ^ 32) with (256 ^ Z.of_nat 4). rewrite le_bytes_mod, <- Hl. apply le_bytes_le_int.
Qed.

Lemma zip_with_band_length l m n : length l = n -> length m = n -> length (zip_with band l m) = n.
Proof. intros Hl Hm. rewrite length_zip_with. lia. Qed.

(** The comparison is of the low bits of the members s_addr. *)
Lemma matchRange_low_bits l m c :
  length l = 4%nat -> length m = 4%nat -> 0 <= c <= 32 ->
  _matchRange false (le_int l) c (le_int m) = (le_int l mod 2 ^ c =? le_int m mod 2 ^ c).
Proof.
  intros Hl Hm Hc. unfold _matchRange. case_cond; zbool; [lia|].
  destruct (low_bits c Hc) as [Emask Hmask]. rewrite Emask.
  set (mask := le_bytes 4 (2 ^ c - 1)).
  assert (Hml : length mask = 4%nat) by apply length_le_bytes.
  assert (Em : 2 ^ c - 1 = le_int mask) by (unfold mask; rewrite le_bytes_small; [done|exact Hmask]).
  assert (Hand : forall k, length k = 4%nat ->
            Z.land (be_int k) (be_int mask) = be_int (zip_with band k mask) /\
            le_int k mod 2 ^ c = le_int (zip_with band k mask)).
  { intros k Hk. split.
    - unfold be_int. rewrite le_int_band by (rewrite !length_rev; lia). by rewrite zip_with_rev by lia.
    - rewrite <- le_int_band, <- Em by lia. replace (2 ^ c - 1) with (Z.ones c) by (rewrite Z.ones_equiv; lia).
      symmetry. apply Z.land_ones. lia. }
  rewrite Em, !htonl_rev by done. destruct (Hand l Hl) as [-> ->]. destruct (Hand m Hm) as [-> ->].
  assert (Hzl : length (zip_with band l mask) = length (zip_with band m mask)).
  { rewrite !(zip_with_band_length _ _ 4) by done. done. }
  apply eq_true_iff_eq. rewrite !Z.eqb_eq. split; intros Eq.
  - f_equal. apply be_int_inj; done.
  - f_equal. apply le_int_inj; done.
Qed.

Lemma pow_bytes k : 0 <= k -> 2 ^ (8 * k) = 256 ^ k.
Proof. intros Hk. rewrite Z.pow_mul_r by lia. done. Qed.

Lemma le_int_prefix l k : 0 <= k <= zlen l -> le_int l mod 256 ^ k = le_int (ztake k l).
Proof.
  intros Hk. rewrite <- (ztake_zdrop k l) at 1. rewrite le_int_app, zlen_ztake, Z.min_l, Z.max_r by lia.
  rewrite Z.mul_comm, Z_mod_plus_full. apply Z.mod_small. pose proof (le_int_range (ztake k l)) as Hr.
  rewrite zlen_ztake, Z.min_l, Z.max_r in Hr by lia. exact Hr.
Qed.

Lemma be_int_prefix l k : 0 <= k <= zlen l -> be_int l / 256 ^ (zlen l - k) = be_int (ztake k l).
Proof.
  intros Hk. rewrite <- (ztake_zdrop k l) at 1. rewrite be_int_app, zlen_zdrop, Z.min_l, Z.max_r by lia.
  pose proof (be_int_range (zdrop k l)) as Hr. rewrite zlen_zdrop, Z.min_l, Z.max_r in Hr by lia.
  rewrite Z.div_add_l by lia. rewrite (Z.div_small (be_int (zdrop k l))) by lia. lia.
Qed.

(** The members of a network: the first [c] bits of the address, from the most
    significant bit of its first byte. *)
Definition same_network (c : Z) (l m : bytes) : Prop := be_int l / 2 ^ (32 - c) = be_int m / 2 ^ (32 - c).

(** C36: on a little-endian host the network of an address with a mask of whole
    bytes (/0, /8, /16, /24 and /32) holds the addresses that have its first
    bits; and a network with any mask above 32 holds none. *)
Theorem matchRange_whole_bytes l m c :
  length l = 4%nat -> length m = 4%nat -> 0 <= c -> c mod 8 = 0 \/ 32 < c ->
  _matchRange false (load false l) c (load false m) = true <-> c <= 32 /\ same_network c l m.
Proof.
  intros Hl Hm Hc H8. unfold load. destruct (Z_le_gt_dec c 32) as [Hc'|Hc'].
  - destruct H8 as [H8|?]; [|lia]. rewrite matchRange_low_bits by (lia || done). unfold same_network.
    pose proof (Z.div_mod c 8 ltac:(lia)) as Ec. rewrite H8, Z.add_0_r in Ec. set (k := c / 8) in *.
    replace (32 - c) with (8 * (4 - k)) by lia. rewrite Ec, !pow_bytes by lia.
    assert (Hzl : zlen l = 4) by (unfold zlen; lia). assert (Hzm : zlen m = 4) by (unfold zlen; lia).
    rewrite !le_int_prefix by lia.
    pose proof (be_int_prefix l k ltac:(lia)) as Hbl. pose proof (be_int_prefix m k ltac:(lia)) as Hbm.
    rewrite Hzl in Hbl. rewrite Hzm in Hbm. rewrite Hbl, Hbm, Z.eqb_eq.
    assert (Hlen : length (ztake k l) = length (ztake k m)) by (rewrite !ztake_take, !length_take; lia).
    split; [intros E|intros [_ E]]; [split; [lia|]|]; f_equal; [by apply le_int_inj|by apply be_int_inj].
  - unfold _matchRange. replace (c >? 32) with true by lia. split; [done|lia].
Qed.

Definition octets (a b c d : Z) : bytes := [chr a; chr b; chr c; chr d].

Lemma matchRange_whole_bytes_witness :
  _matchRange false (load false (octets 192 168 7 1)) 16 (load false (octets 192 168 9 9)) = true <->
  16 <= 32 /\ same_network 16 (octets 192 168 7 1) (octets 192 168 9 9).
Proof. apply (matchRange_whole_bytes (octets 192 168 7 1) (octets 192 168 9 9) 16); [reflexivity|reflexivity|lia|by left]. Defined.

(** With any other mask it is the low bits of the last byte of the mask
    that count: 172.16.0.0/12 holds 172.32.0.0, of another network, and not
    172.17.0.0, of its own. *)
Theorem matchRange_partial_byte :
  let net := octets 172 16 0 0 in
  (_matchRange false (load false net) 12 (load false (octets 172 32 0 0)) = true /\
   ~ same_network 12 net (octets 172 32 0 0)) /\
  (_matchRange false (load false net) 12 (load false (octets 172 17 0 0)) = false /\
   same_network 12 net (octets 172 17 0 0)).
Proof. repeat split; vm_compute; congruence. Qed.

(** ** Text *)

(** The bytes back from the dotted text. *)
Fixpoint undotted (fuel : nat) (s : bytes) : bytes :=
  match fuel with
  | O => []
  | S fuel =>
      match split_at DOT s with
      | None => [chr (strtoul10 s)]
      | Some (a, b) => chr (strtoul10 a) :: undotted fuel b
      end
  end.

Lemma split_at_app c l r : c ∉ l -> split_at c (l ++ c :: r) = Some (l, r).
Proof.
  induction l as [|x l IH]; intros Hl; cbn [app split_at]; [by rewrite decide_True|].
  apply not_elem_of_cons in Hl as [Hx Hl]. rewrite decide_False by congruence. by rewrite IH.
Qed.

Lemma split_at_none c l : c ∉ l -> split_at c l = None.
Proof.
  induction l as [|x l IH]; intros Hl; cbn [split_at]; [done|].
  apply not_elem_of_cons in Hl as [Hx Hl]. rewrite decide_False by congruence. by rewrite IH.
Qed.

Lemma octet_text b : dec_chars (to_string (uchar b)) /\ to_string (uchar b) <> [].
Proof.
  pose proof (uchar_range b). unfold to_string. replace (uchar b <? 0) with false by lia.
  split; [apply dec_digits_chars; [lia|constructor]|apply dec_digits_nonempty; lia].
Qed.

Lemma dec_chars_not c l : dec_chars l -> ~ (48 <= uchar c <= 57) -> c ∉ l.
Proof. intros Hl Hc Hin. apply Hc. by apply (proj1 (Forall_forall _ _) Hl). Qed.

Lemma octet_not_dot b : DOT ∉ to_string (uchar b).
Proof. apply dec_chars_not; [apply octet_text|]. change (uchar DOT) with 46. lia. Qed.

Lemma octet_read b : chr (strtoul10 (to_string (uchar b))) = b.
Proof. pose proof (uchar_range b). rewrite strtoul_to_string by lia. apply chr_uchar. Qed.

Lemma undotted_dotted l : forall fuel, l <> [] -> (length l <= fuel)%nat -> undotted fuel (dotted l) = l.
Proof.
  induction l as [|b l IH]; intros fuel Hne Hf; [done|]. destruct fuel as [|fuel]; simpl in Hf; [lia|].
  cbn [undotted dotted]. destruct l as [|c l].
  - rewrite split_at_none by apply octet_not_dot. by rewrite octet_read.
  - rewrite split_at_app by apply octet_not_dot. rewrite octet_read. f_equal. apply IH; [done|]. simpl in *. lia.
Qed.

Lemma dotted_inj l m : length l = length m -> dotted l = dotted m -> l = m.
Proof.
  destruct l as [|b l], m as [|c m]; intros Hl E; try done.
  rewrite <- (undotted_dotted (b :: l) (length (b :: l))) by done. rewrite Hl, E.
  by apply undotted_dotted.
Qed.

(** The text has digits and dots only. *)
Lemma dotted_chars l : Forall (fun c => 46 <= uchar c <= 57 /\ uchar c <> 47) (dotted l).
Proof.
  assert (Ho : forall b, Forall (fun c => 46 <= uchar c <= 57 /\ uchar c <> 47) (to_string (uchar b))).
  { intros b. eapply Forall_impl; [apply octet_text|]. simpl. intros; lia. }
  induction l as [|b l IH]; [constructor|]. cbn [dotted]. destruct l; [done|].
  apply Forall_app. split; [done|]. constructor; [vm_compute; intuition congruence|done].
Qed.

Lemma dotted_c_str l : c_str (dotted l) = dotted l.
Proof.
  pose proof (dotted_chars l) as Hl. induction Hl as [|c s Hc _ IH]; [done|]. cbn [c_str].
  replace (uchar c =? 0) with false by lia. by rewrite IH.
Qed.

Lemma dotted_not_slash l : SLASH ∉ dotted l.
Proof.
  intros Hin. pose proof (proj1 (Forall_forall _ _) (dotted_chars l) _ Hin) as [_ H]. by apply H.
Qed.

Lemma dotted_nonempty l : l <> [] -> dotted l <> [].
Proof.
  destruct l as [|b [|c l]]; [done| |]; intros _; cbn [dotted]; [apply octet_text|].
  by destruct (to_string (uchar b)).
Qed.

(** ** Netmasks *)

(** The mask of the first [c] bits. *)
Definition netmask (c : Z) : Z := 2 ^ 32 - 2 ^ (32 - c).

Definition prefixes : list Z := map (fun i => 32 - Z.of_nat i) (seq 0 33).

Lemma elem_of_prefixes c : c ∈ prefixes <-> 0 <= c <= 32.
Proof.
  unfold prefixes. rewrite list_elem_of_fmap. split.
  - intros (i & -> & Hi). apply elem_of_seq in Hi. lia.
  - intros Hc. exists (Z.to_nat (32 - c)). rewrite elem_of_seq. lia.
Qed.

Lemma cidr_masks_texts : cidr_masks = map (fun c => (dotted (be_bytes 4 (netmask c)), c)) prefixes.
Proof. vm_compute. reflexivity. Qed.

Lemma first_mask_spec l cs :
  length l = 4%nat -> (forall c, c ∈ cs -> 0 <= netmask c < 2 ^ 32) ->
  let r := first_mask (dotted l) (map (fun c => (dotted (be_bytes 4 (netmask c)), c)) cs) in
  (r ∈ cs /\ be_int l = netmask r) \/ (r = 255 /\ forall c, c ∈ cs -> be_int l <> netmask c).
Proof.
  intros Hl. induction cs as [|c cs IH]; intros Hcs; cbn [map first_mask].
  - right. split; [done|]. intros c Hc. by apply not_elem_of_nil in Hc.
  - assert (Hiff : dotted l = dotted (be_bytes 4 (netmask c)) <-> be_int l = netmask c).
    { split; intros E.
      - apply dotted_inj in E as ->; [|by rewrite length_be_bytes]. rewrite be_int_be_bytes.
        apply Z.mod_small. apply Hcs. by left.
      - rewrite <- E, <- Hl. by rewrite be_bytes_be_int. }
    case_decide as Hd.
    + left. split; [by left|]. by apply Hiff.
    + destruct IH as [[Hr E]|[E Hne]]; [intros d Hd'; apply Hcs; by right| |].
      * left. split; [by right|done].
      * right. split; [done|]. intros d [->|Hd']%elem_of_cons; [by rewrite <- Hiff|by apply Hne].
Qed.

(** _toCIDRMask of the address of four bytes is the number of bits of the
    mask that they are, and 255 when they are not a mask, on any host. *)
Theorem toCIDRMask_exact big l :
  length l = 4%nat ->
  let r := _toCIDRMask big (load big l) in
  (0 <= r <= 32 /\ be_int l = netmask r) \/ (r = 255 /\ forall c, 0 <= c <= 32 -> be_int l <> netmask c).
Proof.
  intros Hl. unfold _toCIDRMask, _toString, inet_ntop. cbn [Z.eqb Pos.eqb]. rewrite app_nil_r.
  rewrite <- Hl, store_load, cidr_masks_texts. destruct (first_mask_spec l prefixes Hl) as [[Hr E]|[E Hne]].
  - intros c Hc. apply elem_of_prefixes in Hc. unfold netmask.
    assert (0 < 2 ^ (32 - c) <= 2 ^ 32); [|lia].
    split; [apply Z.pow_pos_nonneg; lia|apply Z.pow_le_mono_r; lia].
  - left. split; [by apply elem_of_prefixes|done].
  - right. split; [done|]. intros c Hc. apply Hne. by apply elem_of_prefixes.
Qed.

Lemma toCIDRMask_exact_witness :
  let r := _toCIDRMask false (load false (octets 255 255 240 0)) in
  (0 <= r <= 32 /\ be_int (octets 255 255 240 0) = netmask r) \/
  (r = 255 /\ forall c, 0 <= c <= 32 -> be_int (octets 255 255 240 0) <> netmask c).
Proof. apply (toCIDRMask_exact false (octets 255 255 240 0)). reflexivity. Defined.

(** On a little-endian host _fromCIDRMask gives a mask that _toCIDRMask
    reads back when the prefix is made of whole bytes; otherwise the bytes it
    gives are no mask at all. *)
Theorem fromCIDRMask_whole_bytes pton c :
  0 <= c <= 32 ->
  snd (_fromCIDRMask false pton c) = true /\
  _toCIDRMask false (fst (_fromCIDRMask false pton c)) = (if c mod 8 =? 0 then c else 255).
Proof.
  intros Hc. assert (Hall : forallb (fun c =>
    _toCIDRMask false (fst (_fromCIDRMask false (fun _ => None) c)) =? (if c mod 8 =? 0 then c else 255)) prefixes = true)
    by (vm_compute; reflexivity).
  pose proof (proj1 (forallb_forall _ _) Hall c (proj1 (list_elem_of_In _ _) (proj2 (elem_of_prefixes c) Hc))) as E.
  apply Z.eqb_eq in E. rewrite <- E. unfold _fromCIDRMask. rewrite (proj2 (Z.leb_le c 32)) by lia. cbn [fst snd]. split; exact eq_refl.
Qed.

Lemma fromCIDRMask_whole_bytes_witness :
  snd (_fromCIDRMask false (fun _ => None) 20) = true /\
  _toCIDRMask false (fst (_fromCIDRMask false (fun _ => None) 20)) = (if 20 mod 8 =? 0 then 20 else 255).
Proof. apply (fromCIDRMask_whole_bytes (fun _ => None) 20). lia. Defined.

(** ** The text of an address with its mask *)

(** What the theorems use of inet_pton: the dotted text of four bytes is read. *)
Class ReadsDotted (inet_pton : bytes -> option bytes) : Prop :=
  reads_dotted l : length l = 4%nat -> inet_pton (dotted l) = Some l.

(** A function that reads only that. *)
Definition pton_dotted (s : bytes) : option bytes :=
  let l := undotted 4 s in
  if decide (length l = 4%nat /\ dotted l = s) then Some l else None.

Instance pton_dotted_reads : ReadsDotted pton_dotted.
Proof.
  intros l Hl. unfold pton_dotted. rewrite undotted_dotted by (first [lia | by destruct l]).
  by rewrite decide_True.
Qed.

Section Text.
  Context (big : bool) (pton : bytes -> option bytes) `{ReadsDotted pton}.

Lemma fromString_dotted l : length l = 4%nat -> _fromString big pton (dotted l) = (load big l, true).
Proof.
  intros Hl. unfold _fromString. rewrite bool_decide_false by (by apply dotted_nonempty; destruct l).
  by rewrite dotted_c_str, reads_dotted.
Qed.

Lemma mask_text c : 0 <= c <= 32 ->
  (zlen (to_string c) = 1 \/ zlen (to_string c) = 2) /\ strtoul10 (to_string c) mod 2 ^ 8 = c.
Proof.
  intros Hc. assert (Hall : forallb (fun c => (zlen (to_string c) =? 1) || (zlen (to_string c) =? 2)) prefixes = true)
    by (vm_compute; reflexivity).
  pose proof (proj1 (forallb_forall _ _) Hall c (proj1 (list_elem_of_In _ _) (proj2 (elem_of_prefixes c) Hc))) as E.
  split; [apply orb_true_iff in E as [E|E]; apply Z.eqb_eq in E; auto|].
  rewrite strtoul_to_string by lia. apply Z.mod_small. lia.
Qed.

(** C37: the text of an address with a mask of 0 to 32 bits is read back, the
    address and the mask. *)
Theorem ipv4_text_roundtrip l c :
  length l = 4%nat -> 0 <= c <= 32 ->
  _fromStringWithNetmask big pton (_toString big (load big l) c) = ((load big l, c), true).
Proof.
  intros Hl Hc. unfold _toString, inet_ntop. rewrite <- Hl at 1. rewrite store_load. unfold _fromStringWithNetmask.
  case_cond; zbool.
  - subst c. rewrite app_nil_r, split_at_none by apply dotted_not_slash. by rewrite fromString_dotted.
  - rewrite split_at_app by apply dotted_not_slash. destruct (mask_text c Hc) as [Hlen Hval].
    rewrite Hval. replace (negb (zlen (to_string c) =? 1) && negb (zlen (to_string c) =? 2)) with false by lia.
    replace (c >? 32) with false by lia. by rewrite fromString_dotted.
Qed.

(** An object read back from its own text has lost its mask: toString
    writes the address alone. *)
Theorem ipv4_toString_drops_the_mask l c :
  length l = 4%nat ->
  let v := mkIPV4 (load big l) c in
  exists text, toString big v = (Ret text, v) /\ fromString big pton text v = (Ret true, mkIPV4 (load big l) 32).
Proof.
  intros Hl v. exists (dotted l). split.
  - unfold toString, gets, _toString, inet_ntop. cbn [v m_value Z.eqb Pos.eqb]. by rewrite <- Hl, store_load, app_nil_r.
  - unfold fromString, _fromStringWithNetmask. rewrite split_at_none by apply dotted_not_slash.
    by rewrite fromString_dotted.
Qed.

(** A mask of two characters that is not a number is the mask of no bits:
    the range then holds every address. *)
Theorem unreadable_mask_holds_everything l m :
  length l = 4%nat -> length m = 4%nat ->
  _matchRange_text false pton (dotted l ++ SLASH :: str "xy") (dotted m) = true.
Proof.
  intros Hl Hm. unfold _matchRange_text, _fromString.
  rewrite bool_decide_false by (by apply dotted_nonempty; destruct m). rewrite dotted_c_str, reads_dotted by done.
  cbn [negb]. unfold _fromStringWithNetmask. rewrite split_at_app by apply dotted_not_slash.
  change (strtoul10 (str "xy") mod 2 ^ 8) with 0. change (zlen (str "xy")) with 2. cbn [Z.eqb Pos.eqb negb andb Z.gtb Z.compare].
  unfold _fromString. rewrite bool_decide_false by (by apply dotted_nonempty; destruct l).
  rewrite dotted_c_str, reads_dotted by done. cbn [negb]. unfold load. rewrite matchRange_low_bits by (lia || done).
  by rewrite !Z.mod_1_r.
Qed.

End Text.

Lemma ipv4_text_roundtrip_witness :
  _fromStringWithNetmask false pton_dotted (_toString false (load false (octets 10 1 0 0)) 16) =
  ((load false (octets 10 1 0 0), 16), true).
Proof. apply (ipv4_text_roundtrip false pton_dotted (octets 10 1 0 0) 16); [reflexivity|lia]. Defined.

Lemma ipv4_toString_drops_the_mask_witness :
  let v := mkIPV4 (load true (octets 10 1 0 0)) 16 in
  exists text, toString true v = (Ret text, v) /\
    fromString true pton_dotted text v = (Ret true, mkIPV4 (load true (octets 10 1 0 0)) 32).
Proof. apply (ipv4_toString_drops_the_mask true pton_dotted (octets 10 1 0 0) 16). reflexivity. Defined.

Lemma unreadable_mask_holds_everything_witness :
  _matchRange_text false pton_dotted (dotted (octets 10 0 0 1) ++ SLASH :: str "xy") (dotted (octets 8 8 8 8)) = true.
Proof. apply (unreadable_mask_holds_everything pton_dotted (octets 10 0 0 1) (octets 8 8 8 8)); reflexivity. Defined.
