(* ===== verification/MACADDR.v ===== *)
(** * Ethernet addresses: Memory/a_macaddr.cpp

    Six bytes, their text, and their hash: the integer of 64 bits whose first
    six bytes in network order they are. *)

From S2P Require Import Prelude SafeInt CText ByteOrder Encoders.

Definition ETH_ALEN : nat := 6.
Definition COLON : ascii := chr 58.
Definition DASH : ascii := chr 45.

(** ** sscanf *)

(** The conversions %02X and %02x: spaces, then a field of at most two
    characters: a sign and a digit, or one or two digits; [0x] starts a number
    without digits, which is no match. *)
Definition scan_hex2 (s : bytes) : option (Z * bytes) :=
  match skip_spaces s with
  | a :: s' =>
      if (uchar a =? 45) || (uchar a =? 43) then
        match s' with
        | d :: s'' => match digit_value 16 d with
                      | Some v => Some (if uchar a =? 45 then - v else v, s'')
                      | None => None
                      end
        | [] => None
        end
      else
        match digit_value 16 a with
        | None => None
        | Some v =>
            match s' with
            | x :: s'' =>
                if (v =? 0) && (uchar (tolower x) =? 120) then None
                else match digit_value 16 x with
                     | Some w => Some (v * 16 + w, s'')
                     | None => Some (v, s')
                     end
            | [] => Some (v, [])
            end
        end
  | [] => None
  end.

(** The [n] conversions of a format with the character [sep] between them;
    the rest of the text is not looked at. *)
Fixpoint sscanf_hex (sep : ascii) (n : nat) (s : bytes) : option (list Z) :=
  match n with
  | O => Some []
  | S n =>
      match scan_hex2 s with
      | None => None
      | Some (v, rest) =>
          match n, rest with
          | O, _ => Some [v]
          | S _, c :: rest =>
              if decide (c = sep) then match sscanf_hex sep n rest with Some l => Some (v :: l) | None => None end
              else None
          | S _, [] => None
          end
      end
  end.

(** ** The operations *)

(** The bytes stored, and whether the text is an address. The conversions to
    unsigned char are unsafeStaticCast. *)
Definition _fromString (src : bytes) : bytes * bool :=
  let scanned := match sscanf_hex COLON ETH_ALEN (c_str src) with
                 | Some l => Some l
                 | None => sscanf_hex DASH ETH_ALEN (c_str src)
                 end in
  match scanned with
  | Some l => (map chr l, true)
  | None => (replicate ETH_ALEN (chr 0), false)
  end.

Fixpoint join (sep : ascii) (l : list bytes) : bytes :=
  match l with
  | [] => []
  | [x] => x
  | x :: l => x ++ sep :: join sep l
  end.

Definition _toString (value : bytes) : bytes := join COLON (map sprintf_02X (take ETH_ALEN value)).

(** [dst] is an area of six bytes or more. *)
Definition _fromHASH (big_endian : bool) (src : Z) (dst : bytes) : bytes :=
  let dst2 := store big_endian 8 (htonll big_endian src) in
  take ETH_ALEN dst2 ++ drop ETH_ALEN dst.

Definition _toHash (big_endian : bool) (value : bytes) : Z :=
  let _macaddr := take ETH_ALEN value ++ replicate 2 (chr 0) in
  ntohll big_endian (load big_endian _macaddr).

(** The hash, and *ok. *)
Definition _fromStringToHASH (big_endian : bool) (value : bytes) : Z * bool :=
  let (m, okv) := _fromString value in
  (ntohll big_endian (load big_endian (m ++ replicate 2 (chr 0))), okv).

Definition _fromHASHToString (big_endian : bool) (value : Z) : bytes :=
  _toString (_fromHASH big_endian value (replicate 8 (chr 0))).

(** ** The object *)

Definition setValue (macaddr : bytes) : st bytes bool := fun _ => (Ret true, take ETH_ALEN macaddr).

Definition toString : st bytes bytes := gets _toString.

Definition fromString (value : bytes) : st bytes bool :=
  let (_macaddr, r) := _fromString value in
  let! _ := setValue _macaddr in
  ret r.

(** ** Text *)

Lemma digit_value_hex n : 0 <= n < 16 -> digit_value 16 (hex_digit n) = Some n.
Proof.
  intros Hn. assert (Hall : forallb (fun i => bool_decide (digit_value 16 (hex_digit (Z.of_nat i)) = Some (Z.of_nat i))) (seq 0 16) = true)
    by (vm_compute; reflexivity).
  pose proof (proj1 (forallb_forall _ _) Hall (Z.to_nat n)) as E.
  rewrite in_seq, Z2Nat.id in E by lia. specialize (E ltac:(lia)). by apply bool_decide_eq_true_1 in E.
Qed.

Lemma scan_sprintf b rest : scan_hex2 (sprintf_02X b ++ rest) = Some (uchar b, rest).
Proof.
  assert (Hx : forall c : ascii, bool_decide (scan_hex2 (sprintf_02X c) = Some (uchar c, [])) &&
    forallb (fun h => negb (isspace h) && negb (uchar h =? 45) && negb (uchar h =? 43) && negb (uchar (tolower h) =? 120)) (sprintf_02X c) = true)
    by (apply (forall_chars (fun c => bool_decide (scan_hex2 (sprintf_02X c) = Some (uchar c, [])) &&
    forallb (fun h => negb (isspace h) && negb (uchar h =? 45) && negb (uchar h =? 43) && negb (uchar (tolower h) =? 120)) (sprintf_02X c)));
    vm_compute; reflexivity).
  specialize (Hx b). apply andb_true_iff in Hx as [_ Hx]. unfold sprintf_02X in *. cbn [forallb app] in *.
  pose proof (uchar_range b). set (h := hex_digit (uchar b / 16)) in *. set (k := hex_digit (uchar b mod 16)) in *.
  unfold scan_hex2. cbn [skip_spaces]. destruct (isspace h); [done|]. destruct (uchar h =? 45); [done|].
  destruct (uchar h =? 43); [done|]. cbn [orb].
  assert (Hh : digit_value 16 h = Some (uchar b / 16))
    by (apply digit_value_hex; split; [apply Z.div_pos; lia|apply Z.div_lt_upper_bound; lia]).
  assert (Hk : digit_value 16 k = Some (uchar b mod 16)) by (apply digit_value_hex, Z.mod_pos_bound; lia).
  rewrite Hh.
  destruct (uchar (tolower k) =? 120); [by destruct (isspace k), (uchar k =? 45), (uchar k =? 43), (uchar (tolower h) =? 120)|].
  rewrite andb_false_r, Hk.
  f_equal. f_equal. pose proof (Z.div_mod (uchar b) 16). lia.
Qed.

Lemma sscanf_join l :
  l <> [] -> sscanf_hex COLON (length l) (join COLON (map sprintf_02X l)) = Some (map uchar l).
Proof.
  induction l as [|b l IH]; intros Hl; [done|]. destruct l as [|c l].
  - cbn [map join length sscanf_hex]. by rewrite <- (app_nil_r (sprintf_02X b)), scan_sprintf.
  - cbn [map join length] in *. cbn [sscanf_hex] in *. rewrite scan_sprintf. rewrite decide_True by done.
    rewrite IH by done. done.
Qed.

Lemma join_no_nul l : c_str (join COLON (map sprintf_02X l)) = join COLON (map sprintf_02X l).
Proof.
  assert (Hs : forall b rest, c_str (sprintf_02X b ++ rest) = sprintf_02X b ++ c_str rest).
  { intros b rest. assert (Hx : forallb (fun h => negb (uchar h =? 0)) (sprintf_02X b) = true).
    { apply (forall_chars (fun b => forallb (fun h => negb (uchar h =? 0)) (sprintf_02X b))). vm_compute. reflexivity. }
    unfold sprintf_02X in *. cbn [forallb app c_str] in *.
    destruct (uchar (hex_digit (uchar b / 16)) =? 0); [done|]. by destruct (uchar (hex_digit (uchar b mod 16)) =? 0). }
  induction l as [|b l IH]; [done|]. destruct l as [|c l].
  - cbn [map join]. rewrite <- (app_nil_r (sprintf_02X b)). by rewrite Hs.
  - cbn [map join] in *. rewrite Hs. f_equal. cbn [c_str]. change (uchar COLON =? 0) with false.
    f_equal. exact IH.
Qed.

(** The text of an Ethernet address is read back. *)
Theorem mac_text_roundtrip m : length m = 6%nat -> _fromString (_toString m) = (m, true).
Proof.
  intros Hm. unfold _toString, _fromString, ETH_ALEN. rewrite take_ge by lia. rewrite join_no_nul.
  rewrite <- Hm, sscanf_join by (by destruct m). f_equal. rewrite map_map.
  rewrite <- (map_id m) at 2. apply map_ext. apply chr_uchar.
Qed.

Lemma mac_text_roundtrip_witness :
  _fromString (_toString (map chr [0; 26; 43; 255; 9; 160])) = (map chr [0; 26; 43; 255; 9; 160], true).
Proof. apply (mac_text_roundtrip (map chr [0; 26; 43; 255; 9; 160])). reflexivity. Defined.

(** The hash of an address gives it back on any host, and the address of a
    hash has its upper 48 bits. *)
Theorem mac_hash_roundtrip big m h dst :
  length m = 6%nat -> 0 <= h < 2 ^ 64 -> length dst = 6%nat ->
  _fromHASH big (_toHash big m) dst = m /\ _toHash big (_fromHASH big h dst) = h - h mod 2 ^ 16.
Proof.
  intros Hm Hh Hd. unfold _fromHASH, _toHash, ETH_ALEN. rewrite (drop_ge dst), app_nil_r by lia.
  rewrite (take_ge m) by lia.
  assert (Hlen : length (m ++ replicate 2 (chr 0)) = 8%nat) by (rewrite length_app; simpl; lia).
  rewrite ntohll_load by done. split.
  - pose proof (be_int_range (m ++ replicate 2 (chr 0))) as Hr. unfold zlen in Hr. rewrite Hlen in Hr.
    rewrite store_htonll by exact Hr. rewrite <- Hlen, be_bytes_be_int. by rewrite take_app_le, take_ge by lia.
  - rewrite store_htonll by done. set (l := be_bytes 8 h).
    assert (Hl : length l = 8%nat) by apply length_be_bytes.
    rewrite (take_ge (take 6 l ++ [])) by (rewrite app_nil_r, length_take; lia). rewrite app_nil_r.
    rewrite ntohll_load by (rewrite length_app, length_take, Hl; done).
    rewrite be_int_app. change (be_int (replicate 2 (chr 0))) with 0. change (zlen (replicate 2 (chr 0))) with 2.
    assert (E : be_int l = h) by (unfold l; rewrite be_int_be_bytes; by apply Z.mod_small).
    rewrite <- (take_drop 6 l) in E. rewrite be_int_app in E.
    assert (Hz : zlen (drop 6 l) = 2) by (unfold zlen; rewrite length_drop, Hl; done). rewrite Hz in E.
    pose proof (be_int_range (drop 6 l)) as Hr. rewrite Hz in Hr. change (256 ^ 2) with (2 ^ 16) in *.
    assert (Em : h mod 2 ^ 16 = be_int (drop 6 l)).
    { rewrite <- E. rewrite (Z.add_comm (_ * _)), Z_mod_plus_full. by apply Z.mod_small. }
    lia.
Qed.

Lemma mac_hash_roundtrip_witness :
  let m := map chr [0; 26; 43; 255; 9; 160] in
  _fromHASH false (_toHash false m) (replicate 6 (chr 7)) = m /\
  _toHash false (_fromHASH false 1234567890123456 (replicate 6 (chr 7))) = 1234567890123456 - 1234567890123456 mod 2 ^ 16.
Proof. apply (mac_hash_roundtrip false (map chr [0; 26; 43; 255; 9; 160]) 1234567890123456); (reflexivity || lia). Defined.
