(* ===== verification/Datetime.v ===== *)
(** * Dates as text: Memory/a_datetime.cpp

    A time_t is the number of seconds since 1970. gmtime_r and the calendar are
    written out; mktime, the global variable timezone and the conversion %f of
    sscanf are parameters. *)

From S2P Require Import Prelude SafeInt CText.

(** The members of struct tm that the sources use. *)
Record tm := mkTm {
  tm_year : Z;
  tm_mon : Z;
  tm_mday : Z;
  tm_hour : Z;
  tm_min : Z;
  tm_sec : Z
}.

(** ** The calendar

    A day of an era of 400 years that starts on the 1st of March: year of the
    era, month from March, day of the month. *)
Definition civil_of_era (doe : Z) : Z * Z * Z :=
  let c := Z.min 3 (doe / 36524) in
  let q := Z.min 24 ((doe - c * 36524) / 1461) in
  let r := Z.min 3 ((doe - c * 36524 - q * 1461) / 365) in
  let doy := doe - c * 36524 - q * 1461 - r * 365 in
  let mp := (5 * doy + 2) / 153 in
  (c * 100 + q * 4 + r, mp, doy - (153 * mp + 2) / 5 + 1).

Definition era_of_civil (yoe mp d : Z) : Z :=
  yoe * 365 + yoe / 4 - yoe / 100 + ((153 * mp + 2) / 5 + d - 1).

(** Year, month from 1 and day of the days from 1970-01-01. *)
Definition civil_from_days (days : Z) : Z * Z * Z :=
  let z := days + 719468 in
  let '(yoe, mp, d) := civil_of_era (z mod 146097) in
  let m := if mp <? 10 then mp + 3 else mp - 9 in
  (yoe + z / 146097 * 400 + (if m <=? 2 then 1 else 0), m, d).

Definition days_from_civil (y m d : Z) : Z :=
  let y := if m <=? 2 then y - 1 else y in
  let mp := if m >? 2 then m - 3 else m + 9 in
  y / 400 * 146097 + era_of_civil (y mod 400) mp d - 719468.

(** gmtime_r *)
Definition gmtime (t : Z) : tm :=
  let '(y, m, d) := civil_from_days (t / 86400) in
  let s := t mod 86400 in
  mkTm (y - 1900) (m - 1) d (s / 3600) (s / 60 mod 60) (s mod 60).

(** The seconds of a date in UTC. *)
Definition timegm (x : tm) : Z :=
  days_from_civil (tm_year x + 1900) (tm_mon x + 1) (tm_mday x) * 86400
  + tm_hour x * 3600 + tm_min x * 60 + tm_sec x.

(** ** Text *)

(** The conversion %02d of strftime's %m, %d, %H, %M and %S. *)
Definition pad2 (n : Z) : bytes := [chr (48 + n / 10); chr (48 + n mod 10)].

(** %F and %T *)
Definition date_text (x : tm) : bytes :=
  to_string (tm_year x + 1900) ++ str "-" ++ pad2 (tm_mon x + 1) ++ str "-" ++ pad2 (tm_mday x).
Definition time_text (x : tm) : bytes :=
  pad2 (tm_hour x) ++ str ":" ++ pad2 (tm_min x) ++ str ":" ++ pad2 (tm_sec x).

(** A format of sscanf: %d, %f, white space, any other character. *)
Inductive directive : Type := Int | Float | Space | Lit (c : ascii).

(** %d *)
Definition scan_int (s : bytes) : option (Z * bytes) :=
  let s := skip_spaces s in
  let negative := match s with c :: _ => uchar c =? 45 | [] => false end in
  let s := match s with
           | c :: s' => if (uchar c =? 45) || (uchar c =? 43) then s' else s
           | [] => []
           end in
  match s with
  | d :: _ => match digit_value 10 d with
              | Some _ => let (n, rest) := digits 10 0 s in Some (if negative then - n else n, rest)
              | None => None
              end
  | [] => None
  end.

Section Datetime.
  (** scan_float: the value that %f stores, converted to int, and the rest of
      the text. mktime with tm_isdst 0. *)
  Variables (scan_float : bytes -> option (Z * bytes)) (mktime : tm -> Z) (timezone : Z).

(** The values stored; the first directive that fails ends the call. *)
Fixpoint sscanf (fmt : list directive) (s : bytes) : list Z :=
  match fmt with
  | [] => []
  | Int :: fmt => match scan_int s with Some (v, rest) => v :: sscanf fmt rest | None => [] end
  | Float :: fmt => match scan_float s with Some (v, rest) => v :: sscanf fmt rest | None => [] end
  | Space :: fmt => sscanf fmt (skip_spaces s)
  | Lit c :: fmt => match s with
                    | x :: s => if decide (x = c) then sscanf fmt s else []
                    | [] => []
                    end
  end.

Definition plain_format : list directive :=
  [Int; Lit "-"; Int; Lit "-"; Int; Space; Int; Lit ":"; Int; Lit ":"; Int]%char.
Definition iso_format : list directive :=
  [Int; Lit "-"; Int; Lit "-"; Int; Lit "T"; Int; Lit ":"; Int; Lit ":"; Float; Int; Lit ":"; Int; Lit "Z"]%char.

(** The members of a zeroed tm after the values stored, without tm_sec. *)
Definition tm_of (values : list Z) (sec : Z) : tm :=
  let v i := nth i values 0 in
  mkTm (v 0%nat - 1900) (v 1%nat - 1) (v 2%nat) (v 3%nat) (v 4%nat) sec.

Definition fromISOTimeStr (v : bytes) : res Z :=
  if bool_decide (" "%char ∈ v) then
    let values := sscanf plain_format (c_str v) in
    Ret (mktime (tm_of values (nth 5 values 0)) - timezone)
  else if bool_decide ("T"%char ∈ v) then
    let values := sscanf iso_format (c_str v) in
    (* float s is assigned by the sixth conversion; tzh and tzm are not used *)
    match nth_error values 5 with
    | Some s => Ret (mktime (tm_of values s) - timezone)
    | None => Exc (undefined "value of s")
    end
  else Ret 0.

Definition getISOTimeStr (v : Z) : bytes :=
  let tmTime := gmtime v in date_text tmTime ++ str "T" ++ time_text tmTime ++ str "Z".

Definition getPlainLclTimeStr (v : Z) : bytes :=
  let tmTime := gmtime (v - timezone) in date_text tmTime ++ str " " ++ time_text tmTime.

(** ** The object: m_value *)

Definition toString : st Z bytes := gets getISOTimeStr.
Definition toStringLcl : st Z bytes := gets getPlainLclTimeStr.

Definition fromString (value : bytes) : st Z bool :=
  if bool_decide (value = []) then
    let! _ := modify (fun _ => 0) in ret false
  else
    let! t := lift_res (fromISOTimeStr value) in
    let! _ := modify (fun _ => t) in
    ret true.

End Datetime.

(** * The calendar of gmtime, and what dates read back from text are *)

(** lia reasons about the quotients and remainders of the calendar. *)
#[local] Ltac Zify.zify_post_hook ::= Z.to_euclidean_division_equations.

(** ** The days of an era *)

Lemma era_day doe : 0 <= doe < 146097 ->
  let '(yoe, mp, d) := civil_of_era doe in
  0 <= yoe < 400 /\ 0 <= mp < 12 /\ 1 <= d <= 31 /\ era_of_civil yoe mp d = doe.
Proof.
  intros Hd. unfold civil_of_era, era_of_civil.
  set (c := Z.min 3 (doe / 36524)). assert (Hc : 0 <= c <= 3 /\ 0 <= doe - c * 36524 <= 36524) by (subst c; lia).
  set (d1 := doe - c * 36524) in *.
  set (q := Z.min 24 (d1 / 1461)). assert (Hq : 0 <= q <= 24 /\ 0 <= d1 - q * 1461 <= 1460) by (subst q; lia).
  set (d2 := d1 - q * 1461) in *.
  set (r := Z.min 3 (d2 / 365)). assert (Hr : 0 <= r <= 3 /\ 0 <= d2 - r * 365 <= 365) by (subst r; lia).
  set (doy := d2 - r * 365) in *. set (mp := (5 * doy + 2) / 153).
  assert (Hm : 0 <= mp < 12 /\ 1 <= doy - (153 * mp + 2) / 5 + 1 <= 31) by (subst mp; lia).
  assert (E4 : (c * 100 + q * 4 + r) / 4 = c * 25 + q) by (clearbody c q r; lia).
  assert (E100 : (c * 100 + q * 4 + r) / 100 = c) by (clearbody c q r; lia).
  rewrite E4, E100. subst d1 d2 doy. clearbody c q r mp. lia.
Qed.

Lemma days_from_civil_from_days z :
  let '(y, m, d) := civil_from_days z in
  1 <= m <= 12 /\ 1 <= d <= 31 /\ days_from_civil y m d = z /\
  (z + 719468) / 146097 * 400 <= y <= (z + 719468) / 146097 * 400 + 400.
Proof.
  unfold civil_from_days. pose proof (era_day ((z + 719468) mod 146097) ltac:(apply Z.mod_pos_bound; lia)) as H.
  pose proof (Z.div_mod (z + 719468) 146097 ltac:(lia)) as Hdm.
  destruct (civil_of_era _) as [[yoe mp] d]. destruct H as (Hy & Hmp & Hday & He).
  set (e := (z + 719468) / 146097) in *. unfold days_from_civil.
  destruct (mp <? 10) eqn:Emp; zbool.
  - replace (mp + 3 <=? 2) with false by lia. replace (mp + 3 >? 2) with true by lia.
    rewrite Z.add_0_r, Z.div_add, Z_mod_plus_full, Z.div_small, Z.mod_small by lia.
    replace (mp + 3 - 3) with mp by lia. repeat split; lia.
  - replace (mp - 9 <=? 2) with true by lia. replace (mp - 9 >? 2) with false by lia.
    replace (yoe + e * 400 + 1 - 1) with (yoe + e * 400) by lia.
    rewrite Z.div_add, Z_mod_plus_full, Z.div_small, Z.mod_small by lia.
    replace (mp - 9 + 9) with mp by lia. repeat split; lia.
Qed.

(** ** The calendar, day by day *)

Definition leap (y : Z) : bool := (y mod 4 =? 0) && (negb (y mod 100 =? 0) || (y mod 400 =? 0)).
Definition days_in_month (y m : Z) : Z :=
  if m =? 2 then (if leap y then 29 else 28)
  else if (m =? 4) || (m =? 6) || (m =? 9) || (m =? 11) then 30 else 31.
Definition next_day (c : Z * Z * Z) : Z * Z * Z :=
  let '(y, m, d) := c in
  if d <? days_in_month y m then (y, m, d + 1)
  else if m <? 12 then (y, m + 1, 1) else (y + 1, 1, 1).

(** The days before the 1st of March of a year. *)
Definition before_march (y : Z) : Z := y / 400 * 146097 + (y mod 400 * 365 + y mod 400 / 4 - y mod 400 / 100).

Lemma before_march_closed y : before_march y = y * 365 + y / 4 - y / 100 + y / 400.
Proof. unfold before_march. lia. Qed.

Lemma before_march_succ y : before_march y = before_march (y - 1) + 365 + (if leap y then 1 else 0).
Proof.
  rewrite !before_march_closed. unfold leap.
  assert (H : forall k, 1 < k -> y / k = (y - 1) / k + (if y mod k =? 0 then 1 else 0)).
  { intros k Hk. pose proof (Z.div_mod y k ltac:(lia)). pose proof (Z.mod_pos_bound y k ltac:(lia)).
    destruct (y mod k =? 0) eqn:E; zbool.
    - replace (y - 1) with (k - 1 + (y / k - 1) * k) by lia. rewrite Z.div_add, (Z.div_small (k - 1)) by lia. lia.
    - replace (y - 1) with (y mod k - 1 + y / k * k) by lia. rewrite Z.div_add, (Z.div_small (y mod k - 1)) by lia. lia. }
  rewrite (H 4), (H 100), (H 400) by lia.
  destruct (y mod 4 =? 0) eqn:E4, (y mod 100 =? 0) eqn:E100, (y mod 400 =? 0) eqn:E400; cbn [andb orb negb]; zbool; lia.
Qed.

Lemma days_from_civil_march y m d :
  days_from_civil y m d =
  before_march (if m <=? 2 then y - 1 else y) + (153 * (if m >? 2 then m - 3 else m + 9) + 2) / 5 + d - 1 - 719468.
Proof. unfold days_from_civil, before_march, era_of_civil. lia. Qed.

(** days_from_civil counts the days of the Gregorian calendar. *)
Lemma days_next_day y m d :
  1 <= m <= 12 -> 1 <= d <= days_in_month y m ->
  let '(y', m', d') := next_day (y, m, d) in days_from_civil y' m' d' = days_from_civil y m d + 1.
Proof.
  intros Hm Hd. unfold next_day. destruct (d <? days_in_month y m) eqn:E; zbool;
    [rewrite !days_from_civil_march; lia|].
  assert (Hl : d = days_in_month y m) by lia. clear E Hd. subst d. pose proof (before_march_succ y) as Hs.
  unfold days_in_month.
  assert (Hcases : m = 1 \/ m = 2 \/ m = 3 \/ m = 4 \/ m = 5 \/ m = 6 \/ m = 7 \/ m = 8 \/ m = 9 \/ m = 10 \/ m = 11 \/ m = 12) by lia.
  destruct Hcases as [->|[->|[->|[->|[->|[->|[->|[->|[->|[->|[->| ->]]]]]]]]]]];
    cbn -[before_march leap days_from_civil Z.add Z.sub Z.mul]; rewrite !days_from_civil_march;
    repeat match goal with
           | |- context [?a <=? 2] => let v := eval vm_compute in (a <=? 2) in change (a <=? 2) with v
           | |- context [?a >? 2] => let v := eval vm_compute in (a >? 2) in change (a >? 2) with v
           end; cbn iota; replace (y + 1 - 1) with y by lia; destruct (leap y); lia.
Qed.

Lemma days_epoch : days_from_civil 1970 1 1 = 0.
Proof. reflexivity. Qed.

(** ** gmtime and its inverse *)

(** The members are in their ranges. *)
Definition valid (x : tm) : Prop :=
  0 <= tm_mon x <= 11 /\ 1 <= tm_mday x <= 31 /\ 0 <= tm_hour x <= 23 /\ 0 <= tm_min x <= 59 /\ 0 <= tm_sec x <= 59.

(** Times whose year has a representation as an int, from 1970. *)
Definition dated (t : Z) : Prop := 0 <= t < 2 ^ 55.

Lemma timegm_gmtime t : timegm (gmtime t) = t /\ valid (gmtime t).
Proof.
  unfold gmtime, timegm, valid. pose proof (days_from_civil_from_days (t / 86400)) as H.
  destruct (civil_from_days (t / 86400)) as [[y m] d]. destruct H as (Hm & Hd & Hdays & _).
  cbn [tm_year tm_mon tm_mday tm_hour tm_min tm_sec].
  replace (y - 1900 + 1900) with y by lia. replace (m - 1 + 1) with m by lia. rewrite Hdays.
  pose proof (Z.div_mod t 86400 ltac:(lia)). set (s := t mod 86400) in *.
  assert (0 <= s < 86400) by (apply Z.mod_pos_bound; lia). clearbody s.
  assert (s / 60 / 60 = s / 3600) by (rewrite Z.div_div; lia).
  pose proof (Z.div_mod s 60 ltac:(lia)). pose proof (Z.div_mod (s / 60) 60 ltac:(lia)).
  split; lia.
Qed.

Lemma gmtime_year t : dated t -> 0 <= tm_year (gmtime t) + 1900 < 2 ^ 31.
Proof.
  intros Ht. unfold dated in Ht. unfold gmtime. pose proof (days_from_civil_from_days (t / 86400)) as H.
  destruct (civil_from_days (t / 86400)) as [[y m] d]. destruct H as (_ & _ & _ & Hy).
  cbn [tm_year]. lia.
Qed.

(** ** Reading numbers *)

(** What may follow a number. *)
Definition ends_number (rest : bytes) : Prop :=
  match rest with [] => True | c :: _ => digit_value 10 c = None end.

Lemma digits_ends n rest : ends_number rest -> digits 10 n rest = (n, rest).
Proof. destruct rest as [|c rest]; simpl; [done|]. by intros ->. Qed.

Lemma dec_digits_acc fuel : forall n acc, dec_digits fuel n acc = dec_digits fuel n [] ++ acc.
Proof.
  induction fuel as [|fuel IH]; intros n acc; [done|]. cbn [dec_digits]. case_cond; [done|].
  rewrite IH, (IH _ [_]). by rewrite <- app_assoc.
Qed.

Lemma scan_digits c l rest n :
  48 <= uchar c <= 57 -> digits 10 0 ((c :: l) ++ rest) = (n, rest) -> scan_int ((c :: l) ++ rest) = Some (n, rest).
Proof.
  intros Hc Hd. unfold scan_int. rewrite <- app_comm_cons in *. rewrite skip_spaces_dec by (by left).
  replace (uchar c =? 45) with false by lia. replace (uchar c =? 43) with false by lia. cbn [orb].
  assert (Hv : digit_value 10 c = Some (uchar c - 48)).
  { unfold digit_value, isdigit, in_range. replace ((48 <=? uchar c) && (uchar c <=? 57)) with true by lia.
    by replace (uchar c - 48 <? 10) with true by lia. }
  rewrite Hv. by rewrite Hd.
Qed.

Lemma scan_to_string n rest :
  0 <= n <= 2 ^ 64 -> ends_number rest -> scan_int (to_string n ++ rest) = Some (n, rest).
Proof.
  intros Hn Hr. unfold to_string. replace (n <? 0) with false by lia.
  destruct (dec_text n Hn) as (c & l & E & Hc & _). rewrite E. apply scan_digits; [done|].
  rewrite <- E, <- dec_digits_acc, digits_dec by (by apply dec_fuel || lia). by apply digits_ends.
Qed.

Lemma scan_pad2 n rest : 0 <= n < 100 -> ends_number rest -> scan_int (pad2 n ++ rest) = Some (n, rest).
Proof.
  intros Hn Hr. unfold pad2. apply scan_digits; [rewrite uchar_digit by lia; lia|].
  cbn [app digits]. rewrite !digit_value_dec by lia. rewrite digits_ends by done. f_equal. lia.
Qed.

(** No character of a date ends a C string or is a space. *)
Definition dateable (s : bytes) : Prop := Forall (fun c => 43 <= uchar c <= 90) s.

Lemma pad2_dateable n : 0 <= n < 100 -> dateable (pad2 n).
Proof. intros Hn. unfold pad2. repeat constructor; rewrite uchar_digit by lia; lia. Qed.

Lemma to_string_dateable n : 0 <= n -> dateable (to_string n).
Proof.
  intros Hn. unfold to_string. replace (n <? 0) with false by lia.
  eapply Forall_impl; [apply dec_digits_chars; [done|constructor]|]. simpl. intros; lia.
Qed.

Lemma c_str_nonzero s : Forall (fun c => uchar c <> 0) s -> c_str s = s.
Proof.
  induction 1 as [|c s Hc _ IH]; [done|]. cbn [c_str]. replace (uchar c =? 0) with false by lia. by rewrite IH.
Qed.

Lemma dateable_app s t : dateable s -> dateable t -> dateable (s ++ t).
Proof. intros Hs Ht. by apply Forall_app. Qed.

Lemma date_dateable x : valid x -> 0 <= tm_year x + 1900 -> dateable (date_text x).
Proof.
  intros (? & ? & ? & ? & ?) Hy. unfold date_text.
  repeat apply dateable_app; try (apply pad2_dateable; lia); [by apply to_string_dateable| |];
    repeat constructor; vm_compute; intuition congruence.
Qed.

Lemma time_dateable x : valid x -> dateable (time_text x).
Proof.
  intros (? & ? & ? & ? & ?). unfold time_text.
  repeat apply dateable_app; try (apply pad2_dateable; lia); repeat constructor; vm_compute; intuition congruence.
Qed.

Lemma dateable_not_space s : dateable s -> " "%char ∉ s.
Proof.
  intros Hs Hin. pose proof (proj1 (Forall_forall _ _) Hs _ Hin) as Hc. simpl in Hc.
  change (uchar " "%char) with 32 in Hc. lia.
Qed.

Lemma dateable_nonzero s : dateable s -> Forall (fun c => uchar c <> 0) s.
Proof. intros Hs. eapply Forall_impl; [exact Hs|]. simpl. intros; lia. Qed.

(** ** Reading dates *)

Section Read.
  Context (scan_float : bytes -> option (Z * bytes)) (mktime : tm -> Z) (timezone : Z).

  (** %f reads two digits before an offset or the letter of UTC. *)
  Hypothesis float_digits : forall n c rest,
    0 <= n < 60 -> c = "Z"%char \/ c = "+"%char \/ c = "-"%char ->
    scan_float (pad2 n ++ c :: rest) = Some (n, c :: rest).

  (** mktime with tm_isdst 0 takes standard time, which is [timezone] seconds
      behind UTC. *)
  Hypothesis mktime_standard : forall x, valid x -> mktime x = timegm x + timezone.

Lemma sscanf_lit c fmt s : sscanf scan_float (Lit c :: fmt) (c :: s) = sscanf scan_float fmt s.
Proof using Type. cbn [sscanf]. by rewrite decide_True. Qed.

Lemma skip_spaces_twice s : skip_spaces (skip_spaces s) = skip_spaces s.
Proof using Type.
  induction s as [|c s IH]; [done|]. cbn [skip_spaces]. destruct (isspace c) eqn:E; [done|].
  cbn [skip_spaces]. by rewrite E.
Qed.

Lemma sscanf_space fmt s : sscanf scan_float (Space :: Int :: fmt) (" "%char :: s) = sscanf scan_float (Int :: fmt) s.
Proof using Type.
  cbn [sscanf]. change (skip_spaces (" "%char :: s)) with (skip_spaces s). unfold scan_int.
  by rewrite skip_spaces_twice.
Qed.

Lemma sscanf_date x fmt rest :
  valid x -> 0 <= tm_year x + 1900 < 2 ^ 31 -> ends_number rest ->
  sscanf scan_float (Int :: Lit "-" :: Int :: Lit "-" :: Int :: fmt) (date_text x ++ rest) =
  tm_year x + 1900 :: tm_mon x + 1 :: tm_mday x :: sscanf scan_float fmt rest.
Proof using Type.
  intros (Hmon & Hday & _) Hy Hr. unfold date_text. rewrite <- !app_assoc. cbn [sscanf].
  rewrite scan_to_string by (lia || done). cbn [app str String.list_ascii_of_string]. rewrite decide_True by done.
  rewrite scan_pad2 by (lia || done). rewrite decide_True by done. by rewrite scan_pad2 by (lia || done).
Qed.

Lemma sscanf_time x fmt rest :
  valid x ->
  sscanf scan_float (Int :: Lit ":" :: Int :: Lit ":" :: fmt) (time_text x ++ rest) =
  tm_hour x :: tm_min x :: sscanf scan_float fmt (pad2 (tm_sec x) ++ rest).
Proof using Type.
  intros (_ & _ & Hh & Hm & _). unfold time_text. rewrite <- !app_assoc. cbn [sscanf].
  rewrite scan_pad2 by (lia || done). cbn [app str String.list_ascii_of_string]. rewrite decide_True by done.
  rewrite scan_pad2 by (lia || done). by rewrite decide_True by done.
Qed.

Lemma tm_of_members x more s :
  s = tm_sec x ->
  tm_of (tm_year x + 1900 :: tm_mon x + 1 :: tm_mday x :: tm_hour x :: tm_min x :: more) s = x.
Proof using Type. intros ->. unfold tm_of. cbn [nth]. destruct x. cbn. f_equal; lia. Qed.

(** The date and time in ISO form, before what follows the seconds. *)
Definition iso_text (t : Z) : bytes := date_text (gmtime t) ++ str "T" ++ time_text (gmtime t).

Lemma fromISO_iso t c rest :
  dated t -> c = "Z"%char \/ c = "+"%char \/ c = "-"%char -> dateable rest ->
  fromISOTimeStr scan_float mktime timezone (iso_text t ++ c :: rest) = Ret t.
Proof using Type*.
  intros Ht Hc Hrest. destruct (timegm_gmtime t) as [Htg Hv]. pose proof (gmtime_year t Ht) as Hy.
  assert (Hdt : dateable (iso_text t ++ c :: rest)).
  { unfold iso_text. rewrite <- !app_assoc. apply dateable_app; [apply date_dateable; [done|lia]|].
    apply dateable_app; [|apply dateable_app; [by apply time_dateable|]].
    - repeat constructor; vm_compute; intuition congruence.
    - constructor; [|done]. destruct Hc as [->|[->| ->]]; vm_compute; intuition congruence. }
  unfold fromISOTimeStr. rewrite bool_decide_false by (by apply dateable_not_space).
  rewrite bool_decide_true
    by (apply elem_of_app; left; apply elem_of_app; right; apply elem_of_app; left; by left).
  rewrite c_str_nonzero by (by apply dateable_nonzero). unfold iso_text, iso_format. rewrite <- !app_assoc.
  rewrite sscanf_date by done. cbn [app str String.list_ascii_of_string]. rewrite sscanf_lit.
  rewrite sscanf_time by done. destruct Hv as (Hmon & Hday & Hh & Hm & Hs).
  cbn [sscanf]. rewrite float_digits by (lia || done). cbn [nth_error].
  rewrite tm_of_members by done. rewrite mktime_standard by done. f_equal. lia.
Qed.


(** The offset from UTC that a text carries is scanned and not applied: ten
    o'clock at +02:00 and at -05:00 are read as ten o'clock in UTC. *)
Theorem datetime_offset_is_ignored t sign hours :
  dated t -> sign = "+"%char \/ sign = "-"%char -> 0 <= hours < 24 ->
  fromISOTimeStr scan_float mktime timezone (iso_text t ++ sign :: pad2 hours ++ str ":00") = Ret t.
Proof using Type*.
  intros Ht Hs Hh. apply fromISO_iso; [done|tauto|]. apply dateable_app; [apply pad2_dateable; lia|].
  repeat constructor; vm_compute; intuition congruence.
Qed.

(** The text of the local time is read as UTC: the result is behind by the
    time zone. *)
Theorem datetime_local_text_is_read_as_utc t :
  dated (t - timezone) ->
  fromISOTimeStr scan_float mktime timezone (getPlainLclTimeStr timezone t) = Ret (t - timezone).
Proof using mktime_standard.
  clear float_digits. intros Ht. destruct (timegm_gmtime (t - timezone)) as [Htg Hv]. pose proof (gmtime_year _ Ht) as Hy.
  unfold getPlainLclTimeStr. set (x := gmtime (t - timezone)) in *. unfold fromISOTimeStr.
  rewrite bool_decide_true by (apply elem_of_app; right; apply elem_of_app; left; by left). rewrite c_str_nonzero.
  - unfold plain_format. rewrite sscanf_date by done. cbn [app str String.list_ascii_of_string].
    rewrite sscanf_space, <- (app_nil_r (time_text x)), sscanf_time by done.
    destruct (id Hv) as (_ & _ & _ & _ & Hs). cbn [sscanf]. rewrite scan_pad2 by (lia || done). cbn [nth].
    rewrite tm_of_members by done. rewrite mktime_standard by done. f_equal. lia.
  - apply Forall_app. split; [apply dateable_nonzero, date_dateable; [done|lia]|].
    apply Forall_app. split; [|by apply dateable_nonzero, time_dateable].
    repeat constructor. vm_compute. congruence.
Qed.

End Read.

(** A text with the letter T and no seconds makes the function use a float
    that nothing has assigned. *)
Theorem datetime_without_seconds scan_float mktime timezone :
  fromISOTimeStr scan_float mktime timezone (str "2024-01-01T10:30") = Exc (undefined "value of s").
Proof. vm_compute. reflexivity. Qed.

(** ** Witnesses: two digits, and a zone one hour ahead of UTC *)

Definition sample_float : bytes -> option (Z * bytes) := scan_int.
Definition sample_mktime (x : tm) : Z := timegm x + -3600.

Lemma sample_float_digits n c rest :
  0 <= n < 60 -> c = "Z"%char \/ c = "+"%char \/ c = "-"%char ->
  sample_float (pad2 n ++ c :: rest) = Some (n, c :: rest).
Proof. intros Hn Hc. apply scan_pad2; [lia|]. by destruct Hc as [->|[->| ->]]. Qed.

Lemma sample_mktime_standard x : valid x -> sample_mktime x = timegm x + -3600.
Proof. done. Qed.


Lemma datetime_offset_is_ignored_witness :
  fromISOTimeStr sample_float sample_mktime (-3600) (iso_text 1709210096 ++ "+"%char :: pad2 2 ++ str ":00") =
  Ret 1709210096.
Proof.
  apply (datetime_offset_is_ignored _ _ _ sample_float_digits sample_mktime_standard 1709210096);
    [unfold dated; lia|by left|lia].
Defined.

Lemma datetime_local_text_is_read_as_utc_witness :
  fromISOTimeStr sample_float sample_mktime (-3600) (getPlainLclTimeStr (-3600) 1709210096) = Ret (1709210096 - -3600).
Proof.
  apply (datetime_local_text_is_read_as_utc sample_float _ _ sample_mktime_standard 1709210096).
  unfold dated. lia.
Defined.
