(* ===== verification/Vars.v ===== *)
(** * Typed variables: Memory/a_var.cpp and the classes of its variables

    A variable has the type it declares (m_varType, which setVarType changes)
    and the class it was made with, the constructor of [payload]. The virtual
    members are functions on the class. Dates, addresses and lists of strings
    are in the files of their own; the text of a double and of an IPv6 address
    and the contents of fresh memory are parameters. *)

From S2P Require Import Prelude SafeInt CText ByteOrder Mem Encoders StringList IPV4 MACADDR Datetime.

(** Var::Type *)
Inductive Type_ : Type :=
| TYPE_BOOL | TYPE_INT8 | TYPE_INT16 | TYPE_INT32 | TYPE_INT64
| TYPE_UINT8 | TYPE_UINT16 | TYPE_UINT32 | TYPE_UINT64
| TYPE_DOUBLE | TYPE_BIN | TYPE_STRING | TYPE_VARCHAR | TYPE_STRINGLIST
| TYPE_IPV4 | TYPE_IPV6 | TYPE_MACADDR | TYPE_PTR | TYPE_DATETIME | TYPE_NULL.

#[export] Instance Type_eq_dec : EqDecision Type_.
Proof. solve_decision. Defined.

(** ** Integers: one class for each width *)

Definition INT8_t := Signed 8.
Definition INT16_t := Signed 16.
Definition INT32_t := Signed 32.
Definition INT64_t := Signed 64.
Definition UINT8_t := Unsigned 8.
Definition UINT16_t := Unsigned 16.
Definition UINT32_t := Unsigned 32.
Definition UINT64_t := Unsigned 64.

(** The text, with strtol or strtoul converted to the type; the answer and the
    new value. *)
Definition int_fromString (T : ity) (value : bytes) : bool * Z :=
  if bool_decide (value = []) then (true, 0)
  else
    let m_value := cast T (match T with Signed _ => strtol value | Unsigned _ => strtoul10 value end) in
    if negb (bool_decide (value = str "0")) && (m_value =? 0) then (false, m_value)
    else (true, m_value).

Definition INT8_fromString := int_fromString INT8_t.
Definition INT16_fromString := int_fromString INT16_t.
Definition INT32_fromString := int_fromString INT32_t.
Definition INT64_fromString := int_fromString INT64_t.
Definition UINT8_fromString := int_fromString UINT8_t.
Definition UINT16_fromString := int_fromString UINT16_t.
Definition UINT32_fromString := int_fromString UINT32_t.
Definition UINT64_fromString := int_fromString UINT64_t.

Definition UINT64_getIValueTruncatedOrZero (m_value : Z) : Z :=
  if m_value <=? 2 ^ 63 - 1 then m_value else 0.

(** ** BOOL *)

Definition BOOL_toString (m_value : bool) : bytes := if m_value then str "true" else str "false".

Definition BOOL_fromString (value : bytes) : bool * bool :=
  (true, bool_decide (value = str "true") || bool_decide (value = str "TRUE") || bool_decide (value = str "1")
         || bool_decide (value = str "t") || bool_decide (value = str "T")).

(** ** VARCHAR: an area of m_varSize + 1 bytes *)

Record VARCHAR := mkVARCHAR { m_wasTruncated : bool; m_varSize : Z; v_memory : bytes }.

(** Writing [new] at [d]. *)
Definition poke (d : Z) (new m : bytes) : bytes := splice d new m.

(** [malloc varSize + 1], and the terminator. *)
Definition VARCHAR_new (malloc : Z -> bytes) (varSize : Z) : VARCHAR :=
  mkVARCHAR false varSize (poke varSize [chr 0] (malloc (varSize + 1))).

(** The copy of [szVar] bytes of [value], cut to the size of the variable. *)
Definition VARCHAR_copy (szVar : Z) (value : bytes) (v : VARCHAR) : bool * VARCHAR :=
  let truncated := szVar >? m_varSize v in
  let szVar := if truncated then m_varSize v else szVar in
  let memory := if szVar >? 0 then poke 0 (ztake szVar value) (poke szVar [chr 0] (v_memory v))
                else poke 0 [chr 0] (v_memory v) in
  (negb truncated, mkVARCHAR truncated (m_varSize v) memory).

Definition VARCHAR_fromString (value : bytes) (v : VARCHAR) : bool * VARCHAR :=
  VARCHAR_copy (zlen value) value v.

(** setValue of a null-terminated string; strnlen stops after m_varSize + 1. *)
Definition VARCHAR_setValue (value : bytes) (v : VARCHAR) : bool * VARCHAR :=
  VARCHAR_copy (Z.min (zlen (c_str value)) (m_varSize v + 1)) value v.

Definition VARCHAR_toString (v : VARCHAR) : bytes := c_str (v_memory v).

(** ** BINARY *)

(** sBinContainer: the area and its declared size. *)
Record sBinContainer := mkBin { ptr : option bytes; dataSize : Z }.

(** The [n] bytes read from a pointer. *)
Definition read_area (p : option bytes) (n : Z) : res bytes :=
  match p with
  | None => if n =? 0 then Ret [] else Exc (undefined "read of a null pointer")
  | Some m => if n <=? zlen m then Ret (ztake n m) else Exc (undefined "read past the end")
  end.

Definition BINARY_toString (m_value : sBinContainer) : res bytes := read_area (ptr m_value) (dataSize m_value).

(** The size of the container stays what it was. *)
Definition BINARY_fromString (value : bytes) (m_value : sBinContainer) : bool * sBinContainer :=
  (true, mkBin (Some (value ++ [chr 0])) (dataSize m_value)).

Definition BINARY_setValue (value : sBinContainer) : res (bool * sBinContainer) :=
  res_bind (read_area (ptr value) (dataSize value)) (fun area => Ret (true, mkBin (Some area) (dataSize value))).

(** ** PTR: m_value is the address *)

(** strtol(s, nullptr, 16) *)
Definition strtol16 (s : bytes) : Z :=
  let s := skip_spaces (c_str s) in
  let negative := match s with c :: _ => uchar c =? 45 | [] => false end in
  let s := match s with
           | c :: s' => if (uchar c =? 45) || (uchar c =? 43) then s' else s
           | [] => []
           end in
  match s with
  | d :: _ =>
      match digit_value 16 d, strtoul 16 s with
      | Some _, Some (n, _) => if negative then Z.max (- 2 ^ 63) (- n) else Z.min (2 ^ 63 - 1) n
      | _, _ => 0
      end
  | [] => 0
  end.

(** The conversion %lX of a number of [n] digits. *)
Fixpoint hex_digits (n : nat) (x : Z) (acc : bytes) : bytes :=
  match n with
  | O => acc
  | S n => hex_digits n (x / 16) (hex_digit (x mod 16) :: acc)
  end.
Definition hex_count (x : Z) : nat := if x <? 1 then 1%nat else S (Z.to_nat (Z.log2 x / 4)).

(** %.8lX *)
Definition PTR_toString (m_value : Z) : bytes := hex_digits (Nat.max 8 (hex_count m_value)) m_value [].

Definition PTR_fromString (value : bytes) : bool * Z :=
  if bool_decide (value = []) then (true, 0) else (true, u64 (strtol16 value)).

(** ** The variables *)

Section Vars.
  (** The byte order; inet_pton for both families and inet_ntop for IPv6; the
      conversion %f, mktime and timezone of the dates; the doubles with
      std::stod, which may throw, and std::to_string; fresh memory. *)
  Variables (big_endian : bool) (inet_pton : bytes -> option bytes)
    (inet_pton6 : bytes -> option bytes) (inet_ntop6 : bytes -> bytes)
    (scan_float : bytes -> option (Z * bytes)) (mktime : tm -> Z) (timezone : Z)
    (double : Type) (zero : double) (stod : bytes -> res double) (dtoa : double -> bytes)
    (malloc : Z -> bytes).

Inductive payload : Type :=
| P_NULL
| P_BOOL (m_value : bool)
| P_INT (T : ity) (m_value : Z)
| P_DOUBLE (m_value : double)
| P_BIN (m_value : sBinContainer)
| P_STRING (m_value : bytes)
| P_VARCHAR (v : VARCHAR)
| P_STRINGLIST (m_value : list bytes)
| P_IPV4 (v : IPV4)
| P_IPV6 (m_value : bytes)
| P_MACADDR (m_macaddr : bytes)
| P_PTR (m_value : Z)
| P_DATETIME (m_value : Z).

Record Var := mkVar { m_varType : Type_; value : payload }.

Definition getVarType (v : Var) : Type_ := m_varType v.
Definition setVarType (t : Type_) (v : Var) : Var := mkVar t (value v).

(** IPV6::_fromString and _toString; an in6_addr is its sixteen bytes. *)
Definition zero6 : bytes := replicate 16 (chr 0).
Definition IPV6_fromString (v : bytes) : bytes * bool :=
  if bool_decide (v = []) then (zero6, true)
  else match inet_pton6 (c_str v) with Some a => (a, true) | None => (zero6, false) end.

(** The virtual members toString and fromString. *)
Definition toString (v : Var) : res bytes :=
  match value v with
  | P_NULL => Ret []
  | P_BOOL b => Ret (BOOL_toString b)
  | P_INT _ z => Ret (to_string z)
  | P_DOUBLE d => Ret (dtoa d)
  | P_BIN c => BINARY_toString c
  | P_STRING s => Ret s
  | P_VARCHAR c => Ret (VARCHAR_toString c)
  | P_STRINGLIST l => Ret (StringList.toString l)
  | P_IPV4 a => fst (IPV4.toString big_endian a)
  | P_IPV6 a => Ret (inet_ntop6 a)
  | P_MACADDR m => Ret (MACADDR._toString m)
  | P_PTR p => Ret (PTR_toString p)
  | P_DATETIME t => fst (Datetime.toString t)
  end.

(** The answer and the new payload of a class. *)
Definition class_fromString (text : bytes) (p : payload) : res (bool * payload) :=
  let ok {A} (r : bool * A) (f : A -> payload) : res (bool * payload) := Ret (fst r, f (snd r)) in
  let run {A} (r : res bool * A) (f : A -> payload) : res (bool * payload) :=
    res_bind (fst r) (fun b => Ret (b, f (snd r))) in
  match p with
  | P_NULL => Ret (true, P_NULL)
  | P_BOOL _ => ok (BOOL_fromString text) P_BOOL
  | P_INT T _ => ok (int_fromString T text) (P_INT T)
  | P_DOUBLE _ => res_bind (stod text) (fun d => Ret (true, P_DOUBLE d))
  | P_BIN c => ok (BINARY_fromString text c) P_BIN
  | P_STRING _ => Ret (true, P_STRING text)
  | P_VARCHAR c => ok (VARCHAR_fromString text c) P_VARCHAR
  | P_STRINGLIST _ => res_bind (StringList.fromString text) (fun l => Ret (true, P_STRINGLIST l))
  | P_IPV4 a => run (IPV4.fromString big_endian inet_pton text a) P_IPV4
  | P_IPV6 _ => let (a, r) := IPV6_fromString text in Ret (r, P_IPV6 a)
  | P_MACADDR m => run (MACADDR.fromString text m) P_MACADDR
  | P_PTR _ => ok (PTR_fromString text) P_PTR
  | P_DATETIME t => run (Datetime.fromString scan_float mktime timezone text t) P_DATETIME
  end.

Definition fromString (text : bytes) (v : Var) : res (bool * Var) :=
  res_bind (class_fromString text (value v)) (fun r => Ret (fst r, mkVar (m_varType v) (snd r))).

(** The default constructors. *)
Definition new_var (type : Type_) (size : Z) : option Var :=
  match type with
  | TYPE_NULL => Some (mkVar TYPE_NULL P_NULL)
  | TYPE_BOOL => Some (mkVar TYPE_BOOL (P_BOOL false))
  | TYPE_INT8 => Some (mkVar TYPE_INT8 (P_INT INT8_t 0))
  | TYPE_INT16 => Some (mkVar TYPE_INT16 (P_INT INT16_t 0))
  | TYPE_INT32 => Some (mkVar TYPE_INT32 (P_INT INT32_t 0))
  | TYPE_INT64 => Some (mkVar TYPE_INT64 (P_INT INT64_t 0))
  | TYPE_UINT8 => Some (mkVar TYPE_UINT8 (P_INT UINT8_t 0))
  | TYPE_UINT16 => Some (mkVar TYPE_UINT16 (P_INT UINT16_t 0))
  | TYPE_UINT32 => Some (mkVar TYPE_UINT32 (P_INT UINT32_t 0))
  | TYPE_UINT64 => Some (mkVar TYPE_UINT64 (P_INT UINT64_t 0))
  | TYPE_DOUBLE => Some (mkVar TYPE_DOUBLE (P_DOUBLE zero))
  | TYPE_DATETIME => Some (mkVar TYPE_DATETIME (P_DATETIME 0))
  | TYPE_BIN => Some (mkVar TYPE_BIN (P_BIN (mkBin None 0)))
  | TYPE_STRING => Some (mkVar TYPE_STRING (P_STRING []))
  | TYPE_STRINGLIST => Some (mkVar TYPE_STRINGLIST (P_STRINGLIST []))
  | TYPE_IPV4 => Some (mkVar TYPE_IPV4 (P_IPV4 (mkIPV4 0 32)))
  | TYPE_MACADDR => Some (mkVar TYPE_MACADDR (P_MACADDR (replicate 6 (chr 0))))
  | TYPE_IPV6 => Some (mkVar TYPE_IPV6 (P_IPV6 zero6))
  | TYPE_VARCHAR => Some (mkVar TYPE_VARCHAR (P_VARCHAR (VARCHAR_new malloc (size + 1024))))
  | TYPE_PTR => None
  end.

(** INT8(const int8_t &), which declares another type. *)
Definition INT8_new (z : Z) : Var := mkVar TYPE_INT64 (P_INT INT8_t z).

(** makeAbstract: the pointer, after fromString, whose answer is dropped. *)
Definition makeAbstract (type : Type_) (defValue : bytes) : res (option Var) :=
  match new_var type (zlen defValue) with
  | Some v => res_bind (fromString defValue v) (fun r => Ret (Some (snd r)))
  | None => Ret None
  end.

(** protectedCopy of the class, which declares its own type. *)
Definition protectedCopy (v : Var) : res Var :=
  match value v with
  | P_NULL => Ret (mkVar TYPE_NULL P_NULL)
  | P_BOOL b => Ret (mkVar TYPE_BOOL (P_BOOL b))
  | P_INT T z =>
      let t := match T with
               | Signed 8 => TYPE_INT8 | Signed 16 => TYPE_INT16 | Signed 32 => TYPE_INT32 | Signed _ => TYPE_INT64
               | Unsigned 8 => TYPE_UINT8 | Unsigned 16 => TYPE_UINT16 | Unsigned 32 => TYPE_UINT32
               | Unsigned _ => TYPE_UINT64
               end in Ret (mkVar t (P_INT T z))
  | P_DOUBLE d => Ret (mkVar TYPE_DOUBLE (P_DOUBLE d))
  | P_BIN c => res_bind (BINARY_setValue c) (fun r => Ret (mkVar TYPE_BIN (P_BIN (snd r))))
  | P_STRING s => Ret (mkVar TYPE_STRING (P_STRING s))
  | P_VARCHAR c =>
      Ret (mkVar TYPE_VARCHAR (P_VARCHAR (snd (VARCHAR_setValue (v_memory c) (VARCHAR_new malloc (m_varSize c))))))
  | P_STRINGLIST l => Ret (mkVar TYPE_STRINGLIST (P_STRINGLIST l))
  | P_IPV4 a => Ret (mkVar TYPE_IPV4 (P_IPV4 a))
  | P_IPV6 a => Ret (mkVar TYPE_IPV6 (P_IPV6 a))
  | P_MACADDR m => Ret (mkVar TYPE_MACADDR (P_MACADDR m))
  | P_PTR p => Ret (mkVar TYPE_PTR (P_PTR p))
  | P_DATETIME t => Ret (mkVar TYPE_DATETIME (P_DATETIME t))
  end.

Definition copy (v : Var) : res Var :=
  res_bind (protectedCopy v) (fun var => Ret (setVarType (getVarType v) var)).

End Vars.

Arguments P_NULL {double}.
Arguments P_BOOL {double} m_value.
Arguments P_INT {double} T m_value.
Arguments P_DOUBLE {double} m_value.
Arguments P_BIN {double} m_value.
Arguments P_STRING {double} m_value.
Arguments P_VARCHAR {double} v.
Arguments P_STRINGLIST {double} m_value.
Arguments P_IPV4 {double} v.
Arguments P_IPV6 {double} m_value.
Arguments P_MACADDR {double} m_macaddr.
Arguments P_PTR {double} m_value.
Arguments P_DATETIME {double} m_value.
Arguments mkVar {double} m_varType value.
Arguments m_varType {double} v.
Arguments value {double} v.
Arguments getVarType {double} v.
Arguments setVarType {double} t v.
