(* ===== verification/VarsSpec.v ===== *)
(** * Typed variables: their types, and what text gives *)

From S2P Require Import Prelude SafeInt CText ByteOrder Mem Encoders StringList IPV4 MACADDR Datetime Vars.

(** ** Integers *)

(** The integer classes have from 8 to 64 bits. *)
Definition int_class (T : ity) : Prop :=
  In T [INT8_t; INT16_t; INT32_t; INT64_t; UINT8_t; UINT16_t; UINT32_t; UINT64_t].

Lemma int_class_width T : int_class T -> 1 <= width T <= 64.
Proof. intros H. repeat destruct H as [<-|H]; simpl; try lia. done. Qed.

Lemma cast_in_type T z : 1 <= width T -> in_type T (cast T z).
Proof.
  intros Hw. pose proof (width_pow T Hw) as [Hp E]. destruct T as [w|w]; simpl in *; unfold in_type; simpl.
  - pose proof (Z.mod_pos_bound (z + 2 ^ (w - 1)) (2 ^ w)). lia.
  - pose proof (Z.mod_pos_bound z (2 ^ w)). lia.
Qed.

Lemma int_fromString_in_type T s : int_class T -> in_type T (snd (int_fromString T s)).
Proof.
  intros HT%int_class_width. unfold int_fromString. case_bool_decide as Hs.
  - simpl. pose proof (type_bounds T ltac:(lia)) as [H _]. exact H.
  - destruct (negb _ && _); apply cast_in_type; lia.
Qed.

(** What strtol and strtoul tell apart. *)
Definition readable (T : ity) (z : Z) : Prop :=
  match T with Signed _ => - 2 ^ 63 <= z <= 2 ^ 63 - 1 | Unsigned _ => 0 <= z <= 2 ^ 64 - 1 end.

Lemma int_fromString_text T z :
  readable T z ->
  int_fromString T (to_string z) =
  (negb (cast T z =? 0) || bool_decide (to_string z = str "0"), cast T z).
Proof.
  intros Hz. unfold int_fromString. rewrite bool_decide_false by apply to_string_nonempty.
  assert (E : match T with Signed _ => strtol (to_string z) | Unsigned _ => strtoul10 (to_string z) end = z).
  { destruct T; simpl in Hz; [by apply strtol_to_string|by apply strtoul_to_string]. }
  rewrite E. by destruct (bool_decide _), (cast T z =? 0).
Qed.

(** A number in the range of an integer variable is read back from its
    text; one out of the range is accepted and wrapped, unless it wraps to 0. *)
Theorem integer_text T z :
  int_class T -> readable T z ->
  (in_type T z -> int_fromString T (to_string z) = (true, z)) /\
  (~ in_type T z -> int_fromString T (to_string z) = (negb (cast T z =? 0), cast T z)).
Proof.
  intros HT Hz. rewrite int_fromString_text by done. apply int_class_width in HT. split; intros Hin.
  - rewrite cast_id by (lia || done). destruct (z =? 0) eqn:E; [|done]. zbool. by subst.
  - rewrite bool_decide_false; [by rewrite orb_false_r|]. intros E0.
    assert (E : z = 0); [|subst; pose proof (type_bounds T ltac:(lia)) as [H _]; by apply Hin].
    destruct T; simpl in Hz.
    + rewrite <- (strtol_to_string z) by done. by rewrite E0.
    + rewrite <- (strtoul_to_string z) by done. by rewrite E0.
Qed.

Lemma integer_text_witness :
  (in_type INT8_t 300 -> int_fromString INT8_t (to_string 300) = (true, 300)) /\
  (~ in_type INT8_t 300 -> int_fromString INT8_t (to_string 300) = (negb (cast INT8_t 300 =? 0), cast INT8_t 300)).
Proof. apply (integer_text INT8_t 300); [by left|split; reflexivity || lia]. Defined.

(** ** VARCHAR *)

(** The area has the size and its terminator. *)
Definition varchar_ok (v : VARCHAR) : Prop :=
  0 <= m_varSize v /\ zlen (v_memory v) = m_varSize v + 1 /\ zdrop (m_varSize v) (v_memory v) = [chr 0].

Lemma zlen_poke d new m : 0 <= d -> d + zlen new <= zlen m -> zlen (poke d new m) = zlen m.
Proof.
  intros Hd Hm. unfold poke, splice. rewrite !zlen_app, zlen_ztake, zlen_zdrop.
  pose proof (zlen_nonneg new). lia.
Qed.

Lemma poke_0 new m : poke 0 new m = new ++ zdrop (zlen new) m.
Proof. unfold poke, splice. by rewrite ztake_le0, Z.add_0_l by lia. Qed.

Lemma c_str_prefix m : exists rest, m = c_str m ++ rest /\ c_str (c_str m) = c_str m.
Proof.
  induction m as [|c m (rest & E & Hc)]; [by exists []|]. cbn [c_str]. destruct (uchar c =? 0) eqn:E0.
  - by exists (c :: m).
  - exists rest. cbn [app c_str]. rewrite E0, Hc. by rewrite <- E.
Qed.

Lemma VARCHAR_copy_spec n s v :
  varchar_ok v -> 0 <= n <= zlen s ->
  let '(r, v') := VARCHAR_copy n s v in
  let size := m_varSize v in
  varchar_ok v' /\ m_varSize v' = size /\ r = (n <=? size) /\ m_wasTruncated v' = negb r /\
  VARCHAR_toString v' = c_str (ztake (Z.min n size) s).
Proof.
  intros (Hs & Hl & Hz) Hn. unfold VARCHAR_copy, VARCHAR_toString. set (size := m_varSize v) in *.
  set (k := if n >? size then size else n).
  assert (Ek : k = Z.min n size) by (unfold k; case_cond; zbool; lia).
  assert (Hk : 0 <= k <= size /\ k <= zlen s) by lia. clearbody k.
  assert (Hmem : exists rest, (if k >? 0 then poke 0 (ztake k s) (poke k [chr 0] (v_memory v)) else poke 0 [chr 0] (v_memory v)) =
            ztake k s ++ chr 0 :: rest /\ zdrop size (ztake k s ++ chr 0 :: rest) = [chr 0] /\
            zlen (ztake k s ++ chr 0 :: rest) = size + 1).
  { exists (zdrop (k + 1) (v_memory v)).
    assert (Hlen : zlen (ztake k s) = k) by (rewrite zlen_ztake; lia). split; [|split].
    - case_cond; zbool.
      + rewrite poke_0, Hlen. f_equal. unfold poke, splice. rewrite zdrop_app_ge by (rewrite zlen_ztake; lia).
        rewrite zlen_ztake. replace (k - Z.max 0 (Z.min k (zlen (v_memory v)))) with 0 by lia.
        rewrite zdrop_le0 by lia. done.
      + replace k with 0 by lia. rewrite poke_0, ztake_le0 by lia. done.
    - rewrite zdrop_app_ge by lia. rewrite Hlen. destruct (Z.eq_dec k size) as [->|Hne].
      + rewrite Z.sub_diag, zdrop_le0 by lia. f_equal. apply zdrop_ge. lia.
      + replace (size - k) with (size - k - 1 + 1) by lia. rewrite zdrop_succ by lia.
        rewrite zdrop_zdrop by lia. replace (k + 1 + (size - k - 1)) with size by lia. exact Hz.
    - rewrite zlen_app, zlen_cons, zlen_zdrop, Hlen. lia. }
  destruct Hmem as (rest & -> & Hd & Hlen). unfold varchar_ok. cbn [m_varSize v_memory m_wasTruncated].
  rewrite c_str_terminated, <- Ek. repeat split; try done.
  - lia.
  - by destruct (n >? size).
Qed.

(** A VARCHAR keeps the first bytes of a text, as many as its size, tells
    whether it cut, and stays terminated inside its area. *)
Theorem varchar_keeps_a_prefix s v :
  varchar_ok v ->
  let '(r, v') := VARCHAR_fromString s v in
  let size := m_varSize v in
  varchar_ok v' /\ m_varSize v' = size /\ r = (zlen s <=? size) /\ m_wasTruncated v' = negb r /\
  VARCHAR_toString v' = c_str (ztake size s).
Proof.
  intros Hv. pose proof (VARCHAR_copy_spec (zlen s) s v Hv) as H. unfold VARCHAR_fromString.
  destruct (VARCHAR_copy _ _ _) as [r v']. destruct H as (H1 & H2 & H3 & H4 & H5); [pose proof (zlen_nonneg s); lia|].
  split; [done|]. split; [done|]. split; [done|]. split; [done|]. rewrite H5. f_equal.
  destruct (Z_le_gt_dec (zlen s) (m_varSize v)); [rewrite Z.min_l by lia; rewrite !ztake_ge by lia|rewrite Z.min_r by lia]; done.
Qed.

(** An area of [n] bytes with nothing in it. *)
Definition blank (n : Z) : bytes := replicate (Z.to_nat n) (chr 255).

Lemma varchar_keeps_a_prefix_witness :
  let v := VARCHAR_new blank 4 in
  varchar_ok v /\
  let '(r, v') := VARCHAR_fromString (str "abcdef") v in
  let size := m_varSize v in
  varchar_ok v' /\ m_varSize v' = size /\ r = (zlen (str "abcdef") <=? size) /\ m_wasTruncated v' = negb r /\
  VARCHAR_toString v' = c_str (ztake size (str "abcdef")).
Proof.
  assert (H : varchar_ok (VARCHAR_new blank 4)) by (repeat split; vm_compute; congruence).
  split; [exact H|]. exact (varchar_keeps_a_prefix (str "abcdef") (VARCHAR_new blank 4) H).
Defined.

(** ** BINARY *)

(** After a text was read into a container of more bytes than the text has,
    toString reads past the end of the new area: the declared size is still
    that of the old one. In a new variable the size stays 0 and the text is
    lost. *)
Theorem binary_text_keeps_the_old_size s c :
  zlen s + 1 < dataSize c -> ptr c <> None ->
  BINARY_toString (snd (BINARY_fromString s c)) = Exc (undefined "read past the end") /\
  BINARY_toString (snd (BINARY_fromString s (mkBin None 0))) = Ret [].
Proof.
  intros Hs Hp. unfold BINARY_toString, BINARY_fromString, read_area. cbn [fst snd ptr dataSize].
  rewrite zlen_app. change (zlen [chr 0]) with 1. pose proof (zlen_nonneg s).
  replace (dataSize c <=? zlen s + 1) with false by lia. replace (0 <=? zlen s + 1) with true by lia.
  split; [done|]. by rewrite ztake_le0.
Qed.

Lemma binary_text_keeps_the_old_size_witness :
  let c := mkBin (Some (blank 8)) 8 in
  BINARY_toString (snd (BINARY_fromString (str "abc") c)) = Exc (undefined "read past the end") /\
  BINARY_toString (snd (BINARY_fromString (str "abc") (mkBin None 0))) = Ret [].
Proof. apply (binary_text_keeps_the_old_size (str "abc") (mkBin (Some (blank 8)) 8)); [reflexivity|discriminate]. Defined.

(** ** Types *)

Section Types.
  Context (big : bool) (pton : bytes -> option bytes) (pton6 : bytes -> option bytes)
    (scan_float : bytes -> option (Z * bytes)) (mktime : tm -> Z) (timezone : Z)
    {double : Type} (zero : double) (stod : bytes -> res double) (malloc : Z -> bytes).

  (** malloc gives as many bytes as it is asked for. *)
  Hypothesis malloc_size : forall n, 0 <= n -> zlen (malloc n) = n.

  Abbreviation make := (makeAbstract big pton pton6 scan_float mktime timezone double zero stod malloc).
  Abbreviation read := (fromString big pton pton6 scan_float mktime timezone double stod).
  Abbreviation copy_of := (copy double malloc).

(** The class that a declared type stands for: the class that a caller casts
    the pointer to once it has looked at getVarType. *)
Definition of_class (t : Type_) (p : payload double) : Prop :=
  match t, p with
  | TYPE_NULL, P_NULL => True
  | TYPE_BOOL, P_BOOL _ => True
  | TYPE_INT8, P_INT T z => T = INT8_t /\ in_type T z
  | TYPE_INT16, P_INT T z => T = INT16_t /\ in_type T z
  | TYPE_INT32, P_INT T z => T = INT32_t /\ in_type T z
  | TYPE_INT64, P_INT T z => T = INT64_t /\ in_type T z
  | TYPE_UINT8, P_INT T z => T = UINT8_t /\ in_type T z
  | TYPE_UINT16, P_INT T z => T = UINT16_t /\ in_type T z
  | TYPE_UINT32, P_INT T z => T = UINT32_t /\ in_type T z
  | TYPE_UINT64, P_INT T z => T = UINT64_t /\ in_type T z
  | TYPE_DOUBLE, P_DOUBLE _ => True
  | TYPE_BIN, P_BIN _ => True
  | TYPE_STRING, P_STRING _ => True
  | TYPE_VARCHAR, P_VARCHAR v => varchar_ok v
  | TYPE_STRINGLIST, P_STRINGLIST _ => True
  | TYPE_IPV4, P_IPV4 a => 0 <= m_cidrMask a <= 32
  | TYPE_IPV6, P_IPV6 _ => True
  | TYPE_MACADDR, P_MACADDR m => length m = 6%nat
  | TYPE_PTR, P_PTR _ => True
  | TYPE_DATETIME, P_DATETIME _ => True
  | _, _ => False
  end.

Definition well_typed (v : Var double) : Prop := of_class (getVarType v) (value v).

Lemma mac_fromString_length s : length (fst (MACADDR._fromString s)) = 6%nat.
Proof.
  assert (Hs : forall sep n s l, sscanf_hex sep n s = Some l -> length l = n).
  { intros sep n. induction n as [|n IH]; intros t l; cbn [sscanf_hex]; [intros [= <-]; done|].
    destruct (scan_hex2 t) as [[v rest]|]; [|done]. destruct n as [|n]; [intros [= <-]; done|].
    destruct rest as [|c rest]; [done|]. case_decide; [|done].
    destruct (sscanf_hex sep (S n) rest) as [k|] eqn:E; [|done]. intros [= <-]. simpl. f_equal. by apply (IH rest). }
  unfold MACADDR._fromString. destruct (sscanf_hex COLON _ _) as [l|] eqn:E1.
  - simpl. rewrite length_map. by eapply Hs.
  - destruct (sscanf_hex DASH _ _) as [l|] eqn:E2; simpl; [rewrite length_map; by eapply Hs|done].
Qed.

Lemma ipv4_mask_range s : 0 <= snd (fst (_fromStringWithNetmask big pton s)) <= 32.
Proof.
  unfold _fromStringWithNetmask. destruct (split_at SLASH s) as [[a b]|].
  - destruct (_ && _); [simpl; lia|]. case_cond; zbool; [simpl; lia|].
    destruct (IPV4._fromString big pton a) as [x ok]. simpl.
    pose proof (Z.mod_pos_bound (strtoul10 b) (2 ^ 8)). simpl in *. lia.
  - destruct (IPV4._fromString big pton s) as [x ok]. simpl. lia.
Qed.

Lemma res_bind_Ret {A B} (m : res A) (k : A -> res B) x :
  res_bind m k = Ret x -> exists a, m = Ret a /\ k a = Ret x.
Proof. destruct m as [a|e]; [|done]. by exists a. Qed.

Lemma class_fromString_typed t s p b p' :
  of_class t p -> class_fromString big pton pton6 scan_float mktime timezone double stod s p = Ret (b, p') -> of_class t p'.
Proof.
  assert (Hint : forall T z T', int_class T -> T = T' /\ in_type T z -> T = T' /\ in_type T (snd (int_fromString T s))).
  { intros T z T' HT [E _]. split; [done|by apply int_fromString_in_type]. }
  assert (Hv : forall v, varchar_ok v -> varchar_ok (snd (VARCHAR_fromString s v))).
  { intros v Hv. unfold VARCHAR_fromString. pose proof (VARCHAR_copy_spec (zlen s) s v Hv) as H.
    destruct (VARCHAR_copy _ _ _). apply H. pose proof (zlen_nonneg s). lia. }
  assert (Hm : forall m, of_class TYPE_MACADDR (P_MACADDR (snd (MACADDR.fromString s m)))).
  { intros m. pose proof (mac_fromString_length s) as Hl. unfold MACADDR.fromString.
    destruct (MACADDR._fromString s) as [x r]. simpl in *. rewrite length_take. unfold ETH_ALEN. lia. }
  assert (Hi : forall a, of_class TYPE_IPV4 (P_IPV4 (snd (IPV4.fromString big pton s a)))).
  { intros a. pose proof (ipv4_mask_range s) as Hr. unfold IPV4.fromString.
    destruct (_fromStringWithNetmask big pton s) as [[x m] r]. simpl in *. lia. }
  destruct p; cbn [class_fromString]; intros Ht E;
    try (apply res_bind_Ret in E as (? & _ & E); cbn beta in E); try (injection E as <- <-);
    destruct t; simpl in Ht; try done; simpl.
  all: try (apply (Hint _ m_value); [destruct Ht as [-> _]; unfold int_class; simpl; tauto|done]).
  all: try (by apply Hv); try apply Hi; try apply Hm.
  destruct (IPV6_fromString pton6 s). by injection E as <- <-.
Qed.

Lemma fromString_typed t v b v' :
  well_typed v -> read t v = Ret (b, v') -> well_typed v' /\ getVarType v' = getVarType v.
Proof.
  intros Hv E. apply res_bind_Ret in E as ([b' p'] & E & [= <- <-]). split; [|done].
  unfold well_typed. simpl. by eapply class_fromString_typed.
Qed.

Lemma VARCHAR_new_ok n : 0 <= n -> varchar_ok (VARCHAR_new malloc n).
Proof.
  intros Hn. unfold varchar_ok, VARCHAR_new. cbn [m_varSize v_memory].
  pose proof (malloc_size (n + 1) ltac:(lia)) as Hm.
  split; [done|]. split; [rewrite zlen_poke; [done|done|]; change (zlen [chr 0]) with 1; lia|].
  unfold poke, splice. rewrite zdrop_app_ge by (rewrite zlen_ztake; lia). rewrite zlen_ztake, Hm.
  replace (n - Z.max 0 (Z.min n (n + 1))) with 0 by lia. rewrite zdrop_le0 by lia.
  rewrite zdrop_ge; [done|]. change (zlen [chr 0]) with 1. lia.
Qed.

Lemma VARCHAR_duplicate v :
  varchar_ok v ->
  let w := snd (VARCHAR_setValue (v_memory v) (VARCHAR_new malloc (m_varSize v))) in
  varchar_ok w /\ VARCHAR_toString w = VARCHAR_toString v.
Proof.
  intros (Hs & Hl & Hz). pose proof (VARCHAR_new_ok (m_varSize v) Hs) as Hnew.
  destruct (c_str_prefix (v_memory v)) as (rest & Hm & Hc).
  assert (Hlen : zlen (c_str (v_memory v)) <= m_varSize v).
  { destruct (Z_le_gt_dec (zlen (c_str (v_memory v))) (m_varSize v)); [done|].
    assert (Hall : c_str (v_memory v) = v_memory v).
    { apply (f_equal zlen) in Hm as Hm'. rewrite zlen_app in Hm'. rewrite Hm at 2. rewrite (zlen_0_nil rest); [by rewrite app_nil_r|].
      pose proof (zlen_nonneg rest). lia. }
    exfalso. rewrite <- (ztake_zdrop (m_varSize v) (v_memory v)), Hz, c_str_terminated in Hall.
    apply (f_equal zlen) in Hall. rewrite zlen_app in Hall. change (zlen [chr 0]) with 1 in Hall.
    destruct (c_str_prefix (ztake (m_varSize v) (v_memory v))) as (r2 & Hr2 & _).
    apply (f_equal zlen) in Hr2. rewrite zlen_app in Hr2. pose proof (zlen_nonneg r2). lia. }
  pose proof (VARCHAR_copy_spec (Z.min (zlen (c_str (v_memory v))) (m_varSize v + 1)) (v_memory v) _ Hnew) as H.
  unfold VARCHAR_setValue. cbn [m_varSize VARCHAR_new] in *. destruct (VARCHAR_copy _ _ _) as [r w].
  destruct H as (H1 & _ & _ & _ & H5); [pose proof (zlen_nonneg (c_str (v_memory v))); lia|].
  split; [done|]. cbn [snd]. rewrite H5, !Z.min_l by lia. unfold VARCHAR_toString.
  rewrite Hm at 2. rewrite ztake_length_app. exact Hc.
Qed.

Lemma new_var_typed t n v : 0 <= n -> new_var double zero malloc t n = Some v -> well_typed v /\ getVarType v = t.
Proof.
  intros Hn. destruct t; intros [= <-]; split; try done; unfold well_typed; simpl; try (split; [done|]; vm_compute; intuition congruence); try lia.
  apply VARCHAR_new_ok. lia.
Qed.

Lemma protectedCopy_typed v v' :
  well_typed v -> protectedCopy double malloc v = Ret v' -> of_class (getVarType v) (value v').
Proof.
  intros Hv E. destruct v as [t p]. unfold well_typed in Hv. simpl in *.
  destruct p; cbn [protectedCopy value] in E; try (apply res_bind_Ret in E as (? & _ & E));
    try (injection E as <-); destruct t; simpl in *; try done.
  exact (proj1 (VARCHAR_duplicate v Hv)).
Qed.

(** The variables a program gets: from makeAbstract, read from a text, copied. *)
Inductive made : Var double -> Prop :=
| made_new t s v : make t s = Ret (Some v) -> made v
| made_read s v b v' : made v -> read s v = Ret (b, v') -> made v'
| made_copy v v' : made v -> copy_of v = Ret v' -> made v'.

Lemma make_typed t s v : make t s = Ret (Some v) -> well_typed v /\ getVarType v = t.
Proof.
  unfold makeAbstract. destruct (new_var double zero malloc t (zlen s)) as [v0|] eqn:E0; [|done].
  apply new_var_typed in E0 as [H0 Ht]; [|apply zlen_nonneg].
  intros ([b v'] & E & [= <-])%res_bind_Ret. simpl. apply fromString_typed in E as [H1 Et]; [|done].
  split; [done|]. congruence.
Qed.

(** C33: the object of a variable that makeAbstract made is of the class that its
    declared type stands for, through any readings and copies: the casts that
    callers do after looking at getVarType are sound. Objects that a constructor
    of a class makes directly are not part of it: INT8 with a value declares
    another type. *)
Theorem variables_are_well_typed v : made v -> well_typed v.
Proof.
  induction 1 as [t s v E|s v b v' _ IH E|v v' _ IH E].
  - by apply make_typed in E as [? _].
  - by apply fromString_typed in E as [? _].
  - apply res_bind_Ret in E as (c & E & [= <-]). apply protectedCopy_typed in E; [|done].
    unfold well_typed. simpl. by destruct c.
Qed.

(** MakeAbstract gives a variable of the type asked for; it gives no object
    for a pointer, and it throws for doubles and dates only. *)
Theorem makeAbstract_gives_the_type t s :
  match make t s with
  | Ret (Some v) => getVarType v = t /\ t <> TYPE_PTR
  | Ret None => t = TYPE_PTR
  | Exc _ => t = TYPE_DOUBLE \/ t = TYPE_DATETIME
  end.
Proof.
  destruct (make t s) as [[v|]|e] eqn:E.
  - split; [by apply make_typed in E as [_ ?]|]. by destruct t.
  - unfold makeAbstract in E. destruct t; try done; simpl in E; apply res_bind_Ret in E as (? & _ & [=]).
  - destruct t; try (by left); try (by right); exfalso; revert E; unfold makeAbstract; simpl; try done.
    + unfold fromString, class_fromString. simpl. destruct (fromString_returns s) as [l ->]. done.
    + unfold fromString, class_fromString. simpl. unfold IPV4.fromString.
      destruct (_fromStringWithNetmask big pton s) as [[? ?] ?]. done.
    + unfold fromString, class_fromString. simpl. destruct (IPV6_fromString pton6 s). done.
    + unfold fromString, class_fromString. simpl. unfold MACADDR.fromString. destruct (MACADDR._fromString s). done.
Qed.

(** A copy has the declared type, the class and the text of the variable. *)
Theorem copy_has_the_type_and_the_text (ntop6 : bytes -> bytes) (dtoa : double -> bytes) v v' :
  well_typed v -> copy_of v = Ret v' ->
  getVarType v' = getVarType v /\ well_typed v' /\
  toString big ntop6 double dtoa v' = toString big ntop6 double dtoa v.
Proof.
  intros Hv E. apply res_bind_Ret in E as (c & E & [= <-]). split; [done|].
  pose proof (protectedCopy_typed v c Hv E) as Ht. split; [by destruct c|].
  destruct v as [t p]. unfold protectedCopy in *. cbn [value] in *. destruct p; try (injection E as <-; reflexivity).
  - apply res_bind_Ret in E as ([r c'] & E & [= <-]). cbn [snd value setVarType]. unfold BINARY_setValue in E.
    apply res_bind_Ret in E as (area & E & [= <- <-]). unfold toString, BINARY_toString. cbn [setVarType value ptr dataSize]. rewrite E.
    unfold read_area in *. destruct (ptr m_value) as [m|].
    + destruct (dataSize m_value <=? zlen m) eqn:E1; [|done]. injection E as <-. zbool.
      rewrite zlen_ztake. replace (_ <=? _) with true by (pose proof (zlen_nonneg m); lia).
      by rewrite ztake_ztake, Z.min_id.
    + destruct (dataSize m_value =? 0) eqn:E1; [|done]. injection E as <-. zbool. by rewrite E1.
  - injection E as <-. destruct t; try done. cbn [setVarType value]. unfold toString. cbn [value]. f_equal.
    exact (proj2 (VARCHAR_duplicate v Hv)).
Qed.

(** An exception of stod leaves fromString: the handlers catch pointers. *)
Lemma double_text_throws s e : stod s = Exc e -> make TYPE_DOUBLE s = Exc e.
Proof. intros E. unfold makeAbstract, fromString. simpl. by rewrite E. Qed.

(** A variable made with the constructor of INT8 that takes a value is not
    of the class that it declares. *)
Theorem int8_with_a_value_is_mistyped z : ~ well_typed (INT8_new double z).
Proof. unfold well_typed. simpl. by intros [[=] _]. Qed.

End Types.

(** ** Witnesses: doubles that are integers *)

Definition sample_stod (s : bytes) : res Z :=
  if bool_decide (s = []) then Exc (invalid_argument "stod") else Ret (strtol s).

Abbreviation sample_make := (makeAbstract false (fun _ => None) (fun _ => None) (fun s => scan_int s)
  (fun x => timegm x) 0 Z 0 sample_stod blank).

Lemma blank_size n : 0 <= n -> zlen (blank n) = n.
Proof. intros Hn. unfold zlen, blank. rewrite length_replicate. lia. Qed.

Abbreviation sample_made := (made false (fun _ => None) (fun _ => None) (fun s => scan_int s)
  (fun x => timegm x) 0 0 sample_stod blank).

Lemma variables_are_well_typed_witness :
  sample_made (mkVar TYPE_INT16 (P_INT INT16_t (-7))) /\ well_typed (mkVar TYPE_INT16 (P_INT INT16_t (-7)) : Var Z).
Proof.
  assert (H : sample_made (mkVar TYPE_INT16 (P_INT INT16_t (-7)))).
  { eapply (made_read _ _ _ _ _ _ _ _ _ (str "-7") (mkVar TYPE_INT16 (P_INT INT16_t 65))); [|reflexivity].
    apply (made_new _ _ _ _ _ _ _ _ _ TYPE_INT16 (str "65")). reflexivity. }
  split; [exact H|].
  eapply variables_are_well_typed; [exact blank_size|exact H].
Defined.

Lemma makeAbstract_gives_the_type_witness :
  match sample_make TYPE_VARCHAR (str "abc") with
  | Ret (Some v) => getVarType v = TYPE_VARCHAR /\ TYPE_VARCHAR <> TYPE_PTR
  | Ret None => TYPE_VARCHAR = TYPE_PTR
  | Exc _ => TYPE_VARCHAR = TYPE_DOUBLE \/ TYPE_VARCHAR = TYPE_DATETIME
  end.
Proof. apply makeAbstract_gives_the_type. exact blank_size. Defined.

Lemma copy_has_the_type_and_the_text_witness :
  let v : Var Z := mkVar TYPE_STRING (P_STRING (str "abc")) in
  well_typed v /\ copy Z blank v = Ret v /\
  (getVarType v = getVarType v /\ well_typed v /\ toString false (fun a => a) Z to_string v = toString false (fun a => a) Z to_string v).
Proof.
  cbn zeta. split; [exact I|]. split; [reflexivity|].
  eapply copy_has_the_type_and_the_text; [exact blank_size|exact I|reflexivity].
Defined.
