(* ===== verification/VarMap.v ===== *)
(** * Variables by name: Memory/a_map.cpp

    A VariableMap keeps shared pointers to variables and to other maps, by
    name. The store [vars] has the variables, so that a pointer that a caller
    holds and one in the map are the same object. *)

From stdpp Require Import gmap strings sorting.
From S2P Require Import Prelude SafeInt CText ByteOrder StringList IPV4 Datetime Vars VarsSpec.

Section VarMap.
  Context (big : bool) (pton : bytes -> option bytes) (pton6 : bytes -> option bytes) (ntop6 : bytes -> bytes)
    (scan_float : bytes -> option (Z * bytes)) (mktime : tm -> Z) (timezone : Z)
    {double : Type} (zero : double) (stod : bytes -> res double) (dtoa : double -> bytes) (malloc : Z -> bytes).

  Abbreviation make := (makeAbstract big pton pton6 scan_float mktime timezone double zero stod malloc).
  Abbreviation text_of := (toString big ntop6 double dtoa).

(** A shared pointer; nullptr is [None]. *)
Definition pointer : Type := option positive.

Record VariableMap := mkMap {
  vars : gmap positive (Var double);
  m_variables : gmap bytes pointer;
  m_submaps : gmap bytes pointer
}.

Definition removeVariable (variableName : bytes) (m : VariableMap) : VariableMap :=
  let m := if decide (is_Some (m_variables m !! variableName))
           then mkMap (vars m) (delete variableName (m_variables m)) (m_submaps m) else m in
  if decide (is_Some (m_submaps m !! variableName))
  then mkMap (vars m) (m_variables m) (delete variableName (m_submaps m)) else m.

Definition insertOrUpdateSubmap (variableName : bytes) (submap : pointer) (m : VariableMap) : VariableMap :=
  let m := removeVariable variableName m in
  mkMap (vars m) (m_variables m) (<[variableName := submap]> (m_submaps m)).

Definition insertOrUpdateVariable (variableName : bytes) (var : pointer) (m : VariableMap) : VariableMap :=
  let m := removeVariable variableName m in
  mkMap (vars m) (<[variableName := var]> (m_variables m)) (m_submaps m).

(** std::make_shared: a new object. *)
Definition make_shared (v : Var double) (m : VariableMap) : pointer * VariableMap :=
  let p := fresh (dom (vars m)) in
  (Some p, mkMap (<[p := v]> (vars m)) (m_variables m) (m_submaps m)).

Definition setVariableFromString (variableName : bytes) (varType : Type_) (s : bytes) : st VariableMap unit := fun m =>
  match make varType s with
  | Exc e => (Exc e, m)
  | Ret None => (Ret tt, insertOrUpdateVariable variableName None m)
  | Ret (Some v) => let (p, m) := make_shared v m in (Ret tt, insertOrUpdateVariable variableName p m)
  end.

(** The call on the object of a pointer. *)
Definition deref (p : pointer) (m : VariableMap) : res (Var double) :=
  match p with
  | None => Exc (undefined "call on a null pointer")
  | Some p => match vars m !! p with Some v => Ret v | None => Exc (undefined "dangling pointer") end
  end.

Definition getVariable (variableName : bytes) (m : VariableMap) : pointer :=
  match m_variables m !! variableName with None => None | Some p => p end.

Definition getSubmap (variableName : bytes) (m : VariableMap) : pointer :=
  match m_submaps m !! variableName with None => None | Some p => p end.

Definition getVariableAsString (variableName : bytes) (m : VariableMap) : res bytes :=
  match m_variables m !! variableName with
  | None => Ret []
  | Some p => res_bind (deref p m) text_of
  end.

Definition listVariableKeys (m : VariableMap) : list bytes := merge_sort name_le (elements (dom (m_variables m))).
Definition listSubmapKeys (m : VariableMap) : list bytes := merge_sort name_le (elements (dom (m_submaps m))).

(** fromString called on the object of a pointer that a caller holds. *)
Definition read_through (p : positive) (s : bytes) (m : VariableMap) : VariableMap :=
  match vars m !! p with
  | None => m
  | Some v =>
      match fromString big pton pton6 scan_float mktime timezone double stod s v with
      | Ret (_, v) => mkMap (<[p := v]> (vars m)) (m_variables m) (m_submaps m)
      | Exc _ => m
      end
  end.

(** ** The names *)

(** The calls that change a map or its variables. *)
Inductive call : Type :=
| InsertSubmap (name : bytes) (p : pointer)
| InsertVariable (name : bytes) (p : pointer)
| SetFromString (name : bytes) (t : Type_) (s : bytes)
| Remove (name : bytes)
| ReadThrough (p : positive) (s : bytes).

Definition call_on (c : call) (m : VariableMap) : VariableMap :=
  match c with
  | InsertSubmap name p => insertOrUpdateSubmap name p m
  | InsertVariable name p => insertOrUpdateVariable name p m
  | SetFromString name t s => snd (setVariableFromString name t s m)
  | Remove name => removeVariable name m
  | ReadThrough p s => read_through p s m
  end.

Lemma removeVariable_maps name m :
  vars (removeVariable name m) = vars m /\
  m_variables (removeVariable name m) = delete name (m_variables m) /\
  m_submaps (removeVariable name m) = delete name (m_submaps m).
Proof.
  assert (Hd : forall M : gmap bytes pointer, ~ is_Some (M !! name) -> delete name M = M).
  { intros M HM. apply delete_id. by apply eq_None_not_Some. }
  unfold removeVariable. destruct (decide (is_Some (m_variables m !! name))) as [Hv|Hv]; cbn [m_submaps m_variables vars];
    destruct (decide (is_Some (m_submaps m !! name))) as [Hs|Hs]; cbn [m_submaps m_variables vars];
    repeat split; symmetry; by apply Hd.
Qed.

(** A name is never at once the name of a variable and of a submap. *)
Theorem names_are_not_shared calls :
  let m := foldl (fun m c => call_on c m) (mkMap ∅ ∅ ∅) calls in
  dom (m_variables m) ## dom (m_submaps m).
Proof.
  cbn zeta. induction calls as [|c calls IH] using rev_ind; [simpl; set_solver|].
  rewrite foldl_app. cbn [foldl]. set (m := foldl _ _ calls) in *. clearbody m.
  assert (Hv : forall name p m, dom (m_variables m) ## dom (m_submaps m) ->
    dom (m_variables (insertOrUpdateVariable name p m)) ## dom (m_submaps (insertOrUpdateVariable name p m))).
  { intros name p m0 H. unfold insertOrUpdateVariable. destruct (removeVariable_maps name m0) as (_ & Ev & Es).
    cbn [m_variables m_submaps]. rewrite Ev, Es, dom_insert, !dom_delete. set_solver. }
  destruct c as [name p|name p|name t s|name|p s]; cbn [call_on].
  - unfold insertOrUpdateSubmap. destruct (removeVariable_maps name m) as (_ & Ev & Es).
    cbn [m_variables m_submaps]. rewrite Ev, Es, dom_insert, !dom_delete. set_solver.
  - by apply Hv.
  - unfold setVariableFromString. destruct (make t s) as [[v|]|e]; [|by apply Hv|done].
    cbn [make_shared]. cbn [snd]. apply Hv. exact IH.
  - destruct (removeVariable_maps name m) as (_ & -> & ->). rewrite !dom_delete. set_solver.
  - unfold read_through. destruct (vars m !! p); [|done]. destruct (fromString _ _ _ _ _ _ _ _ _ _) as [[? ?]|]; done.
Qed.

(** A variable set from a text is the new object that makeAbstract gives,
    its text is what the map answers, a submap of that name is gone, and the
    other names keep what they had. *)
Theorem setVariableFromString_exact name t s v m :
  make t s = Ret (Some v) ->
  exists p m', setVariableFromString name t s m = (Ret tt, m') /\
    vars m !! p = None /\ getVariable name m' = Some p /\ deref (Some p) m' = Ret v /\
    getVariableAsString name m' = text_of v /\ getSubmap name m' = None /\
    (forall other, other <> name ->
       m_variables m' !! other = m_variables m !! other /\ m_submaps m' !! other = m_submaps m !! other) /\
    (forall q, q <> p -> vars m' !! q = vars m !! q).
Proof.
  intros E. unfold setVariableFromString. rewrite E. cbn [make_shared].
  set (p := fresh (dom (vars m))). assert (Hp : vars m !! p = None) by (apply not_elem_of_dom, is_fresh).
  eexists p, _. split; [reflexivity|]. split; [done|].
  unfold getVariable, deref, getVariableAsString, getSubmap, insertOrUpdateVariable.
  destruct (removeVariable_maps name (mkMap (<[p:=v]> (vars m)) (m_variables m) (m_submaps m))) as (Eh & Ev & Es).
  cbn [m_variables m_submaps vars] in *. rewrite Eh, Ev, Es, !lookup_insert_eq, lookup_delete_eq.
  unfold deref. cbn [vars]. rewrite lookup_insert_eq. repeat (split; [done|]). split.
  - intros other Hne. by rewrite lookup_insert_ne, !lookup_delete_ne by congruence.
  - intros q Hq. by rewrite lookup_insert_ne by congruence.
Qed.

(** A variable set from a text with the type of a pointer is a null pointer,
    and asking for its text calls a member of it. *)
Theorem pointer_variable_is_null name s m :
  exists m', setVariableFromString name TYPE_PTR s m = (Ret tt, m') /\
    getVariableAsString name m' = Exc (undefined "call on a null pointer").
Proof.
  eexists. split; [reflexivity|]. unfold getVariableAsString, insertOrUpdateVariable.
  cbn [m_variables]. by rewrite lookup_insert_eq.
Qed.

(** The pointer that getVariable gives is the object of the map: a text read
    through it is what the map answers. *)
Theorem getVariable_shares_the_object name p s b v v' m :
  getVariable name m = Some p -> deref (Some p) m = Ret v ->
  fromString big pton pton6 scan_float mktime timezone double stod s v = Ret (b, v') ->
  getVariableAsString name (read_through p s m) = text_of v'.
Proof.
  intros Hp Hv E. unfold getVariable in Hp. unfold deref in Hv.
  destruct (vars m !! p) as [w|] eqn:Ew; [|done]. injection Hv as ->.
  unfold read_through. rewrite Ew, E. unfold getVariableAsString. cbn [m_variables].
  destruct (m_variables m !! name) as [q|]; [|done]. subst q. unfold res_bind, deref. cbn [vars]. by rewrite lookup_insert_eq.
Qed.

(** The keys come in the order of the map, each once. *)
Lemma listVariableKeys_elements m : listVariableKeys m ≡ₚ elements (dom (m_variables m)).
Proof. apply merge_sort_Permutation. Qed.

End VarMap.

(** ** Witnesses *)

Abbreviation sample_map := (@mkMap Z ∅ {[ str "n" := Some 1%positive ]} {[ str "x" := None ]}).

Lemma setVariableFromString_exact_witness :
  sample_make TYPE_UINT8 (str "300") = Ret (Some (mkVar TYPE_UINT8 (P_INT UINT8_t 44))) /\
  exists p m', setVariableFromString false (fun _ => None) (fun _ => None) (fun s => scan_int s) (fun x => timegm x) 0
      0 sample_stod blank (str "x") TYPE_UINT8 (str "300") sample_map = (Ret tt, m') /\
    vars sample_map !! p = None /\ getVariable (str "x") m' = Some p /\
    deref (Some p) m' = Ret (mkVar TYPE_UINT8 (P_INT UINT8_t 44)) /\
    getVariableAsString false (fun a => a) to_string (str "x") m' =
      toString false (fun a => a) Z to_string (mkVar TYPE_UINT8 (P_INT UINT8_t 44)) /\ getSubmap (str "x") m' = None /\
    (forall other, other <> str "x" ->
       m_variables m' !! other = m_variables sample_map !! other /\
       m_submaps m' !! other = m_submaps sample_map !! other) /\
    (forall q, q <> p -> vars m' !! q = vars sample_map !! q).
Proof.
  assert (E : sample_make TYPE_UINT8 (str "300") = Ret (Some (mkVar TYPE_UINT8 (P_INT UINT8_t 44))))
    by (vm_compute; reflexivity).
  split; [exact E|]. apply (setVariableFromString_exact false (fun _ => None) (fun _ => None) (fun a => a)
    (fun s => scan_int s) (fun x => timegm x) 0 0 sample_stod to_string blank (str "x") TYPE_UINT8 (str "300") _ sample_map E).
Defined.

Lemma getVariable_shares_the_object_witness :
  let m := @mkMap Z {[ 1%positive := mkVar TYPE_BOOL (P_BOOL false) ]} {[ str "n" := Some 1%positive ]} ∅ in
  getVariable (str "n") m = Some 1%positive /\ deref (Some 1%positive) m = Ret (mkVar TYPE_BOOL (P_BOOL false)) /\
  getVariableAsString false (fun a => a) to_string (str "n")
    (read_through false (fun _ => None) (fun _ => None) (fun s => scan_int s) (fun x => timegm x) 0 sample_stod 1 (str "T") m) =
  toString false (fun a => a) Z to_string (mkVar TYPE_BOOL (P_BOOL true)).
Proof.
  cbn zeta. split; [reflexivity|]. split; [reflexivity|].
  apply (getVariable_shares_the_object false (fun _ => None) (fun _ => None) (fun a => a) (fun s => scan_int s)
    (fun x => timegm x) 0 sample_stod to_string (str "n") 1 (str "T") true (mkVar TYPE_BOOL (P_BOOL false)));
    reflexivity.
Defined.
