(* ===== verification/StreamableObject.v ===== *)
(** * Streamable objects (Memory/streamableobject.h and .cpp,
    Memory/streamablestring.cpp, Memory/streamablenull.cpp)

    The write status every stream carries, the class of objects that can be
    written to (the virtual [write] of StreamableObject), and the non-virtual
    members built on it. A [write(buf, count)] takes the list of the [count]
    bytes. A loop that makes no progress runs out of fuel, which is
    [out_of_fuel]. *)

From S2P Require Import Prelude SafeInt.

Definition out_of_fuel : exc := diverges.

(** ** WriteStatus *)

Record WriteStatus : Type := mkWS {
  succeed : bool;
  finish : bool;
  bytesWritten : Z;
  writeError : Z
}.

Definition WriteStatus_new : WriteStatus := mkWS true false 0 0.

Definition ws_set_succeed (b : bool) (w : WriteStatus) : WriteStatus :=
  mkWS b (finish w) (bytesWritten w) (writeError w).
Definition ws_set_finish (b : bool) (w : WriteStatus) : WriteStatus :=
  mkWS (succeed w) b (bytesWritten w) (writeError w).

(** [operator=(size_t)]. *)
Definition ws_assign (x : Z) (w : WriteStatus) : WriteStatus :=
  mkWS (succeed w) (finish w) x (writeError w).

(** [operator-(WriteStatus)], which modifies its left operand. *)
Definition ws_sub (x : WriteStatus) : st WriteStatus unit := fun w =>
  if bytesWritten x >? bytesWritten w then
    (Exc (runtime_error "Invalid WriteStatus Substract Operation."), w)
  else (Ret tt, mkWS (succeed x) (finish x) (u64 (bytesWritten w - bytesWritten x)) (writeError x)).

(** [operator+=(ssize_t)]. *)
Definition ws_add (x : Z) : st WriteStatus unit := fun w =>
  if negb (succeed w) || finish w then
    (Exc (runtime_error "Trying to write into an already finished write object."), w)
  else if x >? 0 then
    match safeAdd (Unsigned 64) (bytesWritten w) (u64 x) with
    | Ret n => (Ret tt, mkWS (succeed w) (finish w) n (writeError w))
    | Exc e => (Exc e, w)
    end
  else if x =? 0 then (Ret tt, mkWS true true (bytesWritten w) (writeError w))
  else (Ret tt, mkWS false false (bytesWritten w) x).

(** A [size_t] argument of [operator+=]: converted to [ssize_t]. *)
Definition SSIZE_MAX : Z := 2 ^ 63 - 1.
Definition ws_add_size (n : Z) : st WriteStatus unit := ws_add (cast (Signed 64) n).

(** [operator+=(WriteStatus)]. *)
Definition ws_add_status (x : WriteStatus) : st WriteStatus unit := fun w =>
  match safeAdd (Unsigned 64) (bytesWritten w) (bytesWritten x) with
  | Exc e => (Exc e, w)
  | Ret n =>
      (Ret tt, mkWS (if negb (succeed x) then false else succeed w)
                 (if finish x then true else finish w) n (writeError w))
  end.

Definition ws_reset (w : WriteStatus) : WriteStatus := mkWS true false 0 0.

(** [writeStatus.succeed += -1] on a [bool]: the int sum [0] or [-1] converted
    back. *)
Definition bool_minus_one (b : bool) : bool := negb (Z.b2z b + -1 =? 0).

(** ** StreamableObject *)

Class Streamable (S : Type) : Type := {
  so_status : S -> WriteStatus;
  so_set_status : WriteStatus -> S -> S;
  so_write : bytes -> st S (option Z)
}.

Section Stream.
Context {S : Type} `{Streamable S}.

Definition so_succeed (s : S) : bool := succeed (so_status s).

(** [this->writeStatus += x]. *)
Definition so_add (x : Z) : st S unit := fun s =>
  let (r, w) := ws_add x (so_status s) in (r, so_set_status w s).

(** [this->writeStatus.succeed += -1]. *)
Definition so_fail : st S unit :=
  modify (fun s =>
    so_set_status (ws_set_succeed (bool_minus_one (so_succeed s)) (so_status s)) s).

Definition writeEOF : st S bool :=
  let! r := so_write [] in
  match r with
  | Some _ => ret true
  | None => do! so_fail in ret false
  end.

Fixpoint writeFullStream_loop (fuel : nat) (buf : bytes) (writtenBytes : Z) : st S bool :=
  match fuel with
  | O => throw out_of_fuel
  | Datatypes.S fuel =>
      if writtenBytes <? zlen buf then
        let! cur := so_write (zdrop writtenBytes buf) in
        let! ok := gets so_succeed in
        match cur with
        | Some n =>
            if ok then writeFullStream_loop fuel buf (u64 (writtenBytes + n))
            else do! so_fail in ret false
        | None => do! so_fail in ret false
        end
      else ret true
  end.

Definition writeFullStream (buf : bytes) : st S bool :=
  writeFullStream_loop (Datatypes.S (length buf)) buf 0.

Definition writeFullStreamWithEOF (buf : bytes) : st S bool :=
  let! ok := writeFullStream buf in
  if negb ok then ret false
  else
    let! eof := writeEOF in
    if negb eof then do! so_fail in ret false
    else ret true.

Definition writeString (buf : bytes) : st S bool := writeFullStream buf.

(** [strPrintf] on the text [vasprintf] formats ([None]: it fails). *)
Definition strPrintf (formatted : option bytes) : st S Z :=
  match formatted with
  | Some var => let! ok := writeString var in ret (Z.b2z ok)
  | None => do! so_add (-1) in ret 0
  end.
End Stream.

(** ** StreamableString and StreamableNull *)

Record StreamableString : Type := mkSS { ss_status : WriteStatus; m_value : bytes }.

(** The state change a successful [write] of [count] bytes makes, when the
    status accepts it. *)
#[export] Instance StreamableString_stream : Streamable StreamableString := {
  so_status := ss_status;
  so_set_status w s := mkSS w (m_value s);
  so_write buf s :=
    let s := mkSS (ss_status s) (m_value s ++ buf) in
    match ws_add_size (zlen buf) (ss_status s) with
    | (Ret _, w) => (Ret (Some (zlen buf)), mkSS w (m_value s))
    | (Exc e, w) => (Exc e, mkSS w (m_value s))
    end
}.

Definition StreamableString_new : StreamableString := mkSS WriteStatus_new [].

Definition ss_streamTo {S} `{Streamable S} (s : StreamableString) : st S bool :=
  writeFullStream (m_value s).

Record StreamableNull : Type := mkSN { sn_status : WriteStatus; sn_bytes : Z }.

#[export] Instance StreamableNull_stream : Streamable StreamableNull := {
  so_status := sn_status;
  so_set_status w s := mkSN w (sn_bytes s);
  so_write buf s :=
    match ws_add_size (zlen buf) (sn_status s) with
    | (Exc e, w) => (Exc e, mkSN w (sn_bytes s))
    | (Ret _, w) =>
        match safeAdd (Unsigned 64) (sn_bytes s) (zlen buf) with
        | Exc e => (Exc e, mkSN w (sn_bytes s))
        | Ret n => (Ret (Some (zlen buf)), mkSN w n)
        end
    end
}.

(** ** The contract of a destination *)

(** [sink_view] is what the destination has received so far, [sink_ok] that it
    is ready to receive more. *)
Class Sink (S : Type) `{Streamable S} : Type := {
  sink_view : S -> bytes;
  sink_ok : S -> Prop;
  sink_ok_succeed s : sink_ok s -> so_succeed s = true;
  sink_set_status_view w s : sink_view (so_set_status w s) = sink_view s;
  sink_set_status w s : so_status (so_set_status w s) = w
}.

(** A destination with short writes: a non-empty write either accepts a
    non-empty prefix and stays ready, or fails and says so in the status. *)
Class ShortWrites (S : Type) `{Sink S} : Prop :=
  short_write s buf : sink_ok s -> buf <> [] -> zlen buf <= SSIZE_MAX ->
    match so_write buf s with
    | (Ret (Some n), s') =>
        0 < n <= zlen buf /\ sink_ok s' /\ sink_view s' = sink_view s ++ ztake n buf
    | (Ret None, s') => so_succeed s' = false /\ sink_view s' = sink_view s
    | (Exc e, _) => e <> out_of_fuel
    end.

(** A destination that takes whole buffers as long as it has room for them. *)
Class FullSink (S : Type) `{Sink S} : Type := {
  sink_room : S -> Z;
  full_write s buf :
    sink_ok s -> buf <> [] -> zlen buf <= SSIZE_MAX -> zlen buf <= sink_room s ->
    exists s', so_write buf s = (Ret (Some (zlen buf)), s') /\ sink_ok s' /\
      sink_view s' = sink_view s ++ buf /\ sink_room s - zlen buf <= sink_room s'
}.

Lemma size_arith z : 0 <= z <= SSIZE_MAX -> is_size z.
Proof. unfold is_size, SIZE_MAX, SSIZE_MAX. lia. Qed.

Lemma ws_add_positive w n :
  succeed w = true -> finish w = false -> is_size (bytesWritten w) -> 0 < n <= SSIZE_MAX ->
  match ws_add_size n w with
  | (Ret _, w') => succeed w' = true /\ finish w' = false /\ is_size (bytesWritten w')
      /\ bytesWritten w' = bytesWritten w + n
  | (Exc e, w') => e <> out_of_fuel /\ SIZE_MAX < bytesWritten w + n
  end.
Proof.
  unfold SSIZE_MAX. intros Hs Hf Hb Hn. unfold ws_add_size.
  rewrite cast_id by (unfold in_type; simpl; lia).
  unfold ws_add. rewrite Hs, Hf. simpl.
  replace (n >? 0) with true by lia. rewrite u64_small by (unfold is_size, SIZE_MAX; lia).
  destruct (safeAdd_checked (Unsigned 64) (bytesWritten w) n) as [H1 H2];
    [simpl; lia|unfold in_type, is_size, SIZE_MAX in *; simpl; lia..|].
  destruct (decide (in_type (Unsigned 64) (bytesWritten w + n))) as [Hin|Hin].
  - rewrite H1 by done. simpl. unfold in_type, is_size, SIZE_MAX in *. simpl in Hin. lia.
  - unfold safeAdd in *. destruct (H2 Hin) as [e He]. rewrite He.
    unfold in_type, is_size, SIZE_MAX in *. simpl in Hin. split; [|lia].
    revert He. case_conds; intros [= <-]; discriminate.
Qed.

(** The status of a fresh or successfully written object. *)
Definition status_ready (w : WriteStatus) : Prop :=
  succeed w = true /\ finish w = false /\ is_size (bytesWritten w).

Lemma zlen_pos {A} (l : list A) : l <> [] -> 0 < zlen l.
Proof. destruct l; [done|]. rewrite zlen_cons. pose proof (zlen_nonneg l). lia. Qed.

#[export] Program Instance StreamableString_sink : Sink StreamableString := {
  sink_view := m_value;
  sink_ok s := status_ready (ss_status s)
}.
Next Obligation. by intros s (? & ? & ?). Qed.
Next Obligation. done. Qed.
Next Obligation. done. Qed.

#[export] Instance StreamableString_short : ShortWrites StreamableString.
Proof.
  intros s buf (Hs & Hf & Hb) Hne Hl. simpl. pose proof (zlen_pos buf Hne).
  pose proof (ws_add_positive (ss_status s) (zlen buf) Hs Hf Hb ltac:(lia)) as Hw.
  destruct (ws_add_size _ _) as [[[]|e] w]; [|by destruct Hw].
  simpl. rewrite ztake_ge by lia. destruct Hw as (? & ? & ? & ?).
  split; [lia|done].
Qed.

#[export] Program Instance StreamableString_full : FullSink StreamableString := {
  sink_room s := SIZE_MAX - bytesWritten (ss_status s)
}.
Next Obligation.
  intros s buf (Hs & Hf & Hb) Hne Hl Hroom. simpl in *. pose proof (zlen_pos buf Hne).
  pose proof (ws_add_positive (ss_status s) (zlen buf) Hs Hf Hb ltac:(lia)) as Hw.
  destruct (ws_add_size _ _) as [[[]|e] w]; [|lia]. destruct Hw as (? & ? & ? & Hn).
  eexists. split; [done|]. split; [done|]. split; [done|]. simpl. lia.
Qed.

(** ** Writing a whole buffer *)

Section SinkLemmas.
Context {S : Type} `{ShortWrites S}.

Lemma writeFullStream_loop_spec fuel buf k s :
  sink_ok s -> 0 <= k <= zlen buf -> zlen buf <= SSIZE_MAX -> zlen buf - k < Z.of_nat fuel ->
  match writeFullStream_loop fuel buf k s with
  | (Ret true, s') => sink_ok s' /\ sink_view s' = sink_view s ++ zdrop k buf
  | (Ret false, s') => so_succeed s' = true /\ exists j, k <= j < zlen buf
      /\ sink_view s' = sink_view s ++ slice k (j - k) buf
  | (Exc e, _) => e <> out_of_fuel
  end.
Proof.
  revert k s. induction fuel as [|fuel IH]; intros k s Hok Hk Hm Hf; [lia|].
  cbn [writeFullStream_loop]. case_cond; zbool.
  2:{ unfold ret. split; [done|]. rewrite zdrop_ge by lia. by rewrite app_nil_r. }
  assert (Hne : zdrop k buf <> []).
  { intros He%(f_equal zlen). revert He. zlia. }
  unfold bind, gets. pose proof (short_write s (zdrop k buf) Hok Hne) as Hw.
  rewrite zlen_zdrop in Hw. specialize (Hw ltac:(lia)).
  destruct (so_write (zdrop k buf) s) as [[[n|]|e] s'] eqn:Ew; [| |done].
  - destruct Hw as (Hn & Hok' & Hv). rewrite (sink_ok_succeed s' Hok').
    rewrite u64_small by (unfold is_size, SIZE_MAX, SSIZE_MAX in *; lia).
    specialize (IH (k + n) s' Hok' ltac:(lia) Hm ltac:(lia)).
    assert (Hjoin : ztake n (zdrop k buf) ++ zdrop (k + n) buf = zdrop k buf).
    { rewrite <- zdrop_zdrop by lia. apply ztake_zdrop. }
    destruct (writeFullStream_loop fuel buf (k + n) s') as [[[|]|e] s''].
    + destruct IH as [? Hv']. split; [done|]. by rewrite Hv', Hv, <- app_assoc, Hjoin.
    + destruct IH as [? (j & Hj & Hv')]. split; [done|]. exists j. split; [lia|].
      rewrite Hv', Hv, <- app_assoc. f_equal.
      replace (j - k) with (n + (j - (k + n))) by lia. by rewrite slice_app_split by lia.
    + done.
  - destruct Hw as [Hfail Hv]. unfold so_fail, modify, ret. split.
    + unfold so_succeed in *. rewrite sink_set_status. simpl. by rewrite Hfail.
    + exists k. split; [lia|]. rewrite sink_set_status_view, Hv, Z.sub_diag.
      unfold slice. rewrite ztake_le0 by lia. by rewrite app_nil_r.
Qed.

(** Writing one buffer as two. *)
Lemma writeFullStream_ok buf s s' :
  sink_ok s -> zlen buf <= SSIZE_MAX -> writeFullStream buf s = (Ret true, s') ->
  sink_ok s' /\ sink_view s' = sink_view s ++ buf.
Proof.
  intros Hok Hm Hw. pose proof (zlen_nonneg buf).
  pose proof (writeFullStream_loop_spec (Datatypes.S (length buf)) buf 0 s Hok
    ltac:(lia) Hm ltac:(unfold zlen; lia)) as Hs.
  unfold writeFullStream in Hw. rewrite Hw in Hs. by rewrite zdrop_le0 in Hs by lia.
Qed.
End SinkLemmas.

Lemma writeFullStream_full {S} `{FullSink S} (s : S) buf :
  sink_ok s -> zlen buf <= SSIZE_MAX -> zlen buf <= sink_room s ->
  exists s', writeFullStream buf s = (Ret true, s') /\ sink_ok s' /\
    sink_view s' = sink_view s ++ buf /\ sink_room s - zlen buf <= sink_room s'.
Proof.
  intros Hok Hl Hr. unfold writeFullStream. cbn [writeFullStream_loop].
  destruct buf as [|x buf].
  { exists s. change (zlen (@nil ascii)) with 0. split; [done|]. split; [done|]. rewrite app_nil_r.
    split; [done|lia]. }
  replace (0 <? zlen (x :: buf)) with true by zlia.
  rewrite zdrop_le0 by lia.
  destruct (full_write s (x :: buf) Hok ltac:(done) Hl Hr) as (s' & Hw & Hok' & Hv & Hroom).
  unfold bind, gets. rewrite Hw, (sink_ok_succeed s' Hok'). exists s'. split; [|done].
  pose proof (zlen_nonneg (x :: buf)).
  rewrite Z.add_0_l, u64_small by (unfold is_size, SIZE_MAX, SSIZE_MAX in *; lia).
  cbn [length writeFullStream_loop]. by replace (zlen (x :: buf) <? zlen (x :: buf)) with false by lia.
Qed.

(** ** Properties *)

(** C35: over any destination that accepts a non-empty part of each write or
    fails, [writeFullStream] terminates, and when it returns true the
    destination has received exactly the buffer, in order, however the writes
    were split. When it returns false a strict prefix was received; and since
    [succeed += -1] on the [bool] that the failed write had already cleared
    turns it back to true, the status then reads as success. *)
Theorem writeFullStream_spec {S} `{ShortWrites S} (buf : bytes) (s : S) :
  sink_ok s -> zlen buf <= SSIZE_MAX ->
  match writeFullStream buf s with
  | (Ret true, s') => sink_ok s' /\ sink_view s' = sink_view s ++ buf
  | (Ret false, s') => so_succeed s' = true /\
      exists j, 0 <= j < zlen buf /\ sink_view s' = sink_view s ++ ztake j buf
  | (Exc e, _) => e <> out_of_fuel
  end.
Proof.
  intros Hok Hm. unfold writeFullStream. pose proof (zlen_nonneg buf).
  pose proof (writeFullStream_loop_spec (Datatypes.S (length buf)) buf 0 s Hok
    ltac:(lia) Hm ltac:(unfold zlen; lia)) as Hs.
  destruct (writeFullStream_loop _ buf 0 s) as [[[|]|e] s'].
  - by rewrite zdrop_le0 in Hs by lia.
  - destruct Hs as [? (j & Hj & Hv)]. split; [done|]. exists j. split; [lia|].
    by rewrite Hv, slice_0, Z.sub_0_r.
  - done.
Qed.

Lemma writeFullStream_spec_witness :
  sink_view (snd (writeFullStream (str "hello") StreamableString_new)) = str "hello".
Proof.
  pose proof (writeFullStream_spec (str "hello") StreamableString_new) as Hs.
  destruct (writeFullStream (str "hello") StreamableString_new) as [[[|]|e] s'] eqn:Ew;
    try (vm_compute in Ew; discriminate Ew).
  apply Hs; [|vm_compute; discriminate]. repeat split; vm_compute; discriminate.
Defined.

(** The status invariant of an object written to: an accepted positive
    count keeps the status successful and unfinished with an exact byte
    counter, a zero count finishes it, a negative one marks it failed; and
    once failed or finished, any further update throws and changes nothing. *)
Theorem WriteStatus_transitions w x :
  status_ready w -> - 2 ^ 63 <= x <= SSIZE_MAX ->
  match ws_add x w with
  | (Ret _, w') =>
      if decide (0 < x) then status_ready w' /\ bytesWritten w' = bytesWritten w + x
      else if decide (x = 0) then succeed w' = true /\ finish w' = true
      else succeed w' = false /\ writeError w' = x
  | (Exc _, w') => w' = w /\ SIZE_MAX < bytesWritten w + x
  end /\
  (forall v y, (succeed v = false \/ finish v = true) ->
     ws_add y v = (Exc (runtime_error "Trying to write into an already finished write object."), v)).
Proof.
  intros Hready Hx. split.
  - destruct Hready as (Hs & Hf & Hb). case_decide.
    + pose proof (ws_add_positive w x Hs Hf Hb ltac:(lia)) as Hp. unfold ws_add_size in Hp.
      rewrite cast_id in Hp by (unfold in_type, SSIZE_MAX in *; simpl; lia).
      unfold ws_add in *. rewrite Hs, Hf in *. simpl in *. replace (x >? 0) with true in * by lia.
      destruct (safeAdd _ _ _); [|by destruct Hp]. unfold status_ready. tauto.
    + unfold ws_add. rewrite Hs, Hf. simpl. replace (x >? 0) with false by lia.
      case_decide; [by subst|]. by replace (x =? 0) with false by lia.
  - intros v y Hv. unfold ws_add.
    by replace (negb (succeed v) || finish v) with true
      by (destruct Hv as [-> | ->]; [done|by rewrite orb_true_r]).
Qed.

Lemma WriteStatus_transitions_witness :
  ws_add 5 WriteStatus_new = (Ret tt, mkWS true false 5 0) /\
  match ws_add 5 WriteStatus_new with
  | (Ret _, w') => status_ready w' /\ bytesWritten w' = 0 + 5
  | (Exc _, w') => w' = WriteStatus_new /\ SIZE_MAX < 0 + 5
  end.
Proof.
  split; [reflexivity|].
  refine (proj1 (WriteStatus_transitions WriteStatus_new 5 _ _)).
  - repeat split; vm_compute; discriminate.
  - split; vm_compute; discriminate.
Defined.
