(* ===== verification/BBase.v ===== *)
(** * The abstract byte container (Memory/b_base.h, Memory/b_base.cpp)

    [BBase] is the table of the virtual members of B_Base (the pure virtual
    ones and [size]); the section [Operations] holds the non-virtual members,
    written once over that table as b_base.cpp writes them over the virtual
    calls. [Readable], [Indexed], [Displaceable] and [Searchable] are the
    contracts the concrete containers owe to these members; the lemmas of this
    file are proved against them.

    A pair of a destination pointer and a length that a call fills is the list
    of the bytes it stores there: [Some bs] stands for the returned count
    [zlen bs]. *)

From S2P Require Import Prelude Mem SafeInt StreamableObject.

(** [CHECK_UINT_OVERFLOW_SUM]. *)
Definition CHECK_UINT_OVERFLOW_SUM (a b : Z) : bool := (u64 (a + b) <? a) || (u64 (a + b) <? b).

(** The data members of B_Base and the write status of its base class. *)
Record B_Base : Type := mkBBase {
  m_readOnly : bool;
  m_containerBytes : Z;
  m_maxSize : Z;
  m_fsDirectoryPath : string;
  m_fsBaseFileName : string;
  m_writeStatus : WriteStatus
}.

Definition set_containerBytes (v : Z) (b : B_Base) : B_Base :=
  mkBBase (m_readOnly b) v (m_maxSize b) (m_fsDirectoryPath b) (m_fsBaseFileName b) (m_writeStatus b).
Definition set_maxSize (v : Z) (b : B_Base) : B_Base :=
  mkBBase (m_readOnly b) (m_containerBytes b) v (m_fsDirectoryPath b) (m_fsBaseFileName b) (m_writeStatus b).
Definition set_readOnly (v : bool) (b : B_Base) : B_Base :=
  mkBBase v (m_containerBytes b) (m_maxSize b) (m_fsDirectoryPath b) (m_fsBaseFileName b) (m_writeStatus b).
Definition set_writeStatus (v : WriteStatus) (b : B_Base) : B_Base :=
  mkBBase (m_readOnly b) (m_containerBytes b) (m_maxSize b) (m_fsDirectoryPath b) (m_fsBaseFileName b) v.

(** [clear0] on the members (not on Windows). *)
Definition clear0_fields (b : B_Base) : B_Base :=
  mkBBase (m_readOnly b) 0 (m_maxSize b) "/tmp" "BinaryContainer-" (m_writeStatus b).

Definition B_Base_new : B_Base :=
  clear0_fields (mkBBase false 0 SIZE_MAX "" "" WriteStatus_new).

(** [std::ostream], as far as the containers use it. *)
Class Ostream (O : Type) : Type := {
  os_write : bytes -> O -> O;
  os_bad : O -> bool
}.

Class BBase (C : Type) : Type := {
  b_get : C -> B_Base;
  b_set : B_Base -> C -> C;
  v_size : C -> Z;
  v_findChar : C -> ascii -> Z -> Z -> bool -> res (option Z);
  v_truncate2 : Z -> st C (option Z);
  v_append2 : bytes -> bool -> st C (option Z);
  v_displace2 : Z -> st C (option Z);
  v_clear2 : st C bool;
  v_copyToStream2 : forall {O} `{Ostream O}, C -> Z -> Z -> O -> option Z * O;
  v_copyToStreamableObject2 : forall {S} `{Streamable S}, C -> Z -> Z -> st S (option Z);
  v_copyToBuffer2 : C -> Z -> Z -> option bytes;
  v_compare2 : C -> bytes -> bool -> Z -> bool
}.

(** ** Writing a vector of read-only chunks to a destination *)

Fixpoint copyToStreamUsingCleanVector {O} `{Ostream O} (copyChunks : list bytes) (dataCopied : Z)
    (streamOut : O) : option Z * O :=
  match copyChunks with
  | [] => (Some dataCopied, streamOut)
  | x :: copyChunks =>
      let streamOut := os_write x streamOut in
      if os_bad streamOut then (None, streamOut)
      else copyToStreamUsingCleanVector copyChunks (u64 (dataCopied + zlen x)) streamOut
  end.

Fixpoint copyToStreamableObjectUsingCleanVector {S} `{Streamable S} (copyChunks : list bytes)
    (dataCopied : Z) : st S (option Z) :=
  match copyChunks with
  | [] => ret (Some dataCopied)
  | x :: copyChunks =>
      let! bytesWritten := so_write x in
      let! ok := gets so_succeed in
      match bytesWritten with
      | Some n =>
          if ok then
            let! total := lift_res (safeAdd (Unsigned 64) n dataCopied) in
            copyToStreamableObjectUsingCleanVector copyChunks total
          else ret None
      | None => ret None
      end
  end.

(** [appendTo], over the size of the container and its
    [copyToStreamableObject2]. *)
Definition appendTo_with {S} `{Streamable S} (currentSize : Z) (copy2 : Z -> Z -> st S (option Z))
    (bytes_ offset : Z) : st S (option Z) :=
  if (bytes_ =? SIZE_MAX) && (offset >? currentSize) then do! so_add (-1) in ret None
  else
    let bytesToCopy := if bytes_ =? SIZE_MAX then u64 (currentSize - offset) else bytes_ in
    if CHECK_UINT_OVERFLOW_SUM offset bytesToCopy then do! so_add (-1) in ret None
    else if bytesToCopy =? 0 then ret (Some 0)
    else if offset >? currentSize then do! so_add (-1) in ret None
    else
      let bytesToCopy := if u64 (offset + bytesToCopy) >? currentSize
                         then u64 (currentSize - offset) else bytesToCopy in
      copy2 bytesToCopy offset.

Section Operations.
Context {C : Type} `{BBase C}.

Definition getMaxSize (c : C) : Z := m_maxSize (b_get c).
Definition setMaxSize (v : Z) (c : C) : C := b_set (set_maxSize v (b_get c)) c.
Definition isNull (c : C) : bool := v_size c =? 0.

Definition getSizeLeft (c : C) : Z :=
  if v_size c >? m_maxSize (b_get c) then 0 else u64 (m_maxSize (b_get c) - v_size c).

Definition reduceMaxSizeBy (value : Z) : st C unit := fun c =>
  if value >? getMaxSize c then
    (Exc (runtime_error
      "Don't reduce the max size with a value greater than the current max."), c)
  else (Ret tt, setMaxSize (u64 (getMaxSize c - value)) c).

Definition append (data : bytes) : st C (option Z) := fun c =>
  let len := zlen data in
  if m_readOnly (b_get c) then (Ret None, c)
  else
    let currentSize := v_size c in
    if CHECK_UINT_OVERFLOW_SUM len currentSize then (Ret None, c)
    else if u64 (len + currentSize) >? m_maxSize (b_get c) then (Ret None, c)
    else if len =? 0 then (Ret None, c)
    else v_append2 data false c.

Definition prepend (data : bytes) : st C (option Z) := fun c =>
  let len := zlen data in
  if m_readOnly (b_get c) then (Ret None, c)
  else
    let currentSize := v_size c in
    if CHECK_UINT_OVERFLOW_SUM len currentSize then (Ret None, c)
    else if u64 (len + currentSize) >? m_maxSize (b_get c) then (Ret None, c)
    else if len =? 0 then (Ret (Some 0), c)
    else v_append2 data true c.

Definition displace (n : Z) : st C (option Z) := fun c =>
  v_displace2 (Z.min n (v_size c)) c.

Definition truncate (n : Z) : st C (option Z) := fun c =>
  if v_size c <=? n then (Ret None, c) else v_truncate2 n c.

Definition clear0 (c : C) : C := b_set (clear0_fields (b_get c)) c.
Definition clear : st C bool := fun c => v_clear2 (clear0 c).

Definition setContainerBytes (v : Z) (c : C) : C := b_set (set_containerBytes v (b_get c)) c.
Definition incContainerBytesCount (i : Z) (c : C) : C := setContainerBytes (u64 (v_size c + i)) c.
Definition decContainerBytesCount (i : Z) (c : C) : C := setContainerBytes (u64 (v_size c - i)) c.

(** *** Copies out of the container *)

Definition copyToStream {O} `{Ostream O} (c : C) (bytes_ offset : Z) (out : O) : option Z * O :=
  let currentSize := v_size c in
  if (bytes_ =? SIZE_MAX) && (offset >? currentSize) then (None, out)
  else
    let bytes_ := if bytes_ =? SIZE_MAX then u64 (currentSize - offset) else bytes_ in
    if CHECK_UINT_OVERFLOW_SUM offset bytes_ then (None, out)
    else if bytes_ =? 0 then (Some 0, out)
    else if offset >? currentSize then (None, out)
    else
      let bytes_ := if u64 (offset + bytes_) >? currentSize then u64 (currentSize - offset)
                    else bytes_ in
      v_copyToStream2 c bytes_ offset out.

Definition appendTo {S} `{Streamable S} (c : C) (bytes_ offset : Z) : st S (option Z) :=
  appendTo_with (v_size c) (v_copyToStreamableObject2 c) bytes_ offset.

Definition copyOut (c : C) (bytes_ offset : Z) : option bytes :=
  let currentSize := v_size c in
  if (bytes_ =? SIZE_MAX) && (offset >? currentSize) then None
  else
    let bytes_ := if bytes_ =? SIZE_MAX then u64 (currentSize - offset) else bytes_ in
    if CHECK_UINT_OVERFLOW_SUM offset bytes_ then None
    else if bytes_ =? 0 then Some []
    else if u64 (offset + bytes_) >? currentSize then None
    else v_copyToBuffer2 c bytes_ offset.

(** The loop of [toString] and [copyToString], 8192 bytes at a time. *)
Fixpoint toString_loop (fuel : nat) (c : C) (bytes_ offset : Z) (r : bytes) : bytes :=
  match fuel with
  | O => r
  | S fuel =>
      if negb (bytes_ =? 0) then
        let copyBytes := Z.min bytes_ 8192 in
        match copyOut c copyBytes offset with
        | Some out => toString_loop fuel c (bytes_ - copyBytes) (u64 (offset + copyBytes)) (r ++ out)
        | None => r
        end
      else r
  end.

Definition toString (c : C) (bytes_ roOffset : Z) : option bytes :=
  let currentSize := v_size c in
  let offset := roOffset in
  if (bytes_ =? SIZE_MAX) && (offset >? currentSize) then None
  else
    let bytes_ := if bytes_ =? SIZE_MAX then u64 (currentSize - offset) else bytes_ in
    if CHECK_UINT_OVERFLOW_SUM offset bytes_ then None
    else if bytes_ =? 0 then Some []
    else if u64 (offset + bytes_) >? currentSize then None
    else Some (toString_loop (Z.to_nat (bytes_ / 8192 + 2)) c bytes_ offset []).

Definition copyToString (c : C) (outStr : bytes) (bytes_ roOffset : Z) : option Z * bytes :=
  let currentSize := v_size c in
  let offset := roOffset in
  if (bytes_ =? SIZE_MAX) && (offset >? currentSize) then (None, outStr)
  else
    let bytes_ := if bytes_ =? SIZE_MAX then u64 (currentSize - offset) else bytes_ in
    if CHECK_UINT_OVERFLOW_SUM offset bytes_ then (None, outStr)
    else if bytes_ =? 0 then (Some 0, outStr)
    else if u64 (offset + bytes_) >? currentSize then (None, outStr)
    else
      let outStr := toString_loop (Z.to_nat (bytes_ / 8192 + 2)) c bytes_ offset outStr in
      (Some (zlen outStr), outStr).

(** The conversion that [toUInt64] and [toUInt32] share: all the text, up to
    a NUL, must be a number. *)
Definition to_number (c : C) (base bytes_ offset : Z) : option Z :=
  match toString c bytes_ offset with
  | None => None
  | Some s => match strtoul base s with
              | Some (n, []) => Some n
              | _ => None
              end
  end.

Definition toUInt64 (c : C) (base bytes_ offset : Z) : option Z := to_number c base bytes_ offset.

(** The [unsigned long] of [strtoul] is stored in a [uint32_t]. *)
Definition toUInt32 (c : C) (base bytes_ offset : Z) : option Z :=
  option_map (fun n => n mod 2 ^ 32) (to_number c base bytes_ offset).

(** [toStringEx()]: the empty string on failure. *)
Definition toStringEx (c : C) : bytes := default [] (toString c SIZE_MAX 0).

Definition streamTo {S} `{Streamable S} (c : C) : st S bool :=
  let! x := appendTo c SIZE_MAX 0 in
  let! ok := gets so_succeed in
  match x with
  | None => ret false
  | Some _ => ret ok
  end.

(** *** Comparing and searching *)

(** [compare(mem, len, caseSensitive, offset)]: after the overflow test it
    returns true; the condition that would have guarded that return is
    commented out in the source, and what follows is unreachable. *)
Definition compare (c : C) (mem : bytes) (caseSensitive : bool) (offset : Z) : bool :=
  if CHECK_UINT_OVERFLOW_SUM offset (zlen mem) then false else true.

(** [compare(cmpString, caseSensitive, offset)]. *)
Definition compare_string (c : C) (cmpString : bytes) (caseSensitive : bool) (offset : Z) : bool :=
  if negb (zlen cmpString =? v_size c) then false
  else compare c cmpString caseSensitive offset.

Fixpoint find_loop (fuel : nat) (c : C) (needle : bytes) (c0 : ascii) (caseSensitive : bool)
    (currentOffset searchSpace : Z) : res (option Z) :=
  match fuel with
  | O => Exc out_of_fuel
  | S fuel =>
      res_bind (v_findChar c c0 currentOffset searchSpace caseSensitive) (fun pos =>
      match pos with
      | None => Ret None
      | Some pos =>
          let displacement := u64 (pos - currentOffset) in
          let currentOffset := u64 (currentOffset + displacement) in
          let searchSpace := u64 (searchSpace - displacement) in
          if v_compare2 c needle caseSensitive currentOffset then Ret (Some currentOffset)
          else if searchSpace =? 0 then Ret None
          else find_loop fuel c needle c0 caseSensitive (u64 (currentOffset + 1))
                 (u64 (searchSpace - 1))
      end)
  end.

Definition find (c : C) (needle : bytes) (caseSensitive : bool) (offset searchSpace : Z)
    : res (option Z) :=
  let currentSize := v_size c in
  let needle_len := zlen needle in
  if CHECK_UINT_OVERFLOW_SUM offset needle_len then Ret None
  else if CHECK_UINT_OVERFLOW_SUM offset searchSpace then Ret None
  else if offset >? currentSize then Ret None
  else
    let searchSpace := if searchSpace =? 0 then u64 (currentSize - offset) else searchSpace in
    if searchSpace =? 0 then Ret None
    else if searchSpace <? needle_len then Ret None
    else
      match needle with
      | [] => Ret (Some 0)
      | c0 :: _ =>
          find_loop (Z.to_nat currentSize + 2) c needle c0 caseSensitive offset searchSpace
      end.

(** [find(needles, needleFound, ...)]: also the needle found. *)
Fixpoint find_any (c : C) (needles : list bytes) (caseSensitive : bool) (offset searchSpace : Z)
    : res (option (Z * bytes)) :=
  match needles with
  | [] => Ret None
  | needle :: needles =>
      res_bind (find c needle caseSensitive offset searchSpace) (fun f =>
      match f with
      | Some p => Ret (Some (p, needle))
      | None => find_any c needles caseSensitive offset searchSpace
      end)
  end.

(** [B_Base::write]. *)
Definition write (buf : bytes) : st C (option Z) := fun c =>
  let add (x : st WriteStatus unit) (r : option Z) (c : C) :=
    let (e, w) := x (m_writeStatus (b_get c)) in
    let c := b_set (set_writeStatus w (b_get c)) c in
    match e with Ret _ => (Ret r, c) | Exc e => (Exc e, c) end in
  match append buf c with
  | (Exc e, c) => (Exc e, c)
  | (Ret (Some n), c) => add (ws_add_size n) (Some n) c
  | (Ret None, c) => add (ws_add (-1)) None c
  end.

#[export] Instance BBase_stream : Streamable C := {
  so_status c := m_writeStatus (b_get c);
  so_set_status w c := b_set (set_writeStatus w (b_get c)) c;
  so_write := write
}.
End Operations.

(** ** Moving data up to a delimiter into another container *)

Section Until.
Context {C D : Type} `{BBase C} `{BBase D}.

(** [copyUntil]: the result code and the destination. *)
Definition copyUntil (c : C) (needle : bytes) (maxCopySize : Z) (removeNeedle : bool) : st D Z :=
  let! needlePos := lift_res (find c needle false 0 maxCopySize) in
  match needlePos with
  | None => ret (-1)
  | Some needlePos =>
      if CHECK_UINT_OVERFLOW_SUM needlePos (zlen needle) then ret (-1)
      else if removeNeedle then
        if needlePos >? maxCopySize then ret (-2)
        else do! appendTo c needlePos 0 in ret 0
      else
        if u64 (needlePos + zlen needle) >? maxCopySize then ret (-2)
        else do! appendTo c (u64 (needlePos + zlen needle)) 0 in ret 0
  end.

Definition displaceUntil (needle : bytes) (maxCopySize : Z) (removeNeedle : bool)
    : st (C * D) Z := fun cd =>
  let (c, d) := cd in
  match copyUntil c needle maxCopySize removeNeedle d with
  | (Exc e, d) => (Exc e, (c, d))
  | (Ret retr, d) =>
      if retr <? 0 then (Ret retr, (c, d))
      else match displace (u64 (v_size d + (if removeNeedle then zlen needle else 0))) c with
           | (Exc e, c) => (Exc e, (c, d))
           | (Ret _, c) => (Ret 0, (c, d))
           end
  end.

(** The overload over a list of needles: the first that succeeds. *)
Fixpoint displaceUntil_any (needles : list bytes) (maxCopySize : Z) (removeNeedle : bool)
    : st (C * D) Z :=
  match needles with
  | [] => ret (-1)
  | needle :: needles =>
      let! r := displaceUntil needle maxCopySize removeNeedle in
      if r =? 0 then ret 0 else displaceUntil_any needles maxCopySize removeNeedle
  end.
End Until.

(** ** Contracts of the concrete containers *)

(** Reading in sequence: the container holds the bytes [b_view], and writes a
    prefix of them to a destination piece by piece. *)
Class Readable (C : Type) `{BBase C} : Type := {
  b_view : C -> bytes;
  b_wf : C -> Prop;
  size_view c : b_wf c -> v_size c = zlen (b_view c);
  size_bound c : b_wf c -> zlen (b_view c) <= SSIZE_MAX;
  copyToStreamableObject2_pieces {S} `{Streamable S} c n :
    b_wf c -> 0 < n -> n <= zlen (b_view c) ->
    exists pieces, Forall (fun x => x <> []) pieces /\ concat pieces = ztake n (b_view c) /\
      forall s, v_copyToStreamableObject2 c n 0 s = copyToStreamableObjectUsingCleanVector pieces 0 s
}.

(** Reading at an offset, which a container may support only in some states. *)
Class Indexed (C : Type) `{Readable C} : Type := {
  b_indexed : C -> Prop;
  copyToBuffer2_view c n off :
    b_wf c -> b_indexed c -> 0 < n -> 0 <= off -> off + n <= zlen (b_view c) ->
    v_copyToBuffer2 c n off = Some (slice off n (b_view c))
}.

(** Removing from the front, and starting over. *)
Class Displaceable (C : Type) `{Readable C} : Type := {
  displace2_view c n :
    b_wf c -> 0 <= n <= zlen (b_view c) ->
    exists c', v_displace2 n c = (Ret (Some n), c') /\ b_wf c' /\ b_view c' = zdrop n (b_view c)
}.

(** The needle occurs in [v] at [p]. *)
Definition occurs (needle v : bytes) (p : Z) : Prop :=
  0 <= p /\ p + zlen needle <= zlen v /\ slice p (zlen needle) v = needle.

(** The answer of a search from [off]: the first occurrence, if any. *)
Definition first_occurrence (needle v : bytes) (off : Z) (r : option Z) : Prop :=
  match r with
  | Some p => off <= p /\ occurs needle v p /\ forall q, off <= q < p -> ~ occurs needle v q
  | None => forall q, off <= q -> ~ occurs needle v q
  end.

(** Searching: the two members [find] is built on, as it uses them for a
    case-sensitive search of the rest of the container. [findChar] may stop
    early, but must not pass over the character. *)
Class Searchable (C : Type) `{Readable C} : Type := {
  findChar_view c ch off :
    b_wf c -> 0 <= off <= zlen (b_view c) ->
    exists r, v_findChar c ch off (zlen (b_view c) - off) true = Ret r /\ no_skip (b_view c) off ch r;
  compare2_view c buf cs off :
    b_wf c -> buf <> [] -> zlen buf <= SSIZE_MAX -> 0 <= off <= zlen (b_view c) ->
    v_compare2 c buf cs off =
    bool_decide (off + zlen buf <= zlen (b_view c) /\ same_text cs (slice off (zlen buf) (b_view c)) buf)
}.

(** ** Lemmas *)

Lemma overflow_sum_false a b :
  0 <= a -> 0 <= b -> a + b <= SIZE_MAX -> CHECK_UINT_OVERFLOW_SUM a b = false.
Proof.
  intros. unfold CHECK_UINT_OVERFLOW_SUM. rewrite u64_small by (unfold is_size; lia).
  apply orb_false_iff. lia.
Qed.

Lemma overflow_sum_spec a b :
  is_size a -> is_size b -> CHECK_UINT_OVERFLOW_SUM a b = (SIZE_MAX <? a + b).
Proof.
  unfold is_size. intros. destruct (Z.ltb_spec SIZE_MAX (a + b)).
  - unfold CHECK_UINT_OVERFLOW_SUM, u64, SIZE_MAX in *.
    replace ((a + b) mod 2 ^ 64) with (a + b - 2 ^ 64); [lia|].
    symmetry. replace (a + b) with ((a + b - 2 ^ 64) + 1 * 2 ^ 64) at 1 by lia.
    rewrite Z.mod_add by lia. apply Z.mod_small. lia.
  - apply overflow_sum_false; lia.
Qed.

Lemma clean_vector_full {S} `{FullSink S} chunks d (s : S) :
  sink_ok s -> Forall (fun x => x <> []) chunks -> 0 <= d ->
  d + zlen (concat chunks) <= SSIZE_MAX -> zlen (concat chunks) <= sink_room s ->
  exists s', copyToStreamableObjectUsingCleanVector chunks d s
      = (Ret (Some (d + zlen (concat chunks))), s') /\
    sink_ok s' /\ sink_view s' = sink_view s ++ concat chunks /\
    sink_room s - zlen (concat chunks) <= sink_room s'.
Proof.
  intros Hok Hf. revert d s Hok. induction Hf as [|x chunks Hx _ IH]; intros d s Hok Hd Hm Hr.
  { exists s. simpl in *. rewrite zlen_nil, app_nil_r. unfold ret. rewrite Z.add_0_r.
    split; [done|]. split; [done|]. split; [done|lia]. }
  cbn [concat] in Hm, Hr |- *. rewrite zlen_app in Hm, Hr |- *.
  pose proof (zlen_nonneg x). pose proof (zlen_nonneg (concat chunks)).
  cbn [copyToStreamableObjectUsingCleanVector].
  destruct (full_write s x) as (s1 & Hw & Hok1 & Hv1 & Hr1); [done|done|lia|lia|].
  unfold bind, gets, lift_res. rewrite Hw, (sink_ok_succeed s1 Hok1).
  destruct (safeAdd_checked (Unsigned 64) (zlen x) d) as [Hadd _];
    [simpl; lia|unfold in_type, SSIZE_MAX in *; simpl; lia..|].
  rewrite Hadd by (unfold in_type, SSIZE_MAX in *; simpl; lia).
  destruct (IH (zlen x + d) s1) as (s' & Hc & Hok' & Hv & Hr'); [done|lia..|].
  exists s'. rewrite Hc.
  replace (zlen x + d + zlen (concat chunks)) with (d + (zlen x + zlen (concat chunks))) by lia.
  split; [done|]. split; [done|].
  rewrite Hv, Hv1, app_assoc. split; [done|lia].
Qed.

Section IndexedLemmas.
Context {C : Type} `{Indexed C}.

Lemma copyOut_view c n off :
  b_wf c -> b_indexed c -> 0 <= n -> 0 <= off -> off + n <= zlen (b_view c) ->
  copyOut c n off = Some (slice off n (b_view c)).
Proof.
  intros Hwf Hi Hn Ho Hb. pose proof (size_bound c Hwf) as Hm.
  unfold copyOut. rewrite (size_view c Hwf).
  assert (Hne : (n =? SIZE_MAX) = false) by (unfold SIZE_MAX, SSIZE_MAX in *; lia).
  rewrite Hne. simpl. rewrite overflow_sum_false by (unfold SIZE_MAX, SSIZE_MAX in *; lia).
  rewrite u64_small by (apply size_arith; lia).
  case_cond; zbool.
  - subst. unfold slice. by rewrite ztake_le0 by lia.
  - replace (off + n >? zlen (b_view c)) with false by lia. apply copyToBuffer2_view; try done; lia.
Qed.

Lemma toString_loop_view fuel c n off r :
  b_wf c -> b_indexed c -> 0 <= n -> 0 <= off -> off + n <= zlen (b_view c) -> n <= Z.of_nat fuel * 8192 ->
  toString_loop fuel c n off r = r ++ slice off n (b_view c).
Proof.
  intros Hwf Hi. revert n off r. induction fuel as [|fuel IH]; intros n off r Hn Ho Hb Hf;
    cbn [toString_loop].
  { unfold slice. rewrite ztake_le0 by lia. by rewrite app_nil_r. }
  pose proof (size_bound c Hwf). case_cond; zbool.
  - rewrite copyOut_view by (done || lia). rewrite u64_small by (apply size_arith; lia).
    rewrite IH by lia. rewrite <- app_assoc. f_equal.
    rewrite <- slice_app_split by lia. f_equal. lia.
  - subst. unfold slice. rewrite ztake_le0 by lia. by rewrite app_nil_r.
Qed.

Lemma toString_slice c n off :
  b_wf c -> b_indexed c -> 0 <= n -> 0 <= off -> off + n <= zlen (b_view c) ->
  toString c n off = Some (slice off n (b_view c)).
Proof.
  intros Hwf Hi Hn Ho Hb. pose proof (size_bound c Hwf) as Hm.
  unfold toString. rewrite (size_view c Hwf).
  assert (Hne : (n =? SIZE_MAX) = false) by (unfold SIZE_MAX, SSIZE_MAX in *; lia).
  rewrite Hne. simpl. rewrite overflow_sum_false by (unfold SIZE_MAX, SSIZE_MAX in *; lia).
  rewrite u64_small by (apply size_arith; lia). case_cond; zbool.
  - subst. unfold slice. by rewrite ztake_le0 by lia.
  - replace (off + n >? zlen (b_view c)) with false by lia.
    rewrite toString_loop_view; try done. divlia.
Qed.

Lemma toString_all c : b_wf c -> b_indexed c -> toString c SIZE_MAX 0 = Some (b_view c).
Proof.
  intros Hwf Hi. pose proof (zlen_nonneg (b_view c)). pose proof (size_bound c Hwf) as Hm.
  rewrite <- (slice_all (b_view c)) at 1. rewrite <- toString_slice by (done || lia).
  unfold toString. rewrite Z.eqb_refl, (size_view c Hwf).
  assert (Hne : (zlen (b_view c) =? SIZE_MAX) = false) by (unfold SIZE_MAX, SSIZE_MAX in *; lia).
  rewrite Hne. replace (0 >? zlen (b_view c)) with false by lia. simpl.
  by rewrite Z.sub_0_r, (u64_small (zlen (b_view c))) by (apply size_arith; lia).
Qed.

Lemma toStringEx_view c : b_wf c -> b_indexed c -> toStringEx c = b_view c.
Proof. intros. unfold toStringEx. by rewrite toString_all. Qed.
End IndexedLemmas.

Section ReadableLemmas.
Context {C : Type} `{Readable C}.

(** [appendTo] of the first [n] bytes, to any destination. *)
Lemma appendTo_pieces {S} `{Streamable S} c n :
  b_wf c -> 0 < n <= zlen (b_view c) ->
  exists pieces, Forall (fun x => x <> []) pieces /\ concat pieces = ztake n (b_view c) /\
    forall s, appendTo c n 0 s = copyToStreamableObjectUsingCleanVector pieces 0 s.
Proof.
  intros Hwf Hn. pose proof (size_bound c Hwf) as Hm.
  destruct (copyToStreamableObject2_pieces (S := S) c n) as (pieces & Hne & Hc & Hrun); [done|lia..|].
  exists pieces. split; [done|]. split; [done|]. intros s. rewrite <- Hrun.
  unfold appendTo, appendTo_with. rewrite (size_view c Hwf).
  assert (Hnm : (n =? SIZE_MAX) = false) by (unfold SIZE_MAX, SSIZE_MAX in *; lia).
  rewrite Hnm. cbn [andb]. rewrite overflow_sum_false by (unfold SIZE_MAX, SSIZE_MAX in *; lia).
  replace (n =? 0) with false by lia. replace (0 >? zlen (b_view c)) with false by lia.
  rewrite Z.add_0_l, u64_small by (apply size_arith; lia).
  by replace (n >? zlen (b_view c)) with false by lia.
Qed.

Lemma appendTo_zero {S} `{Streamable S} c (s : S) : appendTo c 0 0 s = (Ret (Some 0), s).
Proof. done. Qed.

(** [appendTo] with the default arguments. *)
Lemma appendTo_everything {S} `{Streamable S} c (s : S) :
  b_wf c -> appendTo c SIZE_MAX 0 s = appendTo c (zlen (b_view c)) 0 s.
Proof.
  intros Hwf. pose proof (size_bound c Hwf) as Hm. pose proof (zlen_nonneg (b_view c)).
  unfold appendTo, appendTo_with. rewrite Z.eqb_refl, (size_view c Hwf).
  assert (Hne : (zlen (b_view c) =? SIZE_MAX) = false) by (unfold SIZE_MAX, SSIZE_MAX in *; lia).
  rewrite Hne. replace (0 >? zlen (b_view c)) with false by lia. simpl.
  by rewrite Z.sub_0_r, (u64_small (zlen (b_view c))) by (apply size_arith; lia).
Qed.

Lemma appendTo_take {S} `{FullSink S} c n (s : S) :
  b_wf c -> 0 <= n <= zlen (b_view c) -> sink_ok s -> n <= sink_room s ->
  exists s', appendTo c n 0 s = (Ret (Some n), s') /\ sink_ok s' /\
    sink_view s' = sink_view s ++ ztake n (b_view c) /\ sink_room s - n <= sink_room s'.
Proof.
  intros Hwf Hn Hok Hr. pose proof (size_bound c Hwf) as Hm.
  destruct (decide (n = 0)) as [->|Hnz].
  { exists s. rewrite appendTo_zero, ztake_le0, app_nil_r by lia. split; [done|]. split; [done|]. split; [done|lia]. }
  destruct (appendTo_pieces (S := S) c n Hwf) as (pieces & Hne & Hc & Hrun); [lia|].
  assert (Hl : zlen (concat pieces) = n) by (rewrite Hc, zlen_ztake; lia).
  destruct (clean_vector_full pieces 0 s) as (s' & Hcl & Hok' & Hv & Hr'); [done|done|lia..|].
  exists s'. rewrite Hrun, Hcl, Hl in *. rewrite Hc in Hv. done.
Qed.

Lemma streamTo_view {S} `{FullSink S} c (s : S) :
  b_wf c -> sink_ok s -> zlen (b_view c) <= sink_room s ->
  exists s', streamTo c s = (Ret true, s') /\ sink_ok s' /\
    sink_view s' = sink_view s ++ b_view c /\ sink_room s - zlen (b_view c) <= sink_room s'.
Proof.
  intros Hwf Hok Hr. pose proof (size_bound c Hwf) as Hm. pose proof (zlen_nonneg (b_view c)).
  destruct (appendTo_take c (zlen (b_view c)) s) as (s' & Ha & Hok' & Hv & Hr'); [done|lia|done..|].
  exists s'. rewrite ztake_ge in Hv by lia. split; [|done].
  unfold streamTo, bind, gets. by rewrite appendTo_everything, Ha, (sink_ok_succeed s' Hok') by done.
Qed.
End ReadableLemmas.

Section SearchableLemmas.
Context {C : Type} `{Searchable C}.

Lemma occurs_has_char c0 needle v q : occurs (c0 :: needle) v q -> has_char v q c0.
Proof.
  intros (Hq & Hl & Hs). unfold has_char. apply (f_equal (lookup 0%nat)) in Hs. simpl in Hs.
  unfold slice in Hs. rewrite ztake_take, zdrop_drop, lookup_take_lt, lookup_drop in Hs.
  - by rewrite Nat.add_0_r in Hs.
  - rewrite zlen_cons. pose proof (zlen_nonneg needle). lia.
Qed.

Lemma compare2_occurs c c0 needle off :
  b_wf c -> zlen (c0 :: needle) <= SSIZE_MAX -> 0 <= off <= zlen (b_view c) ->
  v_compare2 c (c0 :: needle) true off = bool_decide (occurs (c0 :: needle) (b_view c) off).
Proof.
  intros. rewrite compare2_view by done. apply bool_decide_ext. unfold occurs. simpl.
  split; [intros [? ?]|intros (? & ? & ?)]; repeat split; try done; lia.
Qed.

Lemma find_loop_first fuel c c0 needle cur off :
  b_wf c -> zlen (c0 :: needle) <= SSIZE_MAX -> 0 <= off <= cur -> cur <= zlen (b_view c) ->
  zlen (b_view c) - cur < Z.of_nat fuel ->
  (forall q, off <= q < cur -> ~ occurs (c0 :: needle) (b_view c) q) ->
  exists r, find_loop fuel c (c0 :: needle) c0 true cur (zlen (b_view c) - cur) = Ret r /\
    first_occurrence (c0 :: needle) (b_view c) off r.
Proof.
  intros Hwf Hn. revert cur. induction fuel as [|fuel IH]; intros cur Ho Hc Hf Hbefore; [lia|].
  cbn [find_loop]. pose proof (size_bound c Hwf) as Hm.
  destruct (findChar_view c c0 cur Hwf ltac:(lia)) as ([p|] & -> & Hr); cbn [res_bind].
  2:{ eexists. split; [done|]. intros q Hq Hocc. destruct (Z.lt_ge_cases q cur).
      - by apply (Hbefore q).
      - apply (Hr q); [lia|]. by eapply occurs_has_char. }
  destruct Hr as [Hp Hskip]. rewrite (u64_small (p - cur)) by (apply size_arith; lia).
  replace (cur + (p - cur)) with p by lia. rewrite (u64_small p) by (apply size_arith; lia).
  replace (zlen (b_view c) - cur - (p - cur)) with (zlen (b_view c) - p) by lia.
  rewrite (u64_small (_ - p)) by (apply size_arith; lia).
  assert (Hbefore' : forall q, off <= q < p -> ~ occurs (c0 :: needle) (b_view c) q).
  { intros q Hq Hocc. destruct (Z.lt_ge_cases q cur).
    - apply (Hbefore q); [lia|done].
    - apply (Hskip q); [lia|]. by eapply occurs_has_char. }
  rewrite compare2_occurs by (done || lia). case_bool_decide as Hocc.
  { eexists. split; [done|]. split; [lia|]. done. }
  replace (zlen (b_view c) - p =? 0) with false by lia.
  rewrite !u64_small by (apply size_arith; lia).
  replace (zlen (b_view c) - p - 1) with (zlen (b_view c) - (p + 1)) by lia.
  apply IH; [lia..|]. intros q Hq. destruct (decide (q = p)) as [->|]; [done|].
  apply Hbefore'. lia.
Qed.

(** A case-sensitive search of the rest of the container. *)
Lemma find_first c needle off :
  b_wf c -> needle <> [] -> zlen needle <= SSIZE_MAX -> 0 <= off <= zlen (b_view c) ->
  exists r, find c needle true off 0 = Ret r /\ first_occurrence needle (b_view c) off r.
Proof.
  intros Hwf Hne Hn Ho. pose proof (size_bound c Hwf) as Hm. pose proof (zlen_nonneg needle).
  unfold find. rewrite (size_view c Hwf).
  rewrite !overflow_sum_false by (unfold SIZE_MAX, SSIZE_MAX in *; lia).
  replace (off >? zlen (b_view c)) with false by lia. simpl.
  rewrite u64_small by (apply size_arith; lia).
  destruct needle as [|c0 needle]; [done|].
  assert (Hshort : zlen (b_view c) - off < zlen (c0 :: needle) ->
    first_occurrence (c0 :: needle) (b_view c) off None).
  { intros Hlt q Hq (_ & Hl & _). lia. }
  pose proof (zlen_pos (c0 :: needle) Hne).
  case_cond; zbool; [eexists; split; [done|]; apply Hshort; lia|].
  case_cond; zbool; [eexists; split; [done|]; apply Hshort; lia|].
  apply find_loop_first; try done; try lia.
Qed.
End SearchableLemmas.
