(* ===== verification/BMem.v ===== *)
(** * Read-only view of linear memory (Memory/b_mem.h, Memory/b_mem.cpp)

    [linearMem] is the memory the pointer designates, from the pointer to the
    end of the object it points into. *)

From S2P Require Import Prelude Mem SafeInt StreamableObject BBase.

Record B_MEM : Type := mkMEM {
  mem_base : B_Base;
  linearMem : option bytes
}.

Definition mem_set (b : B_Base) (c : B_MEM) : B_MEM := mkMEM b (linearMem c).
Definition mem_ptr (c : B_MEM) : bytes := default [] (linearMem c).
Definition size (c : B_MEM) : Z := m_containerBytes (mem_base c).

Definition clear2 : st B_MEM bool := fun c =>
  (Ret true, mkMEM (set_containerBytes 0 (mem_base c)) None).

Definition reference (buf : bytes) (len : Z) (c : B_MEM) : B_MEM :=
  let c := mkMEM (clear0_fields (mem_base c)) (linearMem c) in
  let c := snd (clear2 c) in
  mkMEM (set_containerBytes len (set_readOnly true (mem_base c))) (Some buf).

(** The constructor; [len] is a uint32_t. *)
Definition B_MEM_new (buf : option bytes) (len : Z) : B_MEM :=
  let c := mkMEM (set_containerBytes 0 (set_readOnly true B_Base_new)) None in
  let c := snd (clear2 c) in
  let len := len mod 2 ^ 32 in
  match buf with
  | Some buf => if negb (len =? 0) then reference buf len c else c
  | None => c
  end.

Definition findChar (c : B_MEM) (charInt : ascii) (offset searchSpace : Z) (caseSensitive : bool)
    : res (option Z) :=
  let caseSensitive := if caseSensitive && negb (isalpha charInt) then false else caseSensitive in
  let currentSize := size c in
  if currentSize =? 0 then Ret None
  else if CHECK_UINT_OVERFLOW_SUM offset searchSpace then
    Exc (runtime_error "Trying to search outside the search space (1)...")
  else if u64 (offset + searchSpace) >? currentSize then
    Exc (runtime_error "Trying to search outside the search space (2)...")
  else
    let searchSpace := if searchSpace =? 0 then u64 (currentSize - offset) else searchSpace in
    let area := slice offset searchSpace (mem_ptr c) in
    let cPos :=
      if caseSensitive then memchr charInt area
      else
        match memchr (toupper charInt) area, memchr (tolower charInt) area with
        | Some posUpper, Some posLower =>
            Some (if posUpper <? posLower then posUpper else posLower)
        | Some posUpper, None => Some posUpper
        | None, posLower => posLower
        end in
    Ret (option_map (Z.add offset) cPos).

Definition truncate2 (n : Z) : st B_MEM (option Z) := fun c =>
  let c := mem_set (set_containerBytes n (mem_base c)) c in
  (Ret (Some (size c)), c).

Definition append2 (buf : bytes) (prependMode : bool) : st B_MEM (option Z) := ret None.

Definition displace2 (bytesToDisplace : Z) : st B_MEM (option Z) := fun c =>
  if bytesToDisplace >? size c then (Ret None, c)
  else
    let c := mkMEM (mem_base c) (option_map (zdrop bytesToDisplace) (linearMem c)) in
    let c := mem_set (set_containerBytes (u64 (size c - bytesToDisplace)) (mem_base c)) c in
    (Ret (Some bytesToDisplace), c).

(** The loop that cuts [dataToCopy] bytes into chunks of 64 KiB. *)
Fixpoint cut_chunks (fuel : nat) (transmitMem : bytes) (dataToCopy : Z) : list bytes :=
  match fuel with
  | O => []
  | S fuel =>
      if negb (dataToCopy =? 0) then
        let rosize := if dataToCopy >? 64 * KB_MULT then 64 * KB_MULT else dataToCopy in
        ztake rosize transmitMem :: cut_chunks fuel (zdrop rosize transmitMem) (dataToCopy - rosize)
      else []
  end.

Definition copyChunks (c : B_MEM) (dataToCopy offset : Z) : list bytes :=
  cut_chunks (Z.to_nat (dataToCopy / (64 * KB_MULT) + 1)) (zdrop offset (mem_ptr c)) dataToCopy.

Definition copyToStream2 {O} `{Ostream O} (c : B_MEM) (roBytes offset : Z) (out : O)
    : option Z * O :=
  let currentBytes := size c in
  let n := roBytes in
  if n =? 0 then (Some 0, out)
  else if CHECK_UINT_OVERFLOW_SUM offset n then (None, out)
  else if offset >? currentBytes then (None, out)
  else
    let n := if u64 (offset + n) >? currentBytes then u64 (currentBytes - offset) else n in
    copyToStreamUsingCleanVector (copyChunks c n offset) 0 out.

Definition copyToStreamableObject2 {S} `{Streamable S} (c : B_MEM) (roBytes offset : Z)
    : st S (option Z) :=
  let n := roBytes in
  if n =? 0 then ret (Some 0)
  else if CHECK_UINT_OVERFLOW_SUM offset n then do! so_add (-1) in ret None
  else if offset >? size c then do! so_add (-1) in ret None
  else
    let n := if u64 (offset + n) >? size c then u64 (size c - offset) else n in
    copyToStreamableObjectUsingCleanVector (copyChunks c n offset) 0.

Definition copyToBuffer2 (c : B_MEM) (n offset : Z) : option bytes :=
  if CHECK_UINT_OVERFLOW_SUM offset n then None
  else if n =? 0 then Some []
  else if u64 (offset + n) >? size c then None
  else if offset >? size c then None
  else
    let containerBytesOffseted := u64 (size c - offset) in
    if containerBytesOffseted =? 0 then Some []
    else
      let copiedBytes := if containerBytesOffseted <? n then containerBytesOffseted else n in
      Some (slice offset copiedBytes (mem_ptr c)).

Definition compare2 (c : B_MEM) (buf : bytes) (caseSensitive : bool) (offset : Z) : bool :=
  if CHECK_UINT_OVERFLOW_SUM offset (zlen buf) then false
  else if zlen buf =? 0 then true
  else if u64 (offset + zlen buf) >? size c then false
  else memicmp2 (zdrop offset (mem_ptr c)) buf (zlen buf) caseSensitive =? 0.

#[export] Instance B_MEM_container : BBase B_MEM := {
  b_get := mem_base;
  b_set := mem_set;
  v_size := size;
  v_findChar := findChar;
  v_truncate2 := truncate2;
  v_append2 := append2;
  v_displace2 := displace2;
  v_clear2 := clear2;
  v_copyToStream2 := @copyToStream2;
  v_copyToStreamableObject2 := @copyToStreamableObject2;
  v_copyToBuffer2 := copyToBuffer2;
  v_compare2 := compare2
}.

(** ** Invariant and abstraction *)

#[global] Arguments size : simpl never.

Definition mem_view (c : B_MEM) : bytes := ztake (size c) (mem_ptr c).
Definition mem_wf (c : B_MEM) : Prop := 0 <= size c <= SSIZE_MAX /\ size c <= zlen (mem_ptr c).

Lemma zlen_mem_view c : mem_wf c -> zlen (mem_view c) = size c.
Proof. intros [? ?]. unfold mem_view. rewrite zlen_ztake. lia. Qed.

Lemma slice_mem_view c off n :
  mem_wf c -> 0 <= off -> 0 <= n -> off + n <= size c ->
  slice off n (mem_ptr c) = slice off n (mem_view c).
Proof.
  intros [? ?] ? ? ?. unfold mem_view, slice. rewrite zdrop_ztake, ztake_ztake by lia. f_equal. lia.
Qed.

Lemma zlen_concat_cut fuel m n :
  0 <= n <= zlen m -> n <= Z.of_nat fuel * (64 * KB_MULT) ->
  concat (cut_chunks fuel m n) = ztake n m /\ Forall (fun x => x <> []) (cut_chunks fuel m n).
Proof.
  change (64 * KB_MULT) with 65536.
  revert m n. induction fuel as [|fuel IH]; intros m n Hn Hf; cbn [cut_chunks].
  { replace n with 0 by lia. by rewrite ztake_le0. }
  change (64 * KB_MULT) with 65536. case_cond; zbool; [|subst; by rewrite ztake_le0].
  set (k := if n >? 65536 then 65536 else n).
  assert (Hk : 0 < k <= n /\ (n - k <= Z.of_nat fuel * 65536)).
  { unfold k. rewrite Z.gtb_ltb. case_conds; lia. }
  destruct (IH (zdrop k m) (n - k)) as [IHc IHf]; [zlia|lia|]. split.
  - cbn [concat]. rewrite IHc. fold (slice k (n - k) m). rewrite <- (slice_0 k).
    rewrite <- slice_app_split by lia. rewrite slice_0. f_equal. lia.
  - constructor; [|done]. intros He%(f_equal zlen). revert He. zlia.
Qed.

Lemma copyChunks_spec c n off :
  mem_wf c -> 0 <= n -> 0 <= off -> off + n <= size c ->
  concat (copyChunks c n off) = slice off n (mem_view c) /\ Forall (fun x => x <> []) (copyChunks c n off).
Proof.
  intros Hwf Hn Ho Hb. unfold copyChunks. pose proof Hwf as [? ?].
  destruct (zlen_concat_cut (Z.to_nat (n / (64 * KB_MULT) + 1)) (zdrop off (mem_ptr c)) n) as [-> ?].
  - rewrite zlen_zdrop. lia.
  - change (64 * KB_MULT) with 65536. divlia.
  - split; [|done]. rewrite <- slice_mem_view by done. done.
Qed.

#[export] Program Instance B_MEM_readable : Readable B_MEM := {
  b_view := mem_view;
  b_wf := mem_wf
}.
Next Obligation. intros c Hwf. symmetry. by apply zlen_mem_view. Qed.
Next Obligation. intros c Hwf. rewrite zlen_mem_view by done. apply Hwf. Qed.
Next Obligation.
  intros S ? c n Hwf Hn Hb. rewrite zlen_mem_view in Hb by done. pose proof Hwf as [[? ?] ?].
  destruct (copyChunks_spec c n 0 Hwf) as [Hc Hf]; [lia..|].
  exists (copyChunks c n 0). split; [done|]. split; [by rewrite Hc, slice_0|]. intros s.
  simpl. unfold copyToStreamableObject2. replace (n =? 0) with false by lia.
  rewrite overflow_sum_false by (unfold SIZE_MAX, SSIZE_MAX in *; lia).
  replace (0 >? size c) with false by lia.
  rewrite u64_small by (apply size_arith; lia). by replace (0 + n >? size c) with false by lia.
Qed.

#[export] Program Instance B_MEM_indexed : Indexed B_MEM := { b_indexed _ := True }.
Next Obligation.
  intros c n off Hwf _ Hn Ho Hb. simpl in Hb. rewrite zlen_mem_view in Hb by done. pose proof Hwf as [[? ?] ?].
  simpl. unfold copyToBuffer2. rewrite overflow_sum_false by (unfold SIZE_MAX, SSIZE_MAX in *; lia).
  rewrite (u64_small (off + n)), (u64_small (size c - off)) by (apply size_arith; lia).
  case_conds. f_equal. apply slice_mem_view; [done|lia..].
Qed.

Lemma toupper_tolower_cases c : isalpha c = false -> toupper c = c /\ tolower c = c.
Proof.
  unfold isalpha, toupper, tolower. intros [-> ->]%orb_false_iff. done.
Qed.

(** Searching an area of the memory that ends where the view ends. *)
Lemma slice_to_end c off :
  mem_wf c -> 0 <= off <= size c ->
  slice off (size c - off) (mem_ptr c) = zdrop off (mem_view c).
Proof.
  intros Hwf Ho. rewrite slice_mem_view by (done || lia). unfold slice. apply ztake_ge.
  rewrite zlen_zdrop, zlen_mem_view by done. lia.
Qed.

Lemma slice_rest c off ss :
  mem_wf c -> 0 <= off <= size c -> ss = size c - off ->
  slice off (if ss =? 0 then u64 (size c - off) else ss) (mem_ptr c) = zdrop off (mem_view c).
Proof.
  intros Hwf Ho ->. pose proof Hwf as [[? ?] ?].
  rewrite u64_small by (apply size_arith; lia).
  replace (if size c - off =? 0 then size c - off else size c - off) with (size c - off)
    by (by case_cond). by apply slice_to_end.
Qed.

Lemma findChar_exact c ch off :
  mem_wf c -> 0 <= off <= size c ->
  findChar c ch off (size c - off) true = Ret (option_map (Z.add off) (memchr ch (zdrop off (mem_view c)))).
Proof.
  intros Hwf Ho. unfold findChar. pose proof Hwf as [[? ?] ?].
  rewrite overflow_sum_false by (unfold SIZE_MAX, SSIZE_MAX in *; lia).
  replace (off + (size c - off)) with (size c) by lia.
  rewrite (u64_small (size c)) by (apply size_arith; lia). rewrite Z.gtb_ltb, Z.ltb_irrefl.
  rewrite slice_rest by done. case_cond; zbool.
  { rewrite zdrop_ge; [done|]. rewrite zlen_mem_view by done. lia. }
  destruct (isalpha ch) eqn:Ha; simpl; [done|].
  destruct (toupper_tolower_cases ch Ha) as [-> ->].
  destruct (memchr ch (zdrop off (mem_view c))); [|done]. by case_cond.
Qed.

#[export] Program Instance B_MEM_searchable : Searchable B_MEM.
Next Obligation.
  intros c ch off Hwf Ho. simpl in *. rewrite zlen_mem_view in * by done.
  rewrite findChar_exact by done.
  pose proof (memchr_suffix ch (mem_view c) off) as Hm. rewrite zlen_mem_view in Hm by done.
  specialize (Hm Ho). eexists. split; [done|].
  destruct (memchr ch (zdrop off (mem_view c))) as [p|]; simpl; [|done].
  rewrite zlen_mem_view by done; split; [lia|apply Hm].
Qed.
Next Obligation.
  intros c buf cs off Hwf Hne Hl Ho. simpl in *. rewrite zlen_mem_view in * by done.
  pose proof Hwf as [[? ?] ?]. pose proof (zlen_pos buf Hne).
  assert (Hov : 0 <= off + zlen buf <= SIZE_MAX) by (unfold SIZE_MAX, SSIZE_MAX in *; lia).
  unfold compare2. rewrite overflow_sum_false by lia.
  replace (zlen buf =? 0) with false by lia. rewrite u64_small by done. rewrite Z.gtb_ltb.
  destruct (Z.le_gt_cases (off + zlen buf) (size c)).
  - replace (size c <? off + zlen buf) with false by lia.
    apply eq_true_iff_eq. rewrite Z.eqb_eq.
    rewrite memicmp2_same_text by (rewrite ?zlen_zdrop; lia). rewrite bool_decide_eq_true.
    fold (slice off (zlen buf) (mem_ptr c)). rewrite slice_mem_view, (ztake_ge _ buf) by (done || lia).
    tauto.
  - rewrite bool_decide_eq_false_2 by lia. by replace (size c <? off + zlen buf) with true by lia.
Qed.
