(* ===== verification/BChunk.v ===== *)
(** * One chunk of a chunked container (Memory/b_chunk.h)

    [data] is the heap block the chunk owns ([None] for a null pointer); the
    allocator succeeds, as [new char[n]] does when it returns. *)

From S2P Require Import Prelude.

Record BinaryContainerChunk : Type := mkChunk {
  rodata : option bytes;
  rosize : Z;
  data : option bytes;
  csize : Z;
  coffset : Z
}.

Definition chunk_new : BinaryContainerChunk := mkChunk None 0 None 0 0.

Definition with_data (d : option bytes) (n : Z) (c : BinaryContainerChunk) : BinaryContainerChunk :=
  mkChunk (rodata c) (rosize c) d n (coffset c).
Definition with_offset (o : Z) (c : BinaryContainerChunk) : BinaryContainerChunk :=
  mkChunk (rodata c) (rosize c) (data c) (csize c) o.
Definition with_ro (d : option bytes) (n : Z) (c : BinaryContainerChunk) : BinaryContainerChunk :=
  mkChunk d n (data c) (csize c) (coffset c).

Definition chunk_destroy (c : BinaryContainerChunk) : BinaryContainerChunk := with_data None 0 c.

Definition chunk_displace (displLen : Z) (c : BinaryContainerChunk) : BinaryContainerChunk :=
  match data c with
  | None => c
  | Some d =>
      if displLen =? 0 then c
      else if csize c <=? displLen then chunk_destroy c
      else
        let nContainerSize := csize c - displLen in
        with_data (Some (slice displLen nContainerSize d)) nContainerSize (chunk_destroy c)
  end.

Definition chunk_truncate (nSize : Z) (c : BinaryContainerChunk) : BinaryContainerChunk :=
  if u64 (coffset c + csize c) <=? nSize then c
  else if (nSize =? 0) || (nSize =? coffset c) then c
  else
    let nSize := u64 (nSize - coffset c) in
    with_data (Some (ztake nSize (default [] (data c)))) nSize (chunk_destroy c).

Definition chunk_copy (buf : bytes) (count : Z) (c : BinaryContainerChunk) : BinaryContainerChunk :=
  with_data (Some (ztake count buf)) count (chunk_destroy c).

Definition nextOffset (c : BinaryContainerChunk) : Z := u64 (csize c + coffset c).

Definition containsOffset (l_offset : Z) (c : BinaryContainerChunk) : bool :=
  (coffset c <=? l_offset) && (l_offset <? nextOffset c).

(** [moveToOffset], on a copy of the chunk: the pointer is advanced. *)
Definition moveToOffset (l_offset : Z) (c : BinaryContainerChunk) : BinaryContainerChunk :=
  let l_offset := u64 (l_offset - coffset c) in
  mkChunk (rodata c) (rosize c) (option_map (zdrop l_offset) (data c)) (u64 (csize c - l_offset)) 0.

(** ** Well-formed chunks *)

Definition chunk_bytes (c : BinaryContainerChunk) : bytes := default [] (data c).

(** A chunk of the vector: a non-empty block of the recorded size. *)
Definition chunk_wf (c : BinaryContainerChunk) : Prop :=
  rodata c = None /\ is_Some (data c) /\ csize c = zlen (chunk_bytes c) /\ 0 < csize c.

Lemma chunk_wf_size c : chunk_wf c -> csize c = zlen (chunk_bytes c) /\ 0 < zlen (chunk_bytes c).
Proof. intros (_ & _ & H & ?). lia. Qed.

Lemma chunk_data c : chunk_wf c -> data c = Some (chunk_bytes c).
Proof. intros (_ & [d Hd] & _). unfold chunk_bytes. by rewrite Hd. Qed.

(** A chunk given a new block. *)
Lemma with_data_wf d n c :
  rodata c = None -> zlen d = n -> 0 < n ->
  chunk_wf (with_data (Some d) n c) /\ chunk_bytes (with_data (Some d) n c) = d.
Proof. intros Hro Hl Hp. split; [|done]. split; [done|]. split; [by eexists|]. by subst. Qed.

Lemma chunk_copy_wf buf n :
  0 < n <= zlen buf ->
  chunk_wf (chunk_copy buf n chunk_new) /\ chunk_bytes (chunk_copy buf n chunk_new) = ztake n buf.
Proof. intros. apply with_data_wf; [done| |lia]. rewrite zlen_ztake. lia. Qed.

Lemma chunk_displace_wf n c :
  chunk_wf c -> 0 < n < csize c ->
  chunk_wf (chunk_displace n c) /\ chunk_bytes (chunk_displace n c) = zdrop n (chunk_bytes c) /\
  csize (chunk_displace n c) = csize c - n.
Proof.
  intros Hwf Hn. pose proof (chunk_wf_size c Hwf) as [Hs Hp]. unfold chunk_displace.
  rewrite (chunk_data c Hwf). replace (n =? 0) with false by lia.
  replace (csize c <=? n) with false by lia.
  assert (Hb : slice n (csize c - n) (chunk_bytes c) = zdrop n (chunk_bytes c)).
  { unfold slice. apply ztake_ge. rewrite zlen_zdrop. lia. }
  rewrite Hb. destruct (with_data_wf (zdrop n (chunk_bytes c)) (csize c - n) (chunk_destroy c))
    as [? ?]; [apply Hwf|rewrite zlen_zdrop; lia|lia|done].
Qed.

Lemma chunk_truncate_wf n c :
  chunk_wf c -> 0 <= coffset c -> is_size (coffset c + csize c) ->
  coffset c < n < coffset c + csize c ->
  chunk_wf (chunk_truncate n c) /\ coffset (chunk_truncate n c) = coffset c /\
  chunk_bytes (chunk_truncate n c) = ztake (n - coffset c) (chunk_bytes c) /\
  csize (chunk_truncate n c) = n - coffset c.
Proof.
  intros Hwf Ho Hm Hn. pose proof (chunk_wf_size c Hwf) as [Hs Hp]. unfold chunk_truncate.
  rewrite (u64_small (_ + _)) by done. unfold is_size in Hm.
  rewrite u64_small by (unfold is_size; lia).
  replace (coffset c + csize c <=? n) with false by lia.
  replace ((n =? 0) || (n =? coffset c)) with false by lia.
  fold (chunk_bytes c).
  destruct (with_data_wf (ztake (n - coffset c) (chunk_bytes c)) (n - coffset c) (chunk_destroy c))
    as [? ?]; [apply Hwf|rewrite zlen_ztake; lia|lia|done].
Qed.
