(* ===== verification/BChunks.v ===== *)
(** * Chunked container (Memory/b_chunks.h, Memory/b_chunks.cpp)

    The state of B_Chunks: a vector of chunks, or a container over a mapped
    file once the data has been moved to disk. The mapped container is used
    through the B_Base interface (the code holds a [shared_ptr<B_Base>]), so
    its type [M] is any instance of [BBase]; [new_mmap] is the creation of one
    by [copyToFS]. *)

From S2P Require Import Prelude Mem SafeInt StreamableObject BBase BChunk.

(** [referenceFile] of a new mapped file named after the directory and base
    name of the container; [None] when it cannot be opened. *)
Class MmapFactory (M : Type) : Type := { new_mmap : B_Base -> option M }.

Section BChunks.
Context {M : Type} `{BBase M}.

Record B_Chunks : Type := mkChunks {
  ck_base : B_Base;
  m_chunksVector : list BinaryContainerChunk;
  m_maxChunks : Z;
  m_maxChunkSize : Z;
  m_maxSizeInMemoryBeforeMovingToDisk : Z;
  m_mmapContainer : option M
}.

Definition ck_set (b : B_Base) (c : B_Chunks) : B_Chunks :=
  mkChunks b (m_chunksVector c) (m_maxChunks c) (m_maxChunkSize c)
    (m_maxSizeInMemoryBeforeMovingToDisk c) (m_mmapContainer c).
Definition set_chunks (v : list BinaryContainerChunk) (c : B_Chunks) : B_Chunks :=
  mkChunks (ck_base c) v (m_maxChunks c) (m_maxChunkSize c)
    (m_maxSizeInMemoryBeforeMovingToDisk c) (m_mmapContainer c).
Definition set_mmap (m : option M) (c : B_Chunks) : B_Chunks :=
  mkChunks (ck_base c) (m_chunksVector c) (m_maxChunks c) (m_maxChunkSize c)
    (m_maxSizeInMemoryBeforeMovingToDisk c) m.

Definition B_Chunks_new : B_Chunks :=
  mkChunks B_Base_new [] (256 * KB_MULT) (64 * KB_MULT) 0 None.

Definition UINT32_MAX : Z := 2 ^ 32 - 1.
Definition setMaxChunks (value : Z) (c : B_Chunks) : B_Chunks :=
  mkChunks (ck_base c) (m_chunksVector c) (if value <? UINT32_MAX then value else UINT32_MAX)
    (m_maxChunkSize c) (m_maxSizeInMemoryBeforeMovingToDisk c) (m_mmapContainer c).
Definition setMaxChunkSize (value : Z) (c : B_Chunks) : B_Chunks :=
  mkChunks (ck_base c) (m_chunksVector c) (m_maxChunks c) value
    (m_maxSizeInMemoryBeforeMovingToDisk c) (m_mmapContainer c).
Definition setMaxSizeInMemoryBeforeMovingToDisk (value : Z) (c : B_Chunks) : B_Chunks :=
  mkChunks (ck_base c) (m_chunksVector c) (m_maxChunks c) (m_maxChunkSize c) value
    (m_mmapContainer c).

Definition isUsingFiles (c : B_Chunks) : bool :=
  match m_mmapContainer c with Some _ => true | None => false end.

Definition size (c : B_Chunks) : Z :=
  match m_mmapContainer c with
  | Some m => v_size m
  | None => m_containerBytes (ck_base c)
  end.

(** Run a method of the mapped container. *)
Definition on_mmap {A} (m : M) (f : st M A) : st B_Chunks A := fun c =>
  let (r, m) := f m in (r, set_mmap (Some m) c).

(** [setContainerBytes], [incContainerBytesCount] and
    [decContainerBytesCount] of the base class, with the virtual [size]. *)
Definition ck_setBytes (v : Z) (c : B_Chunks) : B_Chunks :=
  ck_set (set_containerBytes v (ck_base c)) c.
Definition ck_inc (i : Z) (c : B_Chunks) : B_Chunks := ck_setBytes (u64 (size c + i)) c.
Definition ck_dec (i : Z) (c : B_Chunks) : B_Chunks := ck_setBytes (u64 (size c - i)) c.

(** ** Locating an offset *)

Definition chunk_at (c : B_Chunks) (i : Z) : BinaryContainerChunk :=
  default chunk_new (m_chunksVector c !! Z.to_nat i).

Definition mid_pos (curmin curmax : Z) : Z :=
  if curmin =? curmax then curmin
  else curmin + ((curmax + 1 - curmin) / 2) - (curmax - curmin) mod 2.

(** The recursive part of [I_Chunk_GetPosForOffset]; [None] is [MAX_SIZE_T]. *)
Fixpoint getPos_rec (fuel : nat) (c : B_Chunks) (offset curpos curmax curmin : Z) : option Z :=
  match fuel with
  | O => None
  | S fuel =>
      if containsOffset offset (chunk_at c curpos) then Some curpos
      else if offset <? coffset (chunk_at c curpos) then
        if curpos =? curmin then None
        else getPos_rec fuel c offset (mid_pos curmin (curpos - 1)) (curpos - 1) curmin
      else
        if curpos =? curmax then None
        else getPos_rec fuel c offset (mid_pos (curpos + 1) curmax) curmax (curpos + 1)
  end.

Definition I_Chunk_GetPosForOffset (c : B_Chunks) (offset : Z) : option Z :=
  let n := zlen (m_chunksVector c) in
  if n =? 0 then None
  else
    let curpos := if n =? 1 then 0 else n / 2 - 1 in
    let curmax := if n =? 1 then 0 else n - 1 in
    getPos_rec (S (length (m_chunksVector c))) c offset curpos curmax 0.

(** ** Modifying members *)

(** [recalcChunkOffsets]: the pointer [i] is initialised once, so every
    iteration updates the first chunk. *)
Fixpoint recalc_loop (n : nat) (currentOffset : Z) (i : BinaryContainerChunk)
    : BinaryContainerChunk :=
  match n with
  | O => i
  | S n =>
      let i := with_offset currentOffset i in
      recalc_loop n (nextOffset i) i
  end.

Definition recalcChunkOffsets (c : B_Chunks) : B_Chunks :=
  match m_chunksVector c with
  | [] => c
  | i :: rest => set_chunks (recalc_loop (length (m_chunksVector c)) 0 i :: rest) c
  end.

Definition clearChunks (c : B_Chunks) : B_Chunks := set_chunks [] c.
Definition clear2 : st B_Chunks bool := fun c => (Ret true, clearChunks (set_mmap None c)).

Definition truncate2 (n : Z) : st B_Chunks (option Z) := fun c =>
  match m_mmapContainer c with
  | Some m => on_mmap m (truncate n) c
  | None =>
      match I_Chunk_GetPosForOffset c n with
      | None => (Ret None, c)
      | Some ival =>
          let (ival, c) :=
            if coffset (chunk_at c ival) =? n then (u64 (ival - 1), c)
            else (ival, set_chunks (alter (chunk_truncate n) (Z.to_nat ival) (m_chunksVector c)) c) in
          let c := set_chunks (ztake (u64 (ival + 1)) (m_chunksVector c)) c in
          let c := ck_setBytes n c in
          (Ret (Some (size c)), c)
      end
  end.

Fixpoint displace_loop (fuel : nat) (bytesToDisplace displaced : Z) : st B_Chunks (option Z) := fun c =>
  match fuel with
  | O => (Exc out_of_fuel, c)
  | S fuel =>
      if negb (bytesToDisplace =? 0) then
        match m_chunksVector c with
        | [] => (Ret (Some displaced), c)
        | c0 :: rest =>
            if csize c0 <=? bytesToDisplace then
              let c := ck_dec (csize c0) c in
              displace_loop fuel (bytesToDisplace - csize c0) (u64 (displaced + csize c0))
                (set_chunks rest c)
            else
              let c := set_chunks (chunk_displace bytesToDisplace c0 :: rest) c in
              let c := ck_dec bytesToDisplace c in
              displace_loop fuel 0 (u64 (displaced + bytesToDisplace)) c
        end
      else (Ret (Some displaced), recalcChunkOffsets c)
  end.

Definition displace2 (roBytesToDisplace : Z) : st B_Chunks (option Z) := fun c =>
  match m_mmapContainer c with
  | Some m => on_mmap m (displace roBytesToDisplace) c
  | None => displace_loop (S (S (length (m_chunksVector c)))) roBytesToDisplace 0 c
  end.

(** ** Copies *)

(** The selection of the chunk areas to copy, common to [copyToStream2] and
    [copyToStreamableObject2]. *)
Fixpoint select_chunks (chunks : list BinaryContainerChunk) (offset dataToCopy : Z) : list bytes :=
  match chunks with
  | [] => []
  | i :: chunks =>
      let cur := match rodata i with None => with_ro (data i) (csize i) i | Some _ => i end in
      if (offset >? 0) && (offset >? rosize cur) then
        select_chunks chunks (u64 (offset - rosize cur)) dataToCopy
      else
        let cur :=
          if offset >? 0 then
            with_ro (option_map (zdrop offset) (rodata cur)) (u64 (rosize cur - offset)) cur
          else cur in
        let n := Z.min dataToCopy (rosize cur) in
        let dataToCopy := u64 (dataToCopy - n) in
        ztake n (default [] (rodata cur)) ::
          (if dataToCopy =? 0 then [] else select_chunks chunks 0 dataToCopy)
  end.

Definition copyToStream2 {O} `{Ostream O} (c : B_Chunks) (roBytes offset : Z) (out : O)
    : option Z * O :=
  match m_mmapContainer c with
  | Some m => copyToStream m roBytes offset out
  | None =>
      let n := roBytes in
      if n =? 0 then (Some 0, out)
      else if CHECK_UINT_OVERFLOW_SUM offset n then (None, out)
      else if offset >? size c then (None, out)
      else
        let n := if u64 (offset + n) >? size c then u64 (size c - offset) else n in
        copyToStreamUsingCleanVector (select_chunks (m_chunksVector c) offset n) 0 out
  end.

Definition copyToStreamableObject2 {S} `{Streamable S} (c : B_Chunks) (roBytes offset : Z)
    : st S (option Z) :=
  match m_mmapContainer c with
  | Some m => appendTo m roBytes offset
  | None =>
      let n := roBytes in
      if n =? 0 then ret (Some 0)
      else if CHECK_UINT_OVERFLOW_SUM offset n then ret None
      else if offset >? size c then ret None
      else
        let n := if u64 (offset + n) >? size c then u64 (size c - offset) else n in
        copyToStreamableObjectUsingCleanVector (select_chunks (m_chunksVector c) offset n) 0
  end.

(** The loop of [copyToBuffer2] over the chunks from the located one on. *)
Fixpoint copyToBuffer_loop (chunks : list BinaryContainerChunk) (n : Z) : bytes :=
  match chunks with
  | [] => []
  | cur :: rest =>
      if n >? csize cur then
        ztake (csize cur) (chunk_bytes cur) ++ copyToBuffer_loop rest (u64 (n - csize cur))
      else ztake n (chunk_bytes cur)
  end.

Definition copyToBuffer2 (c : B_Chunks) (n offset : Z) : option bytes :=
  match m_mmapContainer c with
  | Some m => copyOut m n offset
  | None =>
      if CHECK_UINT_OVERFLOW_SUM offset n then None
      else if n =? 0 then Some []
      else if u64 (offset + n) >? size c then None
      else
        match I_Chunk_GetPosForOffset c offset with
        | None => None
        | Some icurrentChunk =>
            let currentChunk := moveToOffset offset (chunk_at c icurrentChunk) in
            Some (copyToBuffer_loop
                    (currentChunk :: zdrop (icurrentChunk + 1) (m_chunksVector c)) n)
        end
  end.

(** ** Comparing and searching *)

Fixpoint compare_loop (chunks : list BinaryContainerChunk) (offset dataToCompare : Z)
    (buf : bytes) (caseSensitive : bool) : bool :=
  match chunks with
  | [] => dataToCompare =? 0
  | i :: chunks =>
      if (offset >? 0) && (offset >? csize i) then
        compare_loop chunks (u64 (offset - csize i)) dataToCompare buf caseSensitive
      else
        let cur := if offset >? 0 then zdrop offset (chunk_bytes i) else chunk_bytes i in
        let cursize := if offset >? 0 then u64 (csize i - offset) else csize i in
        let currentChunkSize := Z.min dataToCompare cursize in
        if negb (memicmp2 cur buf currentChunkSize caseSensitive =? 0) then false
        else
          let dataToCompare := u64 (dataToCompare - currentChunkSize) in
          if dataToCompare =? 0 then true
          else compare_loop chunks 0 dataToCompare (zdrop currentChunkSize buf) caseSensitive
  end.

Definition compare2 (c : B_Chunks) (buf : bytes) (caseSensitive : bool) (offset : Z) : bool :=
  match m_mmapContainer c with
  | Some m => compare m buf caseSensitive offset
  | None =>
      if CHECK_UINT_OVERFLOW_SUM offset (zlen buf) then false
      else if zlen buf =? 0 then true
      else if u64 (offset + zlen buf) >? size c then false
      else compare_loop (m_chunksVector c) offset (zlen buf) buf caseSensitive
  end.

(** The position reported by the two searches of [findChar] in one area. *)
Definition find_in_area (c : ascii) (caseSensitive : bool) (area : bytes) : option Z :=
  if negb caseSensitive then memchr c area
  else
    match memchr (toupper c) area, memchr (tolower c) area with
    | Some pos_upper, Some pos_lower =>
        Some (if pos_upper <=? pos_lower then pos_upper else pos_lower)
    | Some pos_upper, None => Some pos_upper
    | None, Some pos_lower => Some pos_lower
    | None, None => None
    end.

Fixpoint findChar_loop (chunks : list BinaryContainerChunk) (c : ascii) (caseSensitive : bool)
    (offset searchSpace retpos : Z) : option Z :=
  match chunks with
  | [] => None
  | i :: chunks =>
      if (offset >? 0) && (offset >? csize i) then
        findChar_loop chunks c caseSensitive (u64 (offset - csize i)) searchSpace
          (u64 (retpos + csize i))
      else
        let cur := if offset >? 0 then zdrop offset (chunk_bytes i) else chunk_bytes i in
        let cursize := if offset >? 0 then u64 (csize i - offset) else csize i in
        let skipped := if offset >? 0 then offset else 0 in
        match find_in_area c caseSensitive (ztake (Z.min searchSpace cursize) cur) with
        | Some pos => Some (u64 (skipped + pos + retpos))
        | None =>
            if searchSpace >? cursize then
              findChar_loop chunks c caseSensitive 0 (u64 (searchSpace - cursize))
                (u64 (retpos + csize i))
            else None
        end
  end.

Definition findChar (c : B_Chunks) (ch : ascii) (offset searchSpace : Z) (caseSensitive : bool)
    : res (option Z) :=
  let caseSensitive := if caseSensitive && negb (isalpha ch) then false else caseSensitive in
  match m_mmapContainer c with
  | Some m => v_findChar m ch offset 0 false
  | None =>
      let currentSize := size c in
      if CHECK_UINT_OVERFLOW_SUM offset searchSpace then Ret None
      else if (offset >? currentSize) || (u64 (offset + searchSpace) >? currentSize) then Ret None
      else Ret (findChar_loop (m_chunksVector c) ch caseSensitive offset searchSpace 0)
  end.

(** ** Appending and prepending *)

(** [append2]'s loop; out of fuel only when [m_maxChunkSize] is 0. *)
Fixpoint append_loop (fuel : nat) (buf : bytes) (prependMode : bool) (appendedBytes : Z)
    : st B_Chunks (option Z) := fun c =>
  match fuel with
  | O => (Exc out_of_fuel, c)
  | S fuel =>
      if negb (zlen buf =? 0) then
        let chunkSize := Z.min (zlen buf) (m_maxChunkSize c) in
        if zlen (m_chunksVector c) + 1 >? m_maxChunks c then (Ret (Some appendedBytes), c)
        else
          let bcc := chunk_copy buf chunkSize chunk_new in
          let c :=
            if negb prependMode then
              let bcc :=
                match last (m_chunksVector c) with
                | None => with_offset 0 bcc
                | Some l => with_offset (nextOffset l) bcc
                end in
              set_chunks (m_chunksVector c ++ [bcc]) c
            else set_chunks (bcc :: m_chunksVector c) c in
          let c := ck_inc (csize bcc) c in
          append_loop fuel (zdrop chunkSize buf) prependMode (u64 (appendedBytes + csize bcc)) c
      else (Ret (Some appendedBytes), if prependMode then recalcChunkOffsets c else c)
  end.

Section Append.
Context `{MmapFactory M}.

Definition copyToFS (c : B_Chunks) : res (option M) :=
  match new_mmap (ck_base c) with
  | None => Ret None
  | Some mmapbc =>
      match appendTo_with (size c) (copyToStreamableObject2 c) SIZE_MAX 0 mmapbc with
      | (Exc e, _) => Exc e
      | (Ret bytesAppended, mmapbc) =>
          match bytesAppended with
          | Some n => if n =? size c then Ret (Some mmapbc) else Ret None
          | None => Ret None
          end
      end
  end.

(** Rounds of the loop: each consumes a byte, or, with chunks of size 0, adds an
    empty chunk. *)
Definition append_rounds (buf : bytes) (c : B_Chunks) : nat :=
  if m_maxChunkSize c =? 0 then S (Z.to_nat (m_maxChunks c - zlen (m_chunksVector c)))
  else S (length buf).

Definition append2 (buf : bytes) (prependMode : bool) : st B_Chunks (option Z) := fun c =>
  let len := zlen buf in
  match m_mmapContainer c with
  | Some m => on_mmap m (if prependMode then prepend buf else append buf) c
  | None =>
      if CHECK_UINT_OVERFLOW_SUM len (size c) then (Ret None, c)
      else if negb (m_maxSizeInMemoryBeforeMovingToDisk c =? 0)
              && (u64 (len + size c) >? m_maxSizeInMemoryBeforeMovingToDisk c) then
        match copyToFS c with
        | Exc e => (Exc e, c)
        | Ret None => (Ret None, c)
        | Ret (Some m) =>
            let c := clearChunks (set_mmap (Some m) c) in
            on_mmap m (if prependMode then prepend buf else append buf) c
        end
      else append_loop (append_rounds buf c) buf prependMode 0 c
  end.

#[export] Instance B_Chunks_container : BBase B_Chunks := {
  b_get := ck_base;
  b_set := ck_set;
  v_size := size;
  v_findChar := findChar;
  v_truncate2 := truncate2;
  v_append2 := append2;
  v_displace2 := displace2;
  v_clear2 := clear2;
  v_copyToStream2 := @copyToStream2;
  v_copyToStreamableObject2 := @copyToStreamableObject2;
  v_copyToBuffer2 := copyToBuffer2;
  v_compare2 := compare2
}.
End Append.
End BChunks.

Arguments B_Chunks M : clear implicits.
