(* ===== verification/BChunksFacts.v ===== *)
(** * The chunked container against its abstraction

    The invariant of B_Chunks while its data is in memory, the byte string it
    stands for, and the lemmas that each member acts on that string as its
    contract says, as far as it does. *)

From S2P Require Import Prelude Mem SafeInt StreamableObject BBase BMem BChunk BChunks.

#[global] Arguments BChunks.size : simpl never.

(** ** The abstraction *)

Definition chunks_bytes (v : list BinaryContainerChunk) : bytes := concat (map chunk_bytes v).

(** The offsets follow the sizes, from [off] on. *)
Fixpoint chained (off : Z) (v : list BinaryContainerChunk) : Prop :=
  match v with
  | [] => True
  | c :: v => coffset c = off /\ chained (off + csize c) v
  end.

Lemma zlen_chunks_cons c v :
  chunk_wf c -> zlen (chunks_bytes (c :: v)) = csize c + zlen (chunks_bytes v).
Proof.
  intros [Hs _]%chunk_wf_size. unfold chunks_bytes. cbn [map concat]. rewrite zlen_app. lia.
Qed.

Lemma chunks_bytes_app v w : chunks_bytes (v ++ w) = chunks_bytes v ++ chunks_bytes w.
Proof. unfold chunks_bytes. by rewrite map_app, concat_app. Qed.

Lemma chunks_bytes_cons c v : chunks_bytes (c :: v) = chunk_bytes c ++ chunks_bytes v.
Proof. done. Qed.

Lemma chained_app off v w :
  Forall chunk_wf v -> chained off (v ++ w) <-> chained off v /\ chained (off + zlen (chunks_bytes v)) w.
Proof.
  intros Hv. revert off. induction Hv as [|c v Hc _ IH]; intros off; cbn [app chained].
  - change (chunks_bytes []) with (@nil ascii). rewrite zlen_nil, Z.add_0_r. tauto.
  - rewrite IH, zlen_chunks_cons by done. rewrite Z.add_assoc. tauto.
Qed.

(** Dropping the chunks that lie entirely before an offset. *)
Lemma slice_skip_chunk c v off n :
  chunk_wf c -> csize c <= off -> 0 <= off ->
  slice off n (chunks_bytes (c :: v)) = slice (off - csize c) n (chunks_bytes v).
Proof.
  intros [Hs Hp]%chunk_wf_size Ho ?. rewrite chunks_bytes_cons. unfold slice.
  rewrite zdrop_app_ge by lia. by rewrite Hs.
Qed.

Lemma slice_in_chunk c v off n :
  chunk_wf c -> 0 <= off <= csize c ->
  slice off n (chunks_bytes (c :: v)) =
  ztake n (zdrop off (chunk_bytes c)) ++ ztake (n - (csize c - off)) (chunks_bytes v).
Proof.
  intros [Hs Hp]%chunk_wf_size Ho. rewrite chunks_bytes_cons. unfold slice.
  rewrite zdrop_app_le by lia. rewrite ztake_app, zlen_zdrop. do 2 f_equal. lia.
Qed.

(** The invariants, decided. *)
Definition chunk_ok (c : BinaryContainerChunk) : bool :=
  match rodata c, data c with
  | None, Some d => (csize c =? zlen d) && (0 <? csize c)
  | _, _ => false
  end.

Lemma chunks_ok v : forallb chunk_ok v = true -> Forall chunk_wf v.
Proof.
  intros Hv%Is_true_true%forallb_True. eapply Forall_impl; [exact Hv|].
  intros c Hc%Is_true_true. unfold chunk_ok in Hc.
  destruct (rodata c) eqn:Er; [done|]. destruct (data c) as [d|] eqn:Ed; [|done].
  apply andb_true_iff in Hc as [?%Z.eqb_eq ?%Z.ltb_lt]. split; [done|]. split; [by exists d|].
  unfold chunk_bytes. by rewrite Ed.
Qed.

Fixpoint chained_ok (off : Z) (v : list BinaryContainerChunk) : bool :=
  match v with
  | [] => true
  | c :: v => (coffset c =? off) && chained_ok (off + csize c) v
  end.

Lemma chained_ok_spec off v : chained_ok off v = true -> chained off v.
Proof.
  revert off. induction v as [|c v IH]; intros off; [done|]. cbn [chained_ok chained].
  intros [?%Z.eqb_eq ?]%andb_true_iff. auto.
Qed.

(** ** Reading *)

Lemma select_chunks_bytes v off n :
  Forall chunk_wf v -> 0 <= off -> 0 < n -> off + n <= zlen (chunks_bytes v) ->
  zlen (chunks_bytes v) <= SSIZE_MAX ->
  concat (select_chunks v off n) = slice off n (chunks_bytes v) /\
  (off = 0 -> Forall (fun x => x <> []) (select_chunks v off n)).
Proof.
  intros Hv. revert off n. induction Hv as [|c v Hc Hv IH]; intros off n Ho Hn Hb Hm.
  { change (zlen (chunks_bytes [])) with 0 in Hb. lia. }
  pose proof (chunk_wf_size c Hc) as [Hs Hp]. rewrite zlen_chunks_cons in Hb, Hm by done.
  pose proof (zlen_nonneg (chunks_bytes v)). cbn [select_chunks].
  assert (Hro : rodata c = None) by apply Hc. rewrite Hro. cbn [with_ro rodata rosize].
  rewrite (chunk_data c Hc), !Z.gtb_ltb. cbn [option_map default from_option].
  destruct (Z.ltb_spec 0 off); [destruct (Z.ltb_spec (csize c) off)|]; cbn [andb].
  - rewrite u64_small by (apply size_arith; lia).
    destruct (IH (off - csize c) n) as [-> ?]; [lia..|].
    rewrite slice_skip_chunk by (done || lia). split; [done|lia].
  - cbn [with_ro rodata rosize option_map from_option].
    rewrite (u64_small (csize c - off)) by (apply size_arith; lia).
    rewrite (u64_small (n - _)) by (apply size_arith; lia).
    rewrite slice_in_chunk by (done || lia). split; [|lia]. cbn [concat].
    assert (Ht : ztake (Z.min n (csize c - off)) (zdrop off (chunk_bytes c))
                 = ztake n (zdrop off (chunk_bytes c))).
    { destruct (Z.le_gt_cases n (csize c - off)); [by rewrite Z.min_l by lia|].
      rewrite !ztake_ge; [done|rewrite zlen_zdrop; lia..]. }
    cbn [id]. rewrite Ht. f_equal.
    case_cond; zbool; [rewrite ztake_le0 by lia; done|].
    destruct (IH 0 (n - Z.min n (csize c - off))) as [-> _]; [lia..|].
    rewrite slice_0. f_equal. lia.
  - assert (off = 0) as -> by lia. cbn [with_ro rodata rosize option_map from_option].
    rewrite (u64_small (n - _)) by (apply size_arith; lia).
    rewrite slice_in_chunk by (done || lia). rewrite zdrop_le0 by lia. cbn [concat].
    assert (Ht : ztake (Z.min n (csize c)) (chunk_bytes c) = ztake n (chunk_bytes c)).
    { destruct (Z.le_gt_cases n (csize c)); [by rewrite Z.min_l by lia|]. by rewrite !ztake_ge by lia. }
    assert (Hne : ztake n (chunk_bytes c) <> []).
    { intros He%(f_equal zlen). revert He. rewrite zlen_ztake. change (zlen (@nil ascii)) with 0. lia. }
    cbn [id]. rewrite Ht. case_cond; zbool.
    + rewrite (ztake_le0 (n - _) (chunks_bytes v)) by lia. split; [done|]. intros _. by constructor.
    + destruct (IH 0 (n - Z.min n (csize c))) as [Hc1 Hc2]; [lia..|].
      rewrite Hc1, slice_0. split; [|intros _; constructor; [done|by apply Hc2]].
      do 2 f_equal. lia.
Qed.

Lemma copyToBuffer_loop_bytes v n :
  Forall chunk_wf v -> 0 < n <= zlen (chunks_bytes v) -> zlen (chunks_bytes v) <= SSIZE_MAX ->
  copyToBuffer_loop v n = ztake n (chunks_bytes v).
Proof.
  intros Hv. revert n. induction Hv as [|c v Hc Hv IH]; intros n Hn Hm.
  { change (zlen (chunks_bytes [])) with 0 in Hn. lia. }
  pose proof (chunk_wf_size c Hc) as [Hs Hp]. rewrite zlen_chunks_cons in Hn, Hm by done.
  pose proof (zlen_nonneg (chunks_bytes v)). cbn [copyToBuffer_loop].
  rewrite chunks_bytes_cons, ztake_app, Z.gtb_ltb. case_cond; zbool.
  - rewrite !(ztake_ge _ (chunk_bytes c)) by lia. f_equal.
    rewrite u64_small by (apply size_arith; lia). rewrite IH by lia. by rewrite Hs.
  - rewrite (ztake_le0 (n - _)) by lia. by rewrite app_nil_r.
Qed.

(** *** Comparing *)

Lemma same_text_app cs a b c d :
  length a = length c -> same_text cs (a ++ b) (c ++ d) <-> same_text cs a c /\ same_text cs b d.
Proof.
  intros Hl. destruct cs; simpl.
  - split; [by intros ?%app_inj_1|by intros [-> ->]].
  - rewrite !map_app. split; [intros ?%app_inj_1; [done|by rewrite !length_map]|by intros [-> ->]].
Qed.

Lemma zlen_eq_length {A B} (a : list A) (b : list B) : zlen a = zlen b -> length a = length b.
Proof. unfold zlen. lia. Qed.

Lemma compare_loop_bytes v off buf cs :
  Forall chunk_wf v -> 0 <= off -> 0 < zlen buf -> off + zlen buf <= zlen (chunks_bytes v) ->
  zlen (chunks_bytes v) <= SSIZE_MAX ->
  compare_loop v off (zlen buf) buf cs = bool_decide (same_text cs (slice off (zlen buf) (chunks_bytes v)) buf).
Proof.
  intros Hv. revert off buf. induction Hv as [|c v Hc Hv IH]; intros off buf Ho Hn Hb Hm.
  { change (zlen (chunks_bytes [])) with 0 in Hb. lia. }
  pose proof (chunk_wf_size c Hc) as [Hs Hp]. rewrite zlen_chunks_cons in Hb, Hm by done.
  pose proof (zlen_nonneg (chunks_bytes v)). cbn [compare_loop]. rewrite !Z.gtb_ltb.
  destruct ((0 <? off) && (csize c <? off)) eqn:Eskip.
  { zbool. rewrite u64_small by (apply size_arith; lia). rewrite IH by lia.
    by rewrite slice_skip_chunk by (done || lia). }
  apply andb_false_iff in Eskip.
  assert (Hoc : off <= csize c) by (destruct Eskip; zbool; lia).
  set (cur := if 0 <? off then zdrop off (chunk_bytes c) else chunk_bytes c).
  assert (Hcur : cur = zdrop off (chunk_bytes c)).
  { unfold cur. case_cond; [done|]. zbool. by rewrite zdrop_le0 by lia. }
  replace (if 0 <? off then u64 (csize c - off) else csize c) with (csize c - off)
    by (case_cond; zbool; [rewrite u64_small; [done|apply size_arith; lia]|lia]).
  set (k := Z.min (zlen buf) (csize c - off)).
  assert (Hzc : zlen cur = csize c - off) by (rewrite Hcur, zlen_zdrop; lia).
  pose proof (memicmp2_same_text cur buf k cs ltac:(lia) ltac:(lia) ltac:(lia)) as Hcmp.
  rewrite slice_in_chunk by (done || lia). rewrite <- Hcur.
  assert (Hk : ztake (zlen buf) cur = ztake k cur).
  { unfold k. destruct (Z.le_gt_cases (zlen buf) (csize c - off)); [by rewrite Z.min_l by lia|].
    rewrite !ztake_ge by lia. done. }
  assert (Hlen : length (ztake k cur) = length (ztake k buf)).
  { apply zlen_eq_length. rewrite !zlen_ztake. lia. }
  assert (Hiff : same_text cs (ztake k cur ++ ztake (zlen buf - (csize c - off)) (chunks_bytes v)) buf <->
     same_text cs (ztake k cur) (ztake k buf) /\
     same_text cs (ztake (zlen buf - (csize c - off)) (chunks_bytes v)) (zdrop k buf)).
  { rewrite <- same_text_app by done. by rewrite ztake_zdrop. }
  rewrite Hk, (bool_decide_ext _ _ Hiff). destruct (memicmp2 cur buf k cs =? 0) eqn:Em; zbool; simpl.
  2:{ symmetry. apply bool_decide_eq_false_2. intros [? _]. tauto. }
  rewrite u64_small by (apply size_arith; lia).
  case_cond; zbool.
  - symmetry. apply bool_decide_eq_true_2. split; [tauto|].
    rewrite ztake_le0, zdrop_ge by lia. by destruct cs.
  - assert (Hzb : zlen (zdrop k buf) = zlen buf - k) by (rewrite zlen_zdrop; lia).
    rewrite <- Hzb, IH by lia. rewrite slice_0, Hzb.
    replace (zlen buf - k) with (zlen buf - (csize c - off)) by lia.
    apply bool_decide_ext. tauto.
Qed.

(** *** Searching *)

Lemma toupper_or_tolower c : toupper c = c \/ tolower c = c.
Proof.
  assert (Hall : forallb (fun c => bool_decide (toupper c = c) || bool_decide (tolower c = c)) all_chars
    = true) by (vm_compute; reflexivity).
  pose proof (forall_chars _ Hall c) as H. simpl in H. apply orb_true_iff in H as [?%bool_decide_eq_true|?%bool_decide_eq_true]; auto.
Qed.

Lemma memchr_no_skip ch v : no_skip v 0 ch (memchr ch v).
Proof. pose proof (memchr_first ch v). unfold no_skip. destruct (memchr ch v); tauto. Qed.

Lemma find_in_area_no_skip ch cs area : no_skip area 0 ch (find_in_area ch cs area).
Proof.
  unfold find_in_area. destruct cs; simpl; [|apply memchr_no_skip].
  pose proof (memchr_first (toupper ch) area) as Hu. pose proof (memchr_first (tolower ch) area) as Hl.
  assert (Hboth : forall p, (0 <= p < zlen area /\
      (forall q, 0 <= q < p -> ~ has_char area q (toupper ch)) /\
      (forall q, 0 <= q < p -> ~ has_char area q (tolower ch))) -> no_skip area 0 ch (Some p)).
  { intros p (? & H1 & H2). split; [done|]. destruct (toupper_or_tolower ch) as [<-|<-]; done. }
  destruct (memchr (toupper ch) area) as [pu|], (memchr (tolower ch) area) as [pl|].
  - destruct Hu as (? & ? & Hu), Hl as (? & ? & Hl). apply Hboth.
    case_cond; zbool; (split; [lia|]); split; intros q ?; (apply Hu || apply Hl); lia.
  - destruct Hu as (? & ? & Hu). apply Hboth. split; [lia|]. split; [done|]. intros; apply Hl; lia.
  - destruct Hl as (? & ? & Hl). apply Hboth. split; [lia|]. split; [|done]. intros; apply Hu; lia.
  - intros q Hq. destruct (toupper_or_tolower ch) as [<-|<-]; auto.
Qed.

(** Extending a search of [v] with one of the following [w]. *)
Lemma no_skip_app v w from ch r :
  0 <= from <= zlen v -> (forall q, from <= q -> ~ has_char v q ch) ->
  no_skip w 0 ch r -> no_skip (v ++ w) from ch (option_map (Z.add (zlen v)) r).
Proof.
  intros Hf Hv Hr. destruct r as [p|]; simpl in *.
  - destruct Hr as [Hp Hr]. rewrite zlen_app. split; [lia|]. intros q Hq.
    rewrite has_char_app by lia. case_decide; [apply Hv; lia|apply Hr; lia].
  - intros q Hq. rewrite has_char_app by lia. case_decide; [by apply Hv|apply Hr; lia].
Qed.

Lemma no_skip_app_l v w from ch p :
  0 <= from -> no_skip v from ch (Some p) -> no_skip (v ++ w) from ch (Some p).
Proof.
  intros Hf [Hp Hv]. pose proof (zlen_nonneg w). split; [rewrite zlen_app; lia|].
  intros q Hq. rewrite has_char_app by lia. rewrite decide_True by lia. by apply Hv.
Qed.

Lemma no_skip_zdrop v from ch r :
  0 <= from <= zlen v -> no_skip (zdrop from v) 0 ch r -> no_skip v from ch (option_map (Z.add from) r).
Proof.
  intros Hf Hr. assert (Hl : zlen (ztake from v) = from) by (rewrite zlen_ztake; lia).
  pose proof (ztake_zdrop from v) as Hv. revert Hr Hl Hv.
  generalize (ztake from v), (zdrop from v). intros t d Hr <- <-.
  apply no_skip_app; [pose proof (zlen_nonneg t); lia| |done]. intros q Hq Hc%has_char_lt; [lia|].
  pose proof (zlen_nonneg t). lia.
Qed.

Lemma findChar_loop_no_skip v ch cs off r0 :
  Forall chunk_wf v -> 0 <= off <= zlen (chunks_bytes v) -> 0 <= r0 ->
  r0 + zlen (chunks_bytes v) <= SSIZE_MAX ->
  exists r, findChar_loop v ch cs off (zlen (chunks_bytes v) - off) r0 = option_map (Z.add r0) r /\
    no_skip (chunks_bytes v) off ch r.
Proof.
  intros Hv. revert off r0. induction Hv as [|c v Hc Hv IH]; intros off r0 Ho Hr Hm.
  { exists None. split; [done|]. intros q Hq Hc%has_char_lt; [|lia]. change (q < 0) in Hc. lia. }
  pose proof (chunk_wf_size c Hc) as [Hs Hp]. rewrite zlen_chunks_cons in Ho, Hm |- * by done.
  pose proof (zlen_nonneg (chunks_bytes v)). cbn [findChar_loop]. rewrite !Z.gtb_ltb.
  rewrite chunks_bytes_cons. destruct ((0 <? off) && (csize c <? off)) eqn:Eskip; zbool.
  - rewrite !u64_small by (apply size_arith; lia).
    replace (csize c + zlen (chunks_bytes v) - off) with (zlen (chunks_bytes v) - (off - csize c)) by lia.
    destruct (IH (off - csize c) (r0 + csize c)) as (r & -> & Hno); [lia..|].
    exists (option_map (Z.add (csize c)) r). split; [destruct r; simpl; [f_equal; lia|done]|].
    rewrite Hs in *. destruct r as [p|]; simpl in *.
    + destruct Hno as [Hp' Hno]. split; [rewrite zlen_app; lia|]. intros q Hq.
      rewrite has_char_app by lia. rewrite decide_False by lia. apply Hno. lia.
    + intros q Hq. rewrite has_char_app by lia. rewrite decide_False by lia. apply Hno. lia.
  - apply andb_false_iff in Eskip. assert (Hoc : off <= csize c) by (destruct Eskip; zbool; lia).
    set (cur := if 0 <? off then zdrop off (chunk_bytes c) else chunk_bytes c).
    assert (Hcur : cur = zdrop off (chunk_bytes c)).
    { unfold cur. case_cond; [done|]. zbool. by rewrite zdrop_le0 by lia. }
    replace (if 0 <? off then u64 (csize c - off) else csize c) with (csize c - off)
      by (case_cond; zbool; [rewrite u64_small; [done|apply size_arith; lia]|lia]).
    replace (if 0 <? off then off else 0) with off by (case_cond; zbool; lia).
    assert (Hzc : zlen cur = csize c - off) by (rewrite Hcur, zlen_zdrop; lia).
    rewrite (ztake_ge _ cur) by lia. pose proof (find_in_area_no_skip ch cs cur) as Hin.
    rewrite Hcur in Hin at 1. apply no_skip_zdrop in Hin; [|lia].
    destruct (find_in_area ch cs cur) as [p|]; simpl in Hin.
    + pose proof Hin as [Hp' _]. exists (Some (off + p)). split.
      * simpl. rewrite u64_small by (apply size_arith; lia). f_equal. lia.
      * apply no_skip_app_l; [lia|done].
    + assert (Htail : exists r, (if csize c - off <? csize c + zlen (chunks_bytes v) - off
          then findChar_loop v ch cs 0 (u64 (csize c + zlen (chunks_bytes v) - off - (csize c - off))) (u64 (r0 + csize c))
          else None) = option_map (Z.add (r0 + csize c)) r /\ no_skip (chunks_bytes v) 0 ch r).
      { case_cond; zbool.
        - rewrite !u64_small by (apply size_arith; lia).
          replace (csize c + zlen (chunks_bytes v) - off - (csize c - off)) with (zlen (chunks_bytes v) - 0) by lia.
          apply IH; lia.
        - exists None. split; [done|]. intros q ? Hq%has_char_lt; lia. }
      destruct Htail as (r & -> & Hno). exists (option_map (Z.add (csize c)) r). split.
      * destruct r; simpl; [f_equal; lia|done].
      * rewrite Hs. by apply no_skip_app; [lia|..].
Qed.

(** ** Locating an offset *)

Section Facts.
Context {M : Type} `{BBase M}.
Implicit Types c : B_Chunks M.

(** Where the [i]-th chunk starts. *)
Definition start (v : list BinaryContainerChunk) (i : Z) : Z := zlen (chunks_bytes (ztake i v)).

Lemma start_0 v : start v 0 = 0.
Proof. unfold start. by rewrite ztake_le0 by lia. Qed.

Lemma start_end v : start v (zlen v) = zlen (chunks_bytes v).
Proof. unfold start. by rewrite ztake_ge by lia. Qed.

Lemma chunk_at_split c i :
  0 <= i < zlen (m_chunksVector c) ->
  m_chunksVector c = ztake i (m_chunksVector c) ++ chunk_at c i :: zdrop (i + 1) (m_chunksVector c).
Proof.
  intros Hi. unfold chunk_at. rewrite ztake_take, zdrop_drop.
  destruct (lookup_lt_is_Some_2 (m_chunksVector c) (Z.to_nat i)) as [x Hx]; [unfold zlen in Hi; lia|].
  rewrite Hx. cbn [default from_option id]. replace (Z.to_nat (i + 1)) with (S (Z.to_nat i)) by lia.
  symmetry. by apply take_drop_middle.
Qed.

Lemma chunk_at_wf c i :
  0 <= i < zlen (m_chunksVector c) -> Forall chunk_wf (m_chunksVector c) -> chunk_wf (chunk_at c i).
Proof. intros Hi Hf. rewrite (chunk_at_split c i Hi), Forall_app, Forall_cons in Hf. tauto. Qed.

Lemma start_succ c i :
  0 <= i < zlen (m_chunksVector c) -> Forall chunk_wf (m_chunksVector c) ->
  start (m_chunksVector c) (i + 1) = start (m_chunksVector c) i + csize (chunk_at c i).
Proof.
  intros Hi Hf. pose proof (chunk_at_wf c i Hi Hf) as [Hs _]%chunk_wf_size. unfold start.
  rewrite (chunk_at_split c i Hi) at 1. rewrite ztake_app.
  assert (Hl : zlen (ztake i (m_chunksVector c)) = i) by (rewrite zlen_ztake; lia).
  rewrite Hl, (ztake_ge (i + 1) (ztake i _)) by (rewrite Hl; lia). replace (i + 1 - i) with (0 + 1) by lia.
  rewrite ztake_succ, (ztake_le0 0) by lia. rewrite chunks_bytes_app, zlen_app, Hs.
  unfold chunks_bytes at 2. simpl. by rewrite app_nil_r.
Qed.

Lemma chained_at c i :
  0 <= i < zlen (m_chunksVector c) -> Forall chunk_wf (m_chunksVector c) ->
  chained 0 (m_chunksVector c) -> coffset (chunk_at c i) = start (m_chunksVector c) i.
Proof.
  intros Hi Hf Hch. rewrite (chunk_at_split c i Hi) in Hch, Hf. apply Forall_app in Hf as [Hf _].
  apply chained_app in Hch as [_ [Hch _]]; [|done]. by rewrite Hch.
Qed.

Lemma start_bound c i :
  0 <= i <= zlen (m_chunksVector c) ->
  0 <= start (m_chunksVector c) i <= zlen (chunks_bytes (m_chunksVector c)).
Proof.
  intros Hi. split; [apply zlen_nonneg|]. unfold start.
  rewrite <- (ztake_zdrop i (m_chunksVector c)) at 2. rewrite chunks_bytes_app, zlen_app.
  pose proof (zlen_nonneg (chunks_bytes (zdrop i (m_chunksVector c)))). lia.
Qed.

(** In memory: the chunks are well formed and the byte count is theirs. *)
Definition ck_view c : bytes := chunks_bytes (m_chunksVector c).
Definition ck_data_wf c : Prop :=
  m_mmapContainer c = None /\ Forall chunk_wf (m_chunksVector c) /\
  m_containerBytes (ck_base c) = zlen (ck_view c) /\ zlen (ck_view c) <= SSIZE_MAX.
Definition ck_indexed c : Prop := chained 0 (m_chunksVector c).

Lemma contains_start c i offset :
  ck_data_wf c -> ck_indexed c -> 0 <= i < zlen (m_chunksVector c) ->
  containsOffset offset (chunk_at c i) =
  bool_decide (start (m_chunksVector c) i <= offset < start (m_chunksVector c) (i + 1)).
Proof.
  intros (_ & Hf & _ & Hm) Hx Hi. unfold containsOffset, nextOffset.
  pose proof (start_bound c (i + 1) ltac:(lia)) as Hb.
  rewrite chained_at by done. rewrite start_succ in * by done. unfold ck_view in Hm.
  rewrite u64_small by (apply size_arith; lia).
  apply eq_true_iff_eq. rewrite andb_true_iff, Z.leb_le, Z.ltb_lt, bool_decide_eq_true. lia.
Qed.

Lemma mid_pos_between a b : a <= b -> a <= mid_pos a b <= b.
Proof. intros. unfold mid_pos. case_cond; zbool; [lia|divlia]. Qed.

Lemma getPos_rec_spec fuel c offset curpos curmax curmin :
  ck_data_wf c -> ck_indexed c ->
  0 <= curmin <= curpos -> curpos <= curmax < zlen (m_chunksVector c) -> curmax - curmin < Z.of_nat fuel ->
  let s := start (m_chunksVector c) in
  match getPos_rec fuel c offset curpos curmax curmin with
  | Some i => curmin <= i <= curmax /\ s i <= offset < s (i + 1)
  | None => ~ (s curmin <= offset < s (curmax + 1))
  end.
Proof.
  intros Hwf Hx. revert curpos curmax curmin. induction fuel as [|fuel IH]; intros curpos curmax curmin Hlo Hhi Hf; [lia|].
  cbn zeta in *. cbn [getPos_rec]. rewrite contains_start by (done || lia).
  case_bool_decide as Hin; [lia|].
  rewrite chained_at by (try apply Hwf; done || lia). case_cond; zbool.
  - case_cond; zbool; [subst; lia|]. pose proof (mid_pos_between curmin (curpos - 1) ltac:(lia)).
    specialize (IH (mid_pos curmin (curpos - 1)) (curpos - 1) curmin ltac:(lia) ltac:(lia) ltac:(lia)).
    destruct (getPos_rec _ _ _ _ _ _); [lia|]. replace (curpos - 1 + 1) with curpos in IH by lia. lia.
  - case_cond; zbool; [subst; lia|]. pose proof (mid_pos_between (curpos + 1) curmax ltac:(lia)).
    specialize (IH (mid_pos (curpos + 1) curmax) curmax (curpos + 1) ltac:(lia) ltac:(lia) ltac:(lia)).
    destruct (getPos_rec _ _ _ _ _ _); lia.
Qed.

Lemma GetPosForOffset_spec c offset :
  ck_data_wf c -> ck_indexed c -> 0 <= offset ->
  let s := start (m_chunksVector c) in
  match I_Chunk_GetPosForOffset c offset with
  | Some i => 0 <= i < zlen (m_chunksVector c) /\ s i <= offset < s (i + 1)
  | None => zlen (ck_view c) <= offset
  end.
Proof.
  intros Hwf Hx Ho. cbn zeta. unfold I_Chunk_GetPosForOffset.
  pose proof (zlen_nonneg (m_chunksVector c)). destruct (zlen (m_chunksVector c) =? 0) eqn:E0; zbool.
  { unfold ck_view. by rewrite (zlen_0_nil _ E0). }
  set (n := zlen (m_chunksVector c)) in *.
  assert (Hmax : (if n =? 1 then 0 else n - 1) = n - 1) by (case_cond; zbool; lia).
  rewrite Hmax. assert (Hpos : 0 <= (if n =? 1 then 0 else n / 2 - 1) <= n - 1).
  { case_cond; zbool; [lia|divlia]. }
  pose proof (getPos_rec_spec (S (length (m_chunksVector c))) c offset
    (if n =? 1 then 0 else n / 2 - 1) (n - 1) 0 Hwf Hx ltac:(lia) ltac:(lia)
    ltac:(unfold n, zlen; lia)) as Hg. cbn zeta in Hg.
  destruct (getPos_rec _ _ _ _ _ _) as [i|]; [lia|].
  rewrite start_0 in Hg. replace (n - 1 + 1) with n in Hg by lia. unfold n in Hg.
  rewrite start_end in Hg. unfold ck_view. lia.
Qed.
End Facts.
