(* ===== verification/BChunksSpec.v ===== *)
(** * B_Chunks implements the container contracts

    Each modifying member on the byte string of a container in memory, the
    instances of the contracts of BBase.v and StreamableObject.v, and the
    properties of the chunked container. *)

From S2P Require Import Prelude Mem SafeInt StreamableObject BBase BMem BChunk BChunks BChunksFacts.

Section Spec.
Context {M : Type} `{BBase M, MmapFactory M}.
Implicit Types c : B_Chunks M.

(** [c] with another vector of chunks and the byte count that goes with it. *)
Definition ck_put (v : list BinaryContainerChunk) c : B_Chunks M :=
  ck_setBytes (zlen (chunks_bytes v)) (set_chunks v c).

Lemma ck_put_id c : ck_data_wf c -> ck_put (m_chunksVector c) c = c.
Proof.
  intros (_ & _ & Hs & _). destruct c as [[] ? ? ? ? ?]. unfold ck_put, ck_setBytes, ck_view in *.
  simpl in *. by rewrite <- Hs.
Qed.

Lemma ck_put_put v w c : ck_put v (ck_put w c) = ck_put v c.
Proof. done. Qed.

Lemma ck_put_wf v c :
  m_mmapContainer c = None -> Forall chunk_wf v -> zlen (chunks_bytes v) <= SSIZE_MAX ->
  ck_data_wf (ck_put v c) /\ ck_view (ck_put v c) = chunks_bytes v.
Proof. intros. repeat split; done. Qed.

Lemma size_mem c : m_mmapContainer c = None -> size c = m_containerBytes (ck_base c).
Proof. unfold size. by intros ->. Qed.

Lemma size_ck c : ck_data_wf c -> size c = zlen (ck_view c).
Proof. intros (Hn & _ & Hs & _). by rewrite size_mem. Qed.

(** ** Appending *)

(** The chunks that may still be added. *)
Definition free_chunks c : Z := Z.max 0 (m_maxChunks c - zlen (m_chunksVector c)).

(** What the container accepts of [n] more bytes. *)
Definition accepted c (n : Z) : Z := Z.min n (free_chunks c * m_maxChunkSize c).

Definition appended_chunk c (buf : bytes) : BinaryContainerChunk :=
  let bcc := chunk_copy buf (Z.min (zlen buf) (m_maxChunkSize c)) chunk_new in
  match last (m_chunksVector c) with
  | None => with_offset 0 bcc
  | Some l => with_offset (nextOffset l) bcc
  end.

Lemma appended_chunk_wf c buf :
  buf <> [] -> 0 < m_maxChunkSize c ->
  chunk_wf (appended_chunk c buf) /\
  chunk_bytes (appended_chunk c buf) = ztake (Z.min (zlen buf) (m_maxChunkSize c)) buf /\
  csize (appended_chunk c buf) = Z.min (zlen buf) (m_maxChunkSize c).
Proof.
  intros Hne Hp. pose proof (zlen_pos buf Hne). unfold appended_chunk.
  destruct (chunk_copy_wf buf (Z.min (zlen buf) (m_maxChunkSize c))) as [Hw Hb]; [lia|].
  by destruct (last _); repeat split; try apply Hw.
Qed.

Lemma appended_chunk_chained c buf :
  ck_data_wf c -> ck_indexed c -> chained 0 (m_chunksVector c ++ [appended_chunk c buf]).
Proof.
  intros (Hn & Hf & Hs & Hm) Hx. apply chained_app; [done|]. split; [done|]. cbn [chained].
  split; [|done]. unfold appended_chunk. destruct (last (m_chunksVector c)) as [l|] eqn:El.
  2:{ apply last_None in El. rewrite El. done. }
  apply last_Some in El as [w Hw]. unfold ck_indexed, ck_view in *. rewrite Hw in *.
  apply Forall_app in Hf as [Hf [Hl _]%Forall_cons]. apply chained_app in Hx as [_ [Hl' _]]; [|done].
  rewrite chunks_bytes_app, zlen_app in *. rewrite zlen_chunks_cons in * by done.
  change (zlen (chunks_bytes [])) with 0 in *. apply chunk_wf_size in Hl as [Hl1 Hl2].
  pose proof (zlen_nonneg (chunks_bytes w)).
  simpl. unfold nextOffset. rewrite Hl', u64_small by (apply size_arith; lia). lia.
Qed.

(** One round of the loop. *)
Lemma append_loop_step fuel buf app c :
  ck_data_wf c -> buf <> [] -> 0 < m_maxChunkSize c -> zlen (m_chunksVector c) < m_maxChunks c ->
  0 <= app -> app + zlen buf <= SSIZE_MAX -> zlen (ck_view c) + zlen buf <= SSIZE_MAX ->
  append_loop (S fuel) buf false app c =
  append_loop fuel (zdrop (Z.min (zlen buf) (m_maxChunkSize c)) buf) false
    (app + Z.min (zlen buf) (m_maxChunkSize c))
    (ck_put (m_chunksVector c ++ [appended_chunk c buf]) c).
Proof.
  intros Hwf Hne Hp Hfree Ha Hab Hm. pose proof (zlen_pos buf Hne).
  destruct (appended_chunk_wf c buf Hne Hp) as (Hw & Hb & Hc).
  cbn [append_loop]. replace (zlen buf =? 0) with false by lia. cbn [negb].
  replace (zlen (m_chunksVector c) + 1 >? m_maxChunks c) with false by lia. fold (appended_chunk c buf).
  change (csize (chunk_copy buf (Z.min (zlen buf) (m_maxChunkSize c)) chunk_new))
    with (Z.min (zlen buf) (m_maxChunkSize c)).
  rewrite (u64_small (app + _)) by (apply size_arith; lia). f_equal.
  pose proof Hwf as (Hn & Hf & Hs & Hmax). unfold ck_inc, ck_put. f_equal.
  rewrite size_mem by done. cbn [set_chunks ck_base]. rewrite Hs.
  rewrite chunks_bytes_app, zlen_app. fold (ck_view c). pose proof (zlen_nonneg (ck_view c)).
  rewrite u64_small by (apply size_arith; lia). f_equal.
  rewrite zlen_chunks_cons by done. change (zlen (chunks_bytes [])) with 0. lia.
Qed.

Lemma append_loop_spec fuel buf app c :
  ck_data_wf c -> 0 < m_maxChunkSize c -> (length buf < fuel)%nat ->
  0 <= app -> app + zlen buf <= SSIZE_MAX -> zlen (ck_view c) + zlen buf <= SSIZE_MAX ->
  exists v,
    append_loop fuel buf false app c = (Ret (Some (app + accepted c (zlen buf))), ck_put v c) /\
    Forall chunk_wf v /\ chunks_bytes v = ck_view c ++ ztake (accepted c (zlen buf)) buf /\
    (ck_indexed c -> chained 0 v) /\ zlen v <= zlen (m_chunksVector c) + accepted c (zlen buf).
Proof.
  revert buf app c. induction fuel as [|fuel IH]; intros buf app c Hwf Hp Hf Ha Hab Hm; [lia|].
  pose proof (zlen_nonneg buf) as Hlen. pose proof (zlen_nonneg (m_chunksVector c)).
  assert (Hstop : accepted c (zlen buf) = 0 ->
    append_loop (S fuel) buf false app c = (Ret (Some app), c) ->
    exists v,
      append_loop (S fuel) buf false app c = (Ret (Some (app + accepted c (zlen buf))), ck_put v c) /\
      Forall chunk_wf v /\ chunks_bytes v = ck_view c ++ ztake (accepted c (zlen buf)) buf /\
      (ck_indexed c -> chained 0 v) /\ zlen v <= zlen (m_chunksVector c) + accepted c (zlen buf)).
  { intros Hz ->. exists (m_chunksVector c). rewrite Hz, ck_put_id, Z.add_0_r, ztake_le0, app_nil_r by (done || lia).
    split; [done|]. split; [apply Hwf|]. repeat split; [done|lia]. }
  unfold accepted, free_chunks in *. destruct (decide (buf = [])) as [->|Hne].
  { apply Hstop; [change (zlen (@nil ascii)) with 0; nia|done]. }
  pose proof (zlen_pos buf Hne). destruct (Z.lt_ge_cases (zlen (m_chunksVector c)) (m_maxChunks c)) as [Hfree|Hfree].
  2:{ apply Hstop; [rewrite Z.max_l by lia; lia|]. cbn [append_loop].
      replace (zlen buf =? 0) with false by lia. cbn [negb].
      by replace (zlen (m_chunksVector c) + 1 >? m_maxChunks c) with true by lia. }
  clear Hstop. rewrite append_loop_step by (done || lia).
  destruct (appended_chunk_wf c buf Hne Hp) as (Hw & Hb & Hc).
  set (k := Z.min (zlen buf) (m_maxChunkSize c)) in *. set (c1 := ck_put _ c).
  pose proof Hwf as (Hnone & Hfa & Hs & Hmax). pose proof (zlen_nonneg (ck_view c)).
  assert (Hbytes : chunks_bytes (m_chunksVector c ++ [appended_chunk c buf]) = ck_view c ++ ztake k buf).
  { rewrite chunks_bytes_app. f_equal. unfold chunks_bytes. simpl. by rewrite Hb, app_nil_r. }
  destruct (ck_put_wf (m_chunksVector c ++ [appended_chunk c buf]) c) as [Hwf1 Hv1]; [done| | |].
  { apply Forall_app. split; [done|]. by constructor. }
  { rewrite Hbytes, zlen_app, zlen_ztake. lia. }
  fold c1 in Hwf1, Hv1. rewrite Hbytes in Hv1.
  destruct (IH (zdrop k buf) (app + k) c1) as (v & Hv & Hfv & Hbv & Hcv & Hzv); [done|done| | | | |].
  { unfold zlen in *. rewrite zdrop_drop, length_drop. lia. }
  { lia. }
  { rewrite zlen_zdrop. lia. }
  { rewrite Hv1, zlen_app, zlen_ztake, zlen_zdrop. lia. }
  change (m_maxChunks c1) with (m_maxChunks c) in *.
  change (m_maxChunkSize c1) with (m_maxChunkSize c) in *.
  change (m_chunksVector c1) with (m_chunksVector c ++ [appended_chunk c buf]) in *.
  rewrite zlen_app, zlen_cons, zlen_nil, zlen_zdrop in *.
  set (fr := m_maxChunks c - zlen (m_chunksVector c)) in *.
  replace (m_maxChunks c - (zlen (m_chunksVector c) + (1 + 0))) with (fr - 1) in * by lia.
  replace (zlen buf - Z.max 0 (Z.min k (zlen buf))) with (zlen buf - k) in * by lia.
  rewrite (Z.max_r 0 (fr - 1)) in * by lia. rewrite (Z.max_r 0 fr) by lia.
  assert (Hsum : k + Z.min (zlen buf - k) ((fr - 1) * m_maxChunkSize c) = Z.min (zlen buf) (fr * m_maxChunkSize c)).
  { rewrite Z.mul_sub_distr_r, Z.mul_1_l. unfold k. nia. }
  exists v. rewrite Hv. split; [f_equal; do 2 f_equal; lia|]. split; [done|]. split; [|split].
  - rewrite Hbv, Hv1, <- app_assoc, <- Hsum. f_equal.
    set (m := Z.min (zlen buf - k) _). assert (0 <= m) by (unfold m, fr; nia).
    rewrite <- (slice_0 (k + m)), slice_app_split, (slice_0 k) by lia. done.
  - intros Hx. apply Hcv. by apply appended_chunk_chained.
  - lia.
Qed.

(** [n] more bytes do not send the container to disk. *)
Definition stays_in_memory c (n : Z) : Prop :=
  m_maxSizeInMemoryBeforeMovingToDisk c = 0 \/
  n + zlen (ck_view c) <= m_maxSizeInMemoryBeforeMovingToDisk c.

Lemma append2_in_memory c buf prependMode :
  ck_data_wf c -> zlen (ck_view c) + zlen buf <= SSIZE_MAX -> stays_in_memory c (zlen buf) ->
  0 < m_maxChunkSize c ->
  append2 buf prependMode c = append_loop (S (length buf)) buf prependMode 0 c.
Proof.
  intros Hwf Hm Hst Hp. pose proof Hwf as (Hnone & _). unfold append2, append_rounds. rewrite Hnone, size_ck by done.
  replace (m_maxChunkSize c =? 0) with false by lia.
  pose proof (zlen_nonneg buf). pose proof (zlen_nonneg (ck_view c)).
  rewrite overflow_sum_false by (unfold SIZE_MAX, SSIZE_MAX in *; lia).
  rewrite u64_small by (apply size_arith; lia).
  destruct Hst as [-> | Hst]; [done|].
  replace (zlen buf + zlen (ck_view c) >? _) with false by lia. by rewrite andb_false_r.
Qed.

(** The guards of [append] and [prepend]. *)
Definition may_add c (n : Z) : Prop :=
  m_readOnly (ck_base c) = false /\ zlen (ck_view c) + n <= m_maxSize (ck_base c) /\
  zlen (ck_view c) + n <= SSIZE_MAX /\ stays_in_memory c n /\ 0 < m_maxChunkSize c.

Lemma append_in_memory c buf :
  ck_data_wf c -> buf <> [] -> may_add c (zlen buf) ->
  append buf c = append_loop (S (length buf)) buf false 0 c /\
  prepend buf c = append_loop (S (length buf)) buf true 0 c.
Proof.
  intros Hwf Hne (Hro & Hmax & Hm & Hst & Hp). pose proof (zlen_pos buf Hne).
  pose proof (zlen_nonneg (ck_view c)).
  unfold append, prepend. cbn [b_get v_size v_append2 B_Chunks_container]. rewrite Hro, size_ck by done.
  rewrite !overflow_sum_false by (unfold SIZE_MAX, SSIZE_MAX in *; lia).
  rewrite u64_small by (apply size_arith; lia).
  replace (zlen buf + zlen (ck_view c) >? m_maxSize (ck_base c)) with false by lia.
  replace (zlen buf =? 0) with false by lia. rewrite !append2_in_memory by done. done.
Qed.

(** [append] of a non-empty buffer, exactly. *)
Lemma append_exact c buf :
  ck_data_wf c -> buf <> [] -> may_add c (zlen buf) ->
  exists v, append buf c = (Ret (Some (accepted c (zlen buf))), ck_put v c) /\
    Forall chunk_wf v /\ chunks_bytes v = ck_view c ++ ztake (accepted c (zlen buf)) buf /\
    (ck_indexed c -> chained 0 v) /\ zlen v <= zlen (m_chunksVector c) + accepted c (zlen buf).
Proof.
  intros Hwf Hne Hadd. destruct (append_in_memory c buf Hwf Hne Hadd) as [-> _].
  destruct Hadd as (_ & _ & Hm & _ & Hp). pose proof (zlen_nonneg (ck_view c)).
  destruct (append_loop_spec (S (length buf)) buf 0 c) as (v & Hv); [done|done|lia..|].
  rewrite Z.add_0_l in Hv. by exists v.
Qed.

(** ** Prepending *)

Definition prepended_chunk c (buf : bytes) : BinaryContainerChunk :=
  chunk_copy buf (Z.min (zlen buf) (m_maxChunkSize c)) chunk_new.

Lemma prepended_chunk_wf c buf :
  buf <> [] -> 0 < m_maxChunkSize c ->
  chunk_wf (prepended_chunk c buf) /\
  chunk_bytes (prepended_chunk c buf) = ztake (Z.min (zlen buf) (m_maxChunkSize c)) buf /\
  csize (prepended_chunk c buf) = Z.min (zlen buf) (m_maxChunkSize c).
Proof.
  intros Hne Hp. pose proof (zlen_pos buf Hne).
  destruct (chunk_copy_wf buf (Z.min (zlen buf) (m_maxChunkSize c))) as [Hw Hb]; [lia|]. done.
Qed.

Lemma prepend_loop_step fuel buf app c :
  ck_data_wf c -> buf <> [] -> 0 < m_maxChunkSize c -> zlen (m_chunksVector c) < m_maxChunks c ->
  0 <= app -> app + zlen buf <= SSIZE_MAX -> zlen (ck_view c) + zlen buf <= SSIZE_MAX ->
  append_loop (S fuel) buf true app c =
  append_loop fuel (zdrop (Z.min (zlen buf) (m_maxChunkSize c)) buf) true
    (app + Z.min (zlen buf) (m_maxChunkSize c))
    (ck_put (prepended_chunk c buf :: m_chunksVector c) c).
Proof.
  intros Hwf Hne Hp Hfree Ha Hab Hm. pose proof (zlen_pos buf Hne).
  destruct (prepended_chunk_wf c buf Hne Hp) as (Hw & Hb & Hc).
  cbn [append_loop]. replace (zlen buf =? 0) with false by lia. cbn [negb].
  replace (zlen (m_chunksVector c) + 1 >? m_maxChunks c) with false by lia. fold (prepended_chunk c buf).
  rewrite Hc. rewrite (u64_small (app + _)) by (apply size_arith; lia). f_equal.
  pose proof Hwf as (Hn & Hf & Hs & Hmax). unfold ck_inc, ck_put. f_equal.
  rewrite size_mem by done. cbn [set_chunks ck_base]. rewrite Hs.
  rewrite zlen_chunks_cons by done. fold (ck_view c). pose proof (zlen_nonneg (ck_view c)).
  rewrite u64_small by (apply size_arith; lia). lia.
Qed.

(** ** Recalculated offsets *)

Lemma recalc_loop_offset n off i :
  0 < csize i -> 0 <= off -> off + (Z.of_nat n + 1) * csize i <= SIZE_MAX ->
  recalc_loop (S n) off i = with_offset (off + Z.of_nat n * csize i) i.
Proof.
  revert off i. induction n as [|n IH]; intros off i Hp Ho Hm.
  - cbn [recalc_loop]. f_equal. lia.
  - change (recalc_loop (S (S n)) off i)
      with (recalc_loop (S n) (nextOffset (with_offset off i)) (with_offset off i)).
    assert (Hn : nextOffset (with_offset off i) = off + csize i).
    { unfold nextOffset. simpl. rewrite u64_small by (unfold is_size; nia). lia. }
    rewrite Hn, IH by (simpl; nia). unfold with_offset. simpl. f_equal. nia.
Qed.

Lemma recalc_loop_bytes n off i :
  chunk_bytes (recalc_loop n off i) = chunk_bytes i /\ csize (recalc_loop n off i) = csize i /\
  (chunk_wf i -> chunk_wf (recalc_loop n off i)).
Proof.
  revert off i. induction n as [|n IH]; intros off i; [done|]. cbn [recalc_loop].
  destruct (IH (nextOffset (with_offset off i)) (with_offset off i)) as (-> & -> & Hw).
  split; [done|]. split; [done|]. intros Hi. apply Hw, Hi.
Qed.

Lemma recalc_view c :
  ck_data_wf c ->
  exists v, recalcChunkOffsets c = ck_put v c /\ Forall chunk_wf v /\ chunks_bytes v = ck_view c /\
    zlen v = zlen (m_chunksVector c) /\
    v = match m_chunksVector c with
        | [] => []
        | i :: rest => recalc_loop (length (m_chunksVector c)) 0 i :: rest
        end.
Proof.
  intros Hwf. pose proof Hwf as (Hn & Hf & Hs & Hm). pose proof (ck_put_id c Hwf) as Hid.
  unfold recalcChunkOffsets, ck_view in *.
  destruct (m_chunksVector c) as [|i rest] eqn:Ev.
  { exists []. rewrite Hid. done. }
  apply Forall_cons in Hf as [Hi Hr].
  destruct (recalc_loop_bytes (length (i :: rest)) 0 i) as (Hb & Hc & Hw).
  eexists. split; [|split; [|split; [|split; [|reflexivity]]]].
  - rewrite <- Hid at 2. rewrite ck_put_put. unfold ck_put.
    replace (zlen (chunks_bytes (recalc_loop (length (i :: rest)) 0 i :: rest)))
      with (zlen (chunks_bytes (i :: rest))) by (unfold chunks_bytes; cbn [map]; by rewrite Hb).
    rewrite <- Hs. by destruct c as [[] ? ? ? ? ?].
  - constructor; auto.
  - unfold chunks_bytes. cbn [map]. by rewrite Hb.
  - done.
Qed.

(** ** Displacing *)

(** The offsets past the first chunk are not zero. *)
Definition late_offsets (v : list BinaryContainerChunk) : Prop :=
  Forall (fun x => 0 < coffset x) (tail v).

Lemma chained_late off v : Forall chunk_wf v -> 0 <= off -> chained off v -> late_offsets v.
Proof.
  unfold late_offsets. intros Hv Ho. destruct Hv as [|c v Hc Hv]; [constructor|]. cbn [chained tail].
  intros [_ Hch]. apply chunk_wf_size in Hc as [Hs Hp].
  assert (Hlo : 0 < off + csize c) by lia. revert Hlo Hch. generalize (off + csize c). clear -Hv.
  induction Hv as [|c v Hc Hv IH]; intros o Hlo Hch; [constructor|]. destruct Hch as [Hco Hch].
  constructor; [lia|]. apply chunk_wf_size in Hc as [Hs Hp]. eapply IH; [|done]. lia.
Qed.

Lemma displace_loop_spec fuel d disp c :
  ck_data_wf c -> 0 <= d <= zlen (ck_view c) -> 0 <= disp -> disp + d <= SSIZE_MAX ->
  (length (m_chunksVector c) + 2 <= fuel)%nat ->
  exists v, displace_loop fuel d disp c = (Ret (Some (disp + d)), recalcChunkOffsets (ck_put v c)) /\
    Forall chunk_wf v /\ chunks_bytes v = zdrop d (ck_view c) /\
    zlen v <= zlen (m_chunksVector c) /\ (late_offsets (m_chunksVector c) -> late_offsets v).
Proof.
  revert d disp c. induction fuel as [|fuel IH]; intros d disp c Hwf Hd Hdisp Hb Hf; [lia|].
  cbn [displace_loop]. destruct (Z.eqb_spec d 0) as [->|Hne]; cbn [negb].
  { exists (m_chunksVector c). rewrite ck_put_id, Z.add_0_r, zdrop_le0 by (done || lia).
    split; [done|]. split; [apply Hwf|]. split; [done|]. split; [lia|done]. }
  pose proof Hwf as (Hn & Hfa & Hs & Hm). unfold ck_view in Hd, Hs, Hm |- *.
  destruct (m_chunksVector c) as [|c0 rest] eqn:Ev.
  { change (zlen (chunks_bytes [])) with 0 in Hd. lia. }
  apply Forall_cons in Hfa as [Hc0 Hrest]. pose proof (chunk_wf_size c0 Hc0) as [Hcs Hcp].
  rewrite zlen_chunks_cons in Hd, Hs, Hm by done. pose proof (zlen_nonneg (chunks_bytes rest)).
  rewrite chunks_bytes_cons. case_cond; zbool.
  - rewrite u64_small by (apply size_arith; lia).
    assert (Hput : set_chunks rest (ck_dec (csize c0) c) = ck_put rest c).
    { unfold ck_dec, ck_put. rewrite size_mem, Hs, u64_small by (done || apply size_arith; lia).
      by replace (csize c0 + zlen (chunks_bytes rest) - csize c0) with (zlen (chunks_bytes rest)) by lia. }
    rewrite Hput. destruct (ck_put_wf rest c) as [Hwf1 Hv1]; [done|done|lia|].
    destruct (IH (d - csize c0) (disp + csize c0) (ck_put rest c)) as (v & Hv & Hfv & Hbv & Hzv & Hlv);
      [done|rewrite Hv1; lia|lia|lia|simpl in *; lia|].
    exists v. rewrite Hv. change (m_chunksVector (ck_put rest c)) with rest in *.
    split; [f_equal; do 2 f_equal; lia|]. split; [done|]. rewrite Hbv, Hv1, zlen_cons.
    split; [rewrite zdrop_app_ge, Hcs by lia; done|]. split; [lia|].
    intros Hlate. apply Hlv. unfold late_offsets in *. simpl in Hlate.
    destruct rest; [done|]. by apply Forall_cons in Hlate as [_ ?].
  - destruct (chunk_displace_wf d c0 Hc0) as (Hw & Hcb & Hcc); [lia|].
    rewrite u64_small by (apply size_arith; lia).
    assert (Hput : ck_dec d (set_chunks (chunk_displace d c0 :: rest) c)
                   = ck_put (chunk_displace d c0 :: rest) c).
    { unfold ck_dec, ck_put. rewrite size_mem by done. cbn [set_chunks ck_base].
      rewrite Hs, u64_small by (apply size_arith; lia). rewrite zlen_chunks_cons by done.
      rewrite Hcc. by replace (csize c0 - d + zlen (chunks_bytes rest))
        with (csize c0 + zlen (chunks_bytes rest) - d) by lia. }
    rewrite Hput. destruct fuel as [|fuel]; [simpl in Hf; lia|].
    exists (chunk_displace d c0 :: rest). split; [done|]. split; [by constructor|].
    split; [|split; [rewrite !zlen_cons; lia|done]].
    rewrite chunks_bytes_cons, Hcb, zdrop_app_le by lia. done.
Qed.

Lemma displace2_spec c d :
  ck_data_wf c -> 0 <= d <= zlen (ck_view c) ->
  exists v, displace2 d c = (Ret (Some d), recalcChunkOffsets (ck_put v c)) /\
    Forall chunk_wf v /\ chunks_bytes v = zdrop d (ck_view c) /\
    zlen v <= zlen (m_chunksVector c) /\ (late_offsets (m_chunksVector c) -> late_offsets v).
Proof.
  intros Hwf Hd. pose proof Hwf as (Hn & _ & _ & Hm). unfold displace2. rewrite Hn.
  apply displace_loop_spec; [done|lia..].
Qed.

Lemma displace2_put c d :
  ck_data_wf c -> 0 <= d <= zlen (ck_view c) ->
  exists v, displace2 d c = (Ret (Some d), ck_put v c) /\ ck_data_wf (ck_put v c) /\
    ck_view (ck_put v c) = zdrop d (ck_view c) /\ zlen v <= zlen (m_chunksVector c).
Proof.
  intros Hwf Hd. destruct (displace2_spec c d Hwf Hd) as (v & -> & Hfv & Hbv & Hzv & _).
  pose proof Hwf as (Hn & _ & _ & Hm).
  assert (Hlen : zlen (chunks_bytes v) <= SSIZE_MAX) by (rewrite Hbv, zlen_zdrop; lia).
  destruct (ck_put_wf v c) as [Hwf1 Hv1]; [done..|].
  destruct (recalc_view (ck_put v c) Hwf1) as (w & -> & Hfw & Hbw & Hzw & _). rewrite ck_put_put.
  rewrite Hv1 in Hbw. change (m_chunksVector (ck_put v c)) with v in Hzw.
  destruct (ck_put_wf w c) as [Hwf2 Hv2]; [done|done|by rewrite Hbw|].
  exists w. split; [done|]. split; [done|]. rewrite Hv2, Hbw, Hbv. split; [done|lia].
Qed.

(** ** Truncating *)

Lemma chunks_bytes_ztake c i :
  0 <= i <= zlen (m_chunksVector c) ->
  chunks_bytes (ztake i (m_chunksVector c)) = ztake (start (m_chunksVector c) i) (ck_view c).
Proof.
  intros Hi. unfold ck_view, start. rewrite <- (ztake_zdrop i (m_chunksVector c)) at 3.
  by rewrite chunks_bytes_app, ztake_length_app.
Qed.

Lemma view_split c i :
  0 <= i < zlen (m_chunksVector c) ->
  ck_view c = chunks_bytes (ztake i (m_chunksVector c)) ++ chunk_bytes (chunk_at c i)
              ++ chunks_bytes (zdrop (i + 1) (m_chunksVector c)).
Proof.
  intros Hi. unfold ck_view. rewrite (chunk_at_split c i Hi) at 1. by rewrite chunks_bytes_app, chunks_bytes_cons.
Qed.

Lemma zlen_chunks_le v : Forall chunk_wf v -> zlen v <= zlen (chunks_bytes v).
Proof.
  induction 1 as [|c v Hc Hv IH]; [done|]. rewrite zlen_chunks_cons, zlen_cons by done.
  apply chunk_wf_size in Hc as [? ?]. lia.
Qed.

Lemma truncate2_spec c n :
  ck_data_wf c -> ck_indexed c -> 0 <= n < zlen (ck_view c) ->
  exists v, truncate2 n c = (Ret (Some n), ck_put v c) /\
    Forall chunk_wf v /\ chunks_bytes v = ztake n (ck_view c) /\ chained 0 v /\
    zlen v <= zlen (m_chunksVector c).
Proof.
  intros Hwf Hx Hn. pose proof (GetPosForOffset_spec c n Hwf Hx ltac:(lia)) as Hg.
  pose proof Hwf as (Hnone & Hf & Hs & Hm). unfold truncate2. rewrite Hnone. cbn zeta in Hg.
  destruct (I_Chunk_GetPosForOffset c n) as [i|]; [|lia]. destruct Hg as [Hi Hst].
  rewrite start_succ in Hst by done.
  pose proof (chunk_at_split c i Hi) as Hsplit.
  pose proof Hf as Hf'. rewrite Hsplit in Hf'. apply Forall_app in Hf' as [Hft [Hfc _]%Forall_cons].
  pose proof Hx as Hx'. unfold ck_indexed in Hx'. fold (m_chunksVector c) in Hx'. rewrite Hsplit in Hx'.
  apply chained_app in Hx' as [Hxt [Hxc _]]; [|done].
  pose proof (start_bound c (i + 1) ltac:(lia)) as Hsb. rewrite start_succ in Hsb by done.
  pose proof (start_bound c i ltac:(lia)) as Hsi.
  assert (Hzt : zlen (ztake i (m_chunksVector c)) = i) by (rewrite zlen_ztake; lia).
  assert (Hi64 : is_size (i + 1)).
  { apply size_arith. pose proof (zlen_chunks_le (m_chunksVector c) Hf). unfold ck_view in Hm. lia. }
  assert (Hco : coffset (chunk_at c i) = start (m_chunksVector c) i) by exact Hxc. rewrite Hco.
  case_cond; zbool.
  - exists (ztake i (m_chunksVector c)). assert (Hu : u64 (u64 (i - 1) + 1) = i).
    { unfold u64. rewrite Zplus_mod_idemp_l. replace (i - 1 + 1) with i by lia.
      apply u64_small. unfold is_size in *. lia. }
    rewrite Hu. split.
    + unfold ck_put. replace (zlen (chunks_bytes (ztake i (m_chunksVector c)))) with n by (unfold start in *; lia).
      rewrite size_mem by done. done.
    + split; [done|]. split; [|split; [done|lia]]. rewrite chunks_bytes_ztake by lia. f_equal. lia.
  - rewrite u64_small by done. unfold ck_view in Hm.
    destruct (chunk_truncate_wf n (chunk_at c i)) as (Hw & Ho & Hb & Hc); [done|lia|apply size_arith; lia|lia|].
    assert (Halter : ztake (i + 1) (alter (chunk_truncate n) (Z.to_nat i) (m_chunksVector c)) = ztake i (m_chunksVector c) ++ [chunk_truncate n (chunk_at c i)]).
    { rewrite Hsplit at 1. replace (Z.to_nat i) with (length (ztake i (m_chunksVector c)) + 0)%nat by (unfold zlen in Hzt; lia).
      rewrite alter_app_r. simpl. rewrite ztake_app_ge, Hzt by lia. f_equal.
      replace (i + 1 - i) with (0 + 1) by lia. by rewrite ztake_succ, (ztake_le0 0) by lia. }
    assert (Hlen : zlen (chunks_bytes (ztake i (m_chunksVector c) ++ [chunk_truncate n (chunk_at c i)])) = n).
    { rewrite chunks_bytes_app, zlen_app, zlen_chunks_cons by done.
      change (zlen (chunks_bytes [])) with 0. unfold start in *. lia. }
    exists (ztake i (m_chunksVector c) ++ [chunk_truncate n (chunk_at c i)]). split; [|split; [|split; [|split]]].
    + cbn [set_chunks m_chunksVector]. rewrite Halter. unfold ck_put. rewrite Hlen.
      rewrite size_mem by done. done.
    + apply Forall_app. split; [done|]. by constructor.
    + rewrite (view_split c i Hi), chunks_bytes_app, chunks_bytes_cons, Hb, Hco.
      change (chunks_bytes []) with (@nil ascii). rewrite app_nil_r.
      apply chunk_wf_size in Hfc as [? ?].
      rewrite ztake_app_ge by (unfold start in *; lia). f_equal.
      by rewrite ztake_app_le by (unfold start in *; lia).
    + apply chained_app; [done|]. split; [done|]. cbn [chained]. by rewrite Ho.
    + rewrite zlen_app, Hzt, zlen_cons, zlen_nil. lia.
Qed.

(** ** The contracts *)

#[export] Program Instance B_Chunks_readable : Readable (B_Chunks M) := {
  b_view := ck_view;
  b_wf := ck_data_wf
}.
Next Obligation. intros c Hwf. by apply size_ck. Qed.
Next Obligation. intros c Hwf. apply Hwf. Qed.
Next Obligation.
  intros S ? c n Hwf Hn Hb. pose proof Hwf as (Hnone & Hf & Hs & Hm). simpl in *.
  destruct (select_chunks_bytes (m_chunksVector c) 0 n) as [Hc Hne]; [done|unfold ck_view in *; lia..|].
  exists (select_chunks (m_chunksVector c) 0 n). split; [by apply Hne|]. split; [by rewrite Hc, slice_0|].
  intros s. unfold copyToStreamableObject2. rewrite Hnone, size_ck by done.
  replace (n =? 0) with false by lia. rewrite overflow_sum_false by (unfold SIZE_MAX, SSIZE_MAX in *; lia).
  replace (0 >? zlen (ck_view c)) with false by lia.
  rewrite u64_small by (apply size_arith; lia). by replace (0 + n >? zlen (ck_view c)) with false by lia.
Qed.

#[export] Program Instance B_Chunks_indexed : Indexed (B_Chunks M) := { b_indexed := ck_indexed }.
Next Obligation.
  simpl. intros c n off Hwf Hx Hn Ho Hb. pose proof Hwf as (Hnone & Hf & Hs & Hm).
  unfold copyToBuffer2. rewrite Hnone, size_ck by done.
  rewrite overflow_sum_false by (unfold SIZE_MAX, SSIZE_MAX in *; lia).
  rewrite u64_small by (apply size_arith; lia). replace (n =? 0) with false by lia.
  replace (off + n >? zlen (ck_view c)) with false by lia.
  pose proof (GetPosForOffset_spec c off Hwf Hx Ho) as Hg. cbn zeta in Hg.
  destruct (I_Chunk_GetPosForOffset c off) as [i|]; [|lia]. destruct Hg as [Hi Hst].
  pose proof (view_split c i Hi) as Hsplit. pose proof (chunk_at_wf c i Hi Hf) as Hwc.
  rewrite start_succ in Hst by done. pose proof (chained_at c i Hi Hf Hx) as Hco.
  pose proof (chunk_wf_size _ Hwc) as [Hcs Hcp]. set (ch := chunk_at c i) in *. clearbody ch.
  assert (Hst0 : start (m_chunksVector c) i = zlen (chunks_bytes (ztake i (m_chunksVector c)))) by done.
  rewrite Hsplit, !zlen_app, <- Hst0 in Hm, Hb.
  pose proof (start_bound c i ltac:(lia)).
  pose proof (zlen_nonneg (chunks_bytes (zdrop (i + 1) (m_chunksVector c)))).
  assert (Hmv : chunk_wf (moveToOffset off ch) /\
    chunk_bytes (moveToOffset off ch) = zdrop (off - coffset ch) (chunk_bytes ch)).
  { unfold moveToOffset. rewrite u64_small by (apply size_arith; lia).
    destruct Hwc as (Hro & [d Hd] & _). unfold chunk_bytes in *. rewrite Hd in *. simpl in *.
    rewrite u64_small by (apply size_arith; lia). split; [|done].
    split; [done|]. split; [by eexists|]. unfold chunk_bytes. simpl. rewrite zlen_zdrop. lia. }
  destruct Hmv as [Hmw Hmb]. rewrite copyToBuffer_loop_bytes.
  - f_equal. rewrite chunks_bytes_cons, Hmb, Hsplit. unfold slice.
    rewrite zdrop_app_ge, <- Hst0, Hco by lia. by rewrite zdrop_app_le by lia.
  - constructor; [done|]. rewrite <- (ztake_zdrop (i + 1) (m_chunksVector c)) in Hf.
    by apply Forall_app in Hf as [_ ?].
  - rewrite chunks_bytes_cons, Hmb, zlen_app, zlen_zdrop. lia.
  - rewrite chunks_bytes_cons, Hmb, zlen_app, zlen_zdrop. lia.
Qed.

#[export] Program Instance B_Chunks_searchable : Searchable (B_Chunks M).
Next Obligation.
  intros c ch off Hwf Ho. simpl in *. pose proof Hwf as (Hnone & Hf & Hs & Hm). unfold findChar.
  rewrite Hnone, size_ck by done. rewrite overflow_sum_false by (unfold SIZE_MAX, SSIZE_MAX in *; lia).
  replace (off + (zlen (ck_view c) - off)) with (zlen (ck_view c)) by lia.
  rewrite u64_small by (apply size_arith; lia). rewrite Z.gtb_ltb.
  replace ((zlen (ck_view c) <? off) || (zlen (ck_view c) >? zlen (ck_view c))) with false by lia.
  destruct (findChar_loop_no_skip (m_chunksVector c) ch
    (if true && negb (isalpha ch) then false else true) off 0 Hf Ho) as (r & Hr & Hno); [lia|done|].
  fold (ck_view c) in *. rewrite Hr. exists r. split; [by destruct r|done].
Qed.
Next Obligation.
  intros c buf cs off Hwf Hne Hl Ho. simpl in *. pose proof Hwf as (Hnone & Hf & Hs & Hm).
  pose proof (zlen_pos buf Hne). unfold compare2. rewrite Hnone, size_ck by done.
  rewrite overflow_sum_false by (unfold SIZE_MAX, SSIZE_MAX in *; lia).
  replace (zlen buf =? 0) with false by lia.
  rewrite u64_small by (unfold is_size, SIZE_MAX, SSIZE_MAX in *; lia). rewrite Z.gtb_ltb.
  destruct (Z.le_gt_cases (off + zlen buf) (zlen (ck_view c))).
  - replace (zlen (ck_view c) <? off + zlen buf) with false by lia.
    rewrite compare_loop_bytes by (done || lia). apply bool_decide_ext. unfold ck_view. tauto.
  - rewrite bool_decide_eq_false_2 by lia. by replace (zlen (ck_view c) <? off + zlen buf) with true by lia.
Qed.

#[export] Program Instance B_Chunks_displaceable : Displaceable (B_Chunks M).
Next Obligation.
  intros c n Hwf Hn. destruct (displace2_put c n Hwf Hn) as (v & Hd & Hwf' & Hv & _).
  exists (ck_put v c). done.
Qed.

(** A container that appended data stays in memory in. *)
Definition ck_open c : Prop :=
  ck_data_wf c /\ m_readOnly (ck_base c) = false /\
  m_maxSizeInMemoryBeforeMovingToDisk c = 0 /\ 0 < m_maxChunkSize c.

(** The bytes it certainly still takes, one chunk each at worst. *)
Definition ck_room c : Z :=
  Z.min (Z.min (m_maxSize (ck_base c)) SSIZE_MAX - zlen (ck_view c))
        (m_maxChunks c - zlen (m_chunksVector c)).

Lemma ck_open_add c n : ck_open c -> n <= ck_room c -> may_add c n.
Proof.
  intros (Hwf & Hro & Hmem & Hp) Hn. unfold ck_room in Hn. unfold may_add, stays_in_memory.
  split; [done|]. split; [lia|]. split; [lia|]. split; [by left|done].
Qed.

Lemma append_room c buf :
  ck_open c -> buf <> [] -> zlen buf <= ck_room c ->
  exists v, append buf c = (Ret (Some (zlen buf)), ck_put v c) /\ ck_open (ck_put v c) /\
    ck_view (ck_put v c) = ck_view c ++ buf /\ (ck_indexed c -> ck_indexed (ck_put v c)) /\
    ck_room c - zlen buf <= ck_room (ck_put v c).
Proof.
  intros Hopen Hne Hr. pose proof (zlen_pos buf Hne).
  destruct (append_exact c buf (proj1 Hopen) Hne (ck_open_add c _ Hopen Hr)) as (v & Ha & Hf & Hb & Hx & Hz).
  assert (Hk : accepted c (zlen buf) = zlen buf).
  { unfold accepted, free_chunks. unfold ck_room in Hr. destruct Hopen as (_ & _ & _ & Hp). nia. }
  rewrite Hk in *. rewrite ztake_ge in Hb by lia. destruct Hopen as (Hwf & Hro & Hmem & Hp).
  unfold ck_room in *.
  destruct (ck_put_wf v c) as [Hwf' Hv']; [apply Hwf|done|rewrite Hb, zlen_app; lia|].
  exists v. rewrite Hb in Hv'. split; [done|]. split; [done|]. split; [done|]. split; [done|].
  rewrite Hv', zlen_app. change (m_chunksVector (ck_put v c)) with v.
  change (m_maxChunks (ck_put v c)) with (m_maxChunks c).
  change (m_maxSize (ck_base (ck_put v c))) with (m_maxSize (ck_base c)). lia.
Qed.

#[export] Program Instance B_Chunks_sink : Sink (B_Chunks M) := {
  sink_view := ck_view;
  sink_ok c := ck_open c /\ status_ready (m_writeStatus (ck_base c))
}.
Next Obligation. by intros c (_ & ? & _). Qed.
Next Obligation. done. Qed.
Next Obligation. done. Qed.

#[export] Program Instance B_Chunks_full : FullSink (B_Chunks M) := {
  sink_room c := Z.min (ck_room c) (SIZE_MAX - bytesWritten (m_writeStatus (ck_base c)))
}.
Next Obligation.
  intros c buf [Hopen Hst] Hne Hl Hr. cbn [so_write BBase_stream] in *. simpl in Hr.
  destruct (append_room c buf Hopen Hne) as (v & Ha & Hopen' & Hv & _ & Hroom); [lia|].
  unfold write. rewrite Ha. pose proof (zlen_pos buf Hne). destruct Hst as (Hs & Hf & Hb).
  pose proof (ws_add_positive (m_writeStatus (b_get (ck_put v c))) (zlen buf) Hs Hf Hb ltac:(lia)) as Hw.
  destruct (ws_add_size _ _) as [[[]|e] w]; [|simpl in Hw; lia].
  destruct Hw as (Hw1 & Hw2 & Hw3 & Hw4). eexists. split; [done|].
  split; [split; [apply Hopen'|done]|]. split; [done|].
  simpl in *. change (ck_room (ck_set _ (ck_put v c))) with (ck_room (ck_put v c)). lia.
Qed.
End Spec.
