(* ===== verification/BChunksProps.v ===== *)
(** * Properties of the containers

    The functional behaviour of the chunked container on every branch of its
    members, and of the members of B_Base over any container. *)

From S2P Require Import Prelude Mem SafeInt StreamableObject BBase BMem BChunk BChunks BChunksFacts BChunksSpec.

(** A container whose mapped files cannot be created, for the examples. *)
#[export] Instance no_files : MmapFactory B_MEM := { new_mmap _ := None }.

(** Chunks of four bytes holding a text. *)
Definition small_chunks (maxChunks : Z) : B_Chunks B_MEM :=
  setMaxChunkSize 4 (setMaxChunks maxChunks B_Chunks_new).
Definition text_chunks (t : string) : B_Chunks B_MEM := snd (append (str t) (small_chunks 8)).

(** Discharge the invariant of a concrete container. *)
Ltac ck_concrete :=
  repeat match goal with
  | |- b_wf ?c => change (ck_data_wf c)
  | |- ck_data_wf _ => split; [|split; [|split]]
  | |- Forall chunk_wf _ => apply chunks_ok; vm_compute; reflexivity
  | |- ck_indexed _ => vm_compute; repeat split
  | |- _ = _ => vm_compute; reflexivity
  | |- _ <= _ => vm_compute; discriminate
  | |- _ < _ => vm_compute; reflexivity
  end.

Section Properties.
Context {M : Type} `{BBase M, MmapFactory M}.
Implicit Types c : B_Chunks M.

(** C29: [append] on a container in memory. A read-only container, an empty
    buffer and data beyond [m_maxSize] are refused and change nothing;
    otherwise exactly the first [accepted] bytes of the buffer (all of them,
    or what the free chunks hold) are added at the end, the number returned
    says how many, and the invariants of the container are kept. *)
Theorem append_adds_what_fits c buf :
  ck_data_wf c -> zlen (ck_view c) + zlen buf <= SSIZE_MAX -> stays_in_memory c (zlen buf) ->
  0 < m_maxChunkSize c ->
  if m_readOnly (ck_base c) || (m_maxSize (ck_base c) <? zlen (ck_view c) + zlen buf) || (zlen buf =? 0)
  then append buf c = (Ret None, c)
  else exists c', append buf c = (Ret (Some (accepted c (zlen buf))), c') /\
    ck_data_wf c' /\ ck_view c' = ck_view c ++ ztake (accepted c (zlen buf)) buf /\
    (ck_indexed c -> ck_indexed c') /\
    0 <= accepted c (zlen buf) <= zlen buf /\
    (accepted c (zlen buf) = zlen buf \/ accepted c (zlen buf) = free_chunks c * m_maxChunkSize c).
Proof.
  intros Hwf Hm Hst Hp. pose proof (zlen_nonneg buf). pose proof (zlen_nonneg (ck_view c)).
  destruct (_ || _) eqn:Eg.
  - unfold append. cbn [b_get v_size B_Chunks_container]. rewrite size_ck by done.
    rewrite overflow_sum_false by (unfold SIZE_MAX, SSIZE_MAX in *; lia).
    rewrite u64_small by (apply size_arith; lia). destruct (m_readOnly (ck_base c)); [done|].
    case_cond; [done|]. zbool. replace (zlen buf =? 0) with true by lia. done.
  - zbool. assert (Hne : buf <> []) by (intros ->; done).
    destruct (append_exact c buf Hwf Hne) as (v & Ha & Hf & Hb & Hx & Hz).
    { split; [done|]. split; [lia|]. done. }
    assert (Hk : 0 <= accepted c (zlen buf) <= zlen buf).
    { unfold accepted, free_chunks in *. nia. }
    destruct (ck_put_wf v c) as [Hwf' Hv']; [apply Hwf|done|rewrite Hb, zlen_app, zlen_ztake; lia|].
    exists (ck_put v c). rewrite Hb in Hv'. split; [done|]. split; [done|]. split; [done|].
    split; [done|]. split; [done|]. unfold accepted. lia.
Qed.

(** The binary search of [I_Chunk_GetPosForOffset] finds the chunk that
    contains the offset, whatever the number of chunks, and fails exactly
    for the offsets past the end. *)
Theorem GetPosForOffset_finds c offset :
  ck_data_wf c -> ck_indexed c -> 0 <= offset ->
  match I_Chunk_GetPosForOffset c offset with
  | Some i => 0 <= i < zlen (m_chunksVector c) /\
      coffset (chunk_at c i) <= offset < coffset (chunk_at c i) + csize (chunk_at c i) /\
      nth_error (ck_view c) (Z.to_nat offset) =
      nth_error (chunk_bytes (chunk_at c i)) (Z.to_nat (offset - coffset (chunk_at c i)))
  | None => zlen (ck_view c) <= offset
  end.
Proof.
  intros Hwf Hx Ho. pose proof (GetPosForOffset_spec c offset Hwf Hx Ho) as Hg. cbn zeta in Hg.
  destruct (I_Chunk_GetPosForOffset c offset) as [i|]; [|done]. destruct Hg as [Hi Hst].
  pose proof Hwf as (_ & Hf & _). rewrite start_succ in Hst by done.
  pose proof (chained_at c i Hi Hf Hx) as Hco. rewrite Hco. split; [done|]. split; [done|].
  rewrite (view_split c i Hi). pose proof (chunk_wf_size _ (chunk_at_wf c i Hi Hf)) as [Hs Hp].
  change (start (m_chunksVector c) i) with (zlen (chunks_bytes (ztake i (m_chunksVector c)))) in *.
  unfold zlen in *. rewrite nth_error_app2 by lia. rewrite nth_error_app1 by lia. f_equal. lia.
Qed.

(** C30: reading back, from a container in memory whose chunks have the offsets at
    which they start (as append and truncate leave them; displace does not, and
    reads fail after it), intervals that end before 2^63: inside the container
    [copyOut] and [toString] return exactly the bytes of the interval asked for,
    however the chunks cut it; [copyOut] of an interval that leaves the container
    fails; [toString] without arguments returns the whole content. *)
Theorem reads_are_slices c n off :
  ck_data_wf c -> ck_indexed c -> 0 < n -> 0 <= off -> off + n <= SSIZE_MAX ->
  (copyOut c n off = if off + n <=? zlen (ck_view c) then Some (slice off n (ck_view c)) else None) /\
  (off + n <= zlen (ck_view c) -> toString c n off = Some (slice off n (ck_view c))) /\
  toString c SIZE_MAX 0 = Some (ck_view c).
Proof.
  intros Hwf Hx Hn Ho Hb. split; [|split].
  - case_cond; zbool; [rewrite copyOut_view; [done|done|done|lia|lia|done]|]. unfold copyOut.
    cbn [v_size B_Chunks_container]. rewrite size_ck by done.
    replace (n =? SIZE_MAX) with false by (unfold SIZE_MAX, SSIZE_MAX in *; lia). cbn [andb].
    rewrite overflow_sum_false by (unfold SIZE_MAX, SSIZE_MAX in *; lia).
    rewrite u64_small by (apply size_arith; lia). case_conds; done.
  - intros. rewrite toString_slice; [done|done|done|lia|lia|done].
  - by rewrite toString_all.
Qed.

(** [truncate] to a smaller size keeps exactly that prefix, whether the
    cut falls inside a chunk or between two, with the offsets of the chunks
    that remain still exact; to a size that is not smaller it is refused. *)
Theorem truncate_keeps_prefix c n :
  ck_data_wf c -> ck_indexed c -> 0 <= n ->
  if zlen (ck_view c) <=? n then truncate n c = (Ret None, c)
  else exists c', truncate n c = (Ret (Some n), c') /\ ck_data_wf c' /\ ck_indexed c' /\
    ck_view c' = ztake n (ck_view c).
Proof.
  intros Hwf Hx Hn. unfold truncate. cbn [v_size v_truncate2 B_Chunks_container].
  rewrite size_ck by done. case_cond; zbool; [done|].
  destruct (truncate2_spec c n Hwf Hx ltac:(lia)) as (v & -> & Hf & Hb & Hch & _).
  destruct Hwf as (? & _ & _ & Hm). exists (ck_put v c).
  destruct (ck_put_wf v c) as [Hwf' Hv']; [done|done|rewrite Hb, zlen_ztake; lia|].
  by rewrite Hv', Hb.
Qed.

(** [displace] removes exactly the bytes asked for from the front, at
    most all of them, and reports how many; size, data and sequential reads
    stay exact after it. *)
Theorem displace_drops_prefix c n :
  ck_data_wf c -> 0 <= n ->
  exists c', displace n c = (Ret (Some (Z.min n (zlen (ck_view c)))), c') /\ ck_data_wf c' /\
    ck_view c' = zdrop n (ck_view c) /\ size c' = zlen (ck_view c) - Z.min n (zlen (ck_view c)).
Proof.
  intros Hwf Hn. unfold displace. cbn [v_size v_displace2 B_Chunks_container]. rewrite size_ck by done.
  pose proof (zlen_nonneg (ck_view c)).
  destruct (displace2_put c (Z.min n (zlen (ck_view c))) Hwf ltac:(lia)) as (v & -> & Hwf' & Hv' & _).
  exists (ck_put v c). split; [done|]. split; [done|]. rewrite Hv'. split.
  - destruct (Z.le_gt_cases n (zlen (ck_view c))); [by rewrite Z.min_l by lia|].
    by rewrite !zdrop_ge by lia.
  - rewrite size_ck, Hv', zlen_zdrop by done. lia.
Qed.

Lemma getPos_rec_none fuel c offset curpos curmax curmin :
  (forall i, 0 <= i -> containsOffset offset (chunk_at c i) = false) ->
  0 <= curmin <= curpos -> curpos <= curmax ->
  getPos_rec fuel c offset curpos curmax curmin = None.
Proof.
  intros Hall. revert curpos curmax curmin. induction fuel as [|fuel IH]; intros curpos curmax curmin Hl Hh; [done|].
  cbn [getPos_rec]. rewrite Hall by lia. case_cond; zbool; (case_cond; zbool; [done|]).
  - pose proof (mid_pos_between curmin (curpos - 1) ltac:(lia)). apply IH; lia.
  - pose proof (mid_pos_between (curpos + 1) curmax ltac:(lia)). apply IH; lia.
Qed.

Lemma GetPos_zero_none c :
  Forall (fun x => 0 < coffset x) (m_chunksVector c) -> I_Chunk_GetPosForOffset c 0 = None.
Proof.
  intros Hf. unfold I_Chunk_GetPosForOffset. pose proof (zlen_nonneg (m_chunksVector c)). case_cond; [done|]. zbool.
  apply getPos_rec_none.
  - intros i Hi. unfold containsOffset, chunk_at.
    destruct (m_chunksVector c !! Z.to_nat i) as [x|] eqn:El; [|done]. simpl.
    rewrite Forall_lookup in Hf. specialize (Hf _ _ El). simpl in Hf.
    by replace (coffset x <=? 0) with false by lia.
  - case_cond; zbool; [lia|divlia].
  - case_cond; zbool; [lia|divlia].
Qed.

(** The container after a displacement that leaves two chunks or more. *)
Lemma displaced_offsets c n c' :
  ck_data_wf c -> ck_indexed c -> 0 <= n <= zlen (ck_view c) -> displace2 n c = (Ret (Some n), c') ->
  2 <= zlen (m_chunksVector c') -> zlen (m_chunksVector c') * zlen (ck_view c') <= SIZE_MAX ->
  Forall (fun x => 0 < coffset x) (m_chunksVector c').
Proof.
  intros Hwf Hx Hn Hd H2 Hsmall. destruct (displace2_spec c n Hwf Hn) as (v & Hd' & Hf & Hb & Hz & Hl).
  rewrite Hd' in Hd. injection Hd as <-. pose proof Hwf as (Hnone & Hfa & _ & Hm).
  destruct (ck_put_wf v c) as [Hwf1 Hv1]; [done|done|rewrite Hb, zlen_zdrop; lia|].
  destruct (recalc_view (ck_put v c) Hwf1) as (w & Hw & Hfw & Hbw & Hzw & Hshape). rewrite Hw in *.
  change (m_chunksVector (ck_put v c)) with v in *. rewrite ck_put_put in *.
  change (m_chunksVector (ck_put w c)) with w in *.
  change (ck_view (ck_put w c)) with (chunks_bytes w) in *.
  specialize (Hl (chained_late 0 _ Hfa ltac:(lia) Hx)).
  destruct v as [|c0 [|c1 rest]]; [subst w; done|subst w; done|].
  subst w. constructor; [|exact Hl]. cbn [length] in *.
  apply Forall_cons in Hf as [Hc0 _]. pose proof (chunk_wf_size c0 Hc0) as [Hs Hp].
  destruct (recalc_loop_bytes (S (S (length rest))) 0 c0) as (Hrb & Hrc & _).
  apply Forall_cons in Hfw as [Hwf0 _].
  rewrite zlen_chunks_cons, Hrc in Hsmall by done.
  pose proof (zlen_nonneg (chunks_bytes (c1 :: rest))). unfold zlen at 1 in Hsmall. cbn [length] in Hsmall.
  rewrite recalc_loop_offset; [simpl; nia|lia|lia|]. nia.
Qed.

(** After a displacement that leaves two chunks or more,
    [recalcChunkOffsets] has given the first chunk an offset that is not 0
    (its pointer is never advanced), no chunk contains offset 0 any more, and
    reads by offset of a container that is not empty fail: [copyOut] from
    its start returns an error and [toString()] the empty string. *)
Theorem displace_loses_offsets c n c' :
  ck_data_wf c -> ck_indexed c -> 0 <= n -> displace n c = (Ret (Some n), c') ->
  2 <= zlen (m_chunksVector c') -> zlen (m_chunksVector c') * zlen (ck_view c') <= SIZE_MAX ->
  0 < size c' /\ copyOut c' 1 0 = None /\ toString c' SIZE_MAX 0 = Some [].
Proof.
  intros Hwf Hx Hn Hd H2 Hsmall. unfold displace in Hd. cbn [v_size v_displace2 B_Chunks_container] in Hd.
  rewrite size_ck in Hd by done. pose proof (zlen_nonneg (ck_view c)).
  destruct (displace2_put c (Z.min n (zlen (ck_view c))) Hwf ltac:(lia)) as (v & Hd' & Hwf' & Hv' & _).
  rewrite Hd' in Hd. injection Hd as Hmin <-. rewrite Hmin in *.
  pose proof (displaced_offsets c n _ Hwf Hx ltac:(lia) Hd' H2 Hsmall) as Hoff.
  pose proof Hwf' as (Hnone & Hf & _ & Hm). pose proof (zlen_chunks_le _ Hf) as Hlen.
  assert (Hpos : 0 < size (ck_put v c)) by (rewrite size_ck by done; unfold ck_view; lia).
  assert (Hcopy : forall k, 0 < k -> copyOut (ck_put v c) k 0 = None).
  { intros k Hk. unfold copyOut. rewrite Z.eqb_sym. destruct (SIZE_MAX =? k); cbn [andb].
    all: try (replace (0 >? v_size (ck_put v c)) with false
      by (cbn [v_size B_Chunks_container]; lia)).
    all: try (case_cond; [done|]; case_cond; zbool).
    all: try (cbn [v_size B_Chunks_container] in *; rewrite Z.sub_0_r, u64_small in *
      by (rewrite size_ck by done; unfold ck_view in *; apply size_arith; lia); lia).
    all: try lia.
    all: case_cond; [done|]; cbn [v_copyToBuffer2 B_Chunks_container]; unfold copyToBuffer2;
      rewrite Hnone, GetPos_zero_none by done; repeat case_cond; try done.
    all: zbool; cbn [v_size B_Chunks_container] in *; try lia. }
  split; [done|]. split; [apply Hcopy; lia|].
  assert (Hsz : is_size (size (ck_put v c))).
  { rewrite size_ck by done. apply size_arith. unfold ck_view in *. lia. }
  unfold toString. rewrite Z.eqb_refl. cbn [v_size B_Chunks_container andb].
  replace (0 >? size (ck_put v c)) with false by lia. rewrite Z.sub_0_r, u64_small by done.
  rewrite overflow_sum_false by (unfold is_size in *; lia).
  replace (size (ck_put v c) =? 0) with false by lia. rewrite Z.add_0_l, u64_small by done.
  rewrite Z.gtb_ltb, Z.ltb_irrefl. f_equal.
  destruct (Z.to_nat _); cbn [toString_loop]; [done|].
  replace (size (ck_put v c) =? 0) with false by lia. cbn [negb]. rewrite Hcopy by lia. done.
Qed.

Lemma recalc_prepended c cs :
  ck_data_wf c -> Forall chunk_wf cs -> zlen (chunks_bytes (cs ++ m_chunksVector c)) <= SSIZE_MAX ->
  exists c', recalcChunkOffsets (ck_put (cs ++ m_chunksVector c) c) = c' /\ ck_data_wf c' /\
    ck_view c' = chunks_bytes cs ++ ck_view c.
Proof.
  intros (Hnone & Hf & _) Hcs Hcm.
  destruct (ck_put_wf (cs ++ m_chunksVector c) c) as [Hwf1 Hv1]; [done|by apply Forall_app|done|].
  destruct (recalc_view _ Hwf1) as (w & -> & Hfw & Hbw & _). rewrite ck_put_put, Hv1 in *.
  destruct (ck_put_wf w c) as [Hwf2 Hv2]; [done|done|by rewrite Hbw|].
  eexists. split; [done|]. split; [done|]. by rewrite Hv2, Hbw, chunks_bytes_app.
Qed.

(** [prepend] of a buffer that fits one chunk puts it before the data.
    A longer one is cut and each piece is put before the previous one, so a
    buffer of two chunks comes out with its halves exchanged. *)
Theorem prepend_swaps_chunks c buf :
  ck_data_wf c -> buf <> [] -> may_add c (zlen buf) ->
  zlen (m_chunksVector c) + 2 <= m_maxChunks c -> zlen buf <= 2 * m_maxChunkSize c ->
  exists c', prepend buf c = (Ret (Some (zlen buf)), c') /\ ck_data_wf c' /\
    ck_view c' = (if zlen buf <=? m_maxChunkSize c then buf
                  else zdrop (m_maxChunkSize c) buf ++ ztake (m_maxChunkSize c) buf) ++ ck_view c.
Proof.
  intros Hwf Hne Hadd Hfree Hlen. destruct (append_in_memory c buf Hwf Hne Hadd) as [_ ->].
  destruct Hadd as (_ & _ & Hm & _ & Hp). pose proof (zlen_pos buf Hne) as Hpos.
  pose proof (zlen_nonneg (ck_view c)). pose proof Hwf as (Hnone & Hf & _ & _).
  pose proof (fun cs => recalc_prepended c cs Hwf) as Hput.
  rewrite prepend_loop_step by (done || lia).
  destruct (prepended_chunk_wf c buf Hne Hp) as (Hw1 & Hb1 & Hc1).
  case_cond; zbool.
  - rewrite Z.min_l in * by lia. rewrite zdrop_ge, (ztake_ge _ buf) in * by lia. cbn [length].
    destruct (length buf) eqn:El; [unfold zlen in Hpos; lia|]. cbn [append_loop].
    destruct (Hput [prepended_chunk c buf]) as (c' & Hr & Hwf' & Hv'); [by constructor| |].
    { cbn [app]. rewrite zlen_chunks_cons, Hc1 by done. unfold ck_view in *. lia. }
    exists c'. simpl app in Hr. rewrite <- Hr at 1. split; [done|]. split; [done|].
    rewrite Hv'. f_equal. rewrite chunks_bytes_cons, Hb1. apply app_nil_r.
  - rewrite Z.min_r in * by lia. set (c1 := ck_put _ c). set (k := m_maxChunkSize c) in *.
    set (buf' := zdrop k buf). assert (Hl' : zlen buf' = zlen buf - k) by (unfold buf'; rewrite zlen_zdrop; lia).
    destruct (ck_put_wf (prepended_chunk c buf :: m_chunksVector c) c) as [Hwf1 Hv1]; [done|by constructor| |].
    { rewrite zlen_chunks_cons, Hc1 by done. unfold ck_view in *. lia. }
    fold c1 in Hwf1, Hv1. assert (Hne' : buf' <> []) by (intros He; rewrite He in Hl'; change (zlen (@nil ascii)) with 0 in Hl'; lia).
    destruct (length buf) eqn:El; [unfold zlen in Hpos; lia|].
    rewrite (prepend_loop_step _ buf' (0 + k) c1); [|done|done|done| |lia|lia|].
    2:{ change (m_chunksVector c1) with (prepended_chunk c buf :: m_chunksVector c). rewrite zlen_cons.
        change (m_maxChunks c1) with (m_maxChunks c). lia. }
    2:{ rewrite Hv1, zlen_chunks_cons, Hc1 by done. unfold ck_view in *. lia. }
    destruct (prepended_chunk_wf c1 buf' Hne') as (Hw2 & Hb2 & Hc2); [done|].
    change (m_maxChunkSize c1) with k in *. rewrite Z.min_l in * by lia.
    rewrite zdrop_ge, (ztake_ge _ buf') in * by lia.
    destruct n as [|n]; [assert (zlen buf = 1) by (unfold zlen; lia); lia|]. cbn [append_loop].
    destruct (Hput [prepended_chunk c1 buf'; prepended_chunk c buf]) as (c' & Hr & Hwf' & Hv');
      [by constructor; [|constructor]| |].
    { cbn [app]. rewrite !zlen_chunks_cons, Hc1, Hc2 by done. unfold ck_view in *. lia. }
    exists c'. replace (0 + k + zlen buf') with (zlen buf) by lia. split.
    + f_equal. rewrite <- Hr. done.
    + split; [done|]. rewrite Hv'. rewrite !chunks_bytes_cons, Hb1, Hb2.
      change (chunks_bytes []) with (@nil ascii). by rewrite app_nil_r.
Qed.
End Properties.

Section AnyContainer.
Context {C : Type}.

(** Over any container that keeps the search contract (B_MEM and
    B_Chunks do), [find] of a non-empty needle in the rest of the container
    returns the position of its first occurrence at or after the offset, and
    nothing exactly when there is none; it neither throws nor runs out. *)
Theorem find_is_first_occurrence `{Searchable C} (c : C) needle off :
  b_wf c -> needle <> [] -> zlen needle <= SSIZE_MAX -> 0 <= off <= zlen (b_view c) ->
  exists r, find c needle true off 0 = Ret r /\ first_occurrence needle (b_view c) off r.
Proof. apply find_first. Qed.

(** Transferring a prefix of any container to any destination with room
    for it writes exactly those bytes at the end of the destination, once and
    in order, and leaves the destination ready for more. *)
Theorem appendTo_transfers `{Readable C} {S} `{FullSink S} (c : C) n (s : S) :
  b_wf c -> 0 <= n <= zlen (b_view c) -> sink_ok s -> n <= sink_room s ->
  exists s', appendTo c n 0 s = (Ret (Some n), s') /\ sink_ok s' /\
    sink_view s' = sink_view s ++ ztake n (b_view c).
Proof. intros. destruct (appendTo_take c n s) as (s' & ? & ? & ? & ?); [done..|]. by exists s'. Qed.

(** [B_Base::compare] looks at nothing but the overflow of the offset
    with the length: over any container it answers true for any two texts of
    the same length, and [compare] of a string is a test of its length. *)
Theorem compare_ignores_content `{BBase C} (c : C) mem caseSensitive offset :
  is_size (offset + zlen mem) -> 0 <= offset ->
  compare c mem caseSensitive offset = true /\
  compare_string c mem caseSensitive offset = (zlen mem =? v_size c).
Proof.
  intros Hs Ho. pose proof (zlen_nonneg mem). unfold compare_string, compare.
  rewrite overflow_sum_false by (unfold is_size in *; lia). split; [done|]. by destruct (_ =? _).
Qed.
End AnyContainer.

(** ** Witnesses *)

Lemma append_adds_what_fits_witness :
  exists c', append (str "hello, world") (small_chunks 2) = (Ret (Some 8), c') /\
    ck_view c' = str "hello, w".
Proof.
  destruct (append_adds_what_fits (small_chunks 2) (str "hello, world")) as (c' & Ha & _ & Hv & _).
  - ck_concrete.
  - ck_concrete.
  - left. reflexivity.
  - ck_concrete.
  - exists c'. split; [exact Ha|exact Hv].
Defined.

Lemma GetPosForOffset_finds_witness :
  I_Chunk_GetPosForOffset (text_chunks "hello, world") 5 = Some 1 /\
  coffset (chunk_at (text_chunks "hello, world") 1) <= 5.
Proof.
  assert (Hi : I_Chunk_GetPosForOffset (text_chunks "hello, world") 5 = Some 1) by (vm_compute; reflexivity).
  split; [exact Hi|].
  assert (Hwf : ck_data_wf (text_chunks "hello, world")) by ck_concrete.
  assert (Hx : ck_indexed (text_chunks "hello, world")) by ck_concrete.
  pose proof (GetPosForOffset_finds (text_chunks "hello, world") 5 Hwf Hx ltac:(lia)) as Hg.
  rewrite Hi in Hg. apply Hg.
Defined.

Lemma reads_are_slices_witness :
  copyOut (text_chunks "hello, world") 6 3 = Some (str "lo, wo") /\
  toString (text_chunks "hello, world") SIZE_MAX 0 = Some (str "hello, world").
Proof.
  destruct (reads_are_slices (text_chunks "hello, world") 6 3) as (Hc & _ & Ht); [ck_concrete..|].
  split; [exact Hc|exact Ht].
Defined.

Lemma truncate_keeps_prefix_witness :
  exists c', truncate 6 (text_chunks "hello, world") = (Ret (Some 6), c') /\ ck_view c' = str "hello,".
Proof.
  destruct (truncate_keeps_prefix (text_chunks "hello, world") 6) as (c' & Ht & _ & _ & Hv);
    [ck_concrete..|].
  exists c'. split; [exact Ht|exact Hv].
Defined.

Lemma displace_drops_prefix_witness :
  exists c', displace 7 (text_chunks "hello, world") = (Ret (Some 7), c') /\ ck_view c' = str "world".
Proof.
  destruct (displace_drops_prefix (text_chunks "hello, world") 7) as (c' & Hd & _ & Hv & _); [ck_concrete..|].
  exists c'. split; [exact Hd|exact Hv].
Defined.

Lemma displace_loses_offsets_witness :
  size (snd (displace 1 (text_chunks "hello, world"))) = 11 /\
  toString (snd (displace 1 (text_chunks "hello, world"))) SIZE_MAX 0 = Some [].
Proof.
  split; [vm_compute; reflexivity|].
  apply (displace_loses_offsets (text_chunks "hello, world") 1); ck_concrete.
Defined.

Lemma prepend_swaps_chunks_witness :
  exists c', prepend (str "world!") (text_chunks "...") = (Ret (Some 6), c') /\
    ck_view c' = str "d!worl...".
Proof.
  destruct (prepend_swaps_chunks (text_chunks "...") (str "world!")) as (c' & Hp & _ & Hv).
  - ck_concrete.
  - discriminate.
  - split; [reflexivity|]. split; [ck_concrete|]. split; [ck_concrete|]. split; [left; reflexivity|ck_concrete].
  - ck_concrete.
  - ck_concrete.
  - exists c'. split; [exact Hp|exact Hv].
Defined.

Lemma find_is_first_occurrence_witness :
  exists r, find (text_chunks "to be or not to be") (str "not") true 0 0 = Ret r /\
    first_occurrence (str "not") (b_view (text_chunks "to be or not to be")) 0 r.
Proof.
  destruct (find_is_first_occurrence (text_chunks "to be or not to be") (str "not") 0) as (r & Hf & Hr).
  - ck_concrete.
  - discriminate.
  - vm_compute; discriminate.
  - split; vm_compute; discriminate.
  - exists r. split; [exact Hf|exact Hr].
Defined.

Lemma appendTo_transfers_witness :
  exists s', appendTo (text_chunks "hello, world") 9 0 (small_chunks 20) = (Ret (Some 9), s') /\
    ck_view s' = str "hello, wo".
Proof.
  destruct (appendTo_transfers (text_chunks "hello, world") 9 (small_chunks 20)) as (s' & Ha & _ & Hv).
  - ck_concrete.
  - split; vm_compute; discriminate.
  - split; [split; [ck_concrete|repeat split]|repeat split; vm_compute; discriminate].
  - vm_compute; discriminate.
  - exists s'. split; [exact Ha|exact Hv].
Defined.

Lemma compare_ignores_content_witness :
  compare_string (text_chunks "password") (str "passwort") true 0 = true.
Proof.
  destruct (compare_ignores_content (text_chunks "password") (str "passwort") true 0) as [_ Hc].
  - split; vm_compute; discriminate.
  - lia.
  - rewrite Hc. vm_compute. reflexivity.
Defined.
