(* ===== verification/BRef.v ===== *)
(** * A window on another container (Memory/b_ref.h, Memory/b_ref.cpp)

    [referencedBC] is the container the pointer designates, with its current
    contents: an object that holds a B_Ref and the container it points to is
    modelled by [at_container], which looks at the container through the fields
    of the reference at each use. *)

From S2P Require Import Prelude Mem SafeInt StreamableObject BBase.

(** The fields of the object; [ref_set] tells a null pointer. *)
Record RefFields : Type := mkRefFields {
  ref_base : B_Base;
  ref_set : bool;
  referencedOffset : Z;
  referencedMaxBytes : Z
}.

Record B_Ref (C : Type) : Type := mkRef {
  ref_fields : RefFields;
  referencedBC : option C
}.
Arguments mkRef {C} _ _.
Arguments ref_fields {C} _.
Arguments referencedBC {C} _.

Definition with_base (b : B_Base) (r : RefFields) : RefFields :=
  mkRefFields b (ref_set r) (referencedOffset r) (referencedMaxBytes r).

(** A reference made with no container. *)
Definition RefFields_new : RefFields := mkRefFields B_Base_new false 0 0.

(** [clear()]: the base fields, then the pointer. *)
Definition ref_clear (r : RefFields) : RefFields :=
  mkRefFields (clear0_fields (ref_base r)) false (referencedOffset r) (referencedMaxBytes r).

(** The object as a container, given the one its pointer designates. *)
Definition at_container {C} (r : RefFields) (c : C) : B_Ref C :=
  mkRef r (if ref_set r then Some c else None).

Section BRef.
Context {C : Type} `{BBase C}.

(** [reference(bc, offset, maxBytes)] on the fields. *)
Definition reference (c : C) (offset maxBytes : Z) (r : RefFields) : bool * RefFields :=
  if offset >? v_size c then (false, r)
  else (true, mkRefFields (set_readOnly true (ref_base r)) true offset maxBytes).

(** The constructor. *)
Definition B_Ref_new (bc : option C) (offset maxBytes : Z) : B_Ref C :=
  match bc with
  | None => mkRef RefFields_new None
  | Some c => at_container (snd (reference c offset maxBytes RefFields_new)) c
  end.

Definition size (r : B_Ref C) : Z :=
  match referencedBC r with
  | None => 0
  | Some c =>
      let availableBytes := u64 (v_size c - referencedOffset (ref_fields r)) in
      let maxBytes := referencedMaxBytes (ref_fields r) in
      if (maxBytes =? SIZE_MAX) || (maxBytes >? availableBytes) then availableBytes else maxBytes
  end.

Definition findChar (r : B_Ref C) (ch : ascii) (offset searchSpace : Z) (caseSensitive : bool)
    : res (option Z) :=
  match referencedBC r with
  | None => Ret None
  | Some c =>
      let caseSensitive := if caseSensitive && negb (isalpha ch) then false else caseSensitive in
      v_findChar c ch (u64 (referencedOffset (ref_fields r) + offset)) searchSpace caseSensitive
  end.

Definition truncate2 (n : Z) : st (B_Ref C) (option Z) := fun r =>
  let f := ref_fields r in
  (Ret (Some n), mkRef (mkRefFields (ref_base f) (ref_set f) (referencedOffset f) n) (referencedBC r)).

(** Run a method of the referenced container. *)
Definition on_referenced {A} (c : C) (f : st C A) : st (B_Ref C) A := fun r =>
  let (a, c) := f c in (a, mkRef (ref_fields r) (Some c)).

Definition append2 (buf : bytes) (prependMode : bool) : st (B_Ref C) (option Z) := fun r =>
  match referencedBC r with
  | None => (Ret None, r)
  | Some c => on_referenced c (if prependMode then prepend buf else append buf) r
  end.

Definition displace2 (roBytesToDisplace : Z) : st (B_Ref C) (option Z) := fun r =>
  match referencedBC r with
  | None => (Ret None, r)
  | Some _ =>
      let bytesToDisplace :=
        if roBytesToDisplace >? size r then size r else roBytesToDisplace in
      let f := ref_fields r in
      let maxBytes :=
        if negb (referencedMaxBytes f =? SIZE_MAX) then u64 (referencedMaxBytes f - bytesToDisplace)
        else referencedMaxBytes f in
      (Ret (Some bytesToDisplace),
       mkRef (mkRefFields (ref_base f) (ref_set f)
                (u64 (referencedOffset f + bytesToDisplace)) maxBytes) (referencedBC r))
  end.

Definition clear2 : st (B_Ref C) bool := fun r =>
  let f := ref_fields r in
  (Ret true, mkRef (mkRefFields (ref_base f) false (referencedOffset f) (referencedMaxBytes f)) None).

Definition copyToStream2 {O} `{Ostream O} (r : B_Ref C) (n offset : Z) (out : O) : option Z * O :=
  match referencedBC r with
  | None => (None, out)
  | Some c =>
      if offset >? size r then (None, out)
      else
        let maxBytesToCopy := u64 (size r - offset) in
        copyToStream c (Z.min n maxBytesToCopy) (u64 (referencedOffset (ref_fields r) + offset)) out
  end.

(** [bc.writeStatus.succeed=false]. *)
Definition mark_failed {S} `{Streamable S} : st S unit :=
  modify (fun s => so_set_status (ws_set_succeed false (so_status s)) s).

Definition copyToStreamableObject2 {S} `{Streamable S} (r : B_Ref C) (n offset : Z)
    : st S (option Z) :=
  match referencedBC r with
  | None => do! mark_failed in ret None
  | Some c =>
      if offset >? size r then do! mark_failed in ret None
      else
        let maxBytesToCopy := u64 (size r - offset) in
        appendTo c (Z.min n maxBytesToCopy) (u64 (referencedOffset (ref_fields r) + offset))
  end.

Definition copyToBuffer2 (r : B_Ref C) (n offset : Z) : option bytes :=
  match referencedBC r with
  | None => None
  | Some c =>
      if offset >? size r then None
      else
        let maxBytesToCopy := u64 (size r - offset) in
        copyOut c (Z.min n maxBytesToCopy) (u64 (referencedOffset (ref_fields r) + offset))
  end.

Definition compare2 (r : B_Ref C) (buf : bytes) (caseSensitive : bool) (offset : Z) : bool :=
  match referencedBC r with
  | None => false
  | Some c =>
      if offset >? size r then false
      else
        let maxBytesToCompare := u64 (size r - offset) in
        compare c (ztake (Z.min (zlen buf) maxBytesToCompare) buf) caseSensitive
          (u64 (referencedOffset (ref_fields r) + offset))
  end.

Definition B_Ref_set (b : B_Base) (r : B_Ref C) : B_Ref C :=
  mkRef (with_base b (ref_fields r)) (referencedBC r).

#[export] Instance B_Ref_container : BBase (B_Ref C) := {
  b_get r := ref_base (ref_fields r);
  b_set := B_Ref_set;
  v_size := size;
  v_findChar := findChar;
  v_truncate2 := truncate2;
  v_append2 := append2;
  v_displace2 := displace2;
  v_clear2 := clear2;
  v_copyToStream2 := @copyToStream2;
  v_copyToStreamableObject2 := @copyToStreamableObject2;
  v_copyToBuffer2 := copyToBuffer2;
  v_compare2 := compare2
}.
End BRef.

(** ** The window *)

#[global] Arguments size : simpl never.

Section Window.
Context {C : Type} `{Indexed C}.

Definition ref_view (r : B_Ref C) : bytes :=
  match referencedBC r with
  | None => []
  | Some c => slice (referencedOffset (ref_fields r)) (size r) (b_view c)
  end.

(** The pointer designates a container that the window does not leave. *)
Definition ref_wf (r : B_Ref C) : Prop :=
  exists c, referencedBC r = Some c /\ b_wf c /\
    0 <= referencedOffset (ref_fields r) <= zlen (b_view c) /\
    is_size (referencedMaxBytes (ref_fields r)).

Lemma ref_size r c :
  referencedBC r = Some c -> b_wf c -> 0 <= referencedOffset (ref_fields r) <= zlen (b_view c) ->
  is_size (referencedMaxBytes (ref_fields r)) ->
  size r = Z.min (referencedMaxBytes (ref_fields r)) (zlen (b_view c) - referencedOffset (ref_fields r)).
Proof.
  intros Hc Hwf Ho Hm. pose proof (size_bound c Hwf). unfold size. rewrite Hc, (size_view c Hwf).
  rewrite u64_small by (apply size_arith; lia). unfold is_size, SSIZE_MAX, SIZE_MAX in *.
  rewrite Z.gtb_ltb. case_cond; lia.
Qed.

Lemma zlen_ref_view r : ref_wf r -> zlen (ref_view r) = size r.
Proof.
  intros (c & Hc & Hwf & Ho & Hm). unfold ref_view. rewrite Hc.
  pose proof (ref_size r c Hc Hwf Ho Hm) as Hs. unfold is_size in Hm.
  apply zlen_slice; lia.
Qed.

Lemma ref_at_zero c n r :
  b_wf c -> 0 <= n <= zlen (b_view c) ->
  snd (reference c 0 n r) = mkRefFields (set_readOnly true (ref_base r)) true 0 n /\
  ref_wf (at_container (snd (reference c 0 n r)) c) /\
  ref_view (at_container (snd (reference c 0 n r)) c) = ztake n (b_view c).
Proof.
  intros Hwf Hn. pose proof (size_bound c Hwf). unfold reference. rewrite (size_view c Hwf).
  replace (0 >? zlen (b_view c)) with false by lia.
  set (w := at_container _ c). assert (Hw : ref_wf w).
  { exists c. split; [done|]. split; [done|]. simpl. unfold is_size, SSIZE_MAX, SIZE_MAX in *. lia. }
  split; [done|]. split; [done|]. unfold ref_view. simpl. rewrite slice_0.
  destruct Hw as (c' & [= <-] & _ & Ho & Hm). rewrite (ref_size w c) by done. simpl.
  f_equal. lia.
Qed.

Lemma ref_whole c r :
  b_wf c ->
  snd (reference c 0 SIZE_MAX r) = mkRefFields (set_readOnly true (ref_base r)) true 0 SIZE_MAX /\
  ref_wf (at_container (snd (reference c 0 SIZE_MAX r)) c) /\
  ref_view (at_container (snd (reference c 0 SIZE_MAX r)) c) = b_view c.
Proof.
  intros Hwf. pose proof (size_bound c Hwf). pose proof (zlen_nonneg (b_view c)).
  unfold reference. rewrite (size_view c Hwf).
  replace (0 >? zlen (b_view c)) with false by lia.
  set (w := at_container _ c). assert (Hw : ref_wf w).
  { exists c. split; [done|]. split; [done|]. simpl. unfold is_size, SSIZE_MAX, SIZE_MAX in *. lia. }
  split; [done|]. split; [done|]. unfold ref_view. simpl. rewrite slice_0.
  destruct Hw as (c' & [= <-] & _ & Ho & Hm). rewrite (ref_size w c) by done. simpl.
  apply ztake_ge. unfold SSIZE_MAX, SIZE_MAX in *. lia.
Qed.

(** Reads by offset through the window. *)
Lemma ref_copyToBuffer2 r c n off :
  referencedBC r = Some c -> b_indexed c -> ref_wf r ->
  0 < n -> 0 <= off -> off + n <= size r ->
  copyToBuffer2 r n off = Some (slice off n (ref_view r)).
Proof.
  intros Hc Hi (c' & Hc' & Hwf & Ho & Hm) Hn Hoff Hb. rewrite Hc in Hc'. injection Hc' as <-.
  pose proof (ref_size r c Hc Hwf Ho Hm) as Hs. pose proof (size_bound c Hwf).
  unfold copyToBuffer2. rewrite Hc. replace (off >? size r) with false by lia.
  rewrite !u64_small by (apply size_arith; lia). rewrite Z.min_l by lia.
  rewrite (copyOut_view c) by (done || lia). f_equal. unfold ref_view. rewrite Hc. unfold slice.
  rewrite zdrop_ztake, ztake_ztake, zdrop_zdrop by lia. f_equal. lia.
Qed.

(** The window as a container of its own, from the start of the referenced
    one. *)
Definition ref_first (r : B_Ref C) : Prop := ref_wf r /\ referencedOffset (ref_fields r) = 0.

Lemma ref_bound r : ref_wf r -> size r <= SSIZE_MAX.
Proof.
  intros (c & Hc & Hwf & Ho & Hm). rewrite (ref_size r c) by done. pose proof (size_bound c Hwf). lia.
Qed.

#[export] Program Instance B_Ref_readable : Readable (B_Ref C) := {
  b_view := ref_view;
  b_wf := ref_first
}.
Next Obligation. intros r [Hr _]. symmetry. by apply zlen_ref_view. Qed.
Next Obligation. intros r [Hr _]. rewrite zlen_ref_view by done. by apply ref_bound. Qed.
Next Obligation.
  simpl. intros S ? r n [Hr Hz] Hn Hb. rewrite zlen_ref_view in Hb by done.
  pose proof (ref_bound r Hr). destruct Hr as (c & Hc & Hwf & Ho & Hm).
  pose proof (ref_size r c Hc Hwf Ho Hm) as Hs. unfold copyToStreamableObject2, ref_view.
  rewrite Hc, Hz in *. replace (0 >? size r) with false by lia.
  rewrite Z.sub_0_r, !u64_small by (apply size_arith; lia). rewrite Z.min_l by lia.
  rewrite slice_0, ztake_ztake, Z.min_l by lia. apply (appendTo_pieces c n); [done|lia].
Qed.

#[export] Program Instance B_Ref_indexed : Indexed (B_Ref C) := {
  b_indexed r := exists c, referencedBC r = Some c /\ b_indexed c
}.
Next Obligation.
  simpl. intros r n off [Hr _] (c & Hc & Hi) Hn Ho Hb. rewrite zlen_ref_view in Hb by done.
  by apply (ref_copyToBuffer2 r c).
Qed.

(** The window's contents as text. *)
Lemma ref_toStringEx c f :
  b_wf c -> b_indexed c -> ref_first (at_container f c) ->
  toStringEx (at_container f c) = ref_view (at_container f c).
Proof.
  intros Hwf Hi Hr. rewrite toStringEx_view; [done|done|]. exists c. split; [|done].
  destruct Hr as [(c' & Hc' & _) _]. simpl in *. by destruct (ref_set f).
Qed.
End Window.
