(* ===== verification/SocketStream.v ===== *)
(** * Stream sockets

    Net_Sockets/socket_stream.cpp, socket_stream_reader.h and .cpp,
    socket_stream_writer.h and .cpp: complete reads and writes over a socket
    that transfers pieces, and on top of them integers in network order, blocks
    and strings with a length header, and blocks that end with a delimiter.

    What a socket is (partialRead, partialWrite, shutdownSocket are virtual) is
    the class [StreamSocket]; the kernel's recv and send, TLS and the dummy
    socket are implementations. The byte order of the host is a parameter. *)

From S2P Require Import Prelude SafeInt ByteOrder StreamableObject.

(** ** The virtual members *)

(** [partialRead area] reads at most [zlen area] bytes into the area: the value
    it returns (negative: error, 0: end of the stream), and the area after it.
    [partialWrite] returns how many bytes it took. *)
Class StreamSocket (D : Type) : Type := {
  partialRead : bytes -> D -> Z * bytes * D;
  partialWrite : bytes -> D -> Z * D;
  shutdownSocket : D -> D
}.

(** The object: the socket and the status it inherits from StreamableObject. *)
Record Socket_Stream (D : Type) : Type := mkSocket { dev : D; sock_status : WriteStatus }.
Arguments mkSocket {D} dev sock_status.
Arguments dev {D} s.
Arguments sock_status {D} s.

Section Socket.
  Context {D : Type} `{StreamSocket D}.
  Abbreviation socket := (Socket_Stream D) (only parsing).

(** A call on the socket itself. *)
Definition on_dev {A} (f : D -> A * D) : st socket A := fun s =>
  let (a, d) := f (dev s) in (Ret a, mkSocket d (sock_status s)).

Definition shutdown : st socket unit := on_dev (fun d => (tt, shutdownSocket d)).

(** writeDeSync and readDeSync. *)
Definition deSync : st socket unit := shutdown.

(** [writeStatus += -1]: throws when the status has failed already. *)
Definition status_fail : st socket unit := fun s =>
  let (r, w) := ws_add (-1) (sock_status s) in (r, mkSocket (dev s) w).

(** Socket_Stream::write *)
Definition write (buf : bytes) : st socket (option Z) :=
  if zlen buf =? 0 then do! shutdown in ret (Some 0)
  else
    let! r := on_dev (partialWrite buf) in
    if r >? 0 then ret (Some r) else ret None.

#[export] Instance Socket_stream : Streamable socket := {
  so_status := sock_status;
  so_set_status w s := mkSocket (dev s) w;
  so_write := write
}.

(** ** Complete writes and reads *)

Fixpoint writeFull_loop (fuel : nat) (data : bytes) : st socket bool :=
  match fuel with
  | O => throw diverges
  | S fuel =>
      if 0 <? zlen data then
        let! sentBytes := on_dev (partialWrite (ztake 4096 data)) in
        if sentBytes <=? 0 then
          do! shutdown in
          do! status_fail in
          ret false
        else writeFull_loop fuel (zdrop sentBytes data)
      else ret true
  end.

Definition writeFull (data : bytes) : st socket bool :=
  if zlen data >? SSIZE_MAX then do! status_fail in ret false
  else writeFull_loop (S (length data)) data.

(** [memory] with the area at [off] replaced. A write that leaves the object is
    undefined. *)
Definition patch (memory : bytes) (off : Z) (area : bytes) : bytes :=
  ztake off memory ++ area ++ zdrop (off + zlen area) memory.

(** The answer of readFull, for an area that is not null: its result, *receivedDataBytesCount, the memory. *)
Record read_full := mkRead { read_ok : bool; received : Z; memory : bytes }.

Fixpoint readFull_loop (fuel : nat) (data : bytes) (expected cur : Z) : st socket read_full :=
  match fuel with
  | O => throw diverges
  | S fuel =>
      if cur <? expected then
        let bytesToRead := Z.min 4096 (expected - cur) in
        if zlen data <? cur + bytesToRead then throw (undefined "write past the end of a buffer")
        else
          let! answer := on_dev (partialRead (slice cur bytesToRead data)) in
          let '(r, area) := answer in
          let data := patch data cur area in
          if r <? 0 then ret (mkRead false 0 data)
          else if r =? 0 then ret (mkRead false cur data)
          else readFull_loop fuel data expected (cur + r)
      else ret (mkRead true cur data)
  end.

Definition readFull (data : bytes) (expected : Z) : st socket read_full :=
  if expected =? 0 then ret (mkRead true 0 data)
  else readFull_loop (S (Z.to_nat expected)) data expected 0.

(** ** Integers

    The integers of 1, 2, 4 and 8 bytes, in the byte order of the network. *)

  Variable big_endian : bool.

(** writeU8, writeU16, writeU32 and writeU64. *)
Definition writeU8 (c : Z) : st socket bool := writeFull (store big_endian 1 c).
Definition writeU16 (c : Z) : st socket bool := writeFull (store big_endian 2 (hton big_endian 2 c)).
Definition writeU32 (c : Z) : st socket bool := writeFull (store big_endian 4 (hton big_endian 4 c)).
Definition writeU64 (c : Z) : st socket bool := writeFull (store big_endian 8 (htonll big_endian c)).

(** readU8 .. readU64: the value, and *readOK. *)
Definition read_integer (w : nat) (conv : Z -> Z) : st socket (Z * bool) :=
  let! r := readFull (store big_endian w 0) (Z.of_nat w) in
  ret (conv (load big_endian (memory r)), read_ok r && (received r =? Z.of_nat w)).

Definition readU8 : st socket (Z * bool) := read_integer 1 (fun x => x).
Definition readU16 : st socket (Z * bool) := read_integer 2 (ntoh big_endian 2).
Definition readU32 : st socket (Z * bool) := read_integer 4 (ntoh big_endian 4).
Definition readU64 : st socket (Z * bool) := read_integer 8 (ntohll big_endian).

(** writeU<T> and readU<T>, for a type of [w] bytes. *)
Definition writeU (w : nat) (c : Z) : st socket bool :=
  let! r := match w with
            | 1%nat => writeU8 c
            | 2%nat => writeU16 c
            | 4%nat => writeU32 c
            | 8%nat => writeU64 c
            | _ => ret false
            end in
  if r then ret true else do! deSync in ret false.

Definition readU (w : nat) : st socket (Z * bool) :=
  let! r := match w with
            | 1%nat => readU8
            | 2%nat => readU16
            | 4%nat => readU32
            | 8%nat => readU64
            | _ => throw (runtime_error "Code Error: reading block with invalid lenght variable size.")
            end in
  if snd r then ret r else do! deSync in ret r.

(** The value of an integer converted to T. *)
Definition wrap (w : nat) (x : Z) : Z := x mod 256 ^ Z.of_nat w.
Definition max_value (w : nat) : Z := 256 ^ Z.of_nat w - 1.

(** ** Blocks with a length header *)

(** writeBlockEx<T>(data, datalen) *)
Definition writeBlockEx (w : nat) (data : bytes) (datalen : Z) : st socket bool :=
  let! wr := match w with
             | 1%nat => writeU8 datalen
             | 2%nat => writeU16 datalen
             | 4%nat => writeU32 datalen
             | 8%nat => writeU64 datalen
             | _ => throw (runtime_error
                      "Code Error: writting block with invalid lenght variable size.")
             end in
  if negb wr then ret false
  else if datalen =? 0 then ret true
  else
    let! r := writeFull (ztake datalen data) in
    if r then ret true else do! deSync in ret false.

(** writeStringEx<T>(str, maxSize): the size is converted to T. *)
Definition writeStringEx (w : nat) (text : bytes) (maxSize : Z) : st socket bool :=
  if zlen text >? maxSize then do! deSync in ret false
  else writeBlockEx w text (wrap w (zlen text)).

(** readBlockEx<T>(data, &datalen, mustReceiveFullDataLen): the result,
    *datalen and the memory. *)
Definition readBlockEx (w : nat) (data : bytes) (datalen : Z) (mustReceiveFullDataLen : bool)
  : st socket (bool * Z * bytes) :=
  if datalen =? 0 then ret (true, datalen, data)
  else
    let! r := readU w in
    let (len, readOK) := (r : Z * bool) in
    if readOK then
      if (negb (len =? datalen) && mustReceiveFullDataLen) || (len >? datalen) then
        do! deSync in ret (false, datalen, data)
      else if len =? 0 then ret (true, len, data)
      else
        let! f := readFull data len in
        ret (read_ok f && (received f =? len), len, memory f)
    else ret (false, datalen, data).

(** [expectedBytesCount+1] in the type of the sum: int for the types narrower
    than int, T otherwise. *)
Definition plus_one (w : nat) (x : Z) : Z :=
  if (w <? 4)%nat then x + 1 else wrap w (x + 1).

(** readBlockWAllocEx<T>(&datalen): the block, of *datalen bytes and a null,
    and *datalen; a null pointer stands for the default limit. *)
Definition readBlockWAllocEx (w : nat) (limit : option Z) : st socket (option bytes * Z) :=
  let datalen := match limit with Some n => n | None => max_value w - 1 end in
  let! r := readU w in
  let (expectedBytesCount, readOK) := (r : Z * bool) in
  if readOK then
    if expectedBytesCount >? datalen then do! deSync in ret (None, 0)
    else
      let odata := repeat (chr 0) (Z.to_nat (plus_one w expectedBytesCount)) in
      if expectedBytesCount =? 0 then ret (Some odata, 0)
      else
        let! f := readFull odata expectedBytesCount in
        if negb (read_ok f && (received f =? expectedBytesCount)) then
          do! deSync in ret (None, 0)
        else ret (Some (memory f), expectedBytesCount)
  else ret (None, 0).

(** readStringEx<T>(&readOK, maxLenght) *)
Definition readStringEx (w : nat) (maxLenght : Z) : st socket (bytes * bool) :=
  let! r := readBlockWAllocEx w (Some maxLenght) in
  let '(data, receivedBytes) := (r : option bytes * Z) in
  match data with
  | None => ret ([], false)
  | Some data => if receivedBytes =? 0 then ret ([], true) else ret (ztake receivedBytes data, true)
  end.

(** ** Blocks that end with a delimiter *)

(** read64KBlockDelim: [before] is the memory in front of the block, [block]
    the bytes read into it so far, [n] the bytes it may still read. The memory
    after the call, and its result. *)
Fixpoint read64KBlockDelim_loop (n : nat) (before block delim : bytes) (blockNo : Z)
  : st socket (bytes * Z) :=
  match n with
  | O => ret (block, -1)
  | S n =>
      let! r := readU8 in
      let (c, readOK) := (r : Z * bool) in
      let block := block ++ [chr c] in
      let pos := zlen block in
      if negb readOK then ret (block, -2)
      else
        let all := before ++ block in
        if (((blockNo =? 0) && (pos >=? zlen delim)) || (blockNo >? 0)) &&
           (memcmp (zdrop (zlen all - zlen delim) all) delim =? 0)
        then ret (block, pos)
        else read64KBlockDelim_loop n before block delim blockNo
  end.

Definition read64KBlockDelim (before delim : bytes) (blockNo : Z) : st socket (bytes * Z) :=
  read64KBlockDelim_loop (Z.to_nat 65536) before [] delim blockNo.

Definition u32 (n : Z) : Z := n mod 2 ^ 32.

Fixpoint readBlock32_loop (fuel : nat) (datalen : Z) (before delim : bytes) (blockNo : Z)
  : st socket (option bytes * Z) :=
  match fuel with
  | O => throw diverges
  | S fuel =>
      let! r := read64KBlockDelim before delim blockNo in
      let '(block, bytesRecv) := (r : bytes * Z) in
      if bytesRecv =? -2 then ret (None, datalen)
      else if bytesRecv =? -1 then
        let currentBlockSize := zlen before + 65536 in
        if u32 (currentBlockSize + 65536) >? datalen then ret (None, datalen)
        else readBlock32_loop fuel datalen (before ++ block) delim (u32 (blockNo + 1))
      else ret (Some (before ++ block), zlen before + bytesRecv)
  end.

(** readBlock32WAllocAndDelim: the block and *datalen. *)
Definition readBlock32WAllocAndDelim (datalen : Z) (delim : bytes) : st socket (option bytes * Z) :=
  if datalen <=? 65535 then ret (None, datalen)
  else readBlock32_loop (S (Z.to_nat (datalen / 65536))) datalen [] delim 0.

(** ** streamTo: the socket into another stream *)

(** The state is the socket and the destination; [data] is the buffer. *)
Fixpoint streamTo_loop {O} `{Streamable O} (fuel : nat) (data : bytes)
  : st (socket * O) bool := fun so =>
  match fuel with
  | 0%nat => (Exc diverges, so)
  | S fuel =>
      let (s, out) := so in
      let '(r, data, d) := partialRead data (dev s) in
      let s := mkSocket d (sock_status s) in
      if r =? -1 then (Ret false, (s, out))
      else if r <? 0 then (Exc (undefined "a negative count"), (s, out))
      else if r =? 0 then (Ret true, (s, out))
      else
        let (ok, out) := writeFullStream (ztake r data) out in
        match ok with
        | Exc e => (Exc e, (s, out))
        | Ret false => (Ret false, (s, out))
        | Ret true =>
            if finish (so_status out) then (Ret true, (s, out))
            else streamTo_loop fuel data (s, out)
        end
  end.

Definition streamTo {O} `{Streamable O} (fuel : nat) : st (socket * O) bool :=
  streamTo_loop fuel (repeat (chr 0) (Z.to_nat 8192)).

End Socket.

(** * Stream sockets: what is written is what is read

    The contracts of a socket that receives and of one that sends, in pieces of
    any size, and over them: complete reads and writes are exact, integers
    travel in network order between hosts of any byte order, strings come back
    as they were sent, and a length that is too big, a short stream or an error
    is reported and nothing is read out of bounds. *)

(** [inbox] is what the peer has sent and is not read yet, [healthy] that no
    error will be reported: then 0 means the end of the stream. *)
Class Incoming (D : Type) `{StreamSocket D} : Type := {
  inbox : D -> bytes;
  healthy : D -> Prop;
  read_piece area d :
    area <> [] ->
    let '(r, area', d') := partialRead area d in
    zlen area' = zlen area /\ r <= zlen area /\ r <= zlen (inbox d) /\
    (0 <= r -> area' = ztake r (inbox d) ++ zdrop r area /\ inbox d' = zdrop r (inbox d));
  read_healthy area d :
    area <> [] -> healthy d ->
    let '(r, _, d') := partialRead area d in
    0 <= r /\ healthy d' /\ (r = 0 -> inbox d = [])
}.

(** [outbox] is what the socket took so far, [writable] that it takes more. *)
Class Outgoing (D : Type) `{StreamSocket D} : Type := {
  outbox : D -> bytes;
  writable : D -> Prop;
  write_piece buf d :
    buf <> [] ->
    let '(r, d') := partialWrite buf d in
    r <= zlen buf /\ outbox d' = outbox d ++ ztake r buf;
  write_writable buf d :
    buf <> [] -> writable d -> let '(r, d') := partialWrite buf d in 0 < r /\ writable d';
  shutdown_outbox d : outbox (shutdownSocket d) = outbox d
}.

(** ** Complete writes *)

Section Writes.
  Context {D : Type} `{Outgoing D}.
  Implicit Types s : Socket_Stream D.

Lemma status_fail_spec s :
  match status_fail s with
  | (Ret _, s') => dev s' = dev s /\ succeed (sock_status s') = false /\
      succeed (sock_status s) = true /\ finish (sock_status s) = false
  | (Exc e, s') => e = runtime_error "Trying to write into an already finished write object." /\
      dev s' = dev s /\ negb (succeed (sock_status s)) || finish (sock_status s) = true
  end.
Proof.
  unfold status_fail, ws_add. destruct (succeed (sock_status s)), (finish (sock_status s)); by simpl.
Qed.

Lemma writeFull_loop_spec fuel : forall data s,
  zlen data < Z.of_nat fuel ->
  match writeFull_loop fuel data s with
  | (Ret true, s') => outbox (dev s') = outbox (dev s) ++ data /\ sock_status s' = sock_status s /\
      (writable (dev s) -> writable (dev s'))
  | (Ret false, s') => ~ writable (dev s) /\ succeed (sock_status s') = false /\
      exists k, 0 <= k < zlen data /\ outbox (dev s') = outbox (dev s) ++ ztake k data
  | (Exc e, s') => ~ writable (dev s) /\
      e = runtime_error "Trying to write into an already finished write object." /\
      negb (succeed (sock_status s)) || finish (sock_status s) = true
  end.
Proof.
  induction fuel as [|fuel IH]; intros data s Hf; [pose proof (zlen_nonneg data); lia|].
  cbn [writeFull_loop]. case_cond; zbool.
  2:{ assert (data = []) as -> by (apply zlen_0_nil; pose proof (zlen_nonneg data); lia).
      unfold ret. by rewrite app_nil_r. }
  assert (Hne : ztake 4096 data <> []) by (intros He%(f_equal zlen); revert He; zlia).
  unfold bind, on_dev. pose proof (write_piece (ztake 4096 data) (dev s) Hne) as Hp.
  pose proof (write_writable (ztake 4096 data) (dev s) Hne) as Hw.
  destruct (partialWrite (ztake 4096 data) (dev s)) as [r d]. destruct Hp as [Hr Ho].
  rewrite zlen_ztake in Hr. case_cond; zbool.
  - rewrite ztake_le0, app_nil_r in Ho by lia.
    assert (Hnw : ~ writable (dev s)) by (intros Hwr; destruct (Hw Hwr); lia).
    unfold shutdown, on_dev, ret.
    pose proof (status_fail_spec (mkSocket (shutdownSocket d) (sock_status s))) as Hs. simpl in *.
    destruct (status_fail _) as [[[]|e] s']; simpl in Hs.
    + destruct Hs as (Hd & Hf' & _). split; [done|]. split; [done|]. exists 0.
      rewrite Hd, shutdown_outbox, Ho, ztake_le0, app_nil_r by lia. split; [lia|done].
    + by destruct Hs as (-> & _ & ?).
  - rewrite ztake_ztake in Ho. specialize (IH (zdrop r data) (mkSocket d (sock_status s))).
    rewrite zlen_zdrop in IH. specialize (IH ltac:(lia)). simpl in IH.
    rewrite Z.min_l in Ho by lia.
    destruct (writeFull_loop fuel (zdrop r data) _) as [[[|]|e] s'].
    + destruct IH as (Ho' & Hs & Hwr). split; [|split; [done|]].
      * by rewrite Ho', Ho, <- app_assoc, ztake_zdrop.
      * intros Hwd. apply Hwr. by destruct (Hw Hwd).
    + destruct IH as (Hnw & Hs & k & Hk & Ho'). split; [|split; [done|]].
      * intros Hwd. apply Hnw. by destruct (Hw Hwd).
      * exists (r + k). split; [lia|]. rewrite Ho', Ho, <- app_assoc. f_equal.
        rewrite <- (ztake_zdrop r data) at 3. rewrite ztake_app_ge by (rewrite zlen_ztake; lia).
        do 2 f_equal. rewrite zlen_ztake. lia.
    + destruct IH as (Hnw & He & Hs). split; [|done].
      intros Hwd. apply Hnw. by destruct (Hw Hwd).
Qed.

(** A complete write over a socket that takes pieces ends; it answers true
    when all the bytes were taken, in order, false when some were refused, and
    then a prefix was taken and the status has failed. It throws instead of
    answering false only when the status had failed before; on a socket that
    takes what it is given it succeeds. *)
Theorem writeFull_exact data s :
  zlen data <= SSIZE_MAX ->
  match writeFull data s with
  | (Ret true, s') => outbox (dev s') = outbox (dev s) ++ data /\ sock_status s' = sock_status s /\
      (writable (dev s) -> writable (dev s'))
  | (Ret false, s') => ~ writable (dev s) /\ succeed (sock_status s') = false /\
      exists k, 0 <= k < zlen data /\ outbox (dev s') = outbox (dev s) ++ ztake k data
  | (Exc e, s') => ~ writable (dev s) /\
      e = runtime_error "Trying to write into an already finished write object." /\
      negb (succeed (sock_status s)) || finish (sock_status s) = true
  end.
Proof.
  intros Hl. unfold writeFull. replace (zlen data >? SSIZE_MAX) with false by lia.
  apply writeFull_loop_spec. unfold zlen. lia.
Qed.

Lemma writeFull_writable data s :
  zlen data <= SSIZE_MAX -> writable (dev s) ->
  exists s', writeFull data s = (Ret true, s') /\ outbox (dev s') = outbox (dev s) ++ data /\
    writable (dev s').
Proof.
  intros Hl Hw. unfold writeFull. replace (zlen data >? SSIZE_MAX) with false by lia.
  pose proof (writeFull_loop_spec (S (length data)) data s ltac:(unfold zlen; lia)) as Hs.
  destruct (writeFull_loop _ data s) as [[[|]|e] s']; [|by destruct Hs..].
  exists s'. destruct Hs as (? & _ & Hw'). split; [done|]. split; [done|]. by apply Hw'.
Qed.

End Writes.

(** ** Complete reads *)

Section Reads.
  Context {D : Type} `{Incoming D}.
  Implicit Types s : Socket_Stream D.

Lemma zlen_patch m off area :
  0 <= off -> off + zlen area <= zlen m -> zlen (patch m off area) = zlen m.
Proof. intros. unfold patch. zlia. Qed.

(** The memory after [cur] bytes of [text] were read over [data]. *)
Definition filled (text data : bytes) (cur : Z) : bytes := ztake cur text ++ zdrop cur data.

Lemma patch_filled text data cur n r :
  0 <= r <= n -> 0 <= cur -> cur + n <= zlen data -> cur + r <= zlen text ->
  patch (filled text data cur) cur (ztake r (zdrop cur text) ++ zdrop r (slice cur n (filled text data cur)))
  = filled text data (cur + r).
Proof.
  intros Hr Hc Hn Ht. pose proof (zlen_nonneg data). pose proof (zlen_nonneg text).
  assert (Hlc : zlen (ztake cur text) = cur) by (rewrite zlen_ztake; lia).
  unfold patch, filled, slice.
  assert (Hz : forall k l, zdrop (cur + k) (ztake cur text ++ l) = zdrop k l \/ k < 0).
  { intros k l. destruct (Z_lt_le_dec k 0); [by right|left]. rewrite zdrop_app_ge by lia. f_equal. lia. }
  rewrite ztake_app_le, (ztake_ge cur (ztake cur text)) by lia.
  rewrite (zdrop_app_ge cur) by lia. rewrite Hlc, Z.sub_diag, (zdrop_le0 0) by lia.
  rewrite zlen_app, zlen_ztake, !zlen_zdrop, zlen_ztake, zlen_zdrop.
  replace (_ + _) with (cur + n) by lia.
  destruct (Hz n (zdrop cur data)) as [->|]; [|lia].
  rewrite zdrop_zdrop by lia. rewrite zdrop_ztake, zdrop_zdrop by lia.
  rewrite <- app_assoc. rewrite app_assoc. f_equal.
  - rewrite <- (slice_0 (cur + r) text), slice_app_split by lia. unfold slice.
    rewrite (zdrop_le0 0) by lia. by rewrite Z.add_0_l.
  - rewrite <- (ztake_zdrop (n - r) (zdrop (cur + r) data)) at 2. f_equal.
    rewrite zdrop_zdrop by lia. f_equal. lia.
Qed.

Definition read_outcome (text data : bytes) (expected : Z) s (f : read_full) s' : Prop :=
  sock_status s' = sock_status s /\ zlen (memory f) = zlen data /\
  (read_ok f = true -> received f = expected /\ expected <= zlen text /\
     memory f = filled text data expected /\ inbox (dev s') = zdrop expected text) /\
  (healthy (dev s) -> healthy (dev s') /\
     (read_ok f = false -> zlen text < expected /\ received f = zlen text /\
        memory f = text ++ zdrop (zlen text) data /\ inbox (dev s') = [])).

Lemma readFull_loop_spec text data expected fuel : forall cur s,
  0 <= cur <= expected -> expected <= zlen data -> cur <= zlen text ->
  inbox (dev s) = zdrop cur text -> expected - cur < Z.of_nat fuel ->
  exists f s', readFull_loop fuel (filled text data cur) expected cur s = (Ret f, s') /\
    read_outcome text data expected s f s'.
Proof.
  induction fuel as [|fuel IH]; intros cur s Hc He Ht Hin Hfuel; [lia|].
  assert (Hlen : forall k, 0 <= k <= zlen data -> k <= zlen text -> zlen (filled text data k) = zlen data)
    by (intros k ? ?; unfold filled; zlia).
  cbn [readFull_loop]. case_cond; zbool.
  2:{ assert (cur = expected) as -> by lia. eexists _, s. split; [done|].
      split; [done|]. split; [simpl; apply Hlen; lia|]. split; [done|]. simpl. by intros. }
  rewrite Hlen by lia. case_cond; zbool; [lia|]. unfold bind, on_dev.
  set (n := Z.min 4096 (expected - cur)) in *.
  assert (Hne : slice cur n (filled text data cur) <> []).
  { intros Enil%(f_equal zlen). revert Enil. unfold slice, filled. pose proof (zlen_nonneg text). zlia. }
  pose proof (read_piece (slice cur n (filled text data cur)) (dev s) Hne) as Hp.
  pose proof (read_healthy (slice cur n (filled text data cur)) (dev s) Hne) as Hh.
  destruct (partialRead _ (dev s)) as [[r area] d]. destruct Hp as (Hla & Hr & Hri & Hok).
  rewrite zlen_slice in Hla, Hr by (rewrite ?Hlen; lia).
  assert (Hlp : zlen (patch (filled text data cur) cur area) = zlen data)
    by (rewrite zlen_patch by (rewrite ?Hlen; lia); apply Hlen; lia).
  rewrite Hin, zlen_zdrop in Hri.
  destruct (r <? 0) eqn:E1; zbool.
  { eexists _, _. split; [done|]. split; [done|]. split; [done|]. split; [done|]. simpl.
    intros Hhd. destruct (Hh Hhd). lia. }
  destruct (Hok ltac:(lia)) as [Ha Hd]. rewrite Hin in Ha. subst area.
  rewrite patch_filled in * by lia.
  destruct (r =? 0) eqn:E2; zbool.
  - assert (r = 0) as -> by lia. rewrite Z.add_0_r in *. eexists _, _. split; [done|].
    split; [done|]. split; [done|]. split; [done|]. simpl. intros Hhd.
    destruct (Hh Hhd) as (_ & Hhd' & Hz). split; [done|]. intros _. specialize (Hz eq_refl).
    rewrite Hin in Hz. assert (Hzl : zlen (zdrop cur text) = 0) by (by rewrite Hz).
    rewrite zlen_zdrop in Hzl.
    assert (cur = zlen text) as -> by lia. split; [lia|]. split; [done|].
    unfold filled. rewrite ztake_ge by lia. split; [done|].
    rewrite Hd, Hin, Hz. apply zdrop_nil.
  - destruct (IH (cur + r) (mkSocket d (sock_status s))) as (f & s' & Hrun & Hst & Hlm & Hgood & Hhl);
      [lia..| | |]; simpl.
    + rewrite Hd, Hin, zdrop_zdrop by lia. done.
    + lia.
    + exists f, s'. split; [done|]. split; [done|]. split; [done|]. split; [done|].
      intros Hhd. apply Hhl. by destruct (Hh Hhd) as (_ & ? & _).
Qed.

Lemma readFull_spec data expected s :
  0 <= expected <= zlen data ->
  exists f s', readFull data expected s = (Ret f, s') /\
    read_outcome (inbox (dev s)) data expected s f s'.
Proof.
  intros He. unfold readFull. case_cond; zbool.
  - assert (expected = 0) as -> by lia. eexists _, s. split; [done|]. split; [done|]. split; [done|].
    unfold filled. rewrite ztake_le0, !zdrop_le0 by lia. simpl.
    split; [pose proof (zlen_nonneg (inbox (dev s))); done|]. by intros.
  - assert (Hf : filled (inbox (dev s)) data 0 = data)
      by (unfold filled; by rewrite ztake_le0, zdrop_le0 by lia).
    pose proof (zlen_nonneg (inbox (dev s))).
    pose proof (readFull_loop_spec (inbox (dev s)) data expected (S (Z.to_nat expected)) 0 s) as Hl.
    rewrite Hf in Hl. apply Hl; try lia. by rewrite zdrop_le0 by lia.
Qed.

(** A complete read over a socket that gives pieces of any size ends, and
    stays in its buffer. When it answers true the buffer holds exactly the next
    [expected] bytes of the stream, which are consumed, and the rest of the
    buffer is as it was; on a socket without errors it answers false only when
    the stream ends before, and then it has read all of it. *)
Theorem readFull_exact data expected s :
  0 <= expected <= zlen data ->
  exists f s', readFull data expected s = (Ret f, s') /\
    (read_ok f = true -> received f = expected /\ expected <= zlen (inbox (dev s)) /\
       memory f = ztake expected (inbox (dev s)) ++ zdrop expected data /\
       inbox (dev s') = zdrop expected (inbox (dev s))) /\
    (healthy (dev s) -> read_ok f = false -> zlen (inbox (dev s)) < expected /\
       received f = zlen (inbox (dev s)) /\
       memory f = inbox (dev s) ++ zdrop (zlen (inbox (dev s))) data /\ inbox (dev s') = []).
Proof.
  intros He. destruct (readFull_spec data expected s He) as (f & s' & Hr & _ & _ & Hok & Hh).
  exists f, s'. split; [done|]. split; [exact Hok|]. intros Hhd. by apply Hh.
Qed.

End Reads.

(** ** Integers *)

(** The types that have a length header or travel as integers. *)
Definition width (w : nat) : Prop := In w [1; 2; 4; 8]%nat.

Lemma max_value_pow w : max_value w + 1 = 256 ^ Z.of_nat w.
Proof. unfold max_value. lia. Qed.

Lemma width_max w : width w -> 255 <= max_value w <= 2 ^ 64 - 1.
Proof. intros [<-|[<-|[<-|[<-|[]]]]]; vm_compute; split; discriminate. Qed.

(** ** Integers and blocks over a socket that sends *)

Section Send.
  Context {D : Type} `{Outgoing D}.
  Variable big : bool.
  Implicit Types s : Socket_Stream D.

Lemma integer_bytes w x :
  width w -> 0 <= x <= max_value w ->
  match w with
  | 1%nat => writeU8 big x
  | 2%nat => writeU16 big x
  | 4%nat => writeU32 big x
  | 8%nat => writeU64 big x
  | _ => ret false
  end = (writeFull (be_bytes w x) : st (Socket_Stream D) bool).
Proof.
  intros [<-|[<-|[<-|[<-|[]]]]] Hx; cbn [writeU8 writeU16 writeU32 writeU64].
  - unfold writeU8. f_equal. by destruct big.
  - unfold writeU16. f_equal. apply store_hton.
  - unfold writeU32. f_equal. apply store_hton.
  - unfold writeU64. f_equal. apply store_htonll. unfold max_value in Hx. simpl in Hx. lia.
Qed.

Lemma width_small w : width w -> 0 < Z.of_nat w <= 8.
Proof. intros [<-|[<-|[<-|[<-|[]]]]]; lia. Qed.

(** WriteU sends the integer in network order whatever the byte order of
    the host. *)
Theorem writeU_network_order w x s :
  width w -> 0 <= x <= max_value w -> writable (dev s) ->
  exists s', writeU big w x s = (Ret true, s') /\
    outbox (dev s') = outbox (dev s) ++ be_bytes w x /\ writable (dev s').
Proof.
  intros Hw Hx Hwr. pose proof (width_small w Hw).
  destruct (writeFull_writable (be_bytes w x) s) as (s' & Hs & Ho & Hwr');
    [rewrite zlen_be_bytes; unfold SSIZE_MAX; lia|done|].
  exists s'. split; [|done]. unfold writeU. rewrite (integer_bytes w x) by done. unfold bind. by rewrite Hs.
Qed.

(** What a block with a header is on the wire. *)
Definition frame (w : nat) (data : bytes) : bytes := be_bytes w (zlen data) ++ data.

Lemma writeBlockEx_spec w data n s :
  width w -> 0 <= n <= max_value w -> zlen data <= SSIZE_MAX -> writable (dev s) ->
  exists s', writeBlockEx big w data n s = (Ret true, s') /\
    outbox (dev s') = outbox (dev s) ++ be_bytes w n ++ ztake n data /\ writable (dev s').
Proof.
  intros Hw Hn Hl Hwr. pose proof (width_small w Hw).
  destruct (writeFull_writable (be_bytes w n) s) as (s1 & Hs1 & Ho1 & Hwr1);
    [rewrite zlen_be_bytes; unfold SSIZE_MAX; lia|done|].
  assert (Hd : exists s', (if n =? 0 then ret true
    else let! r := writeFull (ztake n data) in if r then ret true else do! deSync in ret false) s1
      = (Ret true, s') /\ outbox (dev s') = outbox (dev s1) ++ ztake n data /\ writable (dev s')).
  { case_cond; zbool.
    - exists s1. rewrite ztake_le0, app_nil_r by lia. done.
    - destruct (writeFull_writable (ztake n data) s1) as (s2 & Hs2 & Ho2 & Hwr2);
        [rewrite zlen_ztake; unfold SSIZE_MAX in *; lia|done|].
      exists s2. unfold bind. by rewrite Hs2. }
  destruct Hd as (s2 & Hs2 & Ho2 & Hwr2). exists s2. rewrite Ho2, Ho1, <- app_assoc.
  split; [|done]. unfold writeBlockEx. pose proof (integer_bytes w n Hw Hn) as Hi.
  destruct Hw as [<-|[<-|[<-|[<-|[]]]]]; rewrite Hi; unfold bind; rewrite Hs1; exact Hs2.
Qed.

(** WriteStringEx refuses a string longer than its limit and closes the
    socket; otherwise it sends the size converted to the header's type and as
    many bytes: the whole string when the header can hold its size, and when
    the limit lets a longer one through, only its size modulo the header's. *)
Theorem writeStringEx_exact w text maxSize s :
  width w -> zlen text <= SSIZE_MAX -> writable (dev s) ->
  if zlen text >? maxSize
  then writeStringEx big w text maxSize s =
         (Ret false, mkSocket (shutdownSocket (dev s)) (sock_status s))
  else exists s', writeStringEx big w text maxSize s = (Ret true, s') /\ writable (dev s') /\
         (zlen text <= max_value w -> outbox (dev s') = outbox (dev s) ++ frame w text) /\
         (max_value w < zlen text -> outbox (dev s') = outbox (dev s) ++
            be_bytes w (zlen text mod 256 ^ Z.of_nat w) ++ ztake (zlen text mod 256 ^ Z.of_nat w) text).
Proof.
  intros Hw Hl Hwr. unfold writeStringEx. case_cond; [done|].
  pose proof (max_value_pow w). pose proof (width_max w Hw). pose proof (zlen_nonneg text).
  assert (Hm : 0 <= wrap w (zlen text) <= max_value w).
  { unfold wrap. pose proof (Z.mod_pos_bound (zlen text) (256 ^ Z.of_nat w) (pow256_pos w)). lia. }
  destruct (writeBlockEx_spec w text (wrap w (zlen text)) s Hw Hm Hl Hwr) as (s' & Hs & Ho & Hwr').
  exists s'. split; [done|]. split; [done|]. split; [|done]. intros Hfit.
  rewrite Ho. unfold frame, wrap. rewrite Z.mod_small by lia. by rewrite ztake_ge by lia.
Qed.

Lemma writeStringEx_frame w text maxSize s :
  width w -> zlen text <= maxSize -> zlen text <= max_value w -> zlen text <= SSIZE_MAX ->
  writable (dev s) ->
  exists s', writeStringEx big w text maxSize s = (Ret true, s') /\ writable (dev s') /\
    outbox (dev s') = outbox (dev s) ++ frame w text.
Proof.
  intros Hw Hm Hx Hl Hwr. pose proof (max_value_pow w). pose proof (zlen_nonneg text).
  unfold writeStringEx. replace (zlen text >? maxSize) with false by lia.
  unfold wrap. rewrite Z.mod_small by lia.
  destruct (writeBlockEx_spec w text (zlen text) s Hw) as (s' & Hs & Ho & Hwr'); [lia|done|done|].
  exists s'. rewrite Ho, ztake_ge by lia. done.
Qed.

End Send.

(** ** Integers and blocks over a socket that receives *)

Section Receive.
  Context {D : Type} `{Incoming D}.
  Variable big : bool.
  Implicit Types s : Socket_Stream D.

Definition integer_reader (w : nat) : st (Socket_Stream D) (Z * bool) :=
  let! r := readFull (store big w 0) (Z.of_nat w) in
  ret (be_int (memory r), read_ok r && (received r =? Z.of_nat w)).

Lemma readU_reader w s :
  width w ->
  readU big w s = (let! r := integer_reader w in if snd r then ret r else do! deSync in ret r) s.
Proof.
  intros Hw. pose proof (width_small w Hw).
  destruct (readFull_spec (store big w 0) (Z.of_nat w) s) as (f & s' & Hf & _ & Hm & _).
  { unfold zlen. rewrite length_store. lia. }
  unfold zlen in Hm. rewrite length_store in Hm. apply Nat2Z.inj in Hm.
  unfold readU, integer_reader.
  destruct Hw as [<-|[<-|[<-|[<-|[]]]]];
    unfold readU8, readU16, readU32, readU64, read_integer, bind, ret; simpl Z.of_nat in *; rewrite Hf; simpl.
  - replace (load big (memory f)) with (be_int (memory f)); [done|].
    destruct (memory f) as [|b [|b' l]]; try done. by destruct big.
  - by rewrite ntoh_load.
  - by rewrite ntoh_load.
  - by rewrite ntohll_load.
Qed.

(** The next [w] bytes of the stream as an integer. *)
Definition header (w : nat) (text : bytes) : Z := be_int (ztake (Z.of_nat w) text).

Lemma readU_spec w s :
  width w ->
  exists v ok s', readU big w s = (Ret (v, ok), s') /\
    (ok = true -> Z.of_nat w <= zlen (inbox (dev s)) /\ v = header w (inbox (dev s)) /\
       inbox (dev s') = zdrop (Z.of_nat w) (inbox (dev s)) /\ (healthy (dev s) -> healthy (dev s'))) /\
    (healthy (dev s) -> ok = false -> zlen (inbox (dev s)) < Z.of_nat w).
Proof.
  intros Hw. rewrite readU_reader by done. pose proof (width_small w Hw).
  assert (Hst : zlen (store big w 0) = Z.of_nat w) by (unfold zlen; by rewrite length_store).
  destruct (readFull_spec (store big w 0) (Z.of_nat w) s) as (f & s1 & Hf & _ & _ & Hok & Hh); [lia|].
  unfold integer_reader, bind, ret. rewrite Hf. simpl.
  destruct (read_ok f) eqn:Eok; simpl.
  - destruct (Hok eq_refl) as (Hr & Hl & Hm & Hi). rewrite Hr, Z.eqb_refl.
    eexists _, true, s1. split; [done|]. split; [|done]. intros _. split; [done|]. split; [|split; [done|]].
    + rewrite Hm. unfold filled. rewrite (zdrop_ge _ (store big w 0)), app_nil_r by lia. done.
    + intros Hhd. by apply Hh.
  - unfold deSync, shutdown, on_dev. eexists _, false, _. split; [done|]. split; [done|].
    intros Hhd _. by apply Hh.
Qed.

Lemma header_range w text : width w -> 0 <= header w text <= max_value w.
Proof.
  intros Hw. unfold header. pose proof (be_int_range (ztake (Z.of_nat w) text)) as Hr.
  pose proof (max_value_pow w). pose proof (width_small w Hw). rewrite zlen_ztake in Hr.
  pose proof (zlen_nonneg text).
  pose proof (Z.pow_le_mono_r 256 (Z.max 0 (Z.min (Z.of_nat w) (zlen text))) (Z.of_nat w) ltac:(lia) ltac:(lia)).
  lia.
Qed.

(** What a reader of a block can find in [text]. *)
Definition block_ready (w : nat) (limit : Z) (text : bytes) : Prop :=
  Z.of_nat w <= zlen text /\ header w text <= limit /\ Z.of_nat w + header w text <= zlen text.

Lemma plus_one_room w n : width w -> 0 <= n < max_value w -> plus_one w n = n + 1.
Proof.
  intros Hw Hn. unfold plus_one. case_cond; [done|]. unfold wrap. rewrite Z.mod_small; [done|].
  pose proof (max_value_pow w). lia.
Qed.

Lemma filled_block text n :
  0 <= n <= zlen text -> filled text (repeat (chr 0) (Z.to_nat (n + 1))) n = ztake n text ++ [chr 0].
Proof.
  intros Hn. unfold filled. f_equal. rewrite zdrop_drop, Z2Nat.inj_add, repeat_app by lia.
  rewrite drop_app_length'; [done|]. by rewrite repeat_length.
Qed.

Lemma readBlockWAllocEx_spec w limit s :
  width w -> (forall n, limit = Some n -> 0 <= n < max_value w) ->
  let text := inbox (dev s) in
  let bound := match limit with Some n => n | None => max_value w - 1 end in
  exists r s', readBlockWAllocEx big w limit s = (Ret r, s') /\
    match r with
    | (Some block, n) => block_ready w bound text /\ n = header w text /\
        block = slice (Z.of_nat w) n text ++ [chr 0] /\
        inbox (dev s') = zdrop (Z.of_nat w + n) text /\ (healthy (dev s) -> healthy (dev s'))
    | (None, n) => n = 0 /\ (healthy (dev s) -> ~ block_ready w bound text)
    end.
Proof.
  intros Hw Hlim text bound. pose proof (width_small w Hw). pose proof (width_max w Hw).
  assert (Hb : 0 <= bound < max_value w).
  { unfold bound. destruct limit as [n|]; [by apply Hlim|]. lia. }
  destruct (readU_spec w s Hw) as (v & ok & s1 & Hs1 & Hok & Hbad).
  pose proof (header_range w text Hw) as Hh. unfold readBlockWAllocEx. fold bound.
  unfold bind. rewrite Hs1. destruct ok.
  2:{ eexists (None, 0), s1. split; [done|]. split; [done|]. intros Hhd (Hl & _).
      specialize (Hbad Hhd eq_refl). fold text in Hbad. lia. }
  destruct (Hok eq_refl) as (Hl & -> & Hi & Hhd). fold text in Hl, Hi, Hok, Hbad |- *.
  case_cond; zbool.
  { unfold deSync, shutdown, on_dev, ret. eexists (None, 0), _. split; [done|]. split; [done|].
    intros _ (_ & Hle & _). lia. }
  rewrite plus_one_room by (done || lia).
  case_cond; zbool.
  - eexists (Some _, 0), s1. split; [done|]. rewrite E0 in *.
    split; [split; [done|split; [lia|lia]]|]. split; [done|]. split; [|by rewrite Z.add_0_r].
    unfold slice. by rewrite ztake_le0.
  - destruct (readFull_spec (repeat (chr 0) (Z.to_nat (header w text + 1))) (header w text) s1)
      as (f & s2 & Hf & _ & _ & Hgood & Hfail); [unfold zlen; rewrite repeat_length; lia|].
    rewrite Hf. rewrite Hi in *. destruct (read_ok f) eqn:Eok; cbn [andb negb].
    + destruct (Hgood eq_refl) as (-> & Hlen & Hm & Hi2). rewrite Z.eqb_refl. cbn [negb].
      rewrite zlen_zdrop in Hlen. eexists (Some _, _), s2. split; [done|].
      split; [split; [done|split; lia]|]. split; [done|]. split; [|split].
      * rewrite Hm. apply filled_block. rewrite zlen_zdrop. lia.
      * rewrite Hi2, zdrop_zdrop by lia. done.
      * intros Hhd'. by apply Hfail, Hhd.
    + unfold deSync, shutdown, on_dev, ret. eexists (None, 0), _. split; [done|]. split; [done|].
      intros Hhd' (_ & _ & Hlong). destruct (Hfail (Hhd Hhd')) as [_ Hx]. destruct (Hx eq_refl) as (Hsh & _).
      rewrite zlen_zdrop in Hsh. lia.
Qed.

(** ReadStringEx never reads out of the block it allocates when its limit
    is below the largest value of the header's type. It answers a string only
    when the stream has a header, within the limit, and as many bytes: then it
    is those bytes, and what follows them is left; on a socket without errors
    it fails only when one of the three is missing. *)
Theorem readStringEx_exact w limit s :
  width w -> 0 <= limit < max_value w ->
  exists text ok s', readStringEx big w limit s = (Ret (text, ok), s') /\
    (ok = true -> block_ready w limit (inbox (dev s)) /\
       text = slice (Z.of_nat w) (header w (inbox (dev s))) (inbox (dev s)) /\
       inbox (dev s') = zdrop (Z.of_nat w + header w (inbox (dev s))) (inbox (dev s))) /\
    (healthy (dev s) -> if ok then healthy (dev s') else ~ block_ready w limit (inbox (dev s)) /\ text = []).
Proof.
  intros Hw Hlim. pose proof (width_small w Hw).
  destruct (readBlockWAllocEx_spec w (Some limit) s Hw) as ([[block|] n] & s1 & Hs1 & Hr);
    [by intros ? [= <-]| |]; cbv zeta in Hr; unfold readStringEx, bind; rewrite Hs1.
  - destruct Hr as (Hready & Hn & Hblock & Hi & Hhd). case_cond; zbool.
    + exists [], true, s1. split; [done|]. rewrite <- Hn, E. split; [|done]. intros _. split; [done|].
      unfold slice. rewrite ztake_le0 by lia. split; [done|]. by rewrite Hi, E.
    + exists (ztake n block), true, s1. split; [done|]. split; [|done]. intros _. split; [done|].
      rewrite <- Hn. split; [|done]. pose proof (header_range w (inbox (dev s)) Hw).
      assert (Hz : zlen (slice (Z.of_nat w) n (inbox (dev s))) = n)
        by (destruct Hready as (? & ? & ?); apply zlen_slice; lia).
      rewrite Hblock, ztake_app_le, ztake_ge by lia. done.
  - destruct Hr as (_ & Hr). exists [], false, s1. split; [done|]. split; [done|]. intros Hhd. split; [by apply Hr|done].
Qed.

Lemma readStringEx_frame w limit text rest s :
  width w -> zlen text <= limit < max_value w -> healthy (dev s) ->
  inbox (dev s) = frame w text ++ rest ->
  exists s', readStringEx big w limit s = (Ret (text, true), s') /\ inbox (dev s') = rest /\
    healthy (dev s').
Proof.
  intros Hw Hl Hhd Hin. pose proof (zlen_nonneg text). pose proof (zlen_nonneg rest).
  pose proof (zlen_be_bytes w (zlen text)) as Hb. pose proof (max_value_pow w) as Hmax.
  assert (Hlim : forall n, Some limit = Some n -> 0 <= n < max_value w) by (intros ? [= <-]; lia).
  assert (Hhead : header w (inbox (dev s)) = zlen text).
  { unfold header. rewrite Hin. unfold frame. rewrite <- app_assoc, ztake_app_le, ztake_ge by lia.
    rewrite be_int_be_bytes, Z.mod_small by lia. done. }
  assert (Hlen : zlen (inbox (dev s)) = Z.of_nat w + zlen text + zlen rest).
  { rewrite Hin. unfold frame. rewrite !zlen_app, Hb. lia. }
  destruct (readBlockWAllocEx_spec w (Some limit) s Hw Hlim) as ([[block|] n] & s1 & Hs1 & Hr); cbv zeta in Hr.
  2:{ exfalso. destruct Hr as [_ Hr]. apply Hr; [done|]. unfold block_ready. rewrite Hhead, Hlen. lia. }
  destruct Hr as (_ & -> & Hblock & Hi & Hhd'). rewrite Hhead in *.
  exists s1. assert (Hslice : slice (Z.of_nat w) (zlen text) (inbox (dev s)) = text).
  { rewrite Hin. unfold slice, frame. rewrite <- app_assoc, zdrop_app_ge, Hb, Z.sub_diag, zdrop_le0 by lia.
    apply ztake_length_app. }
  split; [|split; [|by apply Hhd']].
  - unfold readStringEx, bind. rewrite Hs1. case_cond; zbool.
    + apply zlen_0_nil in E as ->. done.
    + rewrite Hblock, Hslice. unfold ret. by rewrite ztake_length_app.
  - rewrite Hi, Hin. unfold frame. rewrite zdrop_app_ge by (rewrite zlen_app; lia).
    rewrite zlen_app, Hb. apply zdrop_le0. lia.
Qed.

End Receive.

(** ** From one host to another *)

Section RoundTrip.
  Context {D1 : Type} `{Outgoing D1} {D2 : Type} `{Incoming D2}.
  Variables (big1 big2 : bool) (w : nat).

(** A conversation: strings written one after the other, and read back. *)
Fixpoint sendStrings (texts : list bytes) : st (Socket_Stream D1) bool :=
  match texts with
  | [] => ret true
  | t :: texts =>
      let! ok := writeStringEx big1 w t (max_value w - 1) in
      if ok then sendStrings texts else ret false
  end.

Fixpoint receiveStrings (n : nat) : st (Socket_Stream D2) (list bytes * bool) :=
  match n with
  | O => ret ([], true)
  | S n =>
      let! r := readStringEx big2 w (max_value w - 1) in
      let (t, ok) := (r : bytes * bool) in
      if ok then
        let! rest := receiveStrings n in
        ret (t :: fst rest, snd rest)
      else ret ([], false)
  end.

(** C28: strings sent one after the other by a host of any byte order over a
    socket that takes pieces come back, whatever pieces the receiver's socket
    gives and whatever its byte order, each whole and in order, and leave what
    follows them in the stream. *)
Theorem strings_roundtrip texts s1 :
  width w -> Forall (fun t => zlen t < max_value w /\ zlen t <= SSIZE_MAX) texts -> writable (dev s1) ->
  exists wire s1', sendStrings texts s1 = (Ret true, s1') /\
    outbox (dev s1') = outbox (dev s1) ++ wire /\
    forall s2 rest, healthy (dev s2) -> inbox (dev s2) = wire ++ rest ->
      exists s2', receiveStrings (length texts) s2 = (Ret (texts, true), s2') /\
        inbox (dev s2') = rest.
Proof.
  intros Hw Hall. revert s1. induction Hall as [|t texts [Ht Hl] _ IH]; intros s1 Hwr.
  - exists [], s1. split; [done|]. split; [by rewrite app_nil_r|]. intros s2 rest _ Hin. by exists s2.
  - destruct (writeStringEx_frame big1 w t (max_value w - 1) s1 Hw) as (s & Hs & Hwr' & Ho); [lia|lia|done|done|].
    destruct (IH s Hwr') as (wire & s1' & Hs1' & Ho' & Hback).
    exists (frame w t ++ wire), s1'. split; [|split].
    + cbn [sendStrings]. unfold bind. by rewrite Hs.
    + by rewrite Ho', Ho, app_assoc.
    + intros s2 rest Hhd Hin. rewrite <- app_assoc in Hin.
      destruct (readStringEx_frame big2 w (max_value w - 1) t (wire ++ rest) s2 Hw) as (s3 & Hs3 & Hi3 & Hhd3);
        [lia|done|done|].
      destruct (Hback s3 rest Hhd3 Hi3) as (s2' & Hs2' & Hi2'). exists s2'. split; [|done].
      cbn [receiveStrings length]. unfold bind. rewrite Hs3, Hs2'. done.
Qed.

End RoundTrip.

(** ** A limit that is too high *)

(** With the largest value of a 32 or 64 bit header as its limit, a peer
    that announces that size makes readBlockWAllocEx allocate an empty block,
    since the size plus one wraps, and read into it. *)
Theorem readBlockWAllocEx_overflow {D} `{Incoming D} big w (s : Socket_Stream D) :
  w = 4%nat \/ w = 8%nat -> healthy (dev s) -> Z.of_nat w <= zlen (inbox (dev s)) ->
  header w (inbox (dev s)) = max_value w ->
  fst (readBlockWAllocEx big w (Some (max_value w)) s) =
  Exc (undefined "write past the end of a buffer").
Proof.
  intros Hw Hhd Hl Hmax.
  assert (Hwd : width w) by (destruct Hw as [-> | ->]; unfold width; simpl; auto).
  destruct (readU_spec big w s Hwd) as (v & ok & s1 & Hs1 & Hok & Hbad).
  unfold readBlockWAllocEx, bind. rewrite Hs1. destruct ok; [|specialize (Hbad Hhd eq_refl); lia].
  destruct (Hok eq_refl) as (_ & -> & _ & _). rewrite Hmax.
  replace (max_value w >? max_value w) with false by lia.
  pose proof (width_max w Hwd).
  replace (max_value w =? 0) with false by lia.
  assert (Hp : plus_one w (max_value w) = 0)
    by (destruct Hw as [-> | ->]; vm_compute; reflexivity).
  rewrite Hp. unfold readFull. replace (max_value w =? 0) with false by lia.
  cbn [readFull_loop]. replace (0 <? max_value w) with true by lia.
  change (zlen (repeat (chr 0) (Z.to_nat 0))) with 0.
  replace (0 <? 0 + Z.min 4096 (max_value w - 0)) with true by lia. done.
Qed.

(** ** Witnesses *)

(** A connection that transfers three bytes at a time, or refuses every
    write. *)
Record Wire := mkWire { w_in : bytes; w_out : bytes; w_open : bool }.

#[export] Instance Wire_socket : StreamSocket Wire := {
  partialRead area d :=
    let r := Z.min 3 (Z.min (zlen area) (zlen (w_in d))) in
    (r, ztake r (w_in d) ++ zdrop r area, mkWire (zdrop r (w_in d)) (w_out d) (w_open d));
  partialWrite buf d :=
    if w_open d then
      let r := Z.min 3 (zlen buf) in (r, mkWire (w_in d) (w_out d ++ ztake r buf) true)
    else (-1, d);
  shutdownSocket d := mkWire (w_in d) (w_out d) false
}.

#[export] Program Instance Wire_incoming : Incoming Wire := { inbox := w_in; healthy _ := True }.
Next Obligation.
  intros area d Hne. pose proof (zlen_pos area Hne). pose proof (zlen_nonneg (w_in d)). simpl.
  split; [rewrite zlen_app, zlen_ztake, zlen_zdrop; lia|]. split; [lia|]. split; [lia|done].
Qed.
Next Obligation.
  intros area d Hne _. pose proof (zlen_pos area Hne). pose proof (zlen_nonneg (w_in d)). simpl.
  split; [lia|]. split; [done|]. intros. apply zlen_0_nil. lia.
Qed.

#[export] Program Instance Wire_outgoing : Outgoing Wire :=
  { outbox := w_out; writable d := w_open d = true }.
Next Obligation.
  intros buf d Hne. pose proof (zlen_pos buf Hne). simpl. destruct (w_open d).
  - split; [lia|done].
  - split; [lia|]. by rewrite ztake_le0, app_nil_r by lia.
Qed.
Next Obligation.
  intros buf d Hne Hw. pose proof (zlen_pos buf Hne). simpl. rewrite Hw. split; [lia|done].
Qed.
Next Obligation. done. Qed.

Definition wire (incoming : bytes) (isOpen : bool) : Socket_Stream Wire :=
  mkSocket (mkWire incoming [] isOpen) WriteStatus_new.

(** The first failed write answers false, the second one throws. *)
Lemma second_failed_write_throws :
  let (r1, s1) := writeFull (str "hello") (wire [] false) in
  r1 = Ret false /\
  fst (writeFull (str "hello") s1) =
    Exc (runtime_error "Trying to write into an already finished write object.").
Proof. vm_compute. split; reflexivity. Qed.

Lemma writeFull_exact_witness :
  exists s, writeFull (str "hello, world") (wire [] true) = (Ret true, s) /\
    outbox (dev s) = str "hello, world".
Proof.
  pose proof (writeFull_exact (str "hello, world") (wire [] true) ltac:(vm_compute; discriminate)) as Hw.
  destruct (writeFull (str "hello, world") (wire [] true)) as [[[|]|e] s].
  - exists s. split; [reflexivity|]. apply Hw.
  - exfalso. by apply (proj1 Hw).
  - exfalso. by apply (proj1 Hw).
Defined.

Lemma readFull_exact_witness :
  exists f s, readFull (str "........") 5 (wire (str "hello, world") true) = (Ret f, s) /\
    read_ok f = true /\ memory f = str "hello..." /\ inbox (dev s) = str ", world".
Proof.
  destruct (readFull_exact (str "........") 5 (wire (str "hello, world") true)) as (f & s & Hr & Hok & Hbad);
    [vm_compute; split; discriminate|].
  exists f, s. split; [exact Hr|].
  destruct (read_ok f) eqn:E.
  - destruct (Hok eq_refl) as (_ & _ & Hm & Hi). split; [reflexivity|]. split; [exact Hm|exact Hi].
  - exfalso. destruct (Hbad I eq_refl) as (Hlt & _). vm_compute in Hlt. discriminate Hlt.
Defined.

Lemma writeU_network_order_witness :
  exists s, writeU false 4 305419896 (wire [] true) = (Ret true, s) /\
    outbox (dev s) = [chr 18; chr 52; chr 86; chr 120].
Proof.
  destruct (writeU_network_order false 4 305419896 (wire [] true)) as (s & Hs & Ho & _);
    [vm_compute; auto|vm_compute; split; discriminate|reflexivity|].
  exists s. split; [exact Hs|]. rewrite Ho. vm_compute. reflexivity.
Defined.

(** A string of 300 bytes under a limit of 1000 and a one-byte header: 44 bytes
    are sent, and the answer is true. *)
Lemma writeStringEx_exact_witness :
  exists s, writeStringEx false 1 (repeat "x"%char 300) 1000 (wire [] true) = (Ret true, s) /\
    outbox (dev s) = chr 44 :: repeat "x"%char 44.
Proof.
  pose proof (writeStringEx_exact false 1 (repeat "x"%char 300) 1000 (wire [] true)
    ltac:(vm_compute; auto) ltac:(vm_compute; discriminate) ltac:(reflexivity)) as Hw.
  replace (zlen (repeat "x"%char 300) >? 1000) with false in Hw by (vm_compute; reflexivity).
  destruct Hw as (s & Hs & _ & _ & Ho). exists s. split; [exact Hs|].
  rewrite Ho by (vm_compute; reflexivity). vm_compute. reflexivity.
Defined.

Lemma readStringEx_exact_witness :
  exists s, readStringEx true 1 10 (wire (chr 5 :: str "hello, world") true) = (Ret (str "hello", true), s) /\
    inbox (dev s) = str ", world".
Proof.
  destruct (readStringEx_exact true 1 10 (wire (chr 5 :: str "hello, world") true))
    as (text & ok & s & Hs & Hok & Hh); [vm_compute; auto|vm_compute; split; [discriminate|reflexivity]|].
  specialize (Hh I). destruct ok.
  - destruct (Hok eq_refl) as (_ & -> & Hi). exists s. split; [exact Hs|exact Hi].
  - exfalso. apply (proj1 Hh). vm_compute. repeat split; discriminate.
Defined.

Lemma readBlockWAllocEx_overflow_witness :
  fst (readBlockWAllocEx false 4 (Some (max_value 4)) (wire (repeat (chr 255) 5) true)) =
  Exc (undefined "write past the end of a buffer").
Proof.
  apply (readBlockWAllocEx_overflow false 4 (wire (repeat (chr 255) 5) true));
    [by left|exact I|vm_compute; discriminate|vm_compute; reflexivity].
Defined.

Lemma strings_roundtrip_witness :
  exists text s1, sendStrings false 2 [str "hello"; []; str "world"] (wire [] true) = (Ret true, s1) /\
    outbox (dev s1) = text /\
    exists s2, receiveStrings true 2 3 (wire (text ++ str "!") true)
                 = (Ret ([str "hello"; []; str "world"], true), s2) /\ inbox (dev s2) = str "!".
Proof.
  destruct (strings_roundtrip (D2 := Wire) false true 2 [str "hello"; []; str "world"] (wire [] true))
    as (text & s1 & Hs1 & Ho & Hback); [vm_compute; auto| |reflexivity|].
  - repeat constructor; vm_compute; discriminate.
  - exists text, s1. split; [exact Hs1|]. split; [exact Ho|].
    exact (Hback (wire (text ++ str "!") true) (str "!") I eq_refl).
Defined.
