(* ===== verification/SocketDelim.v ===== *)
(** * Blocks that end with a delimiter

    readBlock32WAllocAndDelim of socket_stream_reader.cpp reads blocks of 64 KiB
    one byte at a time and looks for the delimiter after each: the answer is
    the shortest prefix of the stream that ends with it. *)

From S2P Require Import Prelude SafeInt ByteOrder StreamableObject SocketStream.

(** [l] ends with [delim]. *)
Definition ends_with (delim l : bytes) : Prop :=
  zlen delim <= zlen l /\ zdrop (zlen l - zlen delim) l = delim.

Section Delim.
  Context {D : Type} `{Incoming D}.
  Variable big : bool.
  Implicit Types s : Socket_Stream D.

Lemma readU8_spec s :
  exists v ok s', readU8 big s = (Ret (v, ok), s') /\
    (ok = true -> exists rest, inbox (dev s) = chr v :: rest /\ inbox (dev s') = rest /\
       (healthy (dev s) -> healthy (dev s'))) /\
    (healthy (dev s) -> ok = false -> inbox (dev s) = []).
Proof.
  assert (Hst : zlen (store big 1 0) = 1) by (unfold zlen; by rewrite length_store).
  destruct (readFull_spec (store big 1 0) 1 s) as (f & s1 & Hf & _ & Hlm & Hok & Hh); [lia|].
  unfold readU8, read_integer, bind, ret. change (Z.of_nat 1) with 1. rewrite Hf.
  destruct (read_ok f) eqn:Eok; simpl.
  - destruct (Hok eq_refl) as (Hr & Hl & Hm & Hi). rewrite Hr. eexists _, true, s1. split; [done|].
    split; [|done]. intros _. destruct (inbox (dev s)) as [|c rest] eqn:Ein;
      [change (zlen (@nil ascii)) with 0 in Hl; lia|].
    exists rest. split; [|split].
    + f_equal. rewrite Hm. unfold filled. rewrite zdrop_ge, app_nil_r by lia.
      change 1 with (0 + 1). rewrite ztake_succ, ztake_le0 by lia.
      unfold load. destruct big; unfold be_int; simpl; by rewrite Z.add_0_r, chr_uchar.
    + rewrite Hi. change 1 with (0 + 1). by rewrite zdrop_succ, zdrop_le0 by lia.
    + intros Hhd. by apply Hh.
  - eexists _, false, s1. split; [done|]. split; [done|]. intros Hhd _.
    destruct (Hh Hhd) as [_ Hx]. destruct (Hx eq_refl) as (Hlt & _).
    apply zlen_0_nil. pose proof (zlen_nonneg (inbox (dev s))). lia.
Qed.

(** No prefix of [text] of at most [m] bytes ends with [delim]. *)
Definition absent (delim text : bytes) (m : Z) : Prop :=
  forall k, 0 <= k <= m -> k <= zlen text -> ~ ends_with delim (ztake k text).

Lemma ends_with_test delim all :
  zlen delim <= zlen all -> (memcmp (zdrop (zlen all - zlen delim) all) delim =? 0) = true <->
  ends_with delim all.
Proof.
  intros Hl. pose proof (zlen_nonneg delim). rewrite Z.eqb_eq, memcmp_0.
  - unfold ends_with. tauto.
  - apply Nat2Z.inj. fold (zlen delim). change (Z.of_nat (length ?l)) with (zlen l). rewrite zlen_zdrop. lia.
Qed.

Lemma read64_spec text delim before blockNo :
  0 < zlen delim <= 65535 ->
  (blockNo = 0 /\ before = []) \/ (0 < blockNo /\ 65536 <= zlen before) ->
  forall n block s, healthy (dev s) ->
  before ++ block = ztake (zlen (before ++ block)) text -> zlen (before ++ block) <= zlen text ->
  inbox (dev s) = zdrop (zlen (before ++ block)) text ->
  absent delim text (zlen (before ++ block)) ->
  exists block' r s', read64KBlockDelim_loop big n before block delim blockNo s = (Ret (block', r), s') /\
    ((r = -2 /\ absent delim text (zlen text)) \/
     (before ++ block' = ztake (zlen (before ++ block')) text /\ zlen (before ++ block') <= zlen text /\
      inbox (dev s') = zdrop (zlen (before ++ block')) text /\ healthy (dev s') /\
      ((r = -1 /\ zlen block' = zlen block + Z.of_nat n /\ absent delim text (zlen (before ++ block'))) \/
       (r = zlen block' /\ 0 < r <= zlen block + Z.of_nat n /\ ends_with delim (before ++ block') /\
        absent delim text (zlen (before ++ block') - 1))))).
Proof.
  intros Hd Hb. induction n as [|n IH]; intros block s Hhd Hpre Hlt Hin Habs.
  - exists block, (-1), s. split; [done|]. right. split; [done|]. split; [done|]. split; [done|].
    split; [done|]. left. split; [done|]. split; [lia|done].
  - cbn [read64KBlockDelim_loop]. unfold bind.
    destruct (readU8_spec s) as (v & ok & s1 & Hs1 & Hok & Hbad). rewrite Hs1.
    destruct ok; cbn [negb].
    2:{ eexists _, (-2), s1. split; [done|]. left. split; [done|].
        specialize (Hbad Hhd eq_refl). rewrite Hin in Hbad.
        assert (Hz : zlen (zdrop (zlen (before ++ block)) text) = 0) by (by rewrite Hbad).
        rewrite zlen_zdrop in Hz. pose proof (zlen_nonneg (before ++ block)).
        by replace (zlen text) with (zlen (before ++ block)) by lia. }
    destruct (Hok eq_refl) as (rest & Hc & Hi & Hhd1). specialize (Hhd1 Hhd). rewrite Hin in Hc.
    set (m := zlen (before ++ block)) in *. pose proof (zlen_nonneg (before ++ block)). fold m in H1.
    assert (Hm1 : zlen (before ++ block ++ [chr v]) = m + 1).
    { rewrite app_assoc, zlen_app. fold m. done. }
    assert (Hlen : m + 1 <= zlen text).
    { assert (Hz : zlen (zdrop m text) = 1 + zlen rest) by (by rewrite Hc, zlen_cons).
      rewrite zlen_zdrop in Hz. pose proof (zlen_nonneg rest). lia. }
    assert (Hpre1 : before ++ block ++ [chr v] = ztake (m + 1) text).
    { rewrite app_assoc, Hpre, <- (slice_0 (m + 1)), slice_app_split, slice_0 by lia. f_equal.
      unfold slice. rewrite Z.add_0_l, Hc. change 1 with (0 + 1).
      by rewrite ztake_succ, ztake_le0 by lia. }
    assert (Hi1 : inbox (dev s1) = zdrop (m + 1) text).
    { rewrite Hi, <- zdrop_zdrop, Hc by lia. change 1 with (0 + 1). by rewrite zdrop_succ, zdrop_le0 by lia. }
    assert (Hbl : zlen (before ++ block ++ [chr v]) = zlen before + zlen (block ++ [chr v])) by apply zlen_app.
    pose proof (zlen_nonneg before). pose proof (zlen_nonneg (block ++ [chr v])).
    set (test := (_ || _) && _).
    assert (Htest : test = true <-> ends_with delim (before ++ block ++ [chr v])).
    { unfold test. rewrite andb_true_iff. split.
      - intros [Hg Ht]. apply ends_with_test; [|done]. apply orb_true_iff in Hg as [Hg|Hg]; zbool; [lia|].
        destruct Hb as [[-> _]|[_ ?]]; lia.
      - intros He. pose proof He as [Hle _]. split; [|by apply ends_with_test].
        apply orb_true_iff. destruct Hb as [[-> ->]|[? _]]; [left|right; lia].
        simpl in *. change (zlen (@nil ascii)) with 0 in *. lia. }
    destruct test eqn:Etest.
    + exists (block ++ [chr v]), (zlen (block ++ [chr v])), s1. split; [done|]. right.
      rewrite Hm1. split; [done|]. split; [done|]. split; [done|]. split; [done|]. right.
      split; [done|]. split; [rewrite zlen_app; change (zlen [chr v]) with 1; pose proof (zlen_nonneg block); lia|].
      split; [by apply Htest|]. by replace (m + 1 - 1) with m by lia.
    + destruct (IH (block ++ [chr v]) s1 Hhd1) as (block' & r & s' & Hrun & Hout); rewrite ?Hm1; try done.
      * intros k Hk Hkl. destruct (Z.eq_dec k (m + 1)) as [->|]; [|apply Habs; lia].
        rewrite <- Hpre1, <- Htest. done.
      * exists block', r, s'. split; [exact Hrun|]. destruct Hout as [?|(? & ? & ? & ? & Hcase)]; [by left|].
        right. split; [done|]. split; [done|]. split; [done|]. split; [done|].
        assert (Hbv : zlen (block ++ [chr v]) = zlen block + 1) by (by rewrite zlen_app).
        rewrite Hbv in Hcase.
        destruct Hcase as [(? & Hz & ?)|(? & Hz & ? & ?)]; [left|right]; split_and!; try done; lia.
Qed.

(** The answer for a stream [text] and at most [datalen] bytes of memory. *)
Definition delimited (delim text : bytes) (datalen : Z) (r : option bytes * Z) s' : Prop :=
  match r with
  | (Some block, n) => n = zlen block /\ n <= datalen /\ n <= zlen text /\ block = ztake n text /\
      ends_with delim block /\ absent delim text (n - 1) /\
      inbox (dev s') = zdrop n text /\ healthy (dev s')
  | (None, n) => n = datalen /\
      (absent delim text (zlen text) \/ absent delim text (datalen - datalen mod 65536))
  end.

Lemma readBlock32_spec text delim datalen fuel : forall before blockNo s,
  0 < zlen delim <= 65535 -> datalen < 2 ^ 32 - 65536 ->
  0 <= blockNo -> zlen before = 65536 * blockNo -> zlen before + 65536 <= datalen ->
  datalen / 65536 - blockNo < Z.of_nat fuel ->
  healthy (dev s) -> before = ztake (zlen before) text -> zlen before <= zlen text ->
  inbox (dev s) = zdrop (zlen before) text -> absent delim text (zlen before) ->
  exists r s', readBlock32_loop big fuel datalen before delim blockNo s = (Ret r, s') /\
    delimited delim text datalen r s'.
Proof.
  induction fuel as [|fuel IH]; intros before blockNo s Hd Hmax Hb0 Hb Hroom Hfuel Hhd Hpre Hlt Hin Habs.
  { pose proof (Z.div_le_lower_bound datalen 65536 (blockNo + 1) ltac:(lia) ltac:(lia)). lia. }
  cbn [readBlock32_loop]. unfold bind.
  destruct (read64_spec text delim before blockNo Hd) with (n := Z.to_nat 65536) (block := @nil ascii) (s := s)
    as (block & r & s1 & Hrun & Hout); rewrite ?app_nil_r; try done.
  { destruct (Z.eq_dec blockNo 0) as [->|]; [left|right; lia]. split; [done|]. apply zlen_0_nil. lia. }
  unfold read64KBlockDelim. rewrite Hrun. pose proof (zlen_nonneg block). pose proof (zlen_nonneg before).
  destruct Hout as [[-> Hno]|(Hp & Hl & Hi & Hhd1 & [(-> & Hz & Hno)|(-> & Hpos & He & Hno)])].
  - eexists (None, _), s1. split; [done|]. split; [done|]. by left.
  - change (zlen (@nil ascii)) with 0 in Hz. rewrite Z2Nat.id in Hz by lia.
    change (-1 =? -2) with false. change (-1 =? -1) with true. cbn [negb].
    unfold u32 at 1. rewrite Z.mod_small by lia. case_cond; zbool.
    + eexists (None, _), s1. split; [done|]. split; [done|]. right.
      replace (datalen - datalen mod 65536) with (zlen (before ++ block)); [done|].
      rewrite zlen_app. divlia.
    + assert (Hbd : 0 <= blockNo < 65536) by lia.
      assert (Hu : u32 (blockNo + 1) = blockNo + 1) by (unfold u32; rewrite Z.mod_small; lia). rewrite Hu.
      apply IH; try done; rewrite ?zlen_app; try lia; rewrite <- ?zlen_app; done.
  - replace (zlen block =? -2) with false by lia. replace (zlen block =? -1) with false by lia.
    change (zlen (@nil ascii)) with 0 in Hpos. rewrite Z2Nat.id in Hpos by lia.
    eexists (Some _, _), s1. split; [done|]. rewrite <- zlen_app. unfold delimited.
    split; [done|]. split; [rewrite zlen_app; lia|]. done.
Qed.

(** For a delimiter and a limit of reasonable sizes,
    readBlock32WAllocAndDelim answers exactly the shortest prefix of the stream
    that ends with the delimiter, however the socket cuts the stream and
    wherever the delimiter lies across the blocks of 64 KiB, and leaves what
    follows; it answers null only when no prefix that fits ends with it. *)
Theorem readBlock32_exact delim datalen s :
  0 < zlen delim <= 65535 -> 65536 <= datalen < 2 ^ 32 - 65536 -> healthy (dev s) ->
  exists r s', readBlock32WAllocAndDelim big datalen delim s = (Ret r, s') /\
    delimited delim (inbox (dev s)) datalen r s'.
Proof.
  intros Hd Hlim Hhd. unfold readBlock32WAllocAndDelim.
  replace (datalen <=? 65535) with false by lia.
  pose proof (zlen_nonneg (inbox (dev s))).
  assert (Hq : 0 <= datalen / 65536) by (apply Z.div_pos; lia).
  apply readBlock32_spec; change (zlen (@nil ascii)) with 0; try done; try lia.
  - by rewrite ztake_le0 by lia.
  - by rewrite zdrop_le0 by lia.
  - intros k Hk _ [Hle _]. rewrite zlen_ztake in Hle. lia.
Qed.

End Delim.

Lemma readBlock32_exact_witness :
  exists s, readBlock32WAllocAndDelim false 65536 (str "--") (wire (str "one-two--three") true)
      = (Ret (Some (str "one-two--"), 9), s) /\ inbox (dev s) = str "three" /\
    absent (str "--") (str "one-two--three") 8.
Proof.
  destruct (readBlock32_exact false (str "--") 65536 (wire (str "one-two--three") true))
    as (r & s & Hr & Hd); [vm_compute; split; [reflexivity|discriminate]|lia|exact I|].
  assert (E : fst (readBlock32WAllocAndDelim false 65536 (str "--") (wire (str "one-two--three") true))
    = Ret (Some (str "one-two--"), 9)) by (vm_compute; reflexivity).
  rewrite Hr in E. cbn [fst] in E. injection E as ->. destruct Hd as (_ & _ & _ & _ & _ & Habs & Hi & _).
  exists s. split; [exact Hr|]. split; [exact Hi|exact Habs].
Defined.
