(* ===== verification/BufferedReader.v ===== *)
(** * Reading lines from a socket: Net_Sockets/streams_bufferedreader.cpp

    The reader keeps what it received and did not deliver in a buffer, and
    delivers it up to a delimiter, which it replaces by a null character. The
    constructor leaves [m_maxBufferSize] uninitialised: its value is an
    argument, and the theorems say what happens when it is the size of the
    buffer. *)

From S2P Require Import Prelude SafeInt ByteOrder StreamableObject SocketStream.

Inductive eStreamBufferReadErrors :=
| E_STREAMBUFFER_READ_OK
| E_STREAMBUFFER_READ_FULL
| E_STREAMBUFFER_READ_NOTFOUND
| E_STREAMBUFFER_READ_DISCONNECTED
| E_STREAMBUFFER_READ_MAXSIZEEXCEED.

Section Reader.
  Context {D : Type} `{StreamSocket D}.

(** [m_buffer] is the whole allocated area. *)
Record BufferedReader := mkReader {
  m_stream : D;
  m_buffer : bytes;
  m_maxBufferSize : Z;
  m_currentBufferSize : Z
}.

(** The constructor: [area] is what malloc(bufferSize) returned, and
    [uninitialised] what the member that is not set contains. *)
Definition BufferedReader_new (stream : D) (area : bytes) (uninitialised : Z) : BufferedReader :=
  mkReader stream area uninitialised 0.

(** displaceAndCopy: [limit] is *len for the variant that copies to memory. The
    bytes copied, null terminated. *)
Definition displaceAndCopy (limit : option Z) (dlen : Z)
  : st BufferedReader (eStreamBufferReadErrors * bytes) := fun b =>
  if match limit with Some len => dlen >? len | None => false end then
    (Ret (E_STREAMBUFFER_READ_MAXSIZEEXCEED, []), b)
  else
    let buffer := patch (m_buffer b) (dlen - 1) [chr 0] in
    let data := ztake dlen buffer in
    let current := u64 (m_currentBufferSize b - dlen) in
    let buffer := if current =? 0 then buffer else patch buffer 0 (slice dlen current buffer) in
    (Ret (E_STREAMBUFFER_READ_OK, data), mkReader (m_stream b) buffer (m_maxBufferSize b) current).

Fixpoint bufferedReadUntil (fuel : nat) (limit : option Z) (delimiter : ascii)
  : st BufferedReader (eStreamBufferReadErrors * bytes) := fun b =>
  match fuel with
  | 0%nat => (Exc diverges, b)
  | S fuel =>
      if zlen (m_buffer b) <? m_currentBufferSize b then
        (Exc (undefined "search past the end of the buffer"), b)
      else
        match memchr delimiter (ztake (m_currentBufferSize b) (m_buffer b)) with
        | Some needle => displaceAndCopy limit (needle + 1) b
        | None =>
            if m_maxBufferSize b =? m_currentBufferSize b then
              (Ret (E_STREAMBUFFER_READ_FULL, []), b)
            else
              let room := u64 (m_maxBufferSize b - m_currentBufferSize b) in
              if zlen (m_buffer b) <? m_currentBufferSize b + room then
                (Exc (undefined "read past the end of the buffer"), b)
              else
                let '(readSize, area, d) :=
                  partialRead (slice (m_currentBufferSize b) room (m_buffer b)) (m_stream b) in
                let b := mkReader d (patch (m_buffer b) (m_currentBufferSize b) area)
                           (m_maxBufferSize b) (m_currentBufferSize b) in
                if readSize <? 0 then (Ret (E_STREAMBUFFER_READ_DISCONNECTED, []), b)
                else
                  bufferedReadUntil fuel limit delimiter
                    (mkReader d (m_buffer b) (m_maxBufferSize b)
                       (u64 (m_currentBufferSize b + readSize)))
        end
  end.

Definition readLineCR (fuel : nat) := bufferedReadUntil fuel None CR.
Definition readLineLF (fuel : nat) := bufferedReadUntil fuel None LF.
Definition getBufferSize (b : BufferedReader) : Z := m_maxBufferSize b.

End Reader.

Arguments BufferedReader D : clear implicits.

Section Spec.
  Context {D : Type} `{Incoming D}.
  Implicit Types b : BufferedReader D.

(** A reader whose size was set to the size of its buffer. *)
Definition reader_ok b : Prop :=
  0 <= m_currentBufferSize b <= zlen (m_buffer b) /\ m_maxBufferSize b = zlen (m_buffer b) /\
  zlen (m_buffer b) <= SSIZE_MAX.

(** What it has still to deliver. *)
Definition pending b : bytes := ztake (m_currentBufferSize b) (m_buffer b) ++ inbox (m_stream b).

Lemma displaceAndCopy_spec b n :
  reader_ok b -> 0 < n <= m_currentBufferSize b ->
  exists b', displaceAndCopy None n b =
      (Ret (E_STREAMBUFFER_READ_OK, ztake (n - 1) (m_buffer b) ++ [chr 0]), b') /\
    reader_ok b' /\ m_stream b' = m_stream b /\ zlen (m_buffer b') = zlen (m_buffer b) /\
    ztake (m_currentBufferSize b') (m_buffer b') = zdrop n (ztake (m_currentBufferSize b) (m_buffer b)).
Proof.
  intros (Hc & Hm & Hmax) Hn. unfold displaceAndCopy.
  rewrite u64_small by (unfold is_size, SIZE_MAX, SSIZE_MAX in *; lia).
  assert (Hlp : zlen (patch (m_buffer b) (n - 1) [chr 0]) = zlen (m_buffer b))
    by (apply zlen_patch; [lia|change (zlen [chr 0]) with 1; lia]).
  assert (Htk : ztake n (patch (m_buffer b) (n - 1) [chr 0]) = ztake (n - 1) (m_buffer b) ++ [chr 0]).
  { unfold patch. rewrite ztake_app_ge, zlen_ztake by (rewrite zlen_ztake; lia).
    rewrite ztake_app_le, (ztake_ge _ [chr 0]) by (change (zlen [chr 0]) with 1; lia). done. }
  assert (Hdr : zdrop n (patch (m_buffer b) (n - 1) [chr 0]) = zdrop n (m_buffer b)).
  { unfold patch. rewrite app_assoc.
    assert (Hz : zlen (ztake (n - 1) (m_buffer b) ++ [chr 0]) = n)
      by (rewrite zlen_app, zlen_ztake; change (zlen [chr 0]) with 1; lia).
    rewrite zdrop_app_ge, Hz, zdrop_le0 by lia. f_equal. change (zlen [chr 0]) with 1. lia. }
  eexists. split; [by rewrite Htk|]. unfold reader_ok. simpl.
  case_cond; zbool.
  - rewrite Hlp. split; [lia|]. split; [done|]. split; [done|].
    rewrite E, ztake_le0, zdrop_ge by (rewrite ?zlen_ztake; lia). done.
  - assert (Hz : zlen (slice n (m_currentBufferSize b - n) (patch (m_buffer b) (n - 1) [chr 0]))
                 = m_currentBufferSize b - n) by (apply zlen_slice; rewrite ?Hlp; lia).
    rewrite zlen_patch by (rewrite ?Hlp, ?Hz; lia). rewrite Hlp. split; [lia|]. split; [done|]. split; [done|].
    unfold patch at 1. rewrite (ztake_le0 0), app_nil_l by lia.
    rewrite ztake_app_le, ztake_ge by (rewrite Hz; lia).
    unfold slice. rewrite Hdr, zdrop_ztake by lia. done.
Qed.

Lemma memchr_app c (l1 l2 : bytes) :
  memchr c (l1 ++ l2) = match memchr c l1 with
                        | Some p => Some p
                        | None => option_map (Z.add (zlen l1)) (memchr c l2)
                        end.
Proof.
  induction l1 as [|x l1 IH]; simpl.
  - change (zlen (@nil ascii)) with 0. by destruct (memchr c l2).
  - case_decide; [done|]. rewrite IH. destruct (memchr c l1); [done|].
    destruct (memchr c l2) as [p|]; [|done]. simpl. f_equal. rewrite zlen_cons. lia.
Qed.

(** One round that reads [r] bytes. *)
Lemma refill b r area :
  reader_ok b -> 0 <= r <= zlen (m_buffer b) - m_currentBufferSize b -> r <= zlen (inbox (m_stream b)) ->
  area = ztake r (inbox (m_stream b)) ++
         zdrop r (slice (m_currentBufferSize b) (zlen (m_buffer b) - m_currentBufferSize b) (m_buffer b)) ->
  zlen (patch (m_buffer b) (m_currentBufferSize b) area) = zlen (m_buffer b) /\
  ztake (m_currentBufferSize b + r) (patch (m_buffer b) (m_currentBufferSize b) area) =
    ztake (m_currentBufferSize b) (m_buffer b) ++ ztake r (inbox (m_stream b)).
Proof.
  intros (Hc & Hm & Hmax) Hr Hi ->. set (cur := m_currentBufferSize b) in *.
  assert (Hz : zlen (slice cur (zlen (m_buffer b) - cur) (m_buffer b)) = zlen (m_buffer b) - cur)
    by (apply zlen_slice; lia).
  assert (Hi0 : zlen (ztake r (inbox (m_stream b))) = r) by (rewrite zlen_ztake; lia).
  split.
  - apply zlen_patch; [lia|]. rewrite zlen_app, Hi0, zlen_zdrop, Hz. lia.
  - unfold patch. rewrite ztake_app_ge by (rewrite zlen_ztake; lia). f_equal.
    rewrite zlen_ztake. replace (cur + r - _) with r by lia.
    rewrite <- app_assoc, ztake_app_le, (ztake_ge r (ztake r _)) by lia. done.
Qed.

(** The outcome of a read with enough rounds. *)
Definition read_line_outcome (delim : ascii) (text : bytes) b
    (r : res (eStreamBufferReadErrors * bytes)) b' : Prop :=
  reader_ok b' /\ zlen (m_buffer b') = zlen (m_buffer b) /\ healthy (m_stream b') /\
  match memchr delim text with
  | Some p =>
      if p <? zlen (m_buffer b)
      then r = Ret (E_STREAMBUFFER_READ_OK, ztake p text ++ [chr 0]) /\ pending b' = zdrop (p + 1) text
      else r = Ret (E_STREAMBUFFER_READ_FULL, []) /\ pending b' = text
  | None => r = Ret (E_STREAMBUFFER_READ_FULL, []) /\ pending b' = text
  end.

Lemma bufferedReadUntil_spec delim text fuel : forall b,
  reader_ok b -> healthy (m_stream b) -> pending b = text ->
  (memchr delim text = None -> zlen (m_buffer b) <= zlen text) ->
  zlen (m_buffer b) - m_currentBufferSize b < Z.of_nat fuel ->
  exists r b', bufferedReadUntil fuel None delim b = (r, b') /\ read_line_outcome delim text b r b'.
Proof.
  induction fuel as [|fuel IH]; intros b Hok Hhd Hp Hlong Hfuel; pose proof Hok as (Hc & Hm & Hmax); [lia|].
  cbn [bufferedReadUntil]. replace (zlen (m_buffer b) <? m_currentBufferSize b) with false by lia.
  assert (Hpre : zlen (ztake (m_currentBufferSize b) (m_buffer b)) = m_currentBufferSize b)
    by (rewrite zlen_ztake; lia).
  pose proof (memchr_first delim (ztake (m_currentBufferSize b) (m_buffer b))) as Hfirst.
  pose proof (memchr_app delim (ztake (m_currentBufferSize b) (m_buffer b)) (inbox (m_stream b))) as Happ.
  fold (pending b) in Happ. rewrite Hp in Happ.
  destruct (memchr delim (ztake (m_currentBufferSize b) (m_buffer b))) as [p|] eqn:Eneedle.
  - destruct Hfirst as (Hpr & _). rewrite Hpre in Hpr.
    destruct (displaceAndCopy_spec b (p + 1) Hok ltac:(lia)) as (b' & Hd & Hok' & Hs & Hb & Ht).
    eexists _, b'. split; [exact Hd|]. split; [done|]. split; [done|]. split; [by rewrite Hs|].
    rewrite Happ. replace (p <? zlen (m_buffer b)) with true by lia.
    replace (p + 1 - 1) with p by lia. rewrite <- Hp. unfold pending. split.
    + by rewrite ztake_app_le, ztake_ztake, Z.min_l by lia.
    + by rewrite Ht, Hs, zdrop_app_le by lia.
  - rewrite Hm. case_cond; zbool.
    + exists (Ret (E_STREAMBUFFER_READ_FULL, [])), b. split; [done|]. split; [done|]. split; [done|].
      split; [done|]. rewrite Happ. destruct (memchr delim (inbox (m_stream b))) as [q|] eqn:Eq; simpl; [|done].
      pose proof (memchr_first delim (inbox (m_stream b))) as Hq. rewrite Eq in Hq.
      rewrite Hpre. by replace (m_currentBufferSize b + q <? zlen (m_buffer b)) with false by lia.
    + rewrite u64_small by (unfold is_size, SIZE_MAX, SSIZE_MAX in *; lia).
      replace (zlen (m_buffer b) <? _) with false by lia.
      set (room := zlen (m_buffer b) - m_currentBufferSize b) in *.
      set (hole := slice (m_currentBufferSize b) room (m_buffer b)).
      assert (Hlh : zlen hole = room) by (apply zlen_slice; lia).
      assert (Hne : hole <> []) by (intros Hn; rewrite Hn in Hlh; change (zlen (@nil ascii)) with 0 in Hlh; lia).
      pose proof (read_piece hole (m_stream b) Hne) as Hrp.
      pose proof (read_healthy hole (m_stream b) Hne Hhd) as Hrh.
      destruct (partialRead hole (m_stream b)) as [[r area] d].
      destruct Hrp as (Hla & Hr1 & Hr2 & Hr3). destruct Hrh as (Hr0 & Hhd' & Heof).
      destruct (Hr3 Hr0) as [Harea Hin]. replace (r <? 0) with false by lia.
      destruct (refill b r area Hok ltac:(lia) Hr2 Harea) as [Hlp Htk].
      cbn [m_stream m_buffer m_maxBufferSize m_currentBufferSize].
      rewrite u64_small by (unfold is_size, SIZE_MAX, SSIZE_MAX in *; lia).
      set (b1 := mkReader d _ _ _).
      assert (Hr : 0 < r).
      { destruct (Z.eq_dec r 0) as [Hr0'|]; [|lia]. exfalso. specialize (Heof Hr0').
        rewrite <- Hp in Hlong. unfold pending in Hlong. rewrite Heof, app_nil_r in Hlong.
        rewrite Hpre in Hlong. specialize (Hlong Eneedle). lia. }
      assert (Hok1 : reader_ok b1) by (unfold reader_ok, b1; simpl; rewrite Hlp; lia).
      assert (Hp1 : pending b1 = text).
      { unfold pending, b1. simpl. by rewrite Htk, Hin, <- app_assoc, ztake_zdrop. }
      destruct (IH b1 Hok1 Hhd' Hp1) as (res & b' & Hrun & Hout); [by unfold b1; simpl; rewrite Hlp| |].
      { unfold b1. simpl. rewrite Hlp. lia. }
      exists res, b'. split; [exact Hrun|]. unfold read_line_outcome in *.
      assert (Hlb : zlen (m_buffer b1) = zlen (m_buffer b)) by exact Hlp. by rewrite Hlb in Hout.
Qed.

(** A reader whose size is that of its buffer delivers the stream line by
    line whatever the pieces the socket gives: the next line comes whole, its
    delimiter replaced by a null character, and what follows it is kept; when
    the next line and its delimiter do not fit in the buffer the answer is FULL
    and nothing is lost. *)
Theorem bufferedReadUntil_exact delim fuel b :
  reader_ok b -> healthy (m_stream b) -> zlen (m_buffer b) < Z.of_nat fuel ->
  memchr delim (pending b) <> None \/ zlen (m_buffer b) <= zlen (pending b) ->
  exists r b', bufferedReadUntil fuel None delim b = (r, b') /\
    reader_ok b' /\ healthy (m_stream b') /\
    match memchr delim (pending b) with
    | Some p =>
        if p <? zlen (m_buffer b)
        then r = Ret (E_STREAMBUFFER_READ_OK, ztake p (pending b) ++ [chr 0]) /\
             pending b' = zdrop (p + 1) (pending b)
        else r = Ret (E_STREAMBUFFER_READ_FULL, []) /\ pending b' = pending b
    | None => r = Ret (E_STREAMBUFFER_READ_FULL, []) /\ pending b' = pending b
    end.
Proof.
  intros Hok Hhd Hfuel Hlong. pose proof Hok as (Hc & _).
  destruct (bufferedReadUntil_spec delim (pending b) fuel b Hok Hhd eq_refl) as (r & b' & Hr & Ho);
    [naive_solver|lia|].
  exists r, b'. destruct Ho as (? & _ & ? & ?). done.
Qed.

(** At the end of the stream the reader asks for more for ever: the socket
    answers 0, which is not an error to it, and no number of rounds is enough. *)
Theorem bufferedReadUntil_spins_at_eof delim fuel b :
  reader_ok b -> healthy (m_stream b) -> inbox (m_stream b) = [] ->
  memchr delim (pending b) = None -> m_currentBufferSize b < zlen (m_buffer b) ->
  fst (bufferedReadUntil fuel None delim b) = Exc diverges.
Proof.
  revert b. induction fuel as [|fuel IH]; intros b Hok Hhd Hin Hno Hlt; [done|].
  pose proof Hok as (Hc & Hm & Hmax). cbn [bufferedReadUntil].
  replace (zlen (m_buffer b) <? m_currentBufferSize b) with false by lia.
  assert (Hno' : memchr delim (ztake (m_currentBufferSize b) (m_buffer b)) = None)
    by (unfold pending in Hno; by rewrite Hin, app_nil_r in Hno).
  rewrite Hno', Hm. replace (zlen (m_buffer b) =? m_currentBufferSize b) with false by lia.
  rewrite u64_small by (unfold is_size, SIZE_MAX, SSIZE_MAX in *; lia).
  replace (zlen (m_buffer b) <? _) with false by lia.
  set (room := zlen (m_buffer b) - m_currentBufferSize b) in *.
  set (hole := slice (m_currentBufferSize b) room (m_buffer b)).
  assert (Hlh : zlen hole = room) by (apply zlen_slice; lia).
  assert (Hne : hole <> []) by (intros Hn; rewrite Hn in Hlh; change (zlen (@nil ascii)) with 0 in Hlh; lia).
  pose proof (read_piece hole (m_stream b) Hne) as Hrp.
  pose proof (read_healthy hole (m_stream b) Hne Hhd) as Hrh.
  destruct (partialRead hole (m_stream b)) as [[r area] d].
  destruct Hrp as (Hla & Hr1 & Hr2 & Hr3). destruct Hrh as (Hr0 & Hhd' & _).
  rewrite Hin in Hr2. change (zlen (@nil ascii)) with 0 in Hr2. assert (r = 0) as -> by lia.
  destruct (Hr3 Hr0) as [Harea Hin']. replace (0 <? 0) with false by lia.
  destruct (refill b 0 area Hok ltac:(lia) ltac:(rewrite Hin; done) Harea) as [Hlp Htk].
  rewrite Z.add_0_r, (ztake_le0 0), app_nil_r in Htk by lia.
  cbn [m_stream m_buffer m_maxBufferSize m_currentBufferSize].
  rewrite Z.add_0_r, u64_small by (unfold is_size, SIZE_MAX, SSIZE_MAX in *; lia).
  apply IH; simpl; [unfold reader_ok; simpl; rewrite Hlp; lia|done| | |by rewrite Hlp].
  - by rewrite Hin', Hin, zdrop_nil.
  - unfold pending in *. simpl. by rewrite Htk, Hin', Hin, zdrop_nil, app_nil_r.
Qed.

End Spec.

(** ** Witnesses *)

Definition line_reader (incoming : string) : BufferedReader Wire :=
  BufferedReader_new (mkWire (str incoming) [] true) (repeat (chr 0) 8) 8.

Lemma line_reader_ok incoming : reader_ok (line_reader incoming).
Proof. unfold reader_ok. simpl. vm_compute. repeat split; discriminate. Qed.

Lemma bufferedReadUntil_exact_witness :
  exists b, bufferedReadUntil 20 None ";"%char (line_reader "one;two;three") =
      (Ret (E_STREAMBUFFER_READ_OK, str "one" ++ [chr 0]), b) /\ pending b = str "two;three".
Proof.
  destruct (bufferedReadUntil_exact ";"%char 20 (line_reader "one;two;three"))
    as (r & b & Hr & _ & _ & -> & Hp);
    [apply line_reader_ok|exact I|reflexivity|left; discriminate|].
  exists b. split; [exact Hr|exact Hp].
Defined.

Lemma bufferedReadUntil_spins_at_eof_witness fuel :
  fst (bufferedReadUntil fuel None ";"%char (line_reader "")) = Exc diverges.
Proof.
  apply (bufferedReadUntil_spins_at_eof ";"%char fuel (line_reader ""));
    [apply line_reader_ok|exact I|reflexivity|reflexivity|reflexivity].
Defined.
