(* ===== verification/SocketDummy.v ===== *)
(** * The dummy socket: Net_Sockets/socket_stream_dummy.cpp

    A stream socket over two chunked containers: what is read comes from
    [sender], what is written goes to [receiver]. It is an implementation of
    [StreamSocket] over the containers of BChunks. Displacing chunks in memory
    and clearing them do not throw; the model keeps the container they leave. *)

From S2P Require Import Prelude Mem SafeInt StreamableObject BBase BMem BChunk BChunks BChunksFacts BChunksSpec BChunksProps SocketStream.

Section Dummy.
  Context {M : Type} `{BBase M, MmapFactory M}.

Record Socket_Stream_Dummy := mkDummy {
  sender : B_Chunks M;
  receiver : B_Chunks M;
  shuttedDownRD : bool;
  shuttedDownWR : bool
}.

Definition set_sender (c : B_Chunks M) (d : Socket_Stream_Dummy) : Socket_Stream_Dummy :=
  mkDummy c (receiver d) (shuttedDownRD d) (shuttedDownWR d).

(** What copyOut writes at the start of the area; nothing when it fails, which
    partialRead does not look at. *)
Definition copyOut_area (c : B_Chunks M) (n : Z) (area : bytes) : bytes :=
  match copyOut c n 0 with
  | Some data => patch area 0 data
  | None => area
  end.

Definition dummy_partialRead (area : bytes) (d : Socket_Stream_Dummy)
  : Z * bytes * Socket_Stream_Dummy :=
  let storedDataSize := size (sender d) in
  let datalen := zlen area in
  if storedDataSize =? 0 then (0, area, d)
  else if datalen <=? storedDataSize then
    (datalen, copyOut_area (sender d) datalen area, set_sender (snd (displace datalen (sender d))) d)
  else
    (storedDataSize, copyOut_area (sender d) storedDataSize area,
     set_sender (snd (clear (sender d))) d).

(** An append that throws is not caught; the containers in memory do not. *)
Definition dummy_partialWrite (data : bytes) (d : Socket_Stream_Dummy) : Z * Socket_Stream_Dummy :=
  let (r, c) := append data (receiver d) in
  let d := mkDummy (sender d) c (shuttedDownRD d) (shuttedDownWR d) in
  match r with
  | Ret (Some n) => (n, d)
  | _ => (-1, d)
  end.

#[export] Instance Dummy_socket : StreamSocket Socket_Stream_Dummy := {
  partialRead := dummy_partialRead;
  partialWrite := dummy_partialWrite;
  shutdownSocket d := mkDummy (sender d) (receiver d) true true   (* SHUT_RDWR *)
}.

(** A read from a container whose offsets are right gives the next bytes,
    at most as many as asked, and takes them out of the container. *)
Theorem dummy_read_exact area d :
  ck_data_wf (sender d) -> ck_indexed (sender d) -> zlen area <= SSIZE_MAX ->
  let text := ck_view (sender d) in
  let n := Z.min (zlen area) (zlen text) in
  exists d', partialRead area d = (n, ztake n text ++ zdrop n area, d') /\
    (zlen area <= zlen text -> ck_view (sender d') = zdrop n text) /\
    (zlen text < zlen area -> size (sender d') = 0 \/ zlen text = 0).
Proof.
  intros Hwf Hx Hl text n. pose proof (zlen_nonneg area). pose proof (zlen_nonneg text).
  cbn [partialRead Dummy_socket]. unfold dummy_partialRead. rewrite size_ck by done. fold text.
  assert (Harea : forall k, 0 <= k <= zlen area -> k <= zlen text ->
    copyOut_area (sender d) k area = ztake k text ++ zdrop k area).
  { intros k Hk Hkt. unfold copyOut_area. rewrite copyOut_view by (done || (simpl; fold text; lia)).
    simpl. fold text. unfold slice, patch. rewrite zdrop_le0, ztake_le0 by lia.
    rewrite zlen_ztake. simpl. do 2 f_equal. lia. }
  case_cond; zbool; [|case_cond; zbool].
  - exists d. unfold n. rewrite Z.min_r, ztake_le0, zdrop_le0 by lia. split; [simpl; do 2 f_equal; lia|].
    split; [|by right]. intros. rewrite zdrop_le0 by lia. done.
  - unfold n. rewrite Z.min_l by lia. rewrite Harea by lia. eexists. split; [done|]. simpl.
    split; [|lia]. intros _. unfold displace. cbn [v_size v_displace2 B_Chunks_container].
    rewrite size_ck by done. fold text. rewrite Z.min_l by lia.
    destruct (displace2_put (sender d) (zlen area) Hwf) as (v & Hd & _ & Hv & _);
      [unfold text in *; lia|]. by rewrite Hd.
  - unfold n. rewrite Z.min_r by lia. rewrite Harea by lia. eexists. split; [done|].
    split; [lia|]. intros _. left. reflexivity.
Qed.

End Dummy.

Arguments Socket_Stream_Dummy M : clear implicits.

(** ** What the displaced offsets do to a reader *)

(** A connection whose peer sent [text], kept in chunks of four bytes. *)
Definition dummy_connection (text : bytes) : Socket_Stream (Socket_Stream_Dummy B_MEM) :=
  mkSocket (mkDummy (snd (append text (small_chunks 8))) (small_chunks 8) false false)
    WriteStatus_new.

(** A string of ten characters that arrives in chunks of four: the header
    is read, the displacement spoils the offsets of the container, the copy of
    the block fails, and partialRead does not look: readStringEx answers true
    with ten null characters. *)
Theorem dummy_delivers_zeros :
  exists s, readStringEx false 1 200 (dummy_connection (chr 10 :: str "0123456789")) =
    (Ret (repeat (chr 0) 10, true), s).
Proof. eexists. vm_compute. reflexivity. Qed.

Lemma dummy_read_exact_witness :
  exists d, partialRead (str "?????") (dev (dummy_connection (str "hello, world"))) = (5, str "hello", d) /\
    ck_view (sender d) = str ", world".
Proof.
  destruct (dummy_read_exact (str "?????") (dev (dummy_connection (str "hello, world"))))
    as (d & Hd & Hv & _); [ck_concrete..|].
  exists d. split; [exact Hd|]. rewrite Hv by (vm_compute; discriminate). vm_compute. reflexivity.
Defined.
