(* ===== verification/SubParser.v ===== *)
(** * Element parsers (Memory/subparser.h, Memory/subparser.cpp)

    The data members of SubParser and its members, run on an object [T] of a
    derived class: [SubParserImpl] gives the SubParser part of the object and
    the derived class's [parse()]. [m_parsedBuffer] always points to
    [m_unparsedBuffer] of the same object, so only its fields are kept and the
    container is looked at through [getParsedBuffer]. *)

From S2P Require Import Prelude Mem SafeInt StreamableObject BBase BMem BChunk BChunks BChunksFacts BChunksSpec BRef.

Inductive ParseStatus : Type :=
| PARSE_ERROR
| PARSE_GET_MORE_DATA
| PARSE_GOTO_NEXT_SUBPARSER.

Inductive ParseMode : Type :=
| PARSE_MODE_DELIMITER
| PARSE_MODE_SIZE
| PARSE_MODE_VALIDATOR
| PARSE_MODE_CONNECTION_END
| PARSE_MODE_DIRECT
| PARSE_MODE_DIRECT_DELIMITER
| PARSE_MODE_MULTIDELIMITER.

Record SubParser (M : Type) : Type := mkSubParser {
  m_clientMode : bool;
  m_streamEnded : bool;
  m_subParserName : string;
  m_parsedBuffer : RefFields;
  m_unparsedBuffer : B_Chunks M;
  m_parseDelimiter : bytes;
  m_delimiterFound : bytes;
  m_parseMultiDelimiter : list bytes;
  m_parseMode : ParseMode;
  m_parseStatus : ParseStatus
}.
Arguments mkSubParser {M}.
Arguments m_clientMode {M}. Arguments m_streamEnded {M}. Arguments m_subParserName {M}.
Arguments m_parsedBuffer {M}. Arguments m_unparsedBuffer {M}. Arguments m_parseDelimiter {M}.
Arguments m_delimiterFound {M}. Arguments m_parseMultiDelimiter {M}. Arguments m_parseMode {M}.
Arguments m_parseStatus {M}.

Section Fields.
Context {M : Type}.
Implicit Types s : SubParser M.

(** The object a [SubParser()] constructor makes. *)
Definition SubParser_new : SubParser M :=
  mkSubParser true false "" RefFields_new B_Chunks_new (map chr [13; 10]) [] []
    PARSE_MODE_DELIMITER PARSE_GET_MORE_DATA.

Definition set_clientMode (b : bool) s : SubParser M :=
  mkSubParser b (m_streamEnded s) (m_subParserName s) (m_parsedBuffer s) (m_unparsedBuffer s)
    (m_parseDelimiter s) (m_delimiterFound s) (m_parseMultiDelimiter s) (m_parseMode s) (m_parseStatus s).
Definition set_streamEnded (b : bool) s : SubParser M :=
  mkSubParser (m_clientMode s) b (m_subParserName s) (m_parsedBuffer s) (m_unparsedBuffer s)
    (m_parseDelimiter s) (m_delimiterFound s) (m_parseMultiDelimiter s) (m_parseMode s) (m_parseStatus s).
Definition set_parsedBuffer (r : RefFields) s : SubParser M :=
  mkSubParser (m_clientMode s) (m_streamEnded s) (m_subParserName s) r (m_unparsedBuffer s)
    (m_parseDelimiter s) (m_delimiterFound s) (m_parseMultiDelimiter s) (m_parseMode s) (m_parseStatus s).
Definition set_unparsedBuffer (c : B_Chunks M) s : SubParser M :=
  mkSubParser (m_clientMode s) (m_streamEnded s) (m_subParserName s) (m_parsedBuffer s) c
    (m_parseDelimiter s) (m_delimiterFound s) (m_parseMultiDelimiter s) (m_parseMode s) (m_parseStatus s).
Definition set_delimiterFound (d : bytes) s : SubParser M :=
  mkSubParser (m_clientMode s) (m_streamEnded s) (m_subParserName s) (m_parsedBuffer s) (m_unparsedBuffer s)
    (m_parseDelimiter s) d (m_parseMultiDelimiter s) (m_parseMode s) (m_parseStatus s).

Definition setParseStatus (v : ParseStatus) s : SubParser M :=
  mkSubParser (m_clientMode s) (m_streamEnded s) (m_subParserName s) (m_parsedBuffer s) (m_unparsedBuffer s)
    (m_parseDelimiter s) (m_delimiterFound s) (m_parseMultiDelimiter s) (m_parseMode s) v.
Definition setParseDelimiter (d : bytes) s : SubParser M :=
  mkSubParser (m_clientMode s) (m_streamEnded s) (m_subParserName s) (m_parsedBuffer s) (m_unparsedBuffer s)
    d (m_delimiterFound s) (m_parseMultiDelimiter s) (m_parseMode s) (m_parseStatus s).
Definition setParseMultiDelimiter (ds : list bytes) s : SubParser M :=
  mkSubParser (m_clientMode s) (m_streamEnded s) (m_subParserName s) (m_parsedBuffer s) (m_unparsedBuffer s)
    (m_parseDelimiter s) (m_delimiterFound s) ds (m_parseMode s) (m_parseStatus s).
Definition set_subParserName (n : string) s : SubParser M :=
  mkSubParser (m_clientMode s) (m_streamEnded s) n (m_parsedBuffer s) (m_unparsedBuffer s)
    (m_parseDelimiter s) (m_delimiterFound s) (m_parseMultiDelimiter s) (m_parseMode s) (m_parseStatus s).
Definition set_mode (m : ParseMode) s : SubParser M :=
  mkSubParser (m_clientMode s) (m_streamEnded s) (m_subParserName s) (m_parsedBuffer s) (m_unparsedBuffer s)
    (m_parseDelimiter s) (m_delimiterFound s) (m_parseMultiDelimiter s) m (m_parseStatus s).
End Fields.

(** An object of a class derived from SubParser. *)
Class SubParserImpl (M T : Type) : Type := {
  sp : T -> SubParser M;
  sp_set : SubParser M -> T -> T;
  parse : st T ParseStatus
}.

Section SubParserMembers.
Context {M : Type} `{BBase M, MmapFactory M}.
Implicit Types s : SubParser M.

Definition setParseDataTargetSize (value : Z) s : SubParser M :=
  set_unparsedBuffer (setMaxSize value (m_unparsedBuffer s)) s.

Definition setParseMode (value : ParseMode) s : SubParser M :=
  let s := match value with
           | PARSE_MODE_DIRECT => setParseDataTargetSize SIZE_MAX s
           | _ => s
           end in
  set_mode value s.

Definition getUnparsedDataSize s : Z := getSizeLeft (m_unparsedBuffer s).
Definition getParsedBuffer s : B_Ref (B_Chunks M) := at_container (m_parsedBuffer s) (m_unparsedBuffer s).

(** [m_parsedBuffer.reference(&m_unparsedBuffer, offset, maxBytes)]. *)
Definition sp_reference (offset maxBytes : Z) s : SubParser M :=
  set_parsedBuffer (snd (reference (m_unparsedBuffer s) offset maxBytes (m_parsedBuffer s))) s.

(** [clear()] of both buffers. *)
Definition sp_clear : st (SubParser M) unit := fun s =>
  let (r, c) := clear (m_unparsedBuffer s) in
  match r with
  | Exc e => (Exc e, set_unparsedBuffer c s)
  | Ret _ => (Ret tt, set_parsedBuffer (ref_clear (m_parsedBuffer s)) (set_unparsedBuffer c s))
  end.

Section Impl.
(** What a freshly allocated block of a size contains. *)
Context (uninitialised : Z -> bytes).
Context {T : Type} `{Impl : SubParserImpl M T}.

Definition upd (f : SubParser M -> SubParser M) : st T unit := modify (fun t => sp_set (f (sp t)) t).
Definition unparsed : st T (B_Chunks M) := gets (fun t => m_unparsedBuffer (sp t)).
Definition on_unparsed {A} (f : st (B_Chunks M) A) : st T A := fun t =>
  let (r, c) := f (m_unparsedBuffer (sp t)) in (r, sp_set (set_unparsedBuffer c (sp t)) t).

Definition initElemParser (clientMode : bool) : st T unit := upd (set_clientMode clientMode).

(** [setParseStatus(parse())]. *)
Definition do_parse : st T unit :=
  let! r := parse in upd (setParseStatus r).

Definition appendToUnparsedBuffer (buf : bytes) : st T (option Z) :=
  let! c := unparsed in
  let leftSize := getSizeLeft c in
  if (leftSize =? 0) && (0 <? zlen buf) then ret None
  else
    let count := Z.min (zlen buf) leftSize in
    if 0 <? count then
      let! bytesAppended := on_unparsed (append (ztake count buf)) in
      match bytesAppended with
      | Some n => if n =? count then ret (Some n)
                  else do! on_unparsed clear in ret None
      | None => do! on_unparsed clear in ret None
      end
    else ret (Some 0).

Definition parseByMultiDelimiter (buf : bytes) : st T (option Z) :=
  let! c := unparsed in
  let prevSize := BChunks.size c in
  let! bytesAppended := appendToUnparsedBuffer buf in
  match bytesAppended with
  | None => ret None
  | Some bytesToDisplace =>
      do! upd (sp_reference 0 SIZE_MAX) in
      let! t := gets sp in
      let! needlePos := lift_res (find_any (m_unparsedBuffer t) (m_parseMultiDelimiter t) true 0 0) in
      do! upd (set_delimiterFound (default [] (option_map snd needlePos))) in
      match needlePos with
      | Some (pos, d) =>
          do! upd (sp_reference 0 pos) in
          do! do_parse in
          do! on_unparsed clear in
          ret (Some (u64 (u64 (pos + zlen d) - prevSize)))
      | None =>
          if m_streamEnded t then
            do! upd (sp_reference 0 SIZE_MAX) in
            do! do_parse in
            do! on_unparsed clear in
            ret (Some bytesToDisplace)
          else ret (Some bytesToDisplace)
      end
  end.

Definition parseByDelimiter (buf : bytes) : st T (option Z) :=
  let! c := unparsed in
  let prevSize := BChunks.size c in
  let! bytesAppended := appendToUnparsedBuffer buf in
  match bytesAppended with
  | None => ret None
  | Some bytesToDisplace =>
      do! upd (sp_reference 0 SIZE_MAX) in
      let! t := gets sp in
      let! needlePos := lift_res (find (m_unparsedBuffer t) (m_parseDelimiter t) true 0 0) in
      match needlePos with
      | Some pos =>
          do! upd (sp_reference 0 pos) in
          do! do_parse in
          do! on_unparsed clear in
          let! t := gets sp in
          ret (Some (u64 (u64 (pos - prevSize) + zlen (m_parseDelimiter t))))
      | None =>
          if m_streamEnded t then
            do! upd (sp_reference 0 SIZE_MAX) in
            do! do_parse in
            do! on_unparsed clear in
            ret (Some bytesToDisplace)
          else ret (Some bytesToDisplace)
      end
  end.

Definition parseBySize (buf : bytes) : st T (option Z) :=
  if zlen buf =? 0 then
    do! upd (setParseStatus PARSE_GOTO_NEXT_SUBPARSER) in
    do! on_unparsed clear in
    ret (Some 0)
  else
    let! bytesAppended := appendToUnparsedBuffer buf in
    match bytesAppended with
    | None => ret None
    | Some bytesToDisplace =>
        let! c := unparsed in
        if getSizeLeft c =? 0 then
          do! upd (sp_reference 0 SIZE_MAX) in
          do! do_parse in
          do! on_unparsed clear in
          ret (Some bytesToDisplace)
        else ret (Some bytesToDisplace)
    end.

Definition parseByValidator (buf : bytes) : st T (option Z) := ret None.

Definition parseByConnectionEnd (buf : bytes) : st T (option Z) :=
  let! bytesAppended := appendToUnparsedBuffer buf in
  match bytesAppended with
  | None => ret None
  | Some bytesToDisplace =>
      if zlen buf =? 0 then
        do! upd (sp_reference 0 SIZE_MAX) in
        do! do_parse in
        do! on_unparsed clear in
        ret (Some 0)
      else ret (Some bytesToDisplace)
  end.

Definition parseDirect (buf : bytes) : st T (option Z) :=
  let! bytesAppended := appendToUnparsedBuffer buf in
  match bytesAppended with
  | None => ret None
  | Some bytesToDisplace =>
      do! upd (sp_reference 0 SIZE_MAX) in
      do! do_parse in
      let! c := unparsed in
      let curBufSize := BChunks.size c in
      do! on_unparsed clear in
      do! on_unparsed (reduceMaxSizeBy curBufSize) in
      ret (Some bytesToDisplace)
  end.

(** [referenceLastBytes], on the unparsed buffer. *)
Definition referenceLastBytes (n : Z) (c : B_Chunks M) : B_Ref (B_Chunks M) :=
  at_container (snd (reference c (u64 (BChunks.size c - n)) SIZE_MAX RefFields_new)) c.

(** The loop of [getLastBytesInCommon], for [v] down to 1; a [copyOut] that
    fails leaves the block it was to fill as it was allocated. *)
Fixpoint common_loop (v : nat) (boundary : bytes) (c : B_Chunks M) : Z :=
  match v with
  | O => 0
  | S v' =>
      let ref := referenceLastBytes (Z.of_nat v) c in
      let n := BRef.size ref in
      let toCmp := match copyOut ref n 0 with
                   | Some bs => bs
                   | None => uninitialised n
                   end in
      if memcmp (ztake n toCmp) (ztake n boundary) =? 0 then Z.of_nat v
      else common_loop v' boundary c
  end.

Definition getLastBytesInCommon (boundary : bytes) (c : B_Chunks M) : Z :=
  let maxBoundary := Z.min (BChunks.size c) (u64 (zlen boundary - 1)) in
  common_loop (Z.to_nat maxBoundary) boundary c.

Definition parseDirectDelimiter (buf : bytes) : st T (option Z) :=
  let! c := unparsed in
  let prevSize := BChunks.size c in
  do! upd (set_delimiterFound []) in
  let! bytesAppended := appendToUnparsedBuffer buf in
  match bytesAppended with
  | None => ret None
  | Some bytesToDisplace =>
      let! t := gets sp in
      let! delimPos := lift_res (find (m_unparsedBuffer t) (m_parseDelimiter t) true 0 0) in
      match delimPos with
      | None =>
          let bytesOfPossibleDelim := getLastBytesInCommon (m_parseDelimiter t) (m_unparsedBuffer t) in
          if bytesOfPossibleDelim =? 0 then
            do! upd (sp_reference 0 SIZE_MAX) in
            do! do_parse in
            do! on_unparsed clear in
            ret (Some bytesToDisplace)
          else
            do! upd (sp_reference 0 (u64 (BChunks.size (m_unparsedBuffer t) - bytesOfPossibleDelim))) in
            do! do_parse in
            let! c := unparsed in
            do! on_unparsed (displace (u64 (BChunks.size c - bytesOfPossibleDelim))) in
            ret (Some bytesToDisplace)
      | Some pos =>
          do! upd (fun s => set_delimiterFound (m_parseDelimiter s) s) in
          do! (if pos =? 0 then
                 do! on_unparsed clear in upd (sp_reference 0 SIZE_MAX)
               else upd (sp_reference 0 pos)) in
          do! do_parse in
          do! on_unparsed clear in
          let! t := gets sp in
          ret (Some (u64 (u64 (pos - prevSize) + zlen (m_parseDelimiter t))))
      end
  end.

Definition writeIntoParser (buf : bytes) : st T (option Z) :=
  do! (if zlen buf =? 0 then upd (set_streamEnded true) else ret tt) in
  let! t := gets sp in
  match m_parseMode t with
  | PARSE_MODE_DELIMITER => parseByDelimiter buf
  | PARSE_MODE_SIZE => parseBySize buf
  | PARSE_MODE_VALIDATOR => parseByValidator buf
  | PARSE_MODE_DIRECT_DELIMITER => parseDirectDelimiter buf
  | PARSE_MODE_CONNECTION_END => parseByConnectionEnd buf
  | PARSE_MODE_MULTIDELIMITER => parseByMultiDelimiter buf
  | PARSE_MODE_DIRECT => parseDirect buf
  end.
End Impl.
End SubParserMembers.
