(* ===== verification/SubParserSpec.v ===== *)
(** * What the parsing modes of SubParser do

    The invariant of the buffer of an element parser, and the members of
    SubParser against it, over any derived class. *)

From S2P Require Import Prelude Mem SafeInt StreamableObject BBase BMem BChunk BChunks BChunksFacts BChunksSpec BRef SubParser.

(** The SubParser part of an object is a field of it. *)
Class SubParserLaws (M T : Type) `{SubParserImpl M T} : Prop := {
  sp_sp_set s t : sp (sp_set s t) = s;
  sp_set_set s s' t : sp_set s (sp_set s' t) = sp_set s t;
  sp_set_sp t : sp_set (sp t) t = t
}.

Section Buffer.
Context {M : Type} `{BBase M, MmapFactory M}.
Implicit Types c : B_Chunks M.

(** A buffer limited to [m] bytes that can hold them one per chunk. *)
Definition buffer_ok (m : Z) c : Prop :=
  ck_open c /\ ck_indexed c /\ m_maxSize (ck_base c) = m /\ 0 <= m <= SSIZE_MAX /\
  m <= m_maxChunks c /\ zlen (ck_view c) <= m.

Lemma buffer_data m c : buffer_ok m c -> ck_data_wf c.
Proof. intros [[? _] _]. done. Qed.

Lemma buffer_room m c : buffer_ok m c -> m - zlen (ck_view c) <= ck_room c.
Proof.
  intros (([? [Hf _]] & _) & _ & Hm & ? & ? & ?). pose proof (zlen_chunks_le _ Hf).
  unfold ck_room, ck_view in *. lia.
Qed.

Lemma buffer_left m c : buffer_ok m c -> getSizeLeft c = m - zlen (ck_view c).
Proof.
  intros Hok. pose proof (buffer_data m c Hok) as Hwf. destruct Hok as (_ & _ & Hm & ? & _ & ?).
  unfold getSizeLeft. cbn [v_size b_get B_Chunks_container]. rewrite size_ck, Hm by done.
  pose proof (zlen_nonneg (ck_view c)). replace (zlen (ck_view c) >? m) with false by lia.
  apply u64_small, size_arith. lia.
Qed.

Lemma buffer_append m c buf :
  buffer_ok m c -> buf <> [] -> zlen buf <= m - zlen (ck_view c) ->
  exists c', append buf c = (Ret (Some (zlen buf)), c') /\ buffer_ok m c' /\ ck_view c' = ck_view c ++ buf /\
    m_maxChunks c' = m_maxChunks c.
Proof.
  intros Hok Hne Hl. pose proof (buffer_room m c Hok). destruct Hok as (Hopen & Hx & Hm & Hr & Hch & Hv).
  destruct (append_room c buf Hopen Hne) as (v & Ha & Hopen' & Hv' & Hx' & _); [lia|].
  exists (ck_put v c). split; [done|]. split; [|by split]. split; [done|]. split; [auto|].
  split; [done|]. split; [done|]. split; [done|]. rewrite Hv', zlen_app. lia.
Qed.

(** The invariant, decided. *)
Definition buffer_check (m : Z) c : bool :=
  negb (isUsingFiles c) && forallb chunk_ok (m_chunksVector c) && chained_ok 0 (m_chunksVector c) &&
  negb (m_readOnly (ck_base c)) &&
  (m_containerBytes (ck_base c) =? zlen (ck_view c)) && (m_maxSizeInMemoryBeforeMovingToDisk c =? 0) &&
  (0 <? m_maxChunkSize c) && (m_maxSize (ck_base c) =? m) && (0 <=? m) && (m <=? SSIZE_MAX) &&
  (m <=? m_maxChunks c) && (zlen (ck_view c) <=? m).

Lemma buffer_check_ok m c : buffer_check m c = true -> buffer_ok m c.
Proof.
  unfold buffer_check, isUsingFiles. intros Hc. rewrite !andb_true_iff in Hc.
  destruct Hc as (((((((((((Hn & Hf) & Hx) & Hro) & ?) & ?) & ?) & ?) & ?) & ?) & ?) & ?). zbool.
  destruct (m_mmapContainer c) eqn:En; [done|]. apply chunks_ok in Hf. apply chained_ok_spec in Hx.
  split; [split; [split; [done|split; [done|split; [done|lia]]]|done]|]. done.
Qed.

(** The container [clear()] leaves. *)
Definition cleared c : B_Chunks M := snd (clear c).

Lemma clear_cleared c : clear c = (Ret true, cleared c).
Proof. done. Qed.

Lemma cleared_ok m c :
  m_readOnly (ck_base c) = false -> m_maxSizeInMemoryBeforeMovingToDisk c = 0 -> 0 < m_maxChunkSize c ->
  m_maxSize (ck_base c) = m -> 0 <= m <= SSIZE_MAX -> m <= m_maxChunks c ->
  buffer_ok m (cleared c) /\ ck_view (cleared c) = [].
Proof.
  intros Hro Hmem Hp Hm Hr Hch. split; [|done].
  split; [|split; [done|]]; [split; [|done]; repeat split; [constructor|done..]|].
  split; [done|]. split; [done|]. split; [done|]. change (ck_view (cleared c)) with (@nil ascii).
  rewrite zlen_nil. lia.
Qed.

Lemma buffer_cleared m c : buffer_ok m c -> buffer_ok m (cleared c) /\ ck_view (cleared c) = [].
Proof. intros ((? & ? & ? & ?) & ? & ? & ? & ? & ?). by apply cleared_ok. Qed.

(** An empty buffer limited to [m] bytes, of any number of chunks. *)
Definition blank (m : Z) c : Prop :=
  ck_open c /\ m_chunksVector c = [] /\ m_maxSize (ck_base c) = m /\ 0 <= m <= SSIZE_MAX.

Lemma blank_indexed m c : blank m c -> ck_indexed c /\ ck_view c = [].
Proof. intros (_ & Hv & _). unfold ck_indexed, ck_view. by rewrite Hv. Qed.

Lemma blank_buffer m c : blank m c -> m <= m_maxChunks c -> buffer_ok m c /\ ck_view c = [].
Proof.
  intros Hb Hch. destruct (blank_indexed m c Hb) as [Hx Hv]. destruct Hb as (Ho & _ & Hm & Hr).
  split; [|done]. unfold buffer_ok. rewrite Hv.
  change (zlen (@nil ascii)) with 0. split; [done|]. split; [done|]. split; [done|]. lia.
Qed.

Lemma cleared_blank m c :
  m_readOnly (ck_base c) = false -> m_maxSizeInMemoryBeforeMovingToDisk c = 0 -> 0 < m_maxChunkSize c ->
  m_maxSize (ck_base c) = m -> 0 <= m <= SSIZE_MAX -> blank m (cleared c).
Proof. intros. split; [|done]. split; [|done]. split; [done|]. split; [constructor|done]. Qed.

Lemma blank_set m m' c : blank m c -> 0 <= m' <= SSIZE_MAX -> blank m' (setMaxSize m' c).
Proof.
  intros (((Hn & Hf & Hs & Hv) & Hro & Hmem & Hp) & Hvec & _ & _) Hm. destruct c as [[ro mx by'] vec ? ? ? ?].
  split; [|split; [exact Hvec|done]]. split; [split; [exact Hn|split; [exact Hf|split; [exact Hs|exact Hv]]]|].
  split; [exact Hro|]. by split.
Qed.

Lemma blank_append m c buf :
  blank m c -> buf <> [] -> zlen buf <= m -> zlen buf <= m_maxChunks c ->
  exists c', append buf c = (Ret (Some (zlen buf)), c') /\ ck_open c' /\ ck_indexed c' /\ ck_view c' = buf /\
    m_maxChunks c' = m_maxChunks c /\ m_maxSize (ck_base c') = m.
Proof.
  intros (Ho & Hv & Hm & Hr) Hne Hl Hch. destruct (append_room c buf Ho Hne) as (v & Ha & Ho' & Hv' & Hx' & _).
  { unfold ck_room, ck_view. rewrite Hv, Hm. change (zlen (chunks_bytes [])) with 0. change (zlen []) with 0. lia. }
  exists (ck_put v c). split; [done|]. split; [done|]. split; [apply Hx'; unfold ck_indexed; by rewrite Hv|].
  unfold ck_view at 2 in Hv'. rewrite Hv in Hv'. done.
Qed.

(** The parsed buffer after [reference(&m_unparsedBuffer, 0, n)]. *)
Lemma sp_reference_view m s n :
  buffer_ok m (m_unparsedBuffer s) -> 0 <= n <= zlen (ck_view (m_unparsedBuffer s)) ->
  ref_first (getParsedBuffer (sp_reference 0 n s)) /\
  toStringEx (getParsedBuffer (sp_reference 0 n s)) = ztake n (ck_view (m_unparsedBuffer s)).
Proof.
  intros Hok Hn. pose proof (buffer_data m _ Hok) as Hwf. pose proof Hok as (_ & Hx & _).
  destruct (ref_at_zero (m_unparsedBuffer s) n (m_parsedBuffer s)) as (Hf & Hr & Hv); [exact Hwf|exact Hn|].
  assert (Hfirst : ref_first (getParsedBuffer (sp_reference 0 n s))).
  { split; [exact Hr|]. unfold getParsedBuffer, sp_reference. simpl. by rewrite Hf. }
  split; [done|]. unfold getParsedBuffer. rewrite ref_toStringEx; [exact Hv|exact Hwf|exact Hx|exact Hfirst].
Qed.

Lemma sp_reference_size m s n :
  buffer_ok m (m_unparsedBuffer s) -> 0 <= n <= zlen (ck_view (m_unparsedBuffer s)) ->
  BRef.size (getParsedBuffer (sp_reference 0 n s)) = n.
Proof.
  intros Hok Hn. pose proof (buffer_data m _ Hok) as Hwf.
  destruct (ref_at_zero (m_unparsedBuffer s) n (m_parsedBuffer s)) as (Hf & Hr & Hv); [exact Hwf|exact Hn|].
  change (getParsedBuffer (sp_reference 0 n s))
    with (at_container (snd (reference (m_unparsedBuffer s) 0 n (m_parsedBuffer s))) (m_unparsedBuffer s)).
  rewrite <- zlen_ref_view by exact Hr. rewrite Hv, zlen_ztake. change (b_view ?u) with (ck_view u). lia.
Qed.

Lemma sp_reference_whole s :
  ck_data_wf (m_unparsedBuffer s) -> ck_indexed (m_unparsedBuffer s) ->
  ref_first (getParsedBuffer (sp_reference 0 SIZE_MAX s)) /\
  toStringEx (getParsedBuffer (sp_reference 0 SIZE_MAX s)) = ck_view (m_unparsedBuffer s).
Proof.
  intros Hwf Hx.
  destruct (ref_whole (m_unparsedBuffer s) (m_parsedBuffer s)) as (Hf & Hr & Hv); [exact Hwf|].
  assert (Hfirst : ref_first (getParsedBuffer (sp_reference 0 SIZE_MAX s))).
  { split; [exact Hr|]. unfold getParsedBuffer, sp_reference. simpl. by rewrite Hf. }
  split; [done|]. unfold getParsedBuffer. rewrite ref_toStringEx; [exact Hv|exact Hwf|exact Hx|exact Hfirst].
Qed.
End Buffer.

Section Modes.
Context {M : Type} `{BBase M, MmapFactory M} {T : Type} `{SubParserLaws M T}.
Implicit Types t : T.

Definition buf_view t : bytes := ck_view (m_unparsedBuffer (sp t)).

(** The object with another buffer. *)
Definition with_unparsed (c : B_Chunks M) t : T := sp_set (set_unparsedBuffer c (sp t)) t.

Lemma on_unparsed_run {A} (f : st (B_Chunks M) A) t :
  on_unparsed f t = (fst (f (m_unparsedBuffer (sp t))), with_unparsed (snd (f (m_unparsedBuffer (sp t)))) t).
Proof. unfold on_unparsed. by destruct (f _). Qed.

Lemma with_unparsed_buf c t : m_unparsedBuffer (sp (with_unparsed c t)) = c.
Proof. unfold with_unparsed. by rewrite sp_sp_set. Qed.

(** [appendToUnparsedBuffer] takes what the limit leaves room for, and fails
    on a full buffer. *)
Lemma appendToUnparsedBuffer_spec m t buf :
  buffer_ok m (m_unparsedBuffer (sp t)) ->
  let left := m - zlen (buf_view t) in
  let k := Z.min (zlen buf) left in
  if (left =? 0) && (0 <? zlen buf) then appendToUnparsedBuffer buf t = (Ret None, t)
  else exists c, appendToUnparsedBuffer buf t = (Ret (Some k), with_unparsed c t) /\
    buffer_ok m c /\ ck_view c = buf_view t ++ ztake k buf /\
    m_maxChunks c = m_maxChunks (m_unparsedBuffer (sp t)).
Proof.
  intros Hok. cbn zeta.
  assert (Hleft : getSizeLeft (m_unparsedBuffer (sp t)) = m - zlen (buf_view t)) by by apply buffer_left.
  destruct ((m - zlen (buf_view t) =? 0) && (0 <? zlen buf)) eqn:Eg;
    unfold appendToUnparsedBuffer, unparsed, gets; unfold bind at 1; rewrite Hleft, Eg; [done|].
  pose proof Hok as (_ & _ & _ & Hr & _ & Hv). fold (buf_view t) in Hv.
  pose proof (zlen_nonneg buf). case_cond; zbool.
  - set (k := Z.min (zlen buf) (m - zlen (buf_view t))) in *.
    assert (Hk : zlen (ztake k buf) = k) by (rewrite zlen_ztake; lia).
    destruct (buffer_append m (m_unparsedBuffer (sp t)) (ztake k buf) Hok) as (c & Ha & Hok' & Hv' & Hch').
    { intros He. rewrite He in Hk. change (zlen (@nil ascii)) with 0 in Hk. lia. }
    { rewrite Hk. unfold k, buf_view. lia. }
    exists c. unfold bind. rewrite on_unparsed_run, Ha. cbn [fst snd]. rewrite Hk, Z.eqb_refl. done.
  - exists (m_unparsedBuffer (sp t)). replace (Z.min _ _) with 0 by lia.
    rewrite ztake_le0, app_nil_r by lia. split; [|done]. unfold ret, with_unparsed. f_equal.
    replace (set_unparsedBuffer (m_unparsedBuffer (sp t)) (sp t)) with (sp t) by (by destruct (sp t)).
    by rewrite sp_set_sp.
Qed.

(** Handing [n] bytes of the buffer to [parse()] and emptying it. *)
Definition delivered n t : T := sp_set (sp_reference 0 n (sp t)) t.
Definition after_parse (r : ParseStatus) t : T :=
  with_unparsed (cleared (m_unparsedBuffer (sp t))) (sp_set (setParseStatus r (sp t)) t).

Lemma do_parse_run {A} (k : st T A) t :
  (do! do_parse in k) t =
  match parse t with
  | (Ret r, t') => k (sp_set (setParseStatus r (sp t')) t')
  | (Exc e, t') => (Exc e, t')
  end.
Proof. unfold bind, do_parse, bind. by destruct (parse t) as [[?|?] ?]. Qed.

Lemma deliver_run {A} n (k : st T A) t :
  (do! upd (sp_reference 0 n) in do! do_parse in do! on_unparsed clear in k) t =
  match parse (delivered n t) with
  | (Ret r, t') => k (after_parse r t')
  | (Exc e, t') => (Exc e, t')
  end.
Proof.
  unfold bind, upd, modify, do_parse. fold (delivered n t). unfold bind.
  destruct (parse (delivered n t)) as [[r|e] t']; [|done].
  unfold upd, modify. rewrite on_unparsed_run, clear_cleared. cbn [fst snd].
  unfold after_parse. by rewrite sp_sp_set.
Qed.

Lemma delivered_prefix m n t :
  buffer_ok m (m_unparsedBuffer (sp t)) -> 0 <= n <= zlen (buf_view t) ->
  toStringEx (getParsedBuffer (sp (delivered n t))) = ztake n (buf_view t).
Proof. intros Hok Hn. unfold delivered. rewrite sp_sp_set. by eapply sp_reference_view. Qed.

Lemma delivered_whole m t :
  buffer_ok m (m_unparsedBuffer (sp t)) ->
  toStringEx (getParsedBuffer (sp (delivered SIZE_MAX t))) = buf_view t.
Proof.
  intros Hok. unfold delivered. rewrite sp_sp_set.
  apply sp_reference_whole; [exact (buffer_data m _ Hok)|apply Hok].
Qed.

(** A write with data goes to the member of the current mode. *)
Lemma writeIntoParser_data uninitialised t buf :
  buf <> [] ->
  writeIntoParser uninitialised buf t =
  match m_parseMode (sp t) with
  | PARSE_MODE_DELIMITER => parseByDelimiter buf t
  | PARSE_MODE_SIZE => parseBySize buf t
  | PARSE_MODE_VALIDATOR => parseByValidator buf t
  | PARSE_MODE_DIRECT_DELIMITER => parseDirectDelimiter uninitialised buf t
  | PARSE_MODE_CONNECTION_END => parseByConnectionEnd buf t
  | PARSE_MODE_MULTIDELIMITER => parseByMultiDelimiter buf t
  | PARSE_MODE_DIRECT => parseDirect buf t
  end.
Proof.
  intros Hne. pose proof (zlen_pos buf Hne). unfold writeIntoParser. replace (zlen buf =? 0) with false by lia.
  unfold bind at 1, ret at 1. unfold bind at 1, gets at 1. by destruct (m_parseMode (sp t)).
Qed.

(** ** Delimiters *)

(** The answer of a search for several needles: that of the first one of the
    list that occurs. *)
Fixpoint first_needle (needles : list bytes) (v : bytes) (r : option (Z * bytes)) : Prop :=
  match needles with
  | [] => r = None
  | d :: needles =>
      (exists p, r = Some (p, d) /\ first_occurrence d v 0 (Some p)) \/
      (first_occurrence d v 0 None /\ first_needle needles v r)
  end.

Lemma find_any_first m c needles :
  buffer_ok m c -> Forall (fun d => d <> [] /\ zlen d <= SSIZE_MAX) needles ->
  exists r, find_any c needles true 0 0 = Ret r /\ first_needle needles (ck_view c) r.
Proof.
  intros Hok Hn. pose proof (buffer_data m c Hok) as Hwf. pose proof (zlen_nonneg (ck_view c)).
  induction Hn as [|d needles [Hd Hl] _ IH]; [by exists None|]. cbn [find_any first_needle].
  destruct (find_first c d 0) as (r & Hr & Hf); [exact Hwf|done|done|split; [lia|done]|].
  rewrite Hr. cbn [res_bind]. destruct r as [p|]; [by eexists; split; [|left; eexists]|].
  destruct IH as (r & -> & Hfn). exists r. by split; [|right].
Qed.

(** The state the search is made in. *)
Definition appended (c : B_Chunks M) t : T := delivered SIZE_MAX (with_unparsed c t).

Lemma appended_buf c t : m_unparsedBuffer (sp (appended c t)) = c.
Proof. unfold appended, delivered. rewrite sp_sp_set. exact (with_unparsed_buf c t). Qed.

(** What a search leads to: delivery up to the delimiter, of the rest of an
    ended stream, or nothing yet. *)
Definition delimiter_outcome (t1 : T) (r : option Z) (consumed : T -> Z -> Z) (taken : Z) : res (option Z) * T :=
  match r with
  | Some pos =>
      match parse (delivered pos t1) with
      | (Ret st, t2) => (Ret (Some (consumed (after_parse st t2) pos)), after_parse st t2)
      | (Exc e, t2) => (Exc e, t2)
      end
  | None =>
      if m_streamEnded (sp t1) then
        match parse (delivered SIZE_MAX t1) with
        | (Ret st, t2) => (Ret (Some taken), after_parse st t2)
        | (Exc e, t2) => (Exc e, t2)
        end
      else (Ret (Some taken), t1)
  end.

Lemma parseByDelimiter_run m t buf :
  buffer_ok m (m_unparsedBuffer (sp t)) ->
  m_parseDelimiter (sp t) <> [] -> zlen (m_parseDelimiter (sp t)) <= SSIZE_MAX ->
  let left := m - zlen (buf_view t) in
  let k := Z.min (zlen buf) left in
  if (left =? 0) && (0 <? zlen buf) then parseByDelimiter buf t = (Ret None, t)
  else exists c r, buffer_ok m c /\ ck_view c = buf_view t ++ ztake k buf /\
    m_maxChunks c = m_maxChunks (m_unparsedBuffer (sp t)) /\
    first_occurrence (m_parseDelimiter (sp t)) (ck_view c) 0 r /\
    parseByDelimiter buf t = delimiter_outcome (appended c t) r
      (fun t2 pos => u64 (u64 (pos - zlen (buf_view t)) + zlen (m_parseDelimiter (sp t2)))) k.
Proof.
  intros Hok Hd Hdl. cbn zeta. pose proof (appendToUnparsedBuffer_spec m t buf Hok) as Ha. cbn zeta in Ha.
  destruct ((m - zlen (buf_view t) =? 0) && (0 <? zlen buf)).
  { unfold parseByDelimiter, unparsed, gets, bind. by rewrite Ha. }
  destruct Ha as (c & Ha & Hokc & Hv & Hch). pose proof (zlen_nonneg (ck_view c)).
  destruct (find_first c (m_parseDelimiter (sp t)) 0) as (r & Hr & Hf);
    [exact (buffer_data m c Hokc)|done|done|split; [lia|done]|].
  exists c, r. split; [done|]. split; [done|]. split; [done|]. split; [exact Hf|].
  unfold parseByDelimiter, unparsed, gets. unfold bind at 1.
  rewrite (size_ck _ (buffer_data m _ Hok)). fold (buf_view t).
  unfold bind at 1. rewrite Ha. unfold bind at 1, upd at 1, modify at 1. unfold bind at 1. unfold bind at 1.
  fold (delivered SIZE_MAX (with_unparsed c t)). fold (appended c t).
  replace (m_parseDelimiter (sp (appended c t))) with (m_parseDelimiter (sp t))
    by (unfold appended, delivered, with_unparsed; by rewrite !sp_sp_set).
  rewrite appended_buf, Hr. unfold lift_res, delimiter_outcome.
  destruct r as [pos|].
  - rewrite deliver_run. by destruct (parse _) as [[?|?] ?].
  - case_cond; [|done]. rewrite deliver_run. by destruct (parse _) as [[?|?] ?].
Qed.

Lemma parseByMultiDelimiter_run m t buf :
  buffer_ok m (m_unparsedBuffer (sp t)) ->
  Forall (fun d => d <> [] /\ zlen d <= SSIZE_MAX) (m_parseMultiDelimiter (sp t)) ->
  let left := m - zlen (buf_view t) in
  let k := Z.min (zlen buf) left in
  if (left =? 0) && (0 <? zlen buf) then parseByMultiDelimiter buf t = (Ret None, t)
  else exists c r, buffer_ok m c /\ ck_view c = buf_view t ++ ztake k buf /\
    first_needle (m_parseMultiDelimiter (sp t)) (ck_view c) r /\
    parseByMultiDelimiter buf t = delimiter_outcome
      (sp_set (set_delimiterFound (default [] (option_map snd r)) (sp (appended c t))) (appended c t))
      (option_map fst r)
      (fun _ pos => u64 (u64 (pos + zlen (default [] (option_map snd r))) - zlen (buf_view t))) k.
Proof.
  intros Hok Hd. cbn zeta. pose proof (appendToUnparsedBuffer_spec m t buf Hok) as Ha. cbn zeta in Ha.
  destruct ((m - zlen (buf_view t) =? 0) && (0 <? zlen buf)).
  { unfold parseByMultiDelimiter, unparsed, gets, bind. by rewrite Ha. }
  destruct Ha as (c & Ha & Hokc & Hv & Hch).
  destruct (find_any_first m c _ Hokc Hd) as (r & Hr & Hf).
  exists c, r. split; [done|]. split; [done|]. split; [exact Hf|].
  unfold parseByMultiDelimiter, unparsed, gets. unfold bind at 1.
  rewrite (size_ck _ (buffer_data m _ Hok)). fold (buf_view t).
  unfold bind at 1. rewrite Ha. unfold bind at 1, upd at 1, modify at 1. unfold bind at 1. unfold bind at 1.
  fold (delivered SIZE_MAX (with_unparsed c t)). fold (appended c t).
  replace (m_parseMultiDelimiter (sp (appended c t))) with (m_parseMultiDelimiter (sp t))
    by (unfold appended, delivered, with_unparsed; by rewrite !sp_sp_set).
  rewrite appended_buf, Hr. unfold lift_res. unfold bind at 1, upd at 1, modify at 1.
  set (t1 := sp_set _ (appended c t)).
  replace (m_streamEnded (sp (appended c t))) with (m_streamEnded (sp t1))
    by (unfold t1; by rewrite sp_sp_set).
  unfold delimiter_outcome. destruct r as [[pos d]|]; cbn [option_map fst snd default from_option id].
  - rewrite deliver_run. by destruct (parse _) as [[?|?] ?].
  - case_cond; [|done]. rewrite deliver_run. by destruct (parse _) as [[?|?] ?].
Qed.

(** ** Sizes *)

Lemma parseBySize_run m t buf :
  buffer_ok m (m_unparsedBuffer (sp t)) -> buf <> [] ->
  let left := m - zlen (buf_view t) in
  let k := Z.min (zlen buf) left in
  if left =? 0 then parseBySize buf t = (Ret None, t)
  else exists c, buffer_ok m c /\ ck_view c = buf_view t ++ ztake k buf /\
    m_maxChunks c = m_maxChunks (m_unparsedBuffer (sp t)) /\
    parseBySize buf t =
      if k =? left then
        match parse (delivered SIZE_MAX (with_unparsed c t)) with
        | (Ret st, t2) => (Ret (Some k), after_parse st t2)
        | (Exc e, t2) => (Exc e, t2)
        end
      else (Ret (Some k), with_unparsed c t).
Proof.
  intros Hok Hne. cbn zeta. pose proof (zlen_pos buf Hne).
  pose proof (appendToUnparsedBuffer_spec m t buf Hok) as Ha. cbn zeta in Ha.
  replace (0 <? zlen buf) with true in Ha by lia. rewrite andb_true_r in Ha.
  destruct (m - zlen (buf_view t) =? 0) eqn:Eg; zbool.
  { unfold parseBySize. replace (zlen buf =? 0) with false by lia. unfold bind. by rewrite Ha. }
  destruct Ha as (c & Ha & Hokc & Hv & Hch). exists c. split; [done|]. split; [done|]. split; [done|].
  unfold parseBySize. replace (zlen buf =? 0) with false by lia. unfold bind at 1. rewrite Ha.
  unfold bind at 1, unparsed, gets. rewrite with_unparsed_buf, (buffer_left m c Hokc), Hv, zlen_app, zlen_ztake.
  pose proof Hok as (_ & _ & _ & Hr & _ & Hvm). fold (buf_view t) in Hvm.
  set (k := Z.min (zlen buf) (m - zlen (buf_view t))) in *.
  replace (m - (zlen (buf_view t) + Z.max 0 (Z.min k (zlen buf))) =? 0)
    with (k =? m - zlen (buf_view t)) by (destruct (Z.eqb_spec k (m - zlen (buf_view t))); lia).
  case_cond; [|done]. rewrite deliver_run. by destruct (parse _) as [[?|?] ?].
Qed.

(** ** Direct delivery *)

(** The object after a direct delivery of [n] bytes. *)
Definition after_direct (r : ParseStatus) (n : Z) t : T :=
  let c := cleared (m_unparsedBuffer (sp t)) in
  with_unparsed (setMaxSize (getMaxSize c - n) c) (sp_set (setParseStatus r (sp t)) t).

Lemma appendToUnparsedBuffer_blank m t buf :
  blank m (m_unparsedBuffer (sp t)) -> buf <> [] ->
  let k := Z.min (zlen buf) m in
  k <= m_maxChunks (m_unparsedBuffer (sp t)) ->
  if m =? 0 then appendToUnparsedBuffer buf t = (Ret None, t)
  else exists c, appendToUnparsedBuffer buf t = (Ret (Some k), with_unparsed c t) /\
    ck_open c /\ ck_indexed c /\ ck_view c = ztake k buf /\
    m_maxChunks c = m_maxChunks (m_unparsedBuffer (sp t)) /\ m_maxSize (ck_base c) = m.
Proof.
  intros Hb Hne. cbn zeta. intros Hch. pose proof (zlen_pos buf Hne). pose proof Hb as (Ho & Hvec & Hm & Hr).
  destruct (blank_indexed m _ Hb) as [_ Hview]. set (u := m_unparsedBuffer (sp t)) in *.
  assert (Hleft : getSizeLeft u = m).
  { unfold getSizeLeft. cbn [v_size b_get B_Chunks_container]. rewrite size_ck, Hview, Hm by apply Ho.
    change (zlen (@nil ascii)) with 0. rewrite Z.sub_0_r. replace (0 >? m) with false by lia. by apply u64_small, size_arith. }
  destruct (m =? 0) eqn:Em; unfold appendToUnparsedBuffer, unparsed, gets; unfold bind at 1; fold u;
    rewrite Hleft, Em; zbool; [by replace (0 <? zlen buf) with true by lia|]. cbn [andb].
  set (k := Z.min (zlen buf) m) in *. assert (Hk : zlen (ztake k buf) = k) by (rewrite zlen_ztake; lia).
  destruct (blank_append m u (ztake k buf) Hb) as (c & Ha & Hrest);
    [intros He; rewrite He in Hk; change (zlen (@nil ascii)) with 0 in Hk; lia|lia|lia|].
  exists c. split; [|done]. replace (0 <? k) with true by lia. unfold bind at 1. rewrite on_unparsed_run.
  fold u. rewrite Ha. cbn [fst snd]. by rewrite Hk, Z.eqb_refl.
Qed.

(** A [parse()] that leaves the buffer alone. *)
Lemma parseDirect_run m t buf :
  blank m (m_unparsedBuffer (sp t)) -> buf <> [] ->
  let k := Z.min (zlen buf) m in
  k <= m_maxChunks (m_unparsedBuffer (sp t)) ->
  if m =? 0 then parseDirect buf t = (Ret None, t)
  else exists c, ck_open c /\ ck_indexed c /\ ck_view c = ztake k buf /\
    m_maxChunks c = m_maxChunks (m_unparsedBuffer (sp t)) /\ m_maxSize (ck_base c) = m /\
    match parse (delivered SIZE_MAX (with_unparsed c t)) with
    | (Ret st, t2) => m_unparsedBuffer (sp t2) = c -> parseDirect buf t = (Ret (Some k), after_direct st k t2)
    | (Exc e, t2) => parseDirect buf t = (Exc e, t2)
    end.
Proof.
  intros Hb Hne. cbn zeta. intros Hch. pose proof (zlen_pos buf Hne). pose proof Hb as (_ & _ & _ & Hr).
  pose proof (appendToUnparsedBuffer_blank m t buf Hb Hne Hch) as Ha.
  destruct (m =? 0) eqn:Em; zbool; [unfold parseDirect, bind; by rewrite Ha|]. destruct Ha as (c & Ha & Hoc & Hxc & Hvc & Hcc & Hmc).
  exists c. split; [done|]. split; [done|]. split; [done|]. split; [done|]. split; [done|].
  set (k := Z.min (zlen buf) m) in *. assert (Hk : zlen (ztake k buf) = k) by (rewrite zlen_ztake; lia).
  set (t1 := delivered SIZE_MAX (with_unparsed c t)).
  assert (Hrun : parseDirect buf t = (do! do_parse in let! c := unparsed in let curBufSize := BChunks.size c in
    do! on_unparsed clear in do! on_unparsed (reduceMaxSizeBy curBufSize) in ret (Some k)) t1)
    by (unfold parseDirect, bind at 1; by rewrite Ha).
  rewrite Hrun, do_parse_run. destruct (parse t1) as [[st|e] t2]; [|done]. intros Hc.
  unfold bind at 1, unparsed, gets. unfold bind at 1. rewrite on_unparsed_run, clear_cleared.
  cbn [fst snd]. unfold bind at 1. rewrite on_unparsed_run, with_unparsed_buf.
  rewrite sp_sp_set. change (m_unparsedBuffer (setParseStatus st (sp t2))) with (m_unparsedBuffer (sp t2)).
  rewrite Hc, size_ck, Hvc, Hk by apply Hoc. unfold reduceMaxSizeBy.
  change (getMaxSize (cleared c)) with (m_maxSize (ck_base c)). rewrite Hmc.
  replace (k >? m) with false by lia. cbn [fst snd]. rewrite u64_small by (apply size_arith; lia).
  unfold ret, after_direct, with_unparsed. rewrite Hc, !sp_sp_set, !sp_set_set.
  change (getMaxSize (cleared c)) with (m_maxSize (ck_base c)). rewrite Hmc.
  done.
Qed.

Lemma after_direct_blank m st k t c :
  m_unparsedBuffer (sp t) = c -> ck_open c -> m_maxSize (ck_base c) = m -> 0 <= k <= m -> m <= SSIZE_MAX ->
  blank (m - k) (m_unparsedBuffer (sp (after_direct st k t))) /\
  m_maxChunks (m_unparsedBuffer (sp (after_direct st k t))) = m_maxChunks c.
Proof.
  intros <- ([_ _] & Hro & Hmem & Hp) Hm Hk Hr. unfold after_direct. rewrite with_unparsed_buf.
  change (getMaxSize (cleared ?c)) with (m_maxSize (ck_base c)). rewrite Hm. split; [|done].
  apply (blank_set m); [|lia]. apply cleared_blank; [done|done|done|done|lia].
Qed.

(** ** The end of the buffer that may begin a delimiter *)

Section Common.
Context (uninitialised : Z -> bytes).

Lemma last_bytes_read m c v :
  buffer_ok m c -> 0 < v <= zlen (ck_view c) ->
  BRef.size (referenceLastBytes v c) = v /\
  copyOut (referenceLastBytes v c) v 0 = Some (zdrop (zlen (ck_view c) - v) (ck_view c)).
Proof.
  intros Hok Hv. pose proof (buffer_data m c Hok) as Hwf. pose proof Hwf as (_ & _ & _ & Hmax).
  pose proof Hok as (_ & Hx & _). set (n := zlen (ck_view c)) in *.
  unfold referenceLastBytes. rewrite (size_ck c Hwf). fold n. rewrite u64_small by (apply size_arith; lia).
  unfold reference. cbn [v_size B_Chunks_container]. rewrite (size_ck c Hwf). fold n.
  replace (n - v >? n) with false by lia. cbn [snd]. set (r := at_container _ c).
  assert (Hr : ref_wf r).
  { exists c. split; [done|]. split; [exact Hwf|]. change (b_view c) with (ck_view c). simpl.
    fold n. split; [lia|]. unfold is_size, SIZE_MAX. lia. }
  assert (Hs : BRef.size r = v).
  { destruct Hr as (c' & [= <-] & _ & Ho & Hm'). rewrite (ref_size r c); [|done|exact Hwf|exact Ho|exact Hm'].
    change (b_view c) with (ck_view c). simpl. fold n. unfold SIZE_MAX, SSIZE_MAX in *. lia. }
  split; [done|]. unfold copyOut. cbn [v_size v_copyToBuffer2 B_Ref_container]. rewrite Hs.
  replace (v =? SIZE_MAX) with false by (unfold SIZE_MAX, SSIZE_MAX in *; lia). cbn [andb].
  rewrite overflow_sum_false by (unfold SIZE_MAX, SSIZE_MAX in *; lia).
  replace (v =? 0) with false by lia. rewrite Z.add_0_l, u64_small by (apply size_arith; lia).
  rewrite Z.gtb_ltb, Z.ltb_irrefl.
  rewrite (ref_copyToBuffer2 r c); [|done|exact Hx|exact Hr|lia|lia|lia]. f_equal.
  unfold ref_view. simpl. change (mkRef _ _) with r. rewrite Hs. change (b_view c) with (ck_view c).
  rewrite slice_0, ztake_ge; [|unfold slice; rewrite zlen_ztake, zlen_zdrop; fold n; lia].
  unfold slice. apply ztake_ge. rewrite zlen_zdrop. fold n. lia.
Qed.

(** The last [v] bytes of [l] are the first of [boundary]. *)
Definition common_end (l boundary : bytes) (v : Z) : Prop :=
  zdrop (zlen l - v) l = ztake v boundary.

Lemma common_loop_spec m c boundary v :
  buffer_ok m c -> Z.of_nat v <= zlen (ck_view c) -> Z.of_nat v <= zlen boundary ->
  let r := common_loop uninitialised v boundary c in
  0 <= r <= Z.of_nat v /\ common_end (ck_view c) boundary r /\
  forall w, r < w <= Z.of_nat v -> ~ common_end (ck_view c) boundary w.
Proof.
  intros Hok. induction v as [|v IH]; intros Hv Hb; cbn zeta.
  { cbn [common_loop]. unfold common_end. rewrite ztake_le0, zdrop_ge by lia. split; [lia|].
    split; [done|]. lia. }
  cbn [common_loop]. destruct (last_bytes_read m c (Z.of_nat (S v)) Hok) as [-> ->]; [lia|].
  rewrite (ztake_ge _ (zdrop _ _)) by (rewrite zlen_zdrop; lia).
  assert (Hlen : length (zdrop (zlen (ck_view c) - Z.of_nat (S v)) (ck_view c)) = length (ztake (Z.of_nat (S v)) boundary)).
  { apply zlen_eq_length. rewrite zlen_zdrop, zlen_ztake. lia. }
  pose proof (memcmp_0 _ _ Hlen) as Hcmp. case_cond; zbool.
  - split; [lia|]. split; [by apply Hcmp|]. lia.
  - destruct IH as (Hr & Hc & Hmax); [lia|lia|]. split; [lia|]. split; [done|]. intros w Hw.
    destruct (decide (w = Z.of_nat (S v))) as [->|]; [|apply Hmax; lia].
    unfold common_end. rewrite <- Hcmp. lia.
Qed.

Lemma getLastBytesInCommon_spec m c boundary :
  buffer_ok m c -> boundary <> [] -> zlen boundary <= SSIZE_MAX ->
  let r := getLastBytesInCommon uninitialised boundary c in
  0 <= r < zlen boundary /\ r <= zlen (ck_view c) /\ common_end (ck_view c) boundary r /\
  forall w, r < w < zlen boundary -> w <= zlen (ck_view c) -> ~ common_end (ck_view c) boundary w.
Proof.
  intros Hok Hne Hl. pose proof (zlen_pos boundary Hne). pose proof (zlen_nonneg (ck_view c)).
  cbn zeta. unfold getLastBytesInCommon. rewrite (size_ck c (buffer_data m c Hok)).
  rewrite u64_small by (apply size_arith; lia).
  destruct (common_loop_spec m c boundary (Z.to_nat (Z.min (zlen (ck_view c)) (zlen boundary - 1))) Hok)
    as (Hr & Hc & Hmax); [lia|lia|].
  split; [lia|]. split; [lia|]. split; [done|]. intros w Hw Hwv. apply Hmax. lia.
Qed.
End Common.

(** ** Properties *)

Lemma no_occurrence_later d v w p :
  ~ (exists q, occurs d v q) -> occurs d (v ++ w) p -> zlen v < p + zlen d.
Proof.
  intros Hno (Hp & Hl & Hs). destruct (Z.lt_ge_cases (zlen v) (p + zlen d)) as [|Hle]; [done|].
  exfalso. apply Hno. exists p. pose proof (zlen_nonneg d). split; [done|]. split; [lia|].
  rewrite <- Hs at 2. unfold slice. rewrite zdrop_app_le by lia.
  by rewrite ztake_app_le by (rewrite zlen_zdrop; lia).
Qed.

(** Parsing by delimiter. A write to a full buffer fails and changes
    nothing. Otherwise what fits is appended; if the delimiter then occurs,
    [parse()] is given exactly the bytes before its first occurrence, however
    they arrived, the buffer is emptied, and the write consumes the input up
    to and including the delimiter, even when it straddles two writes; if it
    does not occur, all that was taken waits for more. *)
Theorem parseByDelimiter_delivers m t buf :
  buffer_ok m (m_unparsedBuffer (sp t)) -> m_streamEnded (sp t) = false ->
  m_parseDelimiter (sp t) <> [] -> zlen (m_parseDelimiter (sp t)) <= SSIZE_MAX ->
  ~ (exists q, occurs (m_parseDelimiter (sp t)) (buf_view t) q) ->
  let d := m_parseDelimiter (sp t) in
  let left := m - zlen (buf_view t) in
  let k := Z.min (zlen buf) left in
  let v := buf_view t ++ ztake k buf in
  if (left =? 0) && (0 <? zlen buf) then parseByDelimiter buf t = (Ret None, t)
  else
    (exists t1 pos, first_occurrence d v 0 (Some pos) /\
      toStringEx (getParsedBuffer (sp t1)) = ztake pos v /\
      0 < pos + zlen d - zlen (buf_view t) <= k /\
      match parse t1 with
      | (Ret st, t2) => parseByDelimiter buf t = (Ret (Some (u64 (u64 (pos - zlen (buf_view t)) +
          zlen (m_parseDelimiter (sp (after_parse st t2)))))), after_parse st t2)
      | (Exc e, t2) => parseByDelimiter buf t = (Exc e, t2)
      end) \/
    (exists t1, first_occurrence d v 0 None /\ buf_view t1 = v /\
      buffer_ok m (m_unparsedBuffer (sp t1)) /\ parseByDelimiter buf t = (Ret (Some k), t1)).
Proof.
  intros Hok He Hd Hdl Hno. cbn zeta. pose proof (parseByDelimiter_run m t buf Hok Hd Hdl) as Hrun.
  cbn zeta in Hrun. destruct (_ && _); [done|]. destruct Hrun as (c & r & Hokc & Hv & _ & Hf & ->).
  rewrite Hv in Hf. assert (Hend : m_streamEnded (sp (appended c t)) = m_streamEnded (sp t)).
  { unfold appended, delivered, with_unparsed. by rewrite !sp_sp_set. }
  pose proof (zlen_nonneg buf) as Hzb. pose proof Hok as (_ & _ & _ & Hr & _ & Hvm). fold (buf_view t) in Hvm.
  unfold delimiter_outcome. destruct r as [pos|].
  - left. exists (delivered pos (appended c t)), pos. split; [done|]. pose proof Hf as (_ & Ho & _).
    pose proof (no_occurrence_later _ _ _ _ Hno Ho). destruct Ho as (Hp & Hl & _).
    rewrite zlen_app, zlen_ztake in Hl. pose proof (zlen_nonneg (m_parseDelimiter (sp t))).
    split; [|split; [lia|by destruct (parse _) as [[?|?] ?]]].
    rewrite (delivered_prefix m); [|by rewrite appended_buf|]; unfold buf_view; rewrite appended_buf, Hv.
    + done.
    + rewrite zlen_app, zlen_ztake. unfold buf_view in *. lia.
  - right. rewrite Hend, He. exists (appended c t). split; [done|]. unfold buf_view at 1.
    rewrite appended_buf. done.
Qed.

(** Parsing by size. Each write takes what is missing to the target at
    most and says so; [parse()] is called on the write that completes the
    target, and then with exactly the [m] bytes collected. *)
Theorem parseBySize_collects m t buf :
  buffer_ok m (m_unparsedBuffer (sp t)) -> buf <> [] -> zlen (buf_view t) < m ->
  let k := Z.min (zlen buf) (m - zlen (buf_view t)) in
  let v := buf_view t ++ ztake k buf in
  if zlen v =? m then
    exists t1, toStringEx (getParsedBuffer (sp t1)) = v /\
      match parse t1 with
      | (Ret st, t2) => parseBySize buf t = (Ret (Some k), after_parse st t2)
      | (Exc e, t2) => parseBySize buf t = (Exc e, t2)
      end
  else exists t1, buf_view t1 = v /\ buffer_ok m (m_unparsedBuffer (sp t1)) /\
    parseBySize buf t = (Ret (Some k), t1).
Proof.
  intros Hok Hne Hlt. cbn zeta. pose proof (parseBySize_run m t buf Hok Hne) as Hrun. cbn zeta in Hrun.
  replace (m - zlen (buf_view t) =? 0) with false in Hrun by lia.
  destruct Hrun as (c & Hokc & Hv & _ & ->). pose proof (zlen_nonneg buf).
  set (k := Z.min (zlen buf) (m - zlen (buf_view t))) in *.
  rewrite zlen_app, zlen_ztake.
  replace (zlen (buf_view t) + Z.max 0 (Z.min k (zlen buf)) =? m) with (k =? m - zlen (buf_view t))
    by (destruct (Z.eqb_spec k (m - zlen (buf_view t))); lia).
  case_cond; zbool.
  - exists (delivered SIZE_MAX (with_unparsed c t)).
    rewrite (delivered_whole m) by (by rewrite with_unparsed_buf).
    unfold buf_view at 1. rewrite with_unparsed_buf. split; [done|]. by destruct (parse _) as [[?|?] ?].
  - exists (with_unparsed c t). unfold buf_view at 1. by rewrite with_unparsed_buf.
Qed.

(** Parsing directly. Every write with data is delivered at once: what
    fits the limit is given to [parse()], the buffer is empty again, and the
    limit drops by what was delivered; at limit 0 the write fails and changes
    nothing. *)
Theorem parseDirect_delivers m t buf :
  blank m (m_unparsedBuffer (sp t)) -> buf <> [] ->
  Z.min (zlen buf) m <= m_maxChunks (m_unparsedBuffer (sp t)) ->
  let k := Z.min (zlen buf) m in
  if m =? 0 then parseDirect buf t = (Ret None, t)
  else exists t1, toStringEx (getParsedBuffer (sp t1)) = ztake k buf /\
    match parse t1 with
    | (Ret st, t2) => m_unparsedBuffer (sp t2) = m_unparsedBuffer (sp t1) ->
        exists t3, parseDirect buf t = (Ret (Some k), t3) /\ blank (m - k) (m_unparsedBuffer (sp t3)) /\
          m_parseStatus (sp t3) = st
    | (Exc e, t2) => parseDirect buf t = (Exc e, t2)
    end.
Proof.
  intros Hb Hne Hch. cbn zeta. pose proof (parseDirect_run m t buf Hb Hne Hch) as Hrun. cbn zeta in Hrun.
  destruct (m =? 0) eqn:Em; [done|]. zbool. destruct Hrun as (c & Ho & Hx & Hv & Hc & Hm & Hrun).
  pose proof Hb as (_ & _ & _ & Hr). pose proof (zlen_nonneg buf).
  assert (Hbuf : m_unparsedBuffer (sp (delivered SIZE_MAX (with_unparsed c t))) = c)
    by (unfold delivered; rewrite sp_sp_set; exact (with_unparsed_buf c t)).
  exists (delivered SIZE_MAX (with_unparsed c t)). split.
  - unfold delivered. rewrite sp_sp_set. destruct (sp_reference_whole (sp (with_unparsed c t))) as [_ ->];
      rewrite with_unparsed_buf; [apply Ho|done..].
  - rewrite Hbuf. destruct (parse _) as [[st|e] t2]; [|done]. intros He. rewrite (Hrun He).
    exists (after_direct st (Z.min (zlen buf) m) t2). split; [done|].
    destruct (after_direct_blank m st (Z.min (zlen buf) m) t2 c He Ho Hm) as [Hbl _]; [lia..|].
    split; [exact Hbl|]. unfold after_direct, with_unparsed. by rewrite !sp_sp_set.
Qed.
End Modes.

(** While the offsets of the buffer are exact, [getLastBytesInCommon] is
    the length of the longest end of the buffer that is a proper beginning of
    the delimiter: what must wait for the next write, and nothing more. *)
Theorem getLastBytesInCommon_longest {M} `{BBase M, MmapFactory M} (uninitialised : Z -> bytes)
    m (c : B_Chunks M) boundary :
  buffer_ok m c -> boundary <> [] -> zlen boundary <= SSIZE_MAX ->
  let r := getLastBytesInCommon uninitialised boundary c in
  0 <= r < zlen boundary /\ r <= zlen (ck_view c) /\
  zdrop (zlen (ck_view c) - r) (ck_view c) = ztake r boundary /\
  forall w, r < w < zlen boundary -> w <= zlen (ck_view c) ->
    zdrop (zlen (ck_view c) - w) (ck_view c) <> ztake w boundary.
Proof. apply getLastBytesInCommon_spec. Qed.

(** ** Witnesses *)

(** A derived class that keeps what it is given to parse. *)
Record Collector : Type := mkCollector { co_sp : SubParser B_MEM; co_seen : list bytes }.

#[export] Instance no_mapped_files : MmapFactory B_MEM := { new_mmap _ := None }.

#[export] Instance Collector_impl : SubParserImpl B_MEM Collector := {
  sp := co_sp;
  sp_set s t := mkCollector s (co_seen t);
  parse t := (Ret PARSE_GOTO_NEXT_SUBPARSER,
              mkCollector (co_sp t) (co_seen t ++ [toStringEx (getParsedBuffer (co_sp t))]))
}.

#[export] Instance Collector_laws : SubParserLaws B_MEM Collector.
Proof. split; [done|done|by intros []]. Qed.

Definition collector (target : Z) : Collector := mkCollector (setParseDataTargetSize target SubParser_new) [].

Lemma parseByDelimiter_delivers_witness :
  let input := str "GET /" ++ map chr [13; 10] ++ str "Host" in
  co_seen (snd (parseByDelimiter input (collector 1000))) = [str "GET /"] /\
  ((exists t1 pos, toStringEx (getParsedBuffer (sp (t1 : Collector))) = ztake pos (ztake 11 input)) \/
   (exists t1, buf_view (t1 : Collector) = ztake 11 input)).
Proof.
  cbn zeta. split; [vm_compute; reflexivity|].
  pose proof (parseByDelimiter_delivers 1000 (collector 1000) (str "GET /" ++ map chr [13; 10] ++ str "Host")) as Hd.
  assert (Hok : buffer_ok 1000 (m_unparsedBuffer (sp (collector 1000))))
    by (apply buffer_check_ok; vm_compute; reflexivity).
  assert (Hlen : zlen (m_parseDelimiter (sp (collector 1000))) = 2) by (vm_compute; reflexivity).
  assert (Hbuf : zlen (buf_view (collector 1000)) = 0) by (vm_compute; reflexivity).
  assert (Hno : ~ (exists q, occurs (m_parseDelimiter (sp (collector 1000))) (buf_view (collector 1000)) q)).
  { intros (q & Hq & Hl & _). rewrite Hlen, Hbuf in Hl. lia. }
  specialize (Hd Hok ltac:(reflexivity) ltac:(discriminate) ltac:(rewrite Hlen; vm_compute; discriminate) Hno).
  cbn zeta in Hd. rewrite Hbuf in Hd. destruct Hd as [(t1 & pos & _ & Hv & _)|(t1 & _ & Hv & _)].
  - left. exists t1, pos. exact Hv.
  - right. exists t1. exact Hv.
Defined.

Lemma parseBySize_collects_witness :
  exists t1, toStringEx (getParsedBuffer (sp t1)) = str "abcd" /\
    parseBySize (str "abcdef") (collector 4) =
    match parse t1 with
    | (Ret st, t2) => (Ret (Some 4), after_parse st t2)
    | (Exc e, t2) => (Exc e, t2)
    end.
Proof.
  assert (Hok : buffer_ok 4 (m_unparsedBuffer (sp (collector 4))))
    by (apply buffer_check_ok; vm_compute; reflexivity).
  destruct (parseBySize_collects 4 (collector 4) (str "abcdef") Hok ltac:(discriminate)
    ltac:(vm_compute; reflexivity)) as (t1 & Hv & Hp).
  exists t1. split; [exact Hv|]. destruct (parse t1) as [[?|?] ?]; exact Hp.
Defined.

Lemma blank_new target :
  0 <= target <= SSIZE_MAX -> blank target (m_unparsedBuffer (sp (collector target))).
Proof.
  intros Ht. split; [|done]. split; [|done]. split; [done|]. split; [constructor|]. by split; vm_compute.
Qed.

Lemma parseDirect_delivers_witness :
  exists t1 t3, toStringEx (getParsedBuffer (sp (t1 : Collector))) = str "abcd" /\
    parseDirect (str "abcdef") (collector 4) = (Ret (Some 4), t3) /\
    blank 0 (m_unparsedBuffer (sp (t3 : Collector))).
Proof.
  pose proof (parseDirect_delivers 4 (collector 4) (str "abcdef") (blank_new 4 ltac:(split; vm_compute; discriminate))
    ltac:(discriminate) ltac:(vm_compute; discriminate)) as Hd.
  change (exists t1, toStringEx (getParsedBuffer (sp t1)) = str "abcd" /\
    match parse t1 with
    | (Ret st, t2) => m_unparsedBuffer (sp t2) = m_unparsedBuffer (sp t1) ->
        exists t3, parseDirect (str "abcdef") (collector 4) = (Ret (Some 4), t3) /\
          blank 0 (m_unparsedBuffer (sp t3)) /\ m_parseStatus (sp t3) = st
    | (Exc e, t2) => parseDirect (str "abcdef") (collector 4) = (Exc e, t2)
    end) in Hd.
  destruct Hd as (t1 & Hv & Hp). destruct (Hp eq_refl) as (t3 & Hr & Hb & _). exists t1, t3. done.
Defined.

Lemma getLastBytesInCommon_longest_witness :
  let c := m_unparsedBuffer (sp (snd (parseByDelimiter (str "body--bo") (collector 100)))) in
  getLastBytesInCommon (fun _ => []) (str "--boundary") c = 4 /\
  getLastBytesInCommon (fun _ => []) (str "--boundary") c < zlen (str "--boundary").
Proof.
  cbn zeta. split; [vm_compute; reflexivity|].
  apply (getLastBytesInCommon_longest (fun _ => []) 100).
  - apply buffer_check_ok. vm_compute. reflexivity.
  - discriminate.
  - vm_compute. discriminate.
Defined.
