(* ===== verification/MultiDelim.v ===== *)
(** * Elements ended by one of several characters

    What [parseByMultiDelimiter] of SubParser.v does when every delimiter is a
    single character: nothing yet, an element ended by the first delimiter of
    the list, or the last element of an ended stream. Used by the protocols
    whose elements end so (LineRecv.v, UrlVars.v). *)

From S2P Require Import Prelude Mem SafeInt StreamableObject BBase BChunk BChunks BChunksFacts BChunksSpec BRef SubParser SubParserSpec.

Lemma has_char_in v q c : has_char v q c -> c ∈ v.
Proof. apply list_elem_of_lookup_2. Qed.

Lemma first_byte e a b : e ∉ a -> first_occurrence [e] (a ++ e :: b) 0 (Some (zlen a)).
Proof.
  intros Ha. pose proof (zlen_nonneg a). split; [done|]. split.
  - split; [done|]. change (zlen [e]) with 1. rewrite zlen_app, zlen_cons. pose proof (zlen_nonneg b).
    split; [lia|]. unfold slice. rewrite zdrop_length_app.
    change 1 with (0 + 1). rewrite ztake_succ, ztake_le0 by lia. done.
  - intros q Hq Ho%occurs_has_char. rewrite has_char_app in Ho by lia.
    rewrite decide_True in Ho by lia. by apply has_char_in in Ho.
Qed.

Lemma no_needle c v : c ∉ v -> first_occurrence [c] v 0 None.
Proof. intros Hc q _ Ho%occurs_has_char%has_char_in. done. Qed.

Lemma first_occurrence_unique d v off r1 r2 :
  first_occurrence d v off r1 -> first_occurrence d v off r2 -> r1 = r2.
Proof.
  destruct r1 as [p1|], r2 as [p2|]; simpl; [| | |done].
  2:{ intros (Ho1 & Hocc1 & _) Hn. by destruct (Hn p1). }
  2:{ intros Hn (Ho2 & Hocc2 & _). by destruct (Hn p2). }
  intros (Ho1 & Hocc1 & Hm1) (Ho2 & Hocc2 & Hm2). f_equal. destruct (Z.lt_trichotomy p1 p2) as [?|[?|?]]; [|done|].
  - exfalso. apply (Hm2 p1); [lia|done].
  - exfalso. apply (Hm1 p2); [lia|done].
Qed.

Lemma first_needle_head d ds v r p :
  first_needle (d :: ds) v r -> first_occurrence d v 0 (Some p) -> r = Some (p, d).
Proof.
  intros [(p' & -> & Hf)|[Hf _]] Hp; pose proof (first_occurrence_unique _ _ _ _ _ Hf Hp) as He.
  - by injection He as ->.
  - done.
Qed.

Lemma first_needle_none es v r :
  first_needle (map (fun e => [e]) es) v r -> Forall (fun e => e ∉ v) es -> r = None.
Proof.
  intros Hn Hes. induction Hes as [|e es He _ IH]; [done|].
  destruct Hn as [(p & -> & Hf)|[_ Hn]]; [|by apply IH].
  by pose proof (first_occurrence_unique _ _ _ _ _ Hf (no_needle e v He)).
Qed.

(** The list of characters at the start, up to the first delimiter. *)
Lemma split_at_char e (t : bytes) : e ∈ t -> exists l r, t = l ++ e :: r /\ e ∉ l.
Proof.
  induction t as [|c t IH]; intros Hin; [by apply elem_of_nil in Hin|].
  destruct (decide (c = e)) as [->|Hc]; [exists [], t; split; [done|apply not_elem_of_nil]|].
  apply elem_of_cons in Hin as [Heq|Hin]; [congruence|]. destruct (IH Hin) as (l & r & -> & Hl).
  exists (c :: l), r. split; [done|]. by apply not_elem_of_cons; split.
Qed.

Section MultiDelim.
Context {M : Type} `{BBase M, MmapFactory M} {T : Type} `{SubParserLaws M T}.
Implicit Types t : T.

(** The object after a search that found [d]. *)
Definition searched (d : bytes) (c : B_Chunks M) t : T :=
  sp_set (set_delimiterFound d (sp (appended c t))) (appended c t).

Lemma sp_searched d c t :
  sp (searched d c t) = set_delimiterFound d (sp_reference 0 SIZE_MAX (set_unparsedBuffer c (sp t))).
Proof. unfold searched, appended, delivered, with_unparsed. by rewrite !sp_sp_set. Qed.

Lemma searched_buf d c t : m_unparsedBuffer (sp (searched d c t)) = c.
Proof. by rewrite sp_searched. Qed.

Lemma needles_single es : Forall (fun d => d <> [] /\ zlen d <= SSIZE_MAX) (map (fun e : ascii => [e]) es).
Proof. induction es; constructor; [split; [done|vm_compute; discriminate]|done]. Qed.

Lemma multi_none m t es buf :
  buffer_ok m (m_unparsedBuffer (sp t)) -> m_parseMultiDelimiter (sp t) = map (fun e => [e]) es ->
  m_streamEnded (sp t) = false -> zlen (buf_view t) < m -> Forall (fun e => e ∉ buf_view t ++ buf) es ->
  let k := Z.min (zlen buf) (m - zlen (buf_view t)) in
  exists c, buffer_ok m c /\ ck_view c = buf_view t ++ ztake k buf /\
    parseByMultiDelimiter buf t = (Ret (Some k), searched [] c t).
Proof.
  intros Hok Hmd He Hfit Hno. cbn zeta. pose proof (zlen_nonneg buf).
  pose proof (parseByMultiDelimiter_run m t buf Hok) as Hrun. rewrite Hmd in Hrun.
  specialize (Hrun (needles_single es)). cbn zeta in Hrun.
  replace ((m - zlen (buf_view t) =? 0) && (0 <? zlen buf)) with false in Hrun by lia.
  destruct Hrun as (c & r & Hokc & Hvc & Hf & ->). exists c. split; [done|]. split; [done|].
  apply first_needle_none in Hf as ->.
  2:{ eapply Forall_impl; [exact Hno|]. intros e Hn Hin. apply Hn. rewrite Hvc in Hin.
      apply elem_of_app in Hin as [?|Hin]; apply elem_of_app; [by left|right].
      rewrite <- (ztake_zdrop (Z.min (zlen buf) (m - zlen (buf_view t))) buf). apply elem_of_app. by left. }
  unfold delimiter_outcome. cbn [option_map default from_option id]. fold (searched [] c t).
  rewrite sp_searched. change (m_streamEnded _) with (m_streamEnded (sp t)) at 1. by rewrite He.
Qed.

(** [parse()] is given the first [n] bytes of the buffer, [buf]. *)
Definition given (n : Z) (d buf : bytes) (c : B_Chunks M) t t1 : Prop :=
  t1 = delivered n (searched d c t) /\ ref_first (getParsedBuffer (sp t1)) /\
  toStringEx (getParsedBuffer (sp t1)) = buf /\ b_view (getParsedBuffer (sp t1)) = buf.

Lemma given_view n d buf c t :
  ck_data_wf c -> ck_indexed c -> let t1 := delivered n (searched d c t) in
  ref_first (getParsedBuffer (sp t1)) -> toStringEx (getParsedBuffer (sp t1)) = buf ->
  given n d buf c t t1.
Proof.
  intros Hwf Hx t1 Hf Hs. split; [done|]. split; [done|]. split; [done|]. rewrite <- Hs. unfold getParsedBuffer.
  assert (Hb : m_unparsedBuffer (sp t1) = c) by (unfold t1, delivered; rewrite sp_sp_set; apply searched_buf).
  rewrite ref_toStringEx; rewrite ?Hb; [done|done|done|]. unfold getParsedBuffer in Hf. by rewrite Hb in Hf.
Qed.

Lemma multi_found m t e ds l r :
  buffer_ok m (m_unparsedBuffer (sp t)) -> m_parseMultiDelimiter (sp t) = [e] :: ds ->
  Forall (fun d => d <> [] /\ zlen d <= SSIZE_MAX) ds ->
  e ∉ buf_view t ++ l -> zlen (buf_view t) + zlen l + 1 <= m ->
  exists c t1, buffer_ok m c /\ given (zlen (buf_view t ++ l)) [e] (buf_view t ++ l) c t t1 /\
    parseByMultiDelimiter (l ++ e :: r) t =
    match parse t1 with
    | (Ret st, t2) => (Ret (Some (zlen l + 1)), after_parse st t2)
    | (Exc x, t2) => (Exc x, t2)
    end.
Proof.
  intros Hok Hmd Hds Hno Hfit. pose proof (zlen_nonneg (buf_view t)). pose proof (zlen_nonneg l).
  pose proof (zlen_nonneg r). set (buf := l ++ e :: r).
  assert (Hzb : zlen buf = zlen l + 1 + zlen r) by (unfold buf; rewrite zlen_app, zlen_cons; lia).
  pose proof (parseByMultiDelimiter_run m t buf Hok) as Hrun. rewrite Hmd in Hrun.
  specialize (Hrun ltac:(constructor; [split; [done|vm_compute; discriminate]|done])). cbn zeta in Hrun.
  replace ((m - zlen (buf_view t) =? 0) && (0 <? zlen buf)) with false in Hrun by lia.
  destruct Hrun as (c & f & Hokc & Hvc & Hf & ->). set (k := Z.min (zlen buf) (m - zlen (buf_view t))) in *.
  assert (Hview : exists w, ck_view c = (buf_view t ++ l) ++ e :: w).
  { exists (ztake (k - zlen l - 1) r). rewrite Hvc, <- app_assoc. f_equal. unfold buf.
    rewrite ztake_app_ge by lia. f_equal. rewrite <- (ztake_succ e r) by lia. f_equal. lia. }
  destruct Hview as [w Hw].
  assert (Hfirst : first_occurrence [e] (ck_view c) 0 (Some (zlen (buf_view t ++ l)))) by (rewrite Hw; by apply first_byte).
  rewrite (first_needle_head _ _ _ _ _ Hf Hfirst). cbn [option_map fst snd default from_option id delimiter_outcome].
  fold (searched [e] c t). set (n := zlen (buf_view t ++ l)) in *.
  assert (Hpos : 0 <= n <= zlen (ck_view c)).
  { pose proof (zlen_nonneg (e :: w)). rewrite Hw, (zlen_app (buf_view t ++ l)). fold n. split; [apply zlen_nonneg|lia]. }
  destruct (sp_reference_view m (sp (searched [e] c t)) n) as [Hfst Hstr]; [by rewrite searched_buf|by rewrite searched_buf|].
  exists c, (delivered n (searched [e] c t)). split; [done|]. split.
  - destruct Hokc as ((Hwf & _) & Hx & _). apply given_view; [done|done|unfold delivered; by rewrite sp_sp_set|].
    unfold delivered. rewrite sp_sp_set, Hstr, searched_buf, Hw. apply ztake_length_app.
  - destruct (parse _) as [[st|x] t2]; [|done]. do 3 f_equal.
    change (zlen [e]) with 1. unfold n. rewrite zlen_app. destruct Hok as (_ & _ & _ & Hr & _ & _).
    rewrite (u64_small (zlen (buf_view t) + zlen l + 1)) by (apply size_arith; lia).
    replace (zlen (buf_view t) + zlen l + 1 - zlen (buf_view t)) with (zlen l + 1) by lia.
    apply u64_small, size_arith. lia.
Qed.

(** The end of the stream: what the buffer holds is an element. *)
Lemma multi_end m t es :
  buffer_ok m (m_unparsedBuffer (sp t)) -> m_parseMultiDelimiter (sp t) = map (fun e => [e]) es ->
  m_streamEnded (sp t) = true -> Forall (fun e => e ∉ buf_view t) es ->
  exists c t1, buffer_ok m c /\ ck_view c = buf_view t /\ given SIZE_MAX [] (buf_view t) c t t1 /\
    parseByMultiDelimiter [] t =
    match parse t1 with
    | (Ret st, t2) => (Ret (Some 0), after_parse st t2)
    | (Exc x, t2) => (Exc x, t2)
    end.
Proof.
  intros Hok Hmd He Hno. pose proof (parseByMultiDelimiter_run m t [] Hok) as Hrun. rewrite Hmd in Hrun.
  specialize (Hrun (needles_single es)). cbn zeta in Hrun. rewrite andb_false_r in Hrun.
  destruct Hrun as (c & r & Hokc & Hvc & Hf & ->).
  assert (Hv : ck_view c = buf_view t).
  { rewrite Hvc. change (zlen []) with 0. destruct Hok as (_ & _ & _ & _ & _ & Hl). fold (buf_view t) in Hl.
    rewrite Z.min_l by lia. rewrite ztake_le0 by lia. apply app_nil_r. }
  apply first_needle_none in Hf as ->; [|by rewrite Hv]. fold (searched [] c t).
  pose proof Hokc as ((Hwf & _) & Hx & _).
  destruct (sp_reference_whole (sp (searched [] c t))) as [Hfst Hstr]; [by rewrite searched_buf|by rewrite searched_buf|].
  exists c, (delivered SIZE_MAX (searched [] c t)). split; [done|]. split; [done|]. split.
  - apply given_view; [done|done|unfold delivered; by rewrite sp_sp_set|].
    unfold delivered. by rewrite sp_sp_set, Hstr, searched_buf.
  - unfold delimiter_outcome. cbn [option_map default from_option id].
    replace (m_streamEnded (sp (searched [] c t))) with true by (by rewrite sp_searched).
    destruct (parse _) as [[st|x] t2]; [|done]. do 3 f_equal. change (zlen []) with 0.
    destruct Hok as (_ & _ & _ & _ & _ & Hl). fold (buf_view t) in Hl. lia.
Qed.
End MultiDelim.
