(* ===== verification/DirectDelimiter.v ===== *)
(** * The direct-delimiter mode of SubParser

    In this mode [parse()] is given the data as it arrives, up to the
    delimiter; what may be the beginning of a delimiter is held back. The
    properties say what a write does while the offsets of the buffer are exact,
    and what happens once a displacement has spoiled them. *)

From S2P Require Import Prelude Mem SafeInt StreamableObject BBase BMem BChunk BChunks BChunksFacts BChunksSpec BRef SubParser SubParserSpec.

Section Direct.
Context {M : Type} `{BBase M, MmapFactory M} {T : Type} `{SubParserLaws M T}.
Context (uninitialised : Z -> bytes).
Implicit Types t : T.

(** The object with another delimiter found. *)
Definition with_found (d : bytes) t : T := sp_set (set_delimiterFound d (sp t)) t.

Lemma with_found_sp d t : sp (with_found d t) = set_delimiterFound d (sp t).
Proof. unfold with_found. by rewrite sp_sp_set. Qed.

(** The state [parse()] is called in when the delimiter occurs at [pos]. *)
Definition found_at (pos : Z) t : T :=
  let t1 := with_found (m_parseDelimiter (sp t)) t in
  if pos =? 0 then delivered SIZE_MAX (with_unparsed (cleared (m_unparsedBuffer (sp t1))) t1)
  else delivered pos t1.

Lemma found_at_found pos t : m_delimiterFound (sp (found_at pos t)) = m_parseDelimiter (sp t).
Proof.
  unfold found_at. case_cond; unfold delivered, with_unparsed; rewrite ?sp_sp_set, with_found_sp; done.
Qed.

Lemma found_at_parsed m pos t :
  buffer_ok m (m_unparsedBuffer (sp t)) -> 0 <= pos <= zlen (buf_view t) ->
  toStringEx (getParsedBuffer (sp (found_at pos t))) = ztake pos (buf_view t).
Proof.
  intros Hok Hp. unfold found_at. set (t1 := with_found _ t).
  assert (Hb : m_unparsedBuffer (sp t1) = m_unparsedBuffer (sp t)) by (unfold t1; by rewrite with_found_sp).
  case_cond; zbool.
  - subst pos. rewrite Hb. destruct (buffer_cleared m _ Hok) as [Hc Hv].
    rewrite (delivered_whole m) by (by rewrite with_unparsed_buf).
    unfold buf_view at 1. rewrite with_unparsed_buf, Hv. by rewrite ztake_le0 by lia.
  - rewrite (delivered_prefix m); unfold buf_view; rewrite Hb; done.
Qed.

(** The branch of the delimiter found. *)
Lemma found_run {A} pos (k : st T A) t :
  (do! upd (fun s => set_delimiterFound (m_parseDelimiter s) s) in
   do! (if pos =? 0 then do! on_unparsed clear in upd (sp_reference 0 SIZE_MAX)
        else upd (sp_reference 0 pos)) in
   do! do_parse in do! on_unparsed clear in k) t =
  match parse (found_at pos t) with
  | (Ret r, t') => k (after_parse r t')
  | (Exc e, t') => (Exc e, t')
  end.
Proof.
  unfold found_at. unfold bind at 1, upd at 1, modify at 1.
  change (sp_set (set_delimiterFound (m_parseDelimiter (sp t)) (sp t)) t)
    with (with_found (m_parseDelimiter (sp t)) t). set (t1 := with_found _ t).
  destruct (pos =? 0); [|exact (deliver_run pos k t1)].
  set (t2 := with_unparsed (cleared (m_unparsedBuffer (sp t1))) t1).
  etransitivity; [|exact (deliver_run SIZE_MAX k t2)].
  unfold bind at 1. unfold bind at 1. rewrite on_unparsed_run, clear_cleared. done.
Qed.

(** The branch of the delimiter not found, with [n] bytes that may begin one:
    a [parse()] that leaves the buffer alone is given the rest, which is then
    removed from it. *)
Definition pending_at (n : Z) t : T :=
  delivered (if n =? 0 then SIZE_MAX else u64 (BChunks.size (m_unparsedBuffer (sp t)) - n)) t.

Lemma pending_at_parsed m n t :
  buffer_ok m (m_unparsedBuffer (sp t)) -> 0 <= n <= zlen (buf_view t) ->
  toStringEx (getParsedBuffer (sp (pending_at n t))) = ztake (zlen (buf_view t) - n) (buf_view t).
Proof.
  intros Hok Hn. pose proof (buffer_data m _ Hok) as Hwf. pose proof Hwf as (_ & _ & _ & Hm).
  unfold pending_at. rewrite (size_ck _ Hwf). fold (buf_view t) in *. case_cond; zbool.
  - rewrite (delivered_whole m) by done. by rewrite ztake_ge by lia.
  - rewrite u64_small by (apply size_arith; unfold buf_view in *; lia).
    by rewrite (delivered_prefix m) by (done || lia).
Qed.

Lemma parse_run {A} x (k : st T A) t :
  (do! upd (sp_reference 0 x) in do! do_parse in k) t =
  match parse (delivered x t) with
  | (Ret r, t') => k (sp_set (setParseStatus r (sp t')) t')
  | (Exc e, t') => (Exc e, t')
  end.
Proof.
  unfold bind at 1, upd at 1, modify at 1. fold (delivered x t). unfold bind, do_parse, bind.
  by destruct (parse (delivered x t)) as [[r|e] t'].
Qed.

Lemma pending_run m (k : Z) n t :
  buffer_ok m (m_unparsedBuffer (sp t)) -> 0 <= n <= zlen (buf_view t) ->
  let run := (if n =? 0 then
      do! upd (sp_reference 0 SIZE_MAX) in do! do_parse in do! on_unparsed clear in ret (Some k)
    else
      do! upd (sp_reference 0 (u64 (BChunks.size (m_unparsedBuffer (sp t)) - n))) in
      do! do_parse in
      let! c := unparsed in
      do! on_unparsed (displace (u64 (BChunks.size c - n))) in
      ret (Some k) : st T (option Z)) t in
  match parse (pending_at n t) with
  | (Ret st, t2) => m_unparsedBuffer (sp t2) = m_unparsedBuffer (sp t) ->
      exists t3, run = (Ret (Some k), t3) /\ buf_view t3 = zdrop (zlen (buf_view t) - n) (buf_view t) /\
        ck_data_wf (m_unparsedBuffer (sp t3))
  | (Exc e, t2) => run = (Exc e, t2)
  end.
Proof.
  intros Hok Hn. pose proof (buffer_data m _ Hok) as Hwf. pose proof Hwf as (_ & _ & _ & Hm).
  cbn zeta. unfold pending_at. fold (buf_view t) in *. destruct (n =? 0) eqn:En; zbool.
  - rewrite deliver_run. destruct (parse _) as [[st|e] t2]; [|done]. intros Hb.
    exists (after_parse st t2). split; [done|]. unfold buf_view at 1, after_parse.
    rewrite with_unparsed_buf, Hb. destruct (buffer_cleared m _ Hok) as [Hc ->].
    rewrite zdrop_ge by lia. split; [done|]. exact (buffer_data m _ Hc).
  - rewrite parse_run. destruct (parse _) as [[st|e] t2]; [|done]. intros Hb.
    set (t2' := sp_set (setParseStatus st (sp t2)) t2).
    assert (Hb' : m_unparsedBuffer (sp t2') = m_unparsedBuffer (sp t))
      by (unfold t2'; rewrite sp_sp_set; exact Hb).
    unfold bind at 1, unparsed at 1, gets at 1.
    rewrite Hb', (size_ck _ Hwf). fold (buf_view t). rewrite u64_small by (apply size_arith; unfold buf_view in *; lia).
    unfold bind. rewrite on_unparsed_run, Hb'. unfold displace. cbn [v_size v_displace2 B_Chunks_container].
    rewrite (size_ck _ Hwf). fold (buf_view t). rewrite Z.min_l by lia.
    destruct (displace2_put (m_unparsedBuffer (sp t)) (zlen (buf_view t) - n) Hwf)
      as (v & -> & Hwf' & Hv' & _); [unfold buf_view in *; lia|].
    cbn [fst snd]. eexists. split; [done|]. unfold buf_view at 1. by rewrite with_unparsed_buf.
Qed.

Lemma parseDirectDelimiter_run m t buf :
  buffer_ok m (m_unparsedBuffer (sp t)) ->
  m_parseDelimiter (sp t) <> [] -> zlen (m_parseDelimiter (sp t)) <= SSIZE_MAX ->
  let left := m - zlen (buf_view t) in
  let k := Z.min (zlen buf) left in
  if (left =? 0) && (0 <? zlen buf) then parseDirectDelimiter uninitialised buf t = (Ret None, with_found [] t)
  else exists t1 r, buffer_ok m (m_unparsedBuffer (sp t1)) /\ buf_view t1 = buf_view t ++ ztake k buf /\
    m_parseDelimiter (sp t1) = m_parseDelimiter (sp t) /\
    first_occurrence (m_parseDelimiter (sp t)) (buf_view t1) 0 r /\
    match r with
    | Some pos =>
        match parse (found_at pos t1) with
        | (Ret st, t2) => parseDirectDelimiter uninitialised buf t = (Ret (Some (u64 (u64 (pos - zlen (buf_view t)) +
            zlen (m_parseDelimiter (sp (after_parse st t2)))))), after_parse st t2)
        | (Exc e, t2) => parseDirectDelimiter uninitialised buf t = (Exc e, t2)
        end
    | None =>
        let n := getLastBytesInCommon uninitialised (m_parseDelimiter (sp t)) (m_unparsedBuffer (sp t1)) in
        match parse (pending_at n t1) with
        | (Ret st, t2) => m_unparsedBuffer (sp t2) = m_unparsedBuffer (sp t1) ->
            exists t3, parseDirectDelimiter uninitialised buf t = (Ret (Some k), t3) /\
              buf_view t3 = zdrop (zlen (buf_view t1) - n) (buf_view t1) /\ ck_data_wf (m_unparsedBuffer (sp t3))
        | (Exc e, t2) => parseDirectDelimiter uninitialised buf t = (Exc e, t2)
        end
    end.
Proof.
  intros Hok Hd Hdl. cbn zeta. set (t0 := with_found [] t).
  assert (Hb : m_unparsedBuffer (sp t0) = m_unparsedBuffer (sp t)) by (unfold t0; by rewrite with_found_sp).
  assert (Hv0 : buf_view t0 = buf_view t) by (unfold buf_view; by rewrite Hb).
  pose proof (appendToUnparsedBuffer_spec m t0 buf) as Ha. rewrite Hb, Hv0 in Ha. specialize (Ha Hok).
  cbn zeta in Ha. remember (parseDirectDelimiter uninitialised buf t) as run eqn:Hrun.
  unfold parseDirectDelimiter in Hrun. unfold bind at 1, unparsed at 1, gets at 1 in Hrun.
  unfold bind at 1, upd at 1, modify at 1 in Hrun. fold (with_found [] t) in Hrun. fold t0 in Hrun.
  rewrite (size_ck _ (buffer_data m _ Hok)) in Hrun. fold (buf_view t) in Hrun. unfold bind at 1 in Hrun.
  destruct ((m - zlen (buf_view t) =? 0) && (0 <? zlen buf)); [by rewrite Ha in Hrun|].
  destruct Ha as (c & Ha & Hokc & Hv & _). set (t1 := with_unparsed c t0) in *.
  assert (Hb1 : m_unparsedBuffer (sp t1) = c) by apply with_unparsed_buf.
  assert (Hv1 : buf_view t1 = ck_view c) by (unfold buf_view; by rewrite Hb1).
  assert (Hd1 : m_parseDelimiter (sp t1) = m_parseDelimiter (sp t)).
  { unfold t1, with_unparsed. rewrite sp_sp_set. unfold t0. rewrite with_found_sp. done. }
  pose proof (zlen_nonneg (ck_view c)).
  destruct (find_first c (m_parseDelimiter (sp t)) 0) as (r & Hr & Hf);
    [exact (buffer_data m c Hokc)|done|done|split; [lia|done]|].
  exists t1, r. rewrite Hb1, Hv1. split; [done|]. split; [done|]. split; [done|]. split; [done|].
  rewrite Ha in Hrun. unfold bind at 1, gets at 1 in Hrun. rewrite Hd1, Hb1, Hr in Hrun.
  unfold bind at 1, lift_res at 1 in Hrun. destruct r as [pos|].
  - rewrite found_run in Hrun. destruct (parse _) as [[st|e] t2]; exact Hrun.
  - destruct (getLastBytesInCommon_spec uninitialised m c (m_parseDelimiter (sp t)) Hokc Hd Hdl) as (Hn0 & Hn & _).
    set (n := getLastBytesInCommon _ _ c) in *.
    pose proof (pending_run m (Z.min (zlen buf) (m - zlen (buf_view t))) n t1) as Hp.
    rewrite Hb1, Hv1 in Hp. specialize (Hp Hokc ltac:(lia)). cbn zeta in Hp |- *. rewrite <- Hrun in Hp. exact Hp.
Qed.

(** Parsing directly up to a delimiter, while the offsets of the buffer
    are exact. A write to a full buffer fails. Otherwise what fits is appended;
    if the delimiter then occurs, [parse()] is given exactly the bytes before
    its first occurrence, the delimiter is reported as found, the buffer is
    emptied and the write consumes the input up to and including the delimiter.
    If it does not occur, [parse()] is given everything but the longest end
    that may begin a delimiter, and exactly that end stays in the buffer: no
    byte is lost, given twice, or given away too early. *)
Theorem parseDirectDelimiter_delivers m t buf :
  buffer_ok m (m_unparsedBuffer (sp t)) ->
  m_parseDelimiter (sp t) <> [] -> zlen (m_parseDelimiter (sp t)) <= SSIZE_MAX ->
  ~ (exists q, occurs (m_parseDelimiter (sp t)) (buf_view t) q) ->
  let d := m_parseDelimiter (sp t) in
  let left := m - zlen (buf_view t) in
  let k := Z.min (zlen buf) left in
  let v := buf_view t ++ ztake k buf in
  if (left =? 0) && (0 <? zlen buf) then parseDirectDelimiter uninitialised buf t = (Ret None, with_found [] t)
  else
    (exists t1 pos, first_occurrence d v 0 (Some pos) /\
      toStringEx (getParsedBuffer (sp t1)) = ztake pos v /\ m_delimiterFound (sp t1) = d /\
      0 < pos + zlen d - zlen (buf_view t) <= k /\
      match parse t1 with
      | (Ret st, t2) => parseDirectDelimiter uninitialised buf t = (Ret (Some (u64 (u64 (pos - zlen (buf_view t)) +
          zlen (m_parseDelimiter (sp (after_parse st t2)))))), after_parse st t2)
      | (Exc e, t2) => parseDirectDelimiter uninitialised buf t = (Exc e, t2)
      end) \/
    (exists t1 n, first_occurrence d v 0 None /\ 0 <= n < zlen d /\ n <= zlen v /\
      common_end v d n /\ (forall w, n < w < zlen d -> w <= zlen v -> ~ common_end v d w) /\
      toStringEx (getParsedBuffer (sp t1)) = ztake (zlen v - n) v /\
      match parse t1 with
      | (Ret st, t2) => m_unparsedBuffer (sp t2) = m_unparsedBuffer (sp t1) ->
          exists t3, parseDirectDelimiter uninitialised buf t = (Ret (Some k), t3) /\
            buf_view t3 = zdrop (zlen v - n) v /\ ck_data_wf (m_unparsedBuffer (sp t3))
      | (Exc e, t2) => parseDirectDelimiter uninitialised buf t = (Exc e, t2)
      end).
Proof.
  intros Hok Hd Hdl Hno. cbn zeta. pose proof (parseDirectDelimiter_run m t buf Hok Hd Hdl) as Hrun.
  cbn zeta in Hrun. destruct (_ && _); [done|]. destruct Hrun as (t1 & r & Hok1 & Hv & Hd1 & Hf & Hrun).
  rewrite <- Hv. pose proof (zlen_nonneg buf) as Hzb. pose proof Hok as (_ & _ & _ & Hr & _ & Hvm).
  fold (buf_view t) in Hvm. destruct r as [pos|].
  - left. exists (found_at pos t1), pos. split; [done|]. pose proof Hf as (_ & Ho & _).
    pose proof Ho as (Hp & Hl & _). rewrite Hv in Ho. pose proof (no_occurrence_later _ _ _ _ Hno Ho) as Hlate.
    pose proof (zlen_nonneg (m_parseDelimiter (sp t))).
    split; [apply (found_at_parsed m); [done|lia]|]. split; [by rewrite found_at_found|]. split; [|exact Hrun].
    rewrite Hv, zlen_app, zlen_ztake in Hl. lia.
  - right. destruct (getLastBytesInCommon_spec uninitialised m (m_unparsedBuffer (sp t1)) _ Hok1 Hd Hdl)
      as (Hn0 & Hn & Hc & Hmax). set (n := getLastBytesInCommon _ _ _) in *.
    change (ck_view (m_unparsedBuffer (sp t1))) with (buf_view t1) in *.
    exists (pending_at n t1), n. split; [done|]. split; [done|]. split; [done|]. split; [done|]. split; [done|].
    split; [apply (pending_at_parsed m); [done|lia]|].
    assert (Hb : m_unparsedBuffer (sp (pending_at n t1)) = m_unparsedBuffer (sp t1))
      by (unfold pending_at, delivered; by rewrite sp_sp_set).
    rewrite Hb. exact Hrun.
Qed.
End Direct.

(** ** A multipart boundary in pieces *)

Definition zeroed (n : Z) : bytes := replicate (Z.to_nat n) (chr 0).

(** A collector that parses directly up to [d]. *)
Definition direct_collector (d : bytes) : Collector :=
  mkCollector (setParseDelimiter d (setParseMode PARSE_MODE_DIRECT_DELIMITER (co_sp (collector 100)))) [].

(** The pieces given to [parse()], what stays in the buffer, and the delimiter
    reported, after some writes. *)
Definition run_direct (d : bytes) (frags : list bytes) : list bytes * bytes * bytes :=
  let t := foldl (fun t f => snd (writeIntoParser zeroed f t)) (direct_collector d) frags in
  (co_seen t, buf_view t, m_delimiterFound (sp t)).

(** A delimiter in pieces. The bytes held back come as one chunk each;
    displacing nothing still recalculates the offsets of the chunks and spoils
    them, so the delimiter that arrives byte by byte is not found although it
    is complete, and the bytes that cannot be read any more are dropped. *)
Theorem direct_delimiter_in_pieces_is_lost :
  run_direct (str "--x--") [str "abc--x--"] = ([str "abc"], [], str "--x--") /\
  run_direct (str "--x--") [str "abc"; str "-"; str "-"; str "x"; str "-"; str "-"] =
  ([str "abc"; []; []; []; []; []], str "-", []).
Proof. vm_compute. split; reflexivity. Qed.

Lemma parseDirectDelimiter_delivers_witness :
  run_direct (str "--x--") [str "abc-"] = ([str "abc"], str "-", []) /\
  exists t1 n, n < zlen (str "--x--") /\
    toStringEx (getParsedBuffer (sp (t1 : Collector))) = ztake (4 - n) (str "abc-").
Proof.
  split; [vm_compute; reflexivity|].
  assert (Hok : buffer_ok 100 (m_unparsedBuffer (sp (direct_collector (str "--x--")))))
    by (apply buffer_check_ok; vm_compute; reflexivity).
  pose proof (parseDirectDelimiter_delivers zeroed 100 (direct_collector (str "--x--")) (str "abc-") Hok) as Hp.
  assert (Hbuf : zlen (buf_view (direct_collector (str "--x--"))) = 0) by (vm_compute; reflexivity).
  specialize (Hp ltac:(discriminate) ltac:(vm_compute; discriminate)).
  assert (Hno : ~ (exists q, occurs (m_parseDelimiter (sp (direct_collector (str "--x--"))))
                     (buf_view (direct_collector (str "--x--"))) q)).
  { intros (q & Hq & Hl & _). rewrite Hbuf in Hl.
    change (zlen (m_parseDelimiter _)) with 5 in Hl. lia. }
  specialize (Hp Hno). cbn zeta in Hp. rewrite Hbuf in Hp.
  destruct Hp as [(t1 & pos & (_ & Ho & _) & _)|(t1 & n & _ & Hn & _ & _ & _ & Hv & _)].
  - exfalso. destruct Ho as (Hp & Hl & _). change (pos + 5 <= 4) in Hl. lia.
  - exists t1, n. split; [exact (proj2 Hn)|exact Hv].
Defined.
