(* ===== verification/Parser.v ===== *)
(** * Protocol parsers (Memory/parser.h, Memory/parser.cpp)

    [Protocol] gives an object of a class derived from Parser: its Parser data
    members, the element parsers it is made of, which of them is the current
    one, and the three virtual members of the protocol. [parseData] is the
    recursion that feeds the input to the current element parser. *)

From S2P Require Import Prelude Mem SafeInt StreamableObject BBase BChunk BChunks BRef SubParser.

Inductive ErrorMSG : Type :=
| PARSING_SUCCEED
| PARSING_ERR_INIT
| PARSING_ERR_PARSING.

Record ParserData : Type := mkParserData {
  p_writeStatus : WriteStatus;
  m_maxTTL : Z;
  m_initialized : bool;
  p_clientMode : bool
}.

(** The object the constructor makes. *)
Definition ParserData_new (clientMode : bool) : ParserData :=
  mkParserData WriteStatus_new 4096 false clientMode.

Definition set_pStatus (w : WriteStatus) (d : ParserData) : ParserData :=
  mkParserData w (m_maxTTL d) (m_initialized d) (p_clientMode d).
Definition set_initialized (b : bool) (d : ParserData) : ParserData :=
  mkParserData (p_writeStatus d) (m_maxTTL d) b (p_clientMode d).
Definition setMaxTTL (value : Z) (d : ParserData) : ParserData :=
  mkParserData (p_writeStatus d) value (m_initialized d) (p_clientMode d).

Class Protocol (M P : Type) : Type := {
  pd : P -> ParserData;
  pd_set : ParserData -> P -> P;
  sub_id : Type;
  sub_impl : sub_id -> SubParserImpl M P;
  m_currentParser : P -> option sub_id;
  initProtocol : st P bool;
  endProtocol : st P unit;
  changeToNextParser : st P bool
}.

(** A count beyond the buffer: the next round would read past its end. *)
Definition buffer_overrun : exc := out_of_range "parser consumed more than the buffer".

Section Parser.
Context {M : Type} `{BBase M, MmapFactory M} (uninitialised : Z -> bytes).
Context {P : Type} `{Prot : Protocol M P}.

Definition initSubParser (id : sub_id) : st P unit :=
  let! d := gets pd in
  initElemParser (Impl := sub_impl id) (p_clientMode d).

(** [ttl] is the counter the recursion shares; out of fuel only with more
    than [m_maxTTL] rounds left. *)
Fixpoint parseData (fuel : nat) (buf : bytes) (ttl : Z) : st P (option Z) :=
  match fuel with
  | O => throw out_of_fuel
  | S fuel =>
      let! d := gets pd in
      if ttl >? m_maxTTL d then ret None
      else
        let ttl := u64 (ttl + 1) in
        let count := zlen buf in
        let left_in_buffer (writtenBytes : Z) : st P (option Z) :=
          if negb (writtenBytes =? count) then
            if writtenBytes >? count then throw buffer_overrun
            else
              let! x := parseData fuel (zdrop writtenBytes buf) ttl in
              match x with
              | None => ret None
              | Some x => ret (Some (u64 (x + writtenBytes)))
              end
          else ret (Some writtenBytes) in
        let! cur := gets m_currentParser in
        match cur with
        | None => left_in_buffer 0
        | Some id =>
            do! upd (Impl := sub_impl id) (setParseStatus PARSE_GET_MORE_DATA) in
            let! writtenBytes := writeIntoParser uninitialised (Impl := sub_impl id) buf in
            match writtenBytes with
            | None => ret None
            | Some w =>
                let! status := gets (fun p => m_parseStatus (@sp M P (sub_impl id) p)) in
                match status with
                | PARSE_GOTO_NEXT_SUBPARSER =>
                    let! changed := changeToNextParser in
                    if negb changed then ret None
                    else
                      let! cur := gets m_currentParser in
                      match cur with
                      | None =>
                          do! modify (fun p => pd_set (set_pStatus (ws_set_finish true (p_writeStatus (pd p))) (pd p)) p) in
                          ret (Some w)
                      | Some _ => if w =? count then ret (Some w) else left_in_buffer w
                      end
                | PARSE_GET_MORE_DATA => if w =? count then ret (Some w) else left_in_buffer w
                | PARSE_ERROR => ret None
                end
            end
        end
  end.

(** [Parser::write]; a count of 0 is the end of the stream. *)
Definition write (buf : bytes) : st P (option Z) := fun p =>
  parseData (Z.to_nat (m_maxTTL (pd p)) + 2) buf 0 p.

#[export] Instance Parser_stream : Streamable P := {
  so_status p := p_writeStatus (pd p);
  so_set_status w p := pd_set (set_pStatus w (pd p)) p;
  so_write := write
}.

(** A parser fed by a sequence of writes; the first that does not take all it
    is given ends it. *)
Fixpoint write_all (frags : list bytes) : st P bool :=
  match frags with
  | [] => ret true
  | buf :: frags =>
      let! n := write buf in
      match n with
      | Some n => if n =? zlen buf then write_all frags else ret false
      | None => ret false
      end
  end.

(** [parseObject]: [streamTo] is the call that streams the source object
    into the parser. *)
Definition parseObject (streamTo : st P bool) : st P ErrorMSG :=
  do! modify (fun p => pd_set (set_pStatus (ws_set_finish false (p_writeStatus (pd p))) (pd p)) p) in
  let! ok := initProtocol in
  do! modify (fun p => pd_set (set_initialized ok (pd p)) p) in
  if ok then
    let! streamedBytes := streamTo in
    do! endProtocol in
    ret (if negb streamedBytes then PARSING_ERR_PARSING else PARSING_SUCCEED)
  else ret PARSING_ERR_INIT.

(** *** One round *)

(** The state a round starts in. *)
Definition asked (id : sub_id) (p : P) : P :=
  @sp_set M P (sub_impl id) (setParseStatus PARSE_GET_MORE_DATA (@sp M P (sub_impl id) p)) p.

(** What follows a round that consumed [w] bytes. *)
Definition go_on (fuel : nat) (buf : bytes) (ttl w : Z) (p : P) : res (option Z) * P :=
  if w =? zlen buf then (Ret (Some w), p)
  else match parseData fuel (zdrop w buf) (ttl + 1) p with
       | (Ret (Some x), p) => (Ret (Some (u64 (x + w))), p)
       | r => r
       end.

Lemma parseData_round fuel buf ttl p id w p1 :
  m_currentParser p = Some id -> 0 <= ttl <= m_maxTTL (pd p) -> m_maxTTL (pd p) < SIZE_MAX ->
  writeIntoParser uninitialised (Impl := sub_impl id) buf (asked id p) = (Ret (Some w), p1) -> w <= zlen buf ->
  parseData (S fuel) buf ttl p =
  match m_parseStatus (@sp M P (sub_impl id) p1) with
  | PARSE_GOTO_NEXT_SUBPARSER =>
      match changeToNextParser p1 with
      | (Ret true, p2) =>
          match m_currentParser p2 with
          | None => (Ret (Some w), pd_set (set_pStatus (ws_set_finish true (p_writeStatus (pd p2))) (pd p2)) p2)
          | Some _ => go_on fuel buf ttl w p2
          end
      | (Ret false, p2) => (Ret None, p2)
      | (Exc e, p2) => (Exc e, p2)
      end
  | PARSE_GET_MORE_DATA => go_on fuel buf ttl w p1
  | PARSE_ERROR => (Ret None, p1)
  end.
Proof.
  intros Hc Ht Hmax Hw Hle. cbn [parseData]. unfold bind at 1, gets at 1.
  replace (ttl >? m_maxTTL (pd p)) with false by lia. rewrite u64_small by (unfold is_size; lia).
  unfold bind at 1, gets at 1. rewrite Hc. unfold bind at 1, upd at 1, modify at 1. fold (asked id p).
  unfold bind at 1. rewrite Hw. assert (Hgt : (w >? zlen buf) = false) by lia. rewrite Hgt.
  unfold bind at 1, gets at 1. unfold go_on. destruct (m_parseStatus _); [done| |].
  - destruct (w =? zlen buf); [done|]. cbn [negb]. unfold bind at 1.
    by destruct (parseData _ _ _ p1) as [[[?|]|?] ?].
  - unfold bind at 1. destruct (changeToNextParser p1) as [[[|]|?] p2]; [|done|done]. cbn [negb].
    unfold bind at 1, gets at 1. destruct (m_currentParser p2) eqn:Ec; [|done].
    destruct (w =? zlen buf); [done|]. cbn [negb]. unfold bind at 1.
    by destruct (parseData _ _ _ p2) as [[[?|]|?] ?].
Qed.

Lemma parseData_fails fuel buf ttl p id p1 :
  m_currentParser p = Some id -> 0 <= ttl <= m_maxTTL (pd p) ->
  writeIntoParser uninitialised (Impl := sub_impl id) buf (asked id p) = (Ret None, p1) ->
  parseData (S fuel) buf ttl p = (Ret None, p1).
Proof.
  intros Hc Ht Hw. cbn [parseData]. unfold bind at 1, gets at 1.
  replace (ttl >? m_maxTTL (pd p)) with false by lia. unfold bind at 1, gets at 1. rewrite Hc.
  unfold bind at 1, upd at 1, modify at 1. fold (asked id p). unfold bind at 1. by rewrite Hw.
Qed.

(** ** Properties *)

Lemma parseData_no_parser fuel buf ttl p :
  m_currentParser p = None -> buf <> [] -> 0 <= ttl <= m_maxTTL (pd p) + 1 -> m_maxTTL (pd p) < SIZE_MAX ->
  m_maxTTL (pd p) + 1 - ttl < Z.of_nat fuel -> parseData fuel buf ttl p = (Ret None, p).
Proof.
  intros Hc Hne. revert ttl. induction fuel as [|fuel IH]; intros ttl Ht Hmax Hf; [lia|].
  pose proof (zlen_pos buf Hne). cbn [parseData]. unfold bind at 1, gets at 1. case_cond; zbool; [done|].
  unfold bind at 1, gets at 1. rewrite Hc. replace (0 =? zlen buf) with false by lia. cbn [negb].
  replace (0 >? zlen buf) with false by lia. unfold bind at 1.
  rewrite zdrop_le0 by lia. rewrite u64_small by (unfold is_size; lia). rewrite IH; [done|lia..].
Qed.

(** When the protocol has no element parser left, a write with data
    terminates, through [m_maxTTL] rounds that consume nothing, and fails
    without changing anything; the end of the stream succeeds. *)
Theorem write_without_parser buf p :
  m_currentParser p = None -> 0 <= m_maxTTL (pd p) < SIZE_MAX ->
  write buf p = (Ret (if zlen buf =? 0 then Some 0 else None), p).
Proof.
  intros Hc Hm. unfold write. case_cond; zbool.
  - rewrite (zlen_0_nil _ E). replace (Z.to_nat (m_maxTTL (pd p)) + 2)%nat with (S (S (Z.to_nat (m_maxTTL (pd p))))) by lia.
    cbn [parseData]. unfold bind at 1, gets at 1. replace (0 >? m_maxTTL (pd p)) with false by lia.
    unfold bind at 1, gets at 1. by rewrite Hc.
  - apply parseData_no_parser; [done|by intros ->|lia..].
Qed.
End Parser.
