(* ===== verification/Preserves.v ===== *)
(** * What a parser leaves alone

    [preserves P m]: the computation [m] of Prelude.v keeps the property [P] of
    the state, also when it throws. A property of the object that the changes
    of its SubParser part, [parse()] and the members of the protocol keep is
    kept by every write, whatever the bytes. *)

From S2P Require Import Prelude SafeInt Mem StreamableObject BBase BChunk BChunks BRef SubParser Parser.

Definition preserves {S A} (P : S -> Prop) (m : st S A) : Prop := forall s, P s -> P (snd (m s)).

Create HintDb preserved discriminated.

Section Combinators.
Context {S : Type} (P : S -> Prop).

Lemma preserves_ret {A} (a : A) : preserves P (ret a).
Proof. by intros s. Qed.
Lemma preserves_throw {A} e : preserves P (throw (A := A) e).
Proof. by intros s. Qed.
Lemma preserves_gets {A} (f : S -> A) : preserves P (gets f).
Proof. by intros s. Qed.
Lemma preserves_lift {A} (r : res A) : preserves P (lift_res r).
Proof. by intros s. Qed.
Lemma preserves_modify f : (forall s, P s -> P (f s)) -> preserves P (modify f).
Proof. intros Hf s Hs. by apply Hf. Qed.
Lemma preserves_bind {A B} (m : st S A) (k : A -> st S B) :
  preserves P m -> (forall a, preserves P (k a)) -> preserves P (bind m k).
Proof.
  intros Hm Hk s Hs. unfold bind. specialize (Hm s Hs). destruct (m s) as [[a|e] s']; [by apply Hk|done].
Qed.
Lemma preserves_if {A} (b : bool) (m1 m2 : st S A) : preserves P m1 -> preserves P m2 -> preserves P (if b then m1 else m2).
Proof. by destruct b. Qed.
End Combinators.

#[export] Hint Resolve preserves_ret preserves_throw preserves_gets preserves_lift : preserved.

(** Follow the structure of a computation. *)
Ltac preserve :=
  repeat first
    [ progress intros
    | match goal with
      | |- preserves _ (bind _ _) => apply preserves_bind
      | |- preserves _ (if _ then _ else _) => apply preserves_if
      | |- preserves _ (let (_, _) := ?p in _) => destruct p
      | |- preserves _ (match ?o with _ => _ end) => destruct o
      end
    | solve [auto with preserved nocore] ].

Section Parsers.
Context {M : Type} `{BBase M, MmapFactory M} (uninitialised : Z -> bytes).

Section Element.
Context {T : Type} `{Impl : SubParserImpl M T} (P : T -> Prop).
Hypothesis Hset : forall s t, P t -> P (sp_set s t).
Hypothesis Hparse : preserves P parse.

Lemma preserves_upd f : preserves P (upd f).
Proof. apply preserves_modify. intros t Ht. by apply Hset. Qed.

Lemma preserves_on_unparsed {A} (f : st (B_Chunks M) A) : preserves P (on_unparsed f).
Proof. intros t Ht. unfold on_unparsed. destruct (f _). by apply Hset. Qed.

Lemma preserves_unparsed : preserves P unparsed.
Proof. apply preserves_gets. Qed.

#[local] Hint Resolve preserves_upd preserves_on_unparsed preserves_unparsed Hparse : preserved.

Lemma preserves_do_parse : preserves P do_parse.
Proof. unfold do_parse. preserve. Qed.
#[local] Hint Resolve preserves_do_parse : preserved.

Lemma preserves_append buf : preserves P (appendToUnparsedBuffer buf).
Proof. unfold appendToUnparsedBuffer. preserve. Qed.
#[local] Hint Resolve preserves_append : preserved.

Lemma preserves_writeIntoParser buf : preserves P (writeIntoParser uninitialised buf).
Proof.
  unfold writeIntoParser, parseByDelimiter, parseByMultiDelimiter, parseBySize, parseByValidator, parseByConnectionEnd,
    parseDirect, parseDirectDelimiter. preserve.
Qed.
End Element.

Context {O : Type} `{Prot : Protocol M O} (P : O -> Prop).
Hypothesis Hsub : forall id s p, P p -> P (@sp_set M O (sub_impl id) s p).
Hypothesis Hparse : forall id, preserves P (@parse M O (sub_impl id)).
Hypothesis Hpd : forall d p, P p -> P (pd_set d p).
Hypothesis Hnext : preserves P changeToNextParser.

Lemma preserves_parseData fuel buf ttl : preserves P (parseData uninitialised fuel buf ttl).
Proof.
  revert buf ttl. induction fuel as [|fuel IH]; intros buf ttl; [apply preserves_throw|]. cbn [parseData].
  assert (Hu : forall id f, preserves P (upd (Impl := sub_impl id) f)) by (intros; apply preserves_upd; apply Hsub).
  assert (Hw : forall id b, preserves P (writeIntoParser uninitialised (Impl := sub_impl id) b)).
  { intros id b. apply preserves_writeIntoParser; [apply Hsub|apply Hparse]. }
  assert (Hm : forall f : O -> ParserData, preserves P (modify (fun p => pd_set (f p) p))).
  { intros f. apply preserves_modify. intros p Hp. by apply Hpd. }
  preserve.
Qed.

(** A write keeps what the parts of the protocol keep. *)
Lemma preserves_write buf : preserves P (write uninitialised buf).
Proof. intros p Hp. unfold write. by apply preserves_parseData. Qed.

Lemma preserves_write_all frags : preserves P (write_all uninitialised frags).
Proof. induction frags as [|f frags IH]; cbn [write_all]; preserve; apply preserves_write. Qed.
End Parsers.

(** The same when the protocol changes the element parser only while it has one:
    the element parsers leave the choice of the current one alone. *)
Section Running.
Context {M : Type} `{BBase M, MmapFactory M} (uninitialised : Z -> bytes).
Context {O : Type} `{Prot : Protocol M O} (P : O -> Prop).
Definition running_in (id : sub_id) (p : O) : Prop := P p /\ m_currentParser p = Some id.
Hypothesis Hsub : forall id i s p, running_in i p -> running_in i (@sp_set M O (sub_impl id) s p).
Hypothesis Hparse : forall id i, preserves (running_in i) (@parse M O (sub_impl id)).
Hypothesis Hpd : forall d p, P p -> P (pd_set d p).
Hypothesis Hnext : forall i p, running_in i p -> P (snd (changeToNextParser p)).

Lemma running_parseData fuel buf ttl : preserves P (parseData uninitialised fuel buf ttl).
Proof.
  revert buf ttl. induction fuel as [|fuel IH]; intros buf ttl p Hp; [done|]. cbn [parseData].
  unfold bind at 1, gets at 1. case_cond; [done|]. unfold bind at 1, gets at 1.
  assert (Hleft : forall w, preserves P (if negb (w =? zlen buf) then if w >? zlen buf then throw buffer_overrun else
      let! x := parseData uninitialised fuel (zdrop w buf) (u64 (ttl + 1)) in
      match x with None => ret None | Some x => ret (Some (u64 (x + w))) end else ret (Some w))) by (intros w; preserve).
  assert (Hor : forall w, preserves P (if w =? zlen buf then ret (Some w) else if negb (w =? zlen buf) then if w >? zlen buf then throw buffer_overrun else
      let! x := parseData uninitialised fuel (zdrop w buf) (u64 (ttl + 1)) in
      match x with None => ret None | Some x => ret (Some (u64 (x + w))) end else ret (Some w))) by (intros w; preserve).
  destruct (m_currentParser p) as [id|] eqn:Ec; [|by apply Hleft].
  assert (Hr : running_in id p) by done.
  unfold bind at 1. pose proof (preserves_upd (Impl := sub_impl id) (running_in id) (Hsub id id) (setParseStatus PARSE_GET_MORE_DATA) p Hr) as Hr1.
  unfold upd, modify in *. cbn [snd] in Hr1. unfold bind at 1.
  pose proof (preserves_writeIntoParser uninitialised (Impl := sub_impl id) (running_in id) (Hsub id id) (Hparse id id) buf _ Hr1) as Hr2.
  destruct (writeIntoParser uninitialised buf _) as [[[w|]|e] p2]; cbn [snd] in Hr2; [|by destruct Hr2..]. unfold bind at 1, gets at 1.
  destruct (m_parseStatus _); [by destruct Hr2|destruct Hr2 as [Hp2 _]; apply (Hor w _ Hp2)|].
  pose proof (Hnext id p2 Hr2) as Hp3. unfold bind at 1. destruct (changeToNextParser p2) as [[[|]|e] p3]; cbn [snd negb] in *; try done.
  unfold bind at 1, gets at 1. destruct (m_currentParser p3); [apply (Hor w _ Hp3)|].
  unfold bind, modify. cbn [snd]. by apply Hpd.
Qed.

Lemma running_write_all frags : preserves P (write_all uninitialised frags).
Proof.
  induction frags as [|f frags IH]; cbn [write_all]; [preserve|]. apply preserves_bind; [|intros; preserve].
  intros p Hp. unfold write. by apply running_parseData.
Qed.
End Running.

(** * A protocol against a machine that takes one byte at a time

    A specification of what a protocol makes of its input reads it byte by
    byte ([reads]). The writes of a program come in pieces of any size, and the
    protocol takes each of them in rounds (Parser.v), a round being one call of
    the current element parser. When every round agrees with the machine, so do
    the writes, whatever the pieces ([writes_agree]), as long as the rounds
    suffice: a round leaves fewer of them to make. *)

(** What has been read: the reader goes on; it has finished, with what it did
    not read; it refuses the input; the specification does not say. *)
Inductive reading (X Y : Type) : Type :=
| Goes (x : X)
| Ends (y : Y) (rest : bytes)
| Refuses
| Unspecified.
Arguments Goes {X Y}. Arguments Ends {X Y}. Arguments Refuses {X Y}. Arguments Unspecified {X Y}.

Section Reads.
Context {X Y : Type} (eat : X -> ascii -> reading X Y).

Fixpoint reads (r : reading X Y) (text : bytes) : reading X Y :=
  match text with
  | [] => r
  | b :: text =>
      match r with
      | Goes x => reads (eat x b) text
      | Ends y rest => Ends y (rest ++ b :: text)
      | r => r
      end
  end.

Lemma reads_app r t1 t2 : reads r (t1 ++ t2) = reads (reads r t1) t2.
Proof.
  revert r. induction t1 as [|b t1 IH]; intros r; [done|]. cbn [app reads].
  destruct r as [x|y rest| |]; [apply IH| |by destruct t2|by destruct t2].
  destruct t2 as [|b2 t2]; [by rewrite app_nil_r|]. cbn [reads]. by rewrite <- app_assoc.
Qed.

Lemma reads_ended y rest l : reads (Ends y rest) l = Ends y (rest ++ l).
Proof. destruct l; [by rewrite app_nil_r|done]. Qed.

Lemma reads_split r w l : reads r l = reads (reads r (ztake w l)) (zdrop w l).
Proof. by rewrite <- reads_app, ztake_zdrop. Qed.

(** Once refused, refused. *)
Lemma reads_fixed r w l r' : r' = Refuses \/ r' = Unspecified -> reads r (ztake w l) = r' -> reads r l = r'.
Proof. intros Hr Hw. rewrite (reads_split r w), Hw. destruct Hr as [-> | ->]; by destruct (zdrop w l). Qed.
End Reads.

Section Machine.
Context {M : Type} `{BBase M, MmapFactory M} (uninitialised : Z -> bytes).
Context {P : Type} `{Prot : Protocol M P}.
Context {X Y : Type} (eat : X -> ascii -> reading X Y).
(** [R x n p]: the protocol has the state of the machine, and room for [n]
    more bytes. [F y p]: it has finished with [y]. *)
Context (R : X -> Z -> P -> Prop) (F : Y -> P -> Prop).
(** The rounds a machine state and a text can need. *)
Context (weight : X -> Z) (turns : bytes -> Z) (most pieces ttl : Z).

Abbreviation reads := (reads eat).
Abbreviation status id p := (m_parseStatus (@sp M P (sub_impl id) p)).
Abbreviation step id buf p := (writeIntoParser uninitialised (Impl := sub_impl id) buf (asked id p)).
Abbreviation marked p := (pd_set (set_pStatus (ws_set_finish true (p_writeStatus (pd p))) (pd p)) p).

(** What a round may do with a write. *)
Inductive round_agrees (x : X) (n : Z) (buf : bytes) (p : P) : Prop :=
| Continues id w p1 x' :
    m_currentParser p = Some id -> step id buf p = (Ret (Some w), p1) -> 0 < w <= zlen buf ->
    status id p1 = PARSE_GET_MORE_DATA ->
    reads (Goes x) (ztake w buf) = Goes x' -> R x' (n - w) p1 ->
    w = zlen buf \/ weight x' + turns (zdrop w buf) < weight x + turns buf -> round_agrees x n buf p
| Changes id w p1 p2 x' :
    m_currentParser p = Some id -> step id buf p = (Ret (Some w), p1) -> 0 < w <= zlen buf ->
    status id p1 = PARSE_GOTO_NEXT_SUBPARSER -> changeToNextParser p1 = (Ret true, p2) ->
    reads (Goes x) (ztake w buf) = Goes x' -> R x' (n - w) p2 ->
    w = zlen buf \/ weight x' + turns (zdrop w buf) < weight x + turns buf -> round_agrees x n buf p
| Finishes id w p1 p2 y :
    m_currentParser p = Some id -> step id buf p = (Ret (Some w), p1) -> 0 < w <= zlen buf ->
    status id p1 = PARSE_GOTO_NEXT_SUBPARSER -> changeToNextParser p1 = (Ret true, p2) ->
    m_currentParser p2 = None -> reads (Goes x) (ztake w buf) = Ends y [] -> F y (marked p2) -> round_agrees x n buf p
| FailsParsing id w p1 :
    m_currentParser p = Some id -> step id buf p = (Ret (Some w), p1) -> w <= zlen buf ->
    status id p1 = PARSE_ERROR -> reads (Goes x) buf = Refuses -> round_agrees x n buf p
| FailsWriting id p1 :
    m_currentParser p = Some id -> step id buf p = (Ret None, p1) -> reads (Goes x) buf = Refuses -> round_agrees x n buf p
| FailsChanging id w p1 p2 :
    m_currentParser p = Some id -> step id buf p = (Ret (Some w), p1) -> w <= zlen buf ->
    status id p1 = PARSE_GOTO_NEXT_SUBPARSER -> changeToNextParser p1 = (Ret false, p2) ->
    reads (Goes x) buf = Refuses -> round_agrees x n buf p
| Unsaid : reads (Goes x) buf = Unspecified -> round_agrees x n buf p.

Context (turns_nonneg : forall l, 0 <= turns l).
Context (weight_bounds : forall x, 1 <= weight x <= most) (ttl_bound : 0 <= ttl < SIZE_MAX) (pieces_bound : pieces <= SSIZE_MAX).
Context (R_running : forall x n p, R x n p -> m_maxTTL (pd p) = ttl /\ exists id, m_currentParser p = Some id).
Context (F_finished : forall y p, F y p -> m_maxTTL (pd p) = ttl /\ m_currentParser p = None).
Context (every_round : forall x n p buf, R x n p -> buf <> [] -> zlen buf <= pieces -> zlen buf <= n -> round_agrees x n buf p).

(** The result of a write of [k] bytes. *)
Definition agrees (r : reading X Y) (k n : Z) (result : res (option Z) * P) : Prop :=
  match r with
  | Goes x => exists p', result = (Ret (Some k), p') /\ R x (n - k) p'
  | Ends y rest => exists p', result = (Ret (Some (k - zlen rest)), p') /\ zlen rest < k /\ F y p'
  | Refuses => exists p', result = (Ret None, p')
  | Unspecified => True
  end.

Lemma agrees_go_on fuel buf t w n p1 r :
  0 < w < zlen buf -> zlen buf <= SSIZE_MAX ->
  agrees r (zlen buf - w) (n - w) (parseData uninitialised fuel (zdrop w buf) (t + 1) p1) ->
  agrees r (zlen buf) n (go_on uninitialised fuel buf t w p1).
Proof.
  intros Hw Hl Ha. unfold go_on. replace (w =? zlen buf) with false by lia.
  destruct r as [x|y rest| |]; cbn [agrees] in *; [| | |done].
  - destruct Ha as (p' & -> & Hr). exists p'. rewrite u64_small by (apply size_arith; lia).
    split; [do 3 f_equal; lia|]. by replace (n - zlen buf) with (n - w - (zlen buf - w)) by lia.
  - destruct Ha as (p' & -> & Hlt & Hf). exists p'. pose proof (zlen_nonneg rest).
    rewrite u64_small by (apply size_arith; lia). split; [do 3 f_equal; lia|]. split; [lia|done].
  - destruct Ha as (p' & ->). by exists p'.
Qed.

Lemma parseData_agrees fuel buf t x n p :
  R x n p -> buf <> [] -> zlen buf <= pieces -> zlen buf <= n -> 0 <= t ->
  t + (weight x + turns buf) <= ttl + 1 -> weight x + turns buf <= Z.of_nat fuel ->
  agrees (reads (Goes x) buf) (zlen buf) n (parseData uninitialised fuel buf t p).
Proof.
  revert buf t x n p. induction fuel as [|fuel IH]; intros buf t x n p Hr Hne Hl Hn Ht0 Ht Hf;
    pose proof (weight_bounds x); pose proof (turns_nonneg buf); [lia|].
  destruct (R_running x n p Hr) as (Httl & _).
  assert (Htp : 0 <= t <= m_maxTTL (pd p) /\ m_maxTTL (pd p) < SIZE_MAX) by lia. destruct Htp as [Htp Hmp].
  assert (Hgo : forall w q x', 0 < w <= zlen buf -> reads (Goes x) (ztake w buf) = Goes x' -> R x' (n - w) q ->
    w = zlen buf \/ weight x' + turns (zdrop w buf) < weight x + turns buf ->
    agrees (reads (Goes x) buf) (zlen buf) n (go_on uninitialised fuel buf t w q)).
  { intros w q x' Hw Hread Hq Hleft. destruct (decide (w = zlen buf)) as [->|Hlt].
    - unfold go_on. rewrite Z.eqb_refl. rewrite ztake_ge in Hread by lia. rewrite Hread. by exists q.
    - destruct Hleft as [?|Hleft]; [done|]. rewrite (reads_split _ _ w), Hread.
      assert (Hzd : zlen (zdrop w buf) = zlen buf - w) by (rewrite zlen_zdrop; lia).
      apply agrees_go_on; [lia|lia|]. rewrite <- Hzd.
      apply IH; [done|intros Hz; rewrite Hz in Hzd; change (zlen []) with 0 in Hzd; lia|lia..]. }
  destruct (every_round x n p buf Hr Hne Hl Hn)
    as [id w p1 x' Hc Hs Hw Hst Hread Hr1 Hleft|id w p1 p2 x' Hc Hs Hw Hst Hch Hread Hr1 Hleft
       |id w p1 p2 y Hc Hs Hw Hst Hch Hnone Hread Hy|id w p1 Hc Hs Hw Hst Hread|id p1 Hc Hs Hread
       |id w p1 p2 Hc Hs Hw Hst Hch Hread|Hread].
  - rewrite (parseData_round uninitialised fuel buf t p id w p1 Hc Htp Hmp Hs) by lia. rewrite Hst. by eapply Hgo.
  - rewrite (parseData_round uninitialised fuel buf t p id w p1 Hc Htp Hmp Hs) by lia. rewrite Hst, Hch.
    destruct (R_running _ _ _ Hr1) as (_ & id2 & ->). by eapply Hgo.
  - rewrite (parseData_round uninitialised fuel buf t p id w p1 Hc Htp Hmp Hs) by lia. rewrite Hst, Hch, Hnone.
    rewrite (reads_split _ _ w), Hread, reads_ended, app_nil_l.
    eexists. split; [do 3 f_equal; rewrite zlen_zdrop; lia|]. rewrite zlen_zdrop. split; [lia|done].
  - rewrite (parseData_round uninitialised fuel buf t p id w p1 Hc Htp Hmp Hs) by lia. rewrite Hst, Hread. by exists p1.
  - rewrite (parseData_fails uninitialised fuel buf t p id p1 Hc Htp Hs), Hread. by exists p1.
  - rewrite (parseData_round uninitialised fuel buf t p id w p1 Hc Htp Hmp Hs) by lia. rewrite Hst, Hch, Hread. by exists p2.
  - by rewrite Hread.
Qed.

(** A write that the rounds suffice for. *)
Definition fits (f : bytes) : Prop := f <> [] /\ (zlen f <= pieces) /\ (turns f + most <= ttl + 1).

Lemma write_agrees x n p buf :
  R x n p -> fits buf -> zlen buf <= n -> agrees (reads (Goes x) buf) (zlen buf) n (write uninitialised buf p).
Proof.
  intros Hr (Hne & Hl & Hc) Hn. pose proof (weight_bounds x). pose proof (turns_nonneg buf).
  destruct (R_running x n p Hr) as (Httl & _). unfold write. apply parseData_agrees; try done; lia.
Qed.

(** Once it has finished, nothing more is taken. *)
Lemma writes_finished frags y p :
  F y p -> Forall fits frags -> write_all uninitialised frags p = (Ret (bool_decide (concat frags = [])), p).
Proof.
  intros Hf [|f fs (Hne & _) _]; [done|]. destruct (F_finished y p Hf) as [Ht Hc].
  cbn [write_all]. unfold bind, write. rewrite parseData_no_parser by (done || lia).
  rewrite bool_decide_eq_false_2; [done|]. cbn [concat]. by intros [? _]%app_eq_nil.
Qed.

(** The result of a sequence of writes. *)
Definition all_agree (r : reading X Y) (n : Z) (result : res bool * P) : Prop :=
  match r with
  | Goes x => exists p', result = (Ret true, p') /\ R x n p'
  | Ends y rest => exists p', result = (Ret (bool_decide (rest = [])), p') /\ F y p'
  | Refuses => exists p', result = (Ret false, p')
  | Unspecified => True
  end.

Lemma writes_agree frags x n p :
  R x n p -> Forall fits frags -> zlen (concat frags) <= n ->
  all_agree (reads (Goes x) (concat frags)) (n - zlen (concat frags)) (write_all uninitialised frags p).
Proof.
  intros Hr Hfr. revert x n p Hr. induction Hfr as [|f frags Hfit Hfr IH]; intros x n p Hr Hn.
  { exists p. cbn [concat]. change (zlen []) with 0. by rewrite Z.sub_0_r. }
  cbn [concat] in *. rewrite zlen_app in *. pose proof (zlen_nonneg (concat frags)).
  pose proof (write_agrees x n p f Hr Hfit ltac:(lia)) as Hw. rewrite reads_app. cbn [write_all]. unfold bind.
  destruct (reads (Goes x) f) as [x'|y rest| |]; cbn [agrees] in Hw.
  - destruct Hw as (p' & -> & Hr'). rewrite Z.eqb_refl.
    replace (n - (zlen f + zlen (concat frags))) with (n - zlen f - zlen (concat frags)) by lia. apply IH; [done|lia].
  - destruct Hw as (p' & -> & Hlt & Hf). rewrite reads_ended. cbn [all_agree]. pose proof (zlen_nonneg rest).
    destruct (decide (rest = [])) as [->|Hrest].
    + change (zlen []) with 0. rewrite Z.sub_0_r, Z.eqb_refl, (writes_finished frags y) by done. by exists p'.
    + pose proof (zlen_pos rest Hrest). replace (zlen f - zlen rest =? zlen f) with false by lia. exists p'.
      rewrite bool_decide_eq_false_2; [done|]. by intros [? _]%app_eq_nil.
  - destruct Hw as (p' & ->). replace (reads Refuses (concat frags)) with (@Refuses X Y) by (by destruct (concat frags)).
    by exists p'.
  - by replace (reads Unspecified (concat frags)) with (@Unspecified X Y) by (by destruct (concat frags)).
Qed.
End Machine.
