(* ===== verification/Lens.v ===== *)
(** * An element parser that is a member of an object

    The classes of the library hold their element parsers as members: a client
    has its status line, its headers and its content. [ElementOf] says that the
    element parser of an object is one of its members, with [part] and
    [set_part]; a write into it is then a write into the member alone
    ([write_into_part]), so what is proved of an element parser holds wherever
    it is a member. *)

From S2P Require Import Prelude Mem SafeInt StreamableObject BBase BChunk BChunks BRef SubParser SubParserSpec Parser Preserves.

Class Part {E T : Type} (part : T -> E) (set_part : E -> T -> T) : Prop := {
  part_set e t : part (set_part e t) = e;
  set_part_set e e' t : set_part e (set_part e' t) = set_part e t;
  set_part_part t : set_part (part t) t = t
}.

(** [F] does to the object what [f] does to the member. *)
Definition on_part {E T A} (part : T -> E) (set_part : E -> T -> T) (f : st E A) : st T A := fun t =>
  let (r, e) := f (part t) in (r, set_part e t).

Section Lifts.
Context {E T : Type} (part : T -> E) (set_part : E -> T -> T) `{!Part part set_part}.

Definition lifts {A} (f : st E A) (F : st T A) : Prop := forall t, F t = on_part part set_part f t.

Lemma lifts_ret {A} (a : A) : lifts (ret a) (ret a).
Proof. intros t. unfold on_part, ret. by rewrite set_part_part. Qed.
Lemma lifts_throw {A} e : lifts (throw (A := A) e) (throw e).
Proof. intros t. unfold on_part, throw. by rewrite set_part_part. Qed.
Lemma lifts_res {A} (r : res A) : lifts (lift_res r) (lift_res r).
Proof. intros t. unfold on_part, lift_res. by rewrite set_part_part. Qed.
Lemma lifts_gets {A} (f : E -> A) (F : T -> A) : (forall t, F t = f (part t)) -> lifts (gets f) (gets F).
Proof. intros Hf t. unfold on_part, gets. by rewrite set_part_part, Hf. Qed.
Lemma lifts_bind {A B} (f : st E A) F (k : A -> st E B) K :
  lifts f F -> (forall a, lifts (k a) (K a)) -> lifts (bind f k) (bind F K).
Proof.
  intros Hf Hk t. unfold bind, on_part. rewrite (Hf t). unfold on_part. destruct (f (part t)) as [[a|e] x]; [|done].
  rewrite (Hk a). unfold on_part. rewrite part_set. destruct (k a x) as [r y]. by rewrite set_part_set.
Qed.
Lemma lifts_if {A} (b : bool) (f1 f2 : st E A) F1 F2 : lifts f1 F1 -> lifts f2 F2 -> lifts (if b then f1 else f2) (if b then F1 else F2).
Proof. by destruct b. Qed.
End Lifts.

Create HintDb lifted discriminated.
#[export] Hint Extern 1 (lifts _ _ (ret _) _) => apply lifts_ret; exact _ : lifted.
#[export] Hint Extern 1 (lifts _ _ (throw _) _) => apply lifts_throw; exact _ : lifted.
#[export] Hint Extern 1 (lifts _ _ (lift_res _) _) => apply lifts_res; exact _ : lifted.

(** Follow the structure of two computations. *)
Ltac lift_structure :=
  repeat first
    [ progress intros
    | match goal with
      | |- lifts _ _ (bind _ _) (bind _ _) => apply lifts_bind; [exact _| |]
      | |- lifts _ _ (if _ then _ else _) (if _ then _ else _) => apply lifts_if
      | |- lifts _ _ (let (_, _) := ?p in _) _ => destruct p
      | |- lifts _ _ (match ?o with _ => _ end) _ => destruct o
      end
    | solve [auto with lifted nocore] ].

Class ElementOf {M E T : Type} (part : T -> E) (set_part : E -> T -> T)
    {ImplE : SubParserImpl M E} {ImplT : SubParserImpl M T} : Prop := {
  element_part :: Part part set_part;
  part_sp t : sp t = sp (part t);
  part_sp_set s t : sp_set s t = set_part (sp_set s (part t)) t;
  part_parse t : parse t = on_part part set_part parse t
}.

Section Element.
Context {M : Type} `{BBase M, MmapFactory M} (uninitialised : Z -> bytes).
Context {E T : Type} (part : T -> E) (set_part : E -> T -> T).
Context {ImplE : SubParserImpl M E} {ImplT : SubParserImpl M T} `{!ElementOf part set_part}.

Abbreviation lifts := (lifts part set_part).

Lemma lifts_upd f : lifts (upd (Impl := ImplE) f) (upd (Impl := ImplT) f).
Proof. intros t. unfold upd, modify, on_part. by rewrite part_sp_set, part_sp. Qed.

Lemma lifts_on_unparsed {A} (f : st (B_Chunks M) A) : lifts (on_unparsed (Impl := ImplE) f) (on_unparsed (Impl := ImplT) f).
Proof. intros t. unfold on_unparsed, on_part. rewrite part_sp. destruct (f _) as [r c]. by rewrite part_sp_set. Qed.

Lemma lifts_unparsed : lifts (unparsed (Impl := ImplE)) (unparsed (Impl := ImplT)).
Proof. apply lifts_gets; [exact _|]. intros t. by rewrite part_sp. Qed.

Lemma lifts_sp : lifts (gets (@sp M E ImplE)) (gets (@sp M T ImplT)).
Proof. apply lifts_gets; [exact _|]. apply part_sp. Qed.

Lemma lifts_parse : lifts (@parse M E ImplE) (@parse M T ImplT).
Proof. intros t. apply part_parse. Qed.

#[local] Hint Resolve lifts_upd lifts_on_unparsed lifts_unparsed lifts_sp lifts_parse : lifted.

Lemma lifts_do_parse : lifts (do_parse (Impl := ImplE)) (do_parse (Impl := ImplT)).
Proof. unfold do_parse. lift_structure. Qed.
#[local] Hint Resolve lifts_do_parse : lifted.

Lemma lifts_append buf : lifts (appendToUnparsedBuffer (Impl := ImplE) buf) (appendToUnparsedBuffer (Impl := ImplT) buf).
Proof. unfold appendToUnparsedBuffer. lift_structure. Qed.
#[local] Hint Resolve lifts_append : lifted.

Lemma lifts_writeIntoParser buf :
  lifts (writeIntoParser uninitialised (Impl := ImplE) buf) (writeIntoParser uninitialised (Impl := ImplT) buf).
Proof.
  unfold writeIntoParser, parseByDelimiter, parseByMultiDelimiter, parseBySize, parseByValidator, parseByConnectionEnd,
    parseDirect, parseDirectDelimiter. lift_structure.
Qed.

(** A write into the element parser is one into the member. *)
Lemma write_into_part buf t :
  writeIntoParser uninitialised (Impl := ImplT) buf t =
  on_part part set_part (writeIntoParser uninitialised (Impl := ImplE) buf) t.
Proof. apply lifts_writeIntoParser. Qed.
End Element.

(** ** A round, seen from the member *)

(** The member, asked for more data. *)
Definition ready {M E} `{SubParserImpl M E} (e : E) : E := sp_set (setParseStatus PARSE_GET_MORE_DATA (sp e)) e.

Lemma ready_sp {M E} `{SubParserLaws M E} (e : E) : sp (ready e) = setParseStatus PARSE_GET_MORE_DATA (sp e).
Proof. apply sp_sp_set. Qed.

Section Round.
Context {M : Type} `{BBase M, MmapFactory M} (uninitialised : Z -> bytes).
Context {P : Type} `{Prot : Protocol M P} (id : sub_id).
Context {E : Type} (part : P -> E) (set_part : E -> P -> P) {ImplE : SubParserImpl M E}.
Context `{!ElementOf part set_part (ImplT := sub_impl id)}.

Lemma round_of_part buf p :
  writeIntoParser uninitialised (Impl := sub_impl id) buf (asked id p) =
  (let (r, e) := writeIntoParser uninitialised (Impl := ImplE) buf (ready (part p)) in (r, set_part e p)).
Proof.
  rewrite (write_into_part uninitialised part set_part). unfold on_part, asked.
  rewrite (part_sp_set (ImplT := sub_impl id)), part_set, (part_sp (ImplT := sub_impl id)). unfold ready.
  destruct (writeIntoParser _ _ _) as [r e]. by rewrite set_part_set.
Qed.

Lemma status_of_part p : m_parseStatus (@sp M P (sub_impl id) p) = m_parseStatus (sp (part p)).
Proof. by rewrite (part_sp (ImplT := sub_impl id)). Qed.
End Round.

(** ** The machine of an element parser, and that of its protocol *)

Section Element_machine.
Context {M : Type} `{BBase M, MmapFactory M} (uninitialised : Z -> bytes).
Context {E : Type} {ImplE : SubParserImpl M E} {X Y : Type} (eat : X -> ascii -> reading X Y).
(** [RE x n e]: the element parser has the state of its machine, and room for
    [n] more bytes; [FE y n e]: it has ended with [y]. *)
Context (RE : X -> Z -> E -> Prop) (FE : Y -> Z -> E -> Prop) (weight : X -> Z) (turns : bytes -> Z).

(** What a write into the element parser does. *)
Inductive element_agrees (x : X) (n : Z) (buf : bytes) (e : E) : Prop :=
| ElementGoes w e' x' :
    writeIntoParser uninitialised buf (ready e) = (Ret (Some w), e') -> 0 < w <= zlen buf ->
    m_parseStatus (sp e') = PARSE_GET_MORE_DATA -> reads eat (Goes x) (ztake w buf) = Goes x' -> RE x' (n - w) e' ->
    w = zlen buf \/ weight x' + turns (zdrop w buf) < weight x + turns buf -> element_agrees x n buf e
| ElementEnds w e' y :
    writeIntoParser uninitialised buf (ready e) = (Ret (Some w), e') -> 0 < w <= zlen buf ->
    m_parseStatus (sp e') = PARSE_GOTO_NEXT_SUBPARSER -> reads eat (Goes x) (ztake w buf) = Ends y [] ->
    FE y (n - w) e' -> element_agrees x n buf e
| ElementRefuses w e' :
    writeIntoParser uninitialised buf (ready e) = (Ret (Some w), e') -> w <= zlen buf ->
    m_parseStatus (sp e') = PARSE_ERROR -> reads eat (Goes x) buf = Refuses -> element_agrees x n buf e
| ElementFails e' :
    writeIntoParser uninitialised buf (ready e) = (Ret None, e') -> reads eat (Goes x) buf = Refuses -> element_agrees x n buf e
| ElementUnsaid : reads eat (Goes x) buf = Unspecified -> element_agrees x n buf e.
End Element_machine.

(** The room that is left stays within a bound. *)
Lemma element_room {M} `{BBase M, MmapFactory M} (uninitialised : Z -> bytes) {E} {ImplE : SubParserImpl M E} {X Y}
    (eat : X -> ascii -> reading X Y) RE FE weight turns room x n buf (e : E) :
  n <= room -> element_agrees uninitialised eat RE FE weight turns x n buf e ->
  element_agrees uninitialised eat (fun x n e => RE x n e /\ n <= room) (fun y n e => FE y n e /\ n <= room) weight turns x n buf e.
Proof.
  intros Hn [w e' x' Hw Hwr Hs Hr Hre Hp|w e' y Hw Hwr Hs Hr Hf|w e' Hw Hwr Hs Hr|e' Hw Hr|Hr];
    [eapply ElementGoes; try done; split; [done|lia]|eapply ElementEnds; try done; split; [done|lia]
    |by eapply ElementRefuses|by eapply ElementFails|by apply ElementUnsaid].
Qed.

Section Embedding.
Context {X Y X' Y' : Type} (eat : X -> ascii -> reading X Y) (eat' : X' -> ascii -> reading X' Y').
(** The states of the element among those of the protocol, and what the
    protocol goes on with after the element. *)
Context (inj : X -> X') (after : Y -> reading X' Y').

Definition embed (r : reading X Y) : reading X' Y' :=
  match r with
  | Goes x => Goes (inj x)
  | Ends y rest => reads eat' (after y) rest
  | Refuses => Refuses
  | Unspecified => Unspecified
  end.

Hypothesis embeds : forall x b, eat' (inj x) b = embed (eat x b).

Lemma reads_embed r l : reads eat' (embed r) l = embed (reads eat r l).
Proof.
  revert r. induction l as [|b l IH]; intros r; [done|]. destruct r as [x|y rest| |]; [|by rewrite reads_ended; cbn [embed]; rewrite reads_app| |].
  - cbn [reads embed]. by rewrite embeds, IH.
  - done.
  - done.
Qed.
End Embedding.

Section Member.
Context {M : Type} `{BBase M, MmapFactory M} (uninitialised : Z -> bytes).
Context {P : Type} `{Prot : Protocol M P} (id : sub_id).
Context {E : Type} (part : P -> E) (set_part : E -> P -> P) {ImplE : SubParserImpl M E}.
Context `{!ElementOf part set_part (ImplT := sub_impl id)}.
Context {X Y X' Y' : Type} (eat : X -> ascii -> reading X Y) (eat' : X' -> ascii -> reading X' Y').
Context (inj : X -> X') (after : Y -> reading X' Y') (embeds : forall x b, eat' (inj x) b = embed eat' inj after (eat x b)).
Context (RE : X -> Z -> E -> Prop) (FE : Y -> Z -> E -> Prop) (R : X' -> Z -> P -> Prop) (F : Y' -> P -> Prop).
Context (weight : X -> Z) (weight' : X' -> Z) (turns : bytes -> Z) (weight_inj : forall x, weight' (inj x) = weight x).

(** What the protocol does at the end of the element. *)
Definition next_agrees (r : reading X' Y') (n progress : Z) (p : P) : Prop :=
  match r with
  | Goes x' => exists p', changeToNextParser p = (Ret true, p') /\ R x' n p' /\ weight' x' < progress
  | Ends y' rest => rest = [] /\ exists p', changeToNextParser p = (Ret true, p') /\ m_currentParser p' = None /\
      F y' (pd_set (set_pStatus (ws_set_finish true (p_writeStatus (pd p'))) (pd p')) p')
  | Refuses => exists p', changeToNextParser p = (Ret false, p')
  | Unspecified => True
  end.

Lemma round_of_member x n p buf :
  m_currentParser p = Some id -> element_agrees uninitialised eat RE FE weight turns x n buf (part p) ->
  (forall x' k e, RE x' k e -> R (inj x') k (set_part e p)) ->
  (forall w y e, 0 < w <= zlen buf -> reads eat (Goes x) (ztake w buf) = Ends y [] -> FE y (n - w) e ->
    next_agrees (after y) (n - w) (weight x + turns buf - turns (zdrop w buf)) (set_part e p)) ->
  round_agrees uninitialised eat' R F weight' turns (inj x) n buf p.
Proof.
  intros Hc Hel Hgoes Hends.
  assert (Hreads : forall l, reads eat' (Goes (inj x)) l = embed eat' inj after (reads eat (Goes x) l)).
  { intros l. exact (reads_embed eat eat' inj after embeds (Goes x) l). }
  assert (Hstep : forall w e, writeIntoParser uninitialised buf (ready (part p)) = (Ret w, e) ->
    writeIntoParser uninitialised (Impl := sub_impl id) buf (asked id p) = (Ret w, set_part e p)).
  { intros w e Hw. rewrite (round_of_part uninitialised id part set_part). by rewrite Hw. }
  assert (Hst : forall e, m_parseStatus (@sp M P (sub_impl id) (set_part e p)) = m_parseStatus (sp e)).
  { intros e. by rewrite (status_of_part id part set_part), part_set. }
  assert (Hfix : forall w r, r = Refuses \/ r = Unspecified -> reads eat' (Goes (inj x)) (ztake w buf) = r ->
    reads eat' (Goes (inj x)) buf = r) by (intros w r Hr; by apply reads_fixed).
  destruct Hel as [w e x' Hw Hwr Hs Hr Hre Hp|w e y Hw Hwr Hs Hr Hf|w e Hw Hwr Hs Hr|e Hw Hr|Hr].
  - apply (Continues _ _ _ _ _ _ _ _ _ _ id w (set_part e p) (inj x')); auto; [by rewrite Hst|by rewrite Hreads, Hr|].
    by rewrite !weight_inj.
  - pose proof (Hends w y e Hwr Hr Hf) as Hn.
    assert (He : reads eat' (Goes (inj x)) (ztake w buf) = after y) by (rewrite Hreads, Hr; done).
    destruct (after y) as [x2|y2 rest| |] eqn:Ea; cbn [next_agrees] in Hn.
    + destruct Hn as (p2 & Hch & Hr2 & Hlt).
      apply (Changes _ _ _ _ _ _ _ _ _ _ id w (set_part e p) p2 x2); auto; [by rewrite Hst|].
      right. rewrite weight_inj. lia.
    + destruct Hn as (-> & p2 & Hch & Hnone & Hf2).
      apply (Finishes _ _ _ _ _ _ _ _ _ _ id w (set_part e p) p2 y2); auto. by rewrite Hst.
    + destruct Hn as (p2 & Hch). apply (FailsChanging _ _ _ _ _ _ _ _ _ _ id w (set_part e p) p2); auto; [lia|by rewrite Hst|].
      by apply (Hfix w); [left|].
    + apply Unsaid. by apply (Hfix w); [right|].
  - apply (FailsParsing _ _ _ _ _ _ _ _ _ _ id w (set_part e p)); auto; [by rewrite Hst|]. by rewrite Hreads, Hr.
  - apply (FailsWriting _ _ _ _ _ _ _ _ _ _ id (set_part e p)); auto. by rewrite Hreads, Hr.
  - apply Unsaid. by rewrite Hreads, Hr.
Qed.
End Member.
