(* ===== verification/Lines.v ===== *)
(** * Lines

    Element parsers that look for the end of a line, CRLF, with a limit on the
    length of a line: a machine that takes a line byte by byte ([line_byte]),
    and what a write into such a parser does against it ([line_step]). *)

From S2P Require Import Prelude Mem SafeInt CText StreamableObject BBase BMem BChunk BChunks BChunksFacts BChunksSpec BRef SubParser SubParserSpec Parser Preserves Lens.

(** ** The end of a line *)

Definition ends_with_CRLF (l : bytes) : bool := bool_decide (zdrop (zlen l - 2) l = CRLF).

Lemma occurs_CRLF_split v pos :
  occurs CRLF v pos -> exists rest, v = ztake pos v ++ CRLF ++ rest.
Proof.
  intros (Hp & Hl & Hs). change (zlen CRLF) with 2 in *. exists (zdrop (pos + 2) v).
  rewrite <- Hs. unfold slice. rewrite <- (ztake_zdrop pos v) at 1. f_equal.
  rewrite <- (zdrop_zdrop 2 pos) by lia. by rewrite ztake_zdrop.
Qed.

Lemma ends_occurs l : ends_with_CRLF l = true -> occurs CRLF l (zlen l - 2).
Proof.
  unfold ends_with_CRLF. rewrite bool_decide_eq_true. intros He.
  pose proof (f_equal zlen He) as Hl. rewrite zlen_zdrop in Hl. change (zlen CRLF) with 2 in Hl.
  pose proof (zlen_nonneg l). split; [lia|]. change (zlen CRLF) with 2. split; [lia|].
  unfold slice. rewrite He. apply ztake_ge. done.
Qed.

Lemma ends_app l : ends_with_CRLF (l ++ CRLF) = true.
Proof.
  unfold ends_with_CRLF. rewrite bool_decide_eq_true, zlen_app. change (zlen CRLF) with 2.
  replace (zlen l + 2 - 2) with (zlen l) by lia. apply zdrop_length_app.
Qed.

Lemma occurs_app_l d v w q : occurs d v q -> occurs d (v ++ w) q.
Proof.
  intros (Hq & Hl & Hs). split; [done|]. rewrite zlen_app. pose proof (zlen_nonneg w). split; [lia|].
  unfold slice in *. pose proof (zlen_nonneg d). rewrite zdrop_app_le by lia.
  by rewrite ztake_app_le by (rewrite zlen_zdrop; lia).
Qed.

Lemma line_of_first v pos :
  first_occurrence CRLF v 0 (Some pos) ->
  exists rest, v = ztake pos v ++ CRLF ++ rest /\ zlen (ztake pos v) = pos /\
    forall q, occurs CRLF (ztake pos v ++ CRLF) q -> pos <= q.
Proof.
  intros (_ & Ho & Hmin). destruct (occurs_CRLF_split v pos Ho) as [rest Hs]. exists rest. split; [done|].
  destruct Ho as (Hp & Hl & _). change (zlen CRLF) with 2 in Hl. split; [rewrite zlen_ztake; lia|].
  intros q Hq. pose proof Hq as (Hq0 & _). destruct (Z.lt_ge_cases q pos); [|done]. exfalso.
  apply (Hmin q); [lia|]. rewrite Hs, app_assoc. by apply occurs_app_l.
Qed.

(** The part of a write that ends a line. *)
Lemma line_taken pending buf k pos :
  let v := pending ++ ztake k buf in
  let line := ztake pos v in
  let w := pos - zlen pending + 2 in
  (forall q, ~ occurs CRLF pending q) -> 0 <= k <= zlen buf -> first_occurrence CRLF v 0 (Some pos) ->
  0 < w <= zlen buf /\ pending ++ ztake w buf = line ++ CRLF /\ ztake w buf <> [] /\ zlen line + 2 <= zlen v /\
  (forall q, occurs CRLF (line ++ CRLF) q -> zlen line <= q) /\ 0 < count_LF (ztake w buf).
Proof.
  cbn zeta. intros Hno Hk Hf. set (v := pending ++ ztake k buf) in *. set (w := pos - zlen pending + 2).
  assert (Hzv : zlen v = zlen pending + k) by (unfold v; rewrite zlen_app, zlen_ztake; lia).
  pose proof (zlen_nonneg pending). destruct (line_of_first v pos Hf) as (rest & Hsplit & Hzl & Hfirst).
  set (line := ztake pos v) in *.
  assert (Hpos : zlen pending < pos + 2 <= zlen v).
  { destruct Hf as (_ & Ho & _). split; [|destruct Ho as (_ & Hl & _); exact Hl].
    apply (no_occurrence_later CRLF pending (ztake k buf)); [intros (q & Hq); by apply (Hno q)|exact Ho]. }
  assert (Htake : pending ++ ztake w buf = line ++ CRLF).
  { assert (Hw : ztake w buf = ztake w (ztake k buf)) by (rewrite ztake_ztake; f_equal; lia).
    rewrite Hw. transitivity (ztake (pos + 2) v).
    - unfold v. rewrite ztake_app_ge by lia. do 2 f_equal. unfold w. lia.
    - rewrite Hsplit, app_assoc. replace (pos + 2) with (zlen (line ++ CRLF)); [apply ztake_length_app|].
      rewrite zlen_app, Hzl. done. }
  assert (Hwn : ztake w buf <> []) by (intros Hz%(f_equal zlen); rewrite zlen_ztake in Hz; change (zlen []) with 0 in Hz; lia).
  split; [lia|]. split; [done|]. split; [done|]. split; [lia|]. split; [by rewrite Hzl|].
  destruct (exists_last Hwn) as (l' & b & Hb'). rewrite Hb' in Htake |- *. rewrite app_assoc in Htake.
  change CRLF with ([CR] ++ [LF]) in Htake. rewrite (app_assoc line) in Htake. apply app_inj_tail in Htake as [_ ->].
  rewrite count_LF_app, count_LF_cons. pose proof (count_LF_nonneg l'). change (count_LF []) with 0. lia.
Qed.

Lemma count_LF_take k l : count_LF l = count_LF (ztake k l) + count_LF (zdrop k l).
Proof. by rewrite <- count_LF_app, ztake_zdrop. Qed.

Lemma u64_back a b : u64 (u64 a + b) = u64 (a + b).
Proof. unfold u64. by rewrite Zplus_mod_idemp_l. Qed.

(** ** One byte of a line *)

Section Machine.
Context {X Y : Type} (eat : X -> ascii -> reading X Y).
(** [L pending] is the state after [pending] of a line; a line of [limit]
    bytes with its end is the longest. *)
Context (limit : Z) (L : bytes -> X) (on_line : bytes -> reading X Y).

Definition line_byte (pending : bytes) (b : ascii) : reading X Y :=
  let p := pending ++ [b] in
  if zlen p >? limit then Refuses
  else if ends_with_CRLF p then on_line (ztake (zlen p - 2) p)
  else Goes (L p).

Hypothesis eat_line : forall pending b, eat (L pending) b = line_byte pending b.

Lemma reads_line pending l :
  (forall q, ~ occurs CRLF (pending ++ l) q) -> zlen (pending ++ l) <= limit ->
  reads eat (Goes (L pending)) l = Goes (L (pending ++ l)).
Proof.
  revert pending. induction l as [|b l IH]; intros pending Hno Hl; [by rewrite app_nil_r|].
  assert (Hsplit : pending ++ b :: l = (pending ++ [b]) ++ l) by by rewrite <- app_assoc.
  rewrite Hsplit in Hno, Hl |- *. cbn [reads]. rewrite eat_line. unfold line_byte. cbn zeta.
  rewrite (zlen_app (pending ++ [b])) in Hl. pose proof (zlen_nonneg l).
  replace (zlen (pending ++ [b]) >? limit) with false by lia.
  destruct (ends_with_CRLF (pending ++ [b])) eqn:Ee.
  - exfalso. apply ends_occurs in Ee. by eapply Hno, occurs_app_l.
  - apply IH; [done|]. rewrite zlen_app. lia.
Qed.

(** The byte that ends a line. *)
Lemma reads_line_end pending l line :
  pending ++ l = line ++ CRLF -> l <> [] -> zlen line + 2 <= limit ->
  (forall q, occurs CRLF (line ++ CRLF) q -> zlen line <= q) ->
  reads eat (Goes (L pending)) l = on_line line.
Proof.
  intros He Hne Hlim Hfirst. destruct (exists_last Hne) as (l' & b & ->).
  rewrite reads_app. assert (Hv : pending ++ l' = line ++ [chr 13] /\ b = chr 10).
  { rewrite app_assoc in He. change CRLF with ([chr 13] ++ [chr 10]) in He. rewrite (app_assoc line) in He.
    by apply app_inj_tail in He. }
  destruct Hv as [Hv ->]. assert (Hz : zlen (pending ++ l') = zlen line + 1) by (rewrite Hv, zlen_app; done).
  rewrite reads_line; [|intros q Hq|lia].
  - rewrite Hv. cbn [reads]. rewrite eat_line. unfold line_byte. cbn zeta. rewrite <- app_assoc.
    change ([chr 13] ++ [chr 10]) with CRLF.
    rewrite ends_app, zlen_app. change (zlen CRLF) with 2. replace (zlen line + 2 >? limit) with false by lia.
    replace (zlen line + 2 - 2) with (zlen line) by lia. by rewrite ztake_length_app.
  - pose proof Hq as (_ & Hl & _). rewrite Hz in Hl. change (zlen CRLF) with 2 in Hl.
    pose proof (Hfirst q) as Hf. rewrite Hv in Hq. apply (occurs_app_l _ _ [chr 10]) in Hq.
    rewrite <- app_assoc in Hq. specialize (Hf Hq). lia.
Qed.

Lemma reads_line_over pending b l : zlen pending = limit -> reads eat (Goes (L pending)) (b :: l) = Refuses.
Proof.
  intros Hl. cbn [reads]. rewrite eat_line. unfold line_byte. rewrite zlen_app. change (zlen [b]) with 1.
  replace (zlen pending + 1 >? limit) with true by lia. by destruct l.
Qed.

(** A line, whole. *)
Lemma reads_whole_line line rest :
  (forall q, occurs CRLF (line ++ CRLF) q -> zlen line <= q) -> zlen line + 2 <= limit ->
  reads eat (Goes (L [])) (line ++ CRLF ++ rest) = reads eat (on_line line) rest.
Proof.
  intros Hf Hl. rewrite app_assoc, reads_app. f_equal. apply reads_line_end; [done| |done|done].
  intros Hn%(f_equal zlen). rewrite zlen_app in Hn. pose proof (zlen_nonneg line). change (zlen CRLF) with 2 in Hn.
  change (zlen []) with 0 in Hn. lia.
Qed.

(** ** A write into a parser of lines *)

Section Element.
Context {M : Type} `{BBase M, MmapFactory M} (uninitialised : Z -> bytes) {E : Type} `{SubParserLaws M E}.
Implicit Types e : E.

(** The element parser in the middle of a line. *)
Definition line_ok (pending : bytes) e : Prop :=
  m_parseMode (sp e) = PARSE_MODE_DELIMITER /\ m_parseDelimiter (sp e) = CRLF /\ m_streamEnded (sp e) = false /\
   buffer_ok limit (m_unparsedBuffer (sp e)) /\ buf_view e = pending /\ forall q, ~ occurs CRLF pending q.

(** The base of [e], with another buffer and other positions in it. *)
Definition same_base (s s' : SubParser M) : Prop :=
  m_parseMode s = m_parseMode s' /\ m_parseDelimiter s = m_parseDelimiter s' /\ m_streamEnded s = m_streamEnded s' /\
   m_maxChunks (m_unparsedBuffer s) = m_maxChunks (m_unparsedBuffer s').

Lemma appended_ready u e :
  appended u (ready e) =
  sp_set (sp_reference 0 SIZE_MAX (set_unparsedBuffer u (setParseStatus PARSE_GET_MORE_DATA (sp e)))) e.
Proof. unfold appended, delivered, with_unparsed, ready. by rewrite !sp_sp_set, !sp_set_set. Qed.

Inductive line_outcome (pending buf : bytes) e : Prop :=
| LineFull :
    writeIntoParser uninitialised buf (ready e) = (Ret None, ready e) ->
    reads eat (Goes (L pending)) buf = Refuses -> line_outcome pending buf e
| LineGoesOn k s :
    0 < k <= zlen buf -> writeIntoParser uninitialised buf (ready e) = (Ret (Some k), sp_set s e) ->
    m_parseStatus s = PARSE_GET_MORE_DATA -> same_base s (sp e) -> buffer_ok limit (m_unparsedBuffer s) ->
    ck_view (m_unparsedBuffer s) = pending ++ ztake k buf -> (forall q, ~ occurs CRLF (pending ++ ztake k buf) q) ->
    reads eat (Goes (L pending)) (ztake k buf) = Goes (L (pending ++ ztake k buf)) ->
    k = zlen buf \/ zlen (pending ++ ztake k buf) = limit /\ (zlen pending < limit) -> line_outcome pending buf e
| LineEnds w line s :
    0 < w <= zlen buf -> pending ++ ztake w buf = line ++ CRLF -> zlen line + 2 <= limit ->
    reads eat (Goes (L pending)) (ztake w buf) = on_line line -> 0 < count_LF (ztake w buf) -> zlen pending < limit ->
    toStringEx (getParsedBuffer s) = line /\ BRef.size (getParsedBuffer s) = zlen line ->
    same_base s (sp e) -> buffer_ok limit (m_unparsedBuffer s) ->
    (forall r e', parse (sp_set s e) = (Ret r, e') -> m_parseDelimiter (sp e') = CRLF ->
      writeIntoParser uninitialised buf (ready e) = (Ret (Some w), after_parse r e')) -> line_outcome pending buf e.

Lemma line_step pending buf e :
  line_ok pending e -> buf <> [] -> zlen buf <= SSIZE_MAX -> line_outcome pending buf e.
Proof.
  intros (Hpm & Hd & He & Hb & Hv & Hno) Hne Hbl. pose proof (zlen_pos buf Hne). pose proof (zlen_nonneg pending).
  pose proof Hb as (_ & _ & _ & Hlr & _ & Hpl). fold (buf_view e) in Hpl. rewrite Hv in Hpl.
  assert (Hrun := parseByDelimiter_run limit (ready e) buf). unfold buf_view in Hrun. rewrite ready_sp in Hrun.
  cbn [m_unparsedBuffer m_parseDelimiter setParseStatus] in Hrun. fold (buf_view e) in Hrun. rewrite Hd, Hv in Hrun.
  specialize (Hrun Hb ltac:(discriminate) ltac:(vm_compute; discriminate)). cbn zeta in Hrun.
  replace (0 <? zlen buf) with true in Hrun by lia. rewrite andb_true_r in Hrun.
  assert (Hw : writeIntoParser uninitialised buf (ready e) = parseByDelimiter buf (ready e)).
  { rewrite writeIntoParser_data by done. rewrite ready_sp. cbn [m_parseMode setParseStatus]. by rewrite Hpm. }
  destruct (limit - zlen pending =? 0) eqn:El; zbool.
  { apply LineFull; [by rewrite Hw|]. destruct buf as [|b buf]; [done|]. apply reads_line_over. lia. }
  destruct Hrun as (u & f & Hok & Hvu & Hcu & Hf & Hrun). rewrite Hvu in Hf. rewrite <- Hw in Hrun. clear Hw.
  rewrite appended_ready in Hrun. set (s0 := sp_reference 0 SIZE_MAX _) in Hrun.
  set (k := Z.min (zlen buf) (limit - zlen pending)) in *.
  assert (Hk : zlen (ztake k buf) = k) by (rewrite zlen_ztake; lia). set (v := pending ++ ztake k buf) in *.
  assert (Hzv : zlen v = zlen pending + k) by (unfold v; rewrite zlen_app; lia).
  assert (Hs0 : same_base s0 (sp e)) by by split; [|split; [|split]].
  unfold delimiter_outcome in Hrun. destruct f as [pos|].
  - destruct (line_taken pending buf k pos Hno ltac:(lia) Hf) as (Hwr & Htake & Hwn & Hlim & Hfirst & Hlf).
    fold v in Htake, Hfirst, Hlim. set (line := ztake pos v) in *. set (w := pos - zlen pending + 2) in *.
    assert (Hdel : delivered pos (sp_set s0 e) = sp_set (sp_reference 0 pos s0) e)
      by (unfold delivered; by rewrite sp_sp_set, sp_set_set).
    apply (LineEnds _ _ _ w line (sp_reference 0 pos s0)); try done; try lia.
    + by apply (reads_line_end pending (ztake w buf) line Htake Hwn ltac:(lia)).
    + assert (Hp : 0 <= pos <= zlen (ck_view (m_unparsedBuffer s0))).
      { destruct Hf as (_ & (Hp0 & Hl & _) & _). change (zlen CRLF) with 2 in Hl. change (m_unparsedBuffer s0) with u. rewrite Hvu. lia. }
      rewrite (sp_reference_size limit s0 pos Hok Hp). destruct (sp_reference_view limit s0 pos Hok Hp) as [_ ->].
      change (m_unparsedBuffer s0) with u in *. rewrite Hvu in *. split; [done|]. unfold line. rewrite zlen_ztake. lia.
    + intros r e' Hparse Hdc. rewrite Hrun, Hdel, Hparse. do 3 f_equal. rewrite u64_back.
      replace (m_parseDelimiter (sp (after_parse r e'))) with CRLF.
      * change (zlen CRLF) with 2. apply u64_small, size_arith. lia.
      * unfold after_parse, with_unparsed. by rewrite !sp_sp_set.
  - rewrite sp_sp_set in Hrun. change (m_streamEnded s0) with (m_streamEnded (sp e)) in Hrun. rewrite He in Hrun.
    assert (Hnov : forall q, ~ occurs CRLF v q) by (intros q Hq; apply (Hf q); [apply Hq|done]).
    apply (LineGoesOn _ _ _ k s0); try done; try lia.
    + apply reads_line; [exact Hnov|fold v; lia].
    + fold v. destruct (decide (k = zlen buf)); [by left|right]. lia.
Qed.

(** The parser after a write that did not end the line, and after a line. *)
Lemma line_goes_ok v s e :
  (exists pending, line_ok pending e) -> same_base s (sp e) -> buffer_ok limit (m_unparsedBuffer s) ->
  ck_view (m_unparsedBuffer s) = v -> (forall q, ~ occurs CRLF v q) -> line_ok v (sp_set s e).
Proof.
  intros (pending & Hpm & Hd & He & _) (Em & Ed & Ee & _) Hb Hv Hno. unfold line_ok, buf_view. rewrite sp_sp_set.
  rewrite Em, Ed, Ee. by repeat (split; [done|]).
Qed.

Lemma nothing_occurs q : ~ occurs CRLF [] q.
Proof. intros (Hq & Hl & _). change (zlen CRLF) with 2 in Hl. change (zlen []) with 0 in Hl. lia. Qed.

Lemma line_next_ok r s e e' :
  (exists pending, line_ok pending e) -> same_base s (sp e) -> buffer_ok limit (m_unparsedBuffer s) ->
  sp e' = s -> line_ok [] (after_parse r e') /\ same_base (sp (after_parse r e')) (sp e).
Proof.
  intros (pending & Hpm & Hd & He & _) (Em & Ed & Ee & Ec) Hb Hs. destruct (buffer_cleared limit _ Hb) as [Hb' Hv'].
  unfold line_ok, same_base, buf_view, after_parse, with_unparsed. rewrite !sp_sp_set, Hs.
  cbn [m_parseMode m_parseDelimiter m_streamEnded m_unparsedBuffer set_unparsedBuffer setParseStatus].
  rewrite Em, Ed, Ee. split; [|by repeat (split; [done|])].
  do 3 (split; [done|]). split; [exact Hb'|]. split; [exact Hv'|]. exact nothing_occurs.
Qed.
End Element.
End Machine.

(** ** Element parsers that read lines

    [on_line a line] is what an element parser with the data [a] makes of a
    line: it goes on with other data, it ends or it fails. *)

(** The rounds a write can need: at most three for each line end, and those of
    the line that is being read. *)
Definition turns (l : bytes) : Z := 3 * count_LF l.

Lemma turns_take k l : turns l = turns (ztake k l) + turns (zdrop k l).
Proof. unfold turns. rewrite (count_LF_take k l). lia. Qed.

Lemma turns_nonneg l : 0 <= turns l.
Proof. unfold turns. pose proof (count_LF_nonneg l). lia. Qed.

Definition line_weight (limit : Z) (pending : bytes) : Z := if zlen pending <? limit then 2 else 1.

Lemma line_weight_bounds limit pending : 1 <= line_weight limit pending <= 2.
Proof. unfold line_weight. case_cond; lia. Qed.

Section LineElement.
Context {A Y : Type} (limit : Z) (on_line : A -> bytes -> reading A Y).

Definition next_line (r : reading A Y) : reading (A * bytes) Y :=
  match r with Goes a => Goes (a, []) | Ends y rest => Ends y rest | Refuses => Refuses | Unspecified => Unspecified end.

Definition eat_line (x : A * bytes) (b : ascii) : reading (A * bytes) Y :=
  line_byte limit (fun pending => (fst x, pending)) (fun line => next_line (on_line (fst x) line)) (snd x) b.

Context {M : Type} `{BBase M, MmapFactory M} (uninitialised : Z -> bytes) {E : Type} `{SubParserLaws M E}.
Implicit Types e : E.
(** The data of the element parser, and what it has when it ends; the base is
    not part of them. *)
Context (data : A -> E -> Prop) (finished : Y -> E -> Prop).
Context (data_base : forall a s e, data a e -> data a (sp_set s e)) (finished_base : forall y s e, finished y e -> finished y (sp_set s e)).
Context (parse_line : forall a line e, data a e -> toStringEx (getParsedBuffer (sp e)) = line /\ BRef.size (getParsedBuffer (sp e)) = zlen line ->
  zlen line + 2 <= limit ->
  match on_line a line with
  | Goes a' => exists e', parse e = (Ret PARSE_GET_MORE_DATA, e') /\ sp e' = sp e /\ data a' e'
  | Ends y rest => rest = [] /\ exists e', parse e = (Ret PARSE_GOTO_NEXT_SUBPARSER, e') /\ sp e' = sp e /\ finished y e'
  | Refuses => exists e', parse e = (Ret PARSE_ERROR, e') /\ sp e' = sp e
  | Unspecified => True
  end).

Definition lines_ok (x : A * bytes) (n : Z) e : Prop := line_ok limit (snd x) e /\ data (fst x) e.
Definition lines_done (y : Y) (n : Z) e : Prop := finished y e.
Definition lines_weight (x : A * bytes) : Z := line_weight limit (snd x).

Lemma after_parse_status r e : m_parseStatus (sp (after_parse r e)) = r.
Proof. unfold after_parse, with_unparsed. by rewrite !sp_sp_set. Qed.

Lemma lines_agree x n buf e :
  lines_ok x n e -> buf <> [] -> zlen buf <= SSIZE_MAX ->
  element_agrees uninitialised eat_line lines_ok lines_done lines_weight turns x n buf e.
Proof.
  destruct x as [a pending]. intros [Hline Hdata] Hne Hl.
  assert (Heat : forall pending b, eat_line (a, pending) b =
    line_byte limit (fun pending => (a, pending)) (fun line => next_line (on_line a line)) pending b) by done.
  destruct (line_step eat_line limit (fun pending => (a, pending)) _ Heat uninitialised pending buf e Hline Hne Hl)
    as [Hw Hr|k s Hk Hw Hs Hb Hok Hv Hno Hr Hp|w line s Hw Htake Hlim Hr Hlf Hpl Htxt Hb Hok Hstep].
  - by eapply ElementFails.
  - eapply (ElementGoes _ _ _ _ _ _ _ _ _ _ k _ (a, pending ++ ztake k buf)); [exact Hw|lia|by rewrite sp_sp_set|exact Hr| |].
    + split; [|by apply data_base]. apply (line_goes_ok limit _ s e); [by exists pending|done|done|done|done].
    + destruct Hp as [?|[Hz Hp]]; [by left|right]. unfold lines_weight, line_weight. cbn [snd]. rewrite Hz, (turns_take k buf).
      pose proof (turns_nonneg (ztake k buf)). rewrite Z.ltb_irrefl. replace (zlen pending <? limit) with true by lia. lia.
  - pose proof Hline as (_ & Hd & _). pose proof Hb as (_ & Ed & _). rewrite Hd in Ed.
    pose proof (parse_line a line (sp_set s e) (data_base _ _ _ Hdata)) as Hparse. rewrite sp_sp_set in Hparse.
    specialize (Hparse Htxt Hlim). destruct (on_line a line) as [a'|y rest| |] eqn:El; cbn [next_line] in Hr.
    + destruct Hparse as (e' & Hpe & Hse & Hda).
      eapply (ElementGoes _ _ _ _ _ _ _ _ _ _ w _ (a', [])); [apply (Hstep _ _ Hpe); by rewrite Hse|lia|by apply after_parse_status|exact Hr| |].
      * split; [|by apply data_base, data_base]. apply (line_next_ok limit PARSE_GET_MORE_DATA s e e'); [by exists pending|exact Hb|done|done].
      * right. unfold lines_weight, line_weight, turns. cbn [snd]. rewrite (count_LF_take w buf).
        replace (zlen pending <? limit) with true by lia. change (zlen []) with 0. case_cond; lia.
    + destruct Hparse as (-> & e' & Hpe & Hse & Hda).
      eapply (ElementEnds _ _ _ _ _ _ _ _ _ _ w); [apply (Hstep _ _ Hpe); by rewrite Hse|lia|by apply after_parse_status|exact Hr|].
      by apply finished_base, finished_base.
    + destruct Hparse as (e' & Hpe & Hse).
      eapply (ElementRefuses _ _ _ _ _ _ _ _ _ _ w); [apply (Hstep _ _ Hpe); by rewrite Hse|lia|by apply after_parse_status|].
      apply (reads_fixed _ _ w); [by left|exact Hr].
    + apply ElementUnsaid. apply (reads_fixed _ _ w); [by right|exact Hr].
Qed.

(** An element parser ends at the end of a line. *)
Lemma ends_at_LF x b y rest : eat_line x b = Ends y rest -> b = LF.
Proof.
  unfold eat_line, line_byte. case_cond; [done|]. destruct (ends_with_CRLF (snd x ++ [b])) eqn:He0; [|done]. intros _.
  apply ends_occurs, occurs_CRLF_split in He0 as [r He]. rewrite zlen_app in He. change (zlen [b]) with 1 in He.
  pose proof (f_equal zlen He) as Hz. rewrite !zlen_app, zlen_ztake in Hz. change (zlen [b]) with 1 in Hz. change (zlen CRLF) with 2 in Hz.
  pose proof (zlen_nonneg (snd x)). rewrite zlen_app in Hz. change (zlen [b]) with 1 in Hz. pose proof (zlen_nonneg r).
  destruct r as [|? ?]; [|rewrite zlen_cons in *; pose proof (zlen_nonneg r); lia].
  rewrite app_nil_r in He. change CRLF with ([CR] ++ [LF]) in He. rewrite app_assoc in He. by apply app_inj_tail in He as [_ ->].
Qed.

Lemma ends_turns x l y rest : reads eat_line (Goes x) l = Ends y rest -> 3 <= turns l.
Proof.
  unfold turns. revert x. induction l as [|b l IH]; intros x; cbn [reads]; [done|].
  change (b :: l) with ([b] ++ l). rewrite count_LF_app. pose proof (count_LF_nonneg l). pose proof (count_LF_nonneg [b]).
  destruct (eat_line x b) as [x'|y' r'| |] eqn:Hb; intros Hr; [apply IH in Hr; lia| |by destruct l|by destruct l].
  apply ends_at_LF in Hb. subst b. rewrite (count_LF_cons []). change (count_LF []) with 0. lia.
Qed.
End LineElement.
