(* ===== verification/LineRecv.v ===== *)
(** * Line protocol (Protocol_LineRecv/linerecv.cpp, linerecv_subparser.cpp)

    A receiver of lines ended by LF or CR. [processParsedLine], the pure
    virtual member a program derives it for, is a parameter: it works on the
    derived object's own state [U] and says whether to go on.

    The theorem of the file: for a text without CR whose lines fit the
    configured size, the lines processed are those of the text, and do not
    depend on how the text is cut into writes. *)

From S2P Require Import Prelude Mem SafeInt StreamableObject BBase BMem BChunk BChunks BChunksFacts BChunksSpec BRef SubParser SubParserSpec MultiDelim Parser.

(** ** LineRecv_SubParser *)

Record LineRecv_SubParser (M : Type) : Type := mkLineSub {
  ls_base : SubParser M;
  m_parsedString : bytes
}.
Arguments mkLineSub {M}. Arguments ls_base {M}. Arguments m_parsedString {M}.

Section LineRecv.
Context {M : Type} `{BBase M, MmapFactory M} (uninitialised : Z -> bytes).
Context {U : Type} (processParsedLine : bytes -> U -> bool * U).

Definition setMaxObjectSize (size : Z) (s : LineRecv_SubParser M) : LineRecv_SubParser M :=
  mkLineSub (setParseDataTargetSize size (ls_base s)) (m_parsedString s).

Definition LineRecv_SubParser_new : LineRecv_SubParser M :=
  let s := setParseMode PARSE_MODE_MULTIDELIMITER SubParser_new in
  let s := setParseMultiDelimiter [[LF]; [CR]] s in
  let s := setMaxObjectSize 65536 (mkLineSub s []) in
  mkLineSub (set_subParserName "LineRecv_SubParser" (ls_base s)) (m_parsedString s).

(** ** LineRecv *)

Record LineRecv : Type := mkLineRecv {
  lr_data : ParserData;
  lr_current : option unit;
  m_subParser : LineRecv_SubParser M;
  lr_user : U
}.

Definition set_sub (s : LineRecv_SubParser M) (p : LineRecv) : LineRecv :=
  mkLineRecv (lr_data p) (lr_current p) s (lr_user p).

(** The constructor: the subparser is current. *)
Definition LineRecv_new (u : U) : LineRecv :=
  mkLineRecv (set_initialized true (ParserData_new false)) (Some tt) LineRecv_SubParser_new u.

Definition setMaxLineSize (maxLineSize : Z) (p : LineRecv) : LineRecv :=
  set_sub (setMaxObjectSize maxLineSize (m_subParser p)) p.

(** [LineRecv_SubParser::parse]. *)
Definition LineRecv_parse : st LineRecv ParseStatus := fun p =>
  let s := m_subParser p in
  (Ret PARSE_GOTO_NEXT_SUBPARSER,
   set_sub (mkLineSub (ls_base s) (toStringEx (getParsedBuffer (ls_base s)))) p).

Definition changeToNextParser : st LineRecv bool := fun p =>
  let (ok, u) := processParsedLine (m_parsedString (m_subParser p)) (lr_user p) in
  if negb ok then (Ret false, mkLineRecv (lr_data p) None (m_subParser p) u)
  else (Ret true, mkLineRecv (lr_data p) (lr_current p) (m_subParser p) u).

#[export] Instance LineRecv_sub : SubParserImpl M LineRecv := {
  sp p := ls_base (m_subParser p);
  sp_set s p := set_sub (mkLineSub s (m_parsedString (m_subParser p))) p;
  parse := LineRecv_parse
}.

#[export] Instance LineRecv_laws : SubParserLaws M LineRecv.
Proof. split; [done|done|by intros [? ? [] ?]]. Qed.

#[export] Instance LineRecv_protocol : Protocol M LineRecv := {
  pd := lr_data;
  pd_set d p := mkLineRecv d (lr_current p) (m_subParser p) (lr_user p);
  sub_id := unit;
  sub_impl _ := LineRecv_sub;
  m_currentParser := lr_current;
  initProtocol := ret true;
  endProtocol := ret tt;
  changeToNextParser := changeToNextParser
}.

(** ** The specification: one character at a time *)

(** The text received since the last line, the program's state, and whether
    it still wants lines. *)
Fixpoint feed (pending : bytes) (u : U) (text : bytes) : bool * bytes * U :=
  match text with
  | [] => (true, pending, u)
  | c :: text =>
      if decide (c = LF) then
        let (ok, u) := processParsedLine pending u in
        if ok then feed [] u text else (false, [], u)
      else feed (pending ++ [c]) u text
  end.

(** Every line of the text, with its end, fits [m] bytes, and so does what
    follows the last one. *)
Fixpoint fits (m n : Z) (text : bytes) : Prop :=
  match text with
  | [] => True
  | c :: text => n + 1 <= m /\ fits m (if decide (c = LF) then 0 else n + 1) text
  end.

Lemma feed_app pending u t1 t2 :
  feed pending u (t1 ++ t2) =
  match feed pending u t1 with
  | (true, pending, u) => feed pending u t2
  | (false, pending, u) => (false, pending, u)
  end.
Proof.
  revert pending u. induction t1 as [|c t1 IH]; intros pending u; [done|]. cbn [app feed].
  case_decide; [|apply IH]. destruct (processParsedLine pending u) as [[|] u']; [apply IH|done].
Qed.

Lemma feed_line pending u l :
  LF ∉ l -> feed pending u l = (true, pending ++ l, u).
Proof.
  revert pending. induction l as [|c l IH]; intros pending Hl; [by rewrite app_nil_r|].
  apply not_elem_of_cons in Hl as [Hc Hl]. cbn [feed]. rewrite decide_False by congruence.
  rewrite IH by done. by rewrite <- app_assoc.
Qed.

Lemma fits_app m n t1 t2 :
  LF ∉ t1 -> 0 <= n -> fits m n (t1 ++ t2) -> (t1 = [] \/ n + zlen t1 <= m) /\ fits m (n + zlen t1) t2.
Proof.
  revert n. induction t1 as [|c t1 IH]; intros n Hl Hn Hf.
  { change (zlen (@nil ascii)) with 0. rewrite Z.add_0_r. auto. }
  apply not_elem_of_cons in Hl as [Hc Hl]. cbn [app fits] in Hf. rewrite decide_False in Hf by congruence.
  destruct Hf as [Hm Hf]. apply IH in Hf as [Hd Hf]; [|done|lia]. rewrite zlen_cons.
  replace (n + (1 + zlen t1)) with (n + 1 + zlen t1) by lia. split; [|done]. right.
  destruct Hd as [->|?]; [|lia]. change (zlen (@nil ascii)) with 0. lia.
Qed.

Lemma fits_LF m n t : fits m n (LF :: t) -> n + 1 <= m /\ fits m 0 t.
Proof. cbn [fits]. by rewrite decide_True. Qed.

(** ** One round of the parser *)

(** A receiver that has taken [pending] since the last line. *)
Definition lr_ok (m ttl : Z) (p : LineRecv) (pending : bytes) (u : U) : Prop :=
  buffer_ok m (m_unparsedBuffer (sp p)) /\ buf_view p = pending /\
  m_parseMode (sp p) = PARSE_MODE_MULTIDELIMITER /\ m_parseMultiDelimiter (sp p) = [[LF]; [CR]] /\
  m_streamEnded (sp p) = false /\ lr_current p = Some tt /\ lr_user p = u /\
  m_maxTTL (lr_data p) = ttl /\ (LF ∉ pending) /\ (CR ∉ pending).

Abbreviation asked := (asked (Prot := LineRecv_protocol) tt).

Lemma asked_run (p : LineRecv) buf :
  buf <> [] -> m_parseMode (sp p) = PARSE_MODE_MULTIDELIMITER ->
  writeIntoParser uninitialised buf (asked p) = parseByMultiDelimiter buf (asked p).
Proof.
  intros Hne Hm. rewrite writeIntoParser_data by done.
  change (m_parseMode (sp (asked p))) with (m_parseMode (sp p)). by rewrite Hm.
Qed.

Lemma multi_no_line m ttl p pending u buf :
  lr_ok m ttl p pending u -> buf <> [] -> LF ∉ buf -> CR ∉ buf -> zlen pending < m ->
  let k := Z.min (zlen buf) (m - zlen pending) in
  exists p', parseByMultiDelimiter buf (asked p) = (Ret (Some k), p') /\
    lr_ok m ttl p' (pending ++ ztake k buf) u /\ m_parseStatus (sp p') = PARSE_GET_MORE_DATA.
Proof.
  intros (Hok & Hv & Hmode & Hmd & He & Hc & Hu & Ht & Hl & Hr) Hne Hlb Hcb Hfit. cbn zeta.
  set (k := Z.min (zlen buf) (m - zlen pending)).
  assert (Hno : forall ch, ch ∉ pending -> ch ∉ buf -> ch ∉ pending ++ buf) by (intros; rewrite elem_of_app; tauto).
  pose proof (multi_none (T := LineRecv) m (asked p) [LF; CR] buf) as Hrun0.
  destruct (Hrun0 Hok Hmd He) as (c & Hokc & Hvc & Hrun); clear Hrun0;
    change (buf_view (asked p)) with (buf_view p) in *; rewrite Hv in *; [done|by repeat constructor; apply Hno|].
  exists (searched [] c (asked p)). split; [exact Hrun|]. split; [|done]. split; [exact Hokc|]. split; [exact Hvc|].
  assert (Hsub : forall ch, ch ∉ pending -> ch ∉ buf -> ch ∉ pending ++ ztake k buf).
  { intros ch H1 H2. rewrite elem_of_app. intros [?|Hin]; [done|]. apply H2. rewrite <- (ztake_zdrop k buf).
    apply elem_of_app. by left. }
  repeat (split; [done|]). split; by apply Hsub.
Qed.

Lemma multi_line m ttl p pending u l r :
  lr_ok m ttl p pending u -> LF ∉ l -> zlen pending + zlen l + 1 <= m ->
  exists p', parseByMultiDelimiter (l ++ LF :: r) (asked p) = (Ret (Some (zlen l + 1)), p') /\
    lr_ok m ttl p' [] u /\ m_parseStatus (sp p') = PARSE_GOTO_NEXT_SUBPARSER /\
    m_parsedString (m_subParser p') = pending ++ l.
Proof.
  intros (Hok & Hv & Hmode & Hmd & He & Hc & Hu & Ht & Hl & Hr) Hll Hfit.
  pose proof (multi_found (T := LineRecv) m (asked p) LF [[CR]] l r) as Hrun0.
  destruct (Hrun0 Hok Hmd) as (c & t1 & Hokc & (-> & _ & Hstr & _) & Hrun); clear Hrun0;
    change (buf_view (asked p)) with (buf_view p) in *; try rewrite Hv in *;
    [apply (needles_single [CR])|by rewrite elem_of_app; tauto|done|].
  set (t1 := delivered _ _) in *. rewrite Hrun. change (parse t1) with (LineRecv_parse t1). unfold LineRecv_parse.
  change (ls_base (m_subParser t1)) with (sp t1). rewrite Hstr.
  eexists. split; [done|]. destruct (buffer_cleared m c Hokc) as [Hokcl Hvcl].
  split; [|done]. split; [exact Hokcl|]. split; [exact Hvcl|].
  repeat (split; [done|]). split; apply not_elem_of_nil.
Qed.

(** ** Whole writes *)

Abbreviation go_on := (go_on uninitialised (Prot := LineRecv_protocol)).

Lemma round fuel buf t p :
  buf <> [] -> t <= m_maxTTL (lr_data p) -> 0 <= t -> m_maxTTL (lr_data p) < SIZE_MAX ->
  lr_current p = Some tt -> m_parseMode (sp p) = PARSE_MODE_MULTIDELIMITER ->
  forall w p1, parseByMultiDelimiter buf (asked p) = (Ret (Some w), p1) -> w <= zlen buf ->
  parseData uninitialised (S fuel) buf t p =
  match m_parseStatus (sp p1) with
  | PARSE_GOTO_NEXT_SUBPARSER =>
      match changeToNextParser p1 with
      | (Ret true, p2) =>
          match lr_current p2 with
          | None => (Ret (Some w), mkLineRecv (set_pStatus (ws_set_finish true (p_writeStatus (lr_data p2))) (lr_data p2))
                                     (lr_current p2) (m_subParser p2) (lr_user p2))
          | Some _ => go_on fuel buf t w p2
          end
      | (Ret false, p2) => (Ret None, p2)
      | (Exc e, p2) => (Exc e, p2)
      end
  | PARSE_GET_MORE_DATA => go_on fuel buf t w p1
  | PARSE_ERROR => (Ret None, p1)
  end.
Proof.
  intros Hne Ht Ht0 Hmax Hc Hmode w p1 Hrun Hw. rewrite <- asked_run in Hrun by done.
  exact (parseData_round (Prot := LineRecv_protocol) uninitialised fuel buf t p tt w p1 Hc (conj Ht0 Ht) Hmax Hrun Hw).
Qed.

Lemma changeToNextParser_run m ttl p u line :
  lr_ok m ttl p [] u -> m_parsedString (m_subParser p) = line ->
  match processParsedLine line u with
  | (true, u') => exists p', changeToNextParser p = (Ret true, p') /\ lr_ok m ttl p' [] u'
  | (false, u') => exists p', changeToNextParser p = (Ret false, p') /\ lr_user p' = u'
  end.
Proof.
  intros (Hok & Hv & Hmode & Hmd & He & Hc & Hu & Ht & Hl & Hr) <-. unfold changeToNextParser. rewrite Hu.
  destruct (processParsedLine _ u) as [[|] u']; eexists; (split; [done|]); [|done].
  split; [exact Hok|]. split; [exact Hv|]. done.
Qed.

(** The result of a write against the specification. *)
Definition agrees (m ttl : Z) (expected : bool * bytes * U) (n : Z) (r : res (option Z) * LineRecv) : Prop :=
  match expected with
  | (true, pending, u) => exists p', r = (Ret (Some n), p') /\ lr_ok m ttl p' pending u
  | (false, _, u) => exists p', r = (Ret None, p') /\ lr_user p' = u
  end.

Lemma parseData_feeds m ttl fuel buf t p pending u :
  lr_ok m ttl p pending u -> buf <> [] -> CR ∉ buf -> fits m (zlen pending) buf ->
  zlen buf <= SSIZE_MAX -> 0 <= t -> t + count_LF buf <= ttl -> ttl < SIZE_MAX ->
  count_LF buf < Z.of_nat fuel ->
  agrees m ttl (feed pending u buf) (zlen buf) (parseData uninitialised fuel buf t p).
Proof.
  revert buf t p pending u. induction fuel as [|fuel IH];
    intros buf t p pending u Hok Hne Hcr Hfits Hlen Ht0 Ht Hmax Hf.
  { assert (0 <= count_LF buf) by apply zlen_nonneg. lia. }
  pose proof Hok as (_ & _ & Hmode & _ & _ & Hcur & _ & Httl & _ & _).
  assert (Hcnt : 0 <= count_LF buf) by apply zlen_nonneg.
  destruct (decide (LF ∈ buf)) as [Hin|Hnin].
  - destruct (split_at_char LF buf Hin) as (l & r & -> & Hl).
    destruct (fits_app m _ l (LF :: r) Hl (zlen_nonneg pending) Hfits) as [_ [Hfl Hfr]%fits_LF].
    rewrite not_elem_of_app, not_elem_of_cons in Hcr. destruct Hcr as (_ & _ & Hcr).
    rewrite count_LF_app, count_LF_cons in Ht, Hf. assert (0 <= count_LF l) by apply zlen_nonneg.
    assert (0 <= count_LF r) by apply zlen_nonneg.
    destruct (multi_line m ttl p pending u l r Hok Hl) as (p1 & Hrun & Hok1 & Hst & Hps); [lia|].
    assert (Hzl : zlen (l ++ LF :: r) = zlen l + 1 + zlen r) by (rewrite zlen_app, zlen_cons; lia).
    pose proof (zlen_nonneg r). pose proof (zlen_nonneg l).
    rewrite (round fuel _ t p Hne ltac:(lia) Ht0 ltac:(lia) Hcur Hmode _ _ Hrun) by lia.
    rewrite Hst, feed_app, (feed_line pending u l Hl). cbn [feed]. rewrite decide_True by done.
    pose proof (changeToNextParser_run m ttl p1 u _ Hok1 Hps) as Hch.
    destruct (processParsedLine (pending ++ l) u) as [[|] u']; destruct Hch as (p2 & -> & Hok2).
    2:{ by exists p2. }
    pose proof Hok2 as (_ & _ & _ & _ & _ & -> & _). unfold Parser.go_on. rewrite Hzl.
    destruct (decide (r = [])) as [->|Hr].
    { change (zlen (@nil ascii)) with 0. rewrite Z.add_0_r, Z.eqb_refl. by exists p2. }
    pose proof (zlen_pos r Hr). replace (zlen l + 1 =? zlen l + 1 + zlen r) with false by lia.
    assert (Hdrop : zdrop (zlen l + 1) (l ++ LF :: r) = r).
    { rewrite zdrop_app_ge by lia. replace (zlen l + 1 - zlen l) with (0 + 1) by lia.
      by rewrite zdrop_succ, zdrop_le0 by lia. }
    rewrite Hdrop. specialize (IH r (t + 1) p2 [] u' Hok2 Hr Hcr Hfr ltac:(lia) ltac:(lia) ltac:(lia) Hmax ltac:(lia)).
    destruct (feed [] u' r) as [[[|] pend] u'']; destruct IH as (p3 & -> & Hok3); [|by exists p3].
    exists p3. rewrite u64_small by (apply size_arith; lia). split; [|done]. do 3 f_equal. lia.
  - rewrite <- (app_nil_r buf) in Hfits. destruct (fits_app m _ buf [] Hnin (zlen_nonneg pending) Hfits) as [[?|Hfit] _]; [done|].
    pose proof (zlen_pos buf Hne).
    destruct (multi_no_line m ttl p pending u buf Hok Hne Hnin Hcr) as (p1 & Hrun & Hok1 & Hst); [lia|].
    rewrite Z.min_l in Hrun, Hok1 by lia. rewrite ztake_ge in Hok1 by lia.
    rewrite (round fuel _ t p Hne ltac:(lia) Ht0 ltac:(lia) Hcur Hmode _ _ Hrun) by lia.
    unfold Parser.go_on. rewrite Hst, Z.eqb_refl, (feed_line pending u buf Hnin). by exists p1.
Qed.

Lemma write_feeds m ttl p pending u buf :
  lr_ok m ttl p pending u -> buf <> [] -> CR ∉ buf -> fits m (zlen pending) buf ->
  zlen buf <= SSIZE_MAX -> count_LF buf <= ttl -> ttl < SIZE_MAX ->
  agrees m ttl (feed pending u buf) (zlen buf) (write uninitialised buf p).
Proof.
  intros Hok Hne Hcr Hfits Hlen Ht Hmax. unfold write.
  pose proof Hok as (_ & _ & _ & _ & _ & _ & _ & Httl & _). change (pd p) with (lr_data p). rewrite Httl.
  assert (0 <= count_LF buf) by apply zlen_nonneg. apply parseData_feeds; try done; lia.
Qed.
Lemma fits_split m pending u t1 t2 :
  fits m (zlen pending) (t1 ++ t2) ->
  fits m (zlen pending) t1 /\
  match feed pending u t1 with
  | (true, pending', _) => fits m (zlen pending') t2
  | (false, _, _) => True
  end.
Proof.
  revert pending u. induction t1 as [|c t1 IH]; intros pending u Hf; [done|]. cbn [app fits feed] in *.
  destruct Hf as [Hm Hf]. case_decide.
  - split; [split; [done|]|].
    + apply (IH [] u). exact Hf.
    + destruct (processParsedLine pending u) as [[|] u']; [|done]. apply (IH [] u'). exact Hf.
  - assert (Hz : zlen (pending ++ [c]) = zlen pending + 1) by (rewrite zlen_app; done).
    rewrite <- Hz in Hf |- *. destruct (IH (pending ++ [c]) u Hf) as [Hf1 Hf2]. split; [|exact Hf2].
    split; [lia|exact Hf1].
Qed.

(** C1: for a text without CR whose lines fit the configured size (which is at most
    the number of pieces of the buffer, 262144; it is 65536 by default), however
    it is cut into writes (none empty, each with no more line ends than the round
    limit), the receiver does what the specification does on the whole text: the
    program is given exactly the lines, in order, up to the one it refuses,
    and what follows the last line waits in the buffer. *)
Theorem lines_of_fragments m ttl p pending u frags :
  lr_ok m ttl p pending u -> 0 <= ttl < SIZE_MAX -> CR ∉ concat frags ->
  fits m (zlen pending) (concat frags) ->
  Forall (fun f => f <> [] /\ (zlen f <= SSIZE_MAX) /\ (count_LF f <= ttl)) frags ->
  match feed pending u (concat frags) with
  | (true, pending', u') =>
      exists p', write_all uninitialised frags p = (Ret true, p') /\ lr_ok m ttl p' pending' u'
  | (false, _, u') => exists p', write_all uninitialised frags p = (Ret false, p') /\ lr_user p' = u'
  end.
Proof.
  intros Hok Httl Hcr Hfits Hfr. revert p pending u Hok Hcr Hfits.
  induction Hfr as [|f frags (Hne & Hlen & Hcnt) _ IH]; intros p pending u Hok Hcr Hfits; [by exists p|].
  cbn [concat] in *. rewrite feed_app. destruct (fits_split m pending u f _ Hfits) as [Hf Hrest].
  rewrite not_elem_of_app in Hcr. destruct Hcr as [Hcr1 Hcr2].
  pose proof (write_feeds m ttl p pending u f Hok Hne Hcr1 Hf Hlen Hcnt ltac:(lia)) as Hw.
  unfold agrees in Hw. cbn [write_all]. unfold bind.
  destruct (feed pending u f) as [[[|] pending'] u']; destruct Hw as (p' & -> & Hok'); [|by exists p'].
  rewrite Z.eqb_refl. by apply IH.
Qed.

(** A line that does not fit is refused: when what waits and a write
    without line end exceed the configured size together, the write fails,
    whatever the sizes of the two. *)
Theorem overlong_line_is_refused m ttl p pending u buf :
  lr_ok m ttl p pending u -> 1 <= ttl < SIZE_MAX -> LF ∉ buf -> CR ∉ buf ->
  zlen pending <= m -> m < zlen pending + zlen buf ->
  fst (write uninitialised buf p) = Ret None.
Proof.
  intros Hok Httl Hl Hcr Hp Hbig. pose proof (zlen_nonneg pending).
  assert (Hne : buf <> []) by (intros ->; change (zlen (@nil ascii)) with 0 in Hbig; lia).
  assert (Hfull : forall fuel t b q pend, lr_ok m ttl q pend u -> b <> [] -> zlen pend = m -> 0 <= t <= ttl ->
    fst (parseData uninitialised (S fuel) b t q) = Ret None).
  { intros fuel t b q pend Hq Hb Hm Ht. pose proof (zlen_pos b Hb).
    pose proof Hq as (Hbo & Hv & Hmode & Hmd & _ & Hc & _ & Htt & _ & _).
    rewrite (parseData_fails (Prot := LineRecv_protocol) uninitialised fuel b t q tt (asked q) Hc); [done|change (pd q) with (lr_data q); lia|].
    rewrite asked_run by done. pose proof (parseByMultiDelimiter_run m (asked q) b Hbo) as Hrun.
    change (m_parseMultiDelimiter (sp (asked q))) with (m_parseMultiDelimiter (sp q)) in Hrun.
    change (buf_view (asked q)) with (buf_view q) in Hrun. rewrite Hmd, Hv in Hrun.
    specialize (Hrun (needles_single [LF; CR])). cbn zeta in Hrun.
    by replace ((m - zlen pend =? 0) && (0 <? zlen b)) with true in Hrun by lia. }
  unfold write. pose proof Hok as (_ & _ & Hmode & _ & _ & Hcur & _ & Htt & _ & _).
  change (pd p) with (lr_data p). rewrite Htt. replace (Z.to_nat ttl + 2)%nat with (S (S (Z.to_nat ttl))) by lia.
  destruct (decide (zlen pending = m)) as [Heq|Hlt]; [by apply (Hfull _ 0 buf p pending); [| | |lia]|].
  pose proof (zlen_pos buf Hne).
  destruct (multi_no_line m ttl p pending u buf Hok Hne Hl Hcr) as (p1 & Hrun & Hok1 & Hst); [lia|].
  rewrite Z.min_r in Hrun, Hok1 by lia.
  rewrite (round _ buf 0 p Hne ltac:(lia) ltac:(lia) ltac:(lia) Hcur Hmode _ _ Hrun) by lia.
  unfold Parser.go_on. rewrite Hst. replace (m - zlen pending =? zlen buf) with false by lia.
  assert (Hrest : zdrop (m - zlen pending) buf <> []).
  { intros Hz%(f_equal zlen). rewrite zlen_zdrop in Hz. change (zlen (@nil ascii)) with 0 in Hz. lia. }
  pose proof (Hfull (Z.to_nat ttl) (0 + 1) _ p1 _ Hok1 Hrest) as Hf.
  rewrite zlen_app, zlen_ztake in Hf. specialize (Hf ltac:(lia) ltac:(lia)).
  destruct (parseData _ _ _ _ p1) as [[[?|]|?] ?]; done.
Qed.
End LineRecv.

(** A program that keeps the lines it is given. *)
Definition keep_line (line : bytes) (seen : list bytes) : bool * list bytes := (true, seen ++ [line]).
Definition receiver : LineRecv (M := B_MEM) (U := list bytes) := LineRecv_new [].

Definition run_lines (frags : list bytes) : res bool * list bytes :=
  let (r, p) := write_all (Prot := LineRecv_protocol keep_line) (fun _ => []) frags receiver in (r, lr_user p).

(** The two line ends are not treated alike: the buffer is searched for
    LF first and for CR only when it has none, so a CR ends a line only if no
    LF has arrived yet, and the same text gives different lines according to
    how it is cut. *)
Theorem CR_depends_on_fragmentation :
  run_lines [str "a" ++ [CR] ++ str "b" ++ [LF]] = (Ret true, [str "a" ++ [CR] ++ str "b"]) /\
  run_lines [str "a" ++ [CR]; str "b" ++ [LF]] = (Ret true, [str "a"; str "b"]).
Proof. split; vm_compute; reflexivity. Qed.

(** ** Witnesses *)

Lemma receiver_ok : lr_ok 65536 4096 receiver [] [].
Proof.
  split; [apply buffer_check_ok; vm_compute; reflexivity|].
  repeat (split; [vm_compute; reflexivity|]). split; apply not_elem_of_nil.
Qed.

Definition hello_world : list bytes :=
  [str "hel"; str "lo" ++ [LF] ++ str "wor"; str "ld" ++ [LF]; str "x"].

Ltac not_in := let Hin := fresh in
  intros Hin; apply list_elem_of_In in Hin; vm_compute in Hin;
  repeat destruct Hin as [Hin|Hin]; try discriminate Hin; exact Hin.

Lemma lines_of_fragments_witness :
  exists p', write_all (Prot := LineRecv_protocol keep_line) (fun _ => []) hello_world receiver = (Ret true, p') /\
    lr_ok 65536 4096 p' (str "x") [str "hello"; str "world"].
Proof.
  assert (Hfeed : feed keep_line [] [] (concat hello_world) = (true, str "x", [str "hello"; str "world"]))
    by (vm_compute; reflexivity).
  assert (Httl : 0 <= 4096 < SIZE_MAX) by (split; vm_compute; [discriminate|reflexivity]).
  assert (Hcr : CR ∉ concat hello_world) by not_in.
  assert (Hfits : fits 65536 (zlen (@nil ascii)) (concat hello_world)) by (vm_compute; repeat split; discriminate).
  assert (Hfr : Forall (fun f => f <> [] /\ (zlen f <= SSIZE_MAX) /\ (count_LF f <= 4096)) hello_world)
    by (unfold hello_world; repeat constructor; try discriminate; vm_compute; discriminate).
  pose proof (lines_of_fragments (fun _ => []) keep_line 65536 4096 receiver [] [] hello_world
    receiver_ok Httl Hcr Hfits Hfr) as Hl.
  rewrite Hfeed in Hl. exact Hl.
Defined.

Lemma overlong_line_is_refused_witness :
  fst (write (Prot := LineRecv_protocol keep_line) (fun _ => []) (str "too long") (setMaxLineSize 4 receiver))
  = Ret None.
Proof.
  assert (Hok : lr_ok 4 4096 (setMaxLineSize 4 receiver) [] []).
  { split; [apply buffer_check_ok; vm_compute; reflexivity|].
    repeat (split; [vm_compute; reflexivity|]). split; apply not_elem_of_nil. }
  apply (overlong_line_is_refused (fun _ => []) keep_line 4 4096 (setMaxLineSize 4 receiver) [] [] (str "too long") Hok).
  - split; vm_compute; [discriminate|reflexivity].
  - not_in.
  - not_in.
  - vm_compute. discriminate.
  - vm_compute. reflexivity.
Defined.

Lemma write_without_parser_witness :
  write (Prot := LineRecv_protocol keep_line) (fun _ => []) (str "data")
    (mkLineRecv (lr_data receiver) None (m_subParser receiver) [])
  = (Ret None, mkLineRecv (lr_data receiver) None (m_subParser receiver) []).
Proof.
  apply (write_without_parser (Prot := LineRecv_protocol keep_line) (fun _ => []) (str "data")
    (mkLineRecv (lr_data receiver) None (m_subParser receiver) [])).
  - reflexivity.
  - split; vm_compute; [discriminate|reflexivity].
Defined.
