(* ===== verification/UrlStream.v ===== *)
(** * Stream transformers and the URL codecs
    (Memory/streamabletransformer.cpp, Protocol_HTTP/streamdecoder_url.cpp,
    Protocol_HTTP/streamencoder_url.cpp)

    A transformer is a destination that rewrites what it receives into another
    destination. Its source, here always a container, streams itself into it,
    cut as the container pleases. *)

From S2P Require Import Prelude SafeInt Mem Encoders StreamableObject BBase BMem BChunk BChunks BChunksFacts BChunksSpec.

(** ** StreamableTransformer *)

(** [writeTo] and [writeTransformerEOF] of a derived class with members [X]. *)
Class TransformerImpl (X : Type) : Type := {
  writeTo {S} `{Streamable S} : bytes -> st (X * S) Z;
  writeTransformerEOF {S} `{Streamable S} : st (X * S) Z
}.

(** The object while it has a destination. *)
Record Transformer (X S : Type) : Type := mkTransformer {
  tr_status : WriteStatus;
  tr_state : X;
  destObj : S
}.
Arguments mkTransformer {X S}. Arguments tr_status {X S}. Arguments tr_state {X S}. Arguments destObj {X S}.

Section Transformer.
Context {X : Type} `{TransformerImpl X} {S : Type} `{Streamable S}.

Definition tr_write (buf : bytes) : st (Transformer X S) (option Z) := fun t =>
  let (r, xs) := (if zlen buf =? 0 then writeTransformerEOF else writeTo buf) (tr_state t, destObj t) in
  let t := mkTransformer (tr_status t) (fst xs) (snd xs) in
  match r with
  | Exc e => (Exc e, t)
  | Ret r => if negb (so_succeed (destObj t)) then (Ret None, t) else (Ret (Some r), t)
  end.

#[export] Instance Transformer_stream : Streamable (Transformer X S) := {
  so_status := tr_status;
  so_set_status w t := mkTransformer w (tr_state t) (destObj t);
  so_write := tr_write
}.

(** [transform(in, out)]; the result of [streamTo] is not looked at. *)
Definition transform {C} `{BBase C} (in_ : C) : st (X * S) unit := fun xs =>
  let (r, t) := streamTo in_ (mkTransformer WriteStatus_new (fst xs) (snd xs)) in
  (match r with Ret _ => Ret tt | Exc e => Exc e end, (tr_state t, destObj t)).
End Transformer.

(** Running a method of the destination. *)
Definition on_dst {X S A} (f : st S A) : st (X * S) A := fun xs =>
  let (r, s) := f (snd xs) in (r, (fst xs, s)).

(** ** Decoders::URL *)

Record URLDecoder : Type := mkDecoder { m_bytes : list ascii; m_filled : Z }.
(** [m_bytes] is not initialised; its contents are read only up to [m_filled]. *)
Definition URLDecoder_new : URLDecoder := mkDecoder [chr 0; chr 0; chr 0] 0.

Definition put_byte (i : nat) (c : ascii) (filled : Z) (d : URLDecoder) : URLDecoder :=
  mkDecoder (<[i := c]> (m_bytes d)) filled.

Definition PERCENT : ascii := chr 37.
Definition PLUS : ascii := chr 43.

(** The length of the plain text at the start, and the byte that ends it. *)
Fixpoint getPlainBytesSize (buf : bytes) : Z * option ascii :=
  match buf with
  | [] => (0, None)
  | c :: buf =>
      if decide (c = PERCENT) then (0, Some PERCENT)
      else if decide (c = PLUS) then (0, Some PLUS)
      else let (n, b) := getPlainBytesSize buf in (1 + n, b)
  end.

Section Decoder.
Context {S : Type} `{Streamable S}.

Definition flushBytesAndResetFilledCounter : st (URLDecoder * S) bool := fun ds =>
  let (d, s) := ds in
  match writeFullStream (ztake (m_filled d) (m_bytes d)) s with
  | (Exc e, s) => (Exc e, (d, s))
  | (Ret r, s) => (Ret r, (mkDecoder (m_bytes d) 0, s))
  end.

Definition upd_decoder (f : URLDecoder -> URLDecoder) : st (URLDecoder * S) unit :=
  modify (fun ds => (f (fst ds), snd ds)).

(** The body of the loop on the bytes that are left: how many it reads. *)
Definition decode_step (rest : bytes) : st (URLDecoder * S) Z := fun ds =>
  let c := default (chr 0) (head rest) in
  let filled := m_filled (fst ds) in
  (if filled =? 0 then
     let (bytesToTransmitInPlain, byteDetected) := getPlainBytesSize rest in
     if bytesToTransmitInPlain >? 0 then
       let! x := on_dst (writeFullStream (ztake bytesToTransmitInPlain rest)) in
       if x then ret bytesToTransmitInPlain
       else do! on_dst (so_add (-1)) in ret 0
     else if bool_decide (byteDetected = Some PERCENT) then
       do! upd_decoder (put_byte 0 PERCENT 1) in ret 1
     else if bool_decide (byteDetected = Some PLUS) then
       do! upd_decoder (put_byte 0 (chr 32) 1) in
       do! flushBytesAndResetFilledCounter in ret 1
     else ret 0
   else if filled =? 1 then
     do! upd_decoder (put_byte 1 c 2) in
     if negb (isxdigit c) then do! flushBytesAndResetFilledCounter in ret 1
     else ret 1
   else if filled =? 2 then
     do! upd_decoder (put_byte 2 c 2) in
     if negb (isxdigit c) then
       do! upd_decoder (fun d => mkDecoder (m_bytes d) 3) in
       do! flushBytesAndResetFilledCounter in ret 1
     else
       do! upd_decoder (fun d => mkDecoder (m_bytes d) 0) in
       let! ds := gets id in
       let val := hexPairToByte (default (chr 0) (m_bytes (fst ds) !! 1%nat)) (default (chr 0) (m_bytes (fst ds) !! 2%nat)) in
       let! x := on_dst (writeFullStream [val]) in
       if negb x then do! on_dst (so_add (-1)) in ret 1 else ret 1
   else ret 0) ds.

Fixpoint decode_loop (fuel : nat) (rest : bytes) (readenBytes : Z) : st (URLDecoder * S) Z :=
  match fuel with
  | O => throw out_of_fuel
  | Datatypes.S fuel =>
      if 0 <? zlen rest then
        let! n := decode_step rest in
        let! ds := gets id in
        if negb (so_succeed (snd ds)) then ret (u64 (readenBytes + n))
        else decode_loop fuel (zdrop n rest) (u64 (readenBytes + n))
      else ret readenBytes
  end.

Definition decoder_writeTo (buf : bytes) : st (URLDecoder * S) Z := decode_loop (Datatypes.S (length buf)) buf 0.
Definition decoder_EOF : st (URLDecoder * S) Z := let! r := flushBytesAndResetFilledCounter in ret (Z.b2z r).
End Decoder.

#[export] Instance URLDecoder_impl : TransformerImpl URLDecoder := {
  writeTo := @decoder_writeTo;
  writeTransformerEOF := @decoder_EOF
}.

(** ** Encoders::URL *)

(** The encoder has no members. *)
Inductive URLEncoder : Type := URLEncoder_new.

Definition shouldEncodeThisByte (c : ascii) : bool := negb (isalnum c).

Fixpoint encoder_getPlainBytesSize (buf : bytes) : Z :=
  match buf with
  | [] => 0
  | c :: buf => if shouldEncodeThisByte c then 0 else 1 + encoder_getPlainBytesSize buf
  end.

Section Encoder.
Context {S : Type} `{Streamable S}.

Fixpoint encode_loop (fuel : nat) (rest : bytes) (readenBytes : Z) : st (URLEncoder * S) Z :=
  match fuel with
  | O => throw out_of_fuel
  | Datatypes.S fuel =>
      if 0 <? zlen rest then
        let bytesToTransmitInPlain := encoder_getPlainBytesSize rest in
        let! n :=
          if bytesToTransmitInPlain >? 0 then
            let! x := on_dst (writeFullStream (ztake bytesToTransmitInPlain rest)) in
            ret (if x then bytesToTransmitInPlain else 0)
          else
            let! x := on_dst (writeFullStream (PERCENT :: sprintf_02X (default (chr 0) (head rest)))) in
            ret (if x then 1 else 0) in
        let! es := gets id in
        if negb (so_succeed (snd es)) then ret (u64 (readenBytes + n))
        else encode_loop fuel (zdrop n rest) (u64 (readenBytes + n))
      else ret readenBytes
  end.

(** A write that fails leaves the byte unread and the status successful, so
    the loop tries again; the model allows as many rounds as bytes. *)
Definition encoder_writeTo (buf : bytes) : st (URLEncoder * S) Z :=
  let maxStream := SIZE_MAX / 3 - 3 in
  if zlen buf >? maxStream then do! on_dst (so_add (-1)) in ret (u64 (-1))
  else encode_loop (Datatypes.S (length buf)) buf 0.
End Encoder.

#[export] Instance URLEncoder_impl : TransformerImpl URLEncoder := {
  writeTo := @encoder_writeTo;
  writeTransformerEOF _ _ := ret 0
}.

(** ** Strings *)

Section Strings.
Context {M : Type} `{BBase M, MmapFactory M}.

Definition codec_str {X} `{TransformerImpl X} (x : X) (url : bytes) : res bytes :=
  let uri := B_MEM_new (Some url) (zlen url) in
  match transform uri (x, B_Chunks_new (M := M)) with
  | (Exc e, _) => Exc e
  | (Ret _, (_, out)) =>
      if succeed (so_status out) && finish (so_status out) then Ret (toStringEx out) else Ret url
  end.

Definition decodeURLStr (url : bytes) : res bytes := codec_str URLDecoder_new url.
Definition encodeURLStr (url : bytes) : res bytes := codec_str URLEncoder_new url.
End Strings.

(** ** What the codecs compute *)

(** One character, with the bytes held back so far: what comes out and what is
    held back then. *)
Definition dec_char (held : bytes) (c : ascii) : bytes * bytes :=
  match held with
  | [] => if decide (c = PERCENT) then ([], [PERCENT])
          else if decide (c = PLUS) then ([chr 32], []) else ([c], [])
  | [b0] => if isxdigit c then ([], [b0; c]) else ([b0; c], [])
  | b0 :: b1 :: _ => if isxdigit c then ([hexPairToByte b1 c], []) else ([b0; b1; c], [])
  end.

Fixpoint dec_run (held : bytes) (l : bytes) : bytes * bytes :=
  match l with
  | [] => ([], held)
  | c :: l =>
      let (o, held) := dec_char held c in
      let (o', held) := dec_run held l in (o ++ o', held)
  end.

Definition url_decode (l : bytes) : bytes := fst (dec_run [] l).
Definition url_encode (l : bytes) : bytes :=
  flat_map (fun c => if shouldEncodeThisByte c then PERCENT :: sprintf_02X c else [c]) l.

Lemma dec_run_app held l1 l2 :
  dec_run held (l1 ++ l2) =
  (fst (dec_run held l1) ++ fst (dec_run (snd (dec_run held l1)) l2), snd (dec_run (snd (dec_run held l1)) l2)).
Proof.
  revert held. induction l1 as [|c l1 IH]; intros held; cbn [app dec_run fst snd]; [by destruct (dec_run held l2)|].
  destruct (dec_char held c) as [o h]. rewrite IH. destruct (dec_run h l1) as [o1 h1]. cbn [fst snd].
  destruct (dec_run h1 l2) as [o2 h2]. cbn [fst snd]. by rewrite app_assoc.
Qed.

Lemma dec_run_length held l :
  zlen held <= 2 ->
  zlen (fst (dec_run held l)) + zlen (snd (dec_run held l)) <= zlen held + zlen l /\
  zlen (snd (dec_run held l)) <= 2.
Proof.
  revert held. induction l as [|c l IH]; intros held Hh; cbn [dec_run].
  { cbn [fst snd]. change (zlen (@nil ascii)) with 0. pose proof (zlen_nonneg held). lia. }
  assert (Hc : zlen (fst (dec_char held c)) + zlen (snd (dec_char held c)) <= zlen held + 1 /\
    zlen (snd (dec_char held c)) <= 2).
  { destruct held as [|b0 [|b1 [|b2 h]]]; cbn [dec_char]; repeat case_decide; try case_cond; cbn [fst snd];
      repeat rewrite ?zlen_cons, ?zlen_nil in *; pose proof (zlen_nonneg (@nil ascii)); try lia.
    all: pose proof (zlen_nonneg h); lia. }
  destruct (dec_char held c) as [o h]. cbn [fst snd] in Hc. destruct (IH h ltac:(lia)) as [Hl1 Hl2].
  destruct (dec_run h l) as [o1 h1]. cbn [fst snd] in *. rewrite zlen_app, zlen_cons. lia.
Qed.

(** ** The decoder, over any destination with room *)

(** The members hold the bytes held back. *)
Definition dec_holds (d : URLDecoder) (held : bytes) : Prop :=
  m_filled d = zlen held /\ zlen held <= 2 /\ length (m_bytes d) = 3%nat /\
  ztake (m_filled d) (m_bytes d) = held.

Lemma dec_holds_nil mb : length mb = 3%nat -> dec_holds (mkDecoder mb 0) [].
Proof. intros. split; [done|]. split; [vm_compute; discriminate|]. split; [done|]. by apply ztake_le0. Qed.

Lemma dec_holds_first x0 x1 x2 : dec_holds (mkDecoder [x0; x1; x2] 1) [x0].
Proof. split; [done|]. split; [vm_compute; discriminate|]. done. Qed.

Lemma dec_holds_two x0 x1 x2 : dec_holds (mkDecoder [x0; x1; x2] 2) [x0; x1].
Proof. split; [done|]. split; [vm_compute; discriminate|]. done. Qed.

Lemma getPlainBytesSize_spec l :
  let (n, b) := getPlainBytesSize l in
  0 <= n <= zlen l /\ dec_run [] (ztake n l) = (ztake n l, []) /\
  (n = 0 -> match l with [] => True | c :: _ => b = Some c /\ (c = PERCENT \/ c = PLUS) end).
Proof.
  induction l as [|c l IH]; cbn [getPlainBytesSize]; [done|]. rewrite zlen_cons. pose proof (zlen_nonneg l).
  destruct (decide (c = PERCENT)) as [->|Hp].
  { cbn beta iota. rewrite ztake_le0 by lia. split; [lia|]. split; [done|]. auto. }
  destruct (decide (c = PLUS)) as [->|Hq].
  { cbn beta iota. rewrite ztake_le0 by lia. split; [lia|]. split; [done|]. auto. }
  destruct (getPlainBytesSize l) as [n b]. destruct IH as (Hn & Hrun & _).
  split; [lia|]. split; [|lia]. replace (1 + n) with (n + 1) by lia. rewrite ztake_succ by lia.
  cbn [dec_run dec_char]. rewrite !decide_False by done. by rewrite Hrun.
Qed.

(** Reading one byte. *)
Definition step_ok {S} `{FullSink S} (held rest : bytes) (s : S)
    (r : res Z * (URLDecoder * S)) : Prop :=
  exists n d' s', r = (Ret n, (d', s')) /\ 0 < n <= zlen rest /\ sink_ok s' /\
    dec_holds d' (snd (dec_run held (ztake n rest))) /\
    sink_view s' = sink_view s ++ fst (dec_run held (ztake n rest)) /\
    sink_room s - zlen (fst (dec_run held (ztake n rest))) <= sink_room s'.

Section DecoderSpec.
Context {S : Type} `{FullSink S}.
Implicit Types s : S.

Lemma write_some buf s :
  sink_ok s -> zlen buf <= 3 -> zlen buf <= sink_room s ->
  exists s', writeFullStream buf s = (Ret true, s') /\ sink_ok s' /\
    sink_view s' = sink_view s ++ buf /\ sink_room s - zlen buf <= sink_room s'.
Proof. intros. apply writeFullStream_full; [done|unfold SSIZE_MAX; lia|done]. Qed.

Lemma ztake_1 {A} (c : A) l : ztake 1 (c :: l) = [c].
Proof. pose proof (ztake_succ c l 0 ltac:(lia)) as Hs. change (0 + 1) with 1 in Hs. by rewrite Hs, ztake_le0 by lia. Qed.

(** A step that reads one byte and flushes [out]. *)
Lemma step_flush held c rest s d d' out :
  sink_ok s -> dec_char held c = (out, []) -> zlen out <= 3 -> zlen out <= sink_room s ->
  length (m_bytes d') = 3%nat -> ztake (m_filled d') (m_bytes d') = out ->
  step_ok held (c :: rest) s
    ((do! upd_decoder (fun _ => d') in do! flushBytesAndResetFilledCounter in ret 1) (d, s)).
Proof.
  intros Hok Hdc Hl Hr Hlen Hb. destruct (write_some out s Hok Hl Hr) as (s' & Hw & Hok' & Hv & Hroom).
  exists 1, (mkDecoder (m_bytes d') 0), s'. pose proof (zlen_nonneg rest).
  unfold bind, upd_decoder, modify, flushBytesAndResetFilledCounter, ret. cbn [fst snd].
  rewrite Hb, Hw, zlen_cons, ztake_1. cbn [dec_run]. rewrite Hdc. cbn [fst snd]. rewrite app_nil_r.
  split; [done|]. split; [lia|]. split; [done|]. split; [by apply dec_holds_nil|]. done.
Qed.

(** One that only holds it back. *)
Lemma step_hold held c rest s d d' held' :
  sink_ok s -> dec_char held c = ([], held') -> dec_holds d' held' ->
  step_ok held (c :: rest) s ((do! upd_decoder (fun _ => d') in ret 1) (d, s)).
Proof.
  intros Hok Hdc Hd. exists 1, d', s. pose proof (zlen_nonneg rest).
  unfold bind, upd_decoder, modify, ret. cbn [fst snd]. rewrite zlen_cons, ztake_1. cbn [dec_run].
  rewrite Hdc. cbn [fst snd app]. rewrite app_nil_r, (zlen_nil (A := ascii)). split; [done|]. split; [lia|].
  split; [done|]. split; [done|]. split; [done|lia].
Qed.

Lemma decode_step_plain rest s d :
  sink_ok s -> dec_holds d [] -> rest <> [] -> zlen rest <= SSIZE_MAX -> zlen rest <= sink_room s ->
  step_ok [] rest s (decode_step rest (d, s)).
Proof.
  intros Hok (Hf & _ & Hlen & Hb) Hne Hl Hr. unfold decode_step. cbn [fst snd]. rewrite Hf.
  change (zlen (@nil ascii) =? 0) with true. cbn iota.
  pose proof (getPlainBytesSize_spec rest) as Hp. destruct (getPlainBytesSize rest) as [n b].
  destruct Hp as (Hn & Hrun & Hb0). destruct (n >? 0) eqn:En; zbool.
  - destruct (writeFullStream_full s (ztake n rest)) as (s' & Hw & Hok' & Hv & Hroom);
      [done|rewrite zlen_ztake; lia..|].
    exists n, d, s'. unfold bind, on_dst, ret. cbn [fst snd]. rewrite Hw, Hrun. cbn [fst snd].
    split; [done|]. split; [lia|]. split; [done|]. split; [by repeat split|]. split; [done|done].
  - destruct rest as [|c rest]; [done|]. destruct Hb0 as [-> Hc]; [lia|].
    pose proof (zlen_nonneg rest). rewrite zlen_cons in Hr. destruct d as [mb f]. simpl in *.
    destruct mb as [|x0 [|x1 [|x2 [|]]]]; try done.
    destruct Hc as [-> | ->].
    + rewrite bool_decide_eq_true_2 by done.
      apply (step_hold [] PERCENT rest s (mkDecoder [x0; x1; x2] f) (mkDecoder [PERCENT; x1; x2] 1) [PERCENT]); [done|done|apply dec_holds_first].
    + rewrite bool_decide_eq_false_2, bool_decide_eq_true_2 by done.
      apply (step_flush [] PLUS rest s (mkDecoder [x0; x1; x2] f) (mkDecoder [chr 32; x1; x2] 1) [chr 32]);
        [done|done|vm_compute; discriminate|change (zlen [chr 32]) with 1; lia|done|done].
Qed.

Lemma decode_step_spec held rest s d :
  sink_ok s -> dec_holds d held -> rest <> [] -> zlen rest <= SSIZE_MAX ->
  zlen held + zlen rest <= sink_room s -> step_ok held rest s (decode_step rest (d, s)).
Proof.
  intros Hok Hd Hne Hl Hr. pose proof (zlen_pos rest Hne).
  destruct held as [|b0 held]; [change (zlen (@nil ascii)) with 0 in Hr; by apply decode_step_plain|].
  destruct Hd as (Hf & Hh2 & Hlen & Hb). destruct d as [mb f]. simpl in Hf, Hlen, Hb. rewrite Hf in Hb.
  destruct mb as [|x0 [|x1 [|x2 [|]]]]; try done. destruct rest as [|c rest]; [done|].
  rewrite !zlen_cons in *. pose proof (zlen_nonneg rest). destruct held as [|b1 held].
  - assert (x0 = b0) as -> by (vm_compute in Hb; congruence). change (zlen (@nil ascii)) with 0 in *.
    unfold decode_step. cbn [fst snd m_filled head default from_option id]. rewrite Hf.
    change (1 + 0 =? 0) with false. change (1 + 0 =? 1) with true. cbn iota.
    destruct (isxdigit c) eqn:Ex; cbn [negb].
    + apply (step_hold [b0] c rest s (mkDecoder [b0; x1; x2] (1 + 0)) (mkDecoder [b0; c; x2] 2) [b0; c]); [done|cbn [dec_char]; by rewrite Ex|apply dec_holds_two].
    + apply (step_flush [b0] c rest s (mkDecoder [b0; x1; x2] (1 + 0)) (mkDecoder [b0; c; x2] 2) [b0; c]); [done|cbn [dec_char]; by rewrite Ex| | |done|done].
      * vm_compute; discriminate.
      * change (zlen [b0; c]) with 2. lia.
  - assert (held = []) as ->.
    { apply zlen_0_nil. rewrite zlen_cons in Hh2. pose proof (zlen_nonneg held). lia. }
    assert (x0 = b0 /\ x1 = b1) as [-> ->] by (vm_compute in Hb; split; congruence).
    rewrite zlen_cons in *. change (zlen (@nil ascii)) with 0 in *.
    unfold decode_step. cbn [fst snd m_filled head default from_option id]. rewrite Hf.
    change (1 + (1 + 0) =? 0) with false. change (1 + (1 + 0) =? 1) with false. change (1 + (1 + 0) =? 2) with true. cbn iota.
    destruct (isxdigit c) eqn:Ex; cbn [negb].
    + destruct (write_some [hexPairToByte b1 c] s Hok) as (s' & Hw & Hok' & Hv & Hroom);
        [vm_compute; discriminate|change (zlen [hexPairToByte b1 c]) with 1; lia|].
      exists 1, (mkDecoder [b0; b1; c] 0), s'. rewrite zlen_cons, ztake_1.
      unfold bind, upd_decoder, modify, gets, on_dst. cbn -[writeFullStream hexPairToByte isxdigit]. rewrite Ex, Hw. cbn [fst snd]. rewrite app_nil_r.
      split; [done|]. split; [lia|]. split; [done|]. split; [by apply dec_holds_nil|]. done.
    + apply (step_flush [b0; b1] c rest s (mkDecoder [b0; b1; x2] (1 + (1 + 0))) (mkDecoder [b0; b1; c] 3) [b0; b1; c]);
        [done|cbn [dec_char]; by rewrite Ex| | |done|done].
      * vm_compute; discriminate.
      * change (zlen [b0; b1; c]) with 3. lia.
Qed.

Lemma decode_loop_spec fuel held rest n s d :
  sink_ok s -> dec_holds d held -> (length rest < fuel)%nat -> 0 <= n -> n + zlen rest <= SSIZE_MAX ->
  zlen held + zlen rest <= sink_room s ->
  exists d' s', decode_loop fuel rest n (d, s) = (Ret (n + zlen rest), (d', s')) /\ sink_ok s' /\
    dec_holds d' (snd (dec_run held rest)) /\ sink_view s' = sink_view s ++ fst (dec_run held rest) /\
    sink_room s - zlen (fst (dec_run held rest)) <= sink_room s'.
Proof.
  revert held rest n s d. induction fuel as [|fuel IH]; intros held rest n s d Hok Hd Hf Hn Hm Hr; [lia|].
  cbn [decode_loop]. destruct (decide (rest = [])) as [->|Hne].
  { exists d, s. change (zlen (@nil ascii)) with 0. rewrite Z.add_0_r. cbn [dec_run fst snd].
    rewrite app_nil_r. change (zlen (@nil ascii)) with 0. split; [done|]. split; [done|]. split; [done|]. split; [done|lia]. }
  pose proof (zlen_pos rest Hne). replace (0 <? zlen rest) with true by lia.
  destruct (decode_step_spec held rest s d) as (k & d1 & s1 & Hstep & Hk & Hok1 & Hd1 & Hv1 & Hr1); [done..|lia|done|].
  unfold bind at 1. rewrite Hstep. unfold bind at 1, gets, id. cbn [snd]. rewrite (sink_ok_succeed s1 Hok1). cbn [negb].
  rewrite u64_small by (apply size_arith; lia).
  destruct (dec_run_length held (ztake k rest)) as [Hb1 Hb2]; [apply Hd|]. rewrite zlen_ztake in Hb1.
  assert (Hz : zlen (zdrop k rest) = zlen rest - k) by (rewrite zlen_zdrop; lia).
  destruct (IH (snd (dec_run held (ztake k rest))) (zdrop k rest) (n + k) s1 d1)
    as (d' & s' & Hrun & Hok' & Hd' & Hv' & Hr'); [done|done| | |lia|lia|].
  { unfold zlen in Hz, Hk. lia. }
  { lia. }
  exists d', s'. rewrite Hrun. pose proof (dec_run_app held (ztake k rest) (zdrop k rest)) as Happ.
  rewrite ztake_zdrop in Happ. rewrite Happ. cbn [fst snd]. rewrite zlen_app.
  split; [do 2 f_equal; lia|]. split; [done|]. split; [done|]. split; [|lia]. by rewrite Hv', Hv1, app_assoc.
Qed.
End DecoderSpec.

(** ** The encoder *)

Lemma encoder_plain_spec l :
  0 <= encoder_getPlainBytesSize l <= zlen l /\
  url_encode (ztake (encoder_getPlainBytesSize l) l) = ztake (encoder_getPlainBytesSize l) l /\
  (encoder_getPlainBytesSize l = 0 ->
   match l with [] => True | c :: _ => shouldEncodeThisByte c = true end).
Proof.
  induction l as [|c l IH]; cbn [encoder_getPlainBytesSize]; [done|]. rewrite zlen_cons. pose proof (zlen_nonneg l).
  destruct (shouldEncodeThisByte c) eqn:Ec; [rewrite ztake_le0 by lia; split; [lia|done]|].
  destruct IH as (Hn & Hrun & _). split; [lia|]. split; [|lia].
  replace (1 + encoder_getPlainBytesSize l) with (encoder_getPlainBytesSize l + 1) by lia. rewrite ztake_succ by lia.
  unfold url_encode in *. cbn [flat_map]. by rewrite Ec, Hrun.
Qed.

Lemma url_encode_app a b : url_encode (a ++ b) = url_encode a ++ url_encode b.
Proof. apply flat_map_app. Qed.

Lemma url_encode_length l : zlen (url_encode l) <= 3 * zlen l.
Proof.
  induction l as [|c l IH]; [done|]. unfold url_encode in *. cbn [flat_map]. rewrite zlen_app, zlen_cons.
  case_cond; [change (zlen (PERCENT :: sprintf_02X c)) with 3|change (zlen [c]) with 1]; lia.
Qed.

Section EncoderSpec.
Context {S : Type} `{FullSink S}.
Implicit Types s : S.

Lemma encode_loop_spec fuel rest n s e :
  sink_ok s -> (length rest < fuel)%nat -> 0 <= n -> n + zlen rest <= SSIZE_MAX ->
  3 * zlen rest <= sink_room s ->
  exists s', encode_loop fuel rest n (e, s) = (Ret (n + zlen rest), (e, s')) /\ sink_ok s' /\
    sink_view s' = sink_view s ++ url_encode rest /\
    sink_room s - zlen (url_encode rest) <= sink_room s'.
Proof.
  revert rest n s. induction fuel as [|fuel IH]; intros rest n s Hok Hf Hn Hm Hr; [lia|].
  cbn [encode_loop]. destruct (decide (rest = [])) as [->|Hne].
  { exists s. change (zlen (@nil ascii)) with 0. rewrite Z.add_0_r. change (url_encode []) with (@nil ascii).
    rewrite app_nil_r. change (zlen (@nil ascii)) with 0. split; [done|]. split; [done|]. split; [done|lia]. }
  pose proof (zlen_pos rest Hne). replace (0 <? zlen rest) with true by lia.
  assert (Hstep : exists k out s1,
    (if encoder_getPlainBytesSize rest >? 0 then
       let! x := on_dst (X := URLEncoder) (writeFullStream (ztake (encoder_getPlainBytesSize rest) rest)) in
       ret (if x then encoder_getPlainBytesSize rest else 0)
     else
       let! x := on_dst (writeFullStream (PERCENT :: sprintf_02X (default (chr 0) (head rest)))) in
       ret (if x then 1 else 0)) (e, s) = (Ret k, (e, s1)) /\ 0 < k <= zlen rest /\
    out = url_encode (ztake k rest) /\ sink_ok s1 /\ sink_view s1 = sink_view s ++ out /\
    sink_room s - zlen out <= sink_room s1).
  { destruct (encoder_plain_spec rest) as (Hp & Henc & Hz). destruct (_ >? 0) eqn:En; zbool.
    - destruct (writeFullStream_full s (ztake (encoder_getPlainBytesSize rest) rest)) as (s1 & Hw & Hok1 & Hv & Hrm);
        [done|rewrite zlen_ztake; lia..|].
      exists (encoder_getPlainBytesSize rest), (ztake (encoder_getPlainBytesSize rest) rest), s1.
      unfold bind, on_dst, ret. cbn [fst snd]. rewrite Hw. split; [done|]. split; [lia|]. by rewrite Henc.
    - destruct rest as [|c rest]; [done|]. specialize (Hz ltac:(lia)). rewrite zlen_cons in *. pose proof (zlen_nonneg rest).
      destruct (writeFullStream_full s (PERCENT :: sprintf_02X c)) as (s1 & Hw & Hok1 & Hv & Hrm);
        [done|vm_compute; discriminate|change (zlen (PERCENT :: sprintf_02X c)) with 3; lia|].
      exists 1, (PERCENT :: sprintf_02X c), s1.
      unfold bind, on_dst, ret. cbn [fst snd head default from_option id]. rewrite Hw. split; [done|]. split; [lia|].
      rewrite ztake_1. unfold url_encode. cbn [flat_map]. rewrite Hz. done. }
  destruct Hstep as (k & out & s1 & Hstep & Hk & Hout & Hok1 & Hv1 & Hr1).
  unfold bind at 1. rewrite Hstep. unfold bind at 1, gets, id. cbn [snd]. rewrite (sink_ok_succeed s1 Hok1). cbn [negb].
  rewrite u64_small by (apply size_arith; lia). pose proof (url_encode_length (ztake k rest)) as Hlen.
  rewrite zlen_ztake in Hlen. assert (Hz : zlen (zdrop k rest) = zlen rest - k) by (rewrite zlen_zdrop; lia).
  destruct (IH (zdrop k rest) (n + k) s1) as (s' & Hrun & Hok' & Hv' & Hr'); [done| |lia|lia|subst out; lia|].
  { unfold zlen in Hz, Hk. lia. }
  exists s'. rewrite Hrun. split; [do 2 f_equal; lia|]. split; [done|].
  pose proof (url_encode_app (ztake k rest) (zdrop k rest)) as Happ. rewrite ztake_zdrop in Happ.
  rewrite Happ, zlen_app. split; [by rewrite Hv', Hv1, Hout, app_assoc|subst out; lia].
Qed.
End EncoderSpec.

(** ** The contract of a transformer *)

(** [run held input]: what comes out and what is held back, for the members
    that hold back [held]. *)
Class TransformerSpec (X : Type) `{TransformerImpl X} : Type := {
  holds : X -> bytes -> Prop;
  run : bytes -> bytes -> bytes * bytes;
  run_nil h : run h [] = ([], h);
  run_app h l1 l2 :
    run h (l1 ++ l2) = (fst (run h l1) ++ fst (run (snd (run h l1)) l2), snd (run (snd (run h l1)) l2));
  run_bound x h l : holds x h -> zlen (fst (run h l)) + zlen (snd (run h l)) <= zlen h + 3 * zlen l;
  writeTo_spec {S} `{FullSink S} x h buf (s : S) :
    sink_ok s -> holds x h -> 3 * zlen buf <= SSIZE_MAX -> zlen h + 3 * zlen buf <= sink_room s ->
    exists x' s', writeTo buf (x, s) = (Ret (zlen buf), (x', s')) /\ sink_ok s' /\
      holds x' (snd (run h buf)) /\ sink_view s' = sink_view s ++ fst (run h buf) /\
      sink_room s - zlen (fst (run h buf)) <= sink_room s'
}.

#[export] Program Instance URLDecoder_spec : TransformerSpec URLDecoder := {
  holds := dec_holds;
  run := dec_run
}.
Next Obligation. done. Qed.
Next Obligation. intros. apply dec_run_app. Qed.
Next Obligation.
  intros d h l (_ & Hh & _). destruct (dec_run_length h l Hh). pose proof (zlen_nonneg l). lia.
Qed.
Next Obligation.
  intros S ? ? ? d h buf s Hok Hd Hl Hr. simpl. unfold decoder_writeTo. pose proof (zlen_nonneg buf).
  destruct (decode_loop_spec (Datatypes.S (length buf)) h buf 0 s d) as (d' & s' & Hrun & Hrest); [done|done|lia..|].
  exists d', s'. split; [exact Hrun|exact Hrest].
Qed.

#[export] Program Instance URLEncoder_spec : TransformerSpec URLEncoder := {
  holds _ h := h = [];
  run h l := (url_encode l, h)
}.
Next Obligation. done. Qed.
Next Obligation. intros. cbn [fst snd]. by rewrite url_encode_app. Qed.
Next Obligation. intros x h l ->. cbn [fst snd]. pose proof (url_encode_length l). lia. Qed.
Next Obligation.
  intros S ? ? ? e h buf s Hok -> Hl Hr. simpl. unfold encoder_writeTo. pose proof (zlen_nonneg buf).
  replace (zlen buf >? SIZE_MAX / 3 - 3) with false by (change (SIZE_MAX / 3 - 3) with 6148914691236517202; unfold SSIZE_MAX in Hl; lia).
  change (zlen (@nil ascii)) with 0 in Hr.
  destruct (encode_loop_spec (Datatypes.S (length buf)) buf 0 s e) as (s' & Hrun & Hok' & Hrest); [done|lia..|].
  exists e, s'. split; [exact Hrun|]. split; [exact Hok'|]. split; [done|exact Hrest].
Qed.

Section TransformSpec.
Context {X : Type} `{TransformerSpec X} {S : Type} `{FullSink S}.
Implicit Types (x : X) (s : S).

Lemma run_pieces pieces h x s w n :
  succeed w = true -> sink_ok s -> holds x h -> Forall (fun p => p <> []) pieces -> 0 <= n ->
  n + 3 * zlen (concat pieces) <= SSIZE_MAX -> zlen h + 3 * zlen (concat pieces) <= sink_room s ->
  exists x' s',
    copyToStreamableObjectUsingCleanVector pieces n (mkTransformer w x s)
      = (Ret (Some (n + zlen (concat pieces))), mkTransformer w x' s') /\ sink_ok s' /\
    holds x' (snd (run h (concat pieces))) /\ sink_view s' = sink_view s ++ fst (run h (concat pieces)) /\
    sink_room s - zlen (fst (run h (concat pieces))) <= sink_room s'.
Proof.
  intros Hw. revert h x s n. induction pieces as [|p pieces IH]; intros h x s n Hok Hx Hf Hn Hm Hr.
  { exists x, s. cbn [concat] in *. rewrite run_nil. cbn [fst snd]. change (zlen (@nil ascii)) with 0.
    rewrite Z.add_0_r, app_nil_r. repeat (split; [done|]). lia. }
  apply Forall_cons in Hf as [Hp Hf]. cbn [concat] in *. rewrite zlen_app in *. pose proof (zlen_pos p Hp).
  pose proof (zlen_nonneg (concat pieces)).
  destruct (writeTo_spec x h p s) as (x1 & s1 & Hrun & Hok1 & Hx1 & Hv1 & Hr1); [done|done|lia|lia|].
  pose proof (run_bound x h p Hx) as Hb.
  cbn [copyToStreamableObjectUsingCleanVector]. unfold bind at 1. cbn [so_write Transformer_stream].
  unfold tr_write. replace (zlen p =? 0) with false by lia. cbn [tr_state destObj]. rewrite Hrun.
  cbn [fst snd destObj]. rewrite (sink_ok_succeed s1 Hok1). cbn [negb tr_status].
  unfold bind at 1, gets, so_succeed at 1. cbn [so_status Transformer_stream tr_status]. rewrite Hw.
  unfold bind at 1, lift_res.
  destruct (safeAdd_checked (Unsigned 64) (zlen p) n) as [Hadd _];
    [simpl; lia|unfold in_type, SSIZE_MAX in *; simpl; lia..|].
  rewrite Hadd by (unfold in_type, SSIZE_MAX in *; simpl; lia).
  destruct (IH (snd (run h p)) x1 s1 (zlen p + n)) as (x' & s' & Hc & Hok' & Hx' & Hv' & Hr'); [done|done|done|lia|lia|lia|].
  exists x', s'. rewrite Hc, run_app. cbn [fst snd].
  split; [do 3 f_equal; lia|]. split; [done|]. split; [done|]. split; [by rewrite Hv', Hv1, app_assoc|].
  rewrite zlen_app. lia.
Qed.

Lemma transform_run_room {C} `{Readable C} (c : C) x h s :
  b_wf c -> holds x h -> sink_ok s -> 3 * zlen (b_view c) <= SSIZE_MAX ->
  zlen h + 3 * zlen (b_view c) <= sink_room s ->
  exists x' s', transform c (x, s) = (Ret tt, (x', s')) /\ sink_ok s' /\
    holds x' (snd (run h (b_view c))) /\ sink_view s' = sink_view s ++ fst (run h (b_view c)) /\
    sink_room s - zlen (fst (run h (b_view c))) <= sink_room s'.
Proof.
  intros Hwf Hx Hok Hm Hr. unfold transform, streamTo, bind. cbn [fst snd].
  rewrite (appendTo_everything c) by done. pose proof (zlen_nonneg (b_view c)).
  destruct (decide (zlen (b_view c) = 0)) as [Hz|Hnz].
  { rewrite Hz, appendTo_zero. exists x, s. rewrite (zlen_0_nil _ Hz), run_nil. cbn [fst snd].
    change (zlen (@nil ascii)) with 0. rewrite app_nil_r. repeat (split; [done|]). lia. }
  destruct (appendTo_pieces (S := Transformer X S) c (zlen (b_view c)) Hwf) as (pieces & Hne & Hc & Hrun); [lia|].
  rewrite ztake_ge in Hc by lia. rewrite Hrun. rewrite <- Hc in Hm, Hr.
  destruct (run_pieces pieces h x s WriteStatus_new 0) as (x' & s' & -> & Hok' & Hx' & Hv');
    [done|done|done|done|lia|lia|lia|].
  exists x', s'. rewrite Hc in *. cbn [fst snd tr_state destObj]. done.
Qed.

Lemma transform_run {C} `{Readable C} (c : C) x h s :
  b_wf c -> holds x h -> sink_ok s -> 3 * zlen (b_view c) <= SSIZE_MAX ->
  zlen h + 3 * zlen (b_view c) <= sink_room s ->
  exists x' s', transform c (x, s) = (Ret tt, (x', s')) /\ sink_ok s' /\
    holds x' (snd (run h (b_view c))) /\ sink_view s' = sink_view s ++ fst (run h (b_view c)).
Proof.
  intros. destruct (transform_run_room c x h s) as (x' & s' & ? & ? & ? & ? & _); [done..|]. by exists x', s'.
Qed.
End TransformSpec.

(** ** Properties *)

(** Decoding a container into any destination with room writes, at the
    end of it, the decoding of the container's text, however the container cuts
    it into writes and wherever the cuts fall in an escape; an escape the text
    does not complete is held back. *)
Theorem url_decoder_decodes {C S} `{Readable C} `{FullSink S} (c : C) d held (s : S) :
  b_wf c -> dec_holds d held -> sink_ok s -> 3 * zlen (b_view c) <= SSIZE_MAX ->
  zlen held + 3 * zlen (b_view c) <= sink_room s ->
  exists d' s', transform c (d, s) = (Ret tt, (d', s')) /\ sink_ok s' /\
    dec_holds d' (snd (dec_run held (b_view c))) /\
    sink_view s' = sink_view s ++ fst (dec_run held (b_view c)).
Proof.
  intros Hwf Hd Hok Hm Hr.
  destruct (transform_run (X := URLDecoder) c d held s) as (d' & s' & Ht & Hrest); [done..|].
  exists d', s'. split; [exact Ht|exact Hrest].
Qed.

Lemma dec_run_code c rest :
  dec_run [] (PERCENT :: sprintf_02X c ++ rest) = (c :: fst (dec_run [] rest), snd (dec_run [] rest)).
Proof.
  assert (Hall : forallb (fun c => isxdigit (hex_digit (uchar c / 16)) && isxdigit (hex_digit (uchar c mod 16)) &&
    bool_decide (hexPairToByte (hex_digit (uchar c / 16)) (hex_digit (uchar c mod 16)) = c)) all_chars = true)
    by (vm_compute; reflexivity).
  pose proof (forall_chars _ Hall c) as Hc. simpl in Hc.
  apply andb_true_iff in Hc as [[H1 H2]%andb_true_iff H3%bool_decide_eq_true].
  unfold sprintf_02X. cbn [app dec_run dec_char]. rewrite decide_True by done. cbn [dec_run dec_char].
  rewrite H1. cbn [dec_run dec_char]. rewrite H2, H3. by destruct (dec_run [] rest).
Qed.

Lemma dec_run_encoded l : dec_run [] (url_encode l) = (l, []).
Proof.
  induction l as [|c l IH]; [done|]. unfold url_encode in *. cbn [flat_map].
  destruct (shouldEncodeThisByte c) eqn:Ec.
  - change ((PERCENT :: sprintf_02X c) ++ ?x) with (PERCENT :: sprintf_02X c ++ x). by rewrite dec_run_code, IH.
  - cbn [app dec_run dec_char]. rewrite !decide_False; [by rewrite IH|..];
      intros ->; vm_compute in Ec; discriminate Ec.
Qed.

(** Whatever bytes a container holds (the ones above 127 included),
    encoding it into a chunked container and decoding that one gives the same
    bytes back, with nothing held back. *)
Theorem url_stream_roundtrip {C M S} `{Readable C} `{BBase M, MmapFactory M} `{FullSink S}
    (c : C) (mid : B_Chunks M) (s : S) :
  b_wf c -> sink_ok mid -> sink_ok s -> sink_view mid = [] ->
  3 * zlen (b_view c) <= sink_room mid -> 9 * zlen (b_view c) <= sink_room s ->
  9 * zlen (b_view c) <= SSIZE_MAX ->
  exists mid' d' s', transform c (URLEncoder_new, mid) = (Ret tt, (URLEncoder_new, mid')) /\
    transform mid' (URLDecoder_new, s) = (Ret tt, (d', s')) /\ dec_holds d' [] /\
    sink_view s' = sink_view s ++ b_view c.
Proof.
  intros Hwf Hmid Hs He Hr1 Hr2 Hm. pose proof (zlen_nonneg (b_view c)).
  destruct (transform_run c URLEncoder_new [] mid Hwf) as ([] & mid' & Ht & Hok' & _ & Hv);
    [done|done|lia|change (zlen (@nil ascii)) with 0; lia|].
  cbn [fst run URLEncoder_spec] in Hv. rewrite He, app_nil_l in Hv.
  pose proof (url_encode_length (b_view c)) as Hl.
  assert (Hwf' : b_wf mid') by (destruct Hok' as [[Hwf' _] _]; exact Hwf').
  assert (Hbv : b_view mid' = url_encode (b_view c)) by exact Hv.
  destruct (transform_run mid' URLDecoder_new [] s Hwf') as (d' & s' & Ht' & _ & Hd' & Hv');
    [by apply dec_holds_nil|done|rewrite Hbv; lia|rewrite Hbv; change (zlen (@nil ascii)) with 0; lia|].
  cbn [run URLDecoder_spec holds] in *. rewrite Hbv, dec_run_encoded in *. by exists mid', d', s'.
Qed.

Section StringsSpec.
Context {M : Type} `{BBase M, MmapFactory M}.

Lemma B_MEM_new_view url :
  zlen url < 2 ^ 32 ->
  mem_wf (B_MEM_new (Some url) (zlen url)) /\ mem_view (B_MEM_new (Some url) (zlen url)) = url.
Proof.
  intros Hl. pose proof (zlen_nonneg url). unfold B_MEM_new. rewrite Z.mod_small by lia.
  destruct (decide (url = [])) as [->|Hne]; [split; [split; [split|]; vm_compute; discriminate|done]|].
  pose proof (zlen_pos url Hne). replace (zlen url =? 0) with false by lia. cbn [negb].
  unfold mem_wf, mem_view, BMem.size, reference, mem_ptr. simpl. split; [unfold SSIZE_MAX; lia|].
  by apply ztake_ge.
Qed.

Lemma new_container_ready :
  sink_ok (B_Chunks_new (M := M)) /\ sink_room (B_Chunks_new (M := M)) = 262144.
Proof.
  split; [|vm_compute; reflexivity]. split.
  - split; [split; [done|split; [constructor|split; [done|vm_compute; discriminate]]]|].
    split; [done|]. split; [done|vm_compute; reflexivity].
  - split; [done|]. split; [done|]. split; vm_compute; discriminate.
Qed.

Lemma codec_str_identity {X} `{TransformerSpec X} (x : X) url :
  holds x [] -> zlen url <= 87381 -> codec_str (M := M) x url = Ret url.
Proof.
  intros Hx Hl. unfold codec_str. destruct (B_MEM_new_view url) as [Hwf Hv]; [lia|].
  destruct new_container_ready as [Hok Hr].
  destruct (transform_run (B_MEM_new (Some url) (zlen url)) x [] (B_Chunks_new (M := M)))
    as (x' & out & -> & [_ (_ & Hfin & _)] & _); [exact Hwf|done|done| | |].
  - change (b_view (B_MEM_new (Some url) (zlen url))) with (mem_view (B_MEM_new (Some url) (zlen url))).
    rewrite Hv. unfold SSIZE_MAX. lia.
  - change (b_view (B_MEM_new (Some url) (zlen url))) with (mem_view (B_MEM_new (Some url) (zlen url))).
    rewrite Hv, Hr. change (zlen (@nil ascii)) with 0. lia.
  - change (finish (m_writeStatus (ck_base out)) = false) in Hfin.
    change (so_status out) with (m_writeStatus (ck_base out)). by rewrite Hfin, andb_false_r.
Qed.

(** The string versions of the codecs return the string they are given:
    they keep the result only if the destination reports the end of the
    stream, and [streamTo] never writes one. *)
Theorem url_strings_unchanged url :
  zlen url <= 87381 -> decodeURLStr (M := M) url = Ret url /\ encodeURLStr (M := M) url = Ret url.
Proof.
  intros Hl. split; apply codec_str_identity; try done.
Qed.

Lemma refused_write (c : B_Chunks M) buf :
  m_readOnly (ck_base c) = true -> succeed (m_writeStatus (ck_base c)) = true ->
  finish (m_writeStatus (ck_base c)) = false -> buf <> [] ->
  exists c', writeFullStream buf c = (Ret false, c') /\ m_readOnly (ck_base c') = true /\
    succeed (m_writeStatus (ck_base c')) = true /\ finish (m_writeStatus (ck_base c')) = false.
Proof.
  intros Hro Hs Hf Hne. pose proof (zlen_pos buf Hne). unfold writeFullStream. cbn [writeFullStream_loop].
  replace (0 <? zlen buf) with true by lia. unfold bind at 1. cbn [so_write BBase_stream].
  unfold write, append. cbn [b_get B_Chunks_container]. rewrite Hro. unfold ws_add. rewrite Hs, Hf. cbn [negb orb].
  change (-1 >? 0) with false. change (-1 =? 0) with false. cbn iota.
  eexists. split; [reflexivity|]. done.
Qed.

(** The encoder never ends on a destination that refuses the data: the
    failed write leaves the status successful, nothing is consumed, and the
    loop tries the same bytes again, for as many rounds as it is given. *)
Theorem encoder_loops_on_refusal fuel rest n e (c : B_Chunks M) :
  m_readOnly (ck_base c) = true -> succeed (m_writeStatus (ck_base c)) = true ->
  finish (m_writeStatus (ck_base c)) = false -> rest <> [] -> is_size n ->
  fst (encode_loop fuel rest n (e, c)) = Exc out_of_fuel.
Proof.
  intros Hro Hs Hf Hne Hn. revert c Hro Hs Hf. induction fuel as [|fuel IH]; intros c Hro Hs Hf; [done|].
  pose proof (zlen_pos rest Hne). cbn [encode_loop]. replace (0 <? zlen rest) with true by lia.
  assert (Hstep : exists c', (if encoder_getPlainBytesSize rest >? 0 then
       let! x := on_dst (X := URLEncoder) (writeFullStream (ztake (encoder_getPlainBytesSize rest) rest)) in
       ret (if x then encoder_getPlainBytesSize rest else 0)
     else
       let! x := on_dst (writeFullStream (PERCENT :: sprintf_02X (default (chr 0) (head rest)))) in
       ret (if x then 1 else 0)) (e, c) = (Ret 0, (e, c')) /\ m_readOnly (ck_base c') = true /\
    succeed (m_writeStatus (ck_base c')) = true /\ finish (m_writeStatus (ck_base c')) = false).
  { destruct (_ >? 0) eqn:En; zbool.
    - destruct (refused_write c (ztake (encoder_getPlainBytesSize rest) rest)) as (c' & Hw & ?); [done..| |].
      { intros He%(f_equal zlen). rewrite zlen_ztake in He. change (zlen (@nil ascii)) with 0 in He. lia. }
      exists c'. unfold bind, on_dst, ret. cbn [fst snd]. by rewrite Hw.
    - destruct (refused_write c (PERCENT :: sprintf_02X (default (chr 0) (head rest)))) as (c' & Hw & ?); [done..|].
      exists c'. unfold bind, on_dst, ret. cbn [fst snd]. by rewrite Hw. }
  destruct Hstep as (c' & Hstep & Hro' & Hs' & Hf'). unfold bind at 1. rewrite Hstep.
  unfold bind at 1, gets, id. cbn [snd]. unfold so_succeed.
  change (so_status c') with (m_writeStatus (ck_base c')). rewrite Hs'. cbn [negb].
  rewrite zdrop_le0, Z.add_0_r, u64_small by (done || lia). by apply IH.
Qed.
End StringsSpec.

(** ** Witnesses *)

#[export] Instance no_codec_files : MmapFactory B_MEM := { new_mmap _ := None }.

Definition source_text : B_MEM := B_MEM_new (Some (str "a%20b+c%4")) 9.

Lemma source_text_ok : b_wf source_text.
Proof. split; [split|]; vm_compute; discriminate. Qed.

Lemma url_decoder_decodes_witness :
  exists d' s', transform source_text (URLDecoder_new, StreamableString_new) = (Ret tt, (d', s')) /\
    dec_holds d' (str "%4") /\ m_value s' = str "a b c".
Proof.
  destruct (url_decoder_decodes source_text URLDecoder_new [] StreamableString_new) as (d' & s' & Ht & _ & Hd & Hv).
  - exact source_text_ok.
  - apply dec_holds_nil. reflexivity.
  - split; [reflexivity|]. split; [reflexivity|]. split; vm_compute; discriminate.
  - vm_compute. discriminate.
  - vm_compute. discriminate.
  - exists d', s'. split; [exact Ht|]. split; [exact Hd|exact Hv].
Defined.

Lemma url_stream_roundtrip_witness :
  exists mid' d' s', transform source_text (URLEncoder_new, B_Chunks_new (M := B_MEM)) = (Ret tt, (URLEncoder_new, mid')) /\
    transform mid' (URLDecoder_new, StreamableString_new) = (Ret tt, (d', s')) /\ m_value s' = str "a%20b+c%4".
Proof.
  destruct (new_container_ready (M := B_MEM)) as [Hok _].
  destruct (url_stream_roundtrip source_text (B_Chunks_new (M := B_MEM)) StreamableString_new)
    as (mid' & d' & s' & Ht & Ht' & _ & Hv).
  - exact source_text_ok.
  - exact Hok.
  - split; [reflexivity|]. split; [reflexivity|]. split; vm_compute; discriminate.
  - reflexivity.
  - vm_compute. discriminate.
  - vm_compute. discriminate.
  - vm_compute. discriminate.
  - exists mid', d', s'. split; [exact Ht|]. split; [exact Ht'|exact Hv].
Defined.

Lemma url_strings_unchanged_witness :
  decodeURLStr (M := B_MEM) (str "/a%20b") = Ret (str "/a%20b").
Proof.
  refine (proj1 (url_strings_unchanged (str "/a%20b") _)). vm_compute. discriminate.
Defined.

Lemma encoder_loops_on_refusal_witness :
  fst (encode_loop 1000 (str "abc") 0
    (URLEncoder_new, ck_set (set_readOnly true B_Base_new) (B_Chunks_new (M := B_MEM)))) = Exc out_of_fuel.
Proof.
  apply (encoder_loops_on_refusal 1000 (str "abc") 0 URLEncoder_new).
  - reflexivity.
  - reflexivity.
  - reflexivity.
  - discriminate.
  - split; vm_compute; discriminate.
Defined.
