(* ===== verification/BoostText.v ===== *)
(** * String algorithms of Boost

    The library is outside src/: [BoostText] names the algorithms the sources
    call (boost/algorithm/string.hpp) and [BoostLaws] what its documentation
    says of them in the classic locale. The header classes are modelled over
    any instance; [reference_text] is one that evaluates. *)

From S2P Require Import Prelude.

(** Words separated by [sep]. *)
Fixpoint join {A} (sep : list A) (ws : list (list A)) : list A :=
  match ws with
  | [] => []
  | [w] => w
  | w :: ws => w ++ sep ++ join sep ws
  end.

(** No character of [s] is one of [cs]; all of them are. *)
Definition free_of (cs s : bytes) : Prop := Forall (fun c => c ∉ cs) s.
Definition made_of (cs s : bytes) : Prop := Forall (fun c => c ∈ cs) s.

Definition is_blank (s : bytes) : Prop := Forall (fun c => isspace c = true) s.
(** Neither end of [s] is a space. *)
Definition tight (s : bytes) : Prop :=
  match s with
  | [] => True
  | c :: _ => isspace c = false /\ match rev s with d :: _ => isspace d = false | [] => True end
  end.

(** [split cs s] is split(_, s, is_any_of(cs), token_compress_on). *)
Class BoostText : Type := {
  split : bytes -> bytes -> list bytes;
  to_upper_copy : bytes -> bytes;
  to_lower_copy : bytes -> bytes;
  trim : bytes -> bytes;
  iequals : bytes -> bytes -> bool;
  starts_with : bytes -> bytes -> bool;
  istarts_with : bytes -> bytes -> bool
}.

Class BoostLaws `{BoostText} : Prop := {
  split_one cs w : free_of cs w -> split cs w = [w];
  split_at cs w seps rest :
    free_of cs w -> made_of cs seps -> seps <> [] ->
    match rest with c :: _ => c ∉ cs | [] => True end ->
    split cs (w ++ seps ++ rest) = w :: split cs rest;
  to_upper_chars s : to_upper_copy s = map toupper s;
  to_lower_chars s : to_lower_copy s = map tolower s;
  trim_ends pre s post : is_blank pre -> is_blank post -> tight s -> trim (pre ++ s ++ post) = s;
  iequals_chars a b : iequals a b = bool_decide (map toupper a = map toupper b);
  starts_with_prefix s p : starts_with s p = bool_decide (take (length p) s = p);
  istarts_with_prefix s p :
    istarts_with s p = bool_decide (map toupper (take (length p) s) = map toupper p)
}.

Section Laws.
Context `{BoostLaws}.

(** Only the first and the last word may be empty: between two separators
    there is at least one character. *)
Fixpoint later_words (ws : list bytes) : Prop :=
  match ws with
  | [] | [_] => True
  | w :: ws => w <> [] /\ later_words ws
  end.
Definition separable (ws : list bytes) : Prop :=
  match ws with [] => False | _ :: ws => later_words ws end.

Lemma split_join cs sep ws :
  made_of cs sep -> sep <> [] -> Forall (free_of cs) ws -> separable ws -> split cs (join sep ws) = ws.
Proof.
  intros Hs Hne Hws Hsep. destruct ws as [|w ws]; [done|]. simpl in Hsep. revert w Hws Hsep.
  induction ws as [|w' ws IH]; intros w Hws Hsep; [by apply split_one; inversion Hws|].
  inversion Hws as [|? ? Hw Hrest]; subst. change (join sep (w :: w' :: ws)) with (w ++ sep ++ join sep (w' :: ws)).
  assert (Hlater : later_words ws).
  { destruct ws; [done|]. by destruct Hsep. }
  rewrite split_at; [by rewrite IH|done|done|done|].
  inversion Hrest as [|? ? Hw' _]; subst. destruct ws as [|w2 ws].
  - simpl. destruct w'; [done|]. by inversion Hw'.
  - destruct Hsep as [Hw0 _]. destruct w' as [|c w']; [done|]. by inversion Hw'.
Qed.

Lemma split_nil cs : split cs [] = [[]].
Proof. apply split_one. constructor. Qed.

Lemma trim_tight s : tight s -> trim s = s.
Proof. intros Hs. rewrite <- (app_nil_r s) at 1. by apply (trim_ends [] s []); [constructor|constructor|]. Qed.

Lemma trim_after pre s : is_blank pre -> tight s -> trim (pre ++ s) = s.
Proof. intros Hp Hs. rewrite <- (app_nil_r s) at 1. apply trim_ends; [done|constructor|done]. Qed.

Lemma trim_blank s : is_blank s -> trim s = [].
Proof. intros Hs. rewrite <- (app_nil_r s). by apply (trim_ends s [] []); [|constructor|]. Qed.
End Laws.

Lemma free_of_app cs a b : free_of cs (a ++ b) <-> free_of cs a /\ free_of cs b.
Proof. apply Forall_app. Qed.

(** Decided by evaluation. *)
Definition free_of_check (cs s : bytes) : bool := forallb (fun c => bool_decide (c ∉ cs)) s.
Lemma free_of_checked cs s : free_of_check cs s = true -> free_of cs s.
Proof. unfold free_of_check, free_of. rewrite forallb_forall, List.Forall_forall. intros Hf x Hx. apply (bool_decide_eq_true (x ∉ cs)). by apply Hf. Qed.

Definition made_of_check (cs s : bytes) : bool := forallb (fun c => bool_decide (c ∈ cs)) s.
Lemma made_of_checked cs s : made_of_check cs s = true -> made_of cs s.
Proof. unfold made_of_check, made_of. rewrite forallb_forall, List.Forall_forall. intros Hf x Hx. apply (bool_decide_eq_true (x ∈ cs)). by apply Hf. Qed.

(** ** An instance *)

(** The token being read, and whether the last character was a separator. *)
Fixpoint split_run (cs tok : bytes) (in_sep : bool) (s : bytes) : list bytes :=
  match s with
  | [] => [tok]
  | c :: s =>
      if decide (c ∈ cs) then if in_sep then split_run cs tok true s else tok :: split_run cs [] true s
      else split_run cs (tok ++ [c]) false s
  end.

#[export] Instance reference_text : BoostText := {
  split cs s := split_run cs [] false s;
  to_upper_copy := map toupper;
  to_lower_copy := map tolower;
  trim s := rev (skip_spaces (rev (skip_spaces s)));
  iequals a b := bool_decide (map toupper a = map toupper b);
  starts_with s p := bool_decide (take (length p) s = p);
  istarts_with s p := bool_decide (map toupper (take (length p) s) = map toupper p)
}.

Lemma split_run_word cs tok w s :
  free_of cs w -> split_run cs tok false (w ++ s) = split_run cs (tok ++ w) false s.
Proof.
  intros Hw. revert tok. induction Hw as [|c w Hc _ IH]; intros tok; [by rewrite app_nil_r|].
  cbn [app split_run]. rewrite decide_False by done. rewrite IH. by rewrite <- app_assoc.
Qed.

Lemma split_run_seps cs seps s : made_of cs seps -> split_run cs [] true (seps ++ s) = split_run cs [] true s.
Proof. induction 1 as [|c seps Hc _ IH]; [done|]. cbn [app split_run]. by rewrite decide_True. Qed.

Lemma split_run_start cs s :
  match s with c :: _ => c ∉ cs | [] => True end -> split_run cs [] true s = split_run cs [] false s.
Proof. destruct s as [|c s]; intros Hc; [done|]. cbn [split_run]. rewrite !decide_False by exact Hc. reflexivity. Qed.

Lemma skip_spaces_blank pre s : is_blank pre -> skip_spaces (pre ++ s) = skip_spaces s.
Proof. induction 1 as [|c pre Hc _ IH]; [done|]. cbn [app skip_spaces]. by rewrite Hc. Qed.

Lemma skip_spaces_stop s : match s with c :: _ => isspace c = false | [] => True end -> skip_spaces s = s.
Proof. destruct s as [|c s]; intros Hc; [done|]. cbn [skip_spaces]. by rewrite Hc. Qed.

Lemma is_blank_rev s : is_blank s -> is_blank (rev s).
Proof. intros Hs. apply List.Forall_rev, Hs. Qed.

#[export] Instance reference_laws : BoostLaws.
Proof.
  split; try done.
  - intros cs w Hw. cbn. rewrite <- (app_nil_r w) at 1. by rewrite split_run_word.
  - intros cs w seps rest Hw Hs Hne Hr. cbn. rewrite split_run_word by done. destruct seps as [|c seps]; [done|].
    inversion Hs as [|? ? Hc Hs']; subst. cbn [app split_run]. rewrite decide_True by done. f_equal.
    rewrite split_run_seps by done. by apply split_run_start.
  - intros pre s post Hpre Hpost Hs. cbn. rewrite skip_spaces_blank by done.
    destruct s as [|c s].
    { pose proof (skip_spaces_blank post [] Hpost) as Hp. rewrite app_nil_r in Hp. cbn [app]. by rewrite Hp. }
    destruct Hs as [Hc He]. rewrite (skip_spaces_stop ((c :: s) ++ post)) by exact Hc. rewrite rev_app_distr.
    rewrite skip_spaces_blank by (by apply is_blank_rev). rewrite skip_spaces_stop; [apply rev_involutive|exact He].
Qed.

(** ** Searching *)

Definition QUOTE_CHAR : ascii := chr 34.

Definition infix_of (p s : bytes) : Prop := exists a b, s = a ++ p ++ b.
(** [p] is nowhere in [a ++ p] but at its end. *)
Definition first_at (a p : bytes) : Prop := forall a' b', a ++ p = a' ++ p ++ b' -> b' = [].

(** boost/algorithm/string.hpp again, and [search_quoted s]: the text that
    regex_search finds in [s] with the expression of a text between quotes,
    without them. *)
Class BoostSearch : Type := {
  contains : bytes -> bytes -> bool;
  icontains : bytes -> bytes -> bool;
  replace_all : bytes -> bytes -> bytes -> bytes;
  search_quoted : bytes -> option bytes
}.

Class BoostSearchLaws `{BoostSearch} : Prop := {
  contains_infix s p : contains s p = true <-> infix_of p s;
  icontains_upper s p : icontains s p = contains (map toupper s) (map toupper p);
  replace_none s p f : ~ infix_of p s -> replace_all s p f = s;
  replace_first a p b f : p <> [] -> first_at a p -> replace_all (a ++ p ++ b) p f = a ++ f ++ replace_all b p f;
  quoted_none a : free_of [QUOTE_CHAR] a -> search_quoted a = None;
  quoted_open a t : free_of [QUOTE_CHAR] a -> free_of [QUOTE_CHAR] t -> search_quoted (a ++ QUOTE_CHAR :: t) = None;
  quoted_some a t b : free_of [QUOTE_CHAR] a -> free_of [QUOTE_CHAR] t ->
    search_quoted (a ++ QUOTE_CHAR :: t ++ QUOTE_CHAR :: b) = Some t
}.

(** *** An instance *)

Definition is_prefix (p s : bytes) : bool := bool_decide (take (length p) s = p).

Fixpoint contains_run (s p : bytes) : bool :=
  is_prefix p s || match s with [] => false | _ :: s => contains_run s p end.

(** [skip] characters of an occurrence are left to pass. *)
Fixpoint replace_run (p f : bytes) (skip : nat) (s : bytes) : bytes :=
  match skip, s with
  | S skip, _ :: s => replace_run p f skip s
  | O, c :: s' => if is_prefix p s && negb (bool_decide (p = [])) then f ++ replace_run p f (pred (length p)) s' else c :: replace_run p f O s'
  | _, [] => []
  end.

Definition quoted_run (s : bytes) : option bytes :=
  match memchr QUOTE_CHAR s with
  | None => None
  | Some i =>
      let r := zdrop (i + 1) s in
      match memchr QUOTE_CHAR r with Some j => Some (ztake j r) | None => None end
  end.

#[export] Instance reference_search : BoostSearch := {
  contains := contains_run;
  icontains s p := contains_run (map toupper s) (map toupper p);
  replace_all s p f := replace_run p f O s;
  search_quoted := quoted_run
}.

Lemma is_prefix_app p s : is_prefix p s = true <-> exists b, s = p ++ b.
Proof.
  unfold is_prefix. rewrite bool_decide_eq_true. split.
  - intros Hp. exists (drop (length p) s). rewrite <- Hp at 1. by rewrite take_drop.
  - intros [b ->]. by rewrite take_app_length.
Qed.

Lemma contains_run_infix s p : contains_run s p = true <-> infix_of p s.
Proof.
  induction s as [|c s IH]; cbn [contains_run]; rewrite orb_true_iff, is_prefix_app.
  - split; [intros [[b ->]|?]; [by exists [], b|done]|]. intros (a & b & He). symmetry in He.
    apply app_eq_nil in He as [-> He]. left. by exists b.
  - rewrite IH. split.
    + intros [[b ->]|(a & b & ->)]; [by exists [], b|by exists (c :: a), b].
    + intros ([|x a] & b & He); [left; by exists b|right]. injection He as -> ->. by exists a, b.
Qed.

Lemma replace_run_none p f s : ~ infix_of p s -> replace_run p f O s = s.
Proof.
  induction s as [|c s IH]; intros Hno; [done|]. cbn [replace_run].
  destruct (is_prefix p (c :: s)) eqn:E; cbn [andb].
  - exfalso. apply Hno. apply is_prefix_app in E as [b ->]. by exists [], b.
  - f_equal. apply IH. intros (a & b & ->). apply Hno. by exists (c :: a), b.
Qed.

Lemma replace_run_skip p f s1 s2 : replace_run p f (length s1) (s1 ++ s2) = replace_run p f O s2.
Proof. induction s1 as [|c s1 IH]; [done|]. apply IH. Qed.

(** No occurrence starts before the first. *)
Lemma first_at_start p c a b : first_at (c :: a) p -> is_prefix p (c :: a ++ p ++ b) = true -> False.
Proof.
  intros Hf [b' E]%is_prefix_app.
  assert (Hp : c :: a ++ p = p ++ take (length (c :: a)) b').
  { apply (f_equal (take (length (c :: a ++ p)))) in E. rewrite take_app in E.
    change (c :: a ++ p ++ b) with ((c :: a) ++ p ++ b) in E. rewrite app_assoc in E.
    change (c :: a ++ p) with ((c :: a) ++ p) in *. rewrite take_app_length in E. rewrite E. f_equal.
    - apply take_ge. rewrite length_app. lia.
    - f_equal. rewrite length_app. lia. }
  pose proof (Hf [] _ Hp) as Hb. apply (f_equal length) in Hp. rewrite length_app in Hp. rewrite Hb in Hp.
  simpl in Hp. rewrite length_app in Hp. lia.
Qed.

Lemma replace_run_first p f a b :
  p <> [] -> first_at a p -> replace_run p f O (a ++ p ++ b) = a ++ f ++ replace_run p f O b.
Proof.
  intros Hne. induction a as [|c a IH]; intros Hf.
  - destruct p as [|x p]; [done|]. cbn [app replace_run].
    replace (is_prefix (x :: p) (x :: p ++ b)) with true by (symmetry; apply is_prefix_app; by exists b).
    rewrite bool_decide_eq_false_2 by done. cbn [andb negb]. f_equal. exact (replace_run_skip (x :: p) f p b).
  - cbn [app replace_run]. destruct (is_prefix p (c :: a ++ p ++ b)) eqn:E; cbn [andb].
    + exfalso. by apply (first_at_start p c a b).
    + f_equal. apply IH. intros a' b' He. apply (Hf (c :: a') b'). simpl. by rewrite He.
Qed.

Lemma free_of_one c a : free_of [c] a -> c ∉ a.
Proof. intros Hf Hin. pose proof (proj1 (Forall_forall _ a) Hf c Hin) as Hc. apply Hc. by apply list_elem_of_singleton. Qed.

#[export] Instance reference_search_laws : BoostSearchLaws.
Proof.
  split; cbn [contains icontains replace_all search_quoted reference_search].
  - apply contains_run_infix.
  - done.
  - intros s p f. apply replace_run_none.
  - intros a p b f. apply replace_run_first.
  - intros a Ha. unfold quoted_run. by rewrite (proj2 (memchr_None _ a) (free_of_one _ _ Ha)).
  - intros a t Ha Ht. unfold quoted_run. rewrite memchr_free by by apply free_of_one.
    rewrite zdrop_app_ge by lia. replace (zlen a + 1 - zlen a) with (0 + 1) by lia. rewrite zdrop_succ, zdrop_le0 by lia.
    by rewrite (proj2 (memchr_None _ t) (free_of_one _ _ Ht)).
  - intros a t b Ha Ht. unfold quoted_run. rewrite memchr_free by by apply free_of_one.
    rewrite zdrop_app_ge by lia. replace (zlen a + 1 - zlen a) with (0 + 1) by lia. rewrite zdrop_succ, zdrop_le0 by lia.
    rewrite memchr_free by by apply free_of_one. by rewrite ztake_length_app.
Qed.
