(* ===== verification/Random.v ===== *)
(** * Random text (Helpers/random.cpp)

    RAND_bytes is OpenSSL's: the model is given what each call of it returns,
    [None] for a failure. The state of an operation is the number of calls made
    so far. *)

From S2P Require Import Prelude.

(** [RAND_bytes n k]: what the [n]th call, with a buffer of [k] bytes, leaves in it. *)
Class RandomSource : Type := RAND_bytes : nat -> Z -> option bytes.

(** A source that never fails and fills its buffers. *)
Class RandomLaws `{RandomSource} : Prop :=
  RAND_fills n k : 0 <= k -> exists b, RAND_bytes n k = Some b /\ zlen b = k.

Section Random.
Context `{RandomSource}.

Definition rand (length : Z) : st nat bytes := fun n =>
  match RAND_bytes n length with
  | Some buffer => (Ret buffer, S n)
  | None => (Exc (runtime_error "RAND_bytes failed."), S n)
  end.

(** [charset[i]]; the arrays are longer than the numbers used. *)
Definition char_of (charset : bytes) (i : Z) : ascii := nth (Z.to_nat i) charset (chr 0).

Definition charset : bytes := str "abcdefghijklmnopqrstuvwxyzABCDEFGHIJKLMNOPQRSTUVWXYZ0123456789".

Definition createRandomString (length : Z) : st nat bytes :=
  let maxIndex := zlen charset in
  let! buffer := rand length in
  ret (map (fun b => char_of charset (uchar b mod maxIndex)) buffer).

Definition hex_charset : bytes := str "ABCDEF0123456789".

Definition createRandomHexString (length : Z) : st nat bytes :=
  let maxIndex := zlen hex_charset in
  let! buffer := rand length in
  ret (flat_map (fun b => [char_of hex_charset (Z.shiftr (uchar b) 4 mod maxIndex); char_of hex_charset (uchar b mod maxIndex)]) buffer).

Definition createRandomSalt32 : st nat bytes := rand 4.
Definition createRandomSalt128 : st nat bytes := rand 16.
End Random.

(** ** What a random text is made of *)

Definition made_from (charset s : bytes) : Prop := Forall (fun c => c ∈ charset) s.

Lemma char_of_in charset i : 0 <= i < zlen charset -> char_of charset i ∈ charset.
Proof. intros Hi. apply list_elem_of_In, nth_In. unfold zlen in Hi. lia. Qed.

Section Laws.
Context `{RandomLaws}.

Lemma createRandomString_text k n :
  0 <= k -> exists s, createRandomString k n = (Ret s, S n) /\ zlen s = k /\ made_from charset s.
Proof.
  intros Hk. destruct (RAND_fills n k Hk) as (b & Hb & Hl). eexists. unfold createRandomString, bind, rand. rewrite Hb.
  split; [reflexivity|]. split; [by unfold zlen in *; rewrite length_map|].
  apply Forall_map, Forall_forall. intros c _. apply char_of_in, Z.mod_pos_bound. by vm_compute.
Qed.

Lemma createRandomHexString_text k n :
  0 <= k -> exists s, createRandomHexString k n = (Ret s, S n) /\ zlen s = 2 * k /\ made_from hex_charset s.
Proof.
  intros Hk. destruct (RAND_fills n k Hk) as (b & Hb & Hl). eexists. unfold createRandomHexString, bind, rand. rewrite Hb.
  split; [reflexivity|]. subst k. clear Hk Hb. induction b as [|c b IH]; [split; [done|constructor]|].
  cbn [flat_map app]. rewrite !zlen_cons. destruct IH as [-> Hf]. split; [lia|].
  constructor; [|constructor; [|exact Hf]]; apply char_of_in, Z.mod_pos_bound; by vm_compute.
Qed.
End Laws.

(** A source for examples. *)
#[export] Instance zeros : RandomSource := fun _ k => Some (repeat (chr 0) (Z.to_nat k)).
#[export] Instance zeros_laws : RandomLaws.
Proof. intros n k Hk. eexists. split; [done|]. unfold zlen. rewrite repeat_length. lia. Qed.
