(* ===== verification/UrlVars.v ===== *)
(** * URL variables (Protocol_HTTP/common_urlvar_subparser.cpp,
    Protocol_HTTP/common_urlvars.cpp, and the part of Memory/vars.cpp it uses)

    The text a=1&b=2 of a request line or of a form, as a multimap: a protocol
    of Parser.v with one element parser, which is told by turns to look for a
    name, ended by = or &, and for a value, ended by &. The text of an element
    goes through the URL decoder into [m_pData]. *)

From S2P Require Import Prelude Mem SafeInt CText StreamableObject BBase BMem BChunk BChunks BRef SubParser Parser UrlStream BoostText.

(** [StreamableObject::toString]. *)
Definition so_toString {C} `{BBase C} (c : C) : res bytes :=
  match streamTo c StreamableString_new with
  | (Ret _, s) => Ret (m_value s)
  | (Exc e, _) => Exc e
  end.

Inductive eHTTP_URLVarStat : Type := URLV_STAT_WAITING_NAME | URLV_STAT_WAITING_CONTENT.

Section UrlVars.
Context {M : Type} `{BBase M, MmapFactory M} (uninitialised : Z -> bytes) `{BoostText}.

(** ** URLVarContent *)

Record URLVarContent : Type := mkVarContent { vc_base : SubParser M; m_pData : B_Chunks M }.

Definition EQUAL : ascii := chr 61.
Definition AMP : ascii := chr 38.

Definition vc_set (s : SubParser M) (c : URLVarContent) : URLVarContent := mkVarContent s (m_pData c).

Definition setMaxObjectSize (size : Z) (c : URLVarContent) : URLVarContent :=
  vc_set (setParseDataTargetSize size (vc_base c)) c.

Definition setVarType (varName : bool) (c : URLVarContent) : URLVarContent :=
  vc_set (setParseMultiDelimiter (if varName then [[EQUAL]; [AMP]] else [[AMP]]) (vc_base c)) c.

Definition URLVarContent_new : URLVarContent :=
  let s := setParseMode PARSE_MODE_MULTIDELIMITER SubParser_new in
  let s := setParseMultiDelimiter [[EQUAL]; [AMP]] s in
  let c := setMaxObjectSize 4096 (mkVarContent s B_Chunks_new) in
  mkVarContent (set_subParserName "URLVarContent" (vc_base c)) B_Chunks_new.

Definition flushRetrievedContentAsBC : st URLVarContent (B_Chunks M) := fun c =>
  (Ret (m_pData c), mkVarContent (vc_base c) B_Chunks_new).

Definition flushRetrievedContentAsString : st URLVarContent bytes := fun c =>
  (Ret (default [] (toString (m_pData c) SIZE_MAX 0)), mkVarContent (vc_base c) B_Chunks_new).

Definition getPData (c : URLVarContent) : B_Chunks M := m_pData c.

Definition clear_pData : st URLVarContent unit := fun c =>
  let (r, d) := clear (m_pData c) in
  (match r with Ret _ => Ret tt | Exc e => Exc e end, mkVarContent (vc_base c) d).

(** [urlDecoder.transform(getParsedBuffer(), m_pData.get())]. *)
Definition decode_parsed : st URLVarContent unit := fun c =>
  let (r, xd) := transform (getParsedBuffer (vc_base c)) (URLDecoder_new, m_pData c) in
  (r, mkVarContent (vc_base c) (snd xd)).

(** [parse()]. *)
Definition VarContent_parse : st URLVarContent ParseStatus :=
  do! clear_pData in
  let! c := gets id in
  if BRef.size (getParsedBuffer (vc_base c)) =? 0 then ret PARSE_GET_MORE_DATA
  else
    do! decode_parsed in
    let! c := gets id in
    if negb (so_succeed (m_pData c)) then do! clear_pData in ret PARSE_ERROR
    else ret PARSE_GOTO_NEXT_SUBPARSER.

(** ** URLVars *)

Record URLVars : Type := mkURLVars {
  uv_data : ParserData;
  uv_current : option unit;
  m_maxVarNameSize : Z;
  m_maxVarContentSize : Z;
  m_currentStat : eHTTP_URLVarStat;
  m_currentVarName : bytes;
  m_vars : list (bytes * B_Chunks M);
  m_urlVarParser : URLVarContent
}.

Definition uv_set_parser (c : URLVarContent) (u : URLVars) : URLVars :=
  mkURLVars (uv_data u) (uv_current u) (m_maxVarNameSize u) (m_maxVarContentSize u) (m_currentStat u)
    (m_currentVarName u) (m_vars u) c.
Definition uv_set_stat (s : eHTTP_URLVarStat) (u : URLVars) : URLVars :=
  mkURLVars (uv_data u) (uv_current u) (m_maxVarNameSize u) (m_maxVarContentSize u) s
    (m_currentVarName u) (m_vars u) (m_urlVarParser u).
Definition uv_set_name (n : bytes) (u : URLVars) : URLVars :=
  mkURLVars (uv_data u) (uv_current u) (m_maxVarNameSize u) (m_maxVarContentSize u) (m_currentStat u)
    n (m_vars u) (m_urlVarParser u).
Definition uv_set_vars (v : list (bytes * B_Chunks M)) (u : URLVars) : URLVars :=
  mkURLVars (uv_data u) (uv_current u) (m_maxVarNameSize u) (m_maxVarContentSize u) (m_currentStat u)
    (m_currentVarName u) v (m_urlVarParser u).
Definition uv_set_data (d : ParserData) (u : URLVars) : URLVars :=
  mkURLVars d (uv_current u) (m_maxVarNameSize u) (m_maxVarContentSize u) (m_currentStat u)
    (m_currentVarName u) (m_vars u) (m_urlVarParser u).

Definition on_parser {A} (f : st URLVarContent A) : st URLVars A := fun u =>
  let (r, c) := f (m_urlVarParser u) in (r, uv_set_parser c u).

Definition iSetMaxVarContentSize : st URLVars unit := modify (fun u =>
  match m_currentStat u with
  | URLV_STAT_WAITING_CONTENT => uv_set_parser (setMaxObjectSize (cast (Unsigned 32) (m_maxVarContentSize u)) (m_urlVarParser u)) u
  | URLV_STAT_WAITING_NAME => u
  end).
Definition iSetMaxVarNameSize : st URLVars unit := modify (fun u =>
  match m_currentStat u with
  | URLV_STAT_WAITING_NAME => uv_set_parser (setMaxObjectSize (m_maxVarNameSize u) (m_urlVarParser u)) u
  | URLV_STAT_WAITING_CONTENT => u
  end).

(** [Vars::setMaxVarNameSize] and [Vars::setMaxVarContentSize]. *)
Definition setMaxVarNameSize (value : Z) : st URLVars unit :=
  do! modify (fun u => mkURLVars (uv_data u) (uv_current u) value (m_maxVarContentSize u) (m_currentStat u)
                         (m_currentVarName u) (m_vars u) (m_urlVarParser u)) in
  iSetMaxVarNameSize.
Definition setMaxVarContentSize (value : Z) : st URLVars unit :=
  do! modify (fun u => mkURLVars (uv_data u) (uv_current u) (m_maxVarNameSize u) value (m_currentStat u)
                         (m_currentVarName u) (m_vars u) (m_urlVarParser u)) in
  iSetMaxVarContentSize.

(** [addVar]. *)
Definition addVar (varName : bytes) (data : B_Chunks M) : st URLVars bool :=
  match varName with
  | [] => ret false
  | _ :: _ => do! modify (fun u => uv_set_vars (multimap_insert (to_upper_copy varName, data) (m_vars u)) u) in ret true
  end.

Definition uv_isEmpty (u : URLVars) : bool := match m_vars u with [] => true | _ => false end.
Definition uv_clear : st URLVars unit := modify (uv_set_vars []).

(** The loops of [varCount] and [getValues]: their iterator is never
    incremented. *)
Fixpoint varCount_loop (fuel : nat) (range : list (bytes * B_Chunks M)) (i : Z) : res Z :=
  match fuel with
  | O => Exc out_of_fuel
  | S fuel => match range with [] => Ret i | _ :: _ => varCount_loop fuel range (cast (Unsigned 32) (i + 1)) end
  end.
Definition varCount (fuel : nat) (varName : bytes) (u : URLVars) : res Z :=
  varCount_loop fuel (equal_range (to_upper_copy varName) (m_vars u)) 0.

Definition getValue (varName : bytes) (u : URLVars) : option (B_Chunks M) :=
  match equal_range (to_upper_copy varName) (m_vars u) with
  | [] => None
  | (_, v) :: _ => Some v
  end.

Fixpoint getValues_loop (fuel : nat) (range : list (bytes * B_Chunks M)) (r : list (B_Chunks M)) : res (list (B_Chunks M)) :=
  match fuel with
  | O => Exc out_of_fuel
  | S fuel => match range with [] => Ret r | (_, v) :: _ => getValues_loop fuel range (r ++ [v]) end
  end.
Definition getValues (fuel : nat) (varName : bytes) (u : URLVars) : res (list (B_Chunks M)) :=
  getValues_loop fuel (equal_range (to_upper_copy varName) (m_vars u)) [].

(** The set, in its order. *)
Definition getKeysList (u : URLVars) : list bytes := remove_dups (map fst (m_vars u)).

(** [Vars::exist] and [Vars::getStringValue]. *)
Definition exist (varName : bytes) (u : URLVars) : bool :=
  match getValue varName u with Some _ => true | None => false end.
Definition getStringValue (varName : bytes) (u : URLVars) : res bytes :=
  match getValue varName u with None => Ret [] | Some v => so_toString v end.

(** [streamTo]. *)
Section Stream.
Context {S : Type} `{Streamable S}.

Definition encode_into (c : B_Chunks M) : st S unit := fun s =>
  let (r, xs) := transform c (URLEncoder_new, s) in (r, snd xs).

(** The code goes on when the destination has not failed. *)
Definition while_succeeds (k : st S bool) : st S bool :=
  let! ok := gets so_succeed in if negb ok then ret false else k.

Fixpoint streamTo_loop (firstVar : bool) (vars : list (bytes * B_Chunks M)) : st S bool :=
  match vars with
  | [] => ret true
  | (name, value) :: vars =>
      let variable :=
        let varName := snd (append name B_Chunks_new) in
        do! encode_into varName in
        while_succeeds (
          if negb (BChunks.size value =? 0) then
            do! writeString (str "=") in
            while_succeeds (do! encode_into value in while_succeeds (streamTo_loop false vars))
          else streamTo_loop false vars) in
      if firstVar then variable else do! writeString (str "&") in while_succeeds variable
  end.

Definition uv_streamTo (u : URLVars) : st S bool := streamTo_loop true (m_vars u).
End Stream.

(** [size]. *)
Definition uv_size (u : URLVars) : res Z :=
  match uv_streamTo u (mkSN WriteStatus_new 0) with
  | (Exc e, _) => Exc e
  | (Ret _, n) => Ret (if so_succeed n then bytesWritten (so_status n) else 0)
  end.

Definition changeToNextParser : st URLVars bool :=
  let! stat := gets m_currentStat in
  match stat with
  | URLV_STAT_WAITING_NAME =>
      let! name := on_parser flushRetrievedContentAsString in
      do! modify (uv_set_name name) in
      let! s := gets (fun u => vc_base (m_urlVarParser u)) in
      if bool_decide (m_delimiterFound s = [AMP]) || m_streamEnded s then
        let! data := on_parser flushRetrievedContentAsBC in
        do! addVar name data in ret true
      else
        do! modify (uv_set_stat URLV_STAT_WAITING_CONTENT) in
        do! modify (fun u => uv_set_parser (setVarType false (m_urlVarParser u)) u) in
        do! modify (fun u => uv_set_parser (setMaxObjectSize (cast (Unsigned 32) (m_maxVarContentSize u)) (m_urlVarParser u)) u) in
        ret true
  | URLV_STAT_WAITING_CONTENT =>
      let! name := gets m_currentVarName in
      let! data := on_parser flushRetrievedContentAsBC in
      do! addVar name data in
      do! modify (uv_set_stat URLV_STAT_WAITING_NAME) in
      do! modify (fun u => uv_set_parser (setVarType true (m_urlVarParser u)) u) in
      do! modify (fun u => uv_set_parser (setMaxObjectSize (m_maxVarNameSize u) (m_urlVarParser u)) u) in
      ret true
  end.

#[export] Instance URLVars_sub : SubParserImpl M URLVars := {
  sp u := vc_base (m_urlVarParser u);
  sp_set s u := uv_set_parser (vc_set s (m_urlVarParser u)) u;
  parse := on_parser VarContent_parse
}.

#[export] Instance URLVars_protocol : Protocol M URLVars := {
  pd := uv_data;
  pd_set := uv_set_data;
  sub_id := unit;
  sub_impl _ := URLVars_sub;
  m_currentParser := uv_current;
  initProtocol := ret true;
  endProtocol := ret tt;
  changeToNextParser := changeToNextParser
}.

(** The constructor, on the members of [Vars] as its constructor sets them. *)
Definition URLVars_make : st URLVars unit :=
  do! modify (fun u => uv_set_parser (setVarType true (m_urlVarParser u)) u) in
  do! setMaxVarNameSize 4096 in
  do! setMaxVarContentSize 4096 in
  modify (fun u => mkURLVars (uv_data u) (Some tt) (m_maxVarNameSize u) (m_maxVarContentSize u) (m_currentStat u)
                     (m_currentVarName u) (m_vars u) (m_urlVarParser u)).

(** [create]. *)
Definition URLVars_new : URLVars :=
  let u := mkURLVars (ParserData_new false) None 256 (128 * 1024) URLV_STAT_WAITING_NAME [] [] URLVarContent_new in
  let u := snd (URLVars_make u) in
  let u := snd (initSubParser (Prot := URLVars_protocol) tt u) in
  uv_set_data (set_initialized true (uv_data u)) u.
End UrlVars.
