(* ===== verification/UrlVarsSpec.v ===== *)
(** * Parsing URL variables

    The parser of UrlVars.v, fed by any sequence of writes, against a machine
    that takes one character at a time; what streaming the variables gives,
    and that parsing that text gives them back. *)

From stdpp Require Import sorting.
From S2P Require Import Prelude SafeInt CText Multimap Mem Encoders StreamableObject BBase BMem BChunk BChunks BChunksFacts BChunksSpec BRef SubParser SubParserSpec MultiDelim Parser Preserves UrlStream BoostText UrlVars.

(** ** A chunked container that also keeps its index *)

Section IndexedSink.
Context {M : Type} `{BBase M, MmapFactory M}.

Program Definition indexed_sink : Sink (B_Chunks M) := {|
  sink_view := ck_view;
  sink_ok c := ck_open c /\ status_ready (m_writeStatus (ck_base c)) /\ ck_indexed c
|}.
Next Obligation. by intros c (_ & (? & _) & _). Qed.
Next Obligation. done. Qed.
Next Obligation. done. Qed.

Program Definition indexed_full : @FullSink (B_Chunks M) _ indexed_sink := {|
  sink_room c := Z.min (ck_room c) (SIZE_MAX - bytesWritten (m_writeStatus (ck_base c)))
|}.
Next Obligation.
  intros c buf (Hopen & Hst & Hx) Hne Hl Hr. cbn [so_write BBase_stream] in *. simpl in Hr.
  destruct (append_room c buf Hopen Hne) as (v & Ha & Hopen' & Hv & Hx' & Hroom); [lia|].
  unfold BBase.write. rewrite Ha. pose proof (zlen_pos buf Hne). destruct Hst as (Hs & Hf & Hb).
  pose proof (ws_add_positive (m_writeStatus (b_get (ck_put v c))) (zlen buf) Hs Hf Hb ltac:(lia)) as Hw.
  destruct (ws_add_size _ _) as [[[]|e] w]; [|simpl in Hw; lia].
  destruct Hw as (Hw1 & Hw2 & Hw3 & Hw4). eexists. split; [done|].
  split; [split; [apply Hopen'|split; [done|by apply Hx']]|]. split; [done|].
  simpl in *. change (ck_room (ck_set _ (ck_put v c))) with (ck_room (ck_put v c)). lia.
Qed.

(** A container filled with [v]. *)
Definition filled (v : bytes) (c : B_Chunks M) : Prop := ck_data_wf c /\ ck_indexed c /\ ck_view c = v.

Lemma filled_new : filled [] (B_Chunks_new (M := M)).
Proof.
  split; [split; [done|split; [constructor|split; [done|vm_compute; discriminate]]]|]. by split.
Qed.

Lemma filled_toString v c : filled v c -> toString c SIZE_MAX 0 = Some v.
Proof. intros (Hwf & Hx & <-). exact (toString_all c Hwf Hx). Qed.

(** The URL decoder, from a whole window into a new container. *)
Lemma decode_into_new {C} `{Readable C} (c : C) :
  b_wf c -> zlen (b_view c) <= 87381 ->
  exists d out, transform c (URLDecoder_new, B_Chunks_new (M := M)) = (Ret tt, (d, out)) /\
    so_succeed out = true /\ filled (url_decode (b_view c)) out.
Proof.
  intros Hwf Hl. pose proof (zlen_nonneg (b_view c)).
  assert (Hok : @sink_ok _ _ indexed_sink (B_Chunks_new (M := M))).
  { destruct (new_container_ready (M := M)) as [[Ho Hs] _]. by split; [|split]. }
  assert (Hr : @sink_room _ _ _ indexed_full (B_Chunks_new (M := M)) = 262144) by (vm_compute; reflexivity).
  assert (Hd : dec_holds URLDecoder_new []) by by apply dec_holds_nil.
  pose proof (transform_run (H0 := URLDecoder_spec) (H3 := indexed_full) c URLDecoder_new []
    (B_Chunks_new (M := M)) Hwf Hd Hok) as Hrun.
  destruct Hrun as (d & out & Ht & ((Hwf' & _) & Hst & Hx) & _ & Hv);
    [unfold SSIZE_MAX; lia|rewrite Hr; change (zlen (@nil ascii)) with 0; lia|].
  exists d, out. split; [exact Ht|]. split; [apply Hst|]. split; [done|]. split; [done|]. exact Hv.
Qed.
End IndexedSink.

(** ** One character at a time *)

Inductive phase : Type := Name | Value (name : bytes).

(** The character that ends the element, and those that are looked for. *)
Definition ender (ph : phase) : ascii := match ph with Name => EQUAL | Value _ => AMP end.
Definition delims (ph : phase) : list ascii := match ph with Name => [EQUAL; AMP] | Value _ => [AMP] end.

Section Machine.
Context `{BoostText}.

(** The phase, the text of the element so far, the variables. *)
Definition machine : Type := phase * bytes * list (bytes * bytes).

Definition vars_add (name value : bytes) (vars : list (bytes * bytes)) : list (bytes * bytes) :=
  match name with [] => vars | _ :: _ => multimap_insert (to_upper_copy name, value) vars end.

(** An empty element is not one: its end is skipped. *)
Definition element_end (s : machine) : machine :=
  let '(ph, pending, vars) := s in
  match pending with
  | [] => (ph, [], vars)
  | _ :: _ =>
      match ph with
      | Name => (Value (url_decode pending), [], vars)
      | Value n => (Name, [], vars_add n (url_decode pending) vars)
      end
  end.

(** Elements have at most [m] bytes with their end, and a name has no [&]. *)
Definition take_char (m : Z) (s : machine) (c : ascii) : option machine :=
  let '(ph, pending, vars) := s in
  if m <? zlen pending + 1 then None
  else if decide (c = ender ph) then Some (element_end s)
  else if decide (c = AMP) then None
  else Some (ph, pending ++ [c], vars).

Fixpoint feed (m : Z) (s : machine) (text : bytes) : option machine :=
  match text with
  | [] => Some s
  | c :: text => match take_char m s c with Some s => feed m s text | None => None end
  end.

Lemma uv_feed_app m s t1 t2 :
  feed m s (t1 ++ t2) = match feed m s t1 with Some s' => feed m s' t2 | None => None end.
Proof. revert s. induction t1 as [|c t1 IH]; intros s; [done|]. cbn [app feed]. by destruct (take_char m s c). Qed.

(** What was read when the element has not ended. *)
Lemma feed_inside m ph pending vars l s' :
  feed m (ph, pending, vars) l = Some s' -> ender ph ∉ l ->
  s' = (ph, pending ++ l, vars) /\ AMP ∉ l /\ (l = [] \/ zlen pending + zlen l <= m).
Proof.
  revert pending. induction l as [|c l IH]; intros pending Hf Hl.
  { injection Hf as <-. rewrite app_nil_r. split; [done|]. split; [apply not_elem_of_nil|by left]. }
  apply not_elem_of_cons in Hl as [Hc Hl]. cbn [feed take_char] in Hf.
  destruct (m <? zlen pending + 1) eqn:E; zbool; [done|]. rewrite decide_False in Hf by congruence.
  destruct (decide (c = AMP)) as [|Hamp]; [done|].
  destruct (IH (pending ++ [c]) Hf Hl) as (-> & Ha & Hd). rewrite <- app_assoc. split; [done|].
  split; [by apply not_elem_of_cons|]. right. rewrite zlen_app, zlen_cons in *. change (zlen []) with 0 in *.
  destruct Hd as [->|?]; [change (zlen []) with 0|]; lia.
Qed.

Lemma feed_ended m ph pending vars l r s' :
  feed m (ph, pending, vars) (l ++ ender ph :: r) = Some s' -> ender ph ∉ l ->
  feed m (element_end (ph, pending ++ l, vars)) r = Some s' /\ zlen pending + zlen l + 1 <= m /\ AMP ∉ l.
Proof.
  intros Hf Hl. rewrite uv_feed_app in Hf. destruct (feed m (ph, pending, vars) l) as [s1|] eqn:E; [|done].
  destruct (feed_inside m ph pending vars l s1 E Hl) as (-> & Ha & _). cbn [feed] in Hf.
  unfold take_char in Hf. destruct (m <? _) eqn:Em; zbool; [done|]. rewrite decide_True in Hf by done.
  rewrite zlen_app in *. split; [exact Hf|]. split; [lia|done].
Qed.

(** The ends of elements of a text. *)
Definition is_end (c : ascii) : Prop := c = EQUAL \/ c = AMP.
Definition ends (t : bytes) : Z := zlen (filter is_end t).

Lemma ends_nonneg t : 0 <= ends t.
Proof. apply zlen_nonneg. Qed.

Lemma uv_ends_app t1 t2 : ends (t1 ++ t2) = ends t1 + ends t2.
Proof. unfold ends. by rewrite filter_app, zlen_app. Qed.

Lemma ends_cons_ender ph t : ends (ender ph :: t) = 1 + ends t.
Proof. unfold ends. rewrite filter_cons_True by (destruct ph; [by left|by right]). apply zlen_cons. Qed.
End Machine.

(** ** The parser and the machine *)

Section Spec.
Context {M : Type} `{BBase M, MmapFactory M} (uninitialised : Z -> bytes) `{BoostText}.

#[export] Instance URLVars_laws : SubParserLaws M (URLVars (M := M)).
Proof. split; [done|done|by intros [? ? ? ? ? ? ? []]]. Qed.

(** The containers of [u] hold the values of the machine. *)
Definition holding (kv : bytes * bytes) (kc : bytes * B_Chunks M) : Prop := fst kv = fst kc /\ filled (snd kv) (snd kc).

Lemma insert_holding vars cs k v c :
  Forall2 holding vars cs -> filled v c -> Forall2 holding (multimap_insert (k, v) vars) (multimap_insert (k, c) cs).
Proof.
  intros Hv Hc. assert (Hnew : holding (k, v) (k, c)) by by split.
  induction Hv as [|[k1 v1] [k2 c2] vars cs [Hk Hf] Hv IH]; [constructor; [done|constructor]|].
  simpl in Hk. subst k2. assert (Hold : holding (k1, v1) (k1, c2)) by by split.
  cbn [multimap_insert fst]. case_cond; constructor; try done. by constructor.
Qed.

Definition at_phase (ph : phase) (u : URLVars (M := M)) : Prop :=
  match ph with
  | Name => m_currentStat u = URLV_STAT_WAITING_NAME
  | Value n => m_currentStat u = URLV_STAT_WAITING_CONTENT /\ m_currentVarName u = n
  end.

(** [u] has the state of the machine, both size limits being [m]. *)
Definition uv_ok (m ttl : Z) (u : URLVars) (s : machine) : Prop :=
  let '(ph, pending, vars) := s in
  buffer_ok m (m_unparsedBuffer (sp u)) /\ buf_view u = pending /\
  m_parseMode (sp u) = PARSE_MODE_MULTIDELIMITER /\
  m_parseMultiDelimiter (sp u) = map (fun e => [e]) (delims ph) /\ m_streamEnded (sp u) = false /\
  uv_current u = Some tt /\ m_maxTTL (uv_data u) = ttl /\ m_maxVarNameSize u = m /\ m_maxVarContentSize u = m /\
  m <= 87381 /\ at_phase ph u /\ m_pData (m_urlVarParser u) = B_Chunks_new /\ Forall2 holding vars (m_vars u) /\
  (ender ph ∉ pending) /\ (AMP ∉ pending).

(** [parse()]: nothing for an empty element, its decoded text otherwise. *)
Lemma VarContent_parse_run (c : URLVarContent (M := M)) buf :
  m_pData c = B_Chunks_new -> ref_first (getParsedBuffer (vc_base c)) -> b_view (getParsedBuffer (vc_base c)) = buf ->
  zlen buf <= 87381 ->
  match buf with
  | [] => VarContent_parse c = (Ret PARSE_GET_MORE_DATA, c)
  | _ :: _ => exists d, filled (url_decode buf) d /\
      VarContent_parse c = (Ret PARSE_GOTO_NEXT_SUBPARSER, mkVarContent (vc_base c) d)
  end.
Proof.
  intros Hp Hr Hv Hl. assert (Hwf : b_wf (getParsedBuffer (vc_base c))) by exact Hr.
  set (decoding := do! decode_parsed in let! c := gets id in
    if negb (so_succeed (m_pData c)) then do! clear_pData in ret PARSE_ERROR else ret PARSE_GOTO_NEXT_SUBPARSER).
  assert (E : VarContent_parse c = (if zlen buf =? 0 then ret PARSE_GET_MORE_DATA else decoding) c).
  { unfold VarContent_parse. fold decoding. unfold bind at 1, clear_pData at 1. rewrite Hp.
    change (clear (B_Chunks_new (M := M))) with (Ret (A := bool) true, B_Chunks_new (M := M)). cbn iota.
    unfold bind at 1, gets at 1, id. cbn [vc_base].
    change (BRef.size ?r) with (v_size r). rewrite (size_view _ Hwf), Hv.
    by replace (mkVarContent (vc_base c) B_Chunks_new) with c by (destruct c; simpl in Hp; by subst). }
  rewrite E. destruct buf as [|b buf]; [done|]. rewrite zlen_cons. pose proof (zlen_nonneg buf).
  replace (1 + zlen buf =? 0) with false by lia.
  destruct (decode_into_new (getParsedBuffer (vc_base c)) Hwf) as (dec & d & Ht & Hs & Hd); [by rewrite Hv|].
  exists d. rewrite Hv in Hd. split; [done|]. unfold decoding, bind at 1, decode_parsed at 1. rewrite Hp, Ht. cbn [snd].
  unfold bind at 1, gets at 1, id. cbn [m_pData]. by rewrite Hs.
Qed.

Abbreviation asked := (asked (Prot := URLVars_protocol) tt).

Lemma uv_ok_asked m ttl u s : uv_ok m ttl u s -> uv_ok m ttl (asked u) s.
Proof. destruct s as [[ph pending] vars]. intros Hok. exact Hok. Qed.

(** A write without the end of the element. *)
Lemma element_pending m ttl u ph pending vars buf :
  uv_ok m ttl u (ph, pending, vars) -> m_parseStatus (sp u) = PARSE_GET_MORE_DATA ->
  ender ph ∉ buf -> AMP ∉ buf -> zlen pending + zlen buf <= m -> buf <> [] ->
  exists u', parseByMultiDelimiter buf u = (Ret (Some (zlen buf)), u') /\
    uv_ok m ttl u' (ph, pending ++ buf, vars) /\ m_parseStatus (sp u') = PARSE_GET_MORE_DATA.
Proof.
  intros (Hok & Hv & Hmode & Hmd & He & Hrest) Hst Hl Ha Hfit Hne. pose proof (zlen_pos buf Hne).
  destruct Hrest as (Hcur & Httl & Hn & Hc & Hm & Hph & Hpd & Hvars & Hep & Hap).
  assert (Hno : forall e, e ∉ pending -> e ∉ buf -> e ∉ pending ++ buf) by (intros; rewrite elem_of_app; tauto).
  destruct (multi_none m u (delims ph) buf Hok Hmd He) as (c & Hokc & Hvc & Hw); rewrite Hv in *;
    [lia|destruct ph; repeat constructor; by apply Hno|].
  rewrite Z.min_l in Hw, Hvc by lia. rewrite ztake_ge in Hvc by lia.
  exists (searched [] c u). split; [exact Hw|]. assert (Hsp := sp_searched [] c u).
  split; [|by rewrite Hsp]. unfold uv_ok, buf_view. rewrite Hsp.
  split; [exact Hokc|]. split; [exact Hvc|]. repeat (split; [assumption|]). split; by apply Hno.
Qed.

(** Changing the size limit of an empty buffer to the one it has. *)
Lemma buffer_resized m c : buffer_ok m c -> ck_view c = [] -> buffer_ok m (setMaxSize m c).
Proof.
  intros (((Hn & Hf & Hs & Hv) & Hro & Hmem & Hp) & Hx & Hm & Hr & Hch & _) Hnil. destruct c as [[ro mx by'] vec ? ? ? ?].
  split; [split; [split; [exact Hn|split; [exact Hf|split; [exact Hs|exact Hv]]]|]|].
  { split; [exact Hro|]. by split. }
  split; [exact Hx|]. split; [done|]. split; [exact Hr|]. split; [exact Hch|].
  change (ck_view _) with (chunks_bytes vec). unfold ck_view in Hnil. simpl in Hnil. rewrite Hnil. exact (proj1 Hr).
Qed.

(** The state after [parse()] of an element, before the protocol goes on. *)
Definition parsed_as (m ttl : Z) (ph : phase) (text : bytes) (vars : list (bytes * bytes)) (u : URLVars) : Prop :=
  buffer_ok m (m_unparsedBuffer (sp u)) /\ buf_view u = [] /\
  m_parseMode (sp u) = PARSE_MODE_MULTIDELIMITER /\
  m_parseMultiDelimiter (sp u) = map (fun e => [e]) (delims ph) /\
  uv_current u = Some tt /\ m_maxTTL (uv_data u) = ttl /\ m_maxVarNameSize u = m /\ m_maxVarContentSize u = m /\
  m <= 87381 /\ at_phase ph u /\ filled text (m_pData (m_urlVarParser u)) /\ Forall2 holding vars (m_vars u).

Lemma addVar_holding name v c u vars :
  Forall2 holding vars (m_vars u) -> filled v c ->
  exists r, addVar name c u = (Ret r, uv_set_vars (m_vars (snd (addVar name c u))) u) /\
    Forall2 holding (vars_add name v vars) (m_vars (snd (addVar name c u))).
Proof.
  intros Hv Hc. destruct name as [|n name]; [exists false; split; [by destruct u|done]|].
  exists true. split; [done|]. by apply insert_holding.
Qed.

(** The end of an element that is not empty, not that of the stream. *)
Lemma uv_changeToNextParser_run m ttl u ph text vars :
  parsed_as m ttl ph text vars u -> m_delimiterFound (sp u) = [ender ph] -> m_streamEnded (sp u) = false -> 0 <= m ->
  exists u', changeToNextParser u = (Ret true, u') /\
    uv_ok m ttl u' (match ph with
                    | Name => (Value text, [], vars)
                    | Value n => (Name, [], vars_add n text vars)
                    end).
Proof.
  intros (Hok & Hv & Hmode & Hmd & Hcur & Httl & Hn & Hc & Hm & Hph & Hf & Hvars) Hd He Hm0.
  unfold changeToNextParser. unfold bind at 1, gets at 1. destruct ph as [|n].
  - cbn [at_phase] in Hph. rewrite Hph. unfold bind at 1, on_parser at 1, flushRetrievedContentAsString.
    rewrite (filled_toString _ _ Hf). unfold bind at 1, modify at 1, bind at 1, gets at 1.
    change (vc_base (m_urlVarParser _)) with (sp u). rewrite Hd, He. cbn [ender].
    rewrite bool_decide_false by done. cbn [orb]. unfold bind, modify, ret. eexists. split; [done|].
    destruct u as [dt cu mn mc stt nm vs [b pd]]. simpl in *. subst. rewrite Z.mod_small by lia.
    split; [by apply buffer_resized|]. split; [done|]. split; [done|]. split; [done|]. split; [done|].
    repeat (split; [done|]). split; apply not_elem_of_nil.
  - destruct Hph as [Hph Hname]. rewrite Hph. unfold bind at 1, gets at 1. rewrite Hname.
    unfold bind at 1, on_parser at 1, flushRetrievedContentAsBC.
    set (u1 := uv_set_parser _ u). set (pd := m_pData (m_urlVarParser u)) in *.
    destruct (addVar_holding n text pd u1 vars Hvars Hf) as (r & Ha & Hv').
    unfold bind at 1. rewrite Ha. unfold bind, modify, ret. eexists. split; [done|].
    set (vs' := m_vars (snd (addVar n pd u1))) in *. clearbody vs'.
    destruct u as [dt cu mn mc stt nm vs [b pd']]. simpl in *. subst.
    split; [by apply buffer_resized|]. split; [done|]. split; [done|]. split; [done|]. split; [done|].
    repeat (split; [done|]). split; apply not_elem_of_nil.
Qed.

Lemma sp_after_parse st (u : URLVars (M := M)) :
  sp (after_parse st u) = set_unparsedBuffer (cleared (m_unparsedBuffer (sp u))) (setParseStatus st (sp u)).
Proof. unfold after_parse, with_unparsed. by rewrite !sp_sp_set. Qed.

(** A write with the end of the element: it is skipped when it is empty. *)
Lemma element_found m ttl u ph pending vars l r :
  uv_ok m ttl u (ph, pending, vars) -> m_parseStatus (sp u) = PARSE_GET_MORE_DATA ->
  ender ph ∉ l -> AMP ∉ l -> zlen pending + zlen l + 1 <= m ->
  exists u1, parseByMultiDelimiter (l ++ ender ph :: r) u = (Ret (Some (zlen l + 1)), u1) /\
    ((pending ++ l = [] /\ m_parseStatus (sp u1) = PARSE_GET_MORE_DATA /\ uv_ok m ttl u1 (ph, [], vars)) \/
     (pending ++ l <> [] /\ m_parseStatus (sp u1) = PARSE_GOTO_NEXT_SUBPARSER /\
      exists u2, changeToNextParser u1 = (Ret true, u2) /\ uv_ok m ttl u2 (element_end (ph, pending ++ l, vars)))).
Proof.
  intros (Hok & Hv & Hmode & Hmd & He & Hrest) Hst Hl Ha Hfit.
  destruct Hrest as (Hcur & Httl & Hn & Hc & Hm & Hph & Hpd & Hvars & Hep & Hap).
  assert (Hds : exists ds, m_parseMultiDelimiter (sp u) = [ender ph] :: ds /\ Forall (fun d => d <> [] /\ zlen d <= SSIZE_MAX) ds).
  { rewrite Hmd. destruct ph; [exists [[AMP]]; split; [done|apply (needles_single [AMP])]|exists []; split; [done|constructor]]. }
  destruct Hds as (ds & Hmd' & Hds).
  destruct (multi_found m u (ender ph) ds l r Hok Hmd' Hds) as (c & t1 & Hokc & (Et & Hr & _ & Hb) & Hw); rewrite Hv in *;
    [by rewrite elem_of_app; tauto|done|].
  pose proof (zlen_nonneg pending). pose proof (zlen_nonneg l).
  assert (Hbase : sp t1 = sp_reference 0 (zlen (pending ++ l)) (sp (searched [ender ph] c u))).
  { rewrite Et. unfold delivered. by rewrite sp_sp_set. }
  rewrite sp_searched in Hbase. destruct (buffer_cleared m c Hokc) as [Hokcl Hvcl].
  assert (Hp1 : m_pData (m_urlVarParser t1) = B_Chunks_new) by (rewrite Et; exact Hpd).
  pose proof (VarContent_parse_run (m_urlVarParser t1) (pending ++ l) Hp1 Hr Hb) as Hparse.
  rewrite zlen_app in Hparse. specialize (Hparse ltac:(lia)).
  rewrite Hw. change (parse t1) with (on_parser VarContent_parse t1). unfold on_parser.
  destruct (pending ++ l) as [|x text] eqn:Etext.
  - rewrite Hparse. replace (uv_set_parser (m_urlVarParser t1) t1) with t1 by (by destruct t1).
    exists (after_parse PARSE_GET_MORE_DATA t1). split; [done|]. left. split; [done|].
    split; [by rewrite sp_after_parse|]. unfold uv_ok, buf_view. rewrite !sp_after_parse, Hbase.
    split; [exact Hokcl|]. split; [exact Hvcl|]. do 3 (split; [assumption|]). rewrite Et.
    repeat (split; [assumption|]). split; apply not_elem_of_nil.
  - destruct Hparse as (d & Hd & ->). set (t2 := uv_set_parser _ t1). assert (Hsp2 : sp t2 = sp t1) by done.
    exists (after_parse PARSE_GOTO_NEXT_SUBPARSER t2). split; [done|]. right. split; [done|].
    split; [by rewrite sp_after_parse|].
    destruct (uv_changeToNextParser_run m ttl (after_parse PARSE_GOTO_NEXT_SUBPARSER t2) ph (url_decode (x :: text)) vars)
      as (u2 & Hch & Hok2); [|by rewrite sp_after_parse, Hsp2, Hbase|by rewrite sp_after_parse, Hsp2, Hbase|lia|].
    + unfold parsed_as, buf_view. rewrite !sp_after_parse, Hsp2, Hbase. split; [exact Hokcl|]. split; [exact Hvcl|].
      do 2 (split; [assumption|]). unfold t2. rewrite Et. repeat (split; [assumption|]). exact Hvars.
    + exists u2. split; [exact Hch|]. destruct ph; exact Hok2.
Qed.

(** ** Whole writes *)

Abbreviation go_on := (go_on uninitialised (Prot := URLVars_protocol)).

Lemma one_round fuel buf t u w u1 :
  0 <= t <= m_maxTTL (uv_data u) -> m_maxTTL (uv_data u) < SIZE_MAX -> uv_current u = Some tt ->
  writeIntoParser uninitialised (Impl := URLVars_sub) buf (asked u) = (Ret (Some w), u1) -> w <= zlen buf ->
  parseData uninitialised (S fuel) buf t u =
  match m_parseStatus (sp u1) with
  | PARSE_GOTO_NEXT_SUBPARSER =>
      match changeToNextParser u1 with
      | (Ret true, u2) =>
          match uv_current u2 with
          | None => (Ret (Some w), uv_set_data (set_pStatus (ws_set_finish true (p_writeStatus (uv_data u2))) (uv_data u2)) u2)
          | Some _ => go_on fuel buf t w u2
          end
      | (Ret false, u2) => (Ret None, u2)
      | (Exc e, u2) => (Exc e, u2)
      end
  | PARSE_GET_MORE_DATA => go_on fuel buf t w u1
  | PARSE_ERROR => (Ret None, u1)
  end.
Proof.
  intros Ht Hmax Hc Hrun Hw.
  exact (parseData_round (Prot := URLVars_protocol) uninitialised fuel buf t u tt w u1 Hc Ht Hmax Hrun Hw).
Qed.

Lemma uv_asked_run u buf :
  buf <> [] -> m_parseMode (sp u) = PARSE_MODE_MULTIDELIMITER ->
  writeIntoParser uninitialised (Impl := URLVars_sub) buf (asked u) = parseByMultiDelimiter buf (asked u).
Proof.
  intros Hne Hm. rewrite writeIntoParser_data by done.
  change (m_parseMode (sp (asked u))) with (m_parseMode (sp u)). by rewrite Hm.
Qed.

Lemma uv_parseData_feeds m ttl fuel buf t u s s' :
  uv_ok m ttl u s -> buf <> [] -> feed m s buf = Some s' -> zlen buf <= SSIZE_MAX ->
  0 <= t -> t + ends buf <= ttl -> ttl < SIZE_MAX -> ends buf < Z.of_nat fuel ->
  exists u', parseData uninitialised fuel buf t u = (Ret (Some (zlen buf)), u') /\ uv_ok m ttl u' s'.
Proof.
  revert buf t u s. induction fuel as [|fuel IH]; intros buf t u [[ph pending] vars] Hok Hne Hfeed Hlen Ht0 Ht Hmax Hf.
  { pose proof (ends_nonneg buf). lia. }
  pose proof (uv_ok_asked _ _ _ _ Hok) as Hoka. assert (Hst : m_parseStatus (sp (asked u)) = PARSE_GET_MORE_DATA) by done.
  pose proof Hok as (_ & _ & Hmode & _ & _ & Hcur & Httl & _). pose proof (ends_nonneg buf).
  destruct (decide (ender ph ∈ buf)) as [Hin|Hnin].
  - destruct (split_at_char _ _ Hin) as (l & r & -> & Hl).
    destruct (feed_ended m ph pending vars l r s' Hfeed Hl) as (Hfr & Hfit & Hal).
    rewrite uv_ends_app, ends_cons_ender in Ht, Hf. pose proof (ends_nonneg l). pose proof (ends_nonneg r).
    assert (Hzl : zlen (l ++ ender ph :: r) = zlen l + 1 + zlen r) by (rewrite zlen_app, zlen_cons; lia).
    pose proof (zlen_nonneg r). pose proof (zlen_nonneg l).
    destruct (element_found m ttl (asked u) ph pending vars l r Hoka Hst Hl Hal Hfit) as (u1 & Hrun & Hout).
    rewrite <- (uv_asked_run u _ Hne Hmode) in Hrun.
    assert (Hround := one_round fuel _ t u _ _ ltac:(lia) ltac:(lia) Hcur Hrun ltac:(lia)).
    assert (Hnext : exists u2, parseData uninitialised (S fuel) (l ++ ender ph :: r) t u
        = go_on fuel (l ++ ender ph :: r) t (zlen l + 1) u2 /\ uv_ok m ttl u2 (element_end (ph, pending ++ l, vars))).
    { destruct Hout as [(He & Hs & Hok1)|(_ & Hs & u2 & Hch & Hok2)]; rewrite Hs in Hround.
      - exists u1. split; [exact Hround|]. rewrite He. exact Hok1.
      - rewrite Hch in Hround. exists u2. split; [|exact Hok2].
        destruct (element_end (ph, pending ++ l, vars)) as [[? ?] ?]. destruct Hok2 as (_ & _ & _ & _ & _ & Hc2 & _).
        rewrite Hc2 in Hround. exact Hround. }
    destruct Hnext as (u2 & -> & Hok2). unfold Parser.go_on. rewrite Hzl.
    assert (Hdrop : zdrop (zlen l + 1) (l ++ ender ph :: r) = r).
    { rewrite zdrop_app_ge by lia. replace (zlen l + 1 - zlen l) with (0 + 1) by lia.
      by rewrite zdrop_succ, zdrop_le0 by lia. }
    destruct (decide (r = [])) as [->|Hr].
    { change (zlen (@nil ascii)) with 0. rewrite Z.add_0_r, Z.eqb_refl. injection Hfr as <-. by exists u2. }
    pose proof (zlen_pos r Hr). replace (zlen l + 1 =? zlen l + 1 + zlen r) with false by lia. rewrite Hdrop.
    destruct (IH r (t + 1) u2 _ Hok2 Hr Hfr ltac:(lia) ltac:(lia) ltac:(lia) Hmax ltac:(lia)) as (u3 & -> & Hok3).
    exists u3. rewrite u64_small by (apply size_arith; lia). split; [|done]. do 3 f_equal. lia.
  - destruct (feed_inside m ph pending vars buf s' Hfeed Hnin) as (-> & Hab & [?|Hfit]); [done|].
    destruct (element_pending m ttl (asked u) ph pending vars buf Hoka Hst Hnin Hab Hfit Hne) as (u1 & Hrun & Hok1 & Hs).
    rewrite <- (uv_asked_run u _ Hne Hmode) in Hrun.
    rewrite (one_round fuel buf t u _ _ ltac:(lia) ltac:(lia) Hcur Hrun ltac:(lia)), Hs.
    unfold Parser.go_on. rewrite Z.eqb_refl. by exists u1.
Qed.

Lemma uv_write_feeds m ttl u s s' buf :
  uv_ok m ttl u s -> buf <> [] -> feed m s buf = Some s' -> zlen buf <= SSIZE_MAX -> ends buf <= ttl -> ttl < SIZE_MAX ->
  exists u', write uninitialised buf u = (Ret (Some (zlen buf)), u') /\ uv_ok m ttl u' s'.
Proof.
  intros Hok Hne Hf Hlen Ht Hmax. unfold write. assert (Httl : m_maxTTL (pd u) = ttl).
  { destruct s as [[? ?] ?]. by destruct Hok as (_ & _ & _ & _ & _ & _ & ? & _). }
  rewrite Httl. pose proof (ends_nonneg buf). apply (uv_parseData_feeds m ttl _ buf 0 u s); try done; lia.
Qed.

(** The writes of a text in fragments. *)
Definition writable (ttl : Z) (f : bytes) : Prop := f <> [] /\ (zlen f <= SSIZE_MAX) /\ (ends f <= ttl).

Lemma fragments_feed m ttl u s frags s' :
  uv_ok m ttl u s -> ttl < SIZE_MAX -> Forall (writable ttl) frags -> feed m s (concat frags) = Some s' ->
  exists u', write_all uninitialised frags u = (Ret true, u') /\ uv_ok m ttl u' s'.
Proof.
  intros Hok Hmax Hfr. revert u s Hok. induction Hfr as [|f frags (Hne & Hlen & Hends) _ IH]; intros u s Hok Hfeed.
  { injection Hfeed as <-. by exists u. }
  cbn [concat] in Hfeed. rewrite uv_feed_app in Hfeed. destruct (feed m s f) as [s1|] eqn:E; [|done].
  destruct (uv_write_feeds m ttl u s s1 f Hok Hne E Hlen Hends Hmax) as (u1 & Hw & Hok1).
  cbn [write_all]. unfold bind. rewrite Hw, Z.eqb_refl. by apply (IH u1 s1).
Qed.

(** ** The end of the stream *)

(** The element that waits is the last one; a name has an empty value. *)
Definition machine_end (s : machine) : list (bytes * bytes) :=
  let '(ph, pending, vars) := s in
  match pending with
  | [] => vars
  | _ :: _ =>
      match ph with
      | Name => vars_add (url_decode pending) [] vars
      | Value n => vars_add n (url_decode pending) vars
      end
  end.

Lemma changeToNextParser_last m ttl u ph text vars :
  parsed_as m ttl ph text vars u -> m_streamEnded (sp u) = true ->
  exists u', changeToNextParser u = (Ret true, u') /\ uv_current u' = Some tt /\
    Forall2 holding (match ph with Name => vars_add text [] vars | Value n => vars_add n text vars end) (m_vars u').
Proof.
  intros (Hok & Hv & Hmode & Hmd & Hcur & Httl & Hn & Hc & Hm & Hph & Hf & Hvars) He.
  unfold changeToNextParser. unfold bind at 1, gets at 1. destruct ph as [|n].
  - cbn [at_phase] in Hph. rewrite Hph. unfold bind at 1, on_parser at 1, flushRetrievedContentAsString.
    rewrite (filled_toString _ _ Hf). unfold bind at 1, modify at 1, bind at 1, gets at 1.
    change (vc_base (m_urlVarParser _)) with (sp u). rewrite He, orb_true_r.
    unfold bind at 1, on_parser at 1, flushRetrievedContentAsBC. cbn [default from_option id].
    unfold bind at 1.
    match goal with |- context [addVar text ?c ?w] => destruct (addVar_holding text [] c w vars Hvars filled_new) as (r & Ha & Hv') end.
    rewrite Ha. eexists. split; [done|]. split; [exact Hcur|exact Hv'].
  - destruct Hph as [Hph Hname]. rewrite Hph. unfold bind at 1, gets at 1. rewrite Hname.
    unfold bind at 1, on_parser at 1, flushRetrievedContentAsBC.
    destruct (addVar_holding n text (m_pData (m_urlVarParser u))
      (uv_set_parser (mkVarContent (vc_base (m_urlVarParser u)) B_Chunks_new) u) vars Hvars Hf) as (r & Ha & Hv').
    unfold bind at 1. rewrite Ha. unfold bind, modify, ret. eexists. split; [done|]. split; [exact Hcur|exact Hv'].
Qed.

Lemma end_of_stream m ttl u s :
  uv_ok m ttl u s -> 0 <= ttl < SIZE_MAX ->
  exists u', write uninitialised [] u = (Ret (Some 0), u') /\ Forall2 holding (machine_end s) (m_vars u').
Proof.
  destruct s as [[ph pending] vars]. intros (Hok & Hv & Hmode & Hmd & He & Hrest) Hmax.
  destruct Hrest as (Hcur & Httl & Hn & Hc & Hm & Hph & Hpd & Hvars & Hep & Hap).
  set (u0 := sp_set (set_streamEnded true (sp (asked u))) (asked u)).
  assert (Hno : Forall (fun e => e ∉ buf_view u0) (delims ph)).
  { change (buf_view u0) with (buf_view u). rewrite Hv. by destruct ph; repeat constructor. }
  assert (Hok0 : buffer_ok m (m_unparsedBuffer (sp u0))) by exact Hok.
  assert (Hmd0 : m_parseMultiDelimiter (sp u0) = map (fun e => [e]) (delims ph)) by exact Hmd.
  assert (He0 : m_streamEnded (sp u0) = true) by done.
  destruct (multi_end m u0 (delims ph) Hok0 Hmd0 He0 Hno) as (c & t1 & Hokc & Hvc & (Et & Hr & _ & Hb) & Hw).
  change (buf_view u0) with (buf_view u) in *. rewrite Hv in Hb, Hvc.
  assert (Hbase : sp t1 = sp_reference 0 SIZE_MAX (sp (searched [] c u0))).
  { rewrite Et. unfold delivered. by rewrite sp_sp_set. }
  rewrite sp_searched in Hbase. destruct (buffer_cleared m c Hokc) as [Hokcl Hvcl].
  assert (Hp1 : m_pData (m_urlVarParser t1) = B_Chunks_new) by (rewrite Et; exact Hpd).
  pose proof Hok as (_ & _ & _ & _ & _ & Hl). fold (buf_view u) in Hl. rewrite Hv in Hl.
  pose proof (VarContent_parse_run (m_urlVarParser t1) pending Hp1 Hr Hb ltac:(lia)) as Hparse.
  assert (Hin : writeIntoParser uninitialised (Impl := URLVars_sub) [] (asked u) = parseByMultiDelimiter [] u0).
  { unfold writeIntoParser. change (zlen [] =? 0) with true. cbn iota. unfold bind at 1, upd at 1, modify at 1. fold u0.
    unfold bind at 1, gets at 1. change (m_parseMode (sp u0)) with (m_parseMode (sp u)). by rewrite Hmode. }
  rewrite Hw in Hin. clear Hw. change (parse t1) with (on_parser VarContent_parse t1) in Hin. unfold on_parser in Hin.
  assert (Ht1 : 0 <= 0 <= m_maxTTL (uv_data u)) by lia.
  assert (Ht2 : m_maxTTL (uv_data u) < SIZE_MAX) by lia.
  unfold write. change (pd u) with (uv_data u) at 1. rewrite Httl.
  replace (Z.to_nat ttl + 2)%nat with (S (S (Z.to_nat ttl))) by lia.
  destruct pending as [|x pending]; cbn [machine_end].
  - rewrite Hparse in Hin. replace (uv_set_parser (m_urlVarParser t1) t1) with t1 in Hin by (by destruct t1).
    rewrite (one_round _ [] 0 u 0 _ Ht1 Ht2 Hcur Hin) by done. rewrite sp_after_parse. unfold Parser.go_on.
    change (0 =? zlen []) with true. cbn iota. eexists. split; [done|]. rewrite Et. exact Hvars.
  - destruct Hparse as (d & Hd & Hparse). rewrite Hparse in Hin. set (t2 := uv_set_parser _ t1) in *.
    assert (Hsp2 : sp t2 = sp t1) by done.
    rewrite (one_round _ [] 0 u 0 _ Ht1 Ht2 Hcur Hin) by done. rewrite sp_after_parse.
    change (m_parseStatus _) with PARSE_GOTO_NEXT_SUBPARSER. cbn iota.
    destruct (changeToNextParser_last m ttl (after_parse PARSE_GOTO_NEXT_SUBPARSER t2) ph (url_decode (x :: pending)) vars)
      as (u2 & Hch & Hcur2 & Hv2); [|by rewrite sp_after_parse, Hsp2, Hbase|].
    + unfold parsed_as, buf_view. rewrite !sp_after_parse, Hsp2, Hbase. split; [exact Hokcl|]. split; [exact Hvcl|].
      do 2 (split; [assumption|]). unfold t2. rewrite Et. repeat (split; [assumption|]). exact Hvars.
    + rewrite Hch, Hcur2. unfold Parser.go_on.
      change (0 =? zlen []) with true. cbn iota. eexists. split; [done|]. by destruct ph.
Qed.
End Spec.

(** * Properties of the URL variables

    What the parser makes of a text, what streaming the variables writes, the
    round trip between them, the order of the multimap, and the two calls that
    never return. *)

Section Props.
Context {M : Type} `{BBase M, MmapFactory M} (uninitialised : Z -> bytes) `{BoostText}.
Implicit Types u : URLVars (M := M).

(** What a program reads: the names and the text of their values. *)
Definition uv_contents (u : URLVars (M := M)) : list (bytes * bytes) :=
  map (fun kc => (fst kc, toStringEx (snd kc))) (m_vars u).

Lemma holding_contents vars u : Forall2 holding vars (m_vars u) -> uv_contents u = vars.
Proof.
  unfold uv_contents. induction 1 as [|[k v] [k' c] vars cs [Hk Hf] _ IH]; [done|]. cbn [map fst snd] in *. subst k'.
  rewrite IH. unfold toStringEx. by rewrite (filled_toString _ _ Hf).
Qed.

(** C24: the variables of a text that is given to the parser in any fragments (none
    empty, each with no more signs = and & together than the round limit) and
    then ended are those of the machine that takes one character at a time, when
    that machine reads the text: its names have no & (as a&b=1 has, where the
    result depends on the fragments), and each name and value fits, before it is
    decoded and with its end, the limit of the elements, the same for both and at
    most 87381 bytes (a third of the pieces of the buffer). The machine reads
    names up to the next =, values up to the next &, both decoded, names in
    upper case, equal names kept in order; empty elements are skipped, and a
    last name without = has an empty value. *)
Theorem urlvars_of_fragments m ttl u s frags s' :
  uv_ok m ttl u s -> 0 <= ttl < SIZE_MAX -> Forall (writable ttl) frags -> feed m s (concat frags) = Some s' ->
  exists u' u'', write_all uninitialised frags u = (Ret true, u') /\
    write uninitialised [] u' = (Ret (Some 0), u'') /\ uv_contents u'' = machine_end s'.
Proof.
  intros Hok Ht Hfr Hfeed. destruct (fragments_feed uninitialised m ttl u s frags s' Hok ltac:(lia) Hfr Hfeed) as (u' & Hw & Hok').
  destruct (end_of_stream uninitialised m ttl u' s' Hok' Ht) as (u'' & He & Hv).
  exists u', u''. split; [done|]. split; [done|]. by apply holding_contents.
Qed.

(** ** Streaming *)

Definition print_var (kv : bytes * bytes) : bytes :=
  url_encode (fst kv) ++ match snd kv with [] => [] | _ :: _ => [EQUAL] ++ url_encode (snd kv) end.
Definition print_vars (vars : list (bytes * bytes)) : bytes := join [AMP] (map print_var vars).

Section Stream.
Context {S : Type} `{FullSink S}.
Implicit Types s : S.

Lemma encode_into_run v c s :
  filled v c -> sink_ok s -> 3 * zlen v <= SSIZE_MAX -> 3 * zlen v <= sink_room s ->
  exists s', encode_into c s = (Ret tt, s') /\ sink_ok s' /\ sink_view s' = sink_view s ++ url_encode v /\
    sink_room s - 3 * zlen v <= sink_room s'.
Proof.
  intros (Hwf & Hx & Hv) Hok Hm Hr. assert (Hb : b_view c = v) by exact Hv.
  destruct (transform_run_room c URLEncoder_new [] s) as (x' & s' & Ht & Hok' & _ & Hs' & Hr');
    rewrite ?Hb in *; [exact Hwf|done|done|done|change (zlen (@nil ascii)) with 0; lia|].
  exists s'. unfold encode_into. rewrite Ht. cbn [run URLEncoder_spec fst] in *. pose proof (url_encode_length v).
  split; [done|]. split; [done|]. split; [done|lia].
Qed.

Lemma name_container name :
  name <> [] -> zlen name <= 262144 -> filled name (snd (append name (B_Chunks_new (M := M)))).
Proof.
  intros Hne Hl. destruct (new_container_ready (M := M)) as [[Ho _] Hr].
  assert (Hroom : zlen name <= ck_room (B_Chunks_new (M := M))) by (change (ck_room _) with 262144; lia).
  destruct (append_room (B_Chunks_new (M := M)) name Ho Hne Hroom) as (v & Ha & (Hwf & _) & Hv & Hx & _).
  rewrite Ha. cbn [snd]. split; [done|]. split; [apply Hx; done|exact Hv].
Qed.

(** Names that the container of [streamTo] holds whole. *)
Definition streamable (kv : bytes * bytes) : Prop := fst kv <> [] /\ (zlen (fst kv) <= 262144).
(** Enough room for a variable with its separators. *)
Definition var_room (kv : bytes * bytes) : Z := 3 * zlen (fst kv) + 3 * zlen (snd kv) + 2.
Fixpoint vars_room (vars : list (bytes * bytes)) : Z :=
  match vars with [] => 0 | kv :: vars => var_room kv + vars_room vars end.

Lemma vars_room_nonneg vars : 0 <= vars_room vars.
Proof.
  induction vars as [|[k v] vars IH]; [done|]. cbn [vars_room]. unfold var_room. cbn [fst snd].
  pose proof (zlen_nonneg k). pose proof (zlen_nonneg v). lia.
Qed.

Lemma while_run s (k : st S bool) : sink_ok s -> while_succeeds k s = k s.
Proof. intros Hok. unfold while_succeeds, bind, gets. by rewrite (sink_ok_succeed s Hok). Qed.

Lemma one_byte ch s :
  sink_ok s -> 1 <= sink_room s ->
  exists s', writeString [ch] s = (Ret true, s') /\ sink_ok s' /\ sink_view s' = sink_view s ++ [ch] /\
    sink_room s - 1 <= sink_room s'.
Proof. intros Hok Hr. by apply (writeFullStream_full s [ch]). Qed.

Lemma variable_run k v c (rest : st S bool) s :
  filled v c -> streamable (k, v) -> sink_ok s -> 3 * zlen k + 3 * zlen v + 1 <= sink_room s ->
  3 * zlen k + 3 * zlen v + 1 <= SSIZE_MAX ->
  exists s', (do! encode_into (snd (append k (B_Chunks_new (M := M)))) in
      while_succeeds (
        if negb (BChunks.size c =? 0) then
          do! writeString (str "=") in while_succeeds (do! encode_into c in while_succeeds rest)
        else rest)) s = rest s' /\ sink_ok s' /\ sink_view s' = sink_view s ++ print_var (k, v) /\
    sink_room s - (3 * zlen k + 3 * zlen v + 1) <= sink_room s'.
Proof.
  intros Hf [Hne Hl] Hok Hr Hm. cbn [fst] in Hne, Hl. pose proof (zlen_nonneg k). pose proof (zlen_nonneg v).
  destruct (encode_into_run k _ s (name_container k Hne Hl) Hok ltac:(lia) ltac:(lia)) as (s1 & Hw1 & Hok1 & Hv1 & Hr1).
  unfold bind at 1. rewrite Hw1, while_run by done. unfold print_var. cbn [fst snd].
  assert (Hsz : BChunks.size c = zlen v) by (destruct Hf as (Hwf & _ & <-); by apply size_ck). rewrite Hsz.
  destruct v as [|x v].
  { exists s1. rewrite app_nil_r. split; [done|]. split; [done|]. split; [done|lia]. }
  rewrite zlen_cons in *. pose proof (zlen_nonneg v). replace (1 + zlen v =? 0) with false by lia. cbn [negb].
  destruct (one_byte EQUAL s1 Hok1 ltac:(lia)) as (s2 & Hw2 & Hok2 & Hv2 & Hr2).
  unfold bind at 1. change (str "=") with [EQUAL]. rewrite Hw2, while_run by done.
  destruct (encode_into_run (x :: v) c s2 Hf Hok2) as (s3 & Hw3 & Hok3 & Hv3 & Hr3); [rewrite zlen_cons; lia..|].
  unfold bind at 1. rewrite Hw3, while_run by done. rewrite zlen_cons in Hr3. exists s3.
  split; [done|]. split; [done|]. split; [by rewrite Hv3, Hv2, Hv1, <- !app_assoc|lia].
Qed.

Lemma streamTo_loop_run first vars cs s :
  Forall2 holding vars cs -> Forall streamable vars -> sink_ok s -> vars_room vars <= sink_room s -> vars_room vars <= SSIZE_MAX ->
  exists s', streamTo_loop first cs s = (Ret true, s') /\ sink_ok s' /\
    sink_view s' = sink_view s ++ (if first then print_vars vars else flat_map (fun kv => [AMP] ++ print_var kv) vars).
Proof.
  intros Hv Hs. revert first s Hs. induction Hv as [|[k v] [k' c] vars cs [Hk Hf] Hv IH]; intros first s Hs Hok Hr Hm.
  { exists s. destruct first; by rewrite app_nil_r. }
  cbn [fst snd] in Hk, Hf. subst k'. inversion Hs as [|? ? Hstr Hs']; subst.
  cbn [vars_room] in Hr, Hm. unfold var_room in Hr, Hm. cbn [fst snd] in Hr, Hm. pose proof (vars_room_nonneg vars).
  pose proof (zlen_nonneg k). pose proof (zlen_nonneg v).
  assert (Hflat : forall w : bytes, w ++ flat_map (fun kv => [AMP] ++ print_var kv) vars
    = match vars with [] => w | _ :: _ => w ++ [AMP] ++ print_vars vars end).
  { destruct vars as [|kv vs]; [intros; apply app_nil_r|]. intros w. f_equal. clear.
    unfold print_vars. revert kv. induction vs as [|kv' vs IH]; intros kv; [apply app_nil_r|].
    cbn [flat_map] in *. rewrite IH. cbn [map join]. by rewrite <- !app_assoc. }
  assert (Hbody : forall s1, sink_ok s1 -> sink_room s - 1 <= sink_room s1 -> exists s',
    (do! encode_into (snd (append k (B_Chunks_new (M := M)))) in
      while_succeeds (
        if negb (BChunks.size c =? 0) then
          do! writeString (str "=") in while_succeeds (do! encode_into c in while_succeeds (streamTo_loop false cs))
        else streamTo_loop false cs)) s1 = (Ret true, s') /\ sink_ok s' /\
    sink_view s' = sink_view s1 ++ print_var (k, v) ++ flat_map (fun kv => [AMP] ++ print_var kv) vars).
  { intros s1 Hok1 Hr1.
    destruct (variable_run k v c (streamTo_loop false cs) s1 Hf Hstr Hok1 ltac:(lia) ltac:(lia)) as (s2 & Hw2 & Hok2 & Hv2 & Hr2).
    destruct (IH false s2 Hs' Hok2 ltac:(lia) ltac:(lia)) as (s3 & Hw3 & Hok3 & Hv3).
    exists s3. rewrite Hw2, Hw3. split; [done|]. split; [done|]. by rewrite Hv3, Hv2, <- app_assoc. }
  cbn [streamTo_loop]. destruct first.
  - destruct (Hbody s Hok ltac:(lia)) as (s' & Hrun & Hok' & Hv'). exists s'. split; [exact Hrun|]. split; [done|].
    rewrite Hv', Hflat. unfold print_vars. by destruct vars.
  - destruct (one_byte AMP s Hok ltac:(lia)) as (s1 & Hw1 & Hok1 & Hv1 & Hr1).
    destruct (Hbody s1 Hok1 Hr1) as (s' & Hrun & Hok' & Hv'). exists s'. unfold bind at 1. change (str "&") with [AMP].
    rewrite Hw1, while_run by done. split; [exact Hrun|]. split; [done|]. rewrite Hv', Hv1. cbn [flat_map].
    by rewrite <- !app_assoc.
Qed.

(** Streaming the variables writes name=value pairs separated by &, both
    URL-encoded, into any destination with room for them; a variable with an
    empty value is its name alone. *)
Theorem urlvars_stream_text vars u s :
  Forall2 holding vars (m_vars u) -> Forall streamable vars -> sink_ok s ->
  vars_room vars <= sink_room s -> vars_room vars <= SSIZE_MAX ->
  exists s', uv_streamTo u s = (Ret true, s') /\ sink_view s' = sink_view s ++ print_vars vars.
Proof.
  intros Hv Hs Hok Hr Hm. destruct (streamTo_loop_run true vars (m_vars u) s Hv Hs Hok Hr Hm) as (s' & Hrun & _ & Hv').
  by exists s'.
Qed.
End Stream.

(** ** Two loops without increment *)

(** [varCount] and [getValues] return when the variable does not exist,
    with 0 and no value; when it does they never return: whatever number of
    turns of their loop is allowed, all are used. *)
Theorem varCount_never_returns fuel varName u :
  (0 < fuel)%nat ->
  varCount fuel varName u = (if exist varName u then Exc out_of_fuel else Ret 0) /\
  getValues fuel varName u = (if exist varName u then Exc out_of_fuel else Ret []).
Proof.
  unfold varCount, getValues, exist, getValue. intros Hf.
  destruct (equal_range _ _) as [|[k v] range]; [destruct fuel; [lia|done]|]. clear Hf. split.
  - generalize 0. induction fuel as [|fuel IH]; intros i; [done|]. apply IH.
  - generalize (@nil (B_Chunks M)). induction fuel as [|fuel IH]; intros i; [done|]. apply IH.
Qed.

(** ** The multimap *)

(** The keys are in order, and none is empty or has a lower case letter. *)
Definition ordered {A} (l : list (bytes * A)) : Prop :=
  StronglySorted key_le l /\ Forall (fun kv => fst kv <> [] /\ map toupper (fst kv) = fst kv) l.

Context `{!BoostLaws}.

Lemma toupper_idemp c : toupper (toupper c) = toupper c.
Proof.
  assert (Hall : forallb (fun c => bool_decide (toupper (toupper c) = toupper c)) all_chars = true)
    by (vm_compute; reflexivity).
  by pose proof (forall_chars _ Hall c) as Hc%bool_decide_eq_true.
Qed.

Lemma insert_ordered {A} name (v : A) l :
  ordered l -> name <> [] -> ordered (multimap_insert (to_upper_copy name, v) l).
Proof.
  intros [Hs Hf] Hne. split; [by apply insert_sorted|]. apply Forall_forall. intros x [->|Hx]%insert_in.
  - cbn [fst]. rewrite to_upper_chars. split; [by destruct name|]. rewrite map_map. apply map_ext, toupper_idemp.
  - rewrite Forall_forall in Hf. by apply Hf.
Qed.

Definition ordered_vars (u : URLVars (M := M)) : Prop := ordered (m_vars u).

Lemma addVar_ordered name c : preserves ordered_vars (addVar name c).
Proof. intros u Hu. destruct name as [|n name]; [done|]. by apply insert_ordered. Qed.

Lemma on_parser_ordered {A} (f : st URLVarContent A) : preserves ordered_vars (on_parser f).
Proof. intros u Hu. unfold on_parser. by destruct (f _). Qed.

Lemma changeToNextParser_ordered : preserves ordered_vars changeToNextParser.
Proof.
  assert (Ha := addVar_ordered). assert (Hp := @on_parser_ordered).
  assert (Hm : forall f : URLVars -> URLVars, (forall u, m_vars (f u) = m_vars u) -> preserves ordered_vars (modify f)).
  { intros f Hf u Hu. unfold ordered_vars. simpl. by rewrite Hf. }
  unfold changeToNextParser. preserve; first [apply Hp | apply Ha | by apply Hm].
Qed.

(** Whatever is written into the parser, of any size and in any state, and
    whether the write succeeds or not, the variables stay in the order of
    their names, and no name is empty or has a lower case letter. *)
Theorem urlvars_stay_ordered frags u :
  ordered (m_vars u) -> ordered (m_vars (snd (write_all uninitialised frags u))).
Proof.
  apply (preserves_write_all (Prot := URLVars_protocol) uninitialised ordered_vars); [done| |done|].
  - intros []. apply on_parser_ordered.
  - apply changeToNextParser_ordered.
Qed.

(** ** Round trip *)

(** The characters of encoded text end nothing. *)
Lemma encoded_plain l e : is_end e -> e ∉ url_encode l.
Proof.
  intros He Hin. unfold url_encode in Hin. apply list_elem_of_In, in_flat_map in Hin as (c & _ & Hin).
  assert (Hall : forallb (fun c => forallb (fun x => bool_decide (x <> EQUAL) && bool_decide (x <> AMP))
    (if shouldEncodeThisByte c then PERCENT :: sprintf_02X c else [c])) all_chars = true) by (vm_compute; reflexivity).
  pose proof (forall_chars _ Hall c) as Hc. cbv beta in Hc. rewrite forallb_forall in Hc.
  apply Hc, andb_true_iff in Hin as [H3%bool_decide_eq_true H4%bool_decide_eq_true]. by destruct He as [He|He]; [destruct (H3 He)|destruct (H4 He)].
Qed.

Lemma feed_plain m ph pending vars l :
  (forall e, is_end e -> e ∉ l) -> zlen pending + zlen l <= m ->
  feed m (ph, pending, vars) l = Some (ph, pending ++ l, vars).
Proof.
  revert pending. induction l as [|c l IH]; intros pending He Hl; [by rewrite app_nil_r|].
  rewrite zlen_cons in Hl. pose proof (zlen_nonneg l). cbn [feed take_char].
  assert (Hc : forall e, is_end e -> c <> e) by (intros e E ->; by apply (He e E), elem_of_cons; left).
  replace (m <? zlen pending + 1) with false by lia.
  rewrite decide_False by (destruct ph; apply Hc; [by left|by right]). rewrite decide_False by (apply Hc; by right).
  change (c :: l) with ([c] ++ l). rewrite app_assoc. apply IH.
  - intros e E Hin. apply (He e E). apply elem_of_cons. by right.
  - rewrite zlen_app. change (zlen [c]) with 1. lia.
Qed.

Lemma feed_element m ph vars l :
  (forall e, is_end e -> e ∉ l) -> l <> [] -> zlen l + 1 <= m ->
  feed m (ph, [], vars) (l ++ [ender ph]) = Some (element_end (ph, l, vars)).
Proof.
  intros He Hne Hl. rewrite uv_feed_app, feed_plain; [|done|change (zlen (@nil ascii)) with 0; lia].
  cbn [app feed take_char]. replace (m <? zlen l + 1) with false by lia. by rewrite decide_True.
Qed.

(** Variables whose names and values, encoded, fit the limit. *)
Definition var_fits (m : Z) (kv : bytes * bytes) : Prop :=
  fst kv <> [] /\ map toupper (fst kv) = fst kv /\ snd kv <> [] /\
  zlen (url_encode (fst kv)) + 1 <= m /\ zlen (url_encode (snd kv)) + 1 <= m.

Lemma encode_nonempty l : l <> [] -> url_encode l <> [].
Proof. destruct l as [|c l]; [done|]. intros _. unfold url_encode. cbn [flat_map]. by destruct (shouldEncodeThisByte c). Qed.

Lemma decode_encode l : url_decode (url_encode l) = l.
Proof. unfold url_decode. by rewrite dec_run_encoded. Qed.

Lemma feed_print m kv vars :
  var_fits m kv ->
  feed m (Name, [], vars) (print_var kv) = Some (Value (fst kv), url_encode (snd kv), vars) /\
  feed m (Name, [], vars) (print_var kv ++ [AMP]) = Some (Name, [], multimap_insert kv vars).
Proof.
  destruct kv as [k v]. intros (Hk & Hu & Hv & H3 & H4). cbn [fst snd] in *.
  assert (Hp : print_var (k, v) = (url_encode k ++ [EQUAL]) ++ url_encode v).
  { unfold print_var. cbn [fst snd]. destruct v; [done|]. by rewrite <- app_assoc. }
  pose proof (encode_nonempty k Hk) as Hke. pose proof (encode_nonempty v Hv) as Hve.
  assert (Hname : feed m (Name, [], vars) (url_encode k ++ [EQUAL]) = Some (Value k, [], vars)).
  { rewrite (feed_element m Name vars) by (done || intros; by apply encoded_plain). unfold element_end.
    destruct (url_encode k) eqn:E; [done|]. by rewrite <- E, decode_encode. }
  rewrite Hp. split.
  - rewrite uv_feed_app, Hname. apply feed_plain; [intros; by apply encoded_plain|change (zlen (@nil ascii)) with 0; lia].
  - rewrite <- app_assoc, uv_feed_app, Hname, (feed_element m (Value k)) by (done || intros; by apply encoded_plain).
    unfold element_end. destruct (url_encode v) eqn:E; [done|]. rewrite <- E, decode_encode. unfold vars_add.
    destruct k; [done|]. by rewrite to_upper_chars, Hu.
Qed.

(** The machine gives the variables of a printed text back. *)
Lemma feed_print_vars m vars acc :
  Forall (var_fits m) vars -> vars <> [] -> exists s,
    feed m (Name, [], acc) (print_vars vars) = Some s /\
    machine_end s = foldl (fun acc kv => multimap_insert kv acc) acc vars.
Proof.
  unfold print_vars. intros Hf Hne. revert acc. induction Hf as [|kv vars Hkv Hf IH]; intros acc; [done|].
  destruct (feed_print m kv acc Hkv) as [H3 H4]. destruct vars as [|kv' vars].
  - eexists. split; [exact H3|]. cbn [machine_end foldl]. destruct Hkv as (Hk & Hu & Hv & _).
    destruct (url_encode (snd kv)) eqn:E; [by apply encode_nonempty in E|]. rewrite <- E, decode_encode.
    unfold vars_add. destruct kv as [k v]. cbn [fst snd] in *. destruct k; [done|]. by rewrite to_upper_chars, Hu.
  - cbn [map join]. rewrite app_assoc, uv_feed_app, H4. by apply IH.
Qed.

Lemma foldl_insert (acc vars : list (bytes * bytes)) :
  StronglySorted key_le (acc ++ vars) -> foldl (fun acc kv => multimap_insert kv acc) acc vars = acc ++ vars.
Proof.
  revert acc. induction vars as [|kv vars IH]; intros acc Hs; [by rewrite app_nil_r|]. cbn [foldl].
  rewrite insert_last.
  - rewrite IH; [by rewrite <- app_assoc|by rewrite <- app_assoc].
  - apply StronglySorted_app in Hs as (Hs & _). apply Forall_forall. intros x Hx. apply (Hs x kv Hx). apply elem_of_cons. by left.
Qed.

Lemma encode_longer l : zlen l <= zlen (url_encode l).
Proof.
  induction l as [|c l IH]; [done|]. unfold url_encode in *. cbn [flat_map]. rewrite zlen_app, zlen_cons.
  assert (1 <= zlen (if shouldEncodeThisByte c then PERCENT :: sprintf_02X c else [c])) by (case_cond; [change (1 <= 3)|change (1 <= 1)]; lia).
  lia.
Qed.

(** C25: variables as an object keeps them (the names in upper case and in their
    order), with names and values that are not empty and whose encoded forms fit
    the limit of the elements, which is at most 87381 bytes, are recovered:
    streaming them succeeds, and a new object with that limit to which the text
    is written, in any fragments that are not empty and have each no more signs =
    and & together than its round limit, and ended, has the same names with the
    same values in the same order. *)
Theorem urlvars_roundtrip m ttl vars u u0 :
  Forall2 holding vars (m_vars u) -> ordered (m_vars u) -> Forall (var_fits m) vars -> vars_room vars <= SSIZE_MAX ->
  uv_ok m ttl u0 (Name, [], []) -> 0 <= ttl < SIZE_MAX ->
  exists s, uv_streamTo u StreamableString_new = (Ret true, s) /\
    forall frags, concat frags = m_value s -> Forall (writable ttl) frags ->
    exists u' u'', write_all uninitialised frags u0 = (Ret true, u') /\
      write uninitialised [] u' = (Ret (Some 0), u'') /\ uv_contents u'' = uv_contents u.
Proof.
  intros Hv [Hord _] Hfit Hroom Hok Httl. assert (Hm : m <= 87381) by apply Hok.
  assert (Hstr : Forall streamable vars).
  { eapply Forall_impl; [exact Hfit|]. intros kv (Hk & _ & _ & Hl & _). pose proof (encode_longer (fst kv)). split; [done|lia]. }
  destruct (streamTo_loop_run true vars (m_vars u) StreamableString_new Hv Hstr) as (s & Hs & _ & Hview);
    [|change (sink_room _) with (SIZE_MAX - 0); unfold SSIZE_MAX, SIZE_MAX in *; lia|done|].
  { split; [done|]. split; [done|]. split; vm_compute; discriminate. }
  exists s. split; [exact Hs|]. intros frags Hcat Hfr.
  change (m_value s = print_vars vars) in Hview. rewrite Hview in Hcat.
  assert (Hsorted : StronglySorted key_le vars).
  { clear - Hv Hord. induction Hv as [|[k v] [k' c] vars cs [Hk _] Hv IH]; [constructor|].
    inversion Hord as [|? ? Hcs Hall]; subst. constructor; [by apply IH|]. cbn [fst] in Hk. subst k'.
    clear - Hv Hall. induction Hv as [|[k1 v1] [k2 c2] vars cs [Hk _] Hv IH]; [constructor|].
    inversion Hall; subst. cbn [fst] in Hk. subst k2. constructor; [done|by apply IH]. }
  assert (Hfeed : exists s', feed m (Name, [], []) (print_vars vars) = Some s' /\ machine_end s' = vars).
  { destruct vars as [|kv vars]; [by eexists|].
    destruct (feed_print_vars m (kv :: vars) [] Hfit ltac:(done)) as (s' & Hf & He). exists s'. split; [done|].
    rewrite He. by rewrite foldl_insert. }
  destruct Hfeed as (s' & Hfeed & Hend). rewrite <- Hcat in Hfeed.
  destruct (fragments_feed uninitialised m ttl u0 _ frags s' Hok ltac:(lia) Hfr Hfeed) as (u' & Hw & Hok').
  destruct (end_of_stream uninitialised m ttl u' s' Hok' Httl) as (u'' & He & Hv'). exists u', u''.
  split; [done|]. split; [done|]. rewrite (holding_contents _ _ Hv'), Hend. symmetry. by apply holding_contents.
Qed.
End Props.

(** ** Witnesses *)

#[export] Instance no_url_files : MmapFactory B_MEM := { new_mmap _ := None }.

Definition no_urlvars : URLVars (M := B_MEM) := URLVars_new.

Lemma no_urlvars_ok : uv_ok 4096 4096 no_urlvars (Name, [], []).
Proof.
  split; [apply buffer_check_ok; vm_compute; reflexivity|].
  do 8 (split; [vm_compute; reflexivity|]). split; [vm_compute; discriminate|].
  split; [reflexivity|]. split; [reflexivity|]. split; [constructor|]. split; apply not_elem_of_nil.
Qed.

Definition query : list bytes := [str "b=x%20"; str "y&a=1"; str "&=b=2&last"].

Definition query_vars : list (bytes * bytes) := [(str "A", str "1"); (str "B", str "x y"); (str "B", str "2"); (str "LAST", [])].

Lemma query_feeds :
  match feed 4096 (Name, [], []) (concat query) with Some s => machine_end s = query_vars | None => False end.
Proof. vm_compute. reflexivity. Qed.

Lemma urlvars_of_fragments_witness :
  exists u' u'', write_all (fun _ => []) query no_urlvars = (Ret true, u') /\ write (fun _ => []) [] u' = (Ret (Some 0), u'') /\
    uv_contents u'' = query_vars.
Proof.
  pose proof query_feeds as Hq. destruct (feed 4096 (Name, [], []) (concat query)) as [s'|] eqn:Hf; [|destruct Hq].
  rewrite <- Hq. apply (urlvars_of_fragments (fun _ => []) 4096 4096 no_urlvars (Name, [], []) query s').
  - exact no_urlvars_ok.
  - split; vm_compute; [discriminate|reflexivity].
  - repeat constructor; try discriminate; vm_compute; discriminate.
  - exact Hf.
Defined.

Definition two_vars : URLVars (M := B_MEM) :=
  snd (write (Prot := URLVars_protocol) (fun _ => []) (str "b=x+y&a=%3D&") no_urlvars).

Definition two_values : list (bytes * bytes) := [(str "A", str "="); (str "B", str "x y")].

Definition filled_check (c : B_Chunks B_MEM) : bool :=
  negb (isUsingFiles c) && forallb chunk_ok (m_chunksVector c) && chained_ok 0 (m_chunksVector c) &&
  (m_containerBytes (ck_base c) =? zlen (ck_view c)) && (zlen (ck_view c) <=? SSIZE_MAX).

Lemma filled_checked c : filled_check c = true -> filled (ck_view c) c.
Proof.
  unfold filled_check, isUsingFiles. intros Hc. rewrite !andb_true_iff in Hc. destruct Hc as ((((Hn & Hf) & Hx) & ?) & ?). zbool.
  destruct (m_mmapContainer c) eqn:En; [done|]. apply chunks_ok in Hf. apply chained_ok_spec in Hx.
  split; [|by split]. split; [done|]. split; [done|]. split; [done|lia].
Qed.

Lemma holding_checked vars cs :
  forallb (fun kc => filled_check (snd kc)) cs = true -> map (fun kc => (fst kc, ck_view (snd kc))) cs = vars ->
  Forall2 holding vars cs.
Proof.
  intros Hc <-. induction cs as [|[k c] cs IH]; [constructor|]. cbn [forallb snd map fst] in *.
  apply andb_true_iff in Hc as [Hc Hcs]. constructor; [|by apply IH]. split; [done|by apply filled_checked].
Qed.

Lemma two_vars_hold : Forall2 holding two_values (m_vars two_vars).
Proof. apply holding_checked; vm_compute; reflexivity. Qed.

Lemma two_vars_ordered : ordered (m_vars two_vars).
Proof.
  assert (E : map fst (m_vars two_vars) = [str "A"; str "B"]) by (vm_compute; reflexivity).
  destruct (m_vars two_vars) as [|[k1 c1] [|[k2 c2] [|? ?]]]; try discriminate E. injection E as -> ->.
  split; repeat constructor; discriminate.
Qed.

Lemma urlvars_stream_text_witness :
  exists s', uv_streamTo two_vars StreamableString_new = (Ret true, s') /\ m_value s' = str "A=%3D&B=x%20y".
Proof.
  destruct (urlvars_stream_text two_values two_vars StreamableString_new two_vars_hold) as (s' & Hs & Hv).
  - repeat constructor; vm_compute; discriminate.
  - split; [reflexivity|]. split; [reflexivity|]. split; vm_compute; discriminate.
  - vm_compute. discriminate.
  - vm_compute. discriminate.
  - exists s'. split; [exact Hs|exact Hv].
Defined.

Lemma urlvars_roundtrip_witness :
  exists s u' u'', uv_streamTo two_vars StreamableString_new = (Ret true, s) /\
    write_all (fun _ => []) [str "A=%3"; str "D&B=x%20y"] no_urlvars = (Ret true, u') /\
    write (fun _ => []) [] u' = (Ret (Some 0), u'') /\ uv_contents u'' = two_values.
Proof.
  assert (Ht : m_value (snd (uv_streamTo two_vars StreamableString_new)) = str "A=%3D&B=x%20y") by (vm_compute; reflexivity).
  assert (Hc : uv_contents two_vars = two_values) by (vm_compute; reflexivity).
  destruct (urlvars_roundtrip (fun _ => []) 4096 4096 two_values two_vars no_urlvars two_vars_hold) as (s & Hs & Hrt).
  - exact two_vars_ordered.
  - repeat constructor; try discriminate; vm_compute; discriminate.
  - vm_compute. discriminate.
  - exact no_urlvars_ok.
  - split; vm_compute; [discriminate|reflexivity].
  - rewrite Hs in Ht. destruct (Hrt [str "A=%3"; str "D&B=x%20y"]) as (u' & u'' & Hw & He & Hv).
    + symmetry. exact Ht.
    + repeat constructor; try discriminate; vm_compute; discriminate.
    + exists s, u', u''. rewrite Hc in Hv. split; [exact Hs|]. split; [exact Hw|]. split; [exact He|exact Hv].
Defined.

Lemma urlvars_stay_ordered_witness :
  ordered (m_vars (snd (write_all (fun _ => []) query no_urlvars))).
Proof. apply (urlvars_stay_ordered (fun _ => []) query no_urlvars). split; constructor. Defined.

Lemma varCount_never_returns_witness :
  varCount 1000 (str "a") two_vars = Exc out_of_fuel.
Proof.
  destruct (varCount_never_returns 1000 (str "a") two_vars) as [Hc _]; [apply Nat.lt_0_succ|].
  rewrite Hc. assert (E : exist (str "a") two_vars = true) by (vm_compute; reflexivity). by rewrite E.
Defined.
