(* ===== verification/MimeHeader.v ===== *)
(** * Header lines (Protocol_MIME/mime_sub_header.h, mime_sub_header.cpp)

    [MIME_HeaderOption] is one option: its name, its text as it came, its value
    and the variables in it. [MIME_Sub_Header] is the element parser of the
    lines of a header, the multimap of the options by name in capitals, and
    their writer. The options are objects shared by the multimap, the last
    option and the callers: [store] holds them and they are named by their
    place in it. *)

From S2P Require Import Prelude Mem SafeInt CText StreamableObject BBase BMem BChunk BChunks BRef SubParser SubParserSpec BoostText Random.

(** ** MIME_HeaderOption *)

Module MIME_HeaderOption.
Record t : Type := mk {
  m_maxSubOptionsCount : Z;
  m_maxHeaderOptSize : Z;
  m_curHeaderOptSize : Z;
  m_origName : bytes;
  m_origValue : bytes;
  m_value : bytes;
  m_subVar : list (bytes * bytes)
}.

Definition new : t := mk 16 (8 * KB_MULT) 0 [] [] [] [].

Definition setOrigName (value : bytes) (o : t) : t :=
  mk (m_maxSubOptionsCount o) (m_maxHeaderOptSize o) (m_curHeaderOptSize o) value (m_origValue o) (m_value o) (m_subVar o).
Definition setOrigValue (value : bytes) (o : t) : t :=
  mk (m_maxSubOptionsCount o) (m_maxHeaderOptSize o) (m_curHeaderOptSize o) (m_origName o) value (m_value o) (m_subVar o).
Definition setMaxSubOptions (value : Z) (o : t) : t :=
  mk value (m_maxHeaderOptSize o) (m_curHeaderOptSize o) (m_origName o) (m_origValue o) (m_value o) (m_subVar o).

Definition toString (o : t) : bytes := m_origName o ++ str ": " ++ m_origValue o.

(** Characters are signed. *)
Definition isPermited7bitCharset (varX : bytes) : bool :=
  forallb (fun c => negb ((schar c <? 32) || (schar c >? 126))) varX.

Definition addSubVar (varName varValue : bytes) (o : t) : t :=
  if bool_decide (varName = []) && bool_decide (varValue = []) then o
  else if zlen (m_subVar o) >=? m_maxSubOptionsCount o then o
  else if u64 (u64 (zlen varName + zlen varValue) + m_curHeaderOptSize o) >? m_maxHeaderOptSize o then o
  else if negb (isPermited7bitCharset varName) then o
  else if negb (isPermited7bitCharset varValue) then o
  else mk (m_maxSubOptionsCount o) (m_maxHeaderOptSize o) (u64 (m_curHeaderOptSize o + (zlen varName + zlen varValue)))
         (m_origName o) (m_origValue o) (m_value o) (multimap_insert (varName, varValue) (m_subVar o)).

(** [find] gives the first of the equal keys. *)
Definition getSubVar (subVarName : bytes) (o : t) : bytes :=
  match equal_range subVarName (m_subVar o) with (_, v) :: _ => v | [] => [] end.
Definition getSubVars (subVarName : bytes) (o : t) : list bytes := map snd (equal_range subVarName (m_subVar o)).

Section Boost.
Context `{BoostText}.
Definition getUpperName (o : t) : bytes := to_upper_copy (m_origName o).
Definition setValue (value : bytes) (o : t) : t :=
  mk (m_maxSubOptionsCount o) (m_maxHeaderOptSize o) (m_curHeaderOptSize o) (m_origName o) (m_origValue o) (trim value) (m_subVar o).
End Boost.
End MIME_HeaderOption.

(** ** The text of an option *)

Section SubValues.
Context `{BoostText, BoostSearch}.

(** [snprintf(_staticmsg, 128, ...)]. *)
Definition staticmsg (secureReplace : bytes) (pos : Z) : bytes :=
  ztake 127 (str "_STATIC_" ++ c_str secureReplace ++ str "_" ++ to_string pos).

Definition quoted (text : bytes) : bytes := [QUOTE_CHAR] ++ text ++ [QUOTE_CHAR].

(** The texts between quotes are put aside, the first one first. Each turn
    leaves fewer quotes: the length of the text is fuel enough. *)
Fixpoint put_aside (fuel : nat) (secureReplace : bytes) (vStaticTexts : list bytes) (sVarValues : bytes) : list bytes * bytes :=
  match fuel with
  | O => (vStaticTexts, sVarValues)
  | S fuel =>
      match search_quoted sVarValues with
      | None => (vStaticTexts, sVarValues)
      | Some text =>
          let pos := zlen vStaticTexts in
          put_aside fuel secureReplace (vStaticTexts ++ [text]) (replace_all sVarValues (quoted text) (staticmsg secureReplace pos))
      end
  end.

(** [i] is the number of the first of [texts]. *)
Fixpoint put_back_from (secureReplace : bytes) (i : Z) (texts : list bytes) (s : bytes) : bytes :=
  match texts with
  | [] => s
  | text :: texts => put_back_from secureReplace (i + 1) texts (replace_all s (staticmsg secureReplace i) text)
  end.
Definition put_back (secureReplace : bytes) (vStaticTexts : list bytes) (s : bytes) : bytes :=
  put_back_from secureReplace 0 vStaticTexts s.

Import MIME_HeaderOption.

(** One value of the option. *)
Definition sub_value (secureReplace : bytes) (vStaticTexts : list bytes) (value : bytes) (opt : t) : t :=
  if contains value (str "=") then
    let found := default 0 (string_find (str "=") value) in
    let sVarName := ztake found value in
    let sVarValue := zdrop (found + 1) value in
    addSubVar (put_back secureReplace vStaticTexts (trim sVarName)) (put_back secureReplace vStaticTexts (trim sVarValue)) opt
  else addSubVar (put_back secureReplace vStaticTexts (trim value)) [] opt.

Fixpoint sub_values (secureReplace : bytes) (vStaticTexts : list bytes) (first : bool) (vValues : list bytes) (opt : t) : t :=
  match vValues with
  | [] => opt
  | value :: vValues =>
      let opt := sub_value secureReplace vStaticTexts value opt in
      let opt := if first then setValue (put_back secureReplace vStaticTexts (trim value)) opt else opt in
      sub_values secureReplace vStaticTexts false vValues opt
  end.

(** [parseSubValues], with the random text it has drawn. *)
Definition parse_sub_values (secureReplace strName : bytes) (opt : t) : t :=
  let opt := setOrigValue strName opt in
  let sVarValues := trim strName in
  let (vStaticTexts, sVarValues) := put_aside (length sVarValues) secureReplace [] sVarValues in
  sub_values secureReplace vStaticTexts true (split (str ";") sVarValues) opt.
End SubValues.

(** ** MIME_Sub_Header *)

Module MIME_Sub_Header.
(** What the class adds to the element parser; [drawn] counts the random texts. *)
Record fields : Type := mkFields {
  m_lastOpt : option nat;
  m_headers : list (bytes * nat);
  m_maxOptions : Z;
  m_maxSubOptionCount : Z;
  m_maxSubOptionSize : Z;
  store : list MIME_HeaderOption.t;
  drawn : nat
}.

Definition fields_new : fields := mkFields None [] 32 100 (2 * KB_MULT) [] 0.

Definition set_lastOpt (o : option nat) (f : fields) : fields :=
  mkFields o (m_headers f) (m_maxOptions f) (m_maxSubOptionCount f) (m_maxSubOptionSize f) (store f) (drawn f).
Definition set_headers (h : list (bytes * nat)) (f : fields) : fields :=
  mkFields (m_lastOpt f) h (m_maxOptions f) (m_maxSubOptionCount f) (m_maxSubOptionSize f) (store f) (drawn f).
Definition setMaxOptions (value : Z) (f : fields) : fields :=
  mkFields (m_lastOpt f) (m_headers f) value (m_maxSubOptionCount f) (m_maxSubOptionSize f) (store f) (drawn f).
Definition setMaxSubOptionCount (value : Z) (f : fields) : fields :=
  mkFields (m_lastOpt f) (m_headers f) (m_maxOptions f) value (m_maxSubOptionSize f) (store f) (drawn f).
Definition setMaxSubOptionSize (value : Z) (f : fields) : fields :=
  mkFields (m_lastOpt f) (m_headers f) (m_maxOptions f) (m_maxSubOptionCount f) value (store f) (drawn f).
Definition set_store (s : list MIME_HeaderOption.t) (f : fields) : fields :=
  mkFields (m_lastOpt f) (m_headers f) (m_maxOptions f) (m_maxSubOptionCount f) (m_maxSubOptionSize f) s (drawn f).
Definition set_drawn (n : nat) (f : fields) : fields :=
  mkFields (m_lastOpt f) (m_headers f) (m_maxOptions f) (m_maxSubOptionCount f) (m_maxSubOptionSize f) (store f) n.

(** The object a pointer leads to, and a new one. *)
Definition option_at (f : fields) (i : nat) : MIME_HeaderOption.t := default MIME_HeaderOption.new (store f !! i).
Definition make_shared (o : MIME_HeaderOption.t) : st fields nat := fun f =>
  (Ret (length (store f)), set_store (store f ++ [o]) f).

Section Operations.
Context `{BoostText, BoostSearch, RandomSource}.

Definition parseSubValues (opt : MIME_HeaderOption.t) (strName : bytes) : st fields MIME_HeaderOption.t := fun f =>
  match createRandomString 16 (drawn f) with
  | (Ret secureReplace, n) => (Ret (parse_sub_values secureReplace strName opt), set_drawn n f)
  | (Exc e, n) => (Exc e, set_drawn n f)
  end.

Definition getOptionsSize (f : fields) : Z := zlen (m_headers f).

Definition addHeaderOption (opt : nat) : st fields bool := fun f =>
  if zlen (m_headers f) =? m_maxOptions f then (Ret false, f)
  else (Ret true, set_headers (multimap_insert (MIME_HeaderOption.getUpperName (option_at f opt), opt) (m_headers f)) f).

(** A new option, when there is room, or the text of the last one again. *)
Definition add (optionName optionValue : bytes) (state : Z) : st fields bool := fun f =>
  if state =? 0 then
    (if zlen (m_headers f) =? m_maxOptions f then ret false
     else
       let! optP := parseSubValues (MIME_HeaderOption.setOrigName optionName MIME_HeaderOption.new) optionValue in
       let! optP := make_shared optP in
       let! added := addHeaderOption optP in
       if negb added then ret false
       else do! modify (set_lastOpt (Some optP)) in ret true) f
  else if state =? 1 then
    match m_lastOpt f with
    | Some optP =>
        (let! opt := parseSubValues (option_at f optP) optionValue in
         do! modify (fun f => set_store (<[optP := opt]> (store f)) f) in
         ret true) f
    | None => (Ret true, f)
    end
  else (Ret true, f).

Definition remove (optionName : bytes) (f : fields) : fields :=
  set_headers (filter (fun kv => fst kv <> to_upper_copy optionName) (m_headers f)) f.

Definition replace (optionName optionValue : bytes) : st fields unit :=
  do! modify (remove optionName) in
  do! add optionName optionValue 0 in
  ret tt.

Definition getOptionsByName (varName : bytes) (f : fields) : list nat :=
  map snd (equal_range (to_upper_copy varName) (m_headers f)).

Definition getOptionByName (varName : bytes) (f : fields) : option nat := head (getOptionsByName varName f).

Definition exist (optionName : bytes) (f : fields) : bool := bool_decide (is_Some (getOptionByName optionName f)).

Definition getOptionRawStringByName (varName : bytes) (f : fields) : bytes :=
  match getOptionByName varName f with Some o => MIME_HeaderOption.m_origValue (option_at f o) | None => [] end.

Definition getOptionValueStringByName (varName : bytes) (f : fields) : bytes :=
  match getOptionByName varName f with Some o => MIME_HeaderOption.m_value (option_at f o) | None => [] end.

(** The number, and whether the option exists. *)
Definition getOptionAsUINT64 (varName : bytes) (base : Z) (f : fields) : Z * bool :=
  match getOptionByName varName f with
  | Some o => (match strtoul base (MIME_HeaderOption.m_value (option_at f o)) with Some (n, _) => n | None => 0 end, true)
  | None => (0, false)
  end.

Definition parseOptionValue (optionValue : bytes) : st fields unit :=
  let c := match c_str optionValue with c :: _ => uchar c | [] => 0 end in
  if (c =? 32) || (c =? 9) then do! add [] optionValue 1 in ret tt
  else match string_find (str ": ") optionValue with
       | Some found =>
           let optionValue2 := c_str (zdrop (found + 2) optionValue) in
           do! add (ztake found optionValue) optionValue2 0 in ret tt
       | None => ret tt
       end.

(** The options in the order of their names, then an empty line. *)
Fixpoint stream_options {U} `{Streamable U} (options : list MIME_HeaderOption.t) : st U bool :=
  match options with
  | [] => do! writeString CRLF in gets so_succeed
  | o :: options =>
      do! writeString (MIME_HeaderOption.toString o ++ CRLF) in
      let! succeed := gets so_succeed in
      if negb succeed then ret false else stream_options options
  end.

Definition streamToUpstream {U} `{Streamable U} (f : fields) : st U bool :=
  stream_options (map (fun kv => option_at f (snd kv)) (m_headers f)).
End Operations.

(** *** The element parser *)

Section Element.
Context {M : Type} `{BBase M, MmapFactory M}.

Record t : Type := mk { base : SubParser M; header : fields }.

Definition set_base (s : SubParser M) (x : t) : t := mk s (header x).
Definition set_header (f : fields) (x : t) : t := mk (base x) f.

Definition setMaxOptionSize (value : Z) (x : t) : t := set_base (setParseDataTargetSize value (base x)) x.

Definition new : t :=
  let x := mk SubParser_new fields_new in
  let x := set_base (setParseDelimiter CRLF (setParseMode PARSE_MODE_DELIMITER (base x))) x in
  let x := setMaxOptionSize (2 * KB_MULT) x in
  set_base (set_subParserName "MIME_Sub_Header" (base x)) x.

Context `{BoostText, BoostSearch, RandomSource}.

Definition on_header {A} (F : st fields A) : st t A := fun x => let (r, f) := F (header x) in (r, set_header f x).

Definition parse : st t ParseStatus := fun x =>
  if BRef.size (getParsedBuffer (base x)) =? 0 then (Ret PARSE_GOTO_NEXT_SUBPARSER, x)
  else (do! on_header (parseOptionValue (toStringEx (getParsedBuffer (base x)))) in ret PARSE_GET_MORE_DATA) x.

#[global] Instance header_sub : SubParserImpl M t := { sp := base; sp_set := set_base; parse := parse }.
#[global] Instance header_laws : SubParserLaws M t.
Proof. split; [done|done|by intros []]. Qed.
End Element.
Arguments t : clear implicits.
End MIME_Sub_Header.
