(* ===== verification/HttpLines.v ===== *)
(** * The first lines of HTTP messages (Protocol_HTTP/common_version.cpp,
    rsp_status.cpp, req_requestline.cpp)

    [Version] is the HTTP/major.minor of both lines. [Status] and [RequestLine]
    are element parsers delimited by the end of the line: the first line of an
    answer and that of a request, whose variables go through the protocol of
    UrlVars.v. Both lines are also written from here. *)

From S2P Require Import Prelude SafeInt CText Mem StreamableObject BBase BMem BChunk BChunks BChunksFacts BChunksSpec BRef SubParser SubParserSpec Parser Preserves Lens Lines UrlStream BoostText Random UrlVars MimeHeader.

(** ** Version *)

Module Version.
Record t : Type := mk { m_minorVersion : Z; m_majorVersion : Z }.

Definition new : t := mk 1 1.

Definition setMinor (value : Z) (v : t) : t := mk value (m_majorVersion v).
Definition setMajor (value : Z) (v : t) : t := mk (m_minorVersion v) value.
Definition upgradeMinor (value : Z) (v : t) : t := if value >? m_minorVersion v then setMinor value v else v.

(** The buffer of 128 bytes of [snprintf] is longer than any version. *)
Definition toString (v : t) : bytes :=
  str "HTTP/" ++ to_string (m_majorVersion v) ++ str "." ++ to_string (m_minorVersion v).

(** The numbers are kept modulo 2^16. *)
Definition parse `{BoostText} (version : bytes) (v : t) : t :=
  match split (str "/") version with
  | [_; numbers] =>
      match split (str ".") numbers with
      | [major; minor] => mk (cast (Unsigned 16) (strtoul10 minor)) (cast (Unsigned 16) (strtoul10 major))
      | _ => mk 0 1
      end
  | _ => mk 0 1
  end.
End Version.

(** ** Status *)

Module Status.
Inductive Codes : Type :=
  | S_100_CONTINUE | S_101_SWITCHING_PROTOCOLS | S_200_OK | S_201_CREATED | S_202_ACCEPTED
  | S_203_NON_AUTHORITATIVE_INFORMATION | S_204_NO_CONTENT | S_205_RESET_CONTENT | S_206_PARTIAL_CONTENT
  | S_300_MULTIPLE_CHOICES | S_301_MOVED_PERMANENTLY | S_302_FOUND | S_303_SEE_OTHER | S_304_NOT_MODIFIED
  | S_307_TEMPORARY_REDIRECT | S_308_PERMANENT_REDIRECT | S_400_BAD_REQUEST | S_401_UNAUTHORIZED
  | S_403_FORBIDDEN | S_404_NOT_FOUND | S_405_METHOD_NOT_ALLOWED | S_406_NOT_ACCEPTABLE
  | S_407_PROXY_AUTHENTICATION_REQUIRED | S_408_REQUEST_TIMEOUT | S_409_CONFLICT | S_410_GONE
  | S_411_LENGTH_REQUIRED | S_412_PRECONDITION_FAILED | S_413_PAYLOAD_TOO_LARGE | S_414_URI_TOO_LONG
  | S_415_UNSUPPORTED_MEDIA_TYPE | S_416_RANGE_NOT_SATISFIABLE | S_417_EXPECTATION_FAILED
  | S_426_UPGRADE_REQUIRED | S_428_PRECONDITION_REQUIRED | S_429_TOO_MANY_REQUESTS
  | S_431_REQUEST_HEADER_FIELDS_TOO_LARGE | S_451_UNAVAILABLE_FOR_LEGAL_REASONS | S_500_INTERNAL_SERVER_ERROR
  | S_501_NOT_IMPLEMENTED | S_502_BAD_GATEWAY | S_503_SERVICE_UNAVAILABLE | S_504_GATEWAY_TIMEOUT
  | S_505_HTTP_VERSION_NOT_SUPPORTED | S_511_NETWORK_AUTHENTICATION_REQUIRED | S_999_NOT_SET.

Definition code_value (c : Codes) : Z :=
  match c with
  | S_100_CONTINUE => 100 | S_101_SWITCHING_PROTOCOLS => 101 | S_200_OK => 200 | S_201_CREATED => 201
  | S_202_ACCEPTED => 202 | S_203_NON_AUTHORITATIVE_INFORMATION => 203 | S_204_NO_CONTENT => 204
  | S_205_RESET_CONTENT => 205 | S_206_PARTIAL_CONTENT => 206 | S_300_MULTIPLE_CHOICES => 300
  | S_301_MOVED_PERMANENTLY => 301 | S_302_FOUND => 302 | S_303_SEE_OTHER => 303 | S_304_NOT_MODIFIED => 304
  | S_307_TEMPORARY_REDIRECT => 307 | S_308_PERMANENT_REDIRECT => 308 | S_400_BAD_REQUEST => 400
  | S_401_UNAUTHORIZED => 401 | S_403_FORBIDDEN => 403 | S_404_NOT_FOUND => 404
  | S_405_METHOD_NOT_ALLOWED => 405 | S_406_NOT_ACCEPTABLE => 406
  | S_407_PROXY_AUTHENTICATION_REQUIRED => 407 | S_408_REQUEST_TIMEOUT => 408 | S_409_CONFLICT => 409
  | S_410_GONE => 410 | S_411_LENGTH_REQUIRED => 411 | S_412_PRECONDITION_FAILED => 412
  | S_413_PAYLOAD_TOO_LARGE => 413 | S_414_URI_TOO_LONG => 414 | S_415_UNSUPPORTED_MEDIA_TYPE => 415
  | S_416_RANGE_NOT_SATISFIABLE => 416 | S_417_EXPECTATION_FAILED => 417 | S_426_UPGRADE_REQUIRED => 426
  | S_428_PRECONDITION_REQUIRED => 428 | S_429_TOO_MANY_REQUESTS => 429
  | S_431_REQUEST_HEADER_FIELDS_TOO_LARGE => 431 | S_451_UNAVAILABLE_FOR_LEGAL_REASONS => 451
  | S_500_INTERNAL_SERVER_ERROR => 500 | S_501_NOT_IMPLEMENTED => 501 | S_502_BAD_GATEWAY => 502
  | S_503_SERVICE_UNAVAILABLE => 503 | S_504_GATEWAY_TIMEOUT => 504 | S_505_HTTP_VERSION_NOT_SUPPORTED => 505
  | S_511_NETWORK_AUTHENTICATION_REQUIRED => 511 | S_999_NOT_SET => 1000
  end.
#[global] Instance Codes_eq_dec : EqDecision Codes.
Proof. solve_decision. Defined.

Definition m_responseStatusCodesTable : list (Z * bytes) := [
  (100, str "Continue"); (101, str "Switching Protocol"); (200, str "OK"); (201, str "Created");
  (202, str "Accepted"); (203, str "Non-Authoritative Information"); (204, str "No Content");
  (205, str "Reset Content"); (206, str "Partial Content"); (300, str "Multiple Choices");
  (301, str "Moved Permanently"); (302, str "Found"); (303, str "See Other"); (304, str "Not Modified");
  (307, str "Temporary Redirect"); (308, str "Permanent Redirect"); (400, str "Bad Request");
  (401, str "Unauthorized"); (403, str "Forbidden"); (404, str "Not Found"); (405, str "Method Not Allowed");
  (406, str "Not Acceptable"); (407, str "Proxy Authentication Required"); (408, str "Request Timeout");
  (409, str "Conflict"); (410, str "Gone"); (411, str "Length Required"); (412, str "Precondition Failed");
  (413, str "Payload Too Large"); (414, str "URI Too Long"); (415, str "Unsupported Media Type");
  (416, str "Range Not Satisfiable"); (417, str "Expectation Failed"); (426, str "Upgrade Required");
  (428, str "Precondition Required"); (429, str "Too Many Requests");
  (431, str "Request Header Fields Too Large"); (451, str "Unavailable For Legal Reasons");
  (500, str "Internal Server Error"); (501, str "Not Implemented"); (502, str "Bad Gateway");
  (503, str "Service Unavailable"); (504, str "Gateway Timeout"); (505, str "HTTP Version Not Supported");
  (511, str "Network Authentication Required")
].

Definition getStringTranslation (code : Z) : bytes :=
  match List.find (fun e => fst e =? code) m_responseStatusCodesTable with
  | Some (_, message) => message
  | None => []
  end.

Section Status.
Context {M : Type} `{BBase M, MmapFactory M}.

Record t : Type := mk {
  base : SubParser M;
  m_httpVersion : Version.t;
  m_statusCode : Z;
  m_statusMessage : bytes
}.

Definition new : t :=
  mk (set_subParserName "Status" (setParseDataTargetSize 128 (setParseDelimiter CRLF
       (setParseMode PARSE_MODE_DELIMITER SubParser_new))))
     Version.new (code_value S_999_NOT_SET) [].

Definition set_base (s : SubParser M) (x : t) : t := mk s (m_httpVersion x) (m_statusCode x) (m_statusMessage x).
Definition set_version (v : Version.t) (x : t) : t := mk (base x) v (m_statusCode x) (m_statusMessage x).
Definition setResponseMessage (value : bytes) (x : t) : t := mk (base x) (m_httpVersion x) (m_statusCode x) value.

Definition setCode (code : Codes) (x : t) : t :=
  if bool_decide (code <> S_999_NOT_SET) then
    setResponseMessage (getStringTranslation (code_value code)) (mk (base x) (m_httpVersion x) (code_value code) (m_statusMessage x))
  else x.

(** The words after the code, with one space between them. *)
Fixpoint message_loop (first : bool) (parts : list bytes) (message : bytes) : bytes :=
  match parts with
  | [] => message
  | p :: parts =>
      let message := if first then message else message ++ str " " in
      message_loop false parts (message ++ p)
  end.

Definition parse `{BoostText} : st t ParseStatus := fun x =>
  let clientRequest := toStringEx (getParsedBuffer (base x)) in
  match split [chr 9; chr 32] clientRequest with
  | version :: code :: words =>
      (Ret PARSE_GOTO_NEXT_SUBPARSER,
       mk (base x) (Version.parse version (m_httpVersion x)) (cast (Unsigned 16) (strtoul10 code)) (message_loop true words []))
  | _ => (Ret PARSE_ERROR, x)
  end.

Definition streamToUpstream {U} `{Streamable U} (x : t) : st U bool :=
  writeString (Version.toString (m_httpVersion x) ++ str " " ++ to_string (m_statusCode x) ++ str " "
               ++ m_statusMessage x ++ CRLF).

#[global] Instance status_sub `{BoostText} : SubParserImpl M t := { sp := base; sp_set := set_base; parse := parse }.
#[global] Instance status_laws `{BoostText} : SubParserLaws M t.
Proof. split; [done|done|by intros []]. Qed.
End Status.
Arguments t : clear implicits.
End Status.

(** ** RequestLine *)

Module RequestLine.
Section RequestLine.
Context {M : Type} `{BBase M, MmapFactory M} (uninitialised : Z -> bytes) `{BoostText}.

Record t : Type := mk {
  base : SubParser M;
  m_requestMethod : bytes;
  m_requestURI : bytes;
  m_requestURIParameters : bytes;
  m_httpVersion : Version.t;
  m_getVars : URLVars (M := M)
}.

Definition set_base (s : SubParser M) (x : t) : t :=
  mk s (m_requestMethod x) (m_requestURI x) (m_requestURIParameters x) (m_httpVersion x) (m_getVars x).
Definition set_version (v : Version.t) (x : t) : t :=
  mk (base x) (m_requestMethod x) (m_requestURI x) (m_requestURIParameters x) v (m_getVars x).
Definition setRequestMethod (value : bytes) (x : t) : t :=
  mk (base x) value (m_requestURI x) (m_requestURIParameters x) (m_httpVersion x) (m_getVars x).
Definition setRequestURI (value : bytes) (x : t) : t :=
  mk (base x) (m_requestMethod x) value (m_requestURIParameters x) (m_httpVersion x) (m_getVars x).
Definition set_parameters (value : bytes) (x : t) : t :=
  mk (base x) (m_requestMethod x) (m_requestURI x) value (m_httpVersion x) (m_getVars x).
Definition set_vars (v : URLVars (M := M)) (x : t) : t :=
  mk (base x) (m_requestMethod x) (m_requestURI x) (m_requestURIParameters x) (m_httpVersion x) v.

Definition setSecurityMaxURLSize (value : Z) (x : t) : t := set_base (setParseDataTargetSize value (base x)) x.

Definition new : t :=
  let x := mk SubParser_new (str "GET") [] [] Version.new URLVars_new in
  let x := set_base (setParseDelimiter CRLF (setParseMode PARSE_MODE_DELIMITER (base x))) x in
  let x := setSecurityMaxURLSize (128 * KB_MULT) x in
  set_base (set_subParserName "RequestLine" (base x)) x.

(** The text goes to the variables as a stream; nothing tells them its end. *)
Definition parseGETParameters : st t unit := fun x =>
  match append (m_requestURIParameters x) (B_Chunks_new (M := M)) with
  | (Exc e, _) => (Exc e, x)
  | (Ret _, bc) =>
      match streamTo (S := URLVars) (H0 := Parser_stream uninitialised) bc (m_getVars x) with
      | (Exc e, u) => (Exc e, set_vars u x)
      | (Ret _, u) => (Ret tt, set_vars u x)
      end
  end.

(** The parameters are what follows the question mark, up to a NUL. *)
Definition parseURI : st t unit :=
  let! uri := gets m_requestURI in
  do! match memchr (chr 63) uri with
      | Some found =>
          do! modify (set_parameters (c_str (zdrop (found + 1) uri))) in
          do! modify (setRequestURI (ztake found uri)) in
          parseGETParameters
      | None => ret tt
      end in
  let! uri := gets m_requestURI in
  let! uri := lift_res (decodeURLStr (M := M) uri) in
  modify (setRequestURI uri).

Definition parse : st t ParseStatus := fun x =>
  let clientRequest := toStringEx (getParsedBuffer (base x)) in
  match split [chr 9; chr 32] clientRequest with
  | method :: uri :: rest =>
      (do! modify (setRequestMethod (to_upper_copy method)) in
       do! modify (setRequestURI uri) in
       let version := match rest with v :: _ => v | [] => str "HTTP/1.0" end in
       do! modify (fun x => set_version (Version.parse version (m_httpVersion x)) x) in
       do! parseURI in
       ret PARSE_GOTO_NEXT_SUBPARSER) x
  | _ => (Ret PARSE_ERROR, x)
  end.

Definition streamToUpstream {U} `{Streamable U} (x : t) : st U bool :=
  do! writeString (m_requestMethod x ++ str " " ++ m_requestURI x) in
  while_succeeds (
    let finish :=
      do! writeString (str " " ++ Version.toString (m_httpVersion x) ++ CRLF) in
      while_succeeds (gets so_succeed) in
    if negb (uv_isEmpty (m_getVars x)) then
      do! writeString (str "?") in
      while_succeeds (
        let! streamed := uv_streamTo (m_getVars x) in
        if negb streamed then ret false else finish)
    else finish).

#[global] Instance line_sub : SubParserImpl M t := { sp := base; sp_set := set_base; parse := parse }.
#[global] Instance line_laws : SubParserLaws M t.
Proof. split; [done|done|by intros []]. Qed.
End RequestLine.
Arguments t : clear implicits.
End RequestLine.

(** * The status line and the header lines against line readers

    What the element parsers of HttpLines.v and MimeHeader.v make of a line,
    and, with Lines.v, of any write. *)

(** ** The status line *)

Definition STATUS_LIMIT : Z := 128.

(** Version, code and message. *)
Definition status_text : Type := Version.t * Z * bytes.

Definition read_status `{BoostText} (_ : unit) (line : bytes) : reading unit status_text :=
  match split [chr 9; chr 32] line with
  | version :: code :: words =>
      Ends (Version.parse version Version.new, cast (Unsigned 16) (strtoul10 code), Status.message_loop true words []) []
  | _ => Refuses
  end.

Lemma Version_parse_any `{BoostText} text v w : Version.parse text v = Version.parse text w.
Proof. done. Qed.

Section StatusLine.
Context {M : Type} `{BBase M, MmapFactory M} (uninitialised : Z -> bytes) `{BoostText}.
Implicit Types e : Status.t M.

Definition status_is (y : status_text) e : Prop := (Status.m_httpVersion e, Status.m_statusCode e, Status.m_statusMessage e) = y.

Definition eat_status := eat_line STATUS_LIMIT read_status.
Definition status_ok : unit * bytes -> Z -> Status.t M -> Prop := lines_ok STATUS_LIMIT (fun _ _ => True).

Lemma status_agrees x n buf e :
  status_ok x n e -> buf <> [] -> zlen buf <= SSIZE_MAX ->
  element_agrees uninitialised eat_status status_ok (lines_done status_is) (lines_weight STATUS_LIMIT) turns x n buf e.
Proof.
  apply lines_agree; [exact _|by intros a s e0 Ha|by intros y s e0 Hy|]. intros [] line e' _ [Hl _] _. cbn [parse Status.status_sub sp] in *. unfold Status.parse, read_status.
  rewrite Hl. destruct (split _ line) as [|version [|code words]]; [by exists e'|by exists e'|].
  split; [done|]. eexists. split; [reflexivity|]. done.
Qed.
End StatusLine.

(** ** Header lines *)

Definition HEADER_LIMIT : Z := 2 * KB_MULT.

Section HeaderLines.
Context {M : Type} `{BBase M, MmapFactory M} (uninitialised : Z -> bytes) `{BoostText, BoostSearch, RandomSource}.
Implicit Types e : MIME_Sub_Header.t M.

(** An empty line ends the headers. What happens when the source of random
    bytes fails is outside of the specification. *)
Definition read_option (f : MIME_Sub_Header.fields) (line : bytes) : reading MIME_Sub_Header.fields MIME_Sub_Header.fields :=
  match line with
  | [] => Ends f []
  | _ => match MIME_Sub_Header.parseOptionValue line f with
         | (Ret _, f) => Goes f
         | (Exc _, _) => Unspecified
         end
  end.

Definition header_is (f : MIME_Sub_Header.fields) e : Prop := MIME_Sub_Header.header e = f.

Definition eat_header := eat_line HEADER_LIMIT read_option.
Definition header_ok : MIME_Sub_Header.fields * bytes -> Z -> MIME_Sub_Header.t M -> Prop := lines_ok HEADER_LIMIT header_is.

Lemma header_agrees x n buf e :
  header_ok x n e -> buf <> [] -> zlen buf <= SSIZE_MAX ->
  element_agrees uninitialised eat_header header_ok (lines_done header_is) (lines_weight HEADER_LIMIT) turns x n buf e.
Proof.
  apply lines_agree; [exact _|by intros a s e0 Ha|by intros y s e0 Hy|]. intros f line e' Hf [Hl Hs] _. unfold header_is in Hf.
  cbn [parse MIME_Sub_Header.header_sub sp] in *. unfold MIME_Sub_Header.parse, read_option. rewrite Hs. destruct line as [|c line].
  - change (zlen [] =? 0) with true. cbn iota. split; [done|]. by exists e'.
  - rewrite zlen_cons. pose proof (zlen_nonneg line). replace (1 + zlen line =? 0) with false by lia. cbn [negb].
    rewrite Hl. unfold MIME_Sub_Header.on_header, bind. rewrite Hf.
    destruct (MIME_Sub_Header.parseOptionValue _ f) as [[[]|?] f'] eqn:E; [|done].
    eexists. split; [reflexivity|]. done.
Qed.
End HeaderLines.

(** ** Writing lines *)

Section Writing.
Context {U : Type} `{FullSink U}.

(** [t] has been written. *)
Definition wrote (u : U) (t : bytes) (u' : U) : Prop :=
  sink_ok u' /\ sink_view u' = sink_view u ++ t /\ sink_room u - zlen t <= sink_room u'.

Lemma wrote_app u t1 u1 t2 u2 : wrote u t1 u1 -> wrote u1 t2 u2 -> wrote u (t1 ++ t2) u2.
Proof. intros (_ & V1 & R1) (O2 & V2 & R2). split; [done|]. rewrite V2, V1, app_assoc, zlen_app. split; [done|lia]. Qed.

(** Room, also as a number of bytes. *)
Definition has_room (u : U) (n : Z) : Prop := sink_ok u /\ n <= sink_room u /\ n <= SSIZE_MAX.

Lemma room_after u t u' n : has_room u (zlen t + n) -> wrote u t u' -> has_room u' n.
Proof. intros (_ & Hr & Hs) (Ho & _ & Hr'). pose proof (zlen_nonneg t). split; [done|]. lia. Qed.

Lemma writeString_wrote u t : has_room u (zlen t) -> exists u', writeString t u = (Ret true, u') /\ wrote u t u'.
Proof. intros (Ho & Hr & Hs). by apply writeFullStream_full. Qed.

Definition status_line {M} (x : Status.t M) : bytes :=
  Version.toString (Status.m_httpVersion x) ++ str " " ++ to_string (Status.m_statusCode x) ++ str " " ++ Status.m_statusMessage x.

Lemma status_sent {M} (x : Status.t M) u :
  has_room u (zlen (status_line x ++ CRLF)) -> exists u', Status.streamToUpstream x u = (Ret true, u') /\ wrote u (status_line x ++ CRLF) u'.
Proof.
  intros Hr. unfold Status.streamToUpstream.
  replace (Version.toString _ ++ _) with (status_line x ++ CRLF) by (unfold status_line; by rewrite <- !app_assoc). by apply writeString_wrote.
Qed.
End Writing.

(** ** The status line, read back *)

Section StatusRead.
Context `{BoostLaws}.

(** Versions of 16-bit numbers, as the class keeps them. *)
Definition version_ok (v : Version.t) : Prop := 0 <= Version.m_minorVersion v < 2 ^ 16 /\ 0 <= Version.m_majorVersion v < 2 ^ 16.

Lemma dec_free cs n : forallb (fun c => negb (isdigit c)) cs = true -> 0 <= n -> free_of cs (to_string n).
Proof.
  intros Hcs Hn. unfold to_string. replace (n <? 0) with false by lia.
  pose proof (dec_digits_chars 20 n [] Hn ltac:(constructor)) as Hd. eapply Forall_impl; [exact Hd|]. cbn beta. intros c Hc Hin.
  rewrite forallb_forall in Hcs. apply list_elem_of_In in Hin. specialize (Hcs c Hin). unfold isdigit, in_range in Hcs. lia.
Qed.

Lemma cast16 n : 0 <= n < 2 ^ 16 -> cast (Unsigned 16) n = n.
Proof. intros Hn. cbn [cast]. by apply Z.mod_small. Qed.

Lemma version_roundtrip v w : version_ok v -> Version.parse (Version.toString v) w = v.
Proof.
  intros [Hmi Hma]. destruct v as [mi ma]. cbn [Version.m_minorVersion Version.m_majorVersion] in *. unfold Version.parse, Version.toString.
  cbn [Version.m_minorVersion Version.m_majorVersion].
  assert (Hfree : forall cs, forallb (fun c => negb (isdigit c)) cs = true -> chr 46 ∉ cs -> free_of cs (to_string ma ++ str "." ++ to_string mi)).
  { intros cs Hcs Hdot. apply free_of_app. split; [apply dec_free; [done|lia]|]. apply free_of_app. split; [by constructor|apply dec_free; [done|lia]]. }
  assert (Hne : forall n, 0 <= n -> to_string n <> []).
  { intros n Hn. unfold to_string. replace (n <? 0) with false by lia. apply dec_digits_nonempty. lia. }
  change (str "HTTP/" ++ ?r) with (join (str "/") [str "HTTP"; r]).
  rewrite (split_join (str "/") (str "/")); [|by apply made_of_checked|done| |done].
  - change (to_string ma ++ str "." ++ to_string mi) with (join (str ".") [to_string ma; to_string mi]).
    rewrite (split_join (str ".") (str ".")); [|by apply made_of_checked|done|constructor; [|constructor; [|constructor]]; (apply dec_free; [done|lia])|done].
    rewrite !strtoul_to_string by (change (2 ^ 16) with 65536 in *; lia). by rewrite !cast16.
  - constructor; [by apply free_of_checked|]. constructor; [|constructor]. apply Hfree; [done|]. apply (bool_decide_eq_true (chr 46 ∉ str "/")). by vm_compute.
Qed.

(** A message of words with one space between them. *)
Definition words_ok (ws : list bytes) : Prop := ws <> [] /\ Forall (free_of [chr 9; chr 32]) ws /\ later_words ws.

Lemma message_loop_words ws acc : Status.message_loop false ws acc = acc ++ flat_map (fun w => str " " ++ w) ws.
Proof.
  revert acc. induction ws as [|w ws IH]; intros acc; cbn [Status.message_loop flat_map]; [by rewrite app_nil_r|].
  rewrite IH. by rewrite <- !app_assoc.
Qed.

Lemma join_words w ws : join (str " ") (w :: ws) = w ++ flat_map (fun w => str " " ++ w) ws.
Proof.
  revert w. induction ws as [|w' ws IH]; intros w; [cbn; by rewrite app_nil_r|].
  change (join (str " ") (w :: w' :: ws)) with (w ++ str " " ++ join (str " ") (w' :: ws)). rewrite IH. cbn [flat_map]. by rewrite <- app_assoc.
Qed.

Lemma message_words ws : words_ok ws -> Status.message_loop true ws [] = join (str " ") ws.
Proof. destruct ws as [|w ws]; [by intros [? _]|]. intros _. cbn [Status.message_loop]. by rewrite message_loop_words, join_words. Qed.

Lemma read_status_line {M} (x : Status.t M) ws :
  version_ok (Status.m_httpVersion x) -> 0 <= Status.m_statusCode x < 2 ^ 16 -> words_ok ws ->
  Status.m_statusMessage x = join (str " ") ws ->
  read_status tt (status_line x) = Ends (Status.m_httpVersion x, Status.m_statusCode x, Status.m_statusMessage x) [].
Proof.
  intros Hv Hc Hws Hm. pose proof Hws as (Hne & Hfree & Hlater). unfold read_status, status_line. rewrite Hm.
  assert (Hj : Version.toString (Status.m_httpVersion x) ++ str " " ++ to_string (Status.m_statusCode x) ++ str " " ++ join (str " ") ws =
    join (str " ") (Version.toString (Status.m_httpVersion x) :: to_string (Status.m_statusCode x) :: ws)) by (by destruct ws).
  assert (Hd : to_string (Status.m_statusCode x) <> []).
  { unfold to_string. replace (Status.m_statusCode x <? 0) with false by lia. apply dec_digits_nonempty. lia. }
  rewrite Hj, (split_join _ (str " ")); [|by apply made_of_checked|done| |].
  - rewrite version_roundtrip by done. rewrite strtoul_to_string by (change (2 ^ 16) with 65536 in *; lia).
    rewrite cast16 by done. by rewrite message_words.
  - constructor; [|constructor; [apply dec_free; [done|lia]|done]]. unfold Version.toString. destruct Hv.
    apply free_of_app. split; [by apply free_of_checked|]. apply free_of_app. split; [apply dec_free; [done|lia]|].
    apply free_of_app. split; [by apply free_of_checked|apply dec_free; [done|lia]].
  - cbn [separable]. destruct ws as [|w ws]; [done|]. by split.
Qed.
End StatusRead.
