(* ===== verification/HttpCookies.v ===== *)
(** * Dates and cookies of HTTP (Protocol_HTTP/common_date.cpp,
    hdr_cookie.cpp, req_cookies.cpp, rsp_cookies.cpp)

    A cookie, as Set-Cookie prints it and reads it back, and the two maps of
    cookies: the ones a client sends and the ones a server sets. The clock is an
    argument of the operations that read it. *)

From S2P Require Import Prelude SafeInt CText Mem Datetime BoostText Random MimeHeader.

(** ** Date *)

Module Date.
(** A time_t. *)
Definition t : Type := Z.

(** [strptime] with the format "%a, %d %b %Y %H:%M:%S %Z" into a zeroed tm, and
    mktime, which reads it as local time. *)
Class TimeText : Type := {
  strptime : bytes -> option tm;
  mktime : tm -> Z
}.

Definition day_names : list bytes := map str ["Sun"; "Mon"; "Tue"; "Wed"; "Thu"; "Fri"; "Sat"]%string.
Definition month_names : list bytes :=
  map str ["Jan"; "Feb"; "Mar"; "Apr"; "May"; "Jun"; "Jul"; "Aug"; "Sep"; "Oct"; "Nov"; "Dec"]%string.

(** The first of January of 1970 was a Thursday. *)
Definition weekday (unixTime : Z) : Z := (unixTime / 86400 + 4) mod 7.

(** [strftime] in the locale C with "%a, %d %b %Y %T GMT". *)
Definition http_text (wday : Z) (x : tm) : bytes :=
  nth (Z.to_nat wday) day_names [] ++ str ", " ++ pad2 (tm_mday x) ++ str " "
  ++ nth (Z.to_nat (tm_mon x)) month_names [] ++ str " " ++ to_string (tm_year x + 1900) ++ str " "
  ++ time_text x ++ str " GMT".

(** The dates of boost have the years from 1400 to 9999. *)
Definition toString (d : t) : res bytes :=
  let timeinfo := gmtime d in
  if (1400 <=? tm_year timeinfo + 1900) && (tm_year timeinfo + 1900 <=? 9999)
  then Ret (http_text (weekday d) timeinfo)
  else Exc (out_of_range "Year is out of valid range: 1400..9999").

Definition fromString `{TimeText} (fTime : bytes) : bool * t :=
  match strptime (c_str fTime) with
  | Some timeinfo => (true, mktime timeinfo)
  | None => (false, 0)
  end.

Definition setCurrentTime (now : Z) : t := now.
Definition incTime (seconds : Z) (d : t) : t := cast (Signed 64) (d + seconds).
End Date.

(** ** Cookie *)

Module Cookie.
Inductive eSameSitePolicy : Type := HTTP_COOKIE_SAMESITE_NONE | HTTP_COOKIE_SAMESITE_LAX | HTTP_COOKIE_SAMESITE_STRICT.

Record t : Type := mk {
  value : bytes;
  expires : Date.t;
  maxAge : Z;
  domain : bytes;
  path : bytes;
  secure : bool;
  httpOnly : bool;
  sameSitePolicy : eSameSitePolicy
}.

Definition UINT32_MAX : Z := 2 ^ 32 - 1.

Definition new : t := mk [] 0 UINT32_MAX [] [] true true HTTP_COOKIE_SAMESITE_STRICT.

Definition set_value (v : bytes) (c : t) : t := mk v (expires c) (maxAge c) (domain c) (path c) (secure c) (httpOnly c) (sameSitePolicy c).
Definition setExpiration (exp : Z) (c : t) : t := mk (value c) exp (maxAge c) (domain c) (path c) (secure c) (httpOnly c) (sameSitePolicy c).
Definition set_maxAge (v : Z) (c : t) : t := mk (value c) (expires c) v (domain c) (path c) (secure c) (httpOnly c) (sameSitePolicy c).
Definition set_domain (v : bytes) (c : t) : t := mk (value c) (expires c) (maxAge c) v (path c) (secure c) (httpOnly c) (sameSitePolicy c).
Definition set_path (v : bytes) (c : t) : t := mk (value c) (expires c) (maxAge c) (domain c) v (secure c) (httpOnly c) (sameSitePolicy c).
Definition set_secure (v : bool) (c : t) : t := mk (value c) (expires c) (maxAge c) (domain c) (path c) v (httpOnly c) (sameSitePolicy c).
Definition set_httpOnly (v : bool) (c : t) : t := mk (value c) (expires c) (maxAge c) (domain c) (path c) (secure c) v (sameSitePolicy c).
Definition set_policy (v : eSameSitePolicy) (c : t) : t := mk (value c) (expires c) (maxAge c) (domain c) (path c) (secure c) (httpOnly c) v.

Definition policy_text (p : eSameSitePolicy) : bytes :=
  match p with
  | HTTP_COOKIE_SAMESITE_NONE => str "SameSite=None; "
  | HTTP_COOKIE_SAMESITE_STRICT => str "SameSite=Strict; "
  | HTTP_COOKIE_SAMESITE_LAX => str "SameSite=Lax; "
  end.

Definition toSetCookieString (cookieName : bytes) (c : t) : res bytes :=
  let opts := cookieName ++ str "=" ++ value c ++ str "; " in
  match (if expires c =? 0 then Ret opts
         else match Date.toString (expires c) with
              | Ret d => Ret (opts ++ str "Expires=" ++ d ++ str "; ")
              | Exc e => Exc e
              end) with
  | Exc e => Exc e
  | Ret opts =>
      let opts := if maxAge c =? UINT32_MAX then opts else opts ++ str "Max-Age=" ++ to_string (maxAge c) ++ str "; " in
      let opts := if secure c then opts ++ str "Secure; " else opts in
      let opts := if httpOnly c then opts ++ str "HttpOnly; " else opts in
      let opts := if bool_decide (domain c = []) then opts else opts ++ str "Domain=" ++ domain c ++ str "; " in
      let opts := if bool_decide (path c = []) then opts else opts ++ str "Path=" ++ path c ++ str "; " in
      Ret (opts ++ policy_text (sameSitePolicy c))
  end.

Definition setAsTransientCookie (c : t) : t := setExpiration 1 c.
Definition setExpirationFromNow (now seconds : Z) (c : t) : t := setExpiration (Date.incTime seconds (Date.setCurrentTime now)) c.

Section FromString.
Context `{BoostText, Date.TimeText}.

(** The value ends at a NUL: it goes through a C string. *)
Definition getVarNameAndValue (var : bytes) : bytes * bytes :=
  match string_find (str "=") var with
  | Some found => (trim (ztake found var), trim (c_str (zdrop (found + 1) var)))
  | None => (trim var, trim [])
  end.

(** A parameter after the first one. *)
Definition param (c : t) (p : bytes) : t :=
  let var := getVarNameAndValue p in
  let varNameUpper := to_upper_copy (fst var) in
  if bool_decide (varNameUpper = str "EXPIRES") then setExpiration (snd (Date.fromString (snd var))) c
  else if bool_decide (varNameUpper = str "MAX-AGE") then set_maxAge (cast (Unsigned 32) (strtoul10 (snd var))) c
  else if bool_decide (varNameUpper = str "SECURE") then set_secure true c
  else if bool_decide (varNameUpper = str "HTTPONLY") then set_httpOnly true c
  else if bool_decide (varNameUpper = str "DOMAIN") then set_domain (snd var) c
  else if bool_decide (varNameUpper = str "PATH") then set_path (snd var) c
  else if bool_decide (varNameUpper = str "SAMESITE") then
    if iequals (snd var) (str "LAX") then set_policy HTTP_COOKIE_SAMESITE_LAX c
    else if iequals (snd var) (str "STRICT") then set_policy HTTP_COOKIE_SAMESITE_STRICT c
    else set_policy HTTP_COOKIE_SAMESITE_NONE c
  else c.

(** The cookie and its name. *)
Definition fromSetCookieString (setCookieValue : bytes) : t * bytes :=
  match split (str ";") setCookieValue with
  | [] => (new, [])
  | first :: params =>
      let (cookieName, v) := getVarNameAndValue first in
      (foldl param (set_value v new) params, cookieName)
  end.
End FromString.
End Cookie.

(** ** The cookies of a client *)

Module Cookies_ClientSide.
(** m_cookiesMap *)
Definition t : Type := list (bytes * bytes).
Definition new : t := [].

Fixpoint toString_from (first : bool) (m : t) (cookies : bytes) : bytes :=
  match m with
  | [] => cookies
  | (name, v) :: m =>
      let cookies := if first then cookies ++ str "; " else cookies in
      toString_from false m (cookies ++ name ++ str "=" ++ v)
  end.
Definition toString (m : t) : bytes := toString_from true m [].

Definition addCookieVal (cookieName cookieValue : bytes) (m : t) : t := map_assign (cookieName, cookieValue) m.
Definition getCookieByName (cookieName : bytes) (m : t) : bytes := default [] (map_find cookieName m).

Section Boost.
Context `{BoostText}.

Definition parseCookie (m : t) (cookie : bytes) : t :=
  match string_find (str "=") cookie with
  | Some found => addCookieVal (trim (ztake found cookie)) (trim (c_str (zdrop (found + 1) cookie))) m
  | None => m
  end.

Definition parseFromHeaders (cookies_str : bytes) (m : t) : t := foldl parseCookie m (split (str ";") cookies_str).

Definition putOnHeaders `{BoostSearch, RandomSource} (m : t) : st MIME_Sub_Header.fields unit :=
  do! MIME_Sub_Header.add (str "Cookie") (toString m) 0 in ret tt.
End Boost.
End Cookies_ClientSide.

(** ** The cookies of a server *)

Module Cookies_ServerSide.
Definition t : Type := list (bytes * Cookie.t).
Definition new : t := [].

Definition getCookieByName (cookieName : bytes) (m : t) : option Cookie.t := map_find cookieName m.
Definition getCookieValueByName (cookieName : bytes) (m : t) : bytes :=
  match getCookieByName cookieName m with Some c => Cookie.value c | None => [] end.

Definition addCookieVal (cookieName : bytes) (cookieValue : Cookie.t) (m : t) : bool * t :=
  match map_find cookieName m with
  | Some _ => (false, m)
  | None => (true, map_assign (cookieName, cookieValue) m)
  end.

Definition removeCookie (cookieName : bytes) (m : t) : bool * t :=
  match map_find cookieName m with
  | Some _ => (true, map_erase cookieName m)
  | None => (false, m)
  end.

Definition addClearSecureCookie (cookieName path : bytes) (m : t) : t :=
  let c := Cookie.new in
  let c := if bool_decide (path = []) then c else Cookie.set_path path c in
  let c := Cookie.set_httpOnly true (Cookie.set_secure true (Cookie.set_value [] c)) in
  let c := Cookie.set_policy Cookie.HTTP_COOKIE_SAMESITE_STRICT (Cookie.setAsTransientCookie c) in
  let m := match map_find cookieName m with Some _ => map_erase cookieName m | None => m end in
  snd (addCookieVal cookieName c m).

Section Boost.
Context `{BoostText}.

(** The name is not filled in when the text gives none. *)
Definition parseCookie `{Date.TimeText} (cookie_str : bytes) (m : t) : bool * t :=
  let (cookieValue, cookieName) := Cookie.fromSetCookieString cookie_str in
  if bool_decide (cookieName = []) || bool_decide (is_Some (map_find cookieName m)) then (false, m)
  else (true, map_assign (cookieName, cookieValue) m).

Fixpoint putOnHeaders `{BoostSearch, RandomSource} (m : t) : st MIME_Sub_Header.fields unit :=
  match m with
  | [] => ret tt
  | (name, cookie) :: m =>
      let! text := lift_res (Cookie.toSetCookieString name cookie) in
      do! MIME_Sub_Header.add (str "Set-Cookie") text 0 in
      putOnHeaders m
  end.
End Boost.
End Cookies_ServerSide.
