(* ===== verification/HttpHeaders.v ===== *)
(** * Header fields of HTTP (Protocol_HTTP/hdr_cachecontrol.cpp,
    hdr_sec_hsts.cpp, hdr_sec_xframeopts.cpp, hdr_sec_xssprotection.cpp)

    Each class holds the options of a field, prints them and reads them back;
    the theorems say exactly which options come back. Boost's algorithms are
    those of [BoostText]. *)

From S2P Require Import Prelude SafeInt CText BoostText.

Definition is_nil (s : bytes) : bool := match s with [] => true | _ => false end.

(** ** CacheControl *)

Module CacheControl.
Record t : Type := mk {
  optionNoStore : bool;
  optionNoCache : bool;
  optionMustRevalidate : bool;
  optionPrivate : bool;
  optionPublic : bool;
  optionImmutable : bool;
  optionNoTransform : bool;
  optionProxyRevalidate : bool;
  maxAge : Z;
  sMaxAge : Z
}.

Definition new : t := mk true false false false false false false false 0 0.

(** [r += (r.empty() ? [] : ,) + option]. *)
Definition add_option (present : bool) (option r : bytes) : bytes :=
  if present then r ++ (if is_nil r then [] else str ",") ++ option else r.

Definition toString (c : t) : bytes :=
  let r := if optionMustRevalidate c then [] ++ str "must-revalidate" else [] in
  let r := add_option (optionProxyRevalidate c) (str "proxy-revalidate") r in
  let r := add_option (optionNoTransform c) (str "no-transform") r in
  let r := add_option (optionImmutable c) (str "immutable") r in
  let r := add_option (optionNoStore c) (str "no-store") r in
  let r := add_option (optionNoCache c) (str "no-cache") r in
  let r := add_option (optionPrivate c) (str "private") r in
  let r := add_option (optionPublic c) (str "public") r in
  let r := add_option (negb (maxAge c =? 0)) (str "max-age=" ++ to_string (maxAge c)) r in
  add_option (negb (sMaxAge c =? 0)) (str "s-maxage=" ++ to_string (sMaxAge c)) r.

Section FromString.
Context `{BoostText}.

(** One turn of the loop of [fromString]. *)
Definition param (c : t) (p : bytes) : t :=
  let paramLower := to_lower_copy p in
  let 'mk nostore nocache must priv pub imm notr prox age sage := c in
  if bool_decide (paramLower = str "no-store") then mk true nocache must priv pub imm notr prox age sage
  else if bool_decide (paramLower = str "no-cache") then mk nostore true must priv pub imm notr prox age sage
  else if bool_decide (paramLower = str "private") then mk nostore nocache must true pub imm notr prox age sage
  else if bool_decide (paramLower = str "public") then mk nostore nocache must priv true imm notr prox age sage
  else if bool_decide (paramLower = str "immutable") then mk nostore nocache must priv pub true notr prox age sage
  else if bool_decide (paramLower = str "proxy-revalidate") then mk nostore nocache must priv pub imm notr true age sage
  else if bool_decide (paramLower = str "no-transform") then mk nostore nocache must priv pub imm true prox age sage
  else if starts_with paramLower (str "max-age=") then
    mk nostore nocache must priv pub imm notr prox (cast (Unsigned 32) (strtoul10 (drop 8 paramLower))) sage
  else if starts_with paramLower (str "s-maxage=") then
    mk nostore nocache must priv pub imm notr prox age (cast (Unsigned 32) (strtoul10 (drop 9 paramLower)))
  else c.

Definition fromString (s : bytes) : t := foldl param new (split (str ", ") s).
End FromString.
End CacheControl.

(** ** HSTS *)

Module HSTS.
Record t : Type := mk {
  isActivated : bool;
  isPreloadEnabled : bool;
  isSubdomainIncluded : bool;
  m_maxAge : Z
}.

Definition setDefaults (h : t) : t := mk false false false 0.
Definition new : t := setDefaults (mk false false false 0).
Definition new_with (maxAge : Z) (includeSubDomains preload : bool) : t := mk true preload includeSubDomains maxAge.

Definition toString (h : t) : bytes :=
  if isActivated h then
    let r := if negb (m_maxAge h =? 0) then [] ++ str "; max-age=" ++ to_string (m_maxAge h) else [] in
    let r := if isSubdomainIncluded h then r ++ str "; includeSubDomains" else r in
    let r := if isPreloadEnabled h then r ++ str "; preload" else r in
    if zlen r >? 2 then zdrop 2 r else []
  else [].

Section FromString.
Context `{BoostText}.

(** The number is read from the start of the part, its name included. *)
Definition part (h : t) (p : bytes) : t :=
  if iequals p (str "preload") then mk (isActivated h) true (isSubdomainIncluded h) (m_maxAge h)
  else if iequals p (str "includeSubDomains") then mk (isActivated h) (isPreloadEnabled h) true (m_maxAge h)
  else if istarts_with p (str "max-age=") then
    mk (isActivated h) (isPreloadEnabled h) (isSubdomainIncluded h) (cast (Unsigned 32) (strtoul10 (zdrop 0 p)))
  else h.

Definition fromString (sValue : bytes) : st t bool := fun h =>
  let parts := split (str "; ") sValue in
  let h := setDefaults h in
  let h := if is_nil sValue then mk false (isPreloadEnabled h) (isSubdomainIncluded h) (m_maxAge h)
           else foldl part (mk true (isPreloadEnabled h) (isSubdomainIncluded h) (m_maxAge h)) parts in
  (Ret true, h).
End FromString.
End HSTS.

(** ** XFrameOpts *)

Module XFrameOpts.
Inductive eOptsValues : Type := NONE | DENY | SAMEORIGIN | ALLOWFROM.
#[global] Instance eOptsValues_eq_dec : EqDecision eOptsValues.
Proof. solve_decision. Defined.

Record t : Type := mk { allowFromURL : bytes; value : eOptsValues }.

Definition new : t := mk [] DENY.
Definition new_with (v : eOptsValues) (url : bytes) : res t :=
  if negb (is_nil url) && bool_decide (v <> ALLOWFROM)
  then Exc (runtime_error "Using allowFromURL without ALLOWFROM")
  else Ret (mk url v).

Definition isNotActivated (x : t) : bool := bool_decide (value x = NONE).

Definition toString (x : t) : bytes :=
  match value x with
  | DENY => str "DENY"
  | ALLOWFROM => str "ALLOW-FROM " ++ allowFromURL x
  | SAMEORIGIN => str "SAMEORIGIN"
  | NONE => []
  end.

Section FromString.
Context `{BoostText}.
Definition set_value (v : eOptsValues) (x : t) : t := mk (allowFromURL x) v.

Definition fromString (sValue : bytes) : st t bool := fun _ =>
  let parts := split (str " ") sValue in
  let x := new in
  match parts with
  | [] => (Ret false, set_value DENY x)
  | p :: rest =>
      if iequals p (str "DENY") then (Ret true, set_value DENY x)
      else if iequals p (str "SAMEORIGIN") then (Ret true, set_value DENY x)
      else match iequals p (str "ALLOW-FROM"), rest with
           | true, url :: _ => (Ret true, mk url (value (set_value DENY x)))
           | _, _ => (Ret false, set_value DENY x)
           end
  end.
End FromString.
End XFrameOpts.

(** ** XSSProtection *)

Module XSSProtection.
Record t : Type := mk { isActivated : bool; enableBlockingMode : bool; reportURL : bytes }.

Definition new : t := mk true true [].

Definition toString (x : t) : bytes :=
  if negb (isActivated x) then str "0"
  else
    let r := str "1" in
    let r := if enableBlockingMode x then r ++ str "; mode=block" else r in
    if negb (is_nil (reportURL x)) then r ++ str "; report=" ++ reportURL x else r.

Section FromString.
Context `{BoostText}.

Definition part (x : t) (p : bytes) : t :=
  if iequals p (str "mode=block") then mk (isActivated x) true (reportURL x)
  else if istarts_with p (str "report=") then mk (isActivated x) (enableBlockingMode x) (zdrop 7 p)
  else x.

Definition fromString (sValue : bytes) : st t bool := fun _ =>
  let parts := split (str "; ") sValue in
  let x := new in
  let activated p := bool_decide (p = str "1") in
  let x := match parts with
           | [] => mk false (enableBlockingMode x) (reportURL x)
           | [p] => mk (activated p) (enableBlockingMode x) (reportURL x)
           | p :: ps =>
               let x := mk (activated p) (enableBlockingMode x) (reportURL x) in
               if isActivated x then foldl part (mk (isActivated x) false (reportURL x)) ps else x
           end in
  (Ret true, x).
End FromString.
End XSSProtection.

(** * What the header fields read back of what they print

    For each class of HttpHeaders.v, the value [fromString] gives for the text
    of [toString]. *)

(** ** Words and separators *)

Definition opt (present : bool) (w : bytes) : list bytes := if present then [w] else [].
Definition non_empty (ws : list bytes) : Prop := Forall (fun w => w <> []) ws.

Lemma non_empty_opt b w : w <> [] -> non_empty (opt b w).
Proof. intros Hw. destruct b; repeat constructor. done. Qed.

Lemma join_nil (sep : bytes) ws : non_empty ws -> is_nil (join sep ws) = bool_decide (ws = []).
Proof. destruct ws as [|w [|w' ws]]; intros Hw; [done|..]; inversion Hw; destruct w; done. Qed.

Lemma join_snoc (sep : bytes) ws w : ws <> [] -> join sep (ws ++ [w]) = join sep ws ++ sep ++ w.
Proof.
  induction ws as [|w1 [|w2 ws] IH]; intros Hne; [done|done|].
  change ((w1 :: w2 :: ws) ++ [w]) with (w1 :: ((w2 :: ws) ++ [w])).
  change (join sep (w1 :: (w2 :: ws) ++ [w])) with (w1 ++ sep ++ join sep ((w2 :: ws) ++ [w])).
  change (join sep (w1 :: w2 :: ws)) with (w1 ++ sep ++ join sep (w2 :: ws)).
  rewrite IH by done. by rewrite <- !app_assoc.
Qed.

Lemma non_empty_later ws : non_empty ws -> later_words ws.
Proof. induction 1 as [|w [|w' ws] Hw Hws IH]; [done|done|]. by split. Qed.

(** Text that the case of letters does not change. *)
Lemma tolower_dec s : dec_chars s -> map tolower s = s.
Proof.
  induction 1 as [|c s Hc _ IH]; [done|]. cbn [map]. rewrite IH. f_equal. unfold tolower, isupper, in_range.
  by replace ((65 <=? uchar c) && (uchar c <=? 90)) with false by lia.
Qed.

Lemma free_of_dec cs s :
  dec_chars s -> Forall (fun c => uchar c < 48 \/ 57 < uchar c) cs -> free_of cs s.
Proof.
  intros Hs Hcs. eapply Forall_impl; [exact Hs|]. intros c Hc Hin.
  rewrite List.Forall_forall in Hcs. apply list_elem_of_In, Hcs in Hin. cbv beta in *. lia.
Qed.

Section Spec.
Context `{BoostLaws}.

(** The parts of a text made of non-empty words; an empty text has one, empty. *)
Lemma split_words cs sep ws :
  made_of cs sep -> sep <> [] -> Forall (free_of cs) ws -> non_empty ws ->
  split cs (join sep ws) = if bool_decide (ws = []) then [[]] else ws.
Proof.
  intros Hs Hne Hf Hw. destruct ws as [|w ws]; [by apply split_nil|]. rewrite bool_decide_false by done.
  apply split_join; [done|done|done|]. inversion Hw. by apply non_empty_later.
Qed.

(** ** CacheControl *)

Lemma add_option_join b w ws :
  non_empty ws -> CacheControl.add_option b w (join (str ",") ws) = join (str ",") (ws ++ opt b w).
Proof.
  intros Hw. unfold CacheControl.add_option. destruct b; [|by rewrite app_nil_r]. rewrite join_nil by done. cbn [opt].
  case_bool_decide as E; [by subst ws|]. by rewrite join_snoc.
Qed.

(** What [toString] prints between the commas. *)
Definition cc_words (c : CacheControl.t) : list bytes :=
  opt (CacheControl.optionMustRevalidate c) (str "must-revalidate") ++
  opt (CacheControl.optionProxyRevalidate c) (str "proxy-revalidate") ++
  opt (CacheControl.optionNoTransform c) (str "no-transform") ++
  opt (CacheControl.optionImmutable c) (str "immutable") ++
  opt (CacheControl.optionNoStore c) (str "no-store") ++
  opt (CacheControl.optionNoCache c) (str "no-cache") ++
  opt (CacheControl.optionPrivate c) (str "private") ++
  opt (CacheControl.optionPublic c) (str "public") ++
  opt (negb (CacheControl.maxAge c =? 0)) (str "max-age=" ++ to_string (CacheControl.maxAge c)) ++
  opt (negb (CacheControl.sMaxAge c =? 0)) (str "s-maxage=" ++ to_string (CacheControl.sMaxAge c)).

Lemma cc_toString c : CacheControl.toString c = join (str ",") (cc_words c).
Proof.
  unfold CacheControl.toString, cc_words.
  replace (if CacheControl.optionMustRevalidate c then [] ++ str "must-revalidate" else [])
    with (join (str ",") (opt (CacheControl.optionMustRevalidate c) (str "must-revalidate"))) by (by destruct (CacheControl.optionMustRevalidate c)).
  rewrite !add_option_join; [by rewrite <- !app_assoc|..];
    repeat (apply Forall_app; split); apply non_empty_opt; done.
Qed.

Definition is_age (n : Z) : Prop := 0 <= n < 2 ^ 32.

Lemma age_read n : is_age n -> cast (Unsigned 32) (strtoul10 (to_string n)) = n.
Proof. intros Hn. unfold is_age in Hn. rewrite strtoul_to_string by lia. cbn [cast]. apply Z.mod_small. lia. Qed.

Lemma free_opt cs b w : free_of cs w -> Forall (free_of cs) (opt b w).
Proof. intros Hw. destruct b; constructor; [done|constructor]. Qed.

Lemma free_aged cs p n :
  free_of_check cs p = true -> forallb (fun c => negb (isdigit c)) cs = true -> 0 <= n ->
  free_of cs (p ++ to_string n).
Proof.
  intros Hp Hcs Hn. apply free_of_app. split; [by apply free_of_checked|].
  apply free_of_dec; [by apply to_string_dec|]. rewrite forallb_forall in Hcs. apply List.Forall_forall.
  intros c Hc%Hcs. unfold isdigit, in_range in Hc. lia.
Qed.

Lemma cc_words_ok c :
  is_age (CacheControl.maxAge c) -> is_age (CacheControl.sMaxAge c) ->
  Forall (free_of (str ", ")) (cc_words c) /\ non_empty (cc_words c).
Proof.
  intros H1 H2. unfold is_age in *.
  split; repeat (apply Forall_app; split); first [by apply non_empty_opt | apply free_opt];
    first [by apply free_of_checked | apply free_aged; [done|done|lia]].
Qed.

Lemma param_opt c b w : foldl CacheControl.param c (opt b w) = if b then CacheControl.param c w else c.
Proof. by destruct b. Qed.

Lemma param_max_age c n :
  is_age n ->
  CacheControl.param c (str "max-age=" ++ to_string n) =
  let 'CacheControl.mk a b d e f g h i _ s := c in CacheControl.mk a b d e f g h i n s.
Proof.
  intros Hn. pose proof (age_read n Hn) as Ha. unfold is_age in Hn. unfold CacheControl.param.
  rewrite to_lower_chars, map_app, (tolower_dec (to_string n)) by (apply to_string_dec; lia).
  destruct c. rewrite !starts_with_prefix. set (d := to_string n) in *. clearbody d.
  rewrite <- Ha. reflexivity.
Qed.

Lemma param_s_maxage c n :
  is_age n ->
  CacheControl.param c (str "s-maxage=" ++ to_string n) =
  let 'CacheControl.mk a b d e f g h i m _ := c in CacheControl.mk a b d e f g h i m n.
Proof.
  intros Hn. pose proof (age_read n Hn) as Ha. unfold is_age in Hn. unfold CacheControl.param.
  rewrite to_lower_chars, map_app, (tolower_dec (to_string n)) by (apply to_string_dec; lia).
  destruct c. rewrite !starts_with_prefix. set (d := to_string n) in *. clearbody d.
  rewrite <- Ha. reflexivity.
Qed.

(** What each option does to the object, set or not. *)
Lemma param_options ns nc mu pv pb im nt px ma sa b :
  foldl CacheControl.param (CacheControl.mk ns nc mu pv pb im nt px ma sa) (opt b (str "must-revalidate")) =
    CacheControl.mk ns nc mu pv pb im nt px ma sa /\
  foldl CacheControl.param (CacheControl.mk ns nc mu pv pb im nt px ma sa) (opt b (str "proxy-revalidate")) =
    CacheControl.mk ns nc mu pv pb im nt (b || px) ma sa /\
  foldl CacheControl.param (CacheControl.mk ns nc mu pv pb im nt px ma sa) (opt b (str "no-transform")) =
    CacheControl.mk ns nc mu pv pb im (b || nt) px ma sa /\
  foldl CacheControl.param (CacheControl.mk ns nc mu pv pb im nt px ma sa) (opt b (str "immutable")) =
    CacheControl.mk ns nc mu pv pb (b || im) nt px ma sa /\
  foldl CacheControl.param (CacheControl.mk ns nc mu pv pb im nt px ma sa) (opt b (str "no-store")) =
    CacheControl.mk (b || ns) nc mu pv pb im nt px ma sa /\
  foldl CacheControl.param (CacheControl.mk ns nc mu pv pb im nt px ma sa) (opt b (str "no-cache")) =
    CacheControl.mk ns (b || nc) mu pv pb im nt px ma sa /\
  foldl CacheControl.param (CacheControl.mk ns nc mu pv pb im nt px ma sa) (opt b (str "private")) =
    CacheControl.mk ns nc mu (b || pv) pb im nt px ma sa /\
  foldl CacheControl.param (CacheControl.mk ns nc mu pv pb im nt px ma sa) (opt b (str "public")) =
    CacheControl.mk ns nc mu pv (b || pb) im nt px ma sa.
Proof.
  unfold CacheControl.param. rewrite !param_opt. unfold CacheControl.param.
  rewrite !to_lower_chars, !starts_with_prefix. destruct b; repeat split; reflexivity.
Qed.

(** Reading a printed Cache-Control field gives back every option but two:
    must-revalidate, which is printed and never read, comes back unset, and
    no-store, which is set by default and which no text unsets, comes back
    set. *)
Theorem cachecontrol_text_roundtrip c :
  is_age (CacheControl.maxAge c) -> is_age (CacheControl.sMaxAge c) ->
  CacheControl.fromString (CacheControl.toString c) =
  let 'CacheControl.mk _ nocache _ priv pub imm notr prox age sage := c in
  CacheControl.mk true nocache false priv pub imm notr prox age sage.
Proof.
  intros H1 H2. destruct (cc_words_ok c H1 H2) as [Hf Hn]. unfold CacheControl.fromString.
  rewrite cc_toString, split_words; [|by apply made_of_checked|done|done|done].
  assert (E : foldl CacheControl.param CacheControl.new (if bool_decide (cc_words c = []) then [[]] else cc_words c)
    = foldl CacheControl.param CacheControl.new (cc_words c)).
  { case_bool_decide as Ew; [|done]. rewrite Ew. cbn [foldl]. unfold CacheControl.param.
    rewrite to_lower_chars, !starts_with_prefix. by vm_compute. }
  rewrite E. destruct c as [ns nc mu pv pb im nt px ma sa]. unfold cc_words, CacheControl.new.
  cbn [CacheControl.optionMustRevalidate CacheControl.optionProxyRevalidate CacheControl.optionNoTransform
    CacheControl.optionImmutable CacheControl.optionNoStore CacheControl.optionNoCache CacheControl.optionPrivate
    CacheControl.optionPublic CacheControl.maxAge CacheControl.sMaxAge] in *.
  rewrite !foldl_app.
  repeat match goal with
  | |- context [foldl CacheControl.param (CacheControl.mk ?a ?b ?c ?d ?e ?f ?g ?h ?i ?j) (opt ?o _)] =>
      destruct (param_options a b c d e f g h i j o) as (Emu & Epx & Ent & Eim & Ens & Enc & Epv & Epb);
      first [rewrite Emu | rewrite Epx | rewrite Ent | rewrite Eim | rewrite Ens | rewrite Enc | rewrite Epv | rewrite Epb];
      clear Emu Epx Ent Eim Ens Enc Epv Epb
  end.
  rewrite !param_opt, param_max_age by done. rewrite !orb_false_r, !orb_true_r.
  destruct (Z.eqb_spec ma 0) as [->|_]; cbn [negb]; (destruct (Z.eqb_spec sa 0) as [->|_]; [done|]); by rewrite param_s_maxage.
Qed.

(** ** HSTS *)

(** Each word after a separator, without the first separator. *)
Lemma cut_first_separator ws :
  non_empty ws -> let r := flat_map (fun w => str "; " ++ w) ws in
  (if zlen r >? 2 then zdrop 2 r else []) = join (str "; ") ws.
Proof.
  assert (Hj : forall w ws, w ++ flat_map (fun w => str "; " ++ w) ws = join (str "; ") (w :: ws)).
  { intros w l. revert w. induction l as [|w' l IH]; intros w; [apply app_nil_r|]. cbn [flat_map join].
    rewrite <- app_assoc. f_equal. f_equal. apply IH. }
  intros Hw. destruct ws as [|w ws]; [done|]. inversion Hw as [|? ? Hne _]. cbn zeta. cbn [flat_map].
  rewrite <- app_assoc, Hj. change (str "; ") with [";"; " "]%char at 1 3. cbn [app].
  assert (Hl : 0 < zlen (join (str "; ") (w :: ws))).
  { rewrite <- Hj, zlen_app. pose proof (zlen_nonneg (flat_map (fun w => str "; " ++ w) ws)). 
    destruct w as [|c w]; [done|]. rewrite zlen_cons. pose proof (zlen_nonneg w). lia. }
  rewrite !zlen_cons. replace (_ >? 2) with true by lia. by rewrite zdrop_drop.
Qed.

Definition hsts_words (h : HSTS.t) : list bytes :=
  opt (negb (HSTS.m_maxAge h =? 0)) (str "max-age=" ++ to_string (HSTS.m_maxAge h)) ++
  opt (HSTS.isSubdomainIncluded h) (str "includeSubDomains") ++ opt (HSTS.isPreloadEnabled h) (str "preload").

Lemma hsts_words_ok h :
  is_age (HSTS.m_maxAge h) -> Forall (free_of (str "; ")) (hsts_words h) /\ non_empty (hsts_words h).
Proof.
  intros Ha. unfold is_age in Ha. split; repeat (apply Forall_app; split); first [by apply non_empty_opt | apply free_opt];
    first [by apply free_of_checked | apply free_aged; [done|done|lia]].
Qed.

Lemma hsts_toString h :
  HSTS.isActivated h = true -> is_age (HSTS.m_maxAge h) -> HSTS.toString h = join (str "; ") (hsts_words h).
Proof.
  intros Hact Ha. rewrite <- (cut_first_separator (hsts_words h)) by apply (hsts_words_ok h Ha).
  unfold HSTS.toString, hsts_words. rewrite Hact. cbn zeta.
  set (age := str "max-age=" ++ to_string _).
  replace (flat_map _ _) with
    (let r := if negb (HSTS.m_maxAge h =? 0) then [] ++ str "; max-age=" ++ to_string (HSTS.m_maxAge h) else [] in
     let r := if HSTS.isSubdomainIncluded h then r ++ str "; includeSubDomains" else r in
     if HSTS.isPreloadEnabled h then r ++ str "; preload" else r); [done|].
  destruct (negb _), (HSTS.isSubdomainIncluded h), (HSTS.isPreloadEnabled h); cbn [opt app flat_map];
    unfold age; rewrite ?app_nil_r, <- ?app_assoc; reflexivity.
Qed.

(** A printed Strict-Transport-Security field never gives its age back: it
    is read as 0, because the number is looked for at the start of the option
    and not after its name. The two flags come back; a policy that prints
    nothing comes back deactivated. *)
Theorem hsts_age_is_lost h h0 :
  is_age (HSTS.m_maxAge h) ->
  HSTS.fromString (HSTS.toString h) h0 =
  (Ret true,
   if HSTS.isActivated h && (HSTS.isPreloadEnabled h || HSTS.isSubdomainIncluded h || negb (HSTS.m_maxAge h =? 0))
   then HSTS.mk true (HSTS.isPreloadEnabled h) (HSTS.isSubdomainIncluded h) 0
   else HSTS.new).
Proof.
  intros Ha. unfold HSTS.fromString. destruct (HSTS.isActivated h) eqn:Hact.
  2:{ unfold HSTS.toString. by rewrite Hact. }
  destruct (hsts_words_ok h Ha) as [Hf Hn]. rewrite hsts_toString by done.
  rewrite split_words, join_nil; [|done|by apply made_of_checked|done|done|done].
  unfold hsts_words. destruct h as [act pre sub age]. cbn [HSTS.m_maxAge HSTS.isSubdomainIncluded HSTS.isPreloadEnabled].
  assert (Hp : HSTS.part (HSTS.mk true false false 0) (str "max-age=" ++ to_string age) = HSTS.mk true false false 0).
  { unfold HSTS.part. rewrite !iequals_chars, istarts_with_prefix, map_app. set (d := to_string age). clearbody d. reflexivity. }
  assert (Hs : forall p s n, HSTS.part (HSTS.mk true p s n) (str "includeSubDomains") = HSTS.mk true p true n)
    by (intros; unfold HSTS.part; by rewrite !iequals_chars).
  assert (Hq : forall p s n, HSTS.part (HSTS.mk true p s n) (str "preload") = HSTS.mk true true s n)
    by (intros; unfold HSTS.part; by rewrite !iequals_chars).
  cbn [HSTS.setDefaults HSTS.isPreloadEnabled HSTS.isSubdomainIncluded HSTS.m_maxAge].
  destruct (negb (age =? 0)), sub, pre; cbn [opt app orb andb]; rewrite ?bool_decide_false by done;
    cbn [foldl]; rewrite ?Hp, ?Hs, ?Hq; reflexivity.
Qed.

(** ** XFrameOpts *)

(** Reading a printed X-Frame-Options field always gives DENY: the
    URL of ALLOW-FROM is kept, the value is not. *)
Theorem xframeopts_read_as_deny x x0 :
  free_of (str " ") (XFrameOpts.allowFromURL x) ->
  XFrameOpts.fromString (XFrameOpts.toString x) x0 =
  (Ret (negb (XFrameOpts.isNotActivated x)),
   XFrameOpts.mk (if bool_decide (XFrameOpts.value x = XFrameOpts.ALLOWFROM) then XFrameOpts.allowFromURL x else [])
     XFrameOpts.DENY).
Proof.
  intros Hu. destruct x as [url v]. cbn [XFrameOpts.allowFromURL] in Hu.
  assert (Hs : split (str " ") (XFrameOpts.toString (XFrameOpts.mk url v)) =
    match v with
    | XFrameOpts.NONE => [[]]
    | XFrameOpts.DENY => [str "DENY"]
    | XFrameOpts.SAMEORIGIN => [str "SAMEORIGIN"]
    | XFrameOpts.ALLOWFROM => [str "ALLOW-FROM"; url]
    end).
  { destruct v; unfold XFrameOpts.toString; cbn [XFrameOpts.value XFrameOpts.allowFromURL];
      [apply split_nil|by apply split_one, free_of_checked|by apply split_one, free_of_checked|].
    apply (split_join (str " ") (str " ") [str "ALLOW-FROM"; url]);
      [by apply made_of_checked|done| |done]. constructor; [by apply free_of_checked|by constructor]. }
  unfold XFrameOpts.fromString. rewrite Hs. destruct v; rewrite ?iequals_chars; reflexivity.
Qed.

(** ** XSSProtection *)

(** Reading a printed X-XSS-Protection field gives it back, except that
    one with neither blocking nor a report URL comes back blocking, and a
    deactivated one comes back without its options. *)
Theorem xssprotection_text_roundtrip x x0 :
  free_of (str "; ") (XSSProtection.reportURL x) ->
  XSSProtection.fromString (XSSProtection.toString x) x0 =
  (Ret true,
   if XSSProtection.isActivated x
   then XSSProtection.mk true (XSSProtection.enableBlockingMode x || is_nil (XSSProtection.reportURL x))
          (XSSProtection.reportURL x)
   else XSSProtection.mk false true []).
Proof.
  intros Hu. destruct x as [act block url]. cbn [XSSProtection.reportURL] in Hu.
  set (ws := if act then [str "1"] ++ opt block (str "mode=block") ++ opt (negb (is_nil url)) (str "report=" ++ url)
             else [str "0"]).
  assert (Ht : XSSProtection.toString (XSSProtection.mk act block url) = join (str "; ") ws).
  { unfold ws, XSSProtection.toString. cbn [XSSProtection.isActivated XSSProtection.enableBlockingMode XSSProtection.reportURL].
    destruct act, block, (negb (is_nil url)); reflexivity. }
  assert (Hw : Forall (free_of (str "; ")) ws /\ non_empty ws).
  { assert (Hr : free_of (str "; ") (str "report=" ++ url)) by (apply free_of_app; split; [by apply free_of_checked|done]).
    change [str "1"] with (opt true (str "1")) in ws. change [str "0"] with (opt true (str "0")) in ws.
    unfold ws. destruct act; split; repeat (apply Forall_app; split); first [by apply non_empty_opt | apply free_opt];
      first [by apply free_of_checked | exact Hr]. }
  unfold XSSProtection.fromString. rewrite Ht, split_words; [|by apply made_of_checked|done|apply Hw|apply Hw].
  unfold ws. destruct act; cbn [XSSProtection.isActivated XSSProtection.enableBlockingMode XSSProtection.reportURL];
    [|reflexivity].
  assert (Hm : forall b u, XSSProtection.part (XSSProtection.mk true b u) (str "mode=block") = XSSProtection.mk true true u)
    by (intros; unfold XSSProtection.part; by rewrite !iequals_chars).
  assert (Hr : forall b u, XSSProtection.part (XSSProtection.mk true b u) (str "report=" ++ url) = XSSProtection.mk true b url).
  { intros. unfold XSSProtection.part. rewrite !iequals_chars, istarts_with_prefix, map_app, zdrop_drop. reflexivity. }
  destruct (is_nil url) eqn:Eu, block; cbn [negb opt app orb]; rewrite bool_decide_false by done;
    rewrite bool_decide_true by done; cbn [foldl XSSProtection.isActivated]; rewrite ?Hm, ?Hr; try reflexivity;
    by destruct url.
Qed.
End Spec.

(** ** Witnesses *)

Lemma cachecontrol_text_roundtrip_witness :
  CacheControl.fromString (CacheControl.toString (CacheControl.mk false true true false true false false true 3600 0))
  = CacheControl.mk true true false false true false false true 3600 0.
Proof.
  refine (cachecontrol_text_roundtrip (CacheControl.mk false true true false true false false true 3600 0) _ _);
    split; vm_compute; (reflexivity || discriminate).
Defined.

Lemma hsts_age_is_lost_witness :
  HSTS.fromString (HSTS.toString (HSTS.new_with 31536000 true false)) HSTS.new = (Ret true, HSTS.mk true false true 0).
Proof. refine (hsts_age_is_lost (HSTS.new_with 31536000 true false) HSTS.new _). split; vm_compute; (reflexivity || discriminate). Defined.

Lemma xframeopts_read_as_deny_witness :
  XFrameOpts.fromString (XFrameOpts.toString (XFrameOpts.mk (str "http://a.b/") XFrameOpts.ALLOWFROM)) XFrameOpts.new
  = (Ret true, XFrameOpts.mk (str "http://a.b/") XFrameOpts.DENY).
Proof.
  refine (xframeopts_read_as_deny (XFrameOpts.mk (str "http://a.b/") XFrameOpts.ALLOWFROM) XFrameOpts.new _).
  apply free_of_checked. reflexivity.
Defined.

Lemma xssprotection_text_roundtrip_witness :
  XSSProtection.fromString (XSSProtection.toString (XSSProtection.mk true false (str "/report"))) XSSProtection.new
  = (Ret true, XSSProtection.mk true false (str "/report")).
Proof.
  refine (xssprotection_text_roundtrip (XSSProtection.mk true false (str "/report")) XSSProtection.new _).
  apply free_of_checked. reflexivity.
Defined.
