(* ===== verification/HttpChunked.v ===== *)
(** * Chunked transfer encoding (Protocol_HTTP/common_content_chunked_subparser.cpp)

    A destination that writes what it receives to [upStreamOut] in the chunked
    transfer coding, one chunk per write, and ends the coding at the end of the
    stream. *)

From S2P Require Import Prelude SafeInt Mem Encoders CText StreamableObject.

(** The "%X" conversion of an [unsigned int]. *)
Fixpoint hex_digits (fuel : nat) (n : Z) (acc : bytes) : bytes :=
  match fuel with
  | O => acc
  | S fuel =>
      if n <? 16 then hex_digit n :: acc
      else hex_digits fuel (n / 16) (hex_digit (n mod 16) :: acc)
  end.
Definition sprintf_X (n : Z) : bytes := hex_digits 8 n [].


Record ContentChunkedTransformer (S : Type) : Type := mkChunked {
  cct_status : WriteStatus;
  m_pos : Z;
  upStreamOut : S
}.
Arguments mkChunked {S}. Arguments cct_status {S}. Arguments m_pos {S}. Arguments upStreamOut {S}.

Section Chunked.
Context {S : Type} `{Streamable S}.

Definition ContentChunkedTransformer_new (upStreamOut : S) : ContentChunkedTransformer S :=
  mkChunked WriteStatus_new 0 upStreamOut.

(** [writeStatus+=-1] on the object itself. *)
Definition cct_add (x : Z) : st (ContentChunkedTransformer S) unit := fun c =>
  let (r, w) := ws_add x (cct_status c) in (r, mkChunked w (m_pos c) (upStreamOut c)).

Definition on_upstream {A} (f : st S A) : st (ContentChunkedTransformer S) A := fun c =>
  let (r, s) := f (upStreamOut c) in (r, mkChunked (cct_status c) (m_pos c) s).

Definition cct_write (buf : bytes) : st (ContentChunkedTransformer S) (option Z) :=
  let count := zlen buf in
  let! pos := gets m_pos in
  if count =? 0 then
    let! ok := on_upstream (writeString (if pos =? 0 then str "0" ++ CRLF ++ CRLF
                                         else CRLF ++ str "0" ++ CRLF ++ CRLF)) in
    if negb ok then do! cct_add (-1) in ret None else ret (Some 0)
  else if u64 (count + 64) <? count then
    do! cct_add (-1) in
    do! on_upstream (so_add (-1)) in
    ret None
  else
    do! on_upstream (strPrintf (Some ((if pos =? 0 then [] else CRLF) ++ sprintf_X (count mod 2 ^ 32) ++ CRLF))) in
    let! s := gets upStreamOut in
    if negb (so_succeed s) then do! cct_add (-1) in ret None
    else
      let! ok := on_upstream (writeFullStream buf) in
      if negb ok then ret None
      else
        do! modify (fun c => mkChunked (cct_status c) (u64 (m_pos c + count)) (upStreamOut c)) in
        ret (Some count).

#[export] Instance Chunked_stream : Streamable (ContentChunkedTransformer S) := {
  so_status := cct_status;
  so_set_status w c := mkChunked w (m_pos c) (upStreamOut c);
  so_write := cct_write
}.

(** The destructor. *)
Definition cct_destroy : st (ContentChunkedTransformer S) bool := writeEOF.

(** A sequence of writes, until one fails. *)
Fixpoint cct_writes (frags : list bytes) : st (ContentChunkedTransformer S) bool :=
  match frags with
  | [] => ret true
  | f :: frags =>
      let! n := cct_write f in
      match n with
      | Some n => if n =? zlen f then cct_writes frags else ret false
      | None => ret false
      end
  end.
End Chunked.

(** ** A receiver of the coding *)

Fixpoint parse_hex (n : Z) (l : bytes) : Z * bytes :=
  match l with
  | c :: l' => if isxdigit c then parse_hex (n * 16 + hexToValue c) l' else (n, l)
  | [] => (n, [])
  end.

Definition strip_CRLF (l : bytes) : option bytes :=
  match l with
  | a :: b :: l => if bool_decide ([a; b] = CRLF) then Some l else None
  | _ => None
  end.

(** chunk-size CRLF chunk-data CRLF, up to the chunk of size 0. *)
Fixpoint chunked_decode (fuel : nat) (l : bytes) : option bytes :=
  match fuel with
  | O => None
  | S fuel =>
      let (n, l) := parse_hex 0 l in
      match strip_CRLF l with
      | None => None
      | Some l =>
          if n =? 0 then match strip_CRLF l with Some [] => Some [] | _ => None end
          else if zlen l <? n then None
          else match strip_CRLF (zdrop n l) with
               | None => None
               | Some rest => option_map (app (ztake n l)) (chunked_decode fuel rest)
               end
      end
  end.

(** What a sequence of writes and the end of the stream send. *)
Definition chunked_text (frags : list bytes) : bytes :=
  flat_map (fun f => sprintf_X (zlen f) ++ CRLF ++ f ++ CRLF) frags ++ str "0" ++ CRLF ++ CRLF.

(** ** Lemmas *)

Lemma hex_digit_value n : 0 <= n < 16 -> isxdigit (hex_digit n) = true /\ hexToValue (hex_digit n) = n.
Proof.
  intros Hn. assert (Hall : forallb (fun n => let z := Z.of_nat n in
    isxdigit (hex_digit z) && (hexToValue (hex_digit z) =? z)) (seq 0 16) = true) by (vm_compute; reflexivity).
  rewrite forallb_forall in Hall. specialize (Hall (Z.to_nat n)). simpl in Hall.
  rewrite Z2Nat.id in Hall by lia. assert (Hin : In (Z.to_nat n) (seq 0 16)) by (apply in_seq; lia).
  specialize (Hall Hin). apply andb_true_iff in Hall as [H1 H2%Z.eqb_eq]. done.
Qed.

Lemma parse_hex_digits fuel n acc l :
  0 <= n < 16 ^ Z.of_nat fuel -> (0 < fuel)%nat ->
  parse_hex 0 (hex_digits fuel n acc ++ l) = parse_hex n (acc ++ l).
Proof.
  revert n acc. induction fuel as [|fuel IH]; intros n acc Hn Hf; [lia|]. cbn [hex_digits].
  case_cond; zbool.
  - destruct (hex_digit_value n) as [Hx Hv]; [lia|]. cbn [app parse_hex]. rewrite Hx, Hv. done.
  - rewrite Nat2Z.inj_succ, Z.pow_succ_r in Hn by lia. destruct fuel as [|fuel]; [simpl in Hn; lia|].
    rewrite IH; [|divlia|lia]. destruct (hex_digit_value (n mod 16)) as [Hx Hv]; [divlia|].
    cbn [app parse_hex]. rewrite Hx, Hv. f_equal. divlia.
Qed.

Lemma parse_sprintf_X n l :
  0 <= n < 2 ^ 32 -> parse_hex 0 (sprintf_X n ++ CRLF ++ l) = (n, CRLF ++ l).
Proof. intros Hn. unfold sprintf_X. by rewrite parse_hex_digits by lia. Qed.

Lemma hex_digits_length fuel n acc : zlen (hex_digits fuel n acc) <= Z.of_nat fuel + zlen acc.
Proof.
  revert n acc. induction fuel as [|fuel IH]; intros n acc; cbn [hex_digits]; [lia|].
  case_cond; [rewrite zlen_cons; lia|]. pose proof (IH (n / 16) (hex_digit (n mod 16) :: acc)) as Hl.
  rewrite zlen_cons in Hl. lia.
Qed.

Lemma chunked_decode_text frags :
  Forall (fun f => (f <> []) /\ (zlen f < 2 ^ 32)) frags ->
  chunked_decode (S (length frags)) (chunked_text frags) = Some (concat frags).
Proof.
  induction 1 as [|f frags [Hne Hf] _ IH]; [vm_compute; reflexivity|]. pose proof (zlen_pos f Hne).
  change (length (f :: frags)) with (S (length frags)).
  revert IH. generalize (S (length frags)). intros k IH.
  unfold chunked_text in *. cbn [flat_map chunked_decode].
  set (rest := flat_map _ frags ++ _) in *.
  rewrite <- !app_assoc. fold rest. rewrite parse_sprintf_X by lia.
  change (strip_CRLF (CRLF ++ ?x)) with (Some x). cbn iota.
  replace (zlen f =? 0) with false by lia. pose proof (zlen_nonneg (CRLF ++ rest)).
  replace (zlen (f ++ CRLF ++ rest) <? zlen f) with false by (rewrite zlen_app; lia).
  rewrite zdrop_length_app, ztake_length_app. change (strip_CRLF (CRLF ++ rest)) with (Some rest). cbn iota.
  by rewrite IH.
Qed.

Section ChunkedSpec.
Context {S : Type} `{FullSink S}.

Lemma on_upstream_write (c : ContentChunkedTransformer S) buf :
  sink_ok (upStreamOut c) -> zlen buf <= SSIZE_MAX -> zlen buf <= sink_room (upStreamOut c) ->
  exists s, on_upstream (writeFullStream buf) c = (Ret true, mkChunked (cct_status c) (m_pos c) s) /\ sink_ok s /\
    sink_view s = sink_view (upStreamOut c) ++ buf /\ sink_room (upStreamOut c) - zlen buf <= sink_room s.
Proof.
  intros Hok Hl Hr. destruct (writeFullStream_full _ buf Hok Hl Hr) as (s & Hw & Hrest).
  exists s. unfold on_upstream. rewrite Hw. done.
Qed.

(** One chunk. *)
Definition chunk_of (pos : Z) (f : bytes) : bytes :=
  (if pos =? 0 then [] else CRLF) ++ sprintf_X (zlen f) ++ CRLF ++ f.

Lemma sprintf_X_length n : zlen (sprintf_X n) <= 8.
Proof. unfold sprintf_X. pose proof (hex_digits_length 8 n []) as Hl. change (zlen (@nil ascii)) with 0 in Hl. lia. Qed.

Lemma cct_write_chunk (c : ContentChunkedTransformer S) f :
  f <> [] -> zlen f < 2 ^ 32 -> sink_ok (upStreamOut c) -> 0 <= m_pos c ->
  m_pos c + zlen f <= SSIZE_MAX -> zlen f + 12 <= sink_room (upStreamOut c) ->
  exists s, cct_write f c = (Ret (Some (zlen f)), mkChunked (cct_status c) (m_pos c + zlen f) s) /\ sink_ok s /\
    sink_view s = sink_view (upStreamOut c) ++ chunk_of (m_pos c) f /\
    sink_room (upStreamOut c) - (zlen f + 12) <= sink_room s.
Proof.
  intros Hne Hf Hok Hp Hm Hr. pose proof (zlen_pos f Hne). unfold cct_write, bind at 1, gets.
  replace (zlen f =? 0) with false by lia.
  rewrite u64_small by (unfold is_size, SIZE_MAX in *; lia). replace (zlen f + 64 <? zlen f) with false by lia.
  rewrite (Z.mod_small (zlen f)) by lia.
  set (head := (if m_pos c =? 0 then [] else CRLF) ++ sprintf_X (zlen f) ++ CRLF).
  assert (Hhl : 0 <= zlen head <= 12).
  { split; [apply zlen_nonneg|]. unfold head. rewrite !zlen_app. pose proof (sprintf_X_length (zlen f)).
    change (zlen CRLF) with 2. case_cond; [change (zlen (@nil ascii)) with 0|change (zlen CRLF) with 2]; lia. }
  destruct (writeFullStream_full (upStreamOut c) head Hok) as (s1 & Hw1 & Hok1 & Hv1 & Hr1);
    [unfold SSIZE_MAX; lia|lia|].
  unfold bind at 1, on_upstream at 1, strPrintf, writeString, bind at 1. rewrite Hw1.
  unfold ret at 1. unfold bind at 1. cbn [upStreamOut]. rewrite (sink_ok_succeed s1 Hok1). cbn [negb].
  destruct (on_upstream_write (mkChunked (cct_status c) (m_pos c) s1) f) as (s2 & Hw2 & Hok2 & Hv2 & Hr2);
    [done|unfold SSIZE_MAX; lia|cbn [upStreamOut]; lia|].
  unfold bind at 1. rewrite Hw2. cbn [negb m_pos cct_status upStreamOut] in *. unfold bind at 1, modify. cbn [m_pos cct_status upStreamOut].
  exists s2. rewrite u64_small by (apply size_arith; lia). split; [done|]. split; [done|].
  split; [|lia]. rewrite Hv2, Hv1. unfold chunk_of, head. by rewrite <- !app_assoc.
Qed.

Lemma cct_writes_chunks (c : ContentChunkedTransformer S) frags :
  Forall (fun f => (f <> []) /\ (zlen f < 2 ^ 32)) frags -> sink_ok (upStreamOut c) -> 0 <= m_pos c ->
  m_pos c + zlen (concat frags) <= SSIZE_MAX ->
  zlen (concat frags) + 12 * zlen frags + 7 <= sink_room (upStreamOut c) ->
  exists c' c'', cct_writes frags c = (Ret true, c') /\ cct_write [] c' = (Ret (Some 0), c'') /\
    sink_ok (upStreamOut c'') /\
    sink_view (upStreamOut c'') =
      sink_view (upStreamOut c) ++ (if m_pos c =? 0 then [] else CRLF) ++ chunked_text frags.
Proof.
  intros Hf. revert c. induction Hf as [|f frags [Hne Hlt] _ IH]; intros c Hok Hp Hm Hr.
  - change (zlen (@nil bytes)) with 0 in Hr. change (zlen (concat [])) with 0 in Hr.
    assert (Hend : exists s, on_upstream (writeString (if m_pos c =? 0 then str "0" ++ CRLF ++ CRLF
          else CRLF ++ str "0" ++ CRLF ++ CRLF)) c = (Ret true, mkChunked (cct_status c) (m_pos c) s) /\
        sink_ok s /\ sink_view s = sink_view (upStreamOut c) ++ (if m_pos c =? 0 then [] else CRLF) ++ chunked_text []).
    { destruct (m_pos c =? 0).
      - destruct (on_upstream_write c (str "0" ++ CRLF ++ CRLF)) as (s & ? & ? & ? & _);
          [done|vm_compute; discriminate|change (zlen (str "0" ++ CRLF ++ CRLF)) with 5; lia|]. by exists s.
      - destruct (on_upstream_write c (CRLF ++ str "0" ++ CRLF ++ CRLF)) as (s & ? & ? & ? & _);
          [done|vm_compute; discriminate|change (zlen (CRLF ++ str "0" ++ CRLF ++ CRLF)) with 7; lia|]. by exists s. }
    destruct Hend as (s & Hw & Hok' & Hv). exists c, (mkChunked (cct_status c) (m_pos c) s).
    split; [done|]. split; [|done]. unfold cct_write, bind at 1, gets. change (zlen (@nil ascii) =? 0) with true. cbn iota.
    unfold bind. by rewrite Hw.
  - cbn [concat] in *. rewrite zlen_app in *. rewrite (zlen_cons f frags) in Hr. pose proof (zlen_pos f Hne).
    pose proof (zlen_nonneg (concat frags)). pose proof (zlen_nonneg frags).
    destruct (cct_write_chunk c f) as (s & Hw & Hok1 & Hv1 & Hr1); [done|done|done|done|lia|lia|].
    destruct (IH (mkChunked (cct_status c) (m_pos c + zlen f) s)) as (c' & c'' & Hws & He & Hok' & Hv');
      [done|cbn [m_pos]; lia|cbn [m_pos]; lia|cbn [upStreamOut]; lia|].
    exists c', c''. split; [cbn [cct_writes]; unfold bind; rewrite Hw, Z.eqb_refl; exact Hws|]. split; [done|]. split; [done|].
    rewrite Hv'. cbn [m_pos upStreamOut]. replace (m_pos c + zlen f =? 0) with false by lia.
    rewrite Hv1. unfold chunk_of, chunked_text. cbn [flat_map]. by rewrite <- !app_assoc.
Qed.

(** For any sequence of non-empty writes of less than 4 GiB and the end
    of the stream, over any destination with room, every write succeeds, and
    what is sent is a well-formed chunked body: a receiver decodes it to
    exactly the concatenation of the writes. *)
Theorem chunked_roundtrip (s : S) frags :
  Forall (fun f => (f <> []) /\ (zlen f < 2 ^ 32)) frags -> sink_ok s ->
  zlen (concat frags) <= SSIZE_MAX -> zlen (concat frags) + 12 * zlen frags + 7 <= sink_room s ->
  exists c' c'' sent, cct_writes frags (ContentChunkedTransformer_new s) = (Ret true, c') /\
    cct_write [] c' = (Ret (Some 0), c'') /\
    sink_view (upStreamOut c'') = sink_view s ++ sent /\
    chunked_decode (Datatypes.S (length frags)) sent = Some (concat frags).
Proof.
  intros Hf Hok Hm Hr.
  destruct (cct_writes_chunks (ContentChunkedTransformer_new s) frags) as (c' & c'' & Hw & He & _ & Hv);
    [done|done|done|done|done|].
  exists c', c'', (chunked_text frags). split; [done|]. split; [done|]. split; [exact Hv|].
  by apply chunked_decode_text.
Qed.
End ChunkedSpec.

Lemma chunked_roundtrip_witness :
  exists c' c'' sent,
    cct_writes [str "hello"; str ", world"] (ContentChunkedTransformer_new StreamableString_new) = (Ret true, c') /\
    cct_write [] c' = (Ret (Some 0), c'') /\ m_value (upStreamOut c'') = sent /\
    chunked_decode 3 sent = Some (str "hello, world").
Proof.
  destruct (chunked_roundtrip StreamableString_new [str "hello"; str ", world"]) as (c' & c'' & sent & Hw & He & Hv & Hd).
  - repeat constructor; discriminate.
  - split; [reflexivity|]. split; [reflexivity|]. split; vm_compute; discriminate.
  - vm_compute. discriminate.
  - vm_compute. discriminate.
  - exists c', c'', sent. split; [exact Hw|]. split; [exact He|]. split; [exact Hv|exact Hd].
Defined.
