(* ===== verification/HttpContent.v ===== *)
(** * The body of an HTTP message (Protocol_HTTP/common_content.cpp)

    Content is the element parser of a message body: with a content length, in
    the chunked transfer coding, or up to the end of the connection. What it
    receives goes to [m_outStream], any stream; what it sends comes from it, a
    container. [BodyReceiver] is the last stage of the client protocol, when
    the body is the current element parser.

    The specification reads the body one byte at a time. *)

From S2P Require Import Prelude Mem SafeInt CText StreamableObject BBase BMem BChunk BChunks BChunksFacts BChunksSpec BRef SubParser SubParserSpec Parser Preserves Lens Lines HttpChunked.

Inductive eDataType : Type :=
| CONTENT_TYPE_BIN
| CONTENT_TYPE_MIME
| CONTENT_TYPE_URL
| CONTENT_TYPE_JSON.

Inductive eProcessingMode : Type :=
| PROCMODE_CHUNK_SIZE
| PROCMODE_CHUNK_DATA
| PROCMODE_CHUNK_CRLF
| PROCMODE_CONTENT_LENGTH
| PROCMODE_CONNECTION_CLOSE.

Inductive eTransmitionMode : Type :=
| TRANSMIT_MODE_CHUNKS
| TRANSMIT_MODE_CONTENT_LENGTH
| TRANSMIT_MODE_CONNECTION_CLOSE.

Record Content (M S : Type) : Type := mkContent {
  ct_base : SubParser M;
  m_outStream : S;
  m_usingInternalOutStream : bool;
  m_transmitionMode : eTransmitionMode;
  m_currentMode : eProcessingMode;
  m_containerType : eDataType;
  m_securityMaxPostDataSize : Z;
  m_currentContentLengthSize : Z;
  m_securityMaxHttpChunkSize : Z
}.
Arguments mkContent {M S}. Arguments ct_base {M S}. Arguments m_outStream {M S}.
Arguments m_usingInternalOutStream {M S}. Arguments m_transmitionMode {M S}.
Arguments m_currentMode {M S}. Arguments m_containerType {M S}.
Arguments m_securityMaxPostDataSize {M S}. Arguments m_currentContentLengthSize {M S}.
Arguments m_securityMaxHttpChunkSize {M S}.

(** The stream that [setContainerType] makes for each type of data. *)
Class ContentStreams (S : Type) : Type := fresh : eDataType -> S.

(** [UINT32_MAX], the answer of [parseHttpChunkSize] on an error. *)
Definition NO_CHUNK : Z := 2 ^ 32 - 1.

Section Content.
Context {M : Type} `{BBase M, MmapFactory M} {S : Type} `{Streamable S}.
Abbreviation Content := (Content M S).

Definition set_base (s : SubParser M) (c : Content) : Content :=
  mkContent s (m_outStream c) (m_usingInternalOutStream c) (m_transmitionMode c) (m_currentMode c)
    (m_containerType c) (m_securityMaxPostDataSize c) (m_currentContentLengthSize c) (m_securityMaxHttpChunkSize c).
Definition set_out (s : S) (c : Content) : Content :=
  mkContent (ct_base c) s (m_usingInternalOutStream c) (m_transmitionMode c) (m_currentMode c)
    (m_containerType c) (m_securityMaxPostDataSize c) (m_currentContentLengthSize c) (m_securityMaxHttpChunkSize c).
Definition set_modes (t : eTransmitionMode) (m : eProcessingMode) (c : Content) : Content :=
  mkContent (ct_base c) (m_outStream c) (m_usingInternalOutStream c) t m
    (m_containerType c) (m_securityMaxPostDataSize c) (m_currentContentLengthSize c) (m_securityMaxHttpChunkSize c).
Definition set_length (n : Z) (c : Content) : Content :=
  mkContent (ct_base c) (m_outStream c) (m_usingInternalOutStream c) (m_transmitionMode c) (m_currentMode c)
    (m_containerType c) (m_securityMaxPostDataSize c) n (m_securityMaxHttpChunkSize c).
Definition on_base (f : SubParser M -> SubParser M) (c : Content) : Content := set_base (f (ct_base c)) c.

(** The constructor, with the stream [m_outStream] starts with. *)
Definition Content_new (out : S) : Content :=
  mkContent (set_subParserName "Content" SubParser_new) out true TRANSMIT_MODE_CONNECTION_CLOSE
    PROCMODE_CONTENT_LENGTH CONTENT_TYPE_BIN (17 * (KB_MULT * KB_MULT)) 0 (16 * (KB_MULT * KB_MULT)).

Definition setSecurityMaxPostDataSize (value : Z) (c : Content) : Content :=
  mkContent (ct_base c) (m_outStream c) (m_usingInternalOutStream c) (m_transmitionMode c) (m_currentMode c)
    (m_containerType c) value (m_currentContentLengthSize c) (m_securityMaxHttpChunkSize c).
Definition setSecurityMaxHttpChunkSize (value : Z) (c : Content) : Content :=
  mkContent (ct_base c) (m_outStream c) (m_usingInternalOutStream c) (m_transmitionMode c) (m_currentMode c)
    (m_containerType c) (m_securityMaxPostDataSize c) (m_currentContentLengthSize c) value.

(** [setStreamableObj] with a stream. *)
Definition setStreamableObj (out : S) (c : Content) : Content :=
  mkContent (ct_base c) out false (m_transmitionMode c) (m_currentMode c)
    (m_containerType c) (m_securityMaxPostDataSize c) (m_currentContentLengthSize c) (m_securityMaxHttpChunkSize c).

(** The new stream, if the content has one of its own. *)
Definition setContainerType `{ContentStreams S} (value : eDataType) (c : Content) : Content :=
  mkContent (ct_base c) (if m_usingInternalOutStream c then fresh value else m_outStream c) (m_usingInternalOutStream c)
    (m_transmitionMode c) (m_currentMode c) value (m_securityMaxPostDataSize c) (m_currentContentLengthSize c) (m_securityMaxHttpChunkSize c).

(** [setStreamableObj] with a null pointer. *)
Definition set_internal `{ContentStreams S} (c : Content) : Content :=
  setContainerType (m_containerType c)
    (mkContent (ct_base c) (m_outStream c) true (m_transmitionMode c) (m_currentMode c)
      (m_containerType c) (m_securityMaxPostDataSize c) (m_currentContentLengthSize c) (m_securityMaxHttpChunkSize c)).

(** The message itself is [m_outStream]. *)
Definition getMultiPartVars (c : Content) : res S :=
  match m_containerType c, m_usingInternalOutStream c with
  | CONTENT_TYPE_MIME, true => Ret (m_outStream c)
  | _, _ => Exc (runtime_error "Invalid operation: getMultiPartVars should not be called when the content type is not MIME.")
  end.

Definition setTransmitionMode (value : eTransmitionMode) (c : Content) : Content :=
  match value with
  | TRANSMIT_MODE_CONNECTION_CLOSE =>
      let c := set_modes value PROCMODE_CONNECTION_CLOSE c in
      on_base (fun s => setParseDataTargetSize (m_securityMaxPostDataSize c) (setParseMode PARSE_MODE_DIRECT s)) c
  | TRANSMIT_MODE_CHUNKS =>
      let c := set_modes value PROCMODE_CHUNK_SIZE c in
      on_base (fun s => setParseDataTargetSize 64 (setParseDelimiter CRLF (setParseMode PARSE_MODE_DELIMITER s))) c
  | TRANSMIT_MODE_CONTENT_LENGTH =>
      let c := set_modes value PROCMODE_CONTENT_LENGTH c in
      on_base (setParseMode PARSE_MODE_DIRECT) c
  end.

Definition setContentLenSize (contentLengthSize : Z) (c : Content) : bool * Content :=
  if contentLengthSize >? m_securityMaxPostDataSize c then
    (false, on_base (setParseDataTargetSize 0) (set_length 0 c))
  else (true, on_base (setParseDataTargetSize contentLengthSize) (set_length contentLengthSize c)).

(** *** Receiving *)

Definition on_out {A} (f : st S A) : st Content A := fun c =>
  let (r, s) := f (m_outStream c) in (r, set_out s c).

Definition parseHttpChunkSize (c : Content) : Z :=
  match toUInt32 (getParsedBuffer (ct_base c)) 16 SIZE_MAX 0 with
  | None => NO_CHUNK
  | Some parsedSize => if parsedSize >? m_securityMaxHttpChunkSize c then NO_CHUNK else parsedSize
  end.

(** [getParsedBuffer()->appendTo( *m_outStream )]. *)
Definition parsed_to_out : st Content unit := fun c =>
  (do! on_out (appendTo (getParsedBuffer (ct_base c)) SIZE_MAX 0) in ret tt) c.

Definition Content_parse : st Content ParseStatus := fun c =>
  match m_currentMode c with
  | PROCMODE_CHUNK_SIZE =>
      let targetChunkSize := parseHttpChunkSize c in
      if negb (targetChunkSize =? NO_CHUNK) then
        if targetChunkSize >? 0 then
          (Ret PARSE_GET_MORE_DATA,
           set_modes (m_transmitionMode c) PROCMODE_CHUNK_DATA
             (on_base (fun s => setParseDataTargetSize targetChunkSize (setParseMode PARSE_MODE_SIZE s)) c))
        else (do! on_out writeEOF in ret PARSE_GOTO_NEXT_SUBPARSER) c
      else (Ret PARSE_ERROR, c)
  | PROCMODE_CHUNK_DATA =>
      let c := on_base (fun s => setParseDataTargetSize 2 (setParseMode PARSE_MODE_SIZE s)) c in
      let c := set_modes (m_transmitionMode c) PROCMODE_CHUNK_CRLF c in
      (do! parsed_to_out in ret PARSE_GET_MORE_DATA) c
  | PROCMODE_CHUNK_CRLF =>
      let c := on_base (fun s => setParseDataTargetSize (1 * KB_MULT)
                                   (setParseDelimiter CRLF (setParseMode PARSE_MODE_DELIMITER s))) c in
      (Ret PARSE_GET_MORE_DATA, set_modes (m_transmitionMode c) PROCMODE_CHUNK_SIZE c)
  | PROCMODE_CONTENT_LENGTH =>
      (do! parsed_to_out in
       let! c := gets id in
       if getUnparsedDataSize (ct_base c) >? 0 then ret PARSE_GET_MORE_DATA
       else do! on_out writeEOF in ret PARSE_GOTO_NEXT_SUBPARSER) c
  | PROCMODE_CONNECTION_CLOSE =>
      if negb (BRef.size (getParsedBuffer (ct_base c)) =? 0) then
        (do! parsed_to_out in ret PARSE_GET_MORE_DATA) c
      else (do! on_out writeEOF in ret PARSE_GOTO_NEXT_SUBPARSER) c
  end.
End Content.

(** *** The element parser *)

Section Element.
Context {M : Type} `{BBase M, MmapFactory M} {S : Type} `{Streamable S}.

#[export] Instance Content_sub : SubParserImpl M (Content M S) := {
  sp := ct_base;
  sp_set := set_base;
  parse := Content_parse
}.

#[export] Instance Content_laws : SubParserLaws M (Content M S).
Proof. split; [done|done|by intros []]. Qed.
End Element.

(** *** Sending, from a container *)

(** [streamToUpstream]. The destructor of the transformer ends the coding,
    also when the transfer throws. *)
Definition streamToUpstream {M C U} `{BBase C} `{Streamable U} (c : Content M C) : st U bool := fun m_upStream =>
  match m_transmitionMode c with
  | TRANSMIT_MODE_CHUNKS =>
      let (r, chunked) := streamTo (m_outStream c) (ContentChunkedTransformer_new m_upStream) in
      let (d, chunked) := cct_destroy chunked in
      match r, d with
      | Exc e, _ | Ret _, Exc e => (Exc e, upStreamOut chunked)
      | Ret _, Ret _ => (Ret (so_succeed (m_outStream c)), upStreamOut chunked)
      end
  | _ => (do! streamTo (m_outStream c) in ret (so_succeed (m_outStream c))) m_upStream
  end.

(** ** The last stage of the client protocol *)

Section BodyReceiver.
Context {M : Type} `{BBase M, MmapFactory M} {S : Type} `{Streamable S}.

Record BodyReceiver : Type := mkBody {
  br_data : ParserData;
  br_current : option unit;
  br_content : Content M S
}.

Definition set_content (c : Content M S) (p : BodyReceiver) : BodyReceiver :=
  mkBody (br_data p) (br_current p) c.

(** A client whose headers have been received. *)
Definition BodyReceiver_new (c : Content M S) : BodyReceiver :=
  mkBody (set_initialized true (ParserData_new true)) (Some tt) c.

#[export] Instance BodyReceiver_sub : SubParserImpl M BodyReceiver := {
  sp p := ct_base (br_content p);
  sp_set s p := set_content (set_base s (br_content p)) p;
  parse p := let (r, c) := Content_parse (br_content p) in (r, set_content c p)
}.

#[export] Instance BodyReceiver_laws : SubParserLaws M BodyReceiver.
Proof. split; [done|done|by intros [? ? []]]. Qed.

#[export] Instance BodyReceiver_element : ElementOf br_content set_content.
Proof. split; [split; [done|done|by intros []]|done|done|done]. Qed.

(** After the body there is no element parser left. *)
Definition changeToNextParser : st BodyReceiver bool := fun p =>
  (Ret true, mkBody (br_data p) None (br_content p)).

#[export] Instance BodyReceiver_protocol : Protocol M BodyReceiver := {
  pd := br_data;
  pd_set d p := mkBody d (br_current p) (br_content p);
  sub_id := unit;
  sub_impl _ := BodyReceiver_sub;
  m_currentParser := br_current;
  initProtocol := ret true;
  endProtocol := ret tt;
  changeToNextParser := changeToNextParser
}.
End BodyReceiver.
Arguments BodyReceiver : clear implicits.

(** ** The specification: one byte at a time *)

(** What is being read: a line with the size of a chunk, of at most [limit]
    bytes with its end; [n] bytes of a chunk; the end of a chunk; a body of
    which [n] bytes are missing; a body of at most [n] bytes more. *)
Inductive phase : Type :=
| SizeLine (limit : Z)
| ChunkData (n : Z)
| ChunkEnd
| Length (n : Z)
| ToClose (n : Z).

(** A reader that goes on has a phase, what it has read in it, and the body so
    far; one that has finished, the body and what it has not read. [Beyond]
    stands for a chunk larger than the number of pieces its buffer can hold. *)
Definition body_state : Type := phase * bytes * bytes.
Abbreviation Going ph pending body := (@Goes body_state bytes (ph, pending, body)).
Abbreviation Finished body rest := (@Ends body_state bytes body rest).
Abbreviation Refused := (@Refuses body_state bytes).
Abbreviation Beyond := (@Unspecified body_state bytes).

(** The size in a line, as the library reads it. *)
Definition line_size (maxChunk : Z) (line : bytes) : option Z :=
  match strtoul 16 line with
  | Some (n, []) => let n := n mod 2 ^ 32 in if n >? maxChunk then None else Some n
  | _ => None
  end.

(** What the line of a size begins. *)
Definition after_size (maxChunk pieces : Z) (body line : bytes) : reading body_state bytes :=
  match line_size maxChunk line with
  | None => Refused
  | Some n => if n =? 0 then Finished body []
              else if n >? pieces then Beyond
              else Going (ChunkData n) [] body
  end.

Definition read_byte (maxChunk pieces : Z) (x : body_state) (b : ascii) : reading body_state bytes :=
  let '(ph, pending, body) := x in
  let p := pending ++ [b] in
  match ph with
  | SizeLine limit =>
      line_byte limit (fun pending => (SizeLine limit, pending, body)) (after_size maxChunk pieces body) pending b
  | ChunkData n => if zlen p =? n then Going ChunkEnd [] (body ++ p) else Going ph p body
  | ChunkEnd => if zlen p =? 2 then Going (SizeLine (1 * KB_MULT)) [] body else Going ph p body
  | Length n => if n =? 1 then Finished (body ++ p) [] else Going (Length (n - 1)) [] (body ++ p)
  | ToClose n => if n =? 0 then Refused else Going (ToClose (n - 1)) [] (body ++ p)
  end.

Abbreviation read maxChunk pieces := (reads (read_byte maxChunk pieces)).

(** The text of a body in chunks, without the end of line that follows the
    last one: the reader finishes before it. *)
Definition chunked_body (frags : list bytes) : bytes :=
  flat_map (fun f => sprintf_X (zlen f) ++ CRLF ++ f ++ CRLF) frags ++ str "0" ++ CRLF.

Lemma chunked_text_body frags : chunked_text frags = chunked_body frags ++ CRLF.
Proof. unfold chunked_text, chunked_body. by rewrite <- !app_assoc. Qed.
