(* ===== verification/HttpContentSpec.v ===== *)
(** * What the receiver of an HTTP body does

    The receiver, through the layers of the element parser and of the protocol
    parser, against the reader of HttpContent.v, for any way of cutting the
    body into writes; and the sender and the receiver together. *)

From S2P Require Import Prelude Mem SafeInt CText StreamableObject BBase BMem BChunk BChunks BChunksFacts BChunksSpec BRef SubParser SubParserSpec Parser Preserves Lens Lines HttpChunked HttpContent.

(** A destination that takes the end of the stream and keeps what it has
    received. *)
Class AcceptsEOF (S : Type) `{Sink S} : Prop :=
  eof_written s : sink_ok s -> exists b s', writeEOF s = (Ret b, s') /\ sink_view s' = sink_view s.

#[export] Instance StreamableString_eof : AcceptsEOF StreamableString.
Proof.
  intros s (Hs & Hf & Hb). destruct s as [[w f n e] v]. simpl in *. subst w f.
  eexists _, _. split; [reflexivity|]. simpl. by rewrite app_nil_r.
Qed.

(** The chunked container, the default destination, refuses the end of the
    stream, and keeps its bytes. *)
#[export] Instance B_Chunks_eof {M} `{BBase M, MmapFactory M} : AcceptsEOF (B_Chunks M).
Proof.
  intros c [(Hwf & Hro & _) (Hs & Hf & _)].
  assert (Ha : append [] c = (Ret None, c)).
  { unfold append. cbn [b_get v_size B_Chunks_container]. rewrite size_ck by done. change (zlen []) with 0. pose proof (zlen_nonneg (ck_view c)).
    destruct Hwf as (_ & _ & _ & Hl). rewrite overflow_sum_false by (unfold SIZE_MAX, SSIZE_MAX in *; lia). rewrite Hro. by case_cond. }
  unfold writeEOF, bind. cbn [so_write BBase_stream]. unfold BBase.write. rewrite Ha. unfold ws_add. cbn [b_get B_Chunks_container].
  rewrite Hs, Hf. eexists _, _. split; reflexivity.
Qed.

Section Reader.
Context (maxChunk pieces : Z).
Abbreviation read := (reads (read_byte maxChunk pieces)).

(** *** Sizes *)

Lemma read_data n pending body l :
  zlen pending + zlen l < n ->
  read (Going (ChunkData n) pending body) l = Going (ChunkData n) (pending ++ l) body.
Proof.
  revert pending. induction l as [|b l IH]; intros pending Hl; [by rewrite app_nil_r|].
  cbn [reads HttpContent.read_byte]. rewrite zlen_cons in Hl. pose proof (zlen_nonneg l).
  assert (Hz : zlen (pending ++ [b]) = zlen pending + 1) by (rewrite zlen_app; done).
  replace (zlen (pending ++ [b]) =? n) with false by lia. rewrite IH by lia. by rewrite <- app_assoc.
Qed.

Lemma read_data_end n pending body l :
  zlen pending + zlen l = n -> l <> [] ->
  read (Going (ChunkData n) pending body) l = Going ChunkEnd [] (body ++ pending ++ l).
Proof.
  intros Hl Hne. destruct (exists_last Hne) as (l' & b & ->). rewrite zlen_app in Hl.
  change (zlen [b]) with 1 in Hl. rewrite reads_app, read_data by lia.
  cbn [reads HttpContent.read_byte]. rewrite <- app_assoc, !zlen_app. change (zlen [b]) with 1.
  by replace (zlen pending + (zlen l' + 1) =? n) with true by lia.
Qed.

Lemma read_end pending body l :
  zlen pending + zlen l < 2 ->
  read (Going ChunkEnd pending body) l = Going ChunkEnd (pending ++ l) body.
Proof.
  revert pending. induction l as [|b l IH]; intros pending Hl; [by rewrite app_nil_r|].
  cbn [reads HttpContent.read_byte]. rewrite zlen_cons in Hl. pose proof (zlen_nonneg l).
  assert (Hz : zlen (pending ++ [b]) = zlen pending + 1) by (rewrite zlen_app; done).
  replace (zlen (pending ++ [b]) =? 2) with false by lia. rewrite IH by lia. by rewrite <- app_assoc.
Qed.

Lemma read_end_end pending body l :
  zlen pending + zlen l = 2 -> l <> [] ->
  read (Going ChunkEnd pending body) l = Going (SizeLine (1 * KB_MULT)) [] body.
Proof.
  intros Hl Hne. destruct (exists_last Hne) as (l' & b & ->). rewrite zlen_app in Hl.
  change (zlen [b]) with 1 in Hl. rewrite reads_app, read_end by lia.
  cbn [reads HttpContent.read_byte]. rewrite !zlen_app. change (zlen [b]) with 1.
  by replace (zlen pending + zlen l' + 1 =? 2) with true by lia.
Qed.

Lemma read_length n body l :
  zlen l < n -> read (Going (Length n) [] body) l = Going (Length (n - zlen l)) [] (body ++ l).
Proof.
  revert n body. induction l as [|b l IH]; intros n body Hl.
  { rewrite app_nil_r. change (zlen (@nil ascii)) with 0. by rewrite Z.sub_0_r. }
  rewrite zlen_cons in *. pose proof (zlen_nonneg l). cbn [reads HttpContent.read_byte].
  replace (n =? 1) with false by lia. rewrite IH by lia. rewrite <- app_assoc. do 4 f_equal. lia.
Qed.

Lemma read_length_end n body l :
  zlen l = n -> l <> [] -> read (Going (Length n) [] body) l = Finished (body ++ l) [].
Proof.
  intros Hl Hne. destruct (exists_last Hne) as (l' & b & ->). rewrite zlen_app in Hl.
  change (zlen [b]) with 1 in Hl. rewrite reads_app, read_length by lia.
  cbn [reads HttpContent.read_byte]. replace (n - zlen l' =? 1) with true by lia. by rewrite <- app_assoc.
Qed.

Lemma read_close n body l :
  zlen l <= n -> read (Going (ToClose n) [] body) l = Going (ToClose (n - zlen l)) [] (body ++ l).
Proof.
  revert n body. induction l as [|b l IH]; intros n body Hl.
  { rewrite app_nil_r. change (zlen (@nil ascii)) with 0. by rewrite Z.sub_0_r. }
  rewrite zlen_cons in *. pose proof (zlen_nonneg l). cbn [reads HttpContent.read_byte].
  replace (n =? 0) with false by lia. rewrite IH by lia. rewrite <- app_assoc. do 4 f_equal. lia.
Qed.

Lemma read_close_over body b l : read (Going (ToClose 0) [] body) (b :: l) = Refused.
Proof. cbn [reads HttpContent.read_byte]. by destruct l. Qed.

(** The rounds a write can need: the more, the less has been read of a chunk. *)
Definition weight (x : body_state) : Z :=
  let '(ph, pending, _) := x in
  match ph with
  | SizeLine limit => if zlen pending <? limit then 2 else 1
  | ChunkData _ => 4
  | ChunkEnd => 3
  | Length _ => 1
  | ToClose n => if n =? 0 then 1 else 2
  end.
End Reader.

Lemma weight_bounds x : 1 <= weight x <= 4.
Proof. destruct x as [[ph pending] ?]. unfold weight. destruct ph; try case_cond; lia. Qed.

(** ** The content *)

Section Receiver.
Context {M : Type} `{BBase M, MmapFactory M} (uninitialised : Z -> bytes).
Context {S : Type} `{FullSink S} `{!AcceptsEOF S}.
Context (maxChunk pieces : Z) (Hpieces : 1 * KB_MULT <= pieces <= SSIZE_MAX) (HmaxChunk : 0 <= maxChunk < NO_CHUNK).
Implicit Types c : Content M S.

(** A window on the whole of the unparsed buffer, as the parser leaves it for
    [parse()]. *)
Definition whole_window c (v : bytes) : Prop :=
  let f := m_parsedBuffer (ct_base c) in
  ref_set f = true /\ referencedOffset f = 0 /\ referencedMaxBytes f = SIZE_MAX /\
  ck_data_wf (m_unparsedBuffer (ct_base c)) /\ ck_view (m_unparsedBuffer (ct_base c)) = v.

Lemma window_view c v :
  whole_window c v -> ref_first (getParsedBuffer (ct_base c)) /\ ref_view (getParsedBuffer (ct_base c)) = v /\
    BRef.size (getParsedBuffer (ct_base c)) = zlen v.
Proof.
  intros (Hs & Ho & Hm & Hwf & Hv). pose proof Hwf as (_ & _ & _ & Hmax).
  assert (Hat : referencedBC (getParsedBuffer (ct_base c)) = Some (m_unparsedBuffer (ct_base c)))
    by (simpl; by rewrite Hs).
  assert (Hw : ref_wf (getParsedBuffer (ct_base c))).
  { exists (m_unparsedBuffer (ct_base c)). split; [done|]. split; [exact Hwf|]. simpl. rewrite Ho, Hm.
    pose proof (zlen_nonneg (ck_view (m_unparsedBuffer (ct_base c)))) as Hz. unfold is_size, SIZE_MAX.
    split; [exact (conj (Z.le_refl 0) Hz)|lia]. }
  destruct Hw as (c' & Hc' & Hwf' & Ho' & Hm').
  assert (Hsz : BRef.size (getParsedBuffer (ct_base c)) = zlen v).
  { rewrite (ref_size _ c') by done. simpl. rewrite Ho, Hm. rewrite Hat in Hc'. injection Hc' as <-.
    change (b_view ?x) with (ck_view x). rewrite Hv in *. unfold SIZE_MAX, SSIZE_MAX in *. lia. }
  split; [split; [by exists c'|exact Ho]|]. split; [|done]. unfold ref_view. rewrite Hat, Hsz. simpl. rewrite Ho.
  change (b_view ?x) with (ck_view x). rewrite Hv. apply slice_all.
Qed.

Lemma parsed_to_out_run c v :
  whole_window c v -> sink_ok (m_outStream c) -> zlen v <= sink_room (m_outStream c) ->
  exists out, parsed_to_out c = (Ret tt, set_out out c) /\ sink_ok out /\
    sink_view out = sink_view (m_outStream c) ++ v /\ sink_room (m_outStream c) - zlen v <= sink_room out.
Proof.
  intros Hw Hok Hr. destruct (window_view c v Hw) as (Hf & Hv & _).
  assert (Hwf : b_wf (getParsedBuffer (ct_base c))) by exact Hf.
  destruct (appendTo_take (getParsedBuffer (ct_base c)) (zlen v) (m_outStream c) Hwf) as (out & Ha & Hok' & Hv' & Hr');
    [cbn [b_view B_Ref_readable]; rewrite Hv; pose proof (zlen_nonneg v); lia|done|done|].
  exists out. change (b_view ?r) with (ref_view r) in Hv'. rewrite Hv, ztake_ge in Hv' by lia. split; [|done].
  unfold parsed_to_out, on_out, bind. rewrite appendTo_everything by done.
  change (b_view ?r) with (ref_view r). by rewrite Hv, Ha.
Qed.

(** ** The element parser *)

Abbreviation read := (reads (read_byte maxChunk pieces)).

(** The element parser in a phase of the reader. *)
Definition phase_ok (ph : phase) (pending : bytes) c : Prop :=
  let s := ct_base c in
  let u := m_unparsedBuffer s in
  match ph with
  | SizeLine limit => m_currentMode c = PROCMODE_CHUNK_SIZE /\ line_ok limit pending c
  | ChunkData n =>
      m_currentMode c = PROCMODE_CHUNK_DATA /\ m_parseMode s = PARSE_MODE_SIZE /\
      buffer_ok n u /\ ck_view u = pending /\ zlen pending < n
  | ChunkEnd =>
      m_currentMode c = PROCMODE_CHUNK_CRLF /\ m_parseMode s = PARSE_MODE_SIZE /\
      buffer_ok 2 u /\ ck_view u = pending /\ zlen pending < 2
  | Length n =>
      m_currentMode c = PROCMODE_CONTENT_LENGTH /\ m_parseMode s = PARSE_MODE_DIRECT /\
      blank n u /\ pending = [] /\ 0 < n
  | ToClose n =>
      m_currentMode c = PROCMODE_CONNECTION_CLOSE /\ m_parseMode s = PARSE_MODE_DIRECT /\
      blank n u /\ pending = []
  end.

(** What stays as it is while the body is received. *)
Definition steady c : Prop :=
  m_streamEnded (ct_base c) = false /\ m_maxChunks (m_unparsedBuffer (ct_base c)) = pieces /\
  m_securityMaxHttpChunkSize c = maxChunk /\ sink_ok (m_outStream c).

(** The content in a state of the reader, its destination with room for what
    is pending and [n] bytes more. *)
Definition content_ok (x : body_state) (n : Z) c : Prop :=
  let '(ph, pending, body) := x in
  steady c /\ sink_view (m_outStream c) = body /\ phase_ok ph pending c /\ zlen pending + n <= sink_room (m_outStream c).

(** The content at the end of its body. *)
Definition content_done (body : bytes) (n : Z) c : Prop := sink_view (m_outStream c) = body.

Abbreviation agrees := (element_agrees uninitialised (read_byte maxChunk pieces) content_ok content_done weight turns).
Abbreviation step buf c := (writeIntoParser uninitialised buf (ready c)).

(** *** Up to the end of the connection, or to a length *)

Lemma window_whole (u : B_Chunks M) c :
  ck_open u -> whole_window (delivered SIZE_MAX (with_unparsed u c)) (ck_view u).
Proof.
  intros [Hwf _]. destruct (ref_whole u (m_parsedBuffer (sp c))) as (Hf & _); [exact Hwf|].
  unfold whole_window. change (ct_base (delivered SIZE_MAX (with_unparsed u c)))
    with (sp_reference 0 SIZE_MAX (set_unparsedBuffer u (sp c))).
  unfold sp_reference. cbn [m_parsedBuffer set_parsedBuffer set_unparsedBuffer m_unparsedBuffer].
  rewrite Hf. done.
Qed.

Lemma eof_run c :
  sink_ok (m_outStream c) ->
  exists b out, on_out writeEOF c = (Ret b, set_out out c) /\ sink_view out = sink_view (m_outStream c).
Proof.
  intros Hok. destruct (eof_written (m_outStream c) Hok) as (b & out & He & Hv).
  exists b, out. unfold on_out. by rewrite He.
Qed.

(** A write in direct mode, up to [parse()]. *)
Lemma direct_step n c buf :
  steady c -> m_parseMode (ct_base c) = PARSE_MODE_DIRECT ->
  blank n (m_unparsedBuffer (ct_base c)) -> buf <> [] -> zlen buf <= pieces ->
  let k := Z.min (zlen buf) n in
  if n =? 0 then step buf c = (Ret None, ready c)
  else exists u, let t1 := delivered SIZE_MAX (with_unparsed u (ready c)) in
    whole_window t1 (ztake k buf) /\ getUnparsedDataSize (ct_base t1) = n - k /\
    forall r out, Content_parse t1 = (Ret r, set_out out t1) ->
      let c1 := after_direct r k (set_out out t1) in
      step buf c = (Ret (Some k), c1) /\ blank (n - k) (m_unparsedBuffer (ct_base c1)) /\
      m_maxChunks (m_unparsedBuffer (ct_base c1)) = pieces.
Proof.
  intros (_ & Hch & _) Hpm Hb Hne Hl. cbn zeta.
  pose proof (zlen_pos buf Hne). pose proof Hb as (_ & _ & _ & Hn).
  rewrite writeIntoParser_data by done. change (m_parseMode (sp (ready c))) with (m_parseMode (ct_base c)).
  rewrite Hpm. pose proof (parseDirect_run n (ready c) buf Hb Hne) as Hrun. cbn zeta in Hrun.
  change (m_maxChunks (m_unparsedBuffer (sp (ready c)))) with (m_maxChunks (m_unparsedBuffer (ct_base c))) in Hrun.
  rewrite Hch in Hrun. specialize (Hrun ltac:(lia)). destruct (n =? 0) eqn:En; [exact Hrun|]. zbool.
  destruct Hrun as (u & Ho & Hx & Hv & Hcu & Hmu & Hrun). set (k := Z.min (zlen buf) n) in *.
  assert (Hk : zlen (ztake k buf) = k) by (rewrite zlen_ztake; lia).
  exists u. set (t1 := delivered SIZE_MAX (with_unparsed u (ready c))) in *. rewrite <- Hv. split; [apply window_whole; done|].
  split.
  - change (getUnparsedDataSize (ct_base t1)) with (getSizeLeft u). unfold getSizeLeft.
    cbn [v_size b_get B_Chunks_container]. rewrite size_ck, Hv, Hk, Hmu by apply Ho.
    replace (k >? n) with false by lia. apply u64_small, size_arith. lia.
  - intros r out Hparse. change (parse t1) with (Content_parse t1) in Hrun. rewrite Hparse in Hrun.
    split; [exact (Hrun eq_refl)|].
    destruct (after_direct_blank n r k (set_out out t1) u) as [Hbl Hc2]; [done|done|done|lia|lia|].
    split; [exact Hbl|exact (eq_trans Hc2 Hcu)].
Qed.

Lemma round_close n room c buf :
  content_ok (ToClose n, [], sink_view (m_outStream c)) room c -> buf <> [] -> zlen buf <= pieces ->
  zlen buf <= room -> agrees (ToClose n, [], sink_view (m_outStream c)) room buf c.
Proof.
  intros (Hst & _ & (Hmode & Hpm & Hb & _) & Hroom) Hne Hl Hbr. pose proof (zlen_pos buf Hne). pose proof Hb as (_ & _ & _ & Hn).
  change (zlen (@nil ascii)) with 0 in Hroom.
  pose proof (direct_step n c buf Hst Hpm Hb Hne Hl) as Hd. cbn zeta in Hd. destruct (n =? 0) eqn:En; zbool.
  { eapply ElementFails; [exact Hd|]. subst n. destruct buf as [|b buf]; [done|]. apply read_close_over. }
  destruct Hd as (u & Hw & _ & Hstep). set (k := Z.min (zlen buf) n) in *.
  assert (Hk : zlen (ztake k buf) = k) by (rewrite zlen_ztake; lia).
  set (t1 := delivered SIZE_MAX (with_unparsed u (ready c))) in *. pose proof Hst as (He & Hch & Hmx & Hok).
  destruct (parsed_to_out_run t1 _ Hw) as (out & Hp & Hok' & Hv' & Hr');
    [exact Hok|rewrite Hk; change (m_outStream t1) with (m_outStream c); lia|].
  destruct (window_view _ _ Hw) as (_ & _ & Hsz).
  destruct (Hstep PARSE_GET_MORE_DATA out) as (Hrun & Hbl & Hch').
  { unfold Content_parse. change (m_currentMode t1) with (m_currentMode c).
    rewrite Hmode, Hsz, Hk. replace (k =? 0) with false by lia. cbn [negb]. unfold bind. by rewrite Hp. }
  change (m_outStream t1) with (m_outStream c) in Hv', Hr'. rewrite Hk in Hr'.
  eapply (ElementGoes _ _ _ _ _ _ _ _ _ _ k _ (ToClose (n - k), [], sink_view (m_outStream c) ++ ztake k buf));
    [exact Hrun|lia|done| | |].
  - rewrite read_close by lia. by rewrite Hk.
  - split; [|split; [exact Hv'|split]]; [by split; [exact He|split; [exact Hch'|split]]| |].
    + by split; [exact Hmode|split; [exact Hpm|split; [exact Hbl|]]].
    + change (m_outStream (after_direct _ _ _)) with out. change (zlen (@nil ascii)) with 0. lia.
  - destruct (decide (k = zlen buf)); [by left|right]. unfold weight. rewrite (turns_take k buf).
    pose proof (turns_nonneg (ztake k buf)). replace (n - k =? 0) with true by lia.
    replace (n =? 0) with false by lia. lia.
Qed.

Lemma round_length n room c buf :
  content_ok (Length n, [], sink_view (m_outStream c)) room c -> buf <> [] -> zlen buf <= pieces ->
  zlen buf <= room -> agrees (Length n, [], sink_view (m_outStream c)) room buf c.
Proof.
  intros (Hst & _ & (Hmode & Hpm & Hb & _ & Hn0) & Hroom) Hne Hl Hbr. pose proof (zlen_pos buf Hne). pose proof Hb as (_ & _ & _ & Hn).
  change (zlen (@nil ascii)) with 0 in Hroom.
  pose proof (direct_step n c buf Hst Hpm Hb Hne Hl) as Hd. cbn zeta in Hd. replace (n =? 0) with false in Hd by lia.
  destruct Hd as (u & Hw & Hleft & Hstep). set (k := Z.min (zlen buf) n) in *.
  assert (Hk : zlen (ztake k buf) = k) by (rewrite zlen_ztake; lia).
  assert (Hkn : ztake k buf <> []) by (intros Hz; rewrite Hz in Hk; change (zlen (@nil ascii)) with 0 in Hk; lia).
  set (t1 := delivered SIZE_MAX (with_unparsed u (ready c))) in *. pose proof Hst as (He & Hch & Hmx & Hok).
  destruct (parsed_to_out_run t1 _ Hw) as (out & Hp & Hok' & Hv' & Hr');
    [exact Hok|rewrite Hk; change (m_outStream t1) with (m_outStream c); lia|].
  change (m_outStream t1) with (m_outStream c) in Hv', Hr'. rewrite Hk in Hr'.
  destruct (decide (k = n)) as [Hend|Hmore].
  - destruct (eof_run (set_out out t1) Hok') as (b & out' & Heof & Hve).
    destruct (Hstep PARSE_GOTO_NEXT_SUBPARSER out') as (Hrun & _ & _).
    { unfold Content_parse. change (m_currentMode t1) with (m_currentMode c).
      rewrite Hmode. unfold bind, gets. rewrite Hp. cbn [id]. change (ct_base (set_out out _)) with (ct_base t1).
      rewrite Hleft. replace (n - k >? 0) with false by lia. by rewrite Heof. }
    eapply (ElementEnds _ _ _ _ _ _ _ _ _ _ k _ (sink_view (m_outStream c) ++ ztake k buf)); [exact Hrun|lia|done| |].
    + apply read_length_end; [lia|done].
    + unfold content_done. change (m_outStream (after_direct _ _ _)) with out'. by rewrite Hve.
  - destruct (Hstep PARSE_GET_MORE_DATA out) as (Hrun & Hbl & Hch').
    { unfold Content_parse. change (m_currentMode t1) with (m_currentMode c).
      rewrite Hmode. unfold bind, gets. rewrite Hp. cbn [id]. change (ct_base (set_out out _)) with (ct_base t1).
      rewrite Hleft. by replace (n - k >? 0) with true by lia. }
    eapply (ElementGoes _ _ _ _ _ _ _ _ _ _ k _ (Length (n - k), [], sink_view (m_outStream c) ++ ztake k buf));
      [exact Hrun|lia|done| | |left; lia].
    + rewrite read_length by lia. by rewrite Hk.
    + split; [|split; [exact Hv'|split]]; [by split; [exact He|split; [exact Hch'|split]]| |].
      * by split; [exact Hmode|split; [exact Hpm|split; [exact Hbl|split; [done|lia]]]].
      * change (m_outStream (after_direct _ _ _)) with out. change (zlen (@nil ascii)) with 0. lia.
Qed.

(** *** Chunks *)

Lemma retargeted m m' (u : B_Chunks M) :
  buffer_ok m u -> 0 <= m' <= SSIZE_MAX -> m' <= m_maxChunks u ->
  buffer_ok m' (cleared (setMaxSize m' u)) /\ ck_view (cleared (setMaxSize m' u)) = [].
Proof. intros ((_ & ? & ? & ?) & _) ? ?. by apply cleared_ok. Qed.

(** A write in size mode, up to [parse()]. *)
Lemma size_step n pending c buf :
  m_parseMode (ct_base c) = PARSE_MODE_SIZE -> buffer_ok n (m_unparsedBuffer (ct_base c)) ->
  ck_view (m_unparsedBuffer (ct_base c)) = pending -> zlen pending < n -> buf <> [] ->
  let k := Z.min (zlen buf) (n - zlen pending) in
  exists u, buffer_ok n u /\ ck_view u = pending ++ ztake k buf /\
    m_maxChunks u = m_maxChunks (m_unparsedBuffer (ct_base c)) /\
    if k =? n - zlen pending then
      let t1 := delivered SIZE_MAX (with_unparsed u (ready c)) in
      whole_window t1 (pending ++ ztake k buf) /\
      forall r c', Content_parse t1 = (Ret r, c') -> step buf c = (Ret (Some k), after_parse r c')
    else step buf c = (Ret (Some k), with_unparsed u (ready c)).
Proof.
  intros Hpm Hb Hv Hl Hne. cbn zeta. rewrite writeIntoParser_data by done.
  change (m_parseMode (sp (ready c))) with (m_parseMode (ct_base c)). rewrite Hpm.
  pose proof (parseBySize_run n (ready c) buf Hb Hne) as Hrun. cbn zeta in Hrun.
  change (buf_view (ready c)) with (ck_view (m_unparsedBuffer (ct_base c))) in Hrun. rewrite Hv in Hrun.
  replace (n - zlen pending =? 0) with false in Hrun by lia. destruct Hrun as (u & Hok & Hvu & Hcu & Hrun).
  exists u. split; [done|]. split; [done|]. split; [exact Hcu|]. rewrite Hrun. case_cond; [|done].
  rewrite <- Hvu. split; [apply window_whole, Hok|]. intros r c' Hparse.
  change (parse (delivered SIZE_MAX (with_unparsed u (ready c)))) with
    (Content_parse (delivered SIZE_MAX (with_unparsed u (ready c)))). by rewrite Hparse.
Qed.

Lemma round_end pending room c buf :
  content_ok (ChunkEnd, pending, sink_view (m_outStream c)) room c -> buf <> [] ->
  agrees (ChunkEnd, pending, sink_view (m_outStream c)) room buf c.
Proof.
  intros (Hst & _ & (Hmode & Hpm & Hb & Hv & Hl) & Hroom) Hne. pose proof (zlen_pos buf Hne). pose proof (zlen_nonneg pending).
  destruct (size_step 2 pending c buf Hpm Hb Hv Hl Hne) as (u & Hok & Hvu & Hcu & Hstep).
  pose proof Hst as (He & Hch & Hmx & Hso). rewrite Hch in Hcu.
  set (k := Z.min (zlen buf) (2 - zlen pending)) in *.
  assert (Hk : zlen (ztake k buf) = k) by (rewrite zlen_ztake; lia).
  assert (Hkn : ztake k buf <> []) by (intros Hz; rewrite Hz in Hk; change (zlen (@nil ascii)) with 0 in Hk; lia).
  destruct (k =? 2 - zlen pending) eqn:Ek; zbool.
  - destruct Hstep as [_ Hstep].
    destruct (retargeted 2 (1 * KB_MULT) u Hok) as [Hok' Hv']; [vm_compute; split; discriminate|lia|].
    eapply (ElementGoes _ _ _ _ _ _ _ _ _ _ k _ (SizeLine (1 * KB_MULT), [], sink_view (m_outStream c)));
      [apply (Hstep PARSE_GET_MORE_DATA); unfold Content_parse; change (m_currentMode (delivered _ _)) with (m_currentMode c);
         rewrite Hmode; reflexivity|lia|done| | |].
    + apply read_end_end; [lia|done].
    + split; [|split; [done|split]]; [by repeat (split; [done|])| |].
      * split; [done|]. split; [done|]. split; [done|]. split; [exact He|].
        split; [exact Hok'|]. split; [exact Hv'|]. exact nothing_occurs.
      * change (m_outStream (after_parse _ _)) with (m_outStream c). change (zlen (@nil ascii)) with 0. lia.
    + right. rewrite (turns_take k buf). pose proof (turns_nonneg (ztake k buf)). unfold weight at 2.
      change (weight (SizeLine _, [], _)) with 2. lia.
  - eapply (ElementGoes _ _ _ _ _ _ _ _ _ _ k _ (ChunkEnd, pending ++ ztake k buf, sink_view (m_outStream c)));
      [exact Hstep|lia|done| | |left; lia].
    + apply read_end. lia.
    + split; [|split; [done|split]]; [by repeat (split; [done|])| |].
      * split; [done|]. split; [done|]. split; [exact Hok|]. split; [exact Hvu|]. rewrite zlen_app. lia.
      * change (m_outStream (with_unparsed _ _)) with (m_outStream c). rewrite zlen_app. lia.
Qed.

Lemma round_data n pending room c buf :
  content_ok (ChunkData n, pending, sink_view (m_outStream c)) room c -> buf <> [] -> zlen buf <= room ->
  agrees (ChunkData n, pending, sink_view (m_outStream c)) room buf c.
Proof.
  intros (Hst & _ & (Hmode & Hpm & Hb & Hv & Hl) & Hroom) Hne Hbr. pose proof (zlen_pos buf Hne). pose proof (zlen_nonneg pending).
  destruct (size_step n pending c buf Hpm Hb Hv Hl Hne) as (u & Hok & Hvu & Hcu & Hstep).
  pose proof Hst as (He & Hch & Hmx & Hso). rewrite Hch in Hcu.
  set (k := Z.min (zlen buf) (n - zlen pending)) in *.
  assert (Hk : zlen (ztake k buf) = k) by (rewrite zlen_ztake; lia).
  assert (Hkn : ztake k buf <> []) by (intros Hz; rewrite Hz in Hk; change (zlen (@nil ascii)) with 0 in Hk; lia).
  destruct (k =? n - zlen pending) eqn:Ek; zbool.
  - destruct Hstep as [(Hw1 & Hw2 & Hw3 & _ & _) Hstep].
    set (t1 := delivered SIZE_MAX (with_unparsed u (ready c))) in *.
    set (c1 := set_modes (m_transmitionMode t1) PROCMODE_CHUNK_CRLF
      (on_base (fun s => setParseDataTargetSize 2 (setParseMode PARSE_MODE_SIZE s)) t1)).
    assert (Hw : whole_window c1 (pending ++ ztake k buf)).
    { split; [exact Hw1|]. split; [exact Hw2|]. split; [exact Hw3|]. split; [|exact Hvu]. pose proof Hok as ([Hwf _] & _). exact Hwf. }
    destruct (parsed_to_out_run c1 _ Hw) as (out & Hp & Hok' & Hv' & Hr'); [exact Hso|change (m_outStream c1) with (m_outStream c); rewrite zlen_app; lia|].
    change (m_outStream c1) with (m_outStream c) in Hv', Hr'. rewrite zlen_app in Hr'.
    destruct (retargeted n 2 u Hok) as [Hok2 Hv2]; [vm_compute; split; discriminate|change (1 * KB_MULT) with 1024 in Hpieces; lia|].
    eapply (ElementGoes _ _ _ _ _ _ _ _ _ _ k _ (ChunkEnd, [], sink_view (m_outStream c) ++ pending ++ ztake k buf));
      [apply (Hstep PARSE_GET_MORE_DATA (set_out out c1))|lia|done| | |].
    + unfold Content_parse. change (m_currentMode t1) with (m_currentMode c). rewrite Hmode.
      transitivity ((do! parsed_to_out in ret PARSE_GET_MORE_DATA) c1); [done|]. unfold bind. by rewrite Hp.
    + apply read_data_end; [lia|done].
    + split; [|split; [exact Hv'|split]]; [by repeat (split; [done|])| |].
      * split; [done|]. split; [done|]. split; [exact Hok2|]. split; [exact Hv2|]. done.
      * change (m_outStream (after_parse _ _)) with out. change (zlen (@nil ascii)) with 0. lia.
    + right. rewrite (turns_take k buf). pose proof (turns_nonneg (ztake k buf)). cbn [weight]. lia.
  - eapply (ElementGoes _ _ _ _ _ _ _ _ _ _ k _ (ChunkData n, pending ++ ztake k buf, sink_view (m_outStream c)));
      [exact Hstep|lia|done| | |left; lia].
    + apply read_data. lia.
    + split; [|split; [done|split]]; [by repeat (split; [done|])| |].
      * split; [done|]. split; [done|]. split; [exact Hok|]. split; [exact Hvu|]. rewrite zlen_app. lia.
      * change (m_outStream (with_unparsed _ _)) with (m_outStream c). rewrite zlen_app. lia.
Qed.

(** *** Lines *)

(** The size the parser reads in the line it is given. *)
Lemma to_number_text {C} `{BBase C} (c : C) base :
  to_number c base SIZE_MAX 0 =
  match strtoul base (toStringEx c) with
  | Some (n, []) => Some n
  | _ => None
  end.
Proof. unfold to_number, toStringEx. by destruct (toString c SIZE_MAX 0). Qed.


Lemma line_size_range line n : line_size maxChunk line = Some n -> 0 <= n <= maxChunk.
Proof.
  unfold line_size. destruct (strtoul 16 line) as [[x [|]]|]; [|done|done].
  pose proof (Z.mod_pos_bound x (2 ^ 32) eq_refl). case_cond; [done|]. zbool. intros [= <-]. lia.
Qed.

Lemma parseHttpChunkSize_line (c : Content M S) line :
  m_securityMaxHttpChunkSize c = maxChunk -> toStringEx (getParsedBuffer (ct_base c)) = line ->
  parseHttpChunkSize c = default NO_CHUNK (line_size maxChunk line).
Proof.
  intros Hm Hl. unfold parseHttpChunkSize, toUInt32, line_size. rewrite to_number_text, Hl, Hm.
  destruct (strtoul 16 line) as [[x [|]]|]; [|done|done]. cbn [option_map]. by case_cond.
Qed.

(** What [parse()] makes of a line. *)
Lemma parse_line (c : Content M S) line :
  m_currentMode c = PROCMODE_CHUNK_SIZE -> m_securityMaxHttpChunkSize c = maxChunk ->
  toStringEx (getParsedBuffer (ct_base c)) = line -> sink_ok (m_outStream c) ->
  match line_size maxChunk line with
  | None => Content_parse c = (Ret PARSE_ERROR, c)
  | Some n =>
      if n =? 0 then exists out, Content_parse c = (Ret PARSE_GOTO_NEXT_SUBPARSER, set_out out c) /\
        sink_view out = sink_view (m_outStream c)
      else Content_parse c = (Ret PARSE_GET_MORE_DATA,
        set_modes (m_transmitionMode c) PROCMODE_CHUNK_DATA
          (on_base (fun s => setParseDataTargetSize n (setParseMode PARSE_MODE_SIZE s)) c))
  end.
Proof.
  intros Hm Hmx Hl Hok. unfold Content_parse. rewrite Hm, (parseHttpChunkSize_line c line Hmx Hl).
  destruct (line_size maxChunk line) as [n|] eqn:En; cbn [default from_option id]; [|by rewrite Z.eqb_refl].
  apply line_size_range in En. replace (n =? NO_CHUNK) with false by lia. cbn [negb]. case_cond; zbool.
  - subst n. change (0 >? 0) with false. destruct (eof_run c Hok) as (b & out & He & Hv). exists out.
    split; [|done]. unfold bind. by rewrite He.
  - by replace (n >? 0) with true by lia.
Qed.

Lemma round_line limit pending room c buf :
  content_ok (SizeLine limit, pending, sink_view (m_outStream c)) room c -> buf <> [] -> zlen buf <= SSIZE_MAX ->
  agrees (SizeLine limit, pending, sink_view (m_outStream c)) room buf c.
Proof.
  intros (Hst & _ & (Hmode & Hline) & Hroom) Hne Hbl. pose proof Hst as (He & Hch & Hmx & Hso).
  set (L := fun pending => (SizeLine limit, pending, sink_view (m_outStream c)) : body_state).
  assert (Heat : forall pending b, read_byte maxChunk pieces (L pending) b =
    line_byte limit L (after_size maxChunk pieces (sink_view (m_outStream c))) pending b) by done.
  assert (Hsame : forall s, same_base s (sp c) -> steady (set_base s c)).
  { intros s (_ & _ & Ee & Ec). by split; [rewrite <- He; exact Ee|split; [rewrite <- Hch; exact Ec|split]]. }
  pose proof (zlen_nonneg pending).
  destruct (line_step _ limit L _ Heat uninitialised pending buf c Hline Hne Hbl)
    as [Hw Hr|k s Hk Hw Hs Hb Hok Hv Hno Hr Hp|w line s Hw Htake Hlim Hr Hlf Hpl [Htxt _] Hb Hok Hstep].
  - by eapply ElementFails.
  - eapply (ElementGoes _ _ _ _ _ _ _ _ _ _ k _ (L (pending ++ ztake k buf))); [exact Hw|lia|exact Hs|exact Hr| |].
    + split; [by apply Hsame|]. split; [done|]. split.
      * split; [exact Hmode|]. apply (line_goes_ok limit _ s c); [by exists pending|done|done|done|done].
      * change (m_outStream (sp_set s c)) with (m_outStream c). rewrite zlen_app, zlen_ztake. lia.
    + destruct Hp as [?|[Hz Hp]]; [by left|right]. unfold L, weight. rewrite Hz, (turns_take k buf).
      pose proof (turns_nonneg (ztake k buf)). rewrite Z.ltb_irrefl. replace (zlen pending <? limit) with true by lia. lia.
  - set (t1 := set_base s c) in *. change (sp_set s c) with t1 in Hstep.
    pose proof (parse_line t1 line Hmode Hmx Htxt Hso) as Hparse.
    pose proof Hline as (_ & Hd & _). destruct Hb as (Em & Ed & Ee & Ec). rewrite Hd in Ed.
    unfold after_size in Hr. destruct (line_size maxChunk line) as [n|] eqn:En.
    2:{ eapply (ElementRefuses _ _ _ _ _ _ _ _ _ _ w); [by apply (Hstep _ _ Hparse)|lia|done|].
        apply (reads_fixed _ _ w); [by left|exact Hr]. }
    apply line_size_range in En. destruct (n =? 0) eqn:En0; zbool.
    { destruct Hparse as (out & Hparse & Hve). eapply (ElementEnds _ _ _ _ _ _ _ _ _ _ w); [by apply (Hstep _ _ Hparse)|lia|done|exact Hr|exact Hve]. }
    destruct (n >? pieces) eqn:Enp; zbool.
    { apply ElementUnsaid. apply (reads_fixed _ _ w); [by right|exact Hr]. }
    assert (Hcs : m_maxChunks (m_unparsedBuffer s) = pieces) by (rewrite <- Hch; exact Ec).
    destruct (retargeted limit n _ Hok) as [Hok' Hv']; [lia|lia|].
    eapply (ElementGoes _ _ _ _ _ _ _ _ _ _ w _ (ChunkData n, [], sink_view (m_outStream c)));
      [by apply (Hstep _ _ Hparse)|lia|done|exact Hr| |].
    + split; [|split; [done|split]].
      * split; [rewrite <- He; exact Ee|]. split; [exact Hcs|]. by split.
      * split; [done|]. split; [done|]. split; [exact Hok'|]. split; [exact Hv'|]. change (zlen []) with 0. lia.
      * change (m_outStream (after_parse _ _)) with (m_outStream c). change (zlen (@nil ascii)) with 0. lia.
    + right. cbn [weight]. replace (zlen pending <? limit) with true by lia. unfold turns. rewrite (count_LF_take w buf). lia.
Qed.

(** *** Whole writes *)

Lemma round_any x room c buf :
  content_ok x room c -> buf <> [] -> zlen buf <= pieces -> zlen buf <= room -> agrees x room buf c.
Proof.
  intros Hok Hne Hl Hr. destruct x as [[ph pending] body]. pose proof Hok as (_ & <- & Hph & _). destruct ph as [limit|n| |n|n].
  - apply round_line; [done|done|lia].
  - by apply round_data.
  - by apply round_end.
  - destruct Hph as (_ & _ & _ & -> & _). by apply round_length.
  - destruct Hph as (_ & _ & _ & ->). by apply round_close.
Qed.

(** ** The last stage of the client protocol *)

Abbreviation receiver := (BodyReceiver M S).
Implicit Types p : receiver.
Context (ttl : Z) (Httl : 0 <= ttl < SIZE_MAX).

Definition body_ok (x : body_state) (n : Z) p : Prop :=
  br_current p = Some tt /\ m_maxTTL (br_data p) = ttl /\ content_ok x n (br_content p).

Definition body_done (body : bytes) p : Prop :=
  m_maxTTL (br_data p) = ttl /\ br_current p = None /\ sink_view (m_outStream (br_content p)) = body.

Lemma reads_empty_end x b y rest : read_byte maxChunk pieces x b = Ends y rest -> rest = [].
Proof.
  destruct x as [[ph pending] body]. cbn [HttpContent.read_byte]. unfold line_byte, after_size.
  destruct ph; [destruct (line_size _ _)|..]; repeat case_cond; try done; by intros [= _ <-].
Qed.

Lemma body_round x n p buf :
  body_ok x n p -> buf <> [] -> zlen buf <= pieces -> zlen buf <= n ->
  round_agrees (Prot := BodyReceiver_protocol) uninitialised (read_byte maxChunk pieces) body_ok body_done weight turns x n buf p.
Proof.
  intros (Hc & Ht & Hok) Hne Hl Hn.
  apply (round_of_member (Prot := BodyReceiver_protocol) uninitialised tt br_content set_content
    (read_byte maxChunk pieces) (read_byte maxChunk pieces) id (fun y => Ends y [])) with (RE := content_ok) (FE := content_done) (weight := weight).
  - intros x1 b. change (id x1) with x1. destruct (read_byte maxChunk pieces x1 b) as [x2|y rest| |] eqn:E; [done| |done|done].
    by rewrite (reads_empty_end _ _ _ _ E).
  - done.
  - exact Hc.
  - by apply round_any.
  - intros x' k e He. by split.
  - intros w y e _ _ Hy. split; [done|]. eexists. split; [reflexivity|]. split; [done|]. by split.
Qed.

(** A write that the rounds suffice for. *)
Definition write_fits : bytes -> Prop := fits turns 4 pieces ttl.

Lemma write_all_reads x n p frags :
  body_ok x n p -> Forall write_fits frags -> zlen (concat frags) <= n ->
  all_agree body_ok body_done (read (Goes x) (concat frags)) (n - zlen (concat frags))
    (write_all (Prot := BodyReceiver_protocol) uninitialised frags p).
Proof.
  intros Hok Hfr Hn.
  apply (writes_agree uninitialised (read_byte maxChunk pieces) body_ok body_done weight turns 4 pieces ttl);
    [apply turns_nonneg|apply weight_bounds|exact Httl|lia| | |apply body_round|done|done|done].
  - intros x' n' q (Hc & Ht & _). split; [done|]. by exists tt.
  - intros y q (Ht & Hc & _). by split.
Qed.
End Receiver.

(** C22: the body of a message, however it is cut into writes (none empty, each of at
    most as many bytes as the buffer has pieces, with few enough line ends for the
    round limit), is read as the byte-by-byte reader does, when the destination
    has room for all that is written (a full one loses what does not fit) and
    takes the end of the stream (strings and the chunked containers in memory
    do): while the body goes on every write succeeds
    and the destination has exactly the bytes of the body so far; at its end the
    destination has the body, the parser has no element parser left, and the
    writes succeed if and only if nothing follows the body; a malformed body, or
    one with a chunk or a size over the configured limits, makes a write fail. It says
    nothing of a chunk that is allowed and larger than the number of pieces of
    the buffer. *)
Theorem body_of_fragments {M} `{BBase M, MmapFactory M} (uninitialised : Z -> bytes) {S} `{FullSink S} `{!AcceptsEOF S}
    maxChunk pieces ttl (p : BodyReceiver M S) x n frags :
  1 * KB_MULT <= pieces <= SSIZE_MAX -> 0 <= maxChunk < NO_CHUNK -> 0 <= ttl < SIZE_MAX ->
  body_ok maxChunk pieces ttl x n p -> Forall (write_fits pieces ttl) frags -> zlen (concat frags) <= n ->
  let result := write_all (Prot := BodyReceiver_protocol) uninitialised frags p in
  match read maxChunk pieces (Goes x) (concat frags) with
  | Goes (ph, pending, body) =>
      exists p', result = (Ret true, p') /\ sink_view (m_outStream (br_content p')) = body /\
        body_ok maxChunk pieces ttl (ph, pending, body) (n - zlen (concat frags)) p'
  | Ends body rest =>
      exists p', result = (Ret (bool_decide (rest = [])), p') /\
        m_currentParser (Protocol := BodyReceiver_protocol) p' = None /\ sink_view (m_outStream (br_content p')) = body
  | Refuses => exists p', result = (Ret false, p')
  | Unspecified => True
  end.
Proof.
  intros Hp Hm Ht Hok Hf Hr. cbn zeta.
  pose proof (write_all_reads uninitialised maxChunk pieces Hp Hm ttl Ht x n p frags Hok Hf Hr) as Ha.
  destruct (reads _ _ _) as [[[ph pending] body]|body rest| |]; cbn [all_agree] in Ha; [| |done|done].
  - destruct Ha as (p' & Hw & Hok'). exists p'. split; [done|]. split; [apply Hok'|done].
  - destruct Ha as (p' & Hw & _ & Hc & Hv). by exists p'.
Qed.

(** ** Where a body starts *)

(** A client that has received its headers, with the default limits. *)
Definition MAX_CHUNK : Z := 16 * (KB_MULT * KB_MULT).
Definition MAX_BODY : Z := 17 * (KB_MULT * KB_MULT).
Definition PIECES : Z := 256 * KB_MULT.

Section Starts.
Context {M : Type} `{BBase M, MmapFactory M} {S : Type} `{FullSink S}.
Implicit Types (c : Content M S) (out : S).

Definition starting (t : eTransmitionMode) (out out0 : S) : Content M S :=
  setTransmitionMode t (setStreamableObj out (Content_new out0)).

Lemma starting_ok t out out0 (f : Content M S -> Content M S) ph n :
  sink_ok out -> n <= sink_room out -> m_streamEnded (ct_base (f (starting t out out0))) = false ->
  m_maxChunks (m_unparsedBuffer (ct_base (f (starting t out out0)))) = PIECES ->
  m_securityMaxHttpChunkSize (f (starting t out out0)) = MAX_CHUNK -> m_outStream (f (starting t out out0)) = out ->
  phase_ok ph [] (f (starting t out out0)) ->
  body_ok MAX_CHUNK PIECES 4096 (ph, [], sink_view out) n (BodyReceiver_new (f (starting t out out0))).
Proof.
  intros Hok Hr He Hch Hmx Ho Hph. split; [done|]. split; [done|]. cbn [content_ok br_content BodyReceiver_new].
  unfold steady. rewrite Ho. split; [by repeat (split; [done|])|]. split; [done|]. split; [exact Hph|].
  change (zlen []) with 0. lia.
Qed.

Lemma blank_start m (u : B_Chunks M) :
  u = setMaxSize m (B_Chunks_new (M := M)) -> 0 <= m <= SSIZE_MAX -> blank m u.
Proof. intros -> Hm. split; [|done]. split; [|done]. split; [done|]. split; [constructor|]. by split; vm_compute. Qed.

Lemma chunked_starts n out out0 :
  sink_ok out -> n <= sink_room out ->
  body_ok MAX_CHUNK PIECES 4096 (SizeLine 64, [], sink_view out) n
    (BodyReceiver_new (starting TRANSMIT_MODE_CHUNKS out out0)).
Proof.
  intros Hok Hr. apply (starting_ok _ _ _ id); try done.
  destruct (blank_buffer 64 (m_unparsedBuffer (ct_base (starting TRANSMIT_MODE_CHUNKS out out0)))) as [Hb Hv];
    [by apply blank_start|done|].
  split; [done|]. split; [done|]. split; [done|]. split; [done|]. split; [exact Hb|]. split; [done|]. apply nothing_occurs.
Qed.

Lemma length_starts n room out out0 :
  sink_ok out -> room <= sink_room out -> 0 < n <= MAX_BODY ->
  let (ok, c) := setContentLenSize n (starting TRANSMIT_MODE_CONTENT_LENGTH out out0) in
  ok = true /\ body_ok MAX_CHUNK PIECES 4096 (Length n, [], sink_view out) room (BodyReceiver_new c).
Proof.
  intros Hok Hr Hn. unfold setContentLenSize. change (m_securityMaxPostDataSize _) with MAX_BODY.
  replace (n >? MAX_BODY) with false by lia. split; [done|].
  apply (starting_ok _ _ _ (fun c => on_base (setParseDataTargetSize n) (set_length n c))); try done.
  split; [done|]. split; [done|]. split; [|split; [done|lia]]. apply blank_start; [done|].
  split; [lia|]. apply (Z.le_trans _ MAX_BODY); [lia|]. vm_compute. discriminate.
Qed.

Lemma close_starts n out out0 :
  sink_ok out -> n <= sink_room out ->
  body_ok MAX_CHUNK PIECES 4096 (ToClose MAX_BODY, [], sink_view out) n
    (BodyReceiver_new (starting TRANSMIT_MODE_CONNECTION_CLOSE out out0)).
Proof.
  intros Hok Hr. apply (starting_ok _ _ _ id); try done.
Qed.
End Starts.
