(* ===== verification/MimeHeaderSpec.v ===== *)
(** * What the operations on a header do

    A header, seen as the list of the options of each name: [header_options].
    An addition puts its option after those of the same name, a removal leaves
    none, whatever happens to the multimap and the objects behind it; and what
    a header prints is read back, option by option. *)

From stdpp Require Import sorting.
From S2P Require Import Prelude Mem SafeInt CText Multimap StreamableObject BBase BMem BChunk BChunks BRef SubParser SubParserSpec Parser Preserves Lens Lines BoostText Random MimeHeader HttpLines.

Import MIME_Sub_Header.

Lemma string_find_at c needle a b : c ∉ a -> string_find (c :: needle) (a ++ (c :: needle) ++ b) = Some (zlen a).
Proof.
  induction a as [|x a IH]; intros Hc.
  - cbn [app string_find]. rewrite bool_decide_eq_true_2; [done|]. change (c :: needle ++ b) with ((c :: needle) ++ b). by rewrite take_app_length.
  - apply not_elem_of_cons in Hc as [Hx Hc]. cbn [app string_find length]. rewrite bool_decide_eq_false_2; [|cbn [take]; congruence].
    change (a ++ c :: needle ++ b) with (a ++ (c :: needle) ++ b). rewrite IH by done. cbn [option_map]. f_equal. rewrite zlen_cons. lia.
Qed.

(** ** One option *)

Section Option.
Context `{BoostText, BoostSearch}.
Implicit Types o : MIME_HeaderOption.t.

Definition same_text o o' : Prop :=
  MIME_HeaderOption.m_origName o = MIME_HeaderOption.m_origName o' /\ MIME_HeaderOption.m_origValue o = MIME_HeaderOption.m_origValue o'.

Lemma addSubVar_text n v o : same_text (MIME_HeaderOption.addSubVar n v o) o.
Proof. unfold MIME_HeaderOption.addSubVar. by repeat case_cond. Qed.

Lemma sub_value_text r texts v o : same_text (sub_value r texts v o) o.
Proof. unfold sub_value. case_cond; apply addSubVar_text. Qed.

Lemma sub_values_text r texts first values o : same_text (sub_values r texts first values o) o.
Proof.
  revert first o. induction values as [|v values IH]; intros first o; [done|]. cbn [sub_values].
  destruct (IH false (if first then MIME_HeaderOption.setValue (put_back r texts (trim v)) (sub_value r texts v o) else sub_value r texts v o)) as [En Ev].
  destruct (sub_value_text r texts v o) as [En' Ev']. unfold same_text. rewrite En, Ev. destruct first; cbn; by rewrite En', Ev'.
Qed.

(** The name stays, and the text is the last one that was read. *)
Lemma parse_sub_values_text r text o :
  MIME_HeaderOption.m_origName (parse_sub_values r text o) = MIME_HeaderOption.m_origName o /\
  MIME_HeaderOption.m_origValue (parse_sub_values r text o) = text.
Proof.
  unfold parse_sub_values. destruct (put_aside _ _ _ _) as [texts s].
  destruct (sub_values_text r texts true (split (str ";") s) (MIME_HeaderOption.setOrigValue text o)) as [-> ->]. done.
Qed.

Context `{!BoostLaws, !BoostSearchLaws}.

(** A text without quotes nor semicolons is the value of its option. *)
Lemma parse_sub_values_plain r text o :
  tight text -> free_of [QUOTE_CHAR] text -> free_of (str ";") text ->
  MIME_HeaderOption.m_value (parse_sub_values r text o) = text.
Proof.
  intros Ht Hq Hs. unfold parse_sub_values. rewrite trim_tight by done.
  assert (Ha : put_aside (length text) r [] text = ([], text)) by (destruct text; [done|]; cbn [length put_aside]; by rewrite quoted_none).
  rewrite Ha, split_one by done. cbn [sub_values put_back put_back_from MIME_HeaderOption.setValue MIME_HeaderOption.m_value].
  by rewrite !trim_tight by (rewrite ?trim_tight by done; done).
Qed.
End Option.

(** ** The header *)

Section Header.
Context `{BoostText, BoostSearch, RandomSource}.
Implicit Types f : fields.

(** The options of a name, in order. *)
Definition header_options (name : bytes) f : list MIME_HeaderOption.t := map (option_at f) (getOptionsByName name f).
(** Their texts, as they came. *)
Definition header_values (name : bytes) f : list bytes := map MIME_HeaderOption.m_origValue (header_options name f).

Lemma header_options_values name f : header_options name f = map (option_at f) (values_of (to_upper_copy name) (m_headers f)).
Proof. done. Qed.

Lemma raw_is_first name f : getOptionRawStringByName name f = default [] (head (header_values name f)).
Proof. unfold header_values, header_options, getOptionRawStringByName, getOptionByName. by destruct (getOptionsByName name f). Qed.

Lemma value_is_first name f :
  getOptionValueStringByName name f = default [] (option_map MIME_HeaderOption.m_value (head (header_options name f))).
Proof. unfold header_options, getOptionValueStringByName, getOptionByName. by destruct (getOptionsByName name f). Qed.

Lemma exist_is_first name f : exist name f = bool_decide (is_Some (head (header_options name f))).
Proof.
  unfold exist, header_options, getOptionByName. by destruct (getOptionsByName name f).
Qed.

(** The options are in the order of their names, each under its own name, and
    there are no more than allowed. *)
Definition header_wf f : Prop :=
  StronglySorted key_le (m_headers f) /\
  Forall (fun kv => (snd kv < length (store f))%nat /\ fst kv = MIME_HeaderOption.getUpperName (option_at f (snd kv))) (m_headers f) /\
  zlen (m_headers f) <= m_maxOptions f /\
  match m_lastOpt f with Some i => (i < length (store f))%nat | None => True end.

Lemma new_wf : header_wf fields_new.
Proof. split; [constructor|]. split; [constructor|]. split; [|done]. vm_compute. discriminate. Qed.

Lemma option_at_old f o i : (i < length (store f))%nat -> option_at (set_store (store f ++ [o]) f) i = option_at f i.
Proof. intros Hi. unfold option_at. cbn [store set_store]. by rewrite lookup_app_l. Qed.

Lemma option_at_new f o : option_at (set_store (store f ++ [o]) f) (length (store f)) = o.
Proof. unfold option_at. cbn [store set_store]. by rewrite list_lookup_middle. Qed.

Lemma header_options_in f key i : header_wf f -> i ∈ getOptionsByName key f -> (i < length (store f))%nat.
Proof.
  intros (_ & Hf & _) Hi. unfold getOptionsByName, equal_range in Hi. apply list_elem_of_fmap in Hi as ([k j] & -> & [_ Hj]%list_elem_of_filter).
  rewrite Forall_forall in Hf. by apply (Hf (k, j) Hj).
Qed.

(** *** Adding *)

Definition same_limits f f' : Prop :=
  m_maxOptions f' = m_maxOptions f /\ m_maxSubOptionCount f' = m_maxSubOptionCount f /\ m_maxSubOptionSize f' = m_maxSubOptionSize f.

Context `{!RandomLaws}.

Lemma parseSubValues_run o text f :
  exists r, parseSubValues o text f = (Ret (parse_sub_values r text o), set_drawn (S (drawn f)) f) /\ zlen r = 16 /\ made_from charset r.
Proof.
  destruct (createRandomString_text 16 (drawn f) ltac:(lia)) as (r & Hr & Hl & Hm). exists r. unfold parseSubValues. by rewrite Hr.
Qed.

Lemma add_full name value f : zlen (m_headers f) = m_maxOptions f -> add name value 0 f = (Ret false, f).
Proof. intros Hfull. unfold add. cbn [Z.eqb]. by rewrite Hfull, Z.eqb_refl. Qed.

Lemma add_new name value f :
  header_wf f -> zlen (m_headers f) < m_maxOptions f ->
  exists r f', add name value 0 f = (Ret true, f') /\ zlen r = 16 /\ made_from charset r /\ header_wf f' /\ same_limits f f' /\
    zlen (m_headers f') = zlen (m_headers f) + 1 /\
    forall key, header_options key f' = header_options key f ++
      (if decide (to_upper_copy name = to_upper_copy key)
       then [parse_sub_values r value (MIME_HeaderOption.setOrigName name MIME_HeaderOption.new)] else []).
Proof.
  intros Hwf Hroom. pose proof Hwf as (Hs & Hf & Hmax & Hlast).
  destruct (parseSubValues_run (MIME_HeaderOption.setOrigName name MIME_HeaderOption.new) value f) as (r & Hr & Hlr & Hmr).
  set (o := parse_sub_values r value _) in *. exists r. set (f1 := set_store (store f ++ [o]) (set_drawn (S (drawn f)) f)).
  set (i := length (store f)). set (k := MIME_HeaderOption.getUpperName o).
  assert (Hnew : option_at f1 i = o) by exact (option_at_new (set_drawn (S (drawn f)) f) o).
  assert (Hk : k = to_upper_copy name).
  { unfold k, MIME_HeaderOption.getUpperName. destruct (parse_sub_values_text r value (MIME_HeaderOption.setOrigName name MIME_HeaderOption.new)) as [E _].
    fold o in E. by rewrite E. }
  exists (set_lastOpt (Some i) (set_headers (multimap_insert (k, i) (m_headers f)) f1)). split; [|split; [done|split; [done|]]].
  - unfold add. cbn [Z.eqb]. replace (zlen (m_headers f) =? m_maxOptions f) with false by lia. unfold bind at 1. rewrite Hr.
    unfold bind at 1, make_shared. cbn [store set_drawn]. fold i. fold f1. unfold bind at 1, addHeaderOption.
    change (m_headers f1) with (m_headers f). change (m_maxOptions f1) with (m_maxOptions f).
    replace (zlen (m_headers f) =? m_maxOptions f) with false by lia.
    by rewrite Hnew.
  - assert (Hold : forall j, (j < i)%nat -> option_at f1 j = option_at f j) by (intros j Hj; by apply (option_at_old (set_drawn (S (drawn f)) f) o)).
    assert (Hlen : zlen (multimap_insert (k, i) (m_headers f)) = zlen (m_headers f) + 1)
      by (unfold zlen; rewrite (Permutation_length (insert_permutation (k, i) (m_headers f))); cbn [length]; lia).
    assert (Hst : length (store f ++ [o]) = S i) by (rewrite length_app; cbn; lia).
    split; [|split; [done|split; [exact Hlen|]]].
    + split; [by apply insert_sorted|]. split; [|split; [cbn; lia|cbn; rewrite Hst; lia]].
      apply Forall_forall. intros [k' j] [[= -> ->]|Hj]%insert_in; cbn [fst snd].
      * split; [cbn; rewrite Hst; lia|]. change (option_at (set_lastOpt _ _) i) with (option_at f1 i). by rewrite Hnew.
      * rewrite Forall_forall in Hf. destruct (Hf _ Hj) as [Hj1 Hj2]. cbn [fst snd] in *. split; [cbn; rewrite Hst; lia|].
        change (option_at (set_lastOpt _ _) j) with (option_at f1 j). by rewrite Hold.
    + intros key. rewrite !header_options_values. cbn [m_headers set_lastOpt set_headers]. rewrite values_of_insert by done.
      assert (Hmap : map (option_at f1) (values_of (to_upper_copy key) (m_headers f)) = map (option_at f) (values_of (to_upper_copy key) (m_headers f))).
      { apply map_ext_in. intros j Hj. apply Hold. apply (header_options_in f key); [done|]. by apply list_elem_of_In. }
      rewrite Hk. case_decide; [|by rewrite app_nil_r]. rewrite map_app. cbn [map].
      change (option_at (set_lastOpt _ _)) with (option_at f1). by rewrite Hmap, Hnew.
Qed.

(** *** Removing and replacing *)

Lemma remove_wf name f : header_wf f -> header_wf (remove name f).
Proof.
  intros (Hs & Hf & Hm & Hl). split; [by apply filter_sorted|]. split.
  { apply Forall_forall. intros kv [_ Hkv]%list_elem_of_filter. rewrite Forall_forall in Hf. by apply Hf. }
  split; [|exact Hl].
  cbn [m_headers remove set_headers m_maxOptions]. unfold zlen in *. pose proof (length_filter (fun kv : bytes * nat => fst kv <> to_upper_copy name) (m_headers f)). lia.
Qed.

Lemma remove_options name key f :
  header_options key (remove name f) = if decide (to_upper_copy name = to_upper_copy key) then [] else header_options key f.
Proof. rewrite !header_options_values. cbn [m_headers remove set_headers]. rewrite values_of_remove. by case_decide. Qed.

Lemma remove_count name f : zlen (m_headers (remove name f)) <= zlen (m_headers f).
Proof. unfold zlen. pose proof (length_filter (fun kv : bytes * nat => fst kv <> to_upper_copy name) (m_headers f)). cbn. lia. Qed.

Lemma replace_run name value f :
  header_wf f -> zlen (m_headers f) < m_maxOptions f ->
  exists r f', replace name value f = (Ret tt, f') /\ zlen r = 16 /\ made_from charset r /\ header_wf f' /\ same_limits f f' /\
    zlen (m_headers f') <= zlen (m_headers f) + 1 /\
    forall key, header_options key f' =
      (if decide (to_upper_copy name = to_upper_copy key)
       then [parse_sub_values r value (MIME_HeaderOption.setOrigName name MIME_HeaderOption.new)] else header_options key f).
Proof.
  intros Hwf Hroom. pose proof (remove_count name f) as Hc.
  destruct (add_new name value (remove name f) (remove_wf name f Hwf)) as (r & f' & Ha & Hr & Hm & Hwf' & Hlim & Hcount & Ho); [change (m_maxOptions (remove name f)) with (m_maxOptions f); lia|].
  exists r, f'. split; [unfold replace, bind, modify; by rewrite Ha|]. repeat (split; [done|]). split; [lia|].
  intros key. rewrite Ho, remove_options. case_decide; [done|]. by rewrite app_nil_r.
Qed.
End Header.

(** ** The text of a header *)

(** The options a header prints, in its order. *)
Definition options_of (f : fields) : list MIME_HeaderOption.t := map (fun kv => option_at f (snd kv)) (m_headers f).

Definition option_line (o : MIME_HeaderOption.t) : bytes := MIME_HeaderOption.toString o ++ CRLF.
Definition header_text (options : list MIME_HeaderOption.t) : bytes := flat_map option_line options ++ CRLF.

(** No line end within. *)
Lemma line_end_first line q : free_of [CR; LF] line -> occurs CRLF (line ++ CRLF) q -> zlen line <= q.
Proof.
  intros Hl Ho. destruct (Z.le_gt_cases (zlen line) q) as [|Hlt]; [done|]. exfalso.
  pose proof Ho as (Hq & _). pose proof (occurs_has_char CR [LF] _ _ Ho) as Hc. rewrite has_char_app in Hc by done.
  rewrite decide_True in Hc by lia. apply list_elem_of_lookup_2 in Hc.
  pose proof (proj1 (Forall_forall _ line) Hl _ Hc) as Hn. apply Hn. apply elem_of_cons. by left.
Qed.

(** An option whose line is read back as it was. *)
Definition option_fits (o : MIME_HeaderOption.t) : Prop :=
  let name := MIME_HeaderOption.m_origName o in
  let value := MIME_HeaderOption.m_origValue o in
  chr 58 ∉ name /\ free_of [CR; LF] name /\ free_of [CR; LF] value /\ c_str value = value /\
  match name with c :: _ => uchar c <> 32 /\ uchar c <> 9 | [] => True end /\ zlen name + zlen value + 4 <= HEADER_LIMIT.

Section Reading.
Context `{BoostText, BoostSearch, RandomSource}.
Implicit Types f : fields.

Lemma parse_option_line o f :
  option_fits o ->
  parseOptionValue (MIME_HeaderOption.toString o) f =
  (do! add (MIME_HeaderOption.m_origName o) (MIME_HeaderOption.m_origValue o) 0 in ret tt) f.
Proof.
  intros (Hcolon & _ & _ & Hnul & Hfirst & _). unfold parseOptionValue, MIME_HeaderOption.toString.
  set (name := MIME_HeaderOption.m_origName o) in *. set (value := MIME_HeaderOption.m_origValue o) in *. cbn zeta.
  assert (Hc : let c := match c_str (name ++ str ": " ++ value) with c :: _ => uchar c | [] => 0 end in (c =? 32) || (c =? 9) = false).
  { destruct name as [|c name]; [done|]. cbn [app c_str]. destruct (uchar c =? 0); [done|]. destruct Hfirst. cbn zeta. lia. }
  cbn zeta in Hc. rewrite Hc. change (str ": ") with (chr 58 :: [chr 32]). rewrite string_find_at by done.
  change (chr 58 :: [chr 32]) with (str ": "). rewrite ztake_length_app, app_assoc.
  replace (zlen name + 2) with (zlen (name ++ str ": ")) by (rewrite zlen_app; done). by rewrite zdrop_length_app, Hnul.
Qed.

Context `{!RandomLaws}.

(** What was read of an option that was sent. *)
Definition reread (sent received : MIME_HeaderOption.t) : Prop :=
  exists r, made_from charset r /\ received = parse_sub_values r (MIME_HeaderOption.m_origValue sent)
    (MIME_HeaderOption.setOrigName (MIME_HeaderOption.m_origName sent) MIME_HeaderOption.new).

Definition named (key : bytes) (o : MIME_HeaderOption.t) : Prop := MIME_HeaderOption.getUpperName o = to_upper_copy key.
#[export] Instance named_dec key o : Decision (named key o).
Proof. unfold named. apply _. Defined.

Lemma named_reread key o n : reread o n -> named key o <-> named key n.
Proof.
  intros (r & _ & ->). unfold named, MIME_HeaderOption.getUpperName.
  destruct (parse_sub_values_text r (MIME_HeaderOption.m_origValue o) (MIME_HeaderOption.setOrigName (MIME_HeaderOption.m_origName o) MIME_HeaderOption.new)) as [-> _].
  done.
Qed.

Lemma read_header_text options f rest :
  header_wf f -> zlen (m_headers f) + zlen options <= m_maxOptions f -> Forall option_fits options ->
  exists f' received, reads eat_header (Goes (f, [])) (header_text options ++ rest) = Ends f' rest /\ header_wf f' /\ same_limits f f' /\
    Forall2 reread options received /\ forall key, header_options key f' = header_options key f ++ filter (named key) received.
Proof.
  intros Hwf Hroom Hfit. revert f Hwf Hroom. induction Hfit as [|o options Ho _ IH]; intros f Hwf Hroom.
  - exists f, []. split.
    + change (header_text [] ++ rest) with ([] ++ CRLF ++ rest).
      rewrite (reads_whole_line _ HEADER_LIMIT (fun p => (f, p)) (fun line => next_line (read_option f line)) (fun _ _ => eq_refl) []);
        [|intros q; apply line_end_first; constructor|vm_compute; discriminate].
      cbn [next_line read_option]. by rewrite reads_ended.
    + split; [done|]. split; [done|]. split; [constructor|]. intros key. by rewrite app_nil_r.
  - rewrite zlen_cons in Hroom. pose proof (zlen_nonneg options).
    destruct (add_new (MIME_HeaderOption.m_origName o) (MIME_HeaderOption.m_origValue o) f Hwf ltac:(lia))
      as (r & f1 & Ha & _ & Hm & Hwf1 & Hlim1 & Hcount & Hopt).
    pose proof Hlim1 as (Hmax & Hlim2). destruct (IH f1 Hwf1) as (f' & received & Hr & Hwf' & Hlim' & Hrec & Hopt'); [lia|].
    set (n := parse_sub_values r _ _) in *. exists f', (n :: received). split; [|split; [done|split; [|split]]].
    + unfold header_text. cbn [flat_map]. unfold option_line at 1. rewrite <- !app_assoc.
      destruct Ho as (Hcolon & Hname & Hvalue & Hnul & Hfirst & Hlen). pose proof (zlen_nonneg (MIME_HeaderOption.m_origName o)).
      rewrite (reads_whole_line _ HEADER_LIMIT (fun p => (f, p)) (fun line => next_line (read_option f line)) (fun _ _ => eq_refl)).
      * unfold read_option, next_line. rewrite parse_option_line by done. unfold bind. rewrite Ha. cbn [ret].
        destruct (MIME_HeaderOption.toString o) as [|c l] eqn:Et; [by apply app_eq_nil in Et as [_ ?]|].
        rewrite app_assoc. exact Hr.
      * intros q. apply line_end_first. unfold MIME_HeaderOption.toString. apply free_of_app. split; [done|]. apply free_of_app.
        split; [by apply free_of_checked|done].
      * unfold MIME_HeaderOption.toString. rewrite !zlen_app. change (zlen (str ": ")) with 2. lia.
    + destruct Hlim' as (E1 & E2 & E3). destruct Hlim2 as (E4 & E5). unfold same_limits. by rewrite E1, E2, E3.
    + constructor; [by exists r|done].
    + intros key. rewrite Hopt', Hopt, <- app_assoc, filter_cons. pose proof (named_reread key o n ltac:(by exists r)) as Hn.
      unfold named at 1, MIME_HeaderOption.getUpperName in Hn. destruct (decide (named key n)), (decide (to_upper_copy _ = _)); tauto || done.
Qed.

(** The options of a name, among all of them. *)
Lemma options_named key f : header_wf f -> filter (named key) (options_of f) = header_options key f.
Proof.
  intros (_ & Hf & _). unfold header_options, getOptionsByName, equal_range, options_of.
  induction Hf as [|[k i] l [_ Hk] _ IH]; [done|]. cbn [map snd fst] in *. rewrite !filter_cons. cbn [fst].
  assert (Hn : named key (option_at f i) <-> k = to_upper_copy key) by (unfold named; by rewrite Hk).
  destruct (decide (named key (option_at f i))), (decide (k = to_upper_copy key)); [|tauto..|done]. cbn [map snd]. by rewrite IH.
Qed.

Lemma reread_text key options received :
  Forall2 reread options received ->
  map MIME_HeaderOption.m_origValue (filter (named key) received) = map MIME_HeaderOption.m_origValue (filter (named key) options).
Proof.
  induction 1 as [|o n options received Hr _ IH]; [done|]. rewrite !filter_cons. pose proof (named_reread key o n Hr) as Hn.
  destruct (decide (named key n)), (decide (named key o)); [|tauto..|done]. cbn [map]. rewrite IH. f_equal.
  destruct Hr as (r & _ & ->). by apply parse_sub_values_text.
Qed.
End Reading.

(** What a header writes. *)
Lemma header_sent {U} `{FullSink U} f (u : U) :
  has_room u (zlen (header_text (options_of f))) ->
  exists u', streamToUpstream f u = (Ret true, u') /\ wrote u (header_text (options_of f)) u'.
Proof.
  unfold streamToUpstream, options_of. generalize (map (fun kv : bytes * nat => option_at f (snd kv)) (m_headers f)). intros options.
  revert u. induction options as [|o options IH]; intros u Hroom; cbn [stream_options].
  - destruct (writeString_wrote u CRLF Hroom) as (u' & Hw & Hv). exists u'. split; [|done].
    unfold bind, gets. rewrite Hw. destruct Hv as (Ho & _). by rewrite sink_ok_succeed.
  - unfold header_text in *. cbn [flat_map] in *. rewrite <- app_assoc in *. rewrite zlen_app in Hroom.
    pose proof (zlen_nonneg (flat_map option_line options ++ CRLF)). pose proof (zlen_nonneg (option_line o)).
    destruct (writeString_wrote u (option_line o)) as (u1 & Hw & Hv); [destruct Hroom; split; [done|lia]|].
    destruct (IH u1 (room_after u _ u1 _ Hroom Hv)) as (u' & Hs & Hv'). exists u'. split; [|by eapply wrote_app].
    unfold bind, gets. fold (option_line o). rewrite Hw. destruct Hv as (Ho & _). by rewrite (sink_ok_succeed u1 Ho).
Qed.
