(* ===== verification/HttpTransfer.v ===== *)
(** * A body in chunks, from the sender to the receiver

    What ContentChunkedTransformer sends, read by the receiver of
    HttpContentSpec.v, and concrete bodies. *)

From S2P Require Import Prelude Mem Encoders SafeInt CText StreamableObject BBase BMem BChunk BChunks BChunksFacts BChunksSpec BRef SubParser SubParserSpec Parser Preserves Lens Lines HttpChunked HttpContent HttpContentSpec.

(** ** The size in a line *)

(** What the C library makes of a hexadecimal digit. *)
Lemma xdigit_char c :
  isxdigit c = true ->
  uchar c <> 0 /\ isspace c = false /\ (uchar c =? 45) = false /\ (uchar c =? 43) = false /\
  (uchar (tolower c) =? 120) = false /\ c <> CR /\ digit_value 16 c = Some (hexToValue c).
Proof.
  assert (Hall : forallb (fun c => negb (isxdigit c) || (negb (uchar c =? 0) && negb (isspace c) &&
    negb (uchar c =? 45) && negb (uchar c =? 43) && negb (uchar (tolower c) =? 120) && bool_decide (c <> CR) &&
    bool_decide (digit_value 16 c = Some (hexToValue c)))) all_chars = true) by (vm_compute; reflexivity).
  intros Hx. pose proof (forall_chars _ Hall c) as Hc. simpl in Hc. rewrite Hx in Hc. cbn [negb orb] in Hc.
  rewrite !andb_true_iff, !negb_true_iff, !bool_decide_eq_true in Hc.
  destruct Hc as ((((((? & ?) & ?) & ?) & ?) & ?) & ?). zbool. repeat (split; [first [assumption|lia]|]); assumption.
Qed.

Definition xdigits (l : bytes) : Prop := Forall (fun c => isxdigit c = true) l.

Lemma hex_digits_xdigits fuel n acc : 0 <= n -> xdigits acc -> xdigits (hex_digits fuel n acc).
Proof.
  revert n acc. induction fuel as [|fuel IH]; intros n acc Hn Ha; cbn [hex_digits]; [done|]. case_cond; zbool.
  - constructor; [|done]. by apply hex_digit_value.
  - apply IH; [divlia|]. constructor; [|done]. apply hex_digit_value. divlia.
Qed.

Lemma digits_parse_hex l n : xdigits l -> digits 16 n l = parse_hex n l.
Proof.
  intros Hl. revert n. induction Hl as [|c l Hc _ IH]; intros n; [done|]. cbn [digits parse_hex].
  destruct (xdigit_char c Hc) as (_ & _ & _ & _ & _ & _ & ->). by rewrite Hc.
Qed.

Lemma c_str_xdigits l : xdigits l -> c_str l = l.
Proof.
  induction 1 as [|c l Hc _ IH]; [done|]. cbn [c_str]. destruct (xdigit_char c Hc) as (Hz & _).
  replace (uchar c =? 0) with false by lia. by rewrite IH.
Qed.

Lemma strtoul_xdigits l :
  xdigits l -> l <> [] -> 0 <= fst (parse_hex 0 l) < 2 ^ 64 -> snd (parse_hex 0 l) = [] ->
  strtoul 16 l = Some (fst (parse_hex 0 l), []).
Proof.
  intros Hl Hne Hr Hs. unfold strtoul. rewrite c_str_xdigits by done.
  destruct l as [|c l]; [done|]. pose proof Hl as [Hc Hl']%Forall_cons.
  destruct (xdigit_char c Hc) as (_ & Hsp & H45 & H43 & _ & _ & Hd). cbn [skip_spaces]. rewrite Hsp, H45, H43. cbn [orb].
  assert (Hpre : (match c :: l with
    | z :: x :: d :: _ => if (16 =? 16) && (uchar z =? 48) && (uchar (tolower x) =? 120)
                             && bool_decide (is_Some (digit_value 16 d)) then drop 2 (c :: l) else c :: l
    | _ => c :: l end) = c :: l).
  { destruct l as [|x [|d l]]; [done|done|]. apply Forall_cons in Hl' as [Hx _].
    destruct (xdigit_char x Hx) as (_ & _ & _ & _ & -> & _). by rewrite !andb_false_r. }
  rewrite Hpre, Hd, digits_parse_hex by done. destruct (parse_hex 0 (c :: l)) as [n rest]. simpl in *. subst rest.
  replace (n >? 2 ^ 64 - 1) with false by lia. done.
Qed.

Lemma sprintf_X_xdigits n : 0 <= n -> xdigits (sprintf_X n).
Proof. intros Hn. apply hex_digits_xdigits; [done|constructor]. Qed.

Lemma hex_digits_nonempty fuel n acc : (0 < fuel)%nat -> hex_digits fuel n acc <> [].
Proof.
  revert n acc. induction fuel as [|fuel IH]; intros n acc Hf; [lia|]. cbn [hex_digits]. case_cond; [done|].
  destruct fuel; [done|apply IH; lia].
Qed.

Lemma line_size_sprintf maxChunk n :
  0 <= n <= maxChunk -> n < 2 ^ 32 -> line_size maxChunk (sprintf_X n) = Some n.
Proof.
  intros Hn Hlt. assert (Hp : parse_hex 0 (sprintf_X n) = (n, [])).
  { pose proof (parse_hex_digits 8 n [] [] ltac:(lia) ltac:(lia)) as Hp. rewrite app_nil_r in Hp. exact Hp. }
  unfold line_size. rewrite strtoul_xdigits; rewrite ?Hp; cbn [fst snd].
  - rewrite Z.mod_small by lia. by replace (n >? maxChunk) with false by lia.
  - apply sprintf_X_xdigits. lia.
  - apply hex_digits_nonempty. lia.
  - lia.
  - done.
Qed.

Lemma xdigits_first line q : xdigits line -> occurs CRLF (line ++ CRLF) q -> zlen line <= q.
Proof.
  intros Hl Ho. destruct (Z.le_gt_cases (zlen line) q) as [|Hlt]; [done|]. exfalso.
  pose proof Ho as (Hq & _). pose proof (occurs_has_char CR [LF] _ _ Ho) as Hc. rewrite has_char_app in Hc by done.
  rewrite decide_True in Hc by lia. apply list_elem_of_lookup_2 in Hc.
  apply (xdigit_char CR); [|done]. revert Hc. apply (proj1 (Forall_forall _ line) Hl).
Qed.

Section Reading.
Context (maxChunk pieces : Z).
Abbreviation read := (reads (read_byte maxChunk pieces)).

Lemma read_size_line limit body n :
  0 <= n <= maxChunk -> n < 2 ^ 32 -> n <= pieces -> 10 <= limit ->
  read (Going (SizeLine limit) [] body) (sprintf_X n ++ CRLF) =
  if n =? 0 then Finished body [] else Going (ChunkData n) [] body.
Proof.
  intros Hn Hlt Hp Hlim. set (L := fun pending => (SizeLine limit, pending, body) : body_state).
  rewrite (reads_line_end _ limit L (after_size maxChunk pieces body) (fun _ _ => eq_refl) [] _ (sprintf_X n)); [|done| | |].
  - unfold after_size. rewrite line_size_sprintf by done. by replace (n >? pieces) with false by lia.
  - by intros [_ ?]%app_eq_nil.
  - pose proof (sprintf_X_length n). lia.
  - intros q. apply xdigits_first, sprintf_X_xdigits. lia.
Qed.

Lemma read_chunk limit body f :
  f <> [] -> zlen f <= maxChunk -> zlen f < 2 ^ 32 -> zlen f <= pieces -> 10 <= limit ->
  read (Going (SizeLine limit) [] body) (sprintf_X (zlen f) ++ CRLF ++ f ++ CRLF) =
  Going (SizeLine (1 * KB_MULT)) [] (body ++ f).
Proof.
  intros Hne Hm Hlt Hp Hlim. pose proof (zlen_pos f Hne). rewrite app_assoc, reads_app, read_size_line by lia.
  replace (zlen f =? 0) with false by lia. rewrite reads_app, read_data_end by done. by apply read_end_end.
Qed.

(** The reader of what the sender makes of a sequence of writes. *)
Lemma read_chunked_body limit body frags rest :
  Forall (fun f => f <> [] /\ (zlen f <= maxChunk) /\ (zlen f < 2 ^ 32) /\ (zlen f <= pieces)) frags ->
  0 <= maxChunk -> 0 <= pieces -> 10 <= limit ->
  read (Going (SizeLine limit) [] body) (chunked_body frags ++ rest) = Finished (body ++ concat frags) rest.
Proof.
  intros Hf Hm Hp. revert limit body. induction Hf as [|f frags (Hne & Hfm & Hlt & Hfp) _ IH]; intros limit body Hlim.
  - change (chunked_body []) with (sprintf_X 0 ++ CRLF). rewrite reads_app, read_size_line by lia. cbn [concat].
    change (0 =? 0) with true. cbn iota. by rewrite app_nil_r, reads_ended.
  - unfold chunked_body in *. cbn [flat_map concat]. rewrite <- app_assoc, <- app_assoc. rewrite reads_app, read_chunk by done.
    rewrite (app_assoc _ _ rest), IH by (vm_compute; discriminate). by rewrite app_assoc.
Qed.
End Reading.

(** ** From the sender to the receiver *)

Section Transfer.
Context {M : Type} `{BBase M, MmapFactory M} (uninitialised : Z -> bytes).
Context {S : Type} `{FullSink S} `{!AcceptsEOF S} {U : Type} `{FullSink U}.

(** A write the receiver takes as one chunk. *)
Definition chunk_fits (f : bytes) : Prop := f <> [] /\ (zlen f <= PIECES).

Lemma chunk_fits_limits f :
  chunk_fits f -> f <> [] /\ (zlen f <= MAX_CHUNK) /\ (zlen f < 2 ^ 32) /\ (zlen f <= PIECES).
Proof.
  intros [Hne Hl]. assert (PIECES <= MAX_CHUNK /\ PIECES < 2 ^ 32) by (split; vm_compute; [discriminate|done]).
  split; [done|]. lia.
Qed.

(** C23: a body sent in chunks is received as it was. For any sequence of
    non-empty writes of at most 256 KiB, to a transformer over any destination
    with room, every write succeeds; and the text that is sent, however it is
    cut on the way into writes that the round limit allows, gives a client in
    chunked mode, with any destination with room, exactly the concatenation of
    the writes, and leaves it without element parser. The receiver stops at the
    last chunk and does not take the end of line that follows it, so the write
    with that end of line reports that it was not taken whole. *)
Theorem chunked_transfer (s : U) (out out0 : S) writes :
  Forall chunk_fits writes -> sink_ok s -> sink_ok out -> zlen (concat writes) <= SSIZE_MAX ->
  zlen (concat writes) + 12 * zlen writes + 7 <= sink_room s -> zlen (chunked_text writes) <= sink_room out ->
  exists c' c'' sent,
    cct_writes writes (ContentChunkedTransformer_new s) = (Ret true, c') /\ cct_write [] c' = (Ret (Some 0), c'') /\
    sink_view (upStreamOut c'') = sink_view s ++ sent /\
    forall cuts, concat cuts = sent -> Forall (write_fits PIECES 4096) cuts ->
    exists p', write_all (Prot := BodyReceiver_protocol) uninitialised cuts
        (BodyReceiver_new (M := M) (starting TRANSMIT_MODE_CHUNKS out out0)) = (Ret false, p') /\
      m_currentParser (Protocol := BodyReceiver_protocol) p' = None /\
      sink_view (m_outStream (br_content p')) = sink_view out ++ concat writes.
Proof.
  intros Hw Hs Ho Hl Hr Hro. assert (Hlim : Forall (fun f => f <> [] /\ (zlen f <= MAX_CHUNK) /\ (zlen f < 2 ^ 32) /\ (zlen f <= PIECES)) writes)
    by (eapply Forall_impl; [exact Hw|exact chunk_fits_limits]).
  destruct (cct_writes_chunks (ContentChunkedTransformer_new s) writes) as (c' & c'' & Hc & He & _ & Hv);
    [eapply Forall_impl; [exact Hlim|]; by intros f (? & _ & ? & _)|done|done|exact Hl|exact Hr|].
  exists c', c'', (chunked_text writes). split; [done|]. split; [done|]. split; [exact Hv|]. intros cuts Hcuts Hfits.
  assert (Htxt : zlen (concat cuts) = zlen (chunked_text writes)) by by rewrite Hcuts.
  pose proof (chunked_starts (M := M) _ out out0 Ho (Z.le_refl _)) as Hok. set (p := BodyReceiver_new _) in *.
  assert (Hread : read MAX_CHUNK PIECES (Going (SizeLine 64) [] (sink_view out)) (concat cuts)
      = Finished (sink_view out ++ concat writes) CRLF).
  { rewrite Hcuts, chunked_text_body. apply read_chunked_body; [done|by vm_compute..]. }
  pose proof (write_all_reads uninitialised MAX_CHUNK PIECES ltac:(split; vm_compute; discriminate)
    ltac:(split; vm_compute; [discriminate|done]) 4096 ltac:(split; vm_compute; [discriminate|done]) _ _ p cuts Hok Hfits) as Hall.
  specialize (Hall ltac:(rewrite Htxt; exact Hro)).
  rewrite Hread in Hall. destruct Hall as (p' & Hp & _ & Hc' & Hv'). by exists p'.
Qed.
End Transfer.

(** ** Concrete bodies *)

Definition client (t : eTransmitionMode) : BodyReceiver B_MEM StreamableString :=
  BodyReceiver_new (starting t StreamableString_new StreamableString_new).

(** What a client in chunked mode makes of some writes. *)
Definition run_chunks (frags : list bytes) : res bool * bytes :=
  let (r, p) := write_all (Prot := BodyReceiver_protocol) (fun _ => []) frags (client TRANSMIT_MODE_CHUNKS) in
  (r, sink_view (m_outStream (br_content p))).

(** The size of a chunk is read by [strtoul] into 32 bits: a sign is
    accepted, and a size beyond 32 bits is reduced modulo 2^32, so that the
    limit on the size of a chunk does not see it. *)
Theorem chunk_size_wraps :
  run_chunks [str "-FFFFFFFB" ++ CRLF ++ str "hello" ++ CRLF ++ str "0" ++ CRLF] = (Ret true, str "hello") /\
  run_chunks [str "100000005" ++ CRLF ++ str "hello" ++ CRLF ++ str "0" ++ CRLF] = (Ret true, str "hello") /\
  run_chunks [str "1000001" ++ CRLF ++ str "hello" ++ CRLF ++ str "0" ++ CRLF] = (Ret false, []).
Proof. split; [|split]; vm_compute; reflexivity. Qed.

(** ** Witnesses *)

Lemma new_string_ok : sink_ok StreamableString_new.
Proof. split; [done|]. split; [done|]. split; vm_compute; discriminate. Qed.

Definition hello_chunks : list bytes := [str "5" ++ [CR]; [LF] ++ str "hel"; str "lo" ++ CRLF ++ str "0"; CRLF].

Lemma body_of_fragments_witness :
  exists p', write_all (Prot := BodyReceiver_protocol) (fun _ => []) hello_chunks (client TRANSMIT_MODE_CHUNKS) = (Ret true, p') /\
    m_currentParser (Protocol := BodyReceiver_protocol) p' = None /\
    sink_view (m_outStream (br_content p')) = str "hello".
Proof.
  assert (Hread : read MAX_CHUNK PIECES (Going (SizeLine 64) [] []) (concat hello_chunks) = Finished (str "hello") [])
    by (vm_compute; reflexivity).
  pose proof (body_of_fragments (fun _ => []) MAX_CHUNK PIECES 4096 (client TRANSMIT_MODE_CHUNKS) (SizeLine 64, [], []) 1024 hello_chunks) as Hb.
  cbv beta zeta in Hb. rewrite Hread in Hb. apply Hb.
  - split; vm_compute; discriminate.
  - split; vm_compute; [discriminate|reflexivity].
  - split; vm_compute; [discriminate|reflexivity].
  - apply (chunked_starts 1024 StreamableString_new StreamableString_new new_string_ok). vm_compute. discriminate.
  - unfold hello_chunks. repeat constructor; try discriminate; vm_compute; discriminate.
  - vm_compute. discriminate.
Defined.

Lemma chunked_transfer_witness :
  let writes := [str "hello"; str ", world"] in
  exists p', write_all (Prot := BodyReceiver_protocol) (fun _ => []) [chunked_text writes] (client TRANSMIT_MODE_CHUNKS) = (Ret false, p') /\
    sink_view (m_outStream (br_content p')) = str "hello, world".
Proof.
  cbn zeta.
  destruct (chunked_transfer (M := B_MEM) (fun _ => []) StreamableString_new StreamableString_new StreamableString_new
    [str "hello"; str ", world"]) as (c' & c'' & sent & Hw & He & Hv & Hr).
  - repeat constructor; try discriminate; vm_compute; discriminate.
  - exact new_string_ok.
  - exact new_string_ok.
  - vm_compute. discriminate.
  - vm_compute. discriminate.
  - vm_compute. discriminate.
  - assert (Hsent : sent = chunked_text [str "hello"; str ", world"]).
    { vm_compute in Hw. injection Hw as <-. vm_compute in He. injection He as <-. vm_compute in Hv. subst sent. vm_compute. reflexivity. }
    destruct (Hr [sent]) as (p' & Hp & _ & Hview).
    + cbn [concat]. apply app_nil_r.
    + subst sent. repeat constructor; try discriminate; vm_compute; discriminate.
    + exists p'. subst sent. split; [exact Hp|exact Hview].
Defined.
