(* ===== verification/HttpBase.v ===== *)
(** * The two messages of an HTTP exchange (Protocol_HTTP/httpv1_base.h,
    httpv1_base.cpp)

    [Request] and [Response] are the structures a client and a server have in
    common, with the operations their users call. The stream of a body is a
    parameter: [C] for the one that is sent, [S] for the one that receives. *)

From S2P Require Import Prelude Mem SafeInt CText StreamableObject BBase BMem BChunk BChunks BRef SubParser Parser BoostText Random UrlVars HttpLines MimeHeader HttpHeaders HttpCookies HttpContent.

Definition HTTP_PRODUCT_VERSION_MAJOR : Z := 0.
Definition HTTP_PRODUCT_VERSION_MINOR : Z := 4.

(** The next word of an istringstream, and what follows it. *)
Fixpoint word_of (s : bytes) : bytes * bytes :=
  match s with
  | [] => ([], [])
  | c :: s' => if isspace c then ([], s) else let (w, r) := word_of s' in (c :: w, r)
  end.
Definition next_word (s : bytes) : bytes * bytes := word_of (skip_spaces s).

Definition header_of {M} (h : MIME_Sub_Header.t M) : MIME_Sub_Header.fields := MIME_Sub_Header.header h.

(** What [F] does to the fields of a header, whether it returns or throws. *)
Definition on_fields {M A} (F : st MIME_Sub_Header.fields A) : st (MIME_Sub_Header.t M) A := MIME_Sub_Header.on_header F.

(** ** The structures *)

Record BasicAuth : Type := mkBasicAuth { username : bytes; password : bytes; isEnabled : bool }.
Definition BasicAuth_new : BasicAuth := mkBasicAuth [] [] false.
Definition setAuthentication (username password : bytes) (_ : BasicAuth) : BasicAuth := mkBasicAuth username password true.

Record Security : Type := mkSecurity {
  sec_XFrameOpts : XFrameOpts.t;
  sec_XSSProtection : XSSProtection.t;
  sec_HSTS : HSTS.t;
  disableNoSniffContentType : bool
}.
Definition Security_new : Security := mkSecurity XFrameOpts.new XSSProtection.new HSTS.new false.

(** [REMOTE_ADDR] is an array of 46 bytes. *)
Record NetworkClientInfo : Type := mkClientInfo { REMOTE_ADDR : bytes; isSecure : bool; tlsCommonName : bytes }.
Definition INET6_ADDRSTRLEN : Z := 46.
Definition NetworkClientInfo_new : NetworkClientInfo := mkClientInfo (repeat (chr 0) (Z.to_nat INET6_ADDRSTRLEN)) false [].

(** [strncpy]: what fits of the string, then NULs; a string that does not fit
    leaves the array without its NUL. *)
Definition strncpy (src : bytes) (size : Z) : bytes :=
  let s := ztake size (c_str src) in s ++ repeat (chr 0) (Z.to_nat (size - zlen s)).

Module Request.
Section Request.
Context {M : Type} `{BBase M, MmapFactory M} {C : Type} `{BoostText}.

Record t : Type := mk {
  requestLine : RequestLine.t M;
  content : Content M C;
  headers : MIME_Sub_Header.t M;
  basicAuth : BasicAuth;
  userAgent : bytes;
  virtualHost : bytes;
  virtualPort : Z;
  networkClientInfo : NetworkClientInfo
}.

Definition new (stream : C) : t :=
  mk RequestLine.new (Content_new stream) MIME_Sub_Header.new BasicAuth_new [] [] 80 NetworkClientInfo_new.

Definition set_requestLine (x : RequestLine.t M) (r : t) : t := mk x (content r) (headers r) (basicAuth r) (userAgent r) (virtualHost r) (virtualPort r) (networkClientInfo r).
Definition set_content (x : Content M C) (r : t) : t := mk (requestLine r) x (headers r) (basicAuth r) (userAgent r) (virtualHost r) (virtualPort r) (networkClientInfo r).
Definition set_headers (x : MIME_Sub_Header.t M) (r : t) : t := mk (requestLine r) (content r) x (basicAuth r) (userAgent r) (virtualHost r) (virtualPort r) (networkClientInfo r).
Definition set_basicAuth (x : BasicAuth) (r : t) : t := mk (requestLine r) (content r) (headers r) x (userAgent r) (virtualHost r) (virtualPort r) (networkClientInfo r).
Definition set_userAgent (x : bytes) (r : t) : t := mk (requestLine r) (content r) (headers r) (basicAuth r) x (virtualHost r) (virtualPort r) (networkClientInfo r).
Definition set_host (host : bytes) (port : Z) (r : t) : t := mk (requestLine r) (content r) (headers r) (basicAuth r) (userAgent r) host port (networkClientInfo r).
Definition set_clientInfo (x : NetworkClientInfo) (r : t) : t := mk (requestLine r) (content r) (headers r) (basicAuth r) (userAgent r) (virtualHost r) (virtualPort r) x.

(** [getHeaderOption], [getContentType], [getOrigin] and [getReferer]. *)
Definition getHeaderOption (optionName : bytes) (r : t) : bytes :=
  MIME_Sub_Header.getOptionRawStringByName optionName (header_of (headers r)).
Definition getContentType (r : t) : bytes := getHeaderOption (str "Content-Type") r.
Definition getOrigin (r : t) : bytes := getHeaderOption (str "Origin") r.
Definition getReferer (r : t) : bytes := getHeaderOption (str "Referer") r.
Definition getURI (r : t) : bytes := RequestLine.m_requestURI (requestLine r).

Definition getCookies (r : t) : option MIME_HeaderOption.t :=
  let h := header_of (headers r) in
  option_map (MIME_Sub_Header.option_at h) (MIME_Sub_Header.getOptionByName (str "Cookie") h).
Definition getAllCookies (r : t) : list (bytes * bytes) :=
  match getCookies r with Some o => MIME_HeaderOption.m_subVar o | None => [] end.
Definition getCookie (sCookieName : bytes) (r : t) : bytes :=
  match getCookies r with Some o => MIME_HeaderOption.getSubVar sCookieName o | None => [] end.

Definition getAuthorizationBearer (r : t) : bytes :=
  let authorization := getHeaderOption (str "Authorization") r in
  if bool_decide (authorization = []) then []
  else
    let (keyword, rest) := next_word authorization in
    let (headerBearerToken, _) := next_word rest in
    if bool_decide (keyword = str "Bearer") && negb (bool_decide (headerBearerToken = [])) then headerBearerToken else [].
End Request.
Arguments t : clear implicits.
End Request.

Module Response.
Section Response.
Context {M : Type} `{BBase M, MmapFactory M} {S : Type} `{BoostText}.

Record t : Type := mk {
  status : Status.t M;
  content : Content M S;
  headers : MIME_Sub_Header.t M;
  security : Security;
  cookies : Cookies_ServerSide.t;
  cacheControl : CacheControl.t;
  sWWWAuthenticateRealm : bytes;
  contentType : bytes;
  immutableHeaders : bool
}.

Definition new (stream : S) : t :=
  mk Status.new (Content_new stream) MIME_Sub_Header.new Security_new Cookies_ServerSide.new CacheControl.new [] [] false.

Definition set_status (x : Status.t M) (r : t) : t := mk x (content r) (headers r) (security r) (cookies r) (cacheControl r) (sWWWAuthenticateRealm r) (contentType r) (immutableHeaders r).
Definition set_content (x : Content M S) (r : t) : t := mk (status r) x (headers r) (security r) (cookies r) (cacheControl r) (sWWWAuthenticateRealm r) (contentType r) (immutableHeaders r).
Definition set_headers (x : MIME_Sub_Header.t M) (r : t) : t := mk (status r) (content r) x (security r) (cookies r) (cacheControl r) (sWWWAuthenticateRealm r) (contentType r) (immutableHeaders r).
Definition set_security (x : Security) (r : t) : t := mk (status r) (content r) (headers r) x (cookies r) (cacheControl r) (sWWWAuthenticateRealm r) (contentType r) (immutableHeaders r).
Definition set_cookies (x : Cookies_ServerSide.t) (r : t) : t := mk (status r) (content r) (headers r) (security r) x (cacheControl r) (sWWWAuthenticateRealm r) (contentType r) (immutableHeaders r).
Definition set_cacheControl (x : CacheControl.t) (r : t) : t := mk (status r) (content r) (headers r) (security r) (cookies r) x (sWWWAuthenticateRealm r) (contentType r) (immutableHeaders r).
Definition set_realm (x : bytes) (r : t) : t := mk (status r) (content r) (headers r) (security r) (cookies r) (cacheControl r) x (contentType r) (immutableHeaders r).

Definition on_headers {A} (F : st MIME_Sub_Header.fields A) : st t A := fun r =>
  let (x, h) := on_fields F (headers r) in (x, set_headers h r).

Definition setContentType (contentType : bytes) (bNoSniff : bool) (r : t) : t :=
  let s := security r in
  mk (status r) (content r) (headers r)
    (mkSecurity (sec_XFrameOpts s) (sec_XSSProtection s) (sec_HSTS s) bNoSniff)
    (cookies r) (cacheControl r) (sWWWAuthenticateRealm r) contentType (immutableHeaders r).

(** [cacheControl = CacheControl()] and the options set after it. *)
Definition uncached : CacheControl.t :=
  let c := CacheControl.new in
  CacheControl.mk true true true (CacheControl.optionPrivate c) (CacheControl.optionPublic c) (CacheControl.optionImmutable c)
    (CacheControl.optionNoTransform c) (CacheControl.optionProxyRevalidate c) (CacheControl.maxAge c) (CacheControl.sMaxAge c).

(** [None] is a null pointer. *)
Definition setDataStreamer `{ContentStreams S} (dataStream : option S) (r : t) : t :=
  match dataStream with
  | Some s => set_content (setStreamableObj s (content r)) r
  | None =>
      let h := MIME_Sub_Header.remove (str "Last-Modified") (header_of (headers r)) in
      let r := set_headers (MIME_Sub_Header.set_header h (headers r)) r in
      let r := setContentType [] false (set_cacheControl uncached r) in
      set_content (set_internal (content r)) r
  end.

Definition addCookieClearSecure (cookieName path : bytes) (r : t) : t :=
  set_cookies (Cookies_ServerSide.addClearSecureCookie cookieName path (cookies r)) r.

(** The cookie of that name is replaced. *)
Definition setCookie (sCookieName : bytes) (sCookieValue : Cookie.t) (r : t) : t :=
  let (_, m) := Cookies_ServerSide.removeCookie sCookieName (cookies r) in
  let (_, m) := Cookies_ServerSide.addCookieVal sCookieName sCookieValue m in
  set_cookies m r.

Definition setSecureCookie (now : Z) (cookieName cookieValue : bytes) (uMaxAge : Z) (path : bytes) : t -> t :=
  let val := Cookie.setExpirationFromNow now uMaxAge Cookie.new in
  let val := Cookie.set_httpOnly true (Cookie.set_secure true (Cookie.set_value cookieValue (Cookie.set_path path val))) in
  setCookie cookieName (Cookie.set_policy Cookie.HTTP_COOKIE_SAMESITE_STRICT (Cookie.set_maxAge uMaxAge val)).

Definition setInsecureCookie (sCookieName sCookieValue : bytes) : t -> t :=
  setCookie sCookieName (Cookie.set_value sCookieValue Cookie.new).

Definition setRedirectLocation `{ContentStreams S, BoostSearch, RandomSource} (location : bytes) (temporary : bool) : st t Status.Codes :=
  do! on_headers (MIME_Sub_Header.replace (str "Location") location) in
  do! modify (setDataStreamer None) in
  ret (if temporary then Status.S_307_TEMPORARY_REDIRECT else Status.S_308_PERMANENT_REDIRECT).

(** The last part of the constructor of HTTPv1_Base. *)
Definition setInternalProductVersion `{BoostSearch, RandomSource} (prodName extraInfo : bytes) (versionMajor versionMinor : Z) : st t unit :=
  on_headers (MIME_Sub_Header.replace (str "Server")
    (prodName ++ str "/" ++ to_string versionMajor ++ str "." ++ to_string versionMinor
     ++ (match extraInfo with [] => [] | _ => str " " ++ extraInfo end))).

Definition make `{BoostSearch, RandomSource} (stream : S) : res t :=
  fst ((do! setInternalProductVersion (str "Mantids30::HTTP") (str "(+https://github.com/unmanarc/libMantids30)")
          HTTP_PRODUCT_VERSION_MAJOR HTTP_PRODUCT_VERSION_MINOR in gets id) (new stream)).
End Response.
Arguments t : clear implicits.
End Response.
