(* ===== verification/HttpClient.v ===== *)
(** * The client of HTTP (Protocol_HTTP/httpv1_client.cpp)

    A protocol with three element parsers: the status line of the answer, its
    headers and its content, which is there or not and has the transmission mode
    that the headers say. [initProtocol] writes the request to [hc_upStream]. *)

From S2P Require Import Prelude Mem SafeInt CText Encoders StreamableObject BBase BMem BChunk BChunks BRef SubParser SubParserSpec Parser Preserves Lens BoostText Random UrlVars HttpLines MimeHeader HttpHeaders HttpCookies HttpContent HttpBase.

(** [search_realm s]: the text of the realm that regex_search finds in [s] with
    the expression of a basic authentication, and what follows the match. *)
Class RealmSearch : Type := search_realm : bytes -> option (bytes * bytes).

Inductive part_id : Type := InStatus | InHeaders | InContent.

Section Client.
Context {M : Type} `{BBase M, MmapFactory M} {C : Type} `{BBase C} {S : Type} `{Streamable S} {U : Type} `{Streamable U}.
Context `{BoostText, BoostSearch, RandomSource, Date.TimeText, RealmSearch, Base64Encoder}.

Record HTTPv1_Client : Type := mkClient {
  hc_data : ParserData;
  hc_current : option part_id;
  clientRequest : Request.t M C;
  serverResponse : Response.t M S;
  m_clientCookies : Cookies_ClientSide.t;
  m_serverContentType : bytes;
  hc_upStream : U
}.

Definition set_data (d : ParserData) (c : HTTPv1_Client) : HTTPv1_Client :=
  mkClient d (hc_current c) (clientRequest c) (serverResponse c) (m_clientCookies c) (m_serverContentType c) (hc_upStream c).
Definition set_current (p : option part_id) (c : HTTPv1_Client) : HTTPv1_Client :=
  mkClient (hc_data c) p (clientRequest c) (serverResponse c) (m_clientCookies c) (m_serverContentType c) (hc_upStream c).
Definition set_request (r : Request.t M C) (c : HTTPv1_Client) : HTTPv1_Client :=
  mkClient (hc_data c) (hc_current c) r (serverResponse c) (m_clientCookies c) (m_serverContentType c) (hc_upStream c).
Definition set_response (r : Response.t M S) (c : HTTPv1_Client) : HTTPv1_Client :=
  mkClient (hc_data c) (hc_current c) (clientRequest c) r (m_clientCookies c) (m_serverContentType c) (hc_upStream c).
Definition set_clientCookies (m : Cookies_ClientSide.t) (c : HTTPv1_Client) : HTTPv1_Client :=
  mkClient (hc_data c) (hc_current c) (clientRequest c) (serverResponse c) m (m_serverContentType c) (hc_upStream c).
Definition set_serverContentType (s : bytes) (c : HTTPv1_Client) : HTTPv1_Client :=
  mkClient (hc_data c) (hc_current c) (clientRequest c) (serverResponse c) (m_clientCookies c) s (hc_upStream c).
Definition set_up (u : U) (c : HTTPv1_Client) : HTTPv1_Client :=
  mkClient (hc_data c) (hc_current c) (clientRequest c) (serverResponse c) (m_clientCookies c) (m_serverContentType c) u.

Definition on_request (f : Request.t M C -> Request.t M C) (c : HTTPv1_Client) : HTTPv1_Client := set_request (f (clientRequest c)) c.
Definition on_requestLine (f : RequestLine.t M -> RequestLine.t M) : HTTPv1_Client -> HTTPv1_Client :=
  on_request (fun r => Request.set_requestLine (f (Request.requestLine r)) r).
Definition on_request_headers {A} (F : st MIME_Sub_Header.fields A) : st HTTPv1_Client A := fun c =>
  let (x, h) := on_fields F (Request.headers (clientRequest c)) in (x, set_request (Request.set_headers h (clientRequest c)) c).
Definition on_up {A} (f : st U A) : st HTTPv1_Client A := fun c => let (r, u) := f (hc_upStream c) in (r, set_up u c).

(** The constructor, with the two streams of the contents and the one the
    client is made for. *)
Definition HTTPv1_Client_new (sending : C) (receiving : S) (sobject : U) : res HTTPv1_Client :=
  match Response.make receiving with
  | Exc e => Exc e
  | Ret response =>
      let c := mkClient (ParserData_new true) (Some InStatus) (Request.new sending) response Cookies_ClientSide.new [] sobject in
      let c := on_requestLine (fun x => RequestLine.set_version
                 (Version.setMinor 0 (Version.setMajor 1 (RequestLine.m_httpVersion x))) x) c in
      let c := on_requestLine (RequestLine.setRequestMethod (str "GET")) c in
      Ret (on_request (Request.set_userAgent (str "libMantids/" ++ to_string HTTP_PRODUCT_VERSION_MAJOR ++ str "."
                                              ++ to_string HTTP_PRODUCT_VERSION_MINOR)) c)
  end.

(** *** The request *)

Definition upgrade (c : HTTPv1_Client) : HTTPv1_Client :=
  on_requestLine (fun x => RequestLine.set_version (Version.upgradeMinor 1 (RequestLine.m_httpVersion x)) x) c.

Definition setClientRequest (hostName uriPath : bytes) (c : HTTPv1_Client) : HTTPv1_Client :=
  let c := match hostName with [] => c | _ => upgrade c end in
  let c := on_requestLine (RequestLine.setRequestURI uriPath) c in
  on_request (fun r => Request.set_host hostName (Request.virtualPort r) r) c.

Definition setReferer (refererURL : bytes) : st HTTPv1_Client unit :=
  do! modify upgrade in on_request_headers (MIME_Sub_Header.replace (str "Referer") refererURL).

(** The value is appended to a new container. *)
Definition addURLVar (varName varValue : bytes) : st HTTPv1_Client unit := fun c =>
  match append varValue (B_Chunks_new (M := M)) with
  | (Exc e, _) => (Exc e, c)
  | (Ret _, bc) =>
      let line := Request.requestLine (clientRequest c) in
      let (r, vars) := addVar varName bc (RequestLine.m_getVars line) in
      (match r with Ret _ => Ret tt | Exc e => Exc e end, on_requestLine (RequestLine.set_vars vars) c)
  end.

Definition addCookie (cookieName cookieVal : bytes) (c : HTTPv1_Client) : HTTPv1_Client :=
  set_clientCookies (Cookies_ClientSide.addCookieVal cookieName cookieVal (m_clientCookies c)) c.

Definition getResponseHeader (headerName : bytes) (c : HTTPv1_Client) : bytes :=
  MIME_Sub_Header.getOptionValueStringByName headerName (header_of (Response.headers (serverResponse c))).

Definition put_authentication : st HTTPv1_Client unit :=
  let! auth := gets (fun c => Request.basicAuth (clientRequest c)) in
  if isEnabled auth then
    on_request_headers (MIME_Sub_Header.replace (str "Authentication")
      (str "Basic " ++ encodeToBase64 b64_encode (username auth ++ str ":" ++ password auth) false))
  else ret tt.

Definition put_host : st HTTPv1_Client unit :=
  let! r := gets clientRequest in
  match Request.virtualHost r with
  | [] => ret tt
  | host =>
      on_request_headers (MIME_Sub_Header.replace (str "Host")
        (host ++ (if Request.virtualPort r =? 80 then [] else str ":" ++ to_string (Request.virtualPort r))))
  end.

Definition streamClientHeaders : st HTTPv1_Client bool :=
  let! strsize := gets (fun c => v_size (m_outStream (Request.content (clientRequest c)))) in
  if strsize =? SIZE_MAX then ret false
  else
    do! on_request_headers (modify (MIME_Sub_Header.remove (str "Connetion"))) in
    do! on_request_headers (MIME_Sub_Header.replace (str "Content-Length") (to_string strsize)) in
    let! cookies := gets m_clientCookies in
    do! on_request_headers (Cookies_ClientSide.putOnHeaders cookies) in
    do! put_authentication in
    let! agent := gets (fun c => Request.userAgent (clientRequest c)) in
    do! on_request_headers (MIME_Sub_Header.replace (str "User-Agent") agent) in
    do! put_host in
    let! h := gets (fun c => header_of (Request.headers (clientRequest c))) in
    on_up (MIME_Sub_Header.streamToUpstream h).

Definition initProtocol : st HTTPv1_Client bool :=
  let! line := gets (fun c => Request.requestLine (clientRequest c)) in
  let! sent := on_up (RequestLine.streamToUpstream line) in
  if negb sent then ret false
  else
    let! sent := streamClientHeaders in
    if negb sent then ret false
    else
      let! content := gets (fun c => Request.content (clientRequest c)) in
      on_up (HttpContent.streamToUpstream content).

(** *** The answer *)

(** The realm of the last match. *)
Fixpoint realm_loop (fuel : nat) (text realm : bytes) : bytes :=
  match fuel with
  | O => realm
  | Datatypes.S fuel => match search_realm text with
                        | Some (found, rest) => realm_loop fuel rest found
                        | None => realm
                        end
  end.

(** What the client takes from the headers: the options of the answer. *)
Definition read_headers (r : Response.t M S) : Response.t M S :=
  let raw name := MIME_Sub_Header.getOptionRawStringByName (str name) (header_of (Response.headers r)) in
  let r := Response.set_cacheControl (CacheControl.fromString (raw "Cache-Control"%string)) r in
  let s := Response.security r in
  let r := Response.set_security
    (mkSecurity (snd (XFrameOpts.fromString (raw "X-Frame-Options"%string) (sec_XFrameOpts s)))
                (snd (XSSProtection.fromString (raw "X-XSS-Protection"%string) (sec_XSSProtection s)))
                (snd (HSTS.fromString (raw "Strict-Transport-Security"%string) (sec_HSTS s)))
                (iequals (raw "X-Content-Type-Options"%string) (str "nosniff"))) r in
  let fullWWWAuthenticate := raw "WWW-Authenticate"%string in
  match fullWWWAuthenticate with
  | [] => r
  | _ => Response.set_realm (realm_loop (Datatypes.S (length fullWWWAuthenticate)) fullWWWAuthenticate (Response.sWWWAuthenticateRealm r)) r
  end.

Definition parseHeaders2ServerCookies (r : Response.t M S) : Response.t M S :=
  let h := header_of (Response.headers r) in
  let setCookies := MIME_Sub_Header.getOptionsByName [] h in
  let parse_one m opt := snd (Cookies_ServerSide.parseCookie (MIME_HeaderOption.m_origValue (MIME_Sub_Header.option_at h opt)) m) in
  Response.set_cookies (foldl parse_one (Response.cookies r) setCookies) r.

(** Whether there is a content, and the content in its mode. *)
Definition transmission_mode (h : MIME_Sub_Header.fields) (content : Content M S) : bool * Content M S :=
  let content := setTransmitionMode TRANSMIT_MODE_CONNECTION_CLOSE content in
  if MIME_Sub_Header.exist (str "Content-Length") h then
    let len := fst (MIME_Sub_Header.getOptionAsUINT64 (str "Content-Length") 10 h) in
    let content := setTransmitionMode TRANSMIT_MODE_CONTENT_LENGTH content in
    if len =? 0 then (false, content) else setContentLenSize len content
  else if icontains (MIME_Sub_Header.getOptionValueStringByName (str "Transfer-Encoding") h) (str "CHUNKED") then
    (true, setTransmitionMode TRANSMIT_MODE_CHUNKS content)
  else (true, content).

Definition parseHeaders2TransmitionMode (r : Response.t M S) : option part_id * Response.t M S :=
  let (more, content) := transmission_mode (header_of (Response.headers r)) (Response.content r) in
  (if more then Some InContent else None, Response.set_content content r).

(** What [changeToNextParser] does after the headers. *)
Definition headers_received (c : HTTPv1_Client) : HTTPv1_Client :=
  let r := read_headers (serverResponse c) in
  let c := set_serverContentType (MIME_Sub_Header.getOptionRawStringByName (str "Content-Type") (header_of (Response.headers r))) c in
  let (next, r) := parseHeaders2TransmitionMode (parseHeaders2ServerCookies r) in
  set_current next (set_response r c).

Definition changeToNextParser : st HTTPv1_Client bool := fun c =>
  (Ret true,
   match hc_current c with
   | Some InStatus => set_current (Some InHeaders) c
   | Some InHeaders => headers_received c
   | _ => set_current None c
   end).

(** *** The protocol *)

Definition status_of (c : HTTPv1_Client) : Status.t M := Response.status (serverResponse c).
Definition headers_of (c : HTTPv1_Client) : MIME_Sub_Header.t M := Response.headers (serverResponse c).
Definition content_of (c : HTTPv1_Client) : Content M S := Response.content (serverResponse c).
Definition set_status_of (x : Status.t M) (c : HTTPv1_Client) : HTTPv1_Client := set_response (Response.set_status x (serverResponse c)) c.
Definition set_headers_of (x : MIME_Sub_Header.t M) (c : HTTPv1_Client) : HTTPv1_Client := set_response (Response.set_headers x (serverResponse c)) c.
Definition set_content_of (x : Content M S) (c : HTTPv1_Client) : HTTPv1_Client := set_response (Response.set_content x (serverResponse c)) c.

Definition status_sub : SubParserImpl M HTTPv1_Client := {|
  sp c := sp (status_of c); sp_set s c := set_status_of (sp_set s (status_of c)) c; parse := on_part status_of set_status_of parse
|}.
Definition headers_sub : SubParserImpl M HTTPv1_Client := {|
  sp c := sp (headers_of c); sp_set s c := set_headers_of (sp_set s (headers_of c)) c; parse := on_part headers_of set_headers_of parse
|}.
Definition content_sub : SubParserImpl M HTTPv1_Client := {|
  sp c := sp (content_of c); sp_set s c := set_content_of (sp_set s (content_of c)) c; parse := on_part content_of set_content_of parse
|}.

#[export] Instance HTTPv1_Client_protocol : Protocol M HTTPv1_Client := {
  pd := hc_data;
  pd_set := set_data;
  sub_id := part_id;
  sub_impl id := match id with InStatus => status_sub | InHeaders => headers_sub | InContent => content_sub end;
  m_currentParser := hc_current;
  initProtocol := initProtocol;
  endProtocol := ret tt;
  changeToNextParser := changeToNextParser
}.
End Client.
Arguments HTTPv1_Client : clear implicits.
