(* ===== verification/HttpClientSpec.v ===== *)
(** * What the client makes of an answer

    The specification reads an answer one byte at a time: the status line, the
    lines of the headers, then the body that the headers announce. The client,
    with its three element parsers, agrees with it whatever the pieces the
    answer comes in: each stage is an element parser of its own, transported to
    the client with Lens.v. *)

From S2P Require Import Prelude Mem SafeInt CText Encoders StreamableObject BBase BMem BChunk BChunks BChunksFacts BChunksSpec BRef SubParser SubParserSpec Parser Preserves Lens Lines BoostText Random UrlVars HttpLines MimeHeader HttpHeaders HttpCookies HttpChunked HttpContent HttpContentSpec HttpTransfer HttpBase HttpClient.

(** ** The specification *)

Section Specification.
Context `{BoostText, BoostSearch, RandomSource}.
(** The header the client starts with, what its destination has, and its limits. *)
Context (header0 : MIME_Sub_Header.fields) (body0 : bytes) (maxChunk maxBody pieces : Z).

Inductive client_state : Type :=
| AtStatus (pending : bytes)
| AtHeaders (status : status_text) (x : MIME_Sub_Header.fields * bytes)
| AtContent (status : status_text) (header : MIME_Sub_Header.fields) (x : body_state).

(** Status, header and body. *)
Definition answer : Type := status_text * MIME_Sub_Header.fields * bytes.

(** How the body begins, if there is one. A length beyond the limit counts as
    no body. *)
Definition content_start (f : MIME_Sub_Header.fields) : option phase :=
  if MIME_Sub_Header.exist (str "Content-Length") f then
    let len := fst (MIME_Sub_Header.getOptionAsUINT64 (str "Content-Length") 10 f) in
    if (len =? 0) || (len >? maxBody) then None else Some (Length len)
  else if icontains (MIME_Sub_Header.getOptionValueStringByName (str "Transfer-Encoding") f) (str "CHUNKED") then Some (SizeLine 64)
  else Some (ToClose maxBody).

Lemma content_start_weight f ph body : content_start f = Some ph -> weight (ph, [], body) <= 2.
Proof.
  unfold content_start. destruct (MIME_Sub_Header.exist _ f); [destruct (_ || _); [done|]|destruct (icontains _ _)];
    intros [= <-]; cbn [weight]; [lia|by vm_compute|case_cond; lia].
Qed.

Definition after_status (y : status_text) : reading client_state answer := Goes (AtHeaders y (header0, [])).
Definition after_headers (status : status_text) (f : MIME_Sub_Header.fields) : reading client_state answer :=
  match content_start f with
  | None => Ends (status, f, body0) []
  | Some ph => Goes (AtContent status f (ph, [], body0))
  end.
Definition after_content (status : status_text) (f : MIME_Sub_Header.fields) (body : bytes) : reading client_state answer :=
  Ends (status, f, body) [].

Definition in_stage {X Y} (inj : X -> client_state) (after : Y -> reading client_state answer) (r : reading X Y) : reading client_state answer :=
  match r with Goes x => Goes (inj x) | Ends y _ => after y | Refuses => Refuses | Unspecified => Unspecified end.

Definition eat_answer (x : client_state) (b : ascii) : reading client_state answer :=
  match x with
  | AtStatus pending => in_stage (fun x => AtStatus (snd x)) after_status (eat_status (tt, pending) b)
  | AtHeaders status x => in_stage (AtHeaders status) (after_headers status) (eat_header x b)
  | AtContent status f x => in_stage (AtContent status f) (after_content status f) (read_byte maxChunk pieces x b)
  end.

Definition client_weight (x : client_state) : Z :=
  match x with
  | AtStatus pending => line_weight STATUS_LIMIT pending
  | AtHeaders _ x => lines_weight HEADER_LIMIT x
  | AtContent _ _ x => weight x
  end.

Lemma client_weight_bounds x : 1 <= client_weight x <= 4.
Proof.
  destruct x as [pending|? x|? ? x]; cbn [client_weight]; [| |apply weight_bounds];
    [pose proof (line_weight_bounds STATUS_LIMIT pending)|pose proof (line_weight_bounds HEADER_LIMIT (snd x)); unfold lines_weight]; lia.
Qed.

(** A stage that leaves nothing unread is embedded as Lens.v asks. *)
Lemma stage_embeds {X Y} (eat : X -> ascii -> reading X Y) inj after x b :
  (forall x b y rest, eat x b = Ends y rest -> rest = []) ->
  in_stage inj after (eat x b) = embed eat_answer inj after (eat x b).
Proof. intros Hrest. destruct (eat x b) as [x'|y rest| |] eqn:E; [done| |done|done]. by rewrite (Hrest _ _ _ _ E). Qed.
End Specification.

Lemma eat_line_rest {A Y} limit (on_line : A -> bytes -> reading A Y) x b y rest :
  (forall a line y rest, on_line a line = Ends y rest -> rest = []) -> eat_line limit on_line x b = Ends y rest -> rest = [].
Proof.
  intros Hrest. unfold eat_line, line_byte. repeat case_cond; try done. unfold next_line.
  destruct (on_line _ _) as [|y' rest'| |] eqn:E'; try done. intros [= _ <-]. by eapply Hrest.
Qed.

Lemma eat_status_rest `{BoostText} x b y rest : eat_status x b = Ends y rest -> rest = [].
Proof. apply eat_line_rest. intros [] line y' r'. unfold read_status. destruct (split _ _) as [|? [|? ?]]; try done. by intros [= _ <-]. Qed.

Lemma eat_header_rest `{BoostText, BoostSearch, RandomSource} x b y rest : eat_header x b = Ends y rest -> rest = [].
Proof.
  apply eat_line_rest. intros f line y' r'. unfold read_option. destruct line; [by intros [= _ <-]|].
  by destruct (MIME_Sub_Header.parseOptionValue _ f) as [[?|?] ?].
Qed.

(** ** The client *)

Section Client.
Context {M : Type} `{BBase M, MmapFactory M} (uninitialised : Z -> bytes).
Context {C : Type} `{BBase C} {S : Type} `{FullSink S} `{!AcceptsEOF S} {U : Type} `{Streamable U}.
Context `{BoostText, BoostSearch, RandomSource, Date.TimeText, RealmSearch, Base64Encoder}.
Context (maxChunk maxBody ttl : Z).
Context (HmaxChunk : 0 <= maxChunk < NO_CHUNK) (HmaxBody : 0 <= maxBody <= SSIZE_MAX) (Httl : 0 <= ttl < SIZE_MAX).
(** What the client starts with: its header, and the content that waits. *)
Context (h0 : MIME_Sub_Header.t M) (c0 : Content M S).

Abbreviation client := (HTTPv1_Client M C S U).
Implicit Types p : client.

#[export] Instance status_element : ElementOf (status_of (M := M) (C := C) (S := S) (U := U)) set_status_of (ImplE := Status.status_sub) (ImplT := status_sub).
Proof. split; [split; [done|done|by intros [? ? ? []]]|done|done|done]. Qed.
#[export] Instance headers_element : ElementOf (headers_of (M := M) (C := C) (S := S) (U := U)) set_headers_of (ImplE := MIME_Sub_Header.header_sub) (ImplT := headers_sub).
Proof. split; [split; [done|done|by intros [? ? ? []]]|done|done|done]. Qed.
#[export] Instance content_element : ElementOf (content_of (M := M) (C := C) (S := S) (U := U)) set_content_of (ImplE := Content_sub) (ImplT := content_sub).
Proof. split; [split; [done|done|by intros [? ? ? []]]|done|done|done]. Qed.

(** *** Where the content starts *)

(** A content that has received nothing, over a destination that is ready. *)
Definition content_waits (c : Content M S) : Prop :=
  ct_base c = set_subParserName "Content" SubParser_new /\ m_securityMaxHttpChunkSize c = maxChunk /\
  m_securityMaxPostDataSize c = maxBody /\ sink_ok (m_outStream c).

Lemma content_starts c f n :
  content_waits c -> n <= sink_room (m_outStream c) ->
  let (more, c') := transmission_mode f c in
  match content_start maxBody f with
  | Some ph => more = true /\ content_ok maxChunk PIECES (ph, [], sink_view (m_outStream c)) n c'
  | None => more = false /\ m_outStream c' = m_outStream c
  end.
Proof.
  intros (Hb & Hmc & Hmb & Hok) Hn. destruct c as [base out internal tm mode ctype maxb len maxc]. cbn in *. subst.
  assert (Hsteady : forall b, m_streamEnded b = false -> m_maxChunks (m_unparsedBuffer b) = PIECES -> forall t m l,
    steady maxChunk PIECES (mkContent b out internal t m ctype maxBody l maxChunk : Content M S)) by (intros; by split; [|split; [|split]]).
  unfold transmission_mode, content_start. destruct (MIME_Sub_Header.exist _ f).
  - set (n0 := fst _). destruct (n0 =? 0) eqn:E0; cbn [orb]; [done|]. zbool. unfold setContentLenSize.
    change (m_securityMaxPostDataSize _) with maxBody.
    destruct (n0 >? maxBody) eqn:Em; [done|]. zbool. split; [done|]. split; [by apply Hsteady|]. split; [done|]. split; [|change (zlen []) with 0; cbn; lia].
    split; [done|]. split; [done|]. split; [|split; [done|]].
    + apply blank_start; [reflexivity|].
      split; [|lia]. unfold n0, MIME_Sub_Header.getOptionAsUINT64. destruct (MIME_Sub_Header.getOptionByName _ f); [|done]. cbn [fst].
      destruct (strtoul 10 _) as [[z ?]|] eqn:Es; [by eapply (strtoul_range 10)|done].
    + unfold n0, MIME_Sub_Header.getOptionAsUINT64 in *. destruct (MIME_Sub_Header.getOptionByName _ f); [|done]. cbn [fst] in *.
      destruct (strtoul 10 _) as [[z ?]|] eqn:Es; [|done]. pose proof (strtoul_range 10 _ _ _ ltac:(lia) Es). lia.
  - destruct (icontains _ _).
    + split; [done|]. split; [by apply Hsteady|]. split; [done|]. split; [|change (zlen []) with 0; cbn; lia].
      split; [done|]. split; [done|]. split; [done|]. split; [done|].
      destruct (blank_buffer 64 (setMaxSize 64 (B_Chunks_new (M := M)))) as [Hbuf Hv]; [by apply blank_start|done|].
      split; [exact Hbuf|]. split; [done|]. apply nothing_occurs.
    + split; [done|]. split; [by apply Hsteady|]. split; [done|]. split; [|change (zlen []) with 0; cbn; lia].
      split; [done|]. split; [done|]. split; [|done]. apply blank_start; [reflexivity|done].
Qed.

(** *** The client in a state of the reader *)

(** What the client has taken from the headers. *)
Definition options_taken (f : MIME_Sub_Header.fields) p : Prop :=
  let raw name := MIME_Sub_Header.getOptionRawStringByName (str name) f in
  let r := serverResponse p in
  Response.cacheControl r = CacheControl.fromString (raw "Cache-Control"%string) /\
  sec_XFrameOpts (Response.security r) = snd (XFrameOpts.fromString (raw "X-Frame-Options"%string) XFrameOpts.new) /\
  sec_XSSProtection (Response.security r) = snd (XSSProtection.fromString (raw "X-XSS-Protection"%string) XSSProtection.new) /\
  sec_HSTS (Response.security r) = snd (HSTS.fromString (raw "Strict-Transport-Security"%string) HSTS.new) /\
  disableNoSniffContentType (Response.security r) = iequals (raw "X-Content-Type-Options"%string) (str "nosniff") /\
  m_serverContentType p = raw "Content-Type"%string.

Definition running (stage : option part_id) p : Prop := hc_current p = stage /\ m_maxTTL (hc_data p) = ttl.

Definition client_ok (x : client_state) (n : Z) p : Prop :=
  match x with
  | AtStatus pending =>
      running (Some InStatus) p /\ status_ok (tt, pending) n (status_of p) /\ headers_of p = h0 /\ content_of p = c0 /\
      n <= sink_room (m_outStream c0)
  | AtHeaders status x =>
      running (Some InHeaders) p /\ status_is status (status_of p) /\ header_ok x n (headers_of p) /\ content_of p = c0 /\
      n <= sink_room (m_outStream c0)
  | AtContent status f x =>
      running (Some InContent) p /\ status_is status (status_of p) /\ header_is f (headers_of p) /\
      content_ok maxChunk PIECES x n (content_of p) /\ options_taken f p
  end.

Definition client_done (y : answer) p : Prop :=
  let '(status, f, body) := y in
  running None p /\ status_is status (status_of p) /\ header_is f (headers_of p) /\
  sink_view (m_outStream (content_of p)) = body /\ options_taken f p.

(** The header of a new element parser reads lines. *)
Definition header_waits (h : MIME_Sub_Header.t M) : Prop :=
  MIME_Sub_Header.base h = MIME_Sub_Header.base (MIME_Sub_Header.new (M := M)).

Context (Hh0 : header_waits h0) (Hc0 : content_waits c0).

Abbreviation body0 := (sink_view (m_outStream c0)).
Abbreviation eat := (eat_answer (MIME_Sub_Header.header h0) body0 maxChunk maxBody PIECES).
Abbreviation round := (round_agrees uninitialised eat client_ok client_done client_weight turns).

Lemma line_waits limit (E : Type) `{SubParserLaws M E} (e : E) (b : SubParser M) :
  b = setParseDataTargetSize limit (setParseDelimiter CRLF (setParseMode PARSE_MODE_DELIMITER SubParser_new)) ->
  sp e = b \/ (exists name, sp e = set_subParserName name b) -> 0 <= limit <= PIECES -> line_ok limit [] e.
Proof.
  intros Hb He Hl. destruct (blank_buffer limit (setMaxSize limit (B_Chunks_new (M := M)))) as [Hbuf Hv];
    [apply blank_start; [done|]; change SSIZE_MAX with 9223372036854775807; change PIECES with 262144 in Hl; lia|exact (proj2 Hl)|].
  assert (Hsp : m_parseMode (sp e) = PARSE_MODE_DELIMITER /\ m_parseDelimiter (sp e) = CRLF /\ m_streamEnded (sp e) = false /\
    m_unparsedBuffer (sp e) = setMaxSize limit (B_Chunks_new (M := M))).
  { by destruct He as [->|[name ->]]; subst b. }
  destruct Hsp as (? & ? & ? & Hu). unfold line_ok, buf_view. rewrite Hu.
  split; [done|]. split; [done|]. split; [done|]. split; [exact Hbuf|]. split; [exact Hv|]. apply nothing_occurs.
Qed.

(** What the client takes from the headers, of an answer. *)
Definition response_taken (r0 r : Response.t M S) : Prop :=
  let raw name := MIME_Sub_Header.getOptionRawStringByName (str name) (MIME_Sub_Header.header (Response.headers r0)) in
  Response.cacheControl r = CacheControl.fromString (raw "Cache-Control"%string) /\
  sec_XFrameOpts (Response.security r) = snd (XFrameOpts.fromString (raw "X-Frame-Options"%string) XFrameOpts.new) /\
  sec_XSSProtection (Response.security r) = snd (XSSProtection.fromString (raw "X-XSS-Protection"%string) XSSProtection.new) /\
  sec_HSTS (Response.security r) = snd (HSTS.fromString (raw "Strict-Transport-Security"%string) HSTS.new) /\
  disableNoSniffContentType (Response.security r) = iequals (raw "X-Content-Type-Options"%string) (str "nosniff").

Lemma response_headers_taken (r : Response.t M S) :
  let r' := parseHeaders2ServerCookies (read_headers r) in
  Response.headers r' = Response.headers r /\ Response.content r' = Response.content r /\
  Response.status r' = Response.status r /\ Response.headers (read_headers r) = Response.headers r /\ response_taken r r'.
Proof.
  cbn zeta. unfold response_taken, parseHeaders2ServerCookies, read_headers, header_of.
  by destruct (MIME_Sub_Header.getOptionRawStringByName (str "WWW-Authenticate") _).
Qed.

Lemma headers_step p f :
  header_is f (headers_of p) -> content_of p = c0 -> forall n, n <= sink_room (m_outStream c0) ->
  running (Some InHeaders) p -> forall status, status_is status (status_of p) ->
  next_agrees (Prot := HTTPv1_Client_protocol) client_ok client_done client_weight
    (after_headers body0 maxBody status f) n 3 p.
Proof.
  intros Hf Hc n Hn [Hcur Ht] status Hs. destruct p as [d cur req resp ck ct up]. cbn in Hcur, Ht, Hs. subst cur.
  unfold header_is, headers_of, content_of in *. cbn in Hf, Hc. subst f.
  pose proof (content_starts c0 (MIME_Sub_Header.header (Response.headers resp)) n Hc0 Hn) as Hst.
  assert (Hch : forall more c', transmission_mode (MIME_Sub_Header.header (Response.headers resp)) c0 = (more, c') ->
    exists p', HttpClient.changeToNextParser (mkClient d (Some InHeaders) req resp ck ct up) = (Ret true, p') /\
      hc_current p' = (if more then Some InContent else None) /\ hc_data p' = d /\ status_of p' = Response.status resp /\
      headers_of p' = Response.headers resp /\ content_of p' = c' /\
      options_taken (MIME_Sub_Header.header (Response.headers resp)) p').
  { intros more c' Htm. eexists. split; [reflexivity|]. cbn [hc_current]. unfold headers_received, parseHeaders2TransmitionMode, header_of.
    cbn [serverResponse set_serverContentType].
    destruct (response_headers_taken resp) as (Eh & Ec & Es & Er & Ht'). rewrite Er. revert Eh Ec Es Ht'.
    generalize (parseHeaders2ServerCookies (read_headers resp)). intros r Eh Ec Es Ht'. rewrite Eh, Ec, Hc, Htm.
    split; [done|]. split; [done|]. split; [exact Es|]. split; [exact Eh|]. split; [done|].
    destruct Ht' as (? & ? & ? & ? & ?). by repeat (split; [done|]). }
  unfold after_headers. destruct (transmission_mode _ _) as [more c'] eqn:Etm. destruct (Hch more c' eq_refl) as (p' & Hp & Hcur' & Hd & Hs' & Hh' & Hc' & Ho).
  destruct (content_start _ _) as [ph|] eqn:Eph.
  - destruct Hst as [-> Hok]. exists p'. split; [exact Hp|]. split.
    + split; [by split; [|rewrite Hd]|]. split; [by rewrite Hs'|]. split; [by rewrite Hh'|]. split; [by rewrite Hc'|done].
    + cbn [client_weight]. pose proof (content_start_weight maxBody _ ph body0 Eph). lia.
  - destruct Hst as [-> Hout]. split; [done|]. exists p'. split; [exact Hp|]. split; [exact Hcur'|].
    split; [by split; [|cbn; rewrite Hd]|]. split; [change (status_is status (status_of p')); by rewrite Hs'|].
    split; [change (MIME_Sub_Header.header (headers_of p') = MIME_Sub_Header.header (Response.headers resp)); by rewrite Hh'|].
    split; [change (sink_view (m_outStream (content_of p')) = body0); by rewrite Hc', Hout|exact Ho].
Qed.

(** *** The rounds of each stage *)

Lemma round_status pending n p buf :
  client_ok (AtStatus pending) n p -> buf <> [] -> zlen buf <= SSIZE_MAX -> round (AtStatus pending) n buf p.
Proof.
  intros (Hrun & Hok & Hh & Hc & Hn) Hne Hl. pose proof Hrun as [Hcur Httl'].
  apply (round_of_member (Prot := HTTPv1_Client_protocol) uninitialised InStatus status_of set_status_of eat_status eat
    (fun x => AtStatus (snd x)) (after_status (MIME_Sub_Header.header h0))) with (x := (tt, pending)) (weight := lines_weight STATUS_LIMIT)
    (RE := fun x n e => status_ok x n e /\ n <= sink_room (m_outStream c0)) (FE := fun y n e => lines_done status_is y n e /\ n <= sink_room (m_outStream c0)).
  - intros [[] l] b. apply stage_embeds. apply eat_status_rest.
  - done.
  - exact Hcur.
  - apply element_room; [done|]. by apply status_agrees.
  - intros [[] l] k e [He Hk]. by repeat (split; [done|]).
  - intros w y e Hw Hends [Hy Hk]. cbn [after_status next_agrees].
    destruct p as [d cur req resp ck ct up]. cbn in Hcur. subst cur. eexists. split; [reflexivity|]. split.
    + split; [by split|]. split; [exact Hy|]. split; [|by split]. split; [|].
      * cbn [snd]. replace (headers_of _) with h0 by exact (eq_sym Hh).
        apply (line_waits HEADER_LIMIT _ h0 _ eq_refl); [right; exists "MIME_Sub_Header"%string; exact Hh0|]. vm_compute. split; discriminate.
      * unfold header_is. replace (headers_of _) with h0 by exact (eq_sym Hh). done.
    + cbn [client_weight]. apply ends_turns in Hends. pose proof (turns_take w buf). pose proof (line_weight_bounds STATUS_LIMIT pending).
      change (lines_weight HEADER_LIMIT (MIME_Sub_Header.header h0, [])) with 2. unfold lines_weight. cbn [snd]. lia.
Qed.

Lemma round_headers status x n p buf :
  client_ok (AtHeaders status x) n p -> buf <> [] -> zlen buf <= SSIZE_MAX -> round (AtHeaders status x) n buf p.
Proof.
  intros (Hrun & Hs & Hok & Hc & Hn) Hne Hl. pose proof Hrun as [Hcur Httl'].
  apply (round_of_member (Prot := HTTPv1_Client_protocol) uninitialised InHeaders headers_of set_headers_of eat_header eat
    (AtHeaders status) (after_headers body0 maxBody status)) with (weight := lines_weight HEADER_LIMIT)
    (RE := fun x n e => header_ok x n e /\ n <= sink_room (m_outStream c0)) (FE := fun y n e => lines_done header_is y n e /\ n <= sink_room (m_outStream c0)).
  - intros y b. apply stage_embeds. apply eat_header_rest.
  - done.
  - exact Hcur.
  - apply element_room; [done|]. by apply header_agrees.
  - intros x' k e [He Hk]. by repeat (split; [done|]).
  - intros w y e Hw Hends [Hy Hk]. apply ends_turns in Hends. pose proof (turns_take w buf).
    pose proof (line_weight_bounds HEADER_LIMIT (snd x)).
    assert (Hstep : next_agrees (Prot := HTTPv1_Client_protocol) client_ok client_done client_weight
      (after_headers body0 maxBody status y) (n - w) 3 (set_headers_of e p)) by (by apply headers_step).
    unfold after_headers in *. destruct (content_start maxBody y); cbn [next_agrees] in *; [|exact Hstep].
    destruct Hstep as (p' & Hp & Hok' & Hlt). exists p'. split; [done|]. split; [done|]. unfold lines_weight. lia.
Qed.

Lemma round_content status f x n p buf :
  client_ok (AtContent status f x) n p -> buf <> [] -> zlen buf <= PIECES -> zlen buf <= n -> round (AtContent status f x) n buf p.
Proof.
  intros (Hrun & Hs & Hf & Hok & Ho) Hne Hl Hn. pose proof Hrun as [Hcur Httl'].
  apply (round_of_member (Prot := HTTPv1_Client_protocol) uninitialised InContent content_of set_content_of (read_byte maxChunk PIECES) eat
    (AtContent status f) (after_content status f)) with (weight := weight)
    (RE := content_ok maxChunk PIECES) (FE := content_done).
  - intros y b. apply stage_embeds. intros x1 b1 y1 r1 E1. by eapply reads_empty_end.
  - done.
  - exact Hcur.
  - by eapply round_any.
  - intros x' k e He. by repeat (split; [done|]).
  - intros w y e Hw Hends Hy. split; [done|]. eexists. split; [reflexivity|].
    destruct p as [d cur req resp ck ct up]. cbn in Hcur. subst cur. split; [done|]. by repeat (split; [done|]).
Qed.

Lemma round_client x n p buf :
  client_ok x n p -> buf <> [] -> zlen buf <= PIECES -> zlen buf <= n -> round x n buf p.
Proof.
  intros Hok Hne Hl Hn. assert (zlen buf <= SSIZE_MAX) by (change SSIZE_MAX with 9223372036854775807; change PIECES with 262144 in Hl; lia).
  destruct x as [pending|status x|status f x]; [by apply round_status|by apply round_headers|by apply round_content].
Qed.

Lemma client_reads x n p frags :
  client_ok x n p -> Forall (fits turns 4 PIECES ttl) frags -> zlen (concat frags) <= n ->
  all_agree client_ok client_done (reads eat (Goes x) (concat frags)) (n - zlen (concat frags))
    (write_all (Prot := HTTPv1_Client_protocol) uninitialised frags p).
Proof.
  apply (writes_agree uninitialised eat client_ok client_done client_weight turns 4 PIECES ttl);
    [apply turns_nonneg|apply client_weight_bounds|exact Httl|by vm_compute| | |apply round_client].
  - intros y m q Hq. destruct y; destruct Hq as ([Hcur Ht] & _); (split; [exact Ht|]; eexists; exact Hcur).
  - intros [[status f] body] q ([Hcur Ht] & _). by split.
Qed.
End Client.

(** ** Any answer, in any pieces *)

(** A client that waits for an answer: nothing has been received. *)
Definition client_waits {M} `{BBase M, MmapFactory M} {C S} `{FullSink S} {U} `{Streamable U} maxChunk maxBody ttl (p : HTTPv1_Client M C S U) : Prop :=
  hc_current p = Some InStatus /\ m_maxTTL (hc_data p) = ttl /\
  Status.base (status_of p) = Status.base (Status.new (M := M)) /\ header_waits (headers_of p) /\
  content_waits maxChunk maxBody (content_of p).

(** C3: an answer is read as the byte-by-byte reader reads it, however it is cut
    into writes (none empty, each of at most 256 KiB, with few enough line ends
    for the round limit), by a client that waits for it, whose limit of a chunk is
    less than UINT32_MAX, and whose destination has room for the whole text (a
    full one loses what does not fit) and takes the end of the stream, as strings
    and the chunked containers in memory do: while the answer goes on every write succeeds; at its end the client has no element
    parser left and holds the status, the header and the body of the reader, with
    the options taken from that header, and the writes succeed if and only if
    nothing follows; a malformed answer makes a write fail. It says nothing of an
    answer with a chunk of more than 256 KiB, the pieces of the buffer, nor of
    one whose headers need random bytes that the system does not give. *)
Theorem response_of_fragments {M} `{BBase M, MmapFactory M} (uninitialised : Z -> bytes) {C} `{BBase C} {S} `{FullSink S} `{!AcceptsEOF S}
    {U} `{Streamable U} `{BoostText, BoostSearch, RandomSource, Date.TimeText, RealmSearch, Base64Encoder}
    maxChunk maxBody ttl (p : HTTPv1_Client M C S U) frags :
  0 <= maxChunk < NO_CHUNK -> 0 <= maxBody <= SSIZE_MAX -> 0 <= ttl < SIZE_MAX ->
  client_waits maxChunk maxBody ttl p -> Forall (fits turns 4 PIECES ttl) frags ->
  zlen (concat frags) <= sink_room (m_outStream (content_of p)) ->
  let out := sink_view (m_outStream (content_of p)) in
  let result := write_all (Prot := HTTPv1_Client_protocol) uninitialised frags p in
  match reads (eat_answer (MIME_Sub_Header.header (headers_of p)) out maxChunk maxBody PIECES) (Goes (AtStatus [])) (concat frags) with
  | Goes x => exists p', result = (Ret true, p') /\ is_Some (hc_current p')
  | Ends (status, f, body) rest =>
      exists p', result = (Ret (bool_decide (rest = [])), p') /\ hc_current p' = None /\
        status_is status (status_of p') /\ header_is f (headers_of p') /\ sink_view (m_outStream (content_of p')) = body /\
        options_taken f p'
  | Refuses => exists p', result = (Ret false, p')
  | Unspecified => True
  end.
Proof.
  intros Hmc Hmb Ht (Hcur & Httl & Hst & Hh & Hc) Hfr Hroom. cbn zeta.
  pose proof (client_reads uninitialised maxChunk maxBody ttl Hmc Hmb Ht (headers_of p) (content_of p) Hh Hc (AtStatus [])
    (sink_room (m_outStream (content_of p))) p frags) as Ha.
  assert (Hok : client_ok maxChunk ttl (headers_of p) (content_of p) (AtStatus []) (sink_room (m_outStream (content_of p))) p).
  { split; [by split|]. split; [|by split; [|split]]. split; [|done].
    apply (line_waits STATUS_LIMIT _ (status_of p) _ eq_refl); [right; exists "Status"%string; exact Hst|]. split; vm_compute; discriminate. }
  specialize (Ha Hok Hfr Hroom). destruct (reads _ _ _) as [x|[[status f] body] rest| |]; cbn [all_agree] in Ha; [| |done|done].
  - destruct Ha as (p' & Hw & Hok'). exists p'. split; [done|]. destruct x; destruct Hok' as ([Hcur' _] & _); rewrite Hcur'; by eexists.
  - destruct Ha as (p' & Hw & [Hcur' _] & Hs & Hf & Hv & Ho). by exists p'.
Qed.

(** A new client waits, and preparing its request leaves it so. *)
Lemma new_client_waits {M} `{BBase M, MmapFactory M} {C S} `{FullSink S} {U} `{Streamable U} `{BoostText, BoostSearch, RandomSource}
    (sending : C) (receiving : S) (up : U) p :
  HTTPv1_Client_new (M := M) sending receiving up = Ret p -> sink_ok receiving -> client_waits MAX_CHUNK MAX_BODY 4096 p.
Proof.
  unfold HTTPv1_Client_new, Response.make, bind, Response.setInternalProductVersion, Response.on_headers, on_fields, MIME_Sub_Header.on_header.
  destruct (MIME_Sub_Header.replace _ _ _) as [[[]|e] f]; cbn [fst gets id]; [|done]. intros [= <-] Hok. by repeat (split; [done|]).
Qed.

(** ** A concrete answer *)

(** Code outside src/, for the example. *)
#[export] Instance no_dates : Date.TimeText := {| Date.strptime := fun _ => None; Date.mktime := Datetime.timegm |}.
#[export] Instance no_realm : RealmSearch := fun _ => None.
#[export] Instance plain_base64 : Base64Encoder := id.

Module Sample.
Definition client : HTTPv1_Client B_MEM (B_Chunks B_MEM) StreamableString StreamableString :=
  match HTTPv1_Client_new B_Chunks_new StreamableString_new StreamableString_new with
  | Ret c => c
  | Exc _ => mkClient (ParserData_new true) None (Request.new B_Chunks_new) (Response.new StreamableString_new) [] [] StreamableString_new
  end.

Definition answer_pieces : list bytes :=
  [str "HTTP/1.1 404 Not"; str " Found" ++ CRLF ++ str "content-type: text/plain" ++ CRLF ++ str "Content-Le";
   str "ngth: 5" ++ CRLF ++ CRLF ++ str "he"; str "llo"].
End Sample.

Lemma response_of_fragments_witness :
  exists p', write_all (Prot := HTTPv1_Client_protocol) (fun _ => []) Sample.answer_pieces Sample.client = (Ret true, p') /\
    hc_current p' = None /\ status_is (Version.mk 1 1, 404, str "Not Found") (status_of p') /\
    sink_view (m_outStream (content_of p')) = str "hello" /\ m_serverContentType p' = str "text/plain".
Proof.
  assert (Hnew : HTTPv1_Client_new (B_Chunks_new (M := B_MEM)) StreamableString_new StreamableString_new = Ret Sample.client)
    by (vm_compute; reflexivity).
  pose proof (response_of_fragments (fun _ => []) MAX_CHUNK MAX_BODY 4096 Sample.client Sample.answer_pieces) as Hr. cbv beta zeta in Hr.
  assert (Hread : exists f, reads (eat_answer (MIME_Sub_Header.header (headers_of Sample.client)) (sink_view (m_outStream (content_of Sample.client)))
      MAX_CHUNK MAX_BODY PIECES) (Goes (AtStatus [])) (concat Sample.answer_pieces) = Ends ((Version.mk 1 1, 404, str "Not Found"), f, str "hello") [] /\
      MIME_Sub_Header.getOptionRawStringByName (str "Content-Type") f = str "text/plain").
  { eexists. split; [vm_compute; reflexivity|vm_compute; reflexivity]. }
  destruct Hread as (f & Hread & Htype). rewrite Hread in Hr. destruct Hr as (p' & Hw & Hcur & Hs & _ & Hv & Ho).
  - split; vm_compute; [discriminate|reflexivity].
  - split; vm_compute; discriminate.
  - split; vm_compute; [discriminate|reflexivity].
  - eapply new_client_waits; [exact Hnew|exact new_string_ok].
  - unfold Sample.answer_pieces. repeat constructor; try discriminate; vm_compute; discriminate.
  - vm_compute. discriminate.
  - exists p'. split; [exact Hw|]. split; [exact Hcur|]. split; [exact Hs|]. split; [exact Hv|].
    destruct Ho as (_ & _ & _ & _ & _ & Ht). rewrite Ht. exact Htype.
Defined.
