(* ===== verification/HttpServer.v ===== *)
(** * The server of HTTP (Protocol_HTTP/httpv1_server.h, httpv1_server.cpp)

    A protocol with three element parsers: the line of the request, its headers
    and its content. When it has what it needs of a request it writes the answer
    to [hs_upStream]; the class that derives from it has its say in the three
    members of [Handlers]. The search for files is in HttpFiles.v. *)

From S2P Require Import Prelude Mem SafeInt CText Encoders StreamableObject BBase BMem BChunk BChunks BRef SubParser SubParserSpec Parser Preserves Lens BoostText Random UrlVars HttpLines MimeHeader HttpHeaders HttpCookies HttpContent HttpBase.

(** The time at which the answer is made. *)
Class Clock : Type := now : Z.

(** The message of a form in parts, as far as the server touches it. *)
Class MultiPart (S : Type) : Type := setMultiPartBoundary : bytes -> S -> S.

Inductive request_part : Type := InRequestLine | InRequestHeaders | InRequestContent.

Definition default_mime_types : list (bytes * bytes) := map (fun e => (str (fst e), str (snd e))) [
  (".aac", "audio/aac"); (".abw", "application/x-abiword"); (".arc", "application/x-freearc");
  (".avi", "video/x-msvideo"); (".azw", "application/vnd.amazon.ebook"); (".bin", "application/octet-stream");
  (".bmp", "image/bmp"); (".bz", "application/x-bzip"); (".bz2", "application/x-bzip2");
  (".csh", "application/x-csh"); (".css", "text/css"); (".csv", "text/csv"); (".doc", "application/msword");
  (".docx", "application/vnd.openxmlformats-officedocument.wordprocessingml.document");
  (".eot", "application/vnd.ms-fontobject"); (".epub", "application/epub+zip"); (".gz", "application/gzip");
  (".gif", "image/gif"); (".htm", "text/html"); (".html", "text/html"); (".iso", "application/octet-stream");
  (".ico", "image/vnd.microsoft.icon"); (".ics", "text/calendar"); (".jar", "application/java-archive");
  (".jpeg", "image/jpeg"); (".jpg", "image/jpeg"); (".js", "application/javascript"); (".json", "application/json");
  (".jsonld", "application/ld+json"); (".mid", "audio/midi"); (".midi", "audio/x-midi"); (".mjs", "text/javascript");
  (".mp3", "audio/mpeg"); (".mp4", "video/mp4"); (".mpeg", "video/mpeg"); (".mpg", "video/mpeg");
  (".mpkg", "application/vnd.apple.installer+xml"); (".odp", "application/vnd.oasis.opendocument.presentation");
  (".ods", "application/vnd.oasis.opendocument.spreadsheet"); (".odt", "application/vnd.oasis.opendocument.text");
  (".oga", "audio/ogg"); (".ogv", "video/ogg"); (".ogx", "application/ogg"); (".opus", "audio/opus");
  (".otf", "font/otf"); (".png", "image/png"); (".pdf", "application/pdf"); (".php", "application/x-httpd-php");
  (".ppt", "application/vnd.ms-powerpoint");
  (".pptx", "application/vnd.openxmlformats-officedocument.presentationml.presentation");
  (".rar", "application/vnd.rar"); (".rtf", "application/rtf"); (".sh", "application/x-sh"); (".svg", "image/svg+xml");
  (".swf", "application/x-shockwave-flash"); (".tar", "application/x-tar"); (".tif", "image/tiff");
  (".ts", "video/mp2t"); (".ttf", "font/ttf"); (".txt", "text/plain"); (".vsd", "application/vnd.visio");
  (".wav", "audio/wav"); (".weba", "audio/webm"); (".webm", "video/webm"); (".webp", "image/webp");
  (".woff", "font/woff"); (".woff2", "font/woff2"); (".xhtml", "application/xhtml+xml");
  (".xls", "application/vnd.ms-excel");
  (".xlsx", "application/vnd.openxmlformats-officedocument.spreadsheetml.sheet"); (".xml", "application/xml");
  (".xul", "application/vnd.mozilla.xul+xml"); (".zip", "application/zip"); (".3gp", "video/3gpp");
  (".3g2", "video/3gpp2"); (".7z", "application/x-7z-compressed")
]%string.

Section State.
Context {M : Type} {S C U : Type}.

(** [S] receives the content of the request, [C] holds that of the answer. *)
Record HTTPv1_Server : Type := mkServer {
  hs_data : ParserData;
  hs_current : option request_part;
  clientRequest : Request.t M S;
  serverResponse : Response.t M C;
  m_staticContentElements : list (bytes * C);
  m_badAnswer : bool;
  m_currentFileExtension : bytes;
  m_includeServerDate : bool;
  m_mimeTypes : list (bytes * bytes);
  hs_upStream : U
}.
End State.
Arguments HTTPv1_Server : clear implicits.

(** The virtual members of the server: [procHTTPClientURI], [procHTTPClientHeaders]
    and [procHTTPClientContent]. *)
Class Handlers (T : Type) : Type := {
  procHTTPClientURI : st T bool;
  procHTTPClientHeaders : st T bool;
  procHTTPClientContent : st T Status.Codes
}.

(** The ones of the class itself. *)
Definition default_handlers {T} : Handlers T := {|
  procHTTPClientURI := ret true; procHTTPClientHeaders := ret true; procHTTPClientContent := ret Status.S_200_OK
|}.

Section Server.
Context {M : Type} `{BBase M, MmapFactory M} {S : Type} `{Streamable S, ContentStreams S, MultiPart S}.
Context {C : Type} `{BBase C, ContentStreams C} {U : Type} `{Streamable U} (uninitialised : Z -> bytes).
Context `{BoostText, BoostSearch, RandomSource, Base64Decoder, Clock}.
Abbreviation server := (HTTPv1_Server M S C U).

Definition set_data (d : ParserData) (s : server) : server :=
  mkServer d (hs_current s) (clientRequest s) (serverResponse s) (m_staticContentElements s) (m_badAnswer s) (m_currentFileExtension s) (m_includeServerDate s) (m_mimeTypes s) (hs_upStream s).
Definition set_current (p : option request_part) (s : server) : server :=
  mkServer (hs_data s) p (clientRequest s) (serverResponse s) (m_staticContentElements s) (m_badAnswer s) (m_currentFileExtension s) (m_includeServerDate s) (m_mimeTypes s) (hs_upStream s).
Definition set_request (r : Request.t M S) (s : server) : server :=
  mkServer (hs_data s) (hs_current s) r (serverResponse s) (m_staticContentElements s) (m_badAnswer s) (m_currentFileExtension s) (m_includeServerDate s) (m_mimeTypes s) (hs_upStream s).
Definition set_response (r : Response.t M C) (s : server) : server :=
  mkServer (hs_data s) (hs_current s) (clientRequest s) r (m_staticContentElements s) (m_badAnswer s) (m_currentFileExtension s) (m_includeServerDate s) (m_mimeTypes s) (hs_upStream s).
Definition setStaticContentElements (value : list (bytes * C)) (s : server) : server :=
  mkServer (hs_data s) (hs_current s) (clientRequest s) (serverResponse s) value (m_badAnswer s) (m_currentFileExtension s) (m_includeServerDate s) (m_mimeTypes s) (hs_upStream s).
Definition set_badAnswer (b : bool) (s : server) : server :=
  mkServer (hs_data s) (hs_current s) (clientRequest s) (serverResponse s) (m_staticContentElements s) b (m_currentFileExtension s) (m_includeServerDate s) (m_mimeTypes s) (hs_upStream s).
Definition set_fileExtension (e : bytes) (s : server) : server :=
  mkServer (hs_data s) (hs_current s) (clientRequest s) (serverResponse s) (m_staticContentElements s) (m_badAnswer s) e (m_includeServerDate s) (m_mimeTypes s) (hs_upStream s).
Definition setResponseIncludeServerDate (value : bool) (s : server) : server :=
  mkServer (hs_data s) (hs_current s) (clientRequest s) (serverResponse s) (m_staticContentElements s) (m_badAnswer s) (m_currentFileExtension s) value (m_mimeTypes s) (hs_upStream s).
Definition set_mimeTypes (m : list (bytes * bytes)) (s : server) : server :=
  mkServer (hs_data s) (hs_current s) (clientRequest s) (serverResponse s) (m_staticContentElements s) (m_badAnswer s) (m_currentFileExtension s) (m_includeServerDate s) m (hs_upStream s).
Definition set_up (u : U) (s : server) : server :=
  mkServer (hs_data s) (hs_current s) (clientRequest s) (serverResponse s) (m_staticContentElements s) (m_badAnswer s) (m_currentFileExtension s) (m_includeServerDate s) (m_mimeTypes s) u.

Definition on_request (f : Request.t M S -> Request.t M S) (s : server) : server := set_request (f (clientRequest s)) s.
Definition on_response (f : Response.t M C -> Response.t M C) (s : server) : server := set_response (f (serverResponse s)) s.
Definition on_response_headers (F : st MIME_Sub_Header.fields unit) : st server unit := fun s =>
  let (x, r) := Response.on_headers F (serverResponse s) in (x, set_response r s).
Definition replace_header (name value : bytes) : st server unit := on_response_headers (MIME_Sub_Header.replace name value).
Definition remove_header (name : bytes) : st server unit := on_response_headers (modify (MIME_Sub_Header.remove name)).
Definition on_up {A} (f : st U A) : st server A := fun s => let (r, u) := f (hs_upStream s) in (r, set_up u s).
Definition setCode (code : Status.Codes) : server -> server :=
  on_response (fun r => Response.set_status (Status.setCode code (Response.status r)) r).
Definition on_version (f : Version.t -> Version.t) : server -> server :=
  on_response (fun r => Response.set_status (Status.set_version (f (Status.m_httpVersion (Response.status r))) (Response.status r)) r).
Definition request_header (s : server) : MIME_Sub_Header.fields := header_of (Request.headers (clientRequest s)).

(** The constructor. *)
Definition HTTPv1_Server_new (receiving : S) (sending : C) (sobject : U) : res server :=
  match Response.make sending with
  | Exc e => Exc e
  | Ret response =>
      Ret (mkServer (ParserData_new false) (Some InRequestLine) (Request.new receiving)
             (Response.set_cacheControl Response.uncached response) [] false [] true
             (foldl (fun m e => map_assign e m) [] default_mime_types) sobject)
  end.

(** *** Small operations *)

Definition setResponseServerName (sServerName : bytes) : st server unit := replace_header (str "Server") sServerName.

(** strrchr. *)
Fixpoint last_from (c : ascii) (s : bytes) : option bytes :=
  match s with
  | [] => None
  | x :: s' => match last_from c s' with
               | Some r => Some r
               | None => if decide (x = c) then Some s else None
               end
  end.

Definition setResponseContentTypeByFileExtension (sFilePath : bytes) : st server bool := fun s =>
  match last_from (chr 46) (c_str sFilePath) with
  | None | Some [] | Some [_] => (Ret false, s)
  | Some cFileExtension =>
      let s := set_fileExtension (to_lower_copy cFileExtension) s in
      match map_find (m_currentFileExtension s) (m_mimeTypes s) with
      | Some type => (Ret true, on_response (Response.setContentType type true) s)
      | None => (Ret false, on_response (Response.setContentType [] false) s)
      end
  end.

Definition addResponseContentTypeFileExtension (ext type : bytes) (s : server) : server :=
  set_mimeTypes (map_assign (ext, type) (m_mimeTypes s)) s.

Definition setClientInfoVars (ipAddr : bytes) (secure : bool) (tlsCommonName : bytes) : server -> server :=
  on_request (Request.set_clientInfo (mkClientInfo (strncpy ipAddr INET6_ADDRSTRLEN) secure tlsCommonName)).

Definition addStaticContent (path : bytes) (contentElement : C) (s : server) : server :=
  setStaticContentElements (map_assign (path, contentElement) (m_staticContentElements s)) s.
Definition verifyStaticContentExistence (path : bytes) (s : server) : bool :=
  bool_decide (is_Some (map_find path (m_staticContentElements s))).

Definition html_char (c : ascii) : bytes :=
  if decide (c = chr 60) then str "&lt;"
  else if decide (c = chr 62) then str "&gt;"
  else if decide (c = chr 34) then str "&quot;"
  else if decide (c = chr 38) then str "&amp;"
  else if decide (c = chr 39) then str "&apos;"
  else [c].
Definition htmlEncode (rawStr : bytes) : bytes := flat_map html_char rawStr.

(** *** Checks *)

Definition prepareServerVersionOnURI (s : server) : server :=
  let s := on_version (fun v => Version.setMinor 0 (Version.setMajor 1 v)) s in
  let v := RequestLine.m_httpVersion (Request.requestLine (clientRequest s)) in
  if negb (Version.m_majorVersion v =? 1) then set_badAnswer true (setCode Status.S_505_HTTP_VERSION_NOT_SUPPORTED s)
  else on_version (Version.setMinor (Version.m_minorVersion v)) s.

Definition prepareServerVersionOnOptions (s : server) : server :=
  if Version.m_minorVersion (RequestLine.m_httpVersion (Request.requestLine (clientRequest s))) >=? 1 then
    match Request.virtualHost (clientRequest s) with
    | [] => set_badAnswer true (setCode Status.S_400_BAD_REQUEST s)
    | _ => s
    end
  else s.

Definition parseHostOptions (s : server) : server :=
  let hostVal := MIME_Sub_Header.getOptionValueStringByName (str "HOST") (request_header s) in
  match hostVal with
  | [] => s
  | _ =>
      on_request (fun r =>
        match split (str ":") hostVal with
        | [] => Request.set_host (Request.virtualHost r) 80 r
        | [host] => Request.set_host host 80 r
        | host :: port :: _ => Request.set_host host (cast (Unsigned 16) (strtoul10 port)) r
        end) s
  end.

Definition parse_authorization (s : server) : server :=
  let s := on_request (fun r => Request.set_basicAuth (mkBasicAuth (username (Request.basicAuth r)) (password (Request.basicAuth r)) false) r) s in
  if MIME_Sub_Header.exist (str "Authorization") (request_header s) then
    match split (str " ") (MIME_Sub_Header.getOptionValueStringByName (str "Authorization") (request_header s)) with
    | [scheme; credentials] =>
        if bool_decide (scheme = str "Basic") then
          let bp := decodeFromBase64 b64_decode credentials false in
          match string_find (str ":") bp with
          | Some pos => on_request (Request.set_basicAuth (mkBasicAuth (ztake pos bp) (zdrop (pos + 1) bp) true)) s
          | None => s
          end
        else s
    | _ => s
    end
  else s.

Definition parse_userAgent (s : server) : server :=
  if MIME_Sub_Header.exist (str "User-Agent") (request_header s) then
    on_request (Request.set_userAgent (MIME_Sub_Header.getOptionRawStringByName (str "User-Agent") (request_header s))) s
  else s.

(** *** The answer *)

Definition put_length : st server unit :=
  let! r := gets serverResponse in
  let strsize := v_size (m_outStream (Response.content r)) in
  if strsize =? SIZE_MAX then
    do! replace_header (str "Connetion") (str "Close") in
    do! remove_header (str "Content-Length") in
    match m_transmitionMode (Response.content r) with
    | TRANSMIT_MODE_CHUNKS => replace_header (str "Transfer-Encoding") (str "Chunked")
    | _ => ret tt
    end
  else
    do! remove_header (str "Connetion") in
    replace_header (str "Content-Length") (to_string strsize).

Definition put_date : st server unit :=
  let! dated := gets m_includeServerDate in
  if dated then
    let! date := lift_res (Date.toString (Date.setCurrentTime now)) in
    replace_header (str "Date") date
  else ret tt.

Definition put_security : st server unit :=
  let! r := gets serverResponse in
  let s := Response.security r in
  do! replace_header (str "X-XSS-Protection") (XSSProtection.toString (sec_XSSProtection s)) in
  do! match CacheControl.toString (Response.cacheControl r) with
      | [] => ret tt
      | cacheOptions => replace_header (str "Cache-Control") cacheOptions
      end in
  do! (if negb (XFrameOpts.isNotActivated (sec_XFrameOpts s))
       then replace_header (str "X-Frame-Options") (XFrameOpts.toString (sec_XFrameOpts s)) else ret tt) in
  do! (if HSTS.isActivated (sec_HSTS s)
       then replace_header (str "Strict-Transport-Security") (HSTS.toString (sec_HSTS s)) else ret tt) in
  match Response.contentType r with
  | [] => ret tt
  | contentType =>
      do! replace_header (str "Content-Type") contentType in
      if disableNoSniffContentType s then replace_header (str "X-Content-Type-Options") (str "nosniff") else ret tt
  end.

(** The options that are not the length nor the date. *)
Definition put_options : st server unit :=
  let! r := gets serverResponse in
  do! match Response.sWWWAuthenticateRealm r with
      | [] => ret tt
      | realm => replace_header (str "WWW-Authenticate") (str "Basic realm=" ++ quoted realm)
      end in
  do! remove_header (str "Set-Cookie") in
  do! on_response_headers (Cookies_ServerSide.putOnHeaders (Response.cookies r)) in
  put_security.

Definition put_headers : st server unit :=
  do! put_length in
  do! put_date in
  let! r := gets serverResponse in
  if Response.immutableHeaders r then ret tt else put_options.

Definition streamServerHeaders : st server bool :=
  do! put_headers in
  let! h := gets (fun s => header_of (Response.headers (serverResponse s))) in
  on_up (MIME_Sub_Header.streamToUpstream h).

Context `{Handlers server}.

Definition answer : st server bool :=
  let! bad := gets m_badAnswer in
  do! (if bad then ret tt
       else let! code := procHTTPClientContent in modify (setCode code)) in
  do! modify (set_current None) in
  let! status := gets (fun s => Response.status (serverResponse s)) in
  let! streamed := on_up (Status.streamToUpstream status) in
  if negb streamed then ret false
  else
    let! streamed := streamServerHeaders in
    if negb streamed then ret false
    else
      let! content := gets (fun s => Response.content (serverResponse s)) in
      let! streamedOK := on_up (HttpContent.streamToUpstream content) in
      do! modify (on_response (fun r => Response.set_content (set_internal (Response.content r)) r)) in
      ret streamedOK.

(** *** The stages of a request *)

Definition changeToNextParserFromClientRequestLine : st server bool :=
  do! modify prepareServerVersionOnURI in
  let! bad := gets m_badAnswer in
  if bad then answer
  else
    let! more := procHTTPClientURI in
    do! modify (set_current (if more then Some InRequestHeaders else None)) in
    ret true.

(** What the type of the content makes of its stream. *)
Definition set_content_type (contentType : bytes) : st server unit := fun s =>
  let content := Request.content (clientRequest s) in
  if icontains contentType (str "multipart/form-data") then
    let content := setContainerType CONTENT_TYPE_MIME content in
    let s := on_request (Request.set_content content) s in
    match getMultiPartVars content, MIME_Sub_Header.getOptionByName (str "Content-Type") (request_header s) with
    | Exc e, _ => (Exc e, s)
    | Ret _, None => (Exc (undefined "null option"), s)
    | Ret vars, Some opt =>
        let boundary := MIME_HeaderOption.getSubVar (str "boundary") (MIME_Sub_Header.option_at (request_header s) opt) in
        (Ret tt, on_request (Request.set_content (set_out (setMultiPartBoundary boundary vars) content)) s)
    end
  else
    let value := if icontains contentType (str "application/x-www-form-urlencoded") then CONTENT_TYPE_URL
                 else if icontains contentType (str "application/json") then CONTENT_TYPE_JSON else CONTENT_TYPE_BIN in
    (Ret tt, on_request (Request.set_content (setContainerType value content)) s).

(** The size of the content; [false] when it is too large. *)
Definition set_content_length (contentLength : Z) : st server bool := fun s =>
  let content := setTransmitionMode TRANSMIT_MODE_CONTENT_LENGTH (Request.content (clientRequest s)) in
  let (accepted, content) := setContentLenSize contentLength content in
  (Ret accepted, on_request (Request.set_content content) s).

Definition process_headers (contentLength : Z) : st server bool :=
  let! more := procHTTPClientHeaders in
  if negb more then do! modify (set_current None) in ret true
  else if negb (contentLength =? 0) then do! modify (set_current (Some InRequestContent)) in ret true
  else answer.

Definition changeToNextParserFromClientHeaders : st server bool :=
  do! modify parseHostOptions in
  do! modify prepareServerVersionOnOptions in
  do! modify parse_authorization in
  do! modify parse_userAgent in
  let! bad := gets m_badAnswer in
  if bad then answer
  else
    let! h := gets request_header in
    let contentLength := fst (MIME_Sub_Header.getOptionAsUINT64 (str "Content-Length") 10 h) in
    let contentType := MIME_Sub_Header.getOptionValueStringByName (str "Content-Type") h in
    if negb (contentLength =? 0) then
      let! accepted := set_content_length contentLength in
      if negb accepted then
        do! modify (set_badAnswer true) in
        do! modify (setCode Status.S_413_PAYLOAD_TOO_LARGE) in
        answer
      else
        do! set_content_type contentType in
        process_headers contentLength
    else process_headers contentLength.

Definition changeToNextParserFromClientContentData : st server bool :=
  do! modify (set_current None) in answer.

Definition changeToNextParser : st server bool :=
  let! current := gets hs_current in
  match current with
  | Some InRequestLine => changeToNextParserFromClientRequestLine
  | Some InRequestHeaders => changeToNextParserFromClientHeaders
  | _ => changeToNextParserFromClientContentData
  end.

(** *** The protocol *)

Definition line_of (s : server) : RequestLine.t M := Request.requestLine (clientRequest s).
Definition headers_of (s : server) : MIME_Sub_Header.t M := Request.headers (clientRequest s).
Definition content_of (s : server) : Content M S := Request.content (clientRequest s).
Definition set_line_of (x : RequestLine.t M) (s : server) : server := on_request (Request.set_requestLine x) s.
Definition set_headers_of (x : MIME_Sub_Header.t M) (s : server) : server := on_request (Request.set_headers x) s.
Definition set_content_of (x : Content M S) (s : server) : server := on_request (Request.set_content x) s.

Definition line_sub : SubParserImpl M server :=
  let impl := RequestLine.line_sub uninitialised in
  {| sp s := sp (line_of s); sp_set x s := set_line_of (sp_set x (line_of s)) s; parse := on_part line_of set_line_of parse |}.
Definition headers_sub : SubParserImpl M server := {|
  sp s := sp (headers_of s); sp_set x s := set_headers_of (sp_set x (headers_of s)) s; parse := on_part headers_of set_headers_of parse
|}.
Definition content_sub : SubParserImpl M server := {|
  sp s := sp (content_of s); sp_set x s := set_content_of (sp_set x (content_of s)) s; parse := on_part content_of set_content_of parse
|}.

#[export] Instance HTTPv1_Server_protocol : Protocol M server := {
  pd := hs_data;
  pd_set := set_data;
  sub_id := request_part;
  sub_impl id := match id with InRequestLine => line_sub | InRequestHeaders => headers_sub | InRequestContent => content_sub end;
  m_currentParser := hs_current;
  initProtocol := ret true;
  endProtocol := ret tt;
  changeToNextParser := changeToNextParser
}.
End Server.
