(* ===== verification/HttpServerSpec.v ===== *)
(** * What the server sends

    The header of the answer is made by a sequence of replacements; [puts] says
    what they have in common. An answer is the status line, that header and the
    content, in this order, and nothing else. *)

From stdpp Require Import sorting.
From S2P Require Import Prelude Mem SafeInt CText Multimap Encoders StreamableObject BBase BMem BChunk BChunks BRef SubParser SubParserSpec Parser Preserves Lens Lines BoostText Random UrlVars HttpLines MimeHeader HttpHeaders HttpCookies HttpContent MimeHeaderSpec HttpBase HttpServer.

Section Server.
Context {M : Type} `{BBase M, MmapFactory M} {S : Type} `{Streamable S, ContentStreams S, MultiPart S}.
Context {C : Type} `{Readable C, ContentStreams C} {U : Type} `{FullSink U} (uninitialised : Z -> bytes).
Context `{BoostText, BoostSearch, RandomSource, !RandomLaws, Base64Decoder, Clock}.
Abbreviation server := (HTTPv1_Server M S C U).
Implicit Types s : server.

(** The header of the answer, and the server with another one. *)
Definition answer_header s : MIME_Sub_Header.fields := header_of (Response.headers (serverResponse s)).
Definition with_header (f : MIME_Sub_Header.fields) s : server :=
  set_response (Response.set_headers (MIME_Sub_Header.set_header f (Response.headers (serverResponse s))) (serverResponse s)) s.

Lemma with_header_twice f g s : with_header g (with_header f s) = with_header g s.
Proof. done. Qed.
Lemma with_own_header s : with_header (answer_header s) s = s.
Proof. by destruct s as [? ? ? [? ? []] ? ? ? ? ? ?]. Qed.

(** [F] succeeds when there is room for [n] more options, touches nothing but the
    header of the answer, whatever has been sent, and leaves the options of [key]
    as they are. *)
Definition puts (key : bytes) (n : Z) (F : st server unit) : Prop := forall s,
  header_wf (answer_header s) -> zlen (MIME_Sub_Header.m_headers (answer_header s)) + n <= MIME_Sub_Header.m_maxOptions (answer_header s) ->
  exists f', (forall u, F (set_up u s) = (Ret tt, with_header f' (set_up u s))) /\ header_wf f' /\
    MIME_Sub_Header.m_maxOptions f' = MIME_Sub_Header.m_maxOptions (answer_header s) /\
    zlen (MIME_Sub_Header.m_headers f') <= zlen (MIME_Sub_Header.m_headers (answer_header s)) + n /\
    header_options key f' = header_options key (answer_header s).

Lemma puts_nothing key n : 0 <= n -> puts key n (ret tt).
Proof. intros Hn s Hwf Hr. exists (answer_header s). split; [intros u; by rewrite <- (with_own_header (set_up u s)) at 1|]. split; [done|]. split; [done|]. split; [lia|done]. Qed.

Lemma puts_more key n m F : n <= m -> puts key n F -> puts key m F.
Proof. intros Hle HF s Hwf Hr. destruct (HF s Hwf ltac:(lia)) as (f' & ? & ? & ? & ? & ?). exists f'. split; [done|]. split; [done|]. split; [done|]. split; [lia|done]. Qed.

Lemma puts_then key n m F G : puts key n F -> puts key m G -> 0 <= m -> puts key (n + m) (do! F in G).
Proof.
  intros HF HG Hm s Hwf Hr. destruct (HF s Hwf ltac:(lia)) as (f1 & E1 & W1 & M1 & C1 & K1).
  destruct (HG (with_header f1 s)) as (f2 & E2 & W2 & M2 & C2 & K2); [exact W1|change (answer_header (with_header f1 s)) with f1; lia|].
  change (answer_header (with_header f1 s)) with f1 in *. exists f2.
  split; [intros u; unfold bind; rewrite E1; exact (E2 u)|]. split; [done|]. split; [by rewrite M2|]. split; [lia|by rewrite K2].
Qed.

(** What is read before does not change. *)
Lemma puts_gets {A} key n (g : server -> A) (F : A -> st server unit) :
  (forall u s, g (set_up u s) = g s) -> (forall a, puts key n (F a)) -> puts key n (let! a := gets g in F a).
Proof.
  intros Hg HF s Hwf Hr. destruct (HF (g s) s Hwf Hr) as (f' & E & Hrest). exists f'. split; [|exact Hrest].
  intros u. unfold bind, gets. rewrite Hg. apply E.
Qed.

Lemma puts_replace key name value : to_upper_copy name <> to_upper_copy key -> puts key 1 (replace_header name value).
Proof.
  intros Hne s Hwf Hr. destruct (replace_run name value (answer_header s) Hwf ltac:(lia)) as (r & f' & Hrun & _ & _ & Hwf' & (Hm & _) & Hc & Ho).
  exists f'. split; [|split; [done|split; [done|split; [lia|]]]].
  - intros u. unfold replace_header, on_response_headers, Response.on_headers, on_fields, MIME_Sub_Header.on_header.
    change (MIME_Sub_Header.header (Response.headers (serverResponse (set_up u s)))) with (answer_header s). by rewrite Hrun.
  - rewrite Ho. by rewrite decide_False.
Qed.

Lemma puts_remove key name : to_upper_copy name <> to_upper_copy key -> puts key 0 (remove_header name).
Proof.
  intros Hne s Hwf Hr. exists (MIME_Sub_Header.remove name (answer_header s)).
  split; [done|]. split; [by apply remove_wf|]. split; [done|].
  pose proof (remove_count name (answer_header s)). split; [lia|]. rewrite remove_options. by rewrite decide_False.
Qed.

Lemma puts_add key name value : to_upper_copy name <> to_upper_copy key ->
  puts key 1 (on_response_headers (do! MIME_Sub_Header.add name value 0 in ret tt)).
Proof.
  intros Hne s Hwf Hr. destruct (add_new name value (answer_header s) Hwf ltac:(lia)) as (r & f' & Hrun & _ & _ & Hwf' & (Hm & _) & Hc & Ho).
  exists f'. split; [|split; [done|split; [done|split; [lia|]]]].
  - intros u. unfold on_response_headers, Response.on_headers, on_fields, MIME_Sub_Header.on_header, bind.
    change (MIME_Sub_Header.header (Response.headers (serverResponse (set_up u s)))) with (answer_header s). by rewrite Hrun.
  - rewrite Ho. rewrite decide_False by done. by rewrite app_nil_r.
Qed.

(** *** The header of an answer *)

Context `{!BoostLaws}.

(** The names of the class are not that of the length. *)
Ltac other_name := rewrite !to_upper_chars; vm_compute; discriminate.

Abbreviation LENGTH := (str "Content-Length").

Lemma puts_security : puts LENGTH 6 put_security.
Proof.
  unfold put_security. apply puts_gets; [done|]. intros r. change 6 with (1 + (1 + (1 + (1 + 2)))).
  apply puts_then; [apply puts_replace; other_name| |lia]. apply puts_then; [|apply puts_then; [|apply puts_then|lia]|lia].
  - destruct (CacheControl.toString _); [by apply puts_nothing|apply puts_replace; other_name].
  - case_cond; [apply puts_replace; other_name|by apply puts_nothing].
  - case_cond; [apply puts_replace; other_name|by apply puts_nothing].
  - destruct (Response.contentType r); [by apply puts_nothing|]. change 2 with (1 + 1).
    apply puts_then; [apply puts_replace; other_name| |lia]. case_cond; [apply puts_replace; other_name|by apply puts_nothing].
  - lia.
Qed.

(** Every cookie has a date that can be printed. *)
Definition cookies_ok (m : Cookies_ServerSide.t) : Prop := Forall (fun e => exists t, Cookie.toSetCookieString (fst e) (snd e) = Ret t) m.

Lemma puts_cookies m : cookies_ok m -> puts LENGTH (zlen m) (on_response_headers (Cookies_ServerSide.putOnHeaders m)).
Proof.
  induction 1 as [|[name cookie] m [t Ht] _ IH]; intros s Hwf Hr.
  - exists (answer_header s). split; [reflexivity|]. split; [done|]. split; [done|]. split; [unfold zlen; cbn [length]; lia|done].
  - rewrite zlen_cons in Hr. pose proof (zlen_nonneg m). cbn [fst snd] in Ht.
    destruct (puts_then LENGTH 1 (zlen m) _ _ (puts_add LENGTH (str "Set-Cookie") t ltac:(other_name)) IH ltac:(lia) s Hwf ltac:(lia))
      as (f' & E & Hrest). exists f'. rewrite zlen_cons. split; [|exact Hrest]. intros u. rewrite <- E.
    unfold bind at 1. unfold on_response_headers, Response.on_headers, on_fields, MIME_Sub_Header.on_header. cbn [Cookies_ServerSide.putOnHeaders].
    unfold bind, lift_res. rewrite Ht. by destruct (MIME_Sub_Header.add _ t 0 _) as [[?|?] ?].
Qed.

Lemma put_options_run s :
  cookies_ok (Response.cookies (serverResponse s)) -> header_wf (answer_header s) ->
  zlen (MIME_Sub_Header.m_headers (answer_header s)) + (7 + zlen (Response.cookies (serverResponse s))) <= MIME_Sub_Header.m_maxOptions (answer_header s) ->
  exists f', (forall u, put_options (set_up u s) = (Ret tt, with_header f' (set_up u s))) /\ header_wf f' /\
    MIME_Sub_Header.m_maxOptions f' = MIME_Sub_Header.m_maxOptions (answer_header s) /\
    zlen (MIME_Sub_Header.m_headers f') <= zlen (MIME_Sub_Header.m_headers (answer_header s)) + (7 + zlen (Response.cookies (serverResponse s))) /\
    header_options LENGTH f' = header_options LENGTH (answer_header s).
Proof.
  intros Hck. set (m := Response.cookies (serverResponse s)) in *. pose proof (zlen_nonneg m).
  assert (HF : puts LENGTH (7 + zlen m) (do! match Response.sWWWAuthenticateRealm (serverResponse s) with
      | [] => ret tt
      | realm => replace_header (str "WWW-Authenticate") (str "Basic realm=" ++ quoted realm)
      end in do! remove_header (str "Set-Cookie") in do! on_response_headers (Cookies_ServerSide.putOnHeaders m) in put_security)).
  { replace (7 + zlen m) with (1 + (0 + (zlen m + 6))) by lia. apply puts_then; [|apply puts_then; [|apply puts_then|]|]; try lia.
    - destruct (Response.sWWWAuthenticateRealm _); [by apply puts_nothing|apply puts_replace; other_name].
    - apply puts_remove. other_name.
    - by apply puts_cookies.
    - apply puts_security. }
  apply HF.
Qed.

(** The value of the length, and what a peer makes of it. *)
Definition length_option (n : Z) (o : MIME_HeaderOption.t) : Prop :=
  MIME_HeaderOption.m_origName o = LENGTH /\ MIME_HeaderOption.m_origValue o = to_string n.

Lemma put_length_run s :
  let c := m_outStream (Response.content (serverResponse s)) in
  b_wf c -> header_wf (answer_header s) ->
  zlen (MIME_Sub_Header.m_headers (answer_header s)) + 1 <= MIME_Sub_Header.m_maxOptions (answer_header s) ->
  exists f' o, (forall u, put_length (set_up u s) = (Ret tt, with_header f' (set_up u s))) /\ header_wf f' /\
    MIME_Sub_Header.m_maxOptions f' = MIME_Sub_Header.m_maxOptions (answer_header s) /\
    zlen (MIME_Sub_Header.m_headers f') <= zlen (MIME_Sub_Header.m_headers (answer_header s)) + 1 /\
    header_options LENGTH f' = [o] /\ length_option (zlen (b_view c)) o.
Proof.
  cbn zeta. intros Hb Hwf Hr. pose proof (size_bound _ Hb) as Hs. pose proof (zlen_nonneg (b_view (m_outStream (Response.content (serverResponse s))))).
  destruct (puts_remove LENGTH (str "Connetion") ltac:(other_name) s Hwf ltac:(lia)) as (f1 & E1 & W1 & M1 & C1 & _).
  set (v := to_string (zlen (b_view (m_outStream (Response.content (serverResponse s)))))).
  destruct (replace_run LENGTH v f1 W1 ltac:(lia)) as (r & f' & Hrun & _ & _ & Hwf' & (Hm & _) & Hc & Ho).
  exists f', (parse_sub_values r v (MIME_HeaderOption.setOrigName LENGTH MIME_HeaderOption.new)).
  split; [|split; [done|split; [by rewrite Hm|split; [lia|split]]]].
  - intros u. unfold put_length. unfold bind at 1, gets at 1. change (serverResponse (set_up u s)) with (serverResponse s).
    rewrite size_view by done. replace (_ =? SIZE_MAX) with false by (unfold SIZE_MAX, SSIZE_MAX in *; lia).
    unfold bind at 1. rewrite E1. unfold replace_header, on_response_headers, Response.on_headers, on_fields, MIME_Sub_Header.on_header.
    change (MIME_Sub_Header.header (Response.headers (serverResponse (with_header f1 (set_up u s))))) with f1. fold v. by rewrite Hrun.
  - rewrite Ho. by rewrite decide_True.
  - destruct (parse_sub_values_text r v (MIME_HeaderOption.setOrigName LENGTH MIME_HeaderOption.new)) as [En Ev]. by split.
Qed.

(** The answer is not in chunks, its content is sound, and its dates can be
    printed. There is room for the options that the server adds. *)
Definition answerable s : Prop :=
  let r := serverResponse s in
  let c := Response.content r in
  m_transmitionMode c <> TRANSMIT_MODE_CHUNKS /\ b_wf (m_outStream c) /\ so_succeed (m_outStream c) = true /\
  cookies_ok (Response.cookies r) /\ (exists d, Date.toString now = Ret d) /\ header_wf (answer_header s) /\
  zlen (MIME_Sub_Header.m_headers (answer_header s)) + (9 + zlen (Response.cookies r)) <= MIME_Sub_Header.m_maxOptions (answer_header s).

Lemma put_headers_run s :
  answerable s ->
  exists f o, (forall u, put_headers (set_up u s) = (Ret tt, with_header f (set_up u s))) /\ header_wf f /\
    zlen (MIME_Sub_Header.m_headers f) <= zlen (MIME_Sub_Header.m_headers (answer_header s)) + (9 + zlen (Response.cookies (serverResponse s))) /\
    header_options LENGTH f = [o] /\ length_option (zlen (b_view (m_outStream (Response.content (serverResponse s))))) o.
Proof.
  intros (_ & Hb & _ & Hck & [d Hd] & Hwf & Hr). pose proof (zlen_nonneg (Response.cookies (serverResponse s))).
  destruct (put_length_run s Hb Hwf ltac:(lia)) as (f1 & o & E1 & W1 & M1 & C1 & O1 & L1).
  assert (Hdate : puts LENGTH 1 put_date).
  { unfold put_date. apply puts_gets; [done|]. intros [|]; [|by apply puts_nothing].
    intros s' Hw Hr'. destruct (puts_replace LENGTH (str "Date") d ltac:(other_name) s' Hw Hr') as (f' & E & Hrest). exists f'.
    split; [|exact Hrest]. intros u. unfold bind at 1, lift_res at 1. change (Date.setCurrentTime now) with now. rewrite Hd. apply E. }
  destruct (Hdate (with_header f1 s)) as (f2 & E2 & W2 & M2 & C2 & O2); [exact W1|change (answer_header (with_header f1 s)) with f1; lia|].
  change (answer_header (with_header f1 s)) with f1 in *.
  destruct (put_options_run (with_header f2 s)) as (f3 & E3 & W3 & M3 & C3 & O3); [exact Hck|exact W2| |].
  { change (answer_header (with_header f2 s)) with f2. change (Response.cookies (serverResponse (with_header f2 s))) with (Response.cookies (serverResponse s)). lia. }
  change (answer_header (with_header f2 s)) with f2 in *.
  change (Response.cookies (serverResponse (with_header f2 s))) with (Response.cookies (serverResponse s)) in *.
  assert (Hrun : forall u, put_headers (set_up u s) =
    if Response.immutableHeaders (serverResponse s) then (Ret tt, with_header f2 (set_up u s)) else (Ret tt, with_header f3 (set_up u s))).
  { intros u. unfold put_headers. unfold bind at 1. rewrite E1. unfold bind at 1.
    change (with_header f1 (set_up u s)) with (set_up u (with_header f1 s)). rewrite E2. unfold bind at 1, gets at 1.
    change (Response.immutableHeaders (serverResponse _)) with (Response.immutableHeaders (serverResponse s)).
    destruct (Response.immutableHeaders _); [done|]. exact (E3 u). }
  destruct (Response.immutableHeaders _).
  - exists f2, o. split; [exact Hrun|]. split; [done|]. split; [lia|]. split; [by rewrite O2|done].
  - exists f3, o. split; [exact Hrun|]. split; [done|]. split; [lia|]. split; [by rewrite O3, O2|done].
Qed.

(** *** The answer *)

Context {Hh : Handlers server}.

(** The server with the code of its answer: the one it has, if the request was
    refused, or that of the handler. *)
Definition decided s s1 : Prop :=
  if m_badAnswer s then s1 = s
  else exists code s0, procHTTPClientContent s = (Ret code, s0) /\ s1 = setCode code s0.

Definition answer_text s (f : MIME_Sub_Header.fields) : bytes :=
  status_line (Response.status (serverResponse s)) ++ CRLF ++ header_text (options_of f)
  ++ b_view (m_outStream (Response.content (serverResponse s))).

Lemma content_sent (c : Content M C) (u : U) :
  m_transmitionMode c <> TRANSMIT_MODE_CHUNKS -> b_wf (m_outStream c) -> so_succeed (m_outStream c) = true ->
  has_room u (zlen (b_view (m_outStream c))) ->
  exists u', HttpContent.streamToUpstream c u = (Ret true, u') /\ wrote u (b_view (m_outStream c)) u'.
Proof.
  intros Hm Hb Hs (Ho & Hr & _). destruct (streamTo_view (m_outStream c) u Hb Ho Hr) as (u' & Hw & Hv).
  exists u'. split; [|exact Hv]. unfold HttpContent.streamToUpstream. destruct (m_transmitionMode c); [done|..]; unfold bind; by rewrite Hw, Hs.
Qed.

(** The header that is sent. *)
Definition sent_header s : MIME_Sub_Header.fields := answer_header (snd (put_headers (set_current None s))).

Lemma answer_run s s1 :
  decided s s1 -> answerable s1 ->
  let f := sent_header s1 in
  exists o, header_wf f /\
    zlen (MIME_Sub_Header.m_headers f) <= zlen (MIME_Sub_Header.m_headers (answer_header s1)) + (9 + zlen (Response.cookies (serverResponse s1))) /\
    header_options LENGTH f = [o] /\ length_option (zlen (b_view (m_outStream (Response.content (serverResponse s1))))) o /\
    (has_room (hs_upStream s1) (zlen (answer_text s1 f)) ->
     exists s', answer s = (Ret true, s') /\ hs_current s' = None /\ answer_header s' = f /\
       Response.status (serverResponse s') = Response.status (serverResponse s1) /\ wrote (hs_upStream s1) (answer_text s1 f) (hs_upStream s')).
Proof.
  intros Hd Ha. pose proof Ha as (Hm & Hb & Hs & _).
  destruct (put_headers_run (set_current None s1)) as (f & o & Hp & Hwf & Hc & Hopt & Hlen); [exact Ha|].
  assert (Ef : sent_header s1 = f).
  { unfold sent_header. replace (set_current None s1) with (set_up (hs_upStream s1) (set_current None s1)) by (by destruct s1). by rewrite Hp. }
  cbn zeta. rewrite Ef. exists o. split; [done|]. split; [exact Hc|]. split; [done|]. split; [done|]. intros Hroom. unfold answer_text in Hroom.
  rewrite app_assoc, zlen_app in Hroom. set (line := status_line _ ++ CRLF) in *. rewrite zlen_app in Hroom.
  pose proof (zlen_nonneg line). pose proof (zlen_nonneg (header_text (options_of f))).
  set (body := b_view (m_outStream (Response.content (serverResponse s1)))) in *. pose proof (zlen_nonneg body).
  destruct (status_sent (Response.status (serverResponse s1)) (hs_upStream s1)) as (u1 & E1 & V1);
    [destruct Hroom; split; [done|fold line; lia]|]. fold line in V1.
  pose proof (room_after _ _ _ _ Hroom V1) as Hroom1.
  destruct (header_sent f u1) as (u2 & E2 & V2); [destruct Hroom1; split; [done|lia]|].
  pose proof (room_after _ _ _ _ Hroom1 V2) as Hroom2.
  destruct (content_sent (Response.content (serverResponse s1)) u2 Hm Hb Hs Hroom2) as (u3 & E3 & V3).
  set (s2 := set_up u3 (with_header f (set_current None s1))).
  exists (on_response (fun r => Response.set_content (set_internal (Response.content r)) r) s2). split.
  - assert (Hcode : (if m_badAnswer s then ret tt else let! code := procHTTPClientContent in modify (setCode code)) s = (Ret tt, s1)).
    { unfold decided in Hd. destruct (m_badAnswer s); [by subst|]. destruct Hd as (code & s0 & Hp0 & ->). unfold bind. by rewrite Hp0. }
    unfold answer. unfold bind at 1, gets at 1. unfold bind at 1. rewrite Hcode. unfold bind at 1, modify at 1. unfold bind at 1, gets at 1.
    unfold bind at 1, on_up at 1. change (hs_upStream (set_current None s1)) with (hs_upStream s1).
    change (serverResponse (set_current None s1)) with (serverResponse s1). rewrite E1. cbn [negb].
    unfold bind at 1, streamServerHeaders, bind at 1. rewrite Hp. unfold bind at 1, gets at 1, on_up at 1.
    change (header_of _) with f. change (hs_upStream (with_header f (set_up u1 (set_current None s1)))) with u1. rewrite E2. cbn [negb].
    unfold bind at 1, gets at 1. unfold bind at 1, on_up at 1.
    change (Response.content (serverResponse _)) with (Response.content (serverResponse s1)).
    change (hs_upStream (set_up u2 _)) with u2. rewrite E3. done.
  - split; [done|]. split; [done|]. split; [done|]. unfold answer_text. rewrite app_assoc. fold line body. eapply wrote_app; [exact V1|].
    eapply wrote_app; [exact V2|exact V3].
Qed.
End Server.
