(* ===== verification/HttpExchange.v ===== *)
(** * An answer, from the server to the client

    What the server of HttpServerSpec.v writes, read by the client of
    HttpClientSpec.v, in any pieces. *)

From stdpp Require Import sorting.
From S2P Require Import Prelude Mem SafeInt CText Multimap Encoders StreamableObject BBase BMem BChunk BChunks BChunksFacts BChunksSpec BRef SubParser SubParserSpec Parser Preserves Lens Lines BoostText Random UrlVars HttpLines MimeHeader HttpHeaders HttpCookies HttpChunked HttpContent HttpContentSpec MimeHeaderSpec HttpTransfer HttpBase HttpClient HttpClientSpec HttpServer HttpServerSpec.

(** ** Codes and their messages *)

Lemma split_run_nonempty cs tok b s : split_run cs tok b s <> [].
Proof.
  revert tok b. induction s as [|c s IH]; intros tok b; cbn [split_run]; [done|]. case_decide; [destruct b; [apply IH|done]|apply IH].
Qed.

Definition words_check `{BoostText} (message : bytes) : bool :=
  let ws := split_run [chr 9; chr 32] [] false message in
  bool_decide (message = join (str " ") ws) && forallb (free_of_check [chr 9; chr 32]) ws
    && forallb (fun w => negb (bool_decide (w = []))) ws && (zlen message <=? 31).

(** The messages of the table are words with one space between them. *)
Lemma code_message `{BoostText} code :
  code <> Status.S_999_NOT_SET ->
  exists ws, words_ok ws /\ Status.getStringTranslation (Status.code_value code) = join (str " ") ws /\
    zlen (Status.getStringTranslation (Status.code_value code)) <= 31 /\ 0 <= Status.code_value code < 2 ^ 16.
Proof.
  intros Hc. set (message := Status.getStringTranslation _).
  assert (Hcheck : words_check message = true) by (unfold message; clear message; destruct code; try (vm_compute; reflexivity); congruence).
  unfold words_check in Hcheck. set (ws := split_run _ _ _ _) in *. rewrite !andb_true_iff, bool_decide_eq_true in Hcheck.
  destruct Hcheck as (((Hj & Hf) & Hne) & Hl). exists ws. split; [|split; [done|split; [lia|destruct code; by vm_compute]]].
  rewrite forallb_forall in Hf, Hne. split; [|split].
  - apply split_run_nonempty.
  - apply List.Forall_forall. intros w Hw. by apply free_of_checked, Hf.
  - assert (Hall : Forall (fun w => w <> []) ws).
    { apply List.Forall_forall. intros w Hw. specialize (Hne w Hw). by apply negb_true_iff, bool_decide_eq_false in Hne. }
    clear - Hall. induction Hall as [|w ws Hw Hws IH]; [done|]. by destruct ws.
Qed.

Lemma dec_tight l : dec_chars l -> tight l.
Proof.
  intros Hl. assert (Hns : forall c, c ∈ l -> isspace c = false).
  { intros c Hc. pose proof (proj1 (Forall_forall _ l) Hl c Hc) as Hr. cbn beta in Hr. unfold isspace, in_range. lia. }
  destruct l as [|c l]; [done|]. split; [apply Hns, elem_of_cons; by left|]. destruct (rev (c :: l)) as [|d r] eqn:E; [done|].
  apply Hns. apply list_elem_of_In, in_rev. rewrite E. by left.
Qed.

Section Exchange.
Context `{BoostText, BoostSearch, RandomSource, !BoostLaws, !BoostSearchLaws, !RandomLaws}.

(** ** Reading the text of an answer *)

Section Reading.
Context (header0 : MIME_Sub_Header.fields) (body0 : bytes) (maxChunk maxBody pieces : Z).
Abbreviation eat := (eat_answer header0 body0 maxChunk maxBody pieces).

Lemma read_stage_status pending l :
  reads eat (Goes (AtStatus pending)) l =
  embed eat (fun x => AtStatus (snd x)) (after_status header0) (reads eat_status (Goes (tt, pending)) l).
Proof.
  apply (reads_embed eat_status eat (fun x => AtStatus (snd x)) (after_status header0)) with (r := Goes (tt, pending)).
  intros [[] p] b. apply stage_embeds. apply eat_status_rest.
Qed.

Lemma read_stage_headers status x l :
  reads eat (Goes (AtHeaders status x)) l =
  embed eat (AtHeaders status) (after_headers body0 maxBody status) (reads eat_header (Goes x) l).
Proof.
  apply (reads_embed eat_header eat (AtHeaders status) (after_headers body0 maxBody status)) with (r := Goes x).
  intros y b. apply stage_embeds. apply eat_header_rest.
Qed.

Lemma read_stage_content status f x l :
  reads eat (Goes (AtContent status f x)) l =
  embed eat (AtContent status f) (after_content status f) (reads (read_byte maxChunk pieces) (Goes x) l).
Proof.
  apply (reads_embed (read_byte maxChunk pieces) eat (AtContent status f) (after_content status f)) with (r := Goes x).
  intros y b. apply stage_embeds. intros x1 b1 y1 r1 E1. by eapply reads_empty_end.
Qed.

(** An option of a number of bytes. *)
Lemma read_length_option f n o0 o :
  header_options (str "Content-Length") f = [o] -> length_option n o0 -> reread o0 o -> 0 <= n <= SSIZE_MAX ->
  content_start maxBody f = if (n =? 0) || (n >? maxBody) then None else Some (Length n).
Proof.
  intros Ho [Hname Hval] (r & _ & ->) Hn. unfold content_start. rewrite exist_is_first, Ho. cbn [head].
  rewrite bool_decide_eq_true_2 by by eexists.
  assert (Hv : fst (MIME_Sub_Header.getOptionAsUINT64 (str "Content-Length") 10 f) = n); [|by rewrite Hv].
  unfold header_options in Ho. unfold MIME_Sub_Header.getOptionAsUINT64, MIME_Sub_Header.getOptionByName.
  destruct (MIME_Sub_Header.getOptionsByName _ f) as [|i [|? ?]]; [done| |done]. cbn [head map] in *. injection Ho as ->.
  cbn [fst]. rewrite Hval. assert (Hd : dec_chars (to_string n)).
  { unfold to_string. replace (n <? 0) with false by lia. by apply dec_digits_chars; [lia|constructor]. }
  assert (Hfree : forall c, (uchar c < 48 \/ 57 < uchar c) -> free_of [c] (to_string n)).
  { intros c Hc. eapply Forall_impl; [exact Hd|]. cbn beta. intros d Hd' ->%list_elem_of_singleton. lia. }
  rewrite parse_sub_values_plain; [|apply dec_tight, Hd|apply Hfree; left; by vm_compute|apply Hfree; right; by vm_compute].
  fold (strtoul10 (to_string n)). apply strtoul_to_string. unfold SSIZE_MAX in Hn. lia.
Qed.

Lemma read_answer status options body n o0 :
  header_wf header0 -> zlen (MIME_Sub_Header.m_headers header0) + zlen options <= MIME_Sub_Header.m_maxOptions header0 ->
  Forall option_fits options -> header_options (str "Content-Length") header0 = [] ->
  filter (named (str "Content-Length")) options = [o0] -> length_option n o0 -> n = zlen body -> n <= maxBody <= SSIZE_MAX ->
  exists f received, reads eat (Goes (AtHeaders status (header0, []))) (header_text options ++ body) = Ends (status, f, body0 ++ body) [] /\
    Forall2 reread options received /\ forall key, header_options key f = header_options key header0 ++ filter (named key) received.
Proof.
  intros Hwf Hroom Hfit Hnone Hone Hlen Hn Hmax. pose proof (zlen_nonneg body).
  destruct (read_header_text options header0 body Hwf Hroom Hfit) as (f & received & Hr & _ & _ & Hrec & Hopt).
  exists f, received. split; [|done]. rewrite read_stage_headers, Hr. cbn [embed]. unfold after_headers.
  assert (Ho : exists o, header_options (str "Content-Length") f = [o] /\ reread o0 o).
  { rewrite Hopt, Hnone. cbn [app]. clear - Hrec Hone. revert Hone. induction Hrec as [|a b options received Hab Hrec IH]; [done|].
    pose proof (named_reread (str "Content-Length") a b Hab) as Hn. rewrite !filter_cons.
    destruct (decide (named _ a)) as [Ha|Ha], (decide (named _ b)) as [Hb|Hb]; [|tauto..|exact IH].
    intros [= -> Hnil]. exists b. split; [|done]. f_equal. clear - Hrec Hnil. induction Hrec as [|a c options received Hac _ IH]; [done|].
    pose proof (named_reread (str "Content-Length") a c Hac). rewrite filter_cons in *.
    destruct (decide (named _ a)), (decide (named _ c)); [done|tauto..|by apply IH]. }
  destruct Ho as (o & Ho & Hre). rewrite (read_length_option f n o0 o Ho Hlen Hre) by lia. replace (n >? maxBody) with false by lia.
  rewrite orb_false_r. destruct (n =? 0) eqn:E0; zbool.
  - replace body with (@nil ascii) by (destruct body as [|? ?]; [done|rewrite zlen_cons in *; pose proof (zlen_nonneg body); lia]).
    by rewrite app_nil_r.
  - rewrite read_stage_content, read_length_end; [done|lia|]. intros ->. change (zlen []) with 0 in Hn. lia.
Qed.
End Reading.

(** ** The status line *)

(** A status of the table, with a version of 16-bit numbers. *)
Definition status_known {M} (x : Status.t M) : Prop :=
  version_ok (Status.m_httpVersion x) /\ exists code, code <> Status.S_999_NOT_SET /\
    Status.m_statusCode x = Status.code_value code /\ Status.m_statusMessage x = Status.getStringTranslation (Status.code_value code).

Lemma setCode_known {M} code (x : Status.t M) :
  version_ok (Status.m_httpVersion x) -> code <> Status.S_999_NOT_SET -> status_known (Status.setCode code x).
Proof. intros Hv Hc. unfold Status.setCode. rewrite bool_decide_eq_true_2 by done. split; [exact Hv|]. by exists code. Qed.

Lemma version_text_free v cs :
  version_ok v -> forallb (fun c => negb (isdigit c)) cs = true -> free_of cs (str "HTTP/.") -> free_of cs (Version.toString v).
Proof.
  intros [Hmi Hma] Hcs Hf. pose proof (proj1 (free_of_app cs (str "HTTP/") (str ".")) Hf) as [Ha Hb].
  unfold Version.toString. repeat (apply free_of_app; split); try done; (apply dec_free; [done|lia]).
Qed.

Definition status_text_of {M} (x : Status.t M) : status_text := (Status.m_httpVersion x, Status.m_statusCode x, Status.m_statusMessage x).

Lemma read_known_status {M} (x : Status.t M) header0 body0 maxChunk maxBody pieces rest :
  status_known x ->
  reads (eat_answer header0 body0 maxChunk maxBody pieces) (Goes (AtStatus [])) (status_line x ++ CRLF ++ rest) =
  reads (eat_answer header0 body0 maxChunk maxBody pieces) (Goes (AtHeaders (status_text_of x) (header0, []))) rest.
Proof.
  intros [Hv (code & Hc & Hcode & Hmsg)]. destruct (code_message code Hc) as (ws & Hws & Hj & Hlen & Hrange).
  pose proof Hv as [Hmi Hma].
  assert (Hline : read_status tt (status_line x) = Ends (status_text_of x) []) by (apply (read_status_line x ws); [done|by rewrite Hcode|done|by rewrite Hmsg]).
  assert (Hfree : free_of [CR; LF] (status_line x)).
  { unfold status_line. apply free_of_app. split; [apply version_text_free; [done|done|by apply free_of_checked]|].
    apply free_of_app. split; [by apply free_of_checked|]. apply free_of_app. split; [apply dec_free; [done|rewrite Hcode; lia]|].
    apply free_of_app. split; [by apply free_of_checked|].
    rewrite Hmsg. clear - Hc. destruct code; try (apply free_of_checked; vm_compute; reflexivity); congruence. }
  assert (Hsize : zlen (status_line x) <= 126).
  { unfold status_line, Version.toString. rewrite !zlen_app. pose proof (to_string_length (Version.m_majorVersion (Status.m_httpVersion x)) ltac:(lia)).
    pose proof (to_string_length (Version.m_minorVersion (Status.m_httpVersion x)) ltac:(lia)).
    pose proof (to_string_length (Status.code_value code) ltac:(lia)). rewrite Hmsg, Hcode.
    change (zlen (str "HTTP/")) with 5. change (zlen (str ".")) with 1. change (zlen (str " ")) with 1. lia. }
  rewrite read_stage_status.
  rewrite (reads_whole_line _ STATUS_LIMIT (fun p => (tt, p)) (fun line => next_line (read_status tt line)) (fun _ _ => eq_refl) (status_line x));
    [|intros q; by apply line_end_first|unfold STATUS_LIMIT; lia].
  rewrite Hline. cbn [next_line]. rewrite reads_ended. cbn [embed after_status app]. done.
Qed.
End Exchange.

(** ** From the server to the client *)

(** C2: what a server writes, once it has decided (the request was refused, or its
    handler returned), when its answer can be written: it is not in chunk mode
    (where the code announces the length of the content before a content in
    chunks), its content can be read and has not failed, the date of the clock
    and those of the cookies can be printed, the options it has and those it adds
    fit the limit of its header, the code of its status is one of the library
    with its text, and its stream has room: one status line, one header and the
    whole content. And a client that waits, without a Content-Length among its
    own options, receives it in any cuts of at most 256 KiB with few enough line
    ends for its round limit, when no option that was sent has a line end, a NUL
    or, in its name, a colon or a first space, each fits in a line of 2 KiB, the
    options fit the limit of its header, the content fits the limit of a body,
    and its destination has room for the whole text and takes the end of the
    stream (strings and the chunked containers in memory do): it accepts every
    write, ends, and holds that status, the values of every header name, in their order,
    after its own, and that body. *)
Theorem answer_received {M} `{BBase M, MmapFactory M} {S} `{Streamable S, ContentStreams S, MultiPart S} {C} `{Readable C, ContentStreams C}
    {U} `{FullSink U} `{BoostText, BoostSearch, RandomSource, !BoostLaws, !BoostSearchLaws, !RandomLaws, Base64Decoder, Clock, Handlers (HTTPv1_Server M S C U)}
    {M'} `{BBase M', MmapFactory M'} (uninitialised : Z -> bytes) {C'} `{BBase C'} {S'} `{FullSink S'} `{!AcceptsEOF S'}
    {U'} `{Streamable U'} `{Date.TimeText, RealmSearch, Base64Encoder}
    maxChunk maxBody ttl (s s1 : HTTPv1_Server M S C U) (p : HTTPv1_Client M' C' S' U') :
  0 <= maxChunk < NO_CHUNK -> 0 <= maxBody <= SSIZE_MAX -> 0 <= ttl < SIZE_MAX ->
  decided s s1 -> answerable s1 -> status_known (Response.status (serverResponse s1)) ->
  client_waits maxChunk maxBody ttl p -> header_wf (MIME_Sub_Header.header (HttpClient.headers_of p)) ->
  header_options (str "Content-Length") (MIME_Sub_Header.header (HttpClient.headers_of p)) = [] ->
  let body := b_view (m_outStream (Response.content (serverResponse s1))) in
  zlen body <= maxBody ->
  let f := sent_header s1 in
  let t := answer_text s1 f in
  has_room (hs_upStream s1) (zlen t) ->
  exists s', answer s = (Ret true, s') /\ hs_current s' = None /\ answer_header s' = f /\ wrote (hs_upStream s1) t (hs_upStream s') /\
    forall cuts, concat cuts = t -> Forall (fits turns 4 PIECES ttl) cuts ->
      Forall option_fits (options_of f) -> zlen t <= sink_room (m_outStream (HttpClient.content_of p)) ->
      zlen (MIME_Sub_Header.m_headers (MIME_Sub_Header.header (HttpClient.headers_of p))) + zlen (options_of f) <=
        MIME_Sub_Header.m_maxOptions (MIME_Sub_Header.header (HttpClient.headers_of p)) ->
      exists p', write_all (Prot := HTTPv1_Client_protocol) uninitialised cuts p = (Ret true, p') /\ hc_current p' = None /\
        status_is (status_text_of (Response.status (serverResponse s1))) (status_of p') /\
        (forall name, header_values name (MIME_Sub_Header.header (HttpClient.headers_of p')) =
                      header_values name (MIME_Sub_Header.header (HttpClient.headers_of p)) ++ header_values name f) /\
        sink_view (m_outStream (HttpClient.content_of p')) = sink_view (m_outStream (HttpClient.content_of p)) ++ body.
Proof.
  intros Hmc Hmb Ht Hd Ha Hst (Hcur & Httl & Hstat & Hh & Hc) Hwf0 Hnone body Hbody.
  destruct (answer_run s s1 Hd Ha) as (o & Hwf & _ & Hopt & Hlen & Hrun). cbn zeta. set (f := sent_header s1) in *. intros Hroom.
  destruct (Hrun Hroom) as (s' & Hans & Hcur' & Hf & Hst' & Hw). exists s'. split; [done|]. split; [done|]. split; [done|]. split; [done|].
  intros cuts Hcuts Hfits Hfit Hsink Hmax.
  pose proof (client_reads uninitialised maxChunk maxBody ttl Hmc Hmb Ht (HttpClient.headers_of p) (HttpClient.content_of p) Hh Hc (AtStatus [])
    (sink_room (m_outStream (HttpClient.content_of p))) p cuts) as Hread.
  assert (Hok : client_ok maxChunk ttl (HttpClient.headers_of p) (HttpClient.content_of p) (AtStatus []) (sink_room (m_outStream (HttpClient.content_of p))) p).
  { split; [by split|]. split; [|by split; [|split]]. split; [|done].
    apply (line_waits STATUS_LIMIT _ (status_of p) _ eq_refl); [right; exists "Status"%string; exact Hstat|]. split; vm_compute; discriminate. }
  rewrite Hcuts in Hread. specialize (Hread Hok Hfits Hsink). unfold answer_text in Hread. fold body in Hread. rewrite read_known_status in Hread by done.
  destruct (read_answer (MIME_Sub_Header.header (HttpClient.headers_of p)) (sink_view (m_outStream (HttpClient.content_of p))) maxChunk maxBody PIECES
    (status_text_of (Response.status (serverResponse s1))) (options_of f) body (zlen body) o Hwf0 Hmax Hfit Hnone) as (g & received & Hr & Hrec & Hg);
    [rewrite options_named by done; exact Hopt|done|done|lia|].
  rewrite Hr in Hread. cbn [all_agree] in Hread. destruct Hread as (p' & Hwr & [Hcp _] & Hsp & Hhp & Hv & _).
  exists p'. rewrite bool_decide_eq_true_2 in Hwr by done. split; [done|]. split; [done|]. split; [done|]. split; [|done].
  intros name. rewrite Hhp. unfold header_values. rewrite Hg, map_app. f_equal.
  by rewrite (reread_text name (options_of f) received Hrec), options_named.
Qed.

(** ** A concrete answer *)

Module Page.
(** Code outside src/, for the example. *)
#[global] Instance clock : Clock := 0.
#[global] Instance no_base64 : Base64Decoder := fun _ => None.
#[global] Instance streams : ContentStreams StreamableString := fun _ => StreamableString_new.
#[global] Instance chunks : ContentStreams (B_Chunks B_MEM) := fun _ => B_Chunks_new.
#[global] Instance boundary : MultiPart StreamableString := fun _ x => x.

Abbreviation Server := (HTTPv1_Server B_MEM StreamableString (B_Chunks B_MEM) StreamableString).

Definition page : B_Chunks B_MEM := snd (append (str "not here") B_Chunks_new).
#[global] Instance handlers : Handlers Server := {|
  procHTTPClientURI := ret true;
  procHTTPClientHeaders := ret true;
  procHTTPClientContent := fun s =>
    (Ret Status.S_404_NOT_FOUND, on_response (fun r => Response.set_content (set_out page (Response.content r)) r) s)
|}.

Definition server : Server :=
  match HTTPv1_Server_new StreamableString_new B_Chunks_new StreamableString_new with
  | Ret s => s
  | Exc _ => mkServer (ParserData_new false) None (Request.new StreamableString_new) (Response.new B_Chunks_new) [] true [] true [] StreamableString_new
  end.
Definition decided : Server := setCode Status.S_404_NOT_FOUND (snd (procHTTPClientContent server)).

Definition text : bytes := answer_text decided (sent_header decided).
Definition cuts : list bytes := [ztake 11 text; zdrop 11 (ztake 40 text); zdrop 40 text].
End Page.

(** The conditions on a header, decided. *)
Fixpoint sorted_check {A} (l : list (bytes * A)) : bool :=
  match l with [] => true | x :: l => forallb (fun y => name_leb (fst x) (fst y)) l && sorted_check l end.

Definition header_check (f : MIME_Sub_Header.fields) : bool :=
  let n := length (MIME_Sub_Header.store f) in
  sorted_check (MIME_Sub_Header.m_headers f) &&
  forallb (fun kv => (snd kv <? n)%nat && bool_decide (fst kv = MIME_HeaderOption.getUpperName (MIME_Sub_Header.option_at f (snd kv)))) (MIME_Sub_Header.m_headers f) &&
  (zlen (MIME_Sub_Header.m_headers f) <=? MIME_Sub_Header.m_maxOptions f) &&
  match MIME_Sub_Header.m_lastOpt f with Some i => (i <? n)%nat | None => true end.

Lemma header_checked f : header_check f = true -> header_wf f.
Proof.
  unfold header_check. rewrite !andb_true_iff. intros (((Hs & Hf) & Hl) & Hm). split; [|split; [|split]].
  - clear - Hs. induction (MIME_Sub_Header.m_headers f) as [|x l IH]; [constructor|]. cbn [sorted_check] in Hs. apply andb_true_iff in Hs as [Hx Hl].
    constructor; [by apply IH|]. apply List.Forall_forall. by apply forallb_forall.
  - apply List.Forall_forall. intros kv Hkv. rewrite forallb_forall in Hf. specialize (Hf kv Hkv). apply andb_true_iff in Hf as [Hi Hk].
    split; [by apply Nat.ltb_lt|by apply bool_decide_eq_true in Hk].
  - lia.
  - destruct (MIME_Sub_Header.m_lastOpt f); [by apply Nat.ltb_lt|done].
Qed.

Definition fits_check (o : MIME_HeaderOption.t) : bool :=
  let name := MIME_HeaderOption.m_origName o in
  let value := MIME_HeaderOption.m_origValue o in
  free_of_check [chr 58; CR; LF] name && free_of_check [CR; LF] value && bool_decide (c_str value = value) &&
  match name with c :: _ => negb ((uchar c =? 32) || (uchar c =? 9)) | [] => true end && (zlen name + zlen value + 4 <=? HEADER_LIMIT).

Lemma fits_checked o : fits_check o = true -> option_fits o.
Proof.
  unfold fits_check, option_fits. rewrite !andb_true_iff. intros ((((Hn & Hv) & Hc) & Hf) & Hl). apply free_of_checked in Hn, Hv. apply bool_decide_eq_true in Hc.
  split; [|split; [|split; [done|split; [done|split; [|lia]]]]].
  - intros Hin. pose proof (proj1 (Forall_forall _ _) Hn _ Hin) as H. cbn beta in H. set_solver.
  - eapply Forall_impl; [exact Hn|]. cbn beta. set_solver.
  - destruct (MIME_HeaderOption.m_origName o); [done|]. lia.
Qed.

Lemma page_wf : b_wf Page.page.
Proof.
  destruct (append_room (B_Chunks_new (M := B_MEM)) (str "not here")) as (v & Ha & Hopen & _); [|done|vm_compute; discriminate|].
  - split; [|done]. split; [done|]. split; [constructor|]. split; [done|]. vm_compute. discriminate.
  - unfold Page.page. rewrite Ha. exact (proj1 Hopen).
Qed.

Lemma answer_received_witness :
  exists s' p', answer Page.server = (Ret true, s') /\
    write_all (Prot := HTTPv1_Client_protocol) (fun _ => []) Page.cuts HttpClientSpec.Sample.client = (Ret true, p') /\
    status_is (Version.mk 1 1, 404, str "Not Found") (status_of p') /\
    header_values (str "date") (MIME_Sub_Header.header (HttpClient.headers_of p')) = [str "Thu, 01 Jan 1970 00:00:00 GMT"] /\
    sink_view (m_outStream (HttpClient.content_of p')) = str "not here".
Proof.
  pose proof (answer_received (M := B_MEM) (fun _ => []) MAX_CHUNK MAX_BODY 4096 Page.server Page.decided HttpClientSpec.Sample.client) as Hr.
  cbv zeta in Hr. destruct Hr as (s' & Ha & _ & _ & _ & Hr).
  - split; vm_compute; [discriminate|reflexivity].
  - split; vm_compute; discriminate.
  - split; vm_compute; [discriminate|reflexivity].
  - eexists _, _. split; reflexivity.
  - split; [vm_compute; discriminate|]. split; [exact page_wf|]. split; [vm_compute; reflexivity|]. split; [constructor|].
    split; [eexists; vm_compute; reflexivity|]. split; [|vm_compute; discriminate].
    apply header_checked. vm_compute. reflexivity.
  - apply setCode_known; [|discriminate]. split; vm_compute; split; discriminate || reflexivity.
  - eapply new_client_waits; [|exact new_string_ok]. vm_compute. reflexivity.
  - apply header_checked. vm_compute. reflexivity.
  - vm_compute. reflexivity.
  - vm_compute. discriminate.
  - split; [exact new_string_ok|]. split; vm_compute; discriminate.
  - destruct (Hr Page.cuts) as (p' & Hw & _ & Hs & Hh & Hv).
    + vm_compute. reflexivity.
    + unfold Page.cuts. repeat constructor; vm_compute; discriminate.
    + apply List.Forall_forall. intros o Ho. apply fits_checked. revert o Ho. apply forallb_forall. vm_compute. reflexivity.
    + vm_compute. discriminate.
    + vm_compute. discriminate.
    + exists s', p'. split; [exact Ha|]. split; [exact Hw|]. split; [exact Hs|]. split; [rewrite (Hh (str "date")); vm_compute; reflexivity|exact Hv].
Defined.
