(* ===== verification/HttpRefusals.v ===== *)
(** * The requests a server refuses

    A version other than 1.x, HTTP/1.1 without a host, a body that is too long:
    the answer is the code of the refusal, whatever the handlers would do. *)

From S2P Require Import Prelude Mem SafeInt CText Encoders StreamableObject BBase BMem BChunk BChunks BChunksFacts BChunksSpec BRef SubParser SubParserSpec Parser Preserves Lens Lines BoostText Random UrlVars HttpLines MimeHeader HttpHeaders HttpCookies HttpContent MimeHeaderSpec HttpTransfer HttpBase HttpServer HttpServerSpec HttpExchange.

Section Refusals.
Context {M : Type} `{BBase M, MmapFactory M} {S : Type} `{Streamable S, ContentStreams S, MultiPart S}.
Context {C : Type} `{Readable C, ContentStreams C} {U : Type} `{FullSink U}.
Context `{BoostText, BoostSearch, RandomSource, !RandomLaws, !BoostLaws, Base64Decoder, Clock}.
Abbreviation server := (HTTPv1_Server M S C U).
Implicit Types s : server.

(** ** What the checks touch *)

Lemma on_request_twice f g s : on_request g (on_request f s) = on_request (fun r => g (f r)) s.
Proof. done. Qed.
Lemma on_request_nothing s : s = on_request id s.
Proof. by destruct s. Qed.

(** The functions that read the headers change the rest of the request only. *)
Definition keeps (f : Request.t M S -> Request.t M S) : Prop := forall r,
  Request.requestLine (f r) = Request.requestLine r /\ Request.headers (f r) = Request.headers r /\ Request.content (f r) = Request.content r.
Definition reads_request (F : server -> server) : Prop := forall s, exists f, keeps f /\ F s = on_request f s.

Lemma reads_nothing s : exists f, keeps f /\ s = on_request f s.
Proof. exists id. split; [done|apply on_request_nothing]. Qed.

Lemma reads_then F G : reads_request F -> reads_request G -> reads_request (fun s => G (F s)).
Proof.
  intros HF HG s. destruct (HF s) as (f & Hf & ->). destruct (HG (on_request f s)) as (g & Hg & ->). exists (fun r => g (f r)).
  split; [|done]. intros r. destruct (Hf r) as (<- & <- & <-). apply Hg.
Qed.

Lemma host_reads : reads_request parseHostOptions.
Proof.
  intros s. unfold parseHostOptions. destruct (MIME_Sub_Header.getOptionValueStringByName _ _); [apply reads_nothing|].
  eexists. split; [|done]. intros r. by destruct (split _ _) as [|? [|? ?]].
Qed.

Lemma authorization_reads : reads_request parse_authorization.
Proof.
  intros s. unfold parse_authorization. case_cond; [|(eexists; split; [|done]; by intros r)]. destruct (split _ _) as [|? [|? [|? ?]]]; try (eexists; split; [|done]; by intros r).
  case_cond; [|(eexists; split; [|done]; by intros r)]. destruct (string_find _ _); [rewrite on_request_twice|]; (eexists; split; [|done]; by intros r).
Qed.

Lemma userAgent_reads : reads_request parse_userAgent.
Proof. intros s. unfold parse_userAgent. case_cond; [(eexists; split; [|done]; by intros r)|apply reads_nothing]. Qed.

(** ** The refusals *)

Definition hostless s : bool :=
  (Version.m_minorVersion (RequestLine.m_httpVersion (Request.requestLine (clientRequest s))) >=? 1) &&
  bool_decide (Request.virtualHost (clientRequest (parseHostOptions s)) = []).

Definition too_long s : bool :=
  let n := fst (MIME_Sub_Header.getOptionAsUINT64 (str "Content-Length") 10 (request_header s)) in
  negb (n =? 0) && (n >? m_securityMaxPostDataSize (Request.content (clientRequest s))).

Definition refusal s : option Status.Codes :=
  match hs_current s with
  | Some InRequestLine =>
      if Version.m_majorVersion (RequestLine.m_httpVersion (Request.requestLine (clientRequest s))) =? 1 then None
      else Some Status.S_505_HTTP_VERSION_NOT_SUPPORTED
  | Some InRequestHeaders =>
      if hostless s then Some Status.S_400_BAD_REQUEST else if too_long s then Some Status.S_413_PAYLOAD_TOO_LARGE else None
  | _ => None
  end.

(** The status of the refusal; a version that is not supported is answered with 1.0. *)
Definition refused_status (code : Status.Codes) s : Status.t M :=
  let x := Response.status (serverResponse s) in
  match hs_current s with
  | Some InRequestLine => Status.setCode code (Status.set_version (Version.mk 0 1) x)
  | _ => Status.setCode code x
  end.

Lemma answerable_status (x : Status.t M) s s1 :
  serverResponse s1 = Response.set_status x (serverResponse s) -> answerable s -> answerable s1.
Proof. intros He. unfold answerable, answer_header. rewrite He. done. Qed.

(** The state that answers. *)
Definition refused s : server :=
  match hs_current s with
  | Some InRequestLine => prepareServerVersionOnURI s
  | _ =>
      let s3 := parse_userAgent (parse_authorization (prepareServerVersionOnOptions (parseHostOptions s))) in
      if hostless s then s3
      else
        let n := fst (MIME_Sub_Header.getOptionAsUINT64 (str "Content-Length") 10 (request_header s)) in
        setCode Status.S_413_PAYLOAD_TOO_LARGE (set_badAnswer true (snd (set_content_length n s3)))
  end.

(** A refusal is an answer of a state that differs from [s] in its request, its
    status and its mark. *)
Lemma refusal_answers s code :
  refusal s = Some code -> m_badAnswer s = false ->
  let s1 := refused s in
  m_badAnswer s1 = true /\ serverResponse s1 = Response.set_status (refused_status code s) (serverResponse s) /\
    hs_upStream s1 = hs_upStream s /\ forall Hh : Handlers server, changeToNextParser s = answer s1.
Proof.
  unfold refusal, refused_status, refused, changeToNextParser. intros Hr Hbad. unfold bind at 1, gets at 1.
  destruct (hs_current s) as [[| |]|] eqn:Ec; try done.
  - destruct (_ =? 1) eqn:E1; [done|]. injection Hr as <-. cbn zeta.
    unfold changeToNextParserFromClientRequestLine, bind at 1, modify at 1. unfold bind at 1, gets at 1.
    unfold prepareServerVersionOnURI. change (clientRequest (on_version _ s)) with (clientRequest s). rewrite E1. cbn [negb]. done.
  - destruct (host_reads s) as (f1 & K1 & E1). destruct (K1 (clientRequest s)) as (L1 & H1' & C1).
    set (s1 := parseHostOptions s) in *. set (s2 := prepareServerVersionOnOptions s1).
    destruct (reads_then _ _ authorization_reads userAgent_reads s2) as (f3 & K3 & E3). set (s3 := parse_userAgent (parse_authorization s2)) in *.
    assert (Hrun : forall Hh : Handlers server, changeToNextParserFromClientHeaders s =
      (let! bad := gets m_badAnswer in
       if bad then answer else
         let! h := gets request_header in
         let contentLength := fst (MIME_Sub_Header.getOptionAsUINT64 (str "Content-Length") 10 h) in
         let contentType := MIME_Sub_Header.getOptionValueStringByName (str "Content-Type") h in
         if negb (contentLength =? 0) then
           let! accepted := set_content_length contentLength in
           if negb accepted then
             do! modify (set_badAnswer true) in do! modify (setCode Status.S_413_PAYLOAD_TOO_LARGE) in answer
           else do! set_content_type contentType in process_headers contentLength
         else process_headers contentLength) s3) by done.
    assert (E2 : s2 = if hostless s then set_badAnswer true (setCode Status.S_400_BAD_REQUEST s1) else s1).
    { unfold s2, prepareServerVersionOnOptions, hostless. fold s1. rewrite E1.
      change (clientRequest (on_request f1 s)) with (f1 (clientRequest s)). rewrite L1. destruct (_ >=? 1); [|done]. cbn [andb].
      by destruct (Request.virtualHost (f1 (clientRequest s))). }
    destruct (hostless s).
    + injection Hr as <-. cbn zeta. fold s1 s2. fold s3. rewrite E3, E2, E1. split; [done|]. split; [done|]. split; [done|].
      intros Hh. rewrite Hrun, E3, E2, E1. done.
    + destruct (too_long s) eqn:El; [|done]. injection Hr as <-. unfold too_long in El. apply andb_true_iff in El as [Hn Hgt].
      assert (Eh : request_header s3 = request_header s).
      { unfold request_header. rewrite E3, E2, E1. change (clientRequest (on_request f3 (on_request f1 s))) with (f3 (f1 (clientRequest s))). destruct (K3 (f1 (clientRequest s))) as (_ & -> & _). by rewrite H1'. }
      assert (Econt : Request.content (clientRequest s3) = Request.content (clientRequest s)).
      { rewrite E3, E2, E1. change (clientRequest (on_request f3 (on_request f1 s))) with (f3 (f1 (clientRequest s))). destruct (K3 (f1 (clientRequest s))) as (_ & _ & ->). by rewrite C1. }
      cbn zeta. set (n := fst _) in *. fold s1 s2. fold s3.
      assert (Eset : set_content_length n s3 = (Ret false, snd (set_content_length n s3))).
      { unfold set_content_length, setContentLenSize. rewrite Econt. change (m_securityMaxPostDataSize (setTransmitionMode _ ?c)) with (m_securityMaxPostDataSize c).
        by rewrite Hgt. }
      assert (Hother : serverResponse (snd (set_content_length n s3)) = serverResponse s /\ hs_upStream (snd (set_content_length n s3)) = hs_upStream s).
      { unfold set_content_length. destruct (setContentLenSize _ _). by rewrite E3, E2, E1. }
      destruct Hother as [Er Eu]. split; [done|]. split; [cbn; by rewrite Er|]. split; [exact Eu|].
      intros Hh. rewrite Hrun. unfold bind at 1, gets at 1. replace (m_badAnswer s3) with false by (by rewrite E3, E2, E1).
      unfold bind at 1, gets at 1. rewrite Eh. fold n. rewrite Hn. unfold bind at 1. rewrite Eset. done.
Qed.

End Refusals.

(** ** A request without a host *)

Definition hostless_request : Page.Server :=
  set_current (Some InRequestHeaders)
    (on_request (fun r => Request.set_requestLine (RequestLine.set_version (Version.mk 1 1) (Request.requestLine r)) r) Page.server).

