(* ===== verification/HttpFiles.v ===== *)
(** * The files of an HTTP server (Protocol_HTTP/httpv1_server.cpp)

    The three searches for the file a URI asks for, over any file system, and
    what keeps them inside the directory of the server. *)

From S2P Require Import Prelude SafeInt CText Mem Encoders StreamableObject BBase BMem BChunk BChunks BRef SubParser SubParserSpec Parser BoostText Random UrlVars HttpLines MimeHeader HttpCookies HttpHeaders HttpContent HttpBase HttpServer.

Inductive file_type : Type := Directory | Regular | Special.

(** The calls of the system: [realpath], the type and the time of the last
    modification that [stat] gives, [access] with R_OK and with X_OK; and the
    container on a file, when [referenceFile] can open it. *)
Class FileSystem (C : Type) : Type := {
  realpath : bytes -> option bytes;
  stat : bytes -> option (file_type * Z);
  readable : bytes -> bool;
  executable : bytes -> bool;
  referenceFile : bytes -> option C
}.

Record sLocalRequestedFileInfo : Type := mkInfo {
  sRealRelativePath : bytes;
  sRealFullPath : bytes;
  isDir : bool;
  isExecutable : bool;
  isTransversal : bool;
  pathExist : bool
}.
Definition info_reset : sLocalRequestedFileInfo := mkInfo [] [] false false false false.
Definition set_paths (full relative : bytes) (i : sLocalRequestedFileInfo) : sLocalRequestedFileInfo :=
  mkInfo relative full (isDir i) (isExecutable i) (isTransversal i) (pathExist i).
Definition set_isDir (b : bool) (i : sLocalRequestedFileInfo) : sLocalRequestedFileInfo :=
  mkInfo (sRealRelativePath i) (sRealFullPath i) b (isExecutable i) (isTransversal i) (pathExist i).
Definition set_isExecutable (b : bool) (i : sLocalRequestedFileInfo) : sLocalRequestedFileInfo :=
  mkInfo (sRealRelativePath i) (sRealFullPath i) (isDir i) b (isTransversal i) (pathExist i).
Definition set_isTransversal (b : bool) (i : sLocalRequestedFileInfo) : sLocalRequestedFileInfo :=
  mkInfo (sRealRelativePath i) (sRealFullPath i) (isDir i) (isExecutable i) b (pathExist i).
Definition set_pathExist (b : bool) (i : sLocalRequestedFileInfo) : sLocalRequestedFileInfo :=
  mkInfo (sRealRelativePath i) (sRealFullPath i) (isDir i) (isExecutable i) (isTransversal i) b.

Definition SLASHB : ascii := chr 47.

(** [p += (p.back() == SLASHB ? [] : /)] *)
Definition with_slash (p : bytes) : bytes := if bool_decide (last p = Some SLASHB) then p else p ++ [SLASHB].

(** The test for paths outside of the directory. *)
Definition is_outside (sServerDir path : bytes) : bool :=
  (zlen path <? zlen sServerDir) || negb (bool_decide (ztake (zlen sServerDir) path = sServerDir)).

Section Files.
Context {M : Type} `{BBase M, MmapFactory M} {S C U : Type} `{ContentStreams C, FileSystem C}.
Context `{BoostText, BoostSearch, RandomSource}.

(** The directory of the server, resolved. *)
Definition server_dir (sServerDir : bytes) : option bytes := option_map with_slash (realpath (c_str sServerDir)).

(** The path that is asked for: the URI without its first character. *)
Definition requested_path (sServerDir uri append : bytes) : bytes := sServerDir ++ zdrop 1 uri ++ append.

(** From the place of the last slash of the directory. *)
Definition relative_path (sServerDir path : bytes) : bytes := c_str (zdrop (zlen sServerDir - 1) path).

(** *** getLocalFilePathFromURI0NE and getLocalFilePathFromURI0E *)

Definition inside (sServerDir path : bytes) (info : sLocalRequestedFileInfo) : bool * sLocalRequestedFileInfo :=
  if is_outside sServerDir path then (false, set_isTransversal true info)
  else (true, set_paths path (relative_path sServerDir path) info).

Definition getLocalFilePathFromURI0NE (uri sServerDir : bytes) : bool * sLocalRequestedFileInfo :=
  match server_dir sServerDir with
  | None => (false, info_reset)
  | Some sServerDir =>
      match realpath (c_str (requested_path sServerDir uri [])) with
      | None => (false, info_reset)
      | Some sFullComputedRealPath => inside sServerDir sFullComputedRealPath info_reset
      end
  end.

(** When [stat] fails its buffer has not been written. *)
Definition getLocalFilePathFromURI0E (uri sServerDir : bytes) : res (bool * sLocalRequestedFileInfo) :=
  match server_dir sServerDir with
  | None => Ret (false, info_reset)
  | Some sServerDir =>
      match realpath (c_str (requested_path sServerDir uri [])) with
      | None => Ret (false, info_reset)
      | Some path =>
          match stat path with
          | None => Exc (undefined "value of st_mode")
          | Some (Directory, _) => Ret (inside sServerDir (with_slash path) (set_isDir true info_reset))
          | Some (_, _) => Ret (inside sServerDir path info_reset)
          end
      end
  end.

(** *** getLocalFilePathFromURI2 *)

Abbreviation server := (HTTPv1_Server M S C U).
Abbreviation search := (st (server * sLocalRequestedFileInfo)).

Definition on_server {A} (f : st server A) : search A := fun x => let (r, s) := f (fst x) in (r, (s, snd x)).
Definition on_info (f : sLocalRequestedFileInfo -> sLocalRequestedFileInfo) : search unit := modify (fun x => (fst x, f (snd x))).

(** The answer may be kept for an hour. *)
Definition cacheable (r : Response.t M C) : Response.t M C :=
  let c := Response.cacheControl r in
  Response.set_cacheControl
    (CacheControl.mk false false false (CacheControl.optionPrivate c) (CacheControl.optionPublic c) true
       (CacheControl.optionNoTransform c) (CacheControl.optionProxyRevalidate c) 3600 (CacheControl.sMaxAge c)) r.

Definition serve_static (path : bytes) (element : C) : search bool :=
  do! on_server (modify (on_response cacheable)) in
  do! on_server (setResponseContentTypeByFileExtension path) in
  do! on_info (set_paths (str "MEM:" ++ path) path) in
  do! on_server (modify (on_response (Response.setDataStreamer (Some element)))) in
  ret true.

Definition serve_directory (sServerDir path append : bytes) : search bool :=
  do! on_info (set_pathExist true) in
  match append with
  | _ :: _ => ret false
  | [] =>
      let path := with_slash path in
      do! on_info (set_paths path (relative_path sServerDir path)) in
      ret (readable (c_str path))
  end.

(** The time of the file is that of the path that was asked for. *)
Definition put_lastModified (sFullRequestedPath : bytes) : search unit :=
  match stat (c_str sFullRequestedPath) with
  | None => ret tt
  | Some (_, mtime) =>
      let! dated := gets (fun x => m_includeServerDate (fst x)) in
      if dated then
        let! date := lift_res (Date.toString mtime) in
        do! on_server (on_response_headers (do! MIME_Sub_Header.add (str "Last-Modified") date 0 in ret tt)) in
        ret tt
      else ret tt
  end.

Definition serve_file (sServerDir sFullRequestedPath path : bytes) (dontMapExecutables : bool) : search bool :=
  do! on_info (set_pathExist true) in
  if dontMapExecutables && executable (c_str path) then
    do! on_info (fun i => set_pathExist true (set_isExecutable true (set_paths path (relative_path sServerDir path) i))) in
    ret true
  else
    match referenceFile (c_str path) with
    | None => ret false
    | Some bFile =>
        do! on_info (set_paths path (relative_path sServerDir path)) in
        do! on_server (modify (on_response (Response.setDataStreamer (Some bFile)))) in
        let! info := gets snd in
        do! on_server (setResponseContentTypeByFileExtension (sRealRelativePath info)) in
        do! put_lastModified sFullRequestedPath in
        do! on_server (modify (on_response cacheable)) in
        ret true
    end.

Definition serve_path (sServerDir sFullRequestedPath path append : bytes) (type : file_type) (dontMapExecutables : bool) : search bool :=
  if is_outside sServerDir path then do! on_info (set_isTransversal true) in ret false
  else match type with
       | Directory => serve_directory sServerDir path append
       | Regular => serve_file sServerDir sFullRequestedPath path dontMapExecutables
       | Special => ret false
       end.

Definition getLocalFilePathFromURI2 (sServerDir defaultFileAppend : bytes) (dontMapExecutables : bool) : search bool :=
  do! on_info (fun _ => info_reset) in
  match server_dir sServerDir with
  | None => ret false
  | Some sServerDir =>
      let! s := gets fst in
      let uri := Request.getURI (clientRequest s) in
      let sFullRequestedPath := requested_path sServerDir uri defaultFileAppend in
      match map_find (uri ++ defaultFileAppend) (m_staticContentElements s) with
      | Some element => serve_static (uri ++ defaultFileAppend) element
      | None =>
          match realpath (c_str sFullRequestedPath) with
          | None => ret false
          | Some path =>
              match stat path with
              | None => throw (undefined "value of st_mode")
              | Some (Directory, _) =>
                  do! on_info (set_isDir true) in
                  serve_path sServerDir sFullRequestedPath (with_slash path) defaultFileAppend Directory dontMapExecutables
              | Some (type, _) => serve_path sServerDir sFullRequestedPath path defaultFileAppend type dontMapExecutables
              end
          end
      end
  end.
End Files.

(** * What the server finds in the file system

    A search gives a registered element, or a path below the resolved directory
    of the server, and then the answer is the file of that path. *)

(** ** Paths *)

Lemma with_slash_ends p : exists q, with_slash p = q ++ [SLASHB].
Proof.
  unfold with_slash. case_bool_decide as Hl; [|by exists p]. apply last_Some in Hl as [q ->]. by exists q.
Qed.

Lemma server_dir_ends `{FileSystem C} dir root : server_dir dir = Some root -> exists q, root = q ++ [SLASHB].
Proof. unfold server_dir. destruct (realpath _); intros [= <-]. apply with_slash_ends. Qed.

Lemma is_outside_spec root path : is_outside root path = false <-> exists below, path = root ++ below.
Proof.
  unfold is_outside. rewrite orb_false_iff, negb_false_iff, bool_decide_eq_true. split.
  - intros [_ Hp]. exists (zdrop (zlen root) path). rewrite <- Hp at 1. symmetry. apply ztake_zdrop.
  - intros [below ->]. rewrite zlen_app, ztake_length_app. pose proof (zlen_nonneg below). split; [lia|done].
Qed.

(** The relative path is what follows the directory, after a slash. *)
Lemma relative_path_below root below : (exists q, root = q ++ [SLASHB]) -> relative_path root (root ++ below) = SLASHB :: c_str below.
Proof.
  intros [q ->]. unfold relative_path. rewrite zlen_app. change (zlen [SLASHB]) with 1. replace (zlen q + 1 - 1) with (zlen q) by lia.
  by rewrite <- app_assoc, zdrop_length_app.
Qed.

(** ** The steps of a search *)

Section Search.
Context {M : Type} `{BBase M, MmapFactory M} {S C U : Type} `{ContentStreams C, FileSystem C}.
Context `{BoostText, BoostSearch, RandomSource}.
Abbreviation server := (HTTPv1_Server M S C U).
Implicit Types s : server.
Implicit Types i : sLocalRequestedFileInfo.

(** What the answer will send. *)
Definition page_of s : C := m_outStream (Response.content (serverResponse s)).

Lemma content_type_page path s r s' : setResponseContentTypeByFileExtension path s = (r, s') -> page_of s' = page_of s.
Proof.
  unfold setResponseContentTypeByFileExtension. destruct (last_from _ _) as [[|? [|? ?]]|]; [by intros [= _ <-]..| |by intros [= _ <-]].
  destruct (map_find _ _); by intros [= _ <-].
Qed.

Lemma lastModified_page path s i r s' i' : put_lastModified path (s, i) = (r, (s', i')) -> page_of s' = page_of s /\ i' = i.
Proof.
  unfold put_lastModified. destruct (stat _) as [[? mtime]|]; [|by intros [= _ <- <-]]. unfold bind at 1, gets. cbn [fst].
  destruct (m_includeServerDate s); [|by intros [= _ <- <-]]. unfold bind, lift_res. destruct (Date.toString mtime); [|by intros [= _ <- <-]].
  unfold on_server, on_response_headers, Response.on_headers, on_fields, MIME_Sub_Header.on_header. cbn [fst snd].
  destruct (MIME_Sub_Header.add _ _ _ _) as [[?|?] ?]; by intros [= _ <- <-].
Qed.

(** The file of a path below the directory. *)
Definition found (root path : bytes) (type : file_type) s s' i : Prop :=
  exists below, sRealFullPath i = root ++ below /\ sRealRelativePath i = SLASHB :: c_str below /\
    match type with
    | Directory => sRealFullPath i = with_slash path /\ readable (c_str (sRealFullPath i)) = true /\ s' = s
    | Regular => sRealFullPath i = path /\
                 if isExecutable i then executable (c_str path) = true /\ s' = s
                 else referenceFile (c_str path) = Some (page_of s')
    | Special => False
    end.

Lemma serve_directory_spec root path append s i r s' i' :
  (exists q, root = q ++ [SLASHB]) -> is_outside root (with_slash path) = false ->
  serve_directory root (with_slash path) append (s, i) = (r, (s', i')) ->
  s' = s /\ isTransversal i' = isTransversal i /\ (r = Ret true -> found root path Directory s s' i') /\ exists b, r = Ret b.
Proof.
  intros Hroot [below Hb]%is_outside_spec. unfold serve_directory, bind, on_info, modify. cbn [fst snd].
  destruct append as [|? ?]; [|intros [= <- <- <-]; split; [done|]; split; [done|]; split; [done|by eexists]].
  assert (Hw : with_slash (with_slash path) = with_slash path).
  { destruct (with_slash_ends path) as [q ->]. unfold with_slash at 1. rewrite last_snoc. by rewrite bool_decide_eq_true_2. }
  rewrite Hw. intros [= <- <- <-]. split; [done|]. split; [done|]. split; [|by eexists]. intros [= Hr].
  exists below. cbn [sRealFullPath sRealRelativePath set_paths set_pathExist]. rewrite Hb. split; [done|]. split; [by apply relative_path_below|].
  by rewrite <- Hb.
Qed.

Lemma serve_file_spec root asked path dontMap s i r s' i' :
  (exists q, root = q ++ [SLASHB]) -> is_outside root path = false -> isExecutable i = false ->
  serve_file root asked path dontMap (s, i) = (r, (s', i')) ->
  isTransversal i' = isTransversal i /\ (r = Ret true -> found root path Regular s s' i') /\ (r = Ret false -> s' = s).
Proof.
  intros Hroot [below ->]%is_outside_spec Hx. unfold serve_file. unfold bind at 1, on_info at 1, modify at 1. cbn [fst snd].
  destruct (dontMap && executable _) eqn:Ex.
  - unfold bind, on_info, modify. cbn [fst snd]. intros [= <- <- <-]. apply andb_true_iff in Ex as [_ Ex]. split; [done|]. split; [|done].
    intros _. exists below. cbn. rewrite relative_path_below by done. by repeat (split; [done|]).
  - destruct (referenceFile (c_str (root ++ below))) as [file|] eqn:Ef; [|intros [= <- <- <-]; by repeat (split; [done|])].
    unfold bind at 1, on_info at 1, modify at 1. cbn [fst snd]. unfold bind at 1, on_server at 1, modify at 1. cbn [fst snd].
    unfold bind at 1, gets at 1. cbn [snd]. unfold bind at 1, on_server at 1. cbn [fst snd].
    set (s1 := on_response (Response.setDataStreamer (Some file)) s). set (i1 := set_paths _ _ _).
    destruct (setResponseContentTypeByFileExtension _ s1) as [[b|e] s2] eqn:Et;
      pose proof (content_type_page _ _ _ _ Et) as Hp2; [|intros [= <- <- <-]; by repeat (split; [done|])].
    unfold bind at 1. destruct (put_lastModified asked (s2, i1)) as [[[]|e] [s3 i3]] eqn:El;
      destruct (lastModified_page _ _ _ _ _ _ El) as [Hp3 ->]; [|intros [= <- <- <-]; by repeat (split; [done|])].
    unfold bind, on_server, modify. cbn [fst snd]. intros [= <- <- <-]. split; [done|]. split; [|done]. intros _.
    exists below. subst i1. cbn [sRealFullPath sRealRelativePath set_paths set_pathExist isExecutable]. rewrite relative_path_below, Hx by done.
    split; [done|]. split; [done|]. split; [done|]. rewrite Ef. f_equal. change (page_of (on_response cacheable s3)) with (page_of s3). by rewrite Hp3, Hp2.
Qed.

(** C4: a search that succeeds has found the element registered for the URI, or
    an existing path that starts with the resolved directory of the server and
    its slash, and reports that path; the answer then sends that file, or is left
    as it was for a directory or an executable. A search that fails leaves the
    server as it was, and reports an escape only if the resolved path is not
    below the directory. *)
Theorem search_stays_inside dir append dontMap s i0 r s' i :
  getLocalFilePathFromURI2 dir append dontMap (s, i0) = (r, (s', i)) ->
  let uri := Request.getURI (clientRequest s) in
  match r with
  | Ret true =>
      isTransversal i = false /\
      match map_find (uri ++ append) (m_staticContentElements s) with
      | Some element => page_of s' = element /\ sRealRelativePath i = uri ++ append
      | None => exists root path type mtime, server_dir dir = Some root /\
          realpath (c_str (requested_path root uri append)) = Some path /\ stat path = Some (type, mtime) /\ found root path type s s' i
      end
  | Ret false => s' = s /\ (isTransversal i = true -> exists root path, server_dir dir = Some root /\
      realpath (c_str (requested_path root uri append)) = Some path /\ ~ exists below, path = root ++ below)
  | Exc _ => True
  end.
Proof.
  cbn zeta. unfold getLocalFilePathFromURI2, bind at 1, on_info at 1, modify at 1. cbn [fst snd].
  destruct (server_dir dir) as [root|] eqn:Ed; [|by intros [= <- <- <-]]. pose proof (server_dir_ends _ _ Ed) as Hroot.
  unfold bind at 1, gets at 1. cbn [fst]. set (uri := Request.getURI _). destruct (map_find _ _) as [element|] eqn:Ee.
  - unfold serve_static. unfold bind at 1, on_server at 1, modify at 1. cbn [fst snd]. unfold bind at 1, on_server at 1. cbn [fst snd].
    destruct (setResponseContentTypeByFileExtension _ _) as [[b|e] s2]; [|by intros [= <- <- <-]].
    unfold bind, on_info, on_server, modify. cbn [fst snd]. by intros [= <- <- <-].
  - destruct (realpath _) as [path|] eqn:Er; [|by intros [= <- <- <-]].
    destruct (stat path) as [[type mtime]|] eqn:Es; [|by intros [= <- <- <-]].
    assert (Hserve : forall p i1, (p = path \/ type = Directory /\ p = with_slash path) -> (type = Directory -> p = with_slash path) ->
      isTransversal i1 = false -> isExecutable i1 = false ->
      serve_path root (requested_path root uri append) p append type dontMap (s, i1) = (r, (s', i)) ->
      match r with
      | Ret true => isTransversal i = false /\ exists root0 path0 type0 mtime0, Some root = Some root0 /\
          realpath (c_str (requested_path root0 uri append)) = Some path0 /\ stat path0 = Some (type0, mtime0) /\ found root0 path0 type0 s s' i
      | Ret false => s' = s /\ (isTransversal i = true -> exists root0 path0, Some root = Some root0 /\
          realpath (c_str (requested_path root0 uri append)) = Some path0 /\ ~ exists below, path0 = root0 ++ below)
      | Exc _ => True
      end).
    { intros p i1 Hp Hdir Ht Hx. unfold serve_path. destruct (is_outside root p) eqn:Eo.
      - unfold bind, on_info, modify. cbn [fst snd]. intros [= <- <- <-]. split; [done|]. intros _. exists root, path. split; [done|]. split; [done|].
        intros [below ->]. assert (Hno : ~ exists below, p = root ++ below) by (rewrite <- is_outside_spec; congruence). apply Hno.
        destruct Hp as [->|[_ ->]]; [by eexists|]. unfold with_slash. case_bool_decide; rewrite <- ?app_assoc; by eexists.
      - destruct type.
        + rewrite (Hdir eq_refl) in *. intros Hd. destruct (serve_directory_spec _ _ _ _ _ _ _ _ Hroot Eo Hd) as (-> & Ht' & Hf & b & ->).
          destruct b; [split; [by rewrite Ht'|]; exists root, path, Directory, mtime; by repeat (split; [done|]); apply Hf|].
          split; [done|]. rewrite Ht', Ht. done.
        + assert (p = path) as -> by (by destruct Hp as [|[? ?]]). intros Hd.
          destruct (serve_file_spec _ _ _ _ _ _ _ _ _ Hroot Eo Hx Hd) as (Ht' & Hf & Hs').
          destruct r as [[]|]; [|split; [by apply Hs'|rewrite Ht', Ht; done]|done].
          split; [by rewrite Ht'|]. exists root, path, Regular, mtime. by repeat (split; [done|]); apply Hf.
        + intros [= <- <- <-]. split; [done|]. by rewrite Ht. }
    destruct type; [unfold bind at 1, on_info at 1, modify at 1; cbn [fst snd]|..]; (eapply Hserve; [by auto|done|done|done]).
Qed.
End Search.

(** ** A concrete directory *)

Module Site.
#[global] Instance streams : ContentStreams bytes := fun _ => [].
#[global] Instance disk : FileSystem bytes := {|
  realpath p :=
    if bool_decide (p = str "/srv/www/index.html") then Some p
    else if bool_decide (p = str "/srv/www") then Some p
    else if bool_decide (p = str "/srv/www/../www-private/key") then Some (str "/srv/www-private/key")
    else None;
  stat p := if bool_decide (p = str "/srv/www") then Some (Directory, 0) else Some (Regular, 0);
  readable _ := true;
  executable _ := false;
  referenceFile p := Some (str "content of " ++ p)
|}.

Definition request (uri : bytes) : HTTPv1_Server B_MEM unit bytes unit :=
  let request := Request.new tt in
  mkServer (ParserData_new false) None (Request.set_requestLine (RequestLine.setRequestURI uri (Request.requestLine request)) request)
    (Response.new []) [] false [] false default_mime_types tt.
Definition search (uri : string) :=
  getLocalFilePathFromURI2 (str "/srv/www") [] false (request (str uri), info_reset).
End Site.

Lemma search_stays_inside_witness :
  (exists s i, Site.search "/index.html" = (Ret true, (s, i)) /\ isTransversal i = false /\
     exists below, sRealFullPath i = str "/srv/www/" ++ below) /\
  (exists s i, Site.search "/../www-private/key" = (Ret false, (s, i)) /\ isTransversal i = true /\ s = Site.request (str "/../www-private/key")).
Proof.
  split.
  - assert (E : exists s i, Site.search "/index.html" = (Ret true, (s, i))) by (eexists; eexists; vm_compute; reflexivity).
    destruct E as (s & i & E). pose proof E as E0. unfold Site.search in E0. pose proof (search_stays_inside _ _ _ _ _ _ _ _ E0) as Hs. cbv beta zeta iota in Hs.
    destruct Hs as [Ht Hf]. exists s, i. split; [exact E|]. split; [exact Ht|].
    change (map_find _ _) with (@None bytes) in Hf. cbv iota in Hf. destruct Hf as (root & path & type & mtime & Hroot & _ & _ & Hf).
    vm_compute in Hroot. injection Hroot as <-. destruct Hf as (below & Hp & _). exists below. exact Hp.
  - assert (E : exists s i, Site.search "/../www-private/key" = (Ret false, (s, i)) /\ isTransversal i = true)
      by (eexists; eexists; split; vm_compute; reflexivity).
    destruct E as (s & i & E & Ht). pose proof E as E0. unfold Site.search in E0. pose proof (search_stays_inside _ _ _ _ _ _ _ _ E0) as Hs. cbv beta zeta iota in Hs.
    exists s, i. split; [exact E|]. split; [exact Ht|]. exact (proj1 Hs).
Defined.
