(* ===== verification/MimeMessage.v ===== *)
(** * Multipart messages (Protocol_MIME/mime_message.h, mime_message.cpp,
    mime_partmessage.cpp, mime_sub_content.cpp, mime_sub_firstboundary.cpp,
    mime_sub_endpboundary.cpp)

    A message is a protocol of Parser.v: the first boundary, then for each part
    its header (MimeHeader.v), its content, which ends at a boundary, and what
    follows the boundary. The current part is an object that the callbacks may
    change; [None] is a null pointer. *)

From stdpp Require Import sorting.
From S2P Require Import Prelude SafeInt CText Multimap Mem StreamableObject BBase BMem BChunk BChunks BRef SubParser SubParserSpec Parser Preserves BoostText Random UrlVars MimeHeader.

(** What follows a boundary. *)
Definition ENDP_STAT_UNINITIALIZED : Z := -1.
Definition ENDP_STAT_CONTINUE : Z := 0.
Definition ENDP_STAT_END : Z := 1.
Definition ENDP_STAT_ERROR : Z := 2.

Definition DASHES : bytes := str "--".

Section Elements.
Context {M : Type} `{BBase M, MmapFactory M}.

(** ** Boundaries *)

Record MIME_Sub_FirstBoundary : Type := mkFirstBoundary { fb_base : SubParser M; fb_boundary : bytes }.

Definition first_setBoundary (value : bytes) (x : MIME_Sub_FirstBoundary) : MIME_Sub_FirstBoundary :=
  mkFirstBoundary (setParseDataTargetSize (u64 (zlen value + 512)) (setParseDelimiter (DASHES ++ value ++ CRLF) (fb_base x))) value.

(** A boundary that no message has. *)
Definition XS : bytes := repeat (chr 88) 51.

Definition MIME_Sub_FirstBoundary_new : MIME_Sub_FirstBoundary :=
  let x := first_setBoundary XS (mkFirstBoundary (setParseMode PARSE_MODE_DELIMITER SubParser_new) []) in
  mkFirstBoundary (set_subParserName "MIME_Sub_FirstBoundary" (fb_base x)) (fb_boundary x).

Record MIME_Sub_EndPBoundary : Type := mkEndPBoundary { eb_base : SubParser M; eb_status : Z }.

Definition reset : st MIME_Sub_EndPBoundary unit := fun x =>
  let s := setParseDataTargetSize 16 (setParseMultiDelimiter [DASHES ++ CRLF; CRLF] (eb_base x)) in
  let (r, s) := sp_clear s in (r, mkEndPBoundary s ENDP_STAT_UNINITIALIZED).

Definition MIME_Sub_EndPBoundary_new : MIME_Sub_EndPBoundary :=
  let x := snd (reset (mkEndPBoundary (setParseMode PARSE_MODE_MULTIDELIMITER SubParser_new) ENDP_STAT_UNINITIALIZED)) in
  mkEndPBoundary (set_subParserName "MIME_Sub_EndPBoundary" (eb_base x)) (eb_status x).

Definition end_parse : st MIME_Sub_EndPBoundary ParseStatus := fun x =>
  let found := m_delimiterFound (eb_base x) in
  if bool_decide (found = DASHES ++ CRLF) then (Ret PARSE_GOTO_NEXT_SUBPARSER, mkEndPBoundary (eb_base x) ENDP_STAT_END)
  else if bool_decide (found = CRLF) then (Ret PARSE_GOTO_NEXT_SUBPARSER, mkEndPBoundary (eb_base x) ENDP_STAT_CONTINUE)
  else (Ret PARSE_ERROR, mkEndPBoundary (eb_base x) ENDP_STAT_ERROR).

(** ** The content of a part *)

(** The container made by the part, or another one. *)
Context {O : Type} `{BBase O}.
Inductive container : Type := Chunks (c : B_Chunks M) | Other (o : O).

Definition container_step {A} (f : st (B_Chunks M) A) (g : st O A) : st container A := fun k =>
  match k with
  | Chunks c => let (r, c) := f c in (r, Chunks c)
  | Other o => let (r, o) := g o in (r, Other o)
  end.

#[export] Instance container_stream : Streamable container := {
  so_status k := match k with Chunks c => so_status c | Other o => so_status o end;
  so_set_status w k := match k with Chunks c => Chunks (so_set_status w c) | Other o => Other (so_set_status w o) end;
  so_write buf := container_step (so_write buf) (so_write buf)
}.

Definition container_streamTo {U} `{Streamable U} (k : container) : st U bool :=
  match k with Chunks c => streamTo c | Other o => streamTo o end.

Record MIME_Sub_Content : Type := mkSubContent {
  sc_base : SubParser M;
  m_contentContainer : container;
  m_fsTmpFolder : bytes;
  sc_boundary : bytes;
  m_maxContentSize : Z;
  m_maxContentSizeUntilGoingToFS : Z
}.

Definition content_set_base (s : SubParser M) (x : MIME_Sub_Content) : MIME_Sub_Content :=
  mkSubContent s (m_contentContainer x) (m_fsTmpFolder x) (sc_boundary x) (m_maxContentSize x) (m_maxContentSizeUntilGoingToFS x).
Definition replaceContentContainer (value : container) (x : MIME_Sub_Content) : MIME_Sub_Content :=
  mkSubContent (sc_base x) value (m_fsTmpFolder x) (sc_boundary x) (m_maxContentSize x) (m_maxContentSizeUntilGoingToFS x).
Definition setFsTmpFolder (value : bytes) (x : MIME_Sub_Content) : MIME_Sub_Content :=
  mkSubContent (sc_base x) (m_contentContainer x) value (sc_boundary x) (m_maxContentSize x) (m_maxContentSizeUntilGoingToFS x).
Definition setMaxContentSizeUntilGoingToFS (value : Z) (x : MIME_Sub_Content) : MIME_Sub_Content :=
  mkSubContent (sc_base x) (m_contentContainer x) (m_fsTmpFolder x) (sc_boundary x) (m_maxContentSize x) value.

(** The size of the data: the content, the delimiter and its two dashes. *)
Definition target_size (x : MIME_Sub_Content) : MIME_Sub_Content :=
  content_set_base (setParseDataTargetSize (u64 (m_maxContentSize x + zlen (sc_boundary x) + 4)) (sc_base x)) x.

Definition setMaxContentSize (value : Z) (x : MIME_Sub_Content) : MIME_Sub_Content :=
  target_size (mkSubContent (sc_base x) (m_contentContainer x) (m_fsTmpFolder x) (sc_boundary x) value (m_maxContentSizeUntilGoingToFS x)).

Definition content_setBoundary (value : bytes) (x : MIME_Sub_Content) : MIME_Sub_Content :=
  target_size (mkSubContent (setParseDelimiter (CRLF ++ DASHES ++ value) (sc_base x)) (m_contentContainer x) (m_fsTmpFolder x)
                 value (m_maxContentSize x) (m_maxContentSizeUntilGoingToFS x)).

(** The constructor leaves both sizes [indeterminate]. *)
Definition MIME_Sub_Content_new (indeterminate : Z) : MIME_Sub_Content :=
  let x := mkSubContent SubParser_new (Chunks B_Chunks_new) [] [] indeterminate indeterminate in
  let x := setFsTmpFolder (str "/tmp") x in
  let x := replaceContentContainer (Chunks B_Chunks_new) x in
  let x := content_setBoundary XS (content_set_base (setParseMode PARSE_MODE_DIRECT_DELIMITER (sc_base x)) x) in
  content_set_base (set_subParserName "MIME_Sub_Content" (sc_base x)) x.

(** [getParsedBuffer()->appendTo( *m_contentContainer )]. *)
Definition parsed_to_container : st MIME_Sub_Content unit := fun x =>
  let (r, k) := appendTo (getParsedBuffer (sc_base x)) SIZE_MAX 0 (m_contentContainer x) in
  (match r with Ret _ => Ret tt | Exc e => Exc e end, replaceContentContainer k x).

Definition content_parse : st MIME_Sub_Content ParseStatus :=
  do! parsed_to_container in
  let! x := gets id in
  match m_delimiterFound (sc_base x) with
  | [] => ret PARSE_GET_MORE_DATA
  | _ :: _ => ret PARSE_GOTO_NEXT_SUBPARSER
  end.

Definition content_streamToUpstream {U} `{Streamable U} (x : MIME_Sub_Content) : st U bool :=
  let! streamed := container_streamTo (m_contentContainer x) in
  if negb streamed then ret false
  else do! writeString (CRLF ++ DASHES ++ sc_boundary x) in gets so_succeed.

(** ** Parts *)

Context `{BoostText, BoostSearch, RandomSource}.

Record MIME_PartMessage : Type := mkPart { m_content : MIME_Sub_Content; m_header : MIME_Sub_Header.t M }.

Definition MIME_PartMessage_new (indeterminate : Z) : MIME_PartMessage := mkPart (MIME_Sub_Content_new indeterminate) MIME_Sub_Header.new.

Definition on_content (f : MIME_Sub_Content -> MIME_Sub_Content) (p : MIME_PartMessage) : MIME_PartMessage := mkPart (f (m_content p)) (m_header p).
Definition on_part_header (f : MIME_Sub_Header.t M -> MIME_Sub_Header.t M) (p : MIME_PartMessage) : MIME_PartMessage := mkPart (m_content p) (f (m_header p)).
Definition on_part_fields (f : MIME_Sub_Header.fields -> MIME_Sub_Header.fields) : MIME_PartMessage -> MIME_PartMessage :=
  on_part_header (fun h => MIME_Sub_Header.set_header (f (MIME_Sub_Header.header h)) h).

Definition streamToSubParsers {U} `{Streamable U} (p : MIME_PartMessage) : st U bool :=
  let! streamed := MIME_Sub_Header.streamToUpstream (MIME_Sub_Header.header (m_header p)) in
  if negb streamed then ret false else content_streamToUpstream (m_content p).

(** The name a form gives to the part. *)
Definition getMultiPartMessageName (p : MIME_PartMessage) : bytes :=
  let f := MIME_Sub_Header.header (m_header p) in
  match MIME_Sub_Header.getOptionByName (str "content-disposition") f with
  | Some opt => MIME_HeaderOption.getSubVar (str "name") (MIME_Sub_Header.option_at f opt)
  | None => []
  end.
End Elements.
Arguments MIME_Sub_FirstBoundary : clear implicits.
Arguments MIME_Sub_EndPBoundary : clear implicits.
Arguments container : clear implicits.
Arguments MIME_Sub_Content : clear implicits.
Arguments MIME_PartMessage : clear implicits.

(** ** Messages *)

Inductive eMIME_VarStat : Type := MP_STATE_FIRST_BOUNDARY | MP_STATE_ENDPOINT | MP_STATE_HEADERS | MP_STATE_CONTENT.

(** The element parsers: the header and the content are those of the current part. *)
Inductive mime_part : Type := InFirstBoundary | InPartHeader | InPartContent | InEndPBoundary.

Section Message.
Context {M : Type} `{BBase M, MmapFactory M} {O : Type} `{BBase O}.
Context `{BoostText, BoostSearch, RandomSource}.
(** What the sizes of a new content are before they are set. *)
Context (indeterminate : Z).

Abbreviation part := (MIME_PartMessage M O).

(** A callback is given the name and the part, which it may change; [None] is a
    null function. *)
Definition sMIMECallback : Type := option (bytes -> part -> part).
Definition call (f : sMIMECallback) (partName : bytes) (partMessage : part) : part :=
  match f with Some callbackFunction => callbackFunction partName partMessage | None => partMessage end.

Record MIME_Message : Type := mkMessage {
  mm_data : ParserData;
  mm_current : option mime_part;
  mm_maxVarNameSize : Z;
  mm_maxVarContentSize : Z;
  m_maxNumberOfParts : Z;
  m_maxHeaderSubOptionsCount : Z;
  m_maxHeaderSubOptionsSize : Z;
  m_maxHeaderOptionsCount : Z;
  m_maxHeaderOptionSize : Z;
  m_multiPartType : bytes;
  m_multiPartBoundary : bytes;
  m_currentState : eMIME_VarStat;
  m_allParts : list part;
  m_partsByName : list (bytes * part);
  m_currentPart : option part;
  m_subFirstBoundary : MIME_Sub_FirstBoundary M;
  m_subEndPBoundary : MIME_Sub_EndPBoundary M;
  m_onHeaderReady : sMIMECallback;
  m_onContentReady : sMIMECallback
}.
Implicit Types m : MIME_Message.

(** *** Fields *)

Definition mm_set_data (d : ParserData) m : MIME_Message :=
  mkMessage d (mm_current m) (mm_maxVarNameSize m) (mm_maxVarContentSize m) (m_maxNumberOfParts m) (m_maxHeaderSubOptionsCount m)
    (m_maxHeaderSubOptionsSize m) (m_maxHeaderOptionsCount m) (m_maxHeaderOptionSize m) (m_multiPartType m) (m_multiPartBoundary m)
    (m_currentState m) (m_allParts m) (m_partsByName m) (m_currentPart m) (m_subFirstBoundary m) (m_subEndPBoundary m)
    (m_onHeaderReady m) (m_onContentReady m).
Definition mm_goto (state : eMIME_VarStat) (current : option mime_part) m : MIME_Message :=
  mkMessage (mm_data m) current (mm_maxVarNameSize m) (mm_maxVarContentSize m) (m_maxNumberOfParts m) (m_maxHeaderSubOptionsCount m)
    (m_maxHeaderSubOptionsSize m) (m_maxHeaderOptionsCount m) (m_maxHeaderOptionSize m) (m_multiPartType m) (m_multiPartBoundary m)
    state (m_allParts m) (m_partsByName m) (m_currentPart m) (m_subFirstBoundary m) (m_subEndPBoundary m)
    (m_onHeaderReady m) (m_onContentReady m).
Definition mm_set_limits (content parts subCount subSize count size : Z) m : MIME_Message :=
  mkMessage (mm_data m) (mm_current m) (mm_maxVarNameSize m) content parts subCount subSize count size (m_multiPartType m) (m_multiPartBoundary m)
    (m_currentState m) (m_allParts m) (m_partsByName m) (m_currentPart m) (m_subFirstBoundary m) (m_subEndPBoundary m)
    (m_onHeaderReady m) (m_onContentReady m).
Definition setMultiPartType (value : bytes) m : MIME_Message :=
  mkMessage (mm_data m) (mm_current m) (mm_maxVarNameSize m) (mm_maxVarContentSize m) (m_maxNumberOfParts m) (m_maxHeaderSubOptionsCount m)
    (m_maxHeaderSubOptionsSize m) (m_maxHeaderOptionsCount m) (m_maxHeaderOptionSize m) value (m_multiPartBoundary m)
    (m_currentState m) (m_allParts m) (m_partsByName m) (m_currentPart m) (m_subFirstBoundary m) (m_subEndPBoundary m)
    (m_onHeaderReady m) (m_onContentReady m).
Definition mm_set_parts (all : list part) (byName : list (bytes * part)) m : MIME_Message :=
  mkMessage (mm_data m) (mm_current m) (mm_maxVarNameSize m) (mm_maxVarContentSize m) (m_maxNumberOfParts m) (m_maxHeaderSubOptionsCount m)
    (m_maxHeaderSubOptionsSize m) (m_maxHeaderOptionsCount m) (m_maxHeaderOptionSize m) (m_multiPartType m) (m_multiPartBoundary m)
    (m_currentState m) all byName (m_currentPart m) (m_subFirstBoundary m) (m_subEndPBoundary m) (m_onHeaderReady m) (m_onContentReady m).
Definition mm_set_currentPart (p : option part) m : MIME_Message :=
  mkMessage (mm_data m) (mm_current m) (mm_maxVarNameSize m) (mm_maxVarContentSize m) (m_maxNumberOfParts m) (m_maxHeaderSubOptionsCount m)
    (m_maxHeaderSubOptionsSize m) (m_maxHeaderOptionsCount m) (m_maxHeaderOptionSize m) (m_multiPartType m) (m_multiPartBoundary m)
    (m_currentState m) (m_allParts m) (m_partsByName m) p (m_subFirstBoundary m) (m_subEndPBoundary m) (m_onHeaderReady m) (m_onContentReady m).
Definition mm_set_boundaries (boundary : bytes) (first : MIME_Sub_FirstBoundary M) (last : MIME_Sub_EndPBoundary M) m : MIME_Message :=
  mkMessage (mm_data m) (mm_current m) (mm_maxVarNameSize m) (mm_maxVarContentSize m) (m_maxNumberOfParts m) (m_maxHeaderSubOptionsCount m)
    (m_maxHeaderSubOptionsSize m) (m_maxHeaderOptionsCount m) (m_maxHeaderOptionSize m) (m_multiPartType m) boundary
    (m_currentState m) (m_allParts m) (m_partsByName m) (m_currentPart m) first last (m_onHeaderReady m) (m_onContentReady m).
Definition mm_set_callbacks (headerReady contentReady : sMIMECallback) m : MIME_Message :=
  mkMessage (mm_data m) (mm_current m) (mm_maxVarNameSize m) (mm_maxVarContentSize m) (m_maxNumberOfParts m) (m_maxHeaderSubOptionsCount m)
    (m_maxHeaderSubOptionsSize m) (m_maxHeaderOptionsCount m) (m_maxHeaderOptionSize m) (m_multiPartType m) (m_multiPartBoundary m)
    (m_currentState m) (m_allParts m) (m_partsByName m) (m_currentPart m) (m_subFirstBoundary m) (m_subEndPBoundary m) headerReady contentReady.

Definition setCallbackOnHeaderReady (f : sMIMECallback) m : MIME_Message := mm_set_callbacks f (m_onContentReady m) m.
Definition setCallbackOnContentReady (f : sMIMECallback) m : MIME_Message := mm_set_callbacks (m_onHeaderReady m) f m.

Definition null_part : exc := undefined "null pointer to the current part".

(** A change of the current part. *)
Definition on_current (f : part -> part) : st MIME_Message unit := fun m =>
  match m_currentPart m with
  | None => (Exc null_part, m)
  | Some p => (Ret tt, mm_set_currentPart (Some (f p)) m)
  end.

(** *** Limits, which the current part is told *)

Definition setMaxVarContentSize (value : Z) : st MIME_Message unit :=
  do! modify (fun m => mm_set_limits value (m_maxNumberOfParts m) (m_maxHeaderSubOptionsCount m) (m_maxHeaderSubOptionsSize m)
                         (m_maxHeaderOptionsCount m) (m_maxHeaderOptionSize m) m) in
  on_current (on_content (setMaxContentSize value)).
Definition setMaxParts (value : Z) m : MIME_Message :=
  mm_set_limits (mm_maxVarContentSize m) value (m_maxHeaderSubOptionsCount m) (m_maxHeaderSubOptionsSize m)
    (m_maxHeaderOptionsCount m) (m_maxHeaderOptionSize m) m.
Definition setMaxHeaderSubOptionsCount (value : Z) : st MIME_Message unit :=
  do! modify (fun m => mm_set_limits (mm_maxVarContentSize m) (m_maxNumberOfParts m) value (m_maxHeaderSubOptionsSize m)
                         (m_maxHeaderOptionsCount m) (m_maxHeaderOptionSize m) m) in
  on_current (on_part_fields (MIME_Sub_Header.setMaxSubOptionCount value)).
Definition setMaxHeaderSubOptionsSize (value : Z) : st MIME_Message unit :=
  do! modify (fun m => mm_set_limits (mm_maxVarContentSize m) (m_maxNumberOfParts m) (m_maxHeaderSubOptionsCount m) value
                         (m_maxHeaderOptionsCount m) (m_maxHeaderOptionSize m) m) in
  on_current (on_part_fields (MIME_Sub_Header.setMaxSubOptionSize value)).
Definition setMaxHeaderOptionsCount (value : Z) : st MIME_Message unit :=
  do! modify (fun m => mm_set_limits (mm_maxVarContentSize m) (m_maxNumberOfParts m) (m_maxHeaderSubOptionsCount m) (m_maxHeaderSubOptionsSize m)
                         value (m_maxHeaderOptionSize m) m) in
  on_current (on_part_fields (MIME_Sub_Header.setMaxOptions value)).
Definition setMaxHeaderOptionSize (value : Z) : st MIME_Message unit :=
  do! modify (fun m => mm_set_limits (mm_maxVarContentSize m) (m_maxNumberOfParts m) (m_maxHeaderSubOptionsCount m) (m_maxHeaderSubOptionsSize m)
                         (m_maxHeaderOptionsCount m) value m) in
  on_current (on_part_header (MIME_Sub_Header.setMaxOptionSize value)).

(** *** Parts and names *)

(** A part with the boundary and the limits of the message; its element parsers
    are those of a server or of a client, as the message. *)
Definition new_part m : part :=
  let p := MIME_PartMessage_new indeterminate in
  let client := p_clientMode (mm_data m) in
  let p := on_content (fun x => content_set_base (set_clientMode client (sc_base x)) x) p in
  let p := on_part_header (fun h => MIME_Sub_Header.set_base (set_clientMode client (MIME_Sub_Header.base h)) h) p in
  let p := on_content (fun x => setMaxContentSize (mm_maxVarContentSize m) (content_setBoundary (m_multiPartBoundary m) x)) p in
  let p := on_part_fields (MIME_Sub_Header.setMaxOptions (m_maxHeaderOptionsCount m)) p in
  let p := on_part_header (MIME_Sub_Header.setMaxOptionSize (m_maxHeaderOptionSize m)) p in
  let p := on_part_fields (MIME_Sub_Header.setMaxSubOptionCount (m_maxHeaderSubOptionsCount m)) p in
  on_part_fields (MIME_Sub_Header.setMaxSubOptionSize (m_maxHeaderSubOptionsSize m)) p.
Definition renewCurrentPart m : MIME_Message := mm_set_currentPart (Some (new_part m)) m.

Definition addMultiPartMessage (p : part) m : MIME_Message :=
  let byName := match getMultiPartMessageName p with
                | [] => m_partsByName m
                | varName => multimap_insert (to_upper_copy varName, p) (m_partsByName m)
                end in
  mm_set_parts (m_allParts m ++ [p]) byName m.

Definition mm_clear m : MIME_Message := mm_set_currentPart None (mm_set_parts [] [] m).

Definition getMultiPartMessagesByName (varName : bytes) m : list part := map snd (equal_range (to_upper_copy varName) (m_partsByName m)).
Definition getFirstMessageByName (varName : bytes) m : option part := map_find (to_upper_copy varName) (m_partsByName m).
Definition mm_varCount (varName : bytes) m : Z := cast (Unsigned 32) (zlen (equal_range (to_upper_copy varName) (m_partsByName m))).
Definition mm_getValue (varName : bytes) m : option (container M O) :=
  option_map (fun p => m_contentContainer (m_content p)) (head (getMultiPartMessagesByName varName m)).
Definition mm_getValues (varName : bytes) m : list (container M O) :=
  map (fun p => m_contentContainer (m_content p)) (getMultiPartMessagesByName varName m).
Definition mm_getKeysList m : list bytes := remove_dups (map fst (m_partsByName m)).
Definition mm_isEmpty m : bool := match m_partsByName m with [] => true | _ => false end.

(** *** Adding *)

(** An option of the header of the current part. *)
Definition add_to_current (name value : bytes) : st MIME_Message bool := fun m =>
  match m_currentPart m with
  | None => (Exc null_part, m)
  | Some p =>
      let (r, h) := MIME_Sub_Header.on_header (MIME_Sub_Header.add name value 0) (m_header p) in
      (r, mm_set_currentPart (Some (mkPart (m_content p) h)) m)
  end.

Definition addStreamableObjectContainer (varName : bytes) (obj : container M O) : st MIME_Message bool :=
  let! added := add_to_current (str "Content-Disposition") (str "form-data") in
  if negb added then ret false
  else
    let! added := add_to_current (str "name") varName in
    if negb added then ret false
    else
      do! on_current (on_content (replaceContentContainer obj)) in
      do! modify (fun m => match m_currentPart m with Some p => renewCurrentPart (addMultiPartMessage p m) | None => m end) in
      ret true.

Definition addStringVar (key value : bytes) : st MIME_Message bool :=
  addStreamableObjectContainer key (Chunks (snd (append value B_Chunks_new))).
Definition mm_addVar (varName : bytes) (data : B_Chunks M) : st MIME_Message bool := addStreamableObjectContainer varName (Chunks data).

(** [referenceFile] gives the container of the file that could be opened. *)
Definition addReferecedFileVar (referenceFile : bytes -> option O) (varName filePath : bytes) : st MIME_Message bool :=
  match referenceFile filePath with
  | None => ret false
  | Some fContainer => addStreamableObjectContainer varName (Other fContainer)
  end.

(** *** Writing *)

Fixpoint stream_parts {U} `{Streamable U} (boundary : bytes) (parts : list part) : st U bool :=
  match parts with
  | [] => do! writeString (DASHES ++ CRLF) in gets so_succeed
  | i :: parts =>
      do! writeString CRLF in
      while_succeeds (
        let! streamed := streamToSubParsers i in
        if negb streamed then ret false
        else do! writeString (DASHES ++ boundary) in while_succeeds (stream_parts boundary parts))
  end.

(** The parts are told the stream they write to, and then none. *)
Definition mm_streamTo {U} `{Streamable U} m : st U bool :=
  do! writeString (DASHES ++ m_multiPartBoundary m) in
  while_succeeds (stream_parts (m_multiPartBoundary m) (m_allParts m)).

(** *** The protocol *)

Definition setMultiPartBoundary (value : bytes) m : MIME_Message :=
  let m := mm_set_boundaries value (first_setBoundary value (m_subFirstBoundary m)) (m_subEndPBoundary m) m in
  match m_currentPart m with
  | Some p => mm_set_currentPart (Some (on_content (content_setBoundary value) p)) m
  | None => m
  end.

Definition with_current (f : part -> MIME_Message -> res unit * MIME_Message) : st MIME_Message unit := fun m =>
  match m_currentPart m with
  | None => (Exc null_part, m)
  | Some p => f p m
  end.

(** The header of the current part is next. *)
Definition goto_header : st MIME_Message unit := with_current (fun _ m => (Ret tt, mm_goto MP_STATE_HEADERS (Some InPartHeader) m)).

Definition first_boundary_ready : st MIME_Message unit := goto_header.

Definition endpoint_ready : st MIME_Message unit := fun m =>
  if eb_status (m_subEndPBoundary m) =? ENDP_STAT_CONTINUE then goto_header m
  else (Ret tt, mm_goto (m_currentState m) None m).

Definition headers_ready : st MIME_Message unit := with_current (fun p m =>
  let p := call (m_onHeaderReady m) (getMultiPartMessageName p) p in
  (Ret tt, mm_goto MP_STATE_CONTENT (Some InPartContent) (mm_set_currentPart (Some p) m))).

Definition content_ready : st MIME_Message unit := with_current (fun p m =>
  let p := call (m_onContentReady m) (getMultiPartMessageName p) p in
  let m := renewCurrentPart (addMultiPartMessage p m) in
  if zlen (m_allParts m) =? m_maxNumberOfParts m then (Ret tt, mm_goto (m_currentState m) None m)
  else
    let (r, e) := reset (m_subEndPBoundary m) in
    (r, mm_goto MP_STATE_ENDPOINT (Some InEndPBoundary) (mm_set_boundaries (m_multiPartBoundary m) (m_subFirstBoundary m) e m))).

Definition changeToNextParser : st MIME_Message bool :=
  let! state := gets m_currentState in
  do! match state with
      | MP_STATE_FIRST_BOUNDARY => first_boundary_ready
      | MP_STATE_ENDPOINT => endpoint_ready
      | MP_STATE_HEADERS => headers_ready
      | MP_STATE_CONTENT => content_ready
      end in
  ret true.

(** The element parsers. Those of a null part are not reached: the members that
    select them have found a part, and [clear] is not called during a write. *)
Definition part_of m : part := default (MIME_PartMessage_new indeterminate) (m_currentPart m).

Definition first_sub : SubParserImpl M MIME_Message := {|
  sp m := fb_base (m_subFirstBoundary m);
  sp_set s m := mm_set_boundaries (m_multiPartBoundary m) (mkFirstBoundary s (fb_boundary (m_subFirstBoundary m))) (m_subEndPBoundary m) m;
  parse := ret PARSE_GOTO_NEXT_SUBPARSER
|}.
Definition end_sub : SubParserImpl M MIME_Message := {|
  sp m := eb_base (m_subEndPBoundary m);
  sp_set s m := mm_set_boundaries (m_multiPartBoundary m) (m_subFirstBoundary m) (mkEndPBoundary s (eb_status (m_subEndPBoundary m))) m;
  parse m := let (r, e) := end_parse (m_subEndPBoundary m) in (r, mm_set_boundaries (m_multiPartBoundary m) (m_subFirstBoundary m) e m)
|}.
Definition header_part_sub : SubParserImpl M MIME_Message := {|
  sp m := MIME_Sub_Header.base (m_header (part_of m));
  sp_set s m := mm_set_currentPart (Some (on_part_header (MIME_Sub_Header.set_base s) (part_of m))) m;
  parse m := let (r, h) := MIME_Sub_Header.parse (m_header (part_of m)) in (r, mm_set_currentPart (Some (mkPart (m_content (part_of m)) h)) m)
|}.
Definition content_part_sub : SubParserImpl M MIME_Message := {|
  sp m := sc_base (m_content (part_of m));
  sp_set s m := mm_set_currentPart (Some (on_content (content_set_base s) (part_of m))) m;
  parse m := let (r, c) := content_parse (m_content (part_of m)) in (r, mm_set_currentPart (Some (mkPart c (m_header (part_of m)))) m)
|}.

#[export] Instance MIME_Message_protocol : Protocol M MIME_Message := {
  pd := mm_data;
  pd_set := mm_set_data;
  sub_id := mime_part;
  sub_impl id := match id with
                 | InFirstBoundary => first_sub
                 | InPartHeader => header_part_sub
                 | InPartContent => content_part_sub
                 | InEndPBoundary => end_sub
                 end;
  m_currentParser := mm_current;
  initProtocol := ret true;
  endProtocol := ret tt;
  changeToNextParser := changeToNextParser
}.

(** [create]: the boundary is of 64 random characters. *)
Definition MIME_Message_new : res MIME_Message :=
  let m := mkMessage (ParserData_new false) (Some InFirstBoundary) 256 (32 * KB_MULT) 128 16 (8 * KB_MULT) 64 (8 * KB_MULT)
             (str "multipart/mixed") [] MP_STATE_FIRST_BOUNDARY [] [] None MIME_Sub_FirstBoundary_new MIME_Sub_EndPBoundary_new None None in
  match fst (createRandomString 64 0%nat) with
  | Exc e => Exc e
  | Ret boundary =>
      let m := setMultiPartBoundary boundary (renewCurrentPart m) in
      let m := snd (initSubParser (Prot := MIME_Message_protocol) InFirstBoundary m) in
      let m := snd (initSubParser (Prot := MIME_Message_protocol) InEndPBoundary m) in
      Ret (mm_set_data (set_initialized true (mm_data m)) m)
  end.
End Message.

(** * What a multipart message keeps

    Whatever bytes arrive, the parts are no more than allowed, and the table of
    names lists exactly the parts that have one, in order. *)

Section Message.
Context {M : Type} `{BBase M, MmapFactory M} {O : Type} `{BBase O} (uninitialised : Z -> bytes).
Context `{BoostText, BoostSearch, RandomSource} (indeterminate : Z).
Abbreviation message := (MIME_Message (M := M) (O := O)).
Implicit Types m : message.

(** The entry of a part in the table of names. *)
Definition entry (p : MIME_PartMessage M O) : option (bytes * MIME_PartMessage M O) :=
  match getMultiPartMessageName p with [] => None | name => Some (to_upper_copy name, p) end.

Definition names_indexed m : Prop :=
  StronglySorted key_le (m_partsByName m) /\ m_partsByName m ≡ₚ omap entry (m_allParts m).

(** With as many parts as allowed, nothing more is parsed. *)
Definition parts_bounded m : Prop :=
  zlen (m_allParts m) <= m_maxNumberOfParts m /\ (zlen (m_allParts m) = m_maxNumberOfParts m -> mm_current m = None).

Definition message_ok m : Prop := names_indexed m /\ parts_bounded m.

Lemma add_indexed p m : names_indexed m -> names_indexed (addMultiPartMessage p m).
Proof.
  intros [Hs Hp]. unfold names_indexed, addMultiPartMessage. cbn [m_partsByName m_allParts mm_set_parts]. rewrite omap_app. cbn [omap list_omap].
  unfold entry at 2. destruct (getMultiPartMessageName p) as [|c name]; [by rewrite app_nil_r|].
  split; [by apply insert_sorted|]. rewrite insert_permutation, Hp. by rewrite Permutation_app_comm.
Qed.

Lemma with_current_ok f i m :
  (forall p, message_ok (snd (f p m))) -> running_in (Prot := MIME_Message_protocol indeterminate) message_ok i m -> message_ok (snd (with_current f m)).
Proof. intros Hf [Hm _]. unfold with_current. by destruct (m_currentPart m). Qed.

Lemma next_ok i m : running_in (Prot := MIME_Message_protocol indeterminate) message_ok i m -> message_ok (snd (changeToNextParser indeterminate m)).
Proof.
  intros Hrun. pose proof Hrun as [[Hn [Hb Hfull]] Hcur]. cbn in Hcur. unfold changeToNextParser, bind at 1, gets at 1.
  assert (Hlt : zlen (m_allParts m) < m_maxNumberOfParts m).
  { destruct (Z.eq_dec (zlen (m_allParts m)) (m_maxNumberOfParts m)) as [E|]; [|lia]. rewrite Hfull in Hcur by done. discriminate. }
  assert (Hgo : forall s c, message_ok (mm_goto s c m)) by (intros s c; split; [exact Hn|split; [exact Hb|cbn; lia]]).
  assert (Hheader : message_ok (snd (goto_header m))) by (unfold goto_header; eapply with_current_ok; [intros p; apply Hgo|exact Hrun]).
  assert (Hbind : forall f : st message unit, message_ok (snd (f m)) -> message_ok (snd ((do! f in ret true) m))).
  { intros f Hf. unfold bind. by destruct (f m) as [[?|?] ?]. }
  apply Hbind. destruct (m_currentState m); [exact Hheader| | |].
  - unfold endpoint_ready. case_cond; [exact Hheader|apply Hgo].
  - unfold headers_ready. eapply with_current_ok; [|exact Hrun]. intros p. split; [exact Hn|split; [exact Hb|]].
    change (zlen (m_allParts m) = m_maxNumberOfParts m -> Some InPartContent = None). lia.
  - unfold content_ready. eapply with_current_ok; [|exact Hrun]. intros p. set (p' := call _ _ _).
    pose proof (add_indexed p' m Hn) as Hn'. set (m' := addMultiPartMessage p' m) in *.
    assert (Hz : zlen (m_allParts m') = zlen (m_allParts m) + 1) by (cbn [m' m_allParts addMultiPartMessage mm_set_parts]; by rewrite zlen_app).
    change (m_allParts (renewCurrentPart indeterminate m')) with (m_allParts m').
    change (m_maxNumberOfParts (renewCurrentPart indeterminate m')) with (m_maxNumberOfParts m).
    destruct (zlen (m_allParts m') =? m_maxNumberOfParts m) eqn:E; zbool.
    + split; [exact Hn'|]. split; [|done]. change (zlen (m_allParts m') <= m_maxNumberOfParts m). lia.
    + destruct (reset _) as [r e]. split; [exact Hn'|]. split; [change (zlen (m_allParts m') <= m_maxNumberOfParts m); lia|].
      change (zlen (m_allParts m') = m_maxNumberOfParts m -> Some InEndPBoundary = None). done.
Qed.

(** C21: whatever is written into a message that is within its limit (no more parts
    than it, no element parser once it is reached, the table of names in order),
    as a new message is, the message stays so, whether the writes succeed or not
    and with any callbacks: there are no more parts than the limit, after the
    last of them nothing more is parsed, and the table of names holds the parts
    that have a name, each once, in the order of the names. A limit that is set
    to zero, or below the parts that are there, is not such a state: the code
    compares for equality and passes it. *)
Theorem multipart_stays_bounded frags m :
  message_ok m -> message_ok (snd (write_all (Prot := MIME_Message_protocol indeterminate) uninitialised frags m)).
Proof.
  apply (running_write_all (Prot := MIME_Message_protocol indeterminate) uninitialised message_ok).
  - intros [] i s p; exact id.
  - intros [] i p Hp; [exact Hp|..]; cbn [parse sub_impl MIME_Message_protocol header_part_sub content_part_sub end_sub].
    + destruct (MIME_Sub_Header.parse _) as [r h]. exact Hp.
    + destruct (content_parse _) as [r c]. exact Hp.
    + destruct (end_parse _) as [r e]. exact Hp.
  - intros d p; exact id.
  - intros i p. apply next_ok.
Qed.

(** A new message is such a message. *)
Lemma new_message_ok m : MIME_Message_new indeterminate = Ret m -> message_ok m.
Proof.
  unfold MIME_Message_new. destruct (fst (createRandomString 64 0%nat)) as [b|]; [|done]. intros E.
  change (match Ret m with Ret x => message_ok x | Exc _ => True end). rewrite <- E. clear.
  split; [split; [constructor|done]|]. split; [change (0 <= 128); lia|]. change (0 = 128 -> Some InFirstBoundary = None). lia.
Qed.
End Message.

(** ** A form *)

Definition form_message : MIME_Message (M := B_MEM) (O := B_MEM) :=
  let m := match MIME_Message_new (O := B_MEM) 0 with
           | Ret m => m
           | Exc _ => mkMessage (ParserData_new false) None 0 0 1 0 0 0 0 [] [] MP_STATE_CONTENT [] [] None MIME_Sub_FirstBoundary_new
                        MIME_Sub_EndPBoundary_new None None
           end in
  setMaxParts 2 (setMultiPartBoundary (str "cut") m).

Definition form_field (name value : string) : bytes :=
  str "Content-Disposition: form-data; name=" ++ str name ++ CRLF ++ CRLF ++ str value ++ CRLF ++ str "--cut".
Definition form_text : bytes :=
  str "--cut" ++ CRLF ++ form_field "b" "one" ++ CRLF ++ form_field "a" "two" ++ CRLF ++ form_field "c" "three" ++ str "--" ++ CRLF.

(** The third part is beyond the limit. *)
Lemma multipart_stays_bounded_witness :
  let m := snd (write_all (Prot := MIME_Message_protocol 0) (fun _ => []) [form_text] form_message) in
  message_ok m /\ map fst (m_partsByName m) = [str "A"; str "B"] /\ mm_current m = None.
Proof.
  assert (Hok : message_ok form_message).
  { split; [split; [constructor|reflexivity]|split; vm_compute; discriminate]. }
  split; [apply (multipart_stays_bounded (fun _ => []) 0 [form_text] form_message Hok)|].
  split; vm_compute; reflexivity.
Defined.

(** A message with one part, as it is written. *)
Definition written_form : bytes :=
  let m := snd (addStringVar 0 (str "a") (str "one") (setMultiPartBoundary (str "cut") form_message)) in
  m_value (snd (mm_streamTo m StreamableString_new)).

(** The boundary after a part is written twice, with and without a line end
    before it, and the name is an option of its own, not a parameter of the
    disposition, so it is not found when the text is read back. *)
Lemma written_form_is_malformed :
  written_form = str "--cut" ++ CRLF ++ str "Content-Disposition: form-data" ++ CRLF ++ str "name: a" ++ CRLF ++ CRLF ++
    str "one" ++ CRLF ++ str "--cut" ++ str "--cut" ++ str "--" ++ CRLF /\
  let m := snd (write_all (Prot := MIME_Message_protocol 0) (fun _ => []) [written_form] form_message) in
  zlen (m_allParts m) = 1 /\ m_partsByName m = [].
Proof. split; [|split]; vm_compute; reflexivity. Qed.
