(* ===== verification/Json.v ===== *)
(** * Reading JSON values (Helpers/json.h, json.cpp)

    Json::Value is a class of JsonCpp. [JsonCpp] is the table of the operations
    the library uses, [JsonLaws] what its documentation says of them; the macros
    of json.h and the conversions of json.cpp are defined over the table. *)

From stdpp Require Import sorting.
From S2P Require Import Prelude CText.

(** An operation that JsonCpp refuses for the type of the value throws
    [Json::LogicError]. *)
Definition LogicError : exc := runtime_error "Json::LogicError".

Class JsonCpp (V : Type) : Type := {
  nullValue : V;
  arrayValue : V;
  of_string : bytes -> V;
  of_int64 : Z -> V;
  of_uint : Z -> V;
  of_bool : bool -> V;
  isObject : V -> bool;
  isArray : V -> bool;
  isNull : V -> bool;
  isString : V -> bool;
  isBool : V -> bool;
  isUInt : V -> bool;
  isUInt64 : V -> bool;
  asString : V -> res bytes;
  asBool : V -> res bool;
  asUInt : V -> res Z;
  asUInt64 : V -> res Z;
  isMember : bytes -> V -> res bool;
  (** [operator[]] of a constant value: null for a name it does not have. *)
  member : bytes -> V -> res V;
  (** [value[name] = x]. *)
  set_member : bytes -> V -> V -> res V;
  (** [value[i] = x], which makes an array of a null value. *)
  set_index : Z -> V -> V -> res V;
  append_value : V -> V -> res V;
  (** The elements of an array in the order of their indices. *)
  elements : V -> list V;
  getMemberNames : V -> res (list bytes);
  (** [Json::writeString] with an indentation, and without, and the text of
      [toStyledString]. *)
  writeString : V -> bytes;
  writeString_compact : V -> bytes;
  toStyledString : V -> bytes;
  (** [CharReader::parse] into a value: also when it fails it may change it. *)
  parse : bytes -> V -> bool * V
}.

Section Macros.
Context {V : Type} `{JsonCpp V}.

(** ** The macros *)

(** [j.isObject() && j.isMember(x) && j[x].is() ? j[x].as() : def] *)
Definition member_as {A} (is_ : V -> bool) (as_ : V -> res A) (j : V) (x : bytes) (def : A) : res A :=
  if isObject j then
    let? has := isMember x j in
    if has then let? v := member x j in if is_ v then as_ v else Ret def
    else Ret def
  else Ret def.

Definition JSON_ASSTRING : V -> bytes -> bytes -> res bytes := member_as isString asString.
Definition JSON_ASBOOL : V -> bytes -> bool -> res bool := member_as isBool asBool.
Definition JSON_ASUINT : V -> bytes -> Z -> res Z := member_as isUInt asUInt.
Definition JSON_ASUINT64 : V -> bytes -> Z -> res Z := member_as isUInt64 asUInt64.

Definition JSON_ISARRAY (j : V) (key : bytes) : res bool :=
  if isObject j then
    let? has := isMember key j in
    if has then let? v := member key j in Ret (isArray v) else Ret false
  else Ret false.

Definition JSON_ASSTRING_D (j : V) (def : bytes) : res bytes := if isString j then asString j else Ret def.
Definition JSON_ASBOOL_D (j : V) (def : bool) : res bool := if isBool j then asBool j else Ret def.

(** ** Conversions *)

(** A line end that the writer adds is removed. *)
Definition jsonToString (value : V) : bytes :=
  let xstrValue := writeString_compact value in
  match last xstrValue with
  | Some c => if decide (c = LF) then removelast xstrValue else xstrValue
  | None => xstrValue
  end.

(** The elements of an array that have a type. *)
Fixpoint elements_as {A} (is_ : V -> bool) (as_ : V -> res A) (l : list V) : res (list A) :=
  match l with
  | [] => Ret []
  | v :: l => if is_ v then let? a := as_ v in let? r := elements_as is_ as_ l in Ret (a :: r) else elements_as is_ as_ l
  end.

(** Of the value, or of its member [sub] when a name is given. *)
Definition array_as {A} (is_ : V -> bool) (as_ : V -> res A) (value : V) (sub : bytes) : res (list A) :=
  match sub with
  | [] => if isArray value then elements_as is_ as_ (elements value) else Ret []
  | _ :: _ =>
      let? array := JSON_ISARRAY value sub in
      if array then let? v := member sub value in elements_as is_ as_ (elements v) else Ret []
  end.

Definition jsonToStringList (value : V) (sub : bytes) : res (list bytes) := array_as isString asString value sub.

(** [std::set<std::string>]: in order, each once. *)
Definition set_of (l : list bytes) : list bytes := merge_sort name_le (remove_dups l).
Definition set_of_numbers (l : list Z) : list Z := merge_sort Z.le (remove_dups l).

Definition jsonToStringSet (value : V) (sub : bytes) : res (list bytes) :=
  let? l := array_as isString asString value sub in Ret (set_of l).
Definition jsonToUInt32Set (value : V) (sub : bytes) : res (list Z) :=
  let? l := array_as isUInt asUInt value sub in Ret (set_of_numbers l).

(** [x[v++] = i] for each element. *)
Fixpoint fill (x : V) (v : Z) (l : list V) : res V :=
  match l with
  | [] => Ret x
  | i :: l => let? x := set_index v i x in fill x (v + 1) l
  end.

Definition listToJSON (t : list bytes) : res V := fill nullValue 0 (map of_string t).
Definition setToJSON (t : list bytes) : res V := fill nullValue 0 (map of_string t).
Definition setToJSON_numbers (t : list Z) : res V := fill nullValue 0 (map of_uint t).
End Macros.

(** ** What the documentation says *)

Class JsonLaws (V : Type) `{JsonCpp V} : Type := {
  (** The values that are read back from their text: those made of objects,
      arrays, strings and integers. *)
  plain : V -> Prop;
  plain_null : plain nullValue;
  plain_string s : plain (of_string s);
  plain_int64 z : plain (of_int64 z);
  plain_set name v x x' : plain x -> plain v -> set_member name v x = Ret x' -> plain x';
  parse_write x prev : plain x -> parse (writeString x) prev = (true, x);
  parse_styled x prev : plain x -> parse (toStyledString x) prev = (true, x);
  styled_text x : toStyledString x <> [];
  isObject_null : isObject nullValue = false;
  set_null name v : exists x, set_member name v nullValue = Ret x;
  set_object name v x : isObject x = true -> exists x', set_member name v x = Ret x';
  isObject_set name v x x' : set_member name v x = Ret x' -> isObject x' = true;
  isMember_set name v x x' : set_member name v x = Ret x' -> isMember name x' = Ret true;
  isMember_other name v x x' n : set_member name v x = Ret x' -> n <> name -> isMember n x' = isMember n x;
  member_set name v x x' : set_member name v x = Ret x' -> member name x' = Ret v;
  member_other name v x x' n : set_member name v x = Ret x' -> n <> name -> member n x' = member n x;
  isMember_null n : isMember n nullValue = Ret false;
  isString_of_string s : isString (of_string s) = true;
  asString_of_string s : asString (of_string s) = Ret s;
  isUInt64_of_int64 z : isUInt64 (of_int64 z) = (0 <=? z);
  asUInt64_of_int64 z : 0 <= z < 2 ^ 63 -> asUInt64 (of_int64 z) = Ret z
}.

#[export] Hint Resolve plain_null plain_string plain_int64 : mantids.

Section Laws.
Context {V : Type} `{JsonLaws V}.

(** A member that was set is the one that is read. *)
Lemma JSON_ASSTRING_set name s x x' def : set_member name (of_string s) x = Ret x' -> JSON_ASSTRING x' name def = Ret s.
Proof.
  intros E. unfold JSON_ASSTRING, member_as. rewrite (isObject_set _ _ _ _ E), (isMember_set _ _ _ _ E). cbn [res_bind].
  rewrite (member_set _ _ _ _ E). cbn [res_bind]. by rewrite isString_of_string, asString_of_string.
Qed.

Lemma JSON_ASUINT64_set name z x x' def :
  0 <= z < 2 ^ 63 -> set_member name (of_int64 z) x = Ret x' -> JSON_ASUINT64 x' name def = Ret z.
Proof.
  intros Hz E. unfold JSON_ASUINT64, member_as. rewrite (isObject_set _ _ _ _ E), (isMember_set _ _ _ _ E). cbn [res_bind].
  rewrite (member_set _ _ _ _ E). cbn [res_bind]. rewrite isUInt64_of_int64, asUInt64_of_int64 by done. by replace (0 <=? z) with true by lia.
Qed.

(** Setting one member leaves what is read from the others. *)
Lemma member_as_other {A} (is_ : V -> bool) (as_ : V -> res A) name v x x' n def :
  isObject x = true -> set_member name v x = Ret x' -> n <> name -> member_as is_ as_ x' n def = member_as is_ as_ x n def.
Proof.
  intros Hx E Hn. unfold member_as. rewrite Hx, (isObject_set _ _ _ _ E), (isMember_other _ _ _ _ _ E Hn).
  destruct (isMember n x) as [[]|]; cbn [res_bind]; [|done..]. by rewrite (member_other _ _ _ _ _ E Hn).
Qed.
End Laws.
