(* ===== verification/JsonModel.v ===== *)
(** * A JsonCpp in which its laws hold

    Values made of texts, integers, booleans, arrays and objects, with a text of their
    own, for the examples of the files that use Json.v. *)

From S2P Require Import Prelude Json.

(** Objects and arrays are chains. *)
Inductive value : Type :=
| Null
| Bool (b : bool)
| Int (z : Z)
| Text (s : bytes)
| NoMembers
| Member (name : bytes) (v rest : value)
| NoElements
| Element (v rest : value).

Definition is_object (x : value) : bool := match x with NoMembers | Member _ _ _ => true | _ => false end.
Definition is_array (x : value) : bool := match x with NoElements | Element _ _ => true | _ => false end.
Definition is_null (x : value) : bool := match x with Null => true | _ => false end.

Fixpoint find (name : bytes) (x : value) : option value :=
  match x with Member n v rest => if decide (n = name) then Some v else find name rest | _ => None end.
Fixpoint put (name : bytes) (v x : value) : value :=
  match x with
  | Member n w rest => if decide (n = name) then Member n v rest else Member n w (put name v rest)
  | _ => Member name v NoMembers
  end.
Fixpoint elements_of (x : value) : list value := match x with Element v rest => v :: elements_of rest | _ => [] end.
Fixpoint names_of (x : value) : list bytes := match x with Member n _ rest => n :: names_of rest | _ => [] end.
Definition array_of (l : list value) : value := foldr Element NoElements l.

(** ** Its text: a mark for the kind, characters and bits each after a mark *)

Definition MORE : ascii := chr 43.
Definition END_ : ascii := chr 46.

Definition write_chars (s : bytes) : bytes := flat_map (fun c => [MORE; c]) s ++ [END_].
Fixpoint read_chars (s : bytes) : option (bytes * bytes) :=
  match s with
  | m :: s => if decide (m = END_) then Some ([], s)
              else match s with
                   | c :: s => match read_chars s with Some (r, rest) => Some (c :: r, rest) | None => None end
                   | [] => None
                   end
  | [] => None
  end.

Fixpoint bits (p : positive) : bytes := match p with xH => [] | xO p => chr 48 :: bits p | xI p => chr 49 :: bits p end.
Fixpoint of_bits (s : bytes) : positive :=
  match s with [] => xH | c :: s => if decide (c = chr 48) then xO (of_bits s) else xI (of_bits s) end.
Definition write_int (z : Z) : bytes :=
  match z with Z0 => write_chars [chr 48] | Zpos p => write_chars (chr 49 :: bits p) | Zneg p => write_chars (chr 50 :: bits p) end.
Definition of_int (s : bytes) : Z :=
  match s with
  | c :: s => if decide (c = chr 48) then Z0 else if decide (c = chr 49) then Zpos (of_bits s) else Zneg (of_bits s)
  | [] => Z0
  end.

Fixpoint write (x : value) : bytes :=
  match x with
  | Null => str "n"
  | Bool b => if b then str "T" else str "F"
  | Int z => str "i" ++ write_int z
  | Text s => str "t" ++ write_chars s
  | NoMembers => str "o"
  | Member n v rest => str "m" ++ write_chars n ++ write v ++ write rest
  | NoElements => str "a"
  | Element v rest => str "e" ++ write v ++ write rest
  end.

Fixpoint read (fuel : nat) (s : bytes) : option (value * bytes) :=
  match fuel, s with
  | S fuel, c :: s =>
      match c with
      | "n"%char => Some (Null, s)
      | "T"%char => Some (Bool true, s)
      | "F"%char => Some (Bool false, s)
      | "i"%char => match read_chars s with Some (r, s) => Some (Int (of_int r), s) | None => None end
      | "t"%char => match read_chars s with Some (r, s) => Some (Text r, s) | None => None end
      | "o"%char => Some (NoMembers, s)
      | "m"%char =>
          match read_chars s with
          | Some (n, s) => match read fuel s with
                           | Some (v, s) => match read fuel s with Some (r, s) => Some (Member n v r, s) | None => None end
                           | None => None
                           end
          | None => None
          end
      | "a"%char => Some (NoElements, s)
      | "e"%char =>
          match read fuel s with
          | Some (v, s) => match read fuel s with Some (r, s) => Some (Element v r, s) | None => None end
          | None => None
          end
      | _ => None
      end
  | _, _ => None
  end.

Lemma read_write_chars s rest : read_chars (write_chars s ++ rest) = Some (s, rest).
Proof.
  unfold write_chars. induction s as [|c s IH]; [done|]. cbn [flat_map app read_chars]. rewrite decide_False by done. by rewrite IH.
Qed.

Lemma of_bits_bits p : of_bits (bits p) = p.
Proof. by induction p as [p IH|p IH|]; cbn [bits of_bits]; [rewrite decide_False by done|rewrite decide_True by done|]; rewrite ?IH. Qed.

Lemma of_int_write z rest : match read_chars (write_int z ++ rest) with Some (r, s) => of_int r = z /\ s = rest | None => False end.
Proof. unfold write_int. destruct z; rewrite read_write_chars; (split; [|done]); cbn [of_int]; by rewrite ?of_bits_bits. Qed.

Lemma read_write x fuel rest : (length (write x) <= fuel)%nat -> read fuel (write x ++ rest) = Some (x, rest).
Proof.
  revert fuel rest. induction x as [|[]|z|s| |n v IHv r IHr| |v IHv r IHr]; intros fuel rest Hf;
    (destruct fuel as [|fuel]; [cbn in Hf; lia|]); cbn [write app read str String.list_ascii_of_string] in Hf |- *;
    rewrite ?length_cons, ?length_app in Hf; try done.
  - pose proof (of_int_write z rest) as Hz. destruct (read_chars _) as [[r' s]|]; [|done]. by destruct Hz as [-> ->].
  - by rewrite read_write_chars.
  - rewrite <- !app_assoc, read_write_chars, IHv, IHr by lia. done.
  - rewrite <- !app_assoc, IHv, IHr by lia. done.
Qed.

(** ** The table *)

#[export] Instance json_model : JsonCpp value := {
  nullValue := Null;
  arrayValue := NoElements;
  of_string := Text;
  of_int64 := Int;
  of_uint := Int;
  of_bool := Bool;
  isObject := is_object;
  isArray := is_array;
  isNull := is_null;
  isString x := match x with Text _ => true | _ => false end;
  isBool x := match x with Bool _ => true | _ => false end;
  isUInt x := match x with Int z => (0 <=? z) && (z <? 2 ^ 32) | _ => false end;
  isUInt64 x := match x with Int z => 0 <=? z | _ => false end;
  asString x := match x with Text s => Ret s | _ => Exc LogicError end;
  asBool x := match x with Bool b => Ret b | _ => Exc LogicError end;
  asUInt x := match x with Int z => Ret z | _ => Exc LogicError end;
  asUInt64 x := match x with Int z => Ret z | _ => Exc LogicError end;
  isMember n x := if is_object x || is_null x then Ret (bool_decide (is_Some (find n x))) else Exc LogicError;
  member n x := if is_object x || is_null x then Ret (default Null (find n x)) else Exc LogicError;
  set_member n v x := if is_object x || is_null x then Ret (put n v x) else Exc LogicError;
  set_index i v x := if is_array x || is_null x then Ret (array_of (<[Z.to_nat i := v]> (elements_of x ++ replicate (Z.to_nat i + 1 - length (elements_of x)) Null)))
                     else Exc LogicError;
  append_value v x := if is_array x || is_null x then Ret (array_of (elements_of x ++ [v])) else Exc LogicError;
  elements := elements_of;
  getMemberNames x := if is_object x || is_null x then Ret (names_of x) else Exc LogicError;
  writeString := write;
  writeString_compact := write;
  toStyledString := write;
  parse s prev := match read (length s) s with Some (x, []) => (true, x) | _ => (false, prev) end
}.

Lemma find_put n v x : find n (put n v x) = Some v.
Proof.
  induction x as [| | | | |k w IHw r IHr| |]; cbn [put find]; try (by rewrite decide_True).
  destruct (decide (k = n)); cbn [find]; [by rewrite decide_True|by rewrite decide_False].
Qed.

Lemma find_put_other n v x m : m <> n -> find m (put n v x) = find m x.
Proof.
  intros Hm. induction x as [| | | | |k w IHw r IHr| |]; cbn [put find]; try (by rewrite decide_False).
  destruct (decide (k = n)) as [->|]; cbn [find]; [by rewrite !decide_False by congruence|]. by rewrite IHr.
Qed.

Lemma put_object n v x : is_object (put n v x) = true.
Proof. destruct x; cbn [put]; try done. by destruct (decide _). Qed.

Lemma put_ret n v x x' : set_member n v x = Ret x' -> x' = put n v x /\ is_object x || is_null x = true.
Proof. cbn. destruct (is_object x || is_null x); [|done]. by intros [= <-]. Qed.

#[export] Instance json_model_laws : JsonLaws value.
Proof.
  refine {| plain _ := True |}; try done.
  - intros x prev _. cbn. rewrite <- (app_nil_r (write x)) at 2. by rewrite read_write.
  - intros x prev _. cbn. rewrite <- (app_nil_r (write x)) at 2. by rewrite read_write.
  - intros [|[]| | | | | |]; done.
  - intros n v. by exists (put n v Null).
  - intros n v x Hx. cbn in Hx |- *. rewrite Hx. by eexists.
  - intros n v x x' [-> _]%put_ret. apply put_object.
  - intros n v x x' [-> _]%put_ret. cbn. rewrite put_object, find_put. done.
  - intros n v x x' m [-> Hx]%put_ret Hm. cbn. by rewrite put_object, find_put_other, Hx.
  - intros n v x x' [-> _]%put_ret. cbn. by rewrite put_object, find_put.
  - intros n v x x' m [-> Hx]%put_ret Hm. cbn. by rewrite put_object, find_put_other, Hx.
Defined.
