(* ===== verification/StreamableJson.v ===== *)
(** * A stream that receives JSON (Memory/streamablejson.h, streamablejson.cpp)

    The bytes are kept up to a size; the end of the stream parses them. Reading
    the value out replaces the text by that of the value. *)

From S2P Require Import Prelude SafeInt StreamableObject Json JsonModel.

Section StreamableJSON.
Context {V : Type} `{JsonCpp V}.

Record StreamableJSON : Type := mkJSON {
  sj_status : WriteStatus;
  sj_maxSize : Z;
  m_strValue : bytes;
  m_root : V;
  m_formatted : bool;
  m_isFull : bool
}.
Implicit Types s : StreamableJSON.

Definition StreamableJSON_new : StreamableJSON := mkJSON WriteStatus_new SIZE_MAX [] nullValue true false.

Definition sj_set_status (w : WriteStatus) s : StreamableJSON := mkJSON w (sj_maxSize s) (m_strValue s) (m_root s) (m_formatted s) (m_isFull s).
Definition setMaxSize (value : Z) s : StreamableJSON := mkJSON (sj_status s) value (m_strValue s) (m_root s) (m_formatted s) (m_isFull s).
Definition setFormatted (value : bool) s : StreamableJSON := mkJSON (sj_status s) (sj_maxSize s) (m_strValue s) (m_root s) value (m_isFull s).
Definition setValue (value : V) s : StreamableJSON := mkJSON (sj_status s) (sj_maxSize s) (m_strValue s) value (m_formatted s) (m_isFull s).
Definition set_strValue (text : bytes) s : StreamableJSON := mkJSON (sj_status s) (sj_maxSize s) text (m_root s) (m_formatted s) (m_isFull s).
Definition set_full s : StreamableJSON := mkJSON (sj_status s) (sj_maxSize s) (m_strValue s) (m_root s) (m_formatted s) true.

(** It may still be full, and its status is that of the writes before. *)
Definition sj_clear s : StreamableJSON := set_strValue [] (setValue nullValue s).

(** Whether there is a value; the root is what the parser leaves. *)
Definition processValue s : bool * StreamableJSON :=
  if m_isFull s then (false, s)
  else let (ok, root) := parse (m_strValue s) (m_root s) in (ok, setValue root s).

(** [writeStatus += x]. *)
Definition sj_add (x : Z) : st StreamableJSON unit := fun s =>
  let (r, w) := ws_add x (sj_status s) in (r, sj_set_status w s).

Definition sj_write (buf : bytes) : st StreamableJSON (option Z) :=
  let count := zlen buf in
  if count =? 0 then
    do! sj_add 0 in
    let! processed := fun s => let (ok, s) := processValue s in (Ret ok, s) in
    if processed then ret (Some 0) else do! sj_add (-1) in ret None
  else
    let! s := gets id in
    if u64 (zlen (m_strValue s) + count) >? sj_maxSize s then
      do! modify set_full in
      do! sj_add (-1) in ret None
    else
      do! modify (fun s => set_strValue (m_strValue s ++ buf) s) in
      do! sj_add (cast (Signed 64) count) in
      ret (Some (cast (Signed 64) count)).

#[export] Instance StreamableJSON_stream : Streamable StreamableJSON := {
  so_status := sj_status;
  so_set_status := sj_set_status;
  so_write := sj_write
}.

(** [streamTo]: what is sent, and the stream that keeps it. *)
Definition sj_text s : bytes := if m_formatted s then toStyledString (m_root s) else jsonToString (m_root s).
Definition sj_streamTo {U} `{Streamable U} s : st U bool * StreamableJSON :=
  let s := set_strValue (sj_text s) s in (writeFullStream (m_strValue s), s).

(** [toString] of StreamableObject, whatever [streamTo] answers. *)
Definition sj_toString s : res bytes * StreamableJSON :=
  let (send, s) := sj_streamTo s in
  match send StreamableString_new with
  | (Ret _, out) => (Ret (m_value out), s)
  | (Exc e, _) => (Exc e, s)
  end.

(** ** As a destination *)

#[export] Program Instance StreamableJSON_sink : Sink StreamableJSON := {
  sink_view := m_strValue;
  sink_ok s := status_ready (sj_status s) /\ m_isFull s = false /\ zlen (m_strValue s) <= SSIZE_MAX /\ sj_maxSize s <= SIZE_MAX
}.
Next Obligation. by intros s ((? & ? & ?) & _). Qed.
Next Obligation. done. Qed.
Next Obligation. done. Qed.

#[export] Program Instance StreamableJSON_full : FullSink StreamableJSON := {
  sink_room s := Z.min (Z.min (sj_maxSize s) SSIZE_MAX - zlen (m_strValue s)) (SIZE_MAX - bytesWritten (sj_status s))
}.
Next Obligation.
  intros s buf ((Hs & Hf & Hb) & Hfull & Hlen & Hmax) Hne Hl Hroom. cbn [so_write StreamableJSON_stream sink_room sink_view sink_ok] in *.
  unfold sj_write, bind, gets, modify, ret, sj_add. pose proof (zlen_pos buf Hne). pose proof (zlen_nonneg (m_strValue s)).
  case_cond; zbool; [lia|]. cbn [id]. rewrite u64_small by (unfold is_size, SIZE_MAX, SSIZE_MAX in *; lia). case_cond; zbool; [lia|].
  pose proof (ws_add_positive (sj_status s) (zlen buf) Hs Hf Hb ltac:(lia)) as Hw. unfold ws_add_size in Hw. cbn [sj_status set_strValue].
  destruct (ws_add _ _) as [[[]|e] w]; [|lia]. destruct Hw as (? & ? & ? & Hn).
  rewrite cast_id by (unfold in_type; cbn; unfold SSIZE_MAX in *; lia). eexists. split; [done|].
  cbn [sj_set_status set_strValue sj_status sj_maxSize m_strValue m_isFull]. rewrite zlen_app.
  split; [|split; [done|]]; [split; [done|]; split; [done|]; split; [|done]|lia].
  cbn. rewrite zlen_app. lia.
Qed.
End StreamableJSON.
Arguments StreamableJSON : clear implicits.

Section Theorems.
Context {V : Type} `{JsonCpp V}.

(** The end of the stream parses what was received. *)
Lemma eof_parses (s : StreamableJSON V) :
  sink_ok s ->
  let (ok, root) := parse (m_strValue s) (m_root s) in
  exists w, finish w = true /\
    writeEOF s = if ok then (Ret true, setValue root (sj_set_status w s))
                 else (Exc (runtime_error "Trying to write into an already finished write object."), setValue root (sj_set_status w s)).
Proof.
  intros ((Hs & Hf & Hb) & Hfull & _). destruct (parse (m_strValue s) (m_root s)) as [ok root] eqn:Ep.
  exists (mkWS true true (bytesWritten (sj_status s)) (writeError (sj_status s))). split; [done|].
  assert (E0 : sj_add 0 s = (Ret tt, sj_set_status (mkWS true true (bytesWritten (sj_status s)) (writeError (sj_status s))) s)).
  { unfold sj_add, ws_add. by rewrite Hs, Hf. }
  unfold writeEOF. unfold bind at 1. change (so_write [] s) with (sj_write [] s).
  unfold sj_write. change (zlen [] =? 0) with true. cbv iota zeta. unfold bind at 1. rewrite E0. unfold bind at 1.
  unfold processValue. cbn [m_isFull m_strValue m_root sj_set_status]. rewrite Hfull, Ep. by destruct ok.
Qed.

(** The text of the value, which takes the place of what was received. *)
Lemma sj_toString_text (s : StreamableJSON V) :
  zlen (sj_text s) <= SSIZE_MAX -> sj_toString s = (Ret (sj_text s), set_strValue (sj_text s) s).
Proof.
  intros Hl. unfold sj_toString, sj_streamTo. cbn [m_strValue set_strValue].
  assert (Hok : sink_ok StreamableString_new) by done.
  assert (Hr : zlen (sj_text s) <= sink_room StreamableString_new) by (unfold SSIZE_MAX in Hl; cbn; unfold SIZE_MAX; lia).
  destruct (writeFullStream_full StreamableString_new (sj_text s) Hok Hl Hr) as (out & E & _ & Hv & _). rewrite E.
  cbn in Hv. by rewrite Hv.
Qed.

(** Data leaves the value alone. *)
Lemma write_keeps_root buf (s : StreamableJSON V) : buf <> [] -> m_root (snd (sj_write buf s)) = m_root s.
Proof.
  intros Hne%zlen_pos. unfold sj_write. replace (zlen buf =? 0) with false by lia. unfold bind, gets, modify, sj_add, ret. cbn [id].
  case_cond; destruct (ws_add _ _) as [[]]; done.
Qed.

Lemma writeFullStream_loop_keeps_root fuel buf n (s : StreamableJSON V) :
  0 <= n -> m_root (snd (writeFullStream_loop fuel buf n s)) = m_root s.
Proof.
  revert n s. induction fuel as [|fuel IH]; intros n s Hn; [done|]. cbn [writeFullStream_loop]. case_cond; zbool; [|done].
  assert (Hne : zdrop n buf <> []) by (intros En; assert (Hp : 0 < zlen (zdrop n buf)) by (rewrite zlen_zdrop; lia); by rewrite En in Hp).
  unfold bind. cbn [so_write StreamableJSON_stream]. pose proof (write_keeps_root _ s Hne) as Hr.
  destruct (sj_write (zdrop n buf) s) as [[[w|]|e] s'] eqn:E'; cbn [snd] in Hr; [|by rewrite <- Hr|done].
  unfold gets. case_cond; [|by rewrite <- Hr]. rewrite IH; [done|]. apply Z.mod_pos_bound. lia.
Qed.

(** The pieces a body comes in. *)
Fixpoint send (frags : list bytes) : st (StreamableJSON V) bool :=
  match frags with
  | [] => writeEOF
  | f :: frags => let! ok := writeFullStream f in if ok then send frags else ret false
  end.

Lemma send_fragments frags (s : StreamableJSON V) :
  sink_ok s -> Forall (fun f => zlen f <= SSIZE_MAX) frags -> zlen (concat frags) <= sink_room s ->
  exists s', send frags s = writeEOF s' /\ sink_ok s' /\ m_strValue s' = m_strValue s ++ concat frags /\ m_root s' = m_root s.
Proof.
  intros Hok Hf. revert s Hok. induction Hf as [|f frags Hf _ IH]; intros s Hok Hroom; cbn [send concat] in *.
  { exists s. by rewrite app_nil_r. }
  rewrite zlen_app in Hroom. pose proof (zlen_nonneg (concat frags)).
  assert (Hroom1 : zlen f <= sink_room s) by lia.
  destruct (writeFullStream_full s f Hok Hf Hroom1) as (s1 & E1 & Hok1 & Hv1 & Hr1).
  assert (Hroom2 : zlen (concat frags) <= sink_room s1) by lia. destruct (IH s1 Hok1 Hroom2) as (s' & E & Hok' & Hv & Hr). exists s'. unfold bind. rewrite E1, E. split; [done|]. split; [done|].
  cbn [sink_view StreamableJSON_sink] in Hv1. split; [by rewrite Hv, Hv1, app_assoc|].
  rewrite Hr. pose proof (writeFullStream_loop_keeps_root (Datatypes.S (length f)) f 0 s ltac:(lia)) as Hk. unfold writeFullStream in E1. by rewrite E1 in Hk.
Qed.
End Theorems.

(** C34: however the text of a value is cut into writes, while it fits, the end
    of the stream gives the value that the parser reads from the whole text; when
    the text has no value, the end of the stream throws, since the failure is
    reported to a status that the end has finished. *)
Theorem json_of_fragments {V} `{JsonCpp V} frags (s : StreamableJSON V) :
  sink_ok s -> m_strValue s = [] -> Forall (fun f => zlen f <= SSIZE_MAX) frags -> zlen (concat frags) <= sink_room s ->
  let (ok, root) := parse (concat frags) (m_root s) in
  exists s', m_root s' = root /\ send frags s =
    (if ok then Ret true else Exc (runtime_error "Trying to write into an already finished write object."), s').
Proof.
  intros Hok He Hf Hr. destruct (send_fragments frags s Hok Hf Hr) as (s1 & E & Hok1 & Hv & Hroot). rewrite He in Hv. cbn [app] in Hv.
  pose proof (eof_parses s1 Hok1) as Hp. rewrite Hv, Hroot in Hp. destruct (parse (concat frags) (m_root s)) as [ok root].
  destruct Hp as (w & _ & Ew). rewrite E, Ew. exists (setValue root (sj_set_status w s1)). by destruct ok.
Qed.

Lemma json_of_fragments_witness :
  exists s', m_root s' = Text (str "ab") /\
    send [str "t+a"; str "+b."] (StreamableJSON_new (V := value)) = (Ret true, s').
Proof.
  assert (Hok : sink_ok (StreamableJSON_new (V := value))) by (repeat split; vm_compute; congruence).
  assert (Hf : Forall (fun f => zlen f <= SSIZE_MAX) [str "t+a"; str "+b."]) by (repeat constructor; vm_compute; congruence).
  assert (Hr : zlen (concat [str "t+a"; str "+b."]) <= sink_room (StreamableJSON_new (V := value))) by (vm_compute; congruence).
  destruct (json_of_fragments [str "t+a"; str "+b."] StreamableJSON_new Hok eq_refl Hf Hr) as (s' & Hroot & E).
  exists s'. split; [exact Hroot|]. exact E.
Defined.
