(* ===== verification/JsonEval.v ===== *)
(** * Boolean expressions over JSON (Scripts_JSONExprEval/)

    An expression is a list of items joined by && or by ||; an item is a call of
    an operator on two sides (AtomicExpression) or an expression between
    parentheses, each with an optional !. A side is a path of JsonCpp, a number
    or a text between quotes. The texts between quotes are put in a vector that
    all the parts of an expression share; here it is an argument. A regular
    expression that a side keeps is made of its own text, so making it at each
    evaluation gives the same one. *)

From S2P Require Import Prelude CText BoostText Json.

(** What the files use of Boost besides [BoostText] and [BoostSearch]:
    [split_each] is split(_, s, is_any_of(cs)), which does not merge separators;
    [search_call2 name s] is the two groups that regex_search finds with
    ^name\((?<LEFT_EXPR>[^,]+),(?<RIGHT_EXPR>[^\)]+)\)$ and [search_call1] the
    one of ^name\((?<RIGHT_EXPR>[^\)]+)\)$. *)
Class BoostExpr (R : Type) : Type := {
  split_each : bytes -> bytes -> list bytes;
  replace_once : bytes -> bytes -> bytes -> bytes;
  ends_with : bytes -> bytes -> bool;
  iends_with : bytes -> bytes -> bool;
  search_call2 : bytes -> bytes -> option (bytes * bytes);
  search_call1 : bytes -> bytes -> option bytes;
  regex_new : bool -> bytes -> res R;
  regex_match : R -> bytes -> bool
}.

(** [Json::Path(text).resolve(value)]. *)
Class JsonPath (V : Type) : Type := path_resolve : bytes -> V -> res V.

(** ** A side (atomicexpressionside.cpp) *)

Inductive eExpressionSideMode : Type :=
  EXPR_MODE_NUMERIC | EXPR_MODE_STATIC_STRING | EXPR_MODE_JSONPATH | EXPR_MODE_NULL | EXPR_MODE_UNDEFINED.

Record AtomicExpressionSide : Type := mkSide { side_expr : bytes; m_mode : eExpressionSideMode }.
Definition Side_new : AtomicExpressionSide := mkSide [] EXPR_MODE_UNDEFINED.

Inductive eEvalOperator : Type :=
  EVAL_OPERATOR_CONTAINS | EVAL_OPERATOR_REGEXMATCH | EVAL_OPERATOR_ISEQUAL | EVAL_OPERATOR_STARTSWITH
| EVAL_OPERATOR_ENDSWITH | EVAL_OPERATOR_ISNULL | EVAL_OPERATOR_UNDEFINED.
#[export] Instance eEvalOperator_eq_dec : EqDecision eEvalOperator.
Proof. solve_decision. Defined.

Definition STATIC_ : bytes := str "_STATIC_".
Definition SUBEXPR_ : bytes := str "_SUBEXPR_".

Section Side.
Context {V : Type} `{JsonCpp V, JsonPath V} {R : Type} `{BoostExpr R, BoostText, BoostSearch}.

Definition setExpr (value : bytes) (x : AtomicExpressionSide) : AtomicExpressionSide := mkSide (trim value) (m_mode x).
Definition set_mode (m : eExpressionSideMode) (x : AtomicExpressionSide) : AtomicExpressionSide := mkSide (side_expr x) m.

(** [m_expr.substr(8)] as a number. *)
Definition static_index (expr : bytes) : Z := strtoul10 (c_str (zdrop 8 expr)).

Definition calcMode (texts : list bytes) (x : AtomicExpressionSide) : bool * AtomicExpressionSide :=
  match side_expr x with
  | [] => (true, set_mode EXPR_MODE_NULL x)
  | c :: _ =>
      if bool_decide (c = "$"%char) then (true, set_mode EXPR_MODE_JSONPATH x)
      else if forallb isdigit (side_expr x) then (true, set_mode EXPR_MODE_NUMERIC x)
      else if starts_with (side_expr x) STATIC_ && (zlen texts >? static_index (side_expr x)) then (true, set_mode EXPR_MODE_STATIC_STRING x)
      else (false, set_mode EXPR_MODE_UNDEFINED x)
  end.

(** [size()] and the elements of what a path gives: an array has elements, the
    members of an object are counted but cannot be taken by a number. *)
Fixpoint strings_of (l : list V) : res (list bytes) :=
  match l with
  | [] => Ret []
  | v :: l => let? s := asString v in let? r := strings_of l in Ret (s :: r)
  end.

Definition path_values (v : V) : res (list bytes) :=
  if isArray v then
    match elements v with
    | [] => let? s := asString v in Ret [s]
    | _ :: _ => strings_of (elements v)
    end
  else if isObject v then
    let? names := getMemberNames v in
    match names with
    | [] => let? s := asString v in Ret [s]
    | _ :: _ => Exc LogicError
    end
  else if isNull v then Ret []
  else let? s := asString v in Ret [s].

(** The values of the side, and its regular expression when one is asked for. *)
Definition constant (text : bytes) (resolveRegex ignoreCase : bool) : res (list bytes * option R) :=
  if resolveRegex then let? r := regex_new ignoreCase (c_str text) in Ret ([], Some r)
  else Ret ([text], None).

Definition resolve (texts : list bytes) (v : V) (resolveRegex ignoreCase : bool) (x : AtomicExpressionSide) : res (list bytes * option R) :=
  match m_mode x with
  | EXPR_MODE_JSONPATH =>
      let? result := path_resolve (zdrop 1 (side_expr x)) v in
      let? l := path_values result in
      Ret (set_of l, None)
  | EXPR_MODE_STATIC_STRING =>
      match texts !! Z.to_nat (static_index (side_expr x)) with
      | Some text => constant text resolveRegex ignoreCase
      | None => Exc (undefined "beyond the end of a vector")
      end
  | EXPR_MODE_NUMERIC => constant (side_expr x) resolveRegex ignoreCase
  | EXPR_MODE_NULL | EXPR_MODE_UNDEFINED => Ret ([], None)
  end.

(** ** A call (atomicexpression.cpp) *)

Record AtomicExpression : Type := mkAtomic {
  m_left : AtomicExpressionSide;
  m_right : AtomicExpressionSide;
  m_evalOperator : eEvalOperator;
  m_negativeExpression : bool;
  m_ignoreCase : bool
}.
Definition Atomic_new : AtomicExpression := mkAtomic Side_new Side_new EVAL_OPERATOR_UNDEFINED false false.

Definition set_sides (l r : AtomicExpressionSide) (a : AtomicExpression) : AtomicExpression :=
  mkAtomic l r (m_evalOperator a) (m_negativeExpression a) (m_ignoreCase a).
Definition set_operator (op : eEvalOperator) (a : AtomicExpression) : AtomicExpression :=
  mkAtomic (m_left a) (m_right a) op (m_negativeExpression a) (m_ignoreCase a).

(** What the search finds goes to the sides; a side that is wrong ends it. *)
Definition substractExpressions (texts : list bytes) (found : option (bytes * option bytes)) (op : eEvalOperator) (a : AtomicExpression)
  : bool * AtomicExpression :=
  match found with
  | None => (false, a)
  | Some (left_, right_) =>
      let l := setExpr left_ (m_left a) in
      let r := setExpr (match right_ with Some t => t | None => [] end) (m_right a) in
      let (okl, l) := calcMode texts l in
      if negb okl then (false, set_sides l r a)
      else
        let (okr, r) := calcMode texts r in
        if negb okr then (false, set_sides l r a) else (true, set_operator op (set_sides l r a))
  end.

Definition call2 (name expr : bytes) : option (bytes * option bytes) :=
  match search_call2 name expr with Some (l, r) => Some (l, Some r) | None => None end.
Definition call1 (name expr : bytes) : option (bytes * option bytes) :=
  match search_call1 name expr with Some l => Some (l, None) | None => None end.

(** The operators in the order they are tried. *)
Definition operators (expr : bytes) : list (option (bytes * option bytes) * eEvalOperator) :=
  [(call2 (str "IS_EQUAL") expr, EVAL_OPERATOR_ISEQUAL);
   (call2 (str "REGEX_MATCH") expr, EVAL_OPERATOR_REGEXMATCH);
   (call2 (str "CONTAINS") expr, EVAL_OPERATOR_CONTAINS);
   (call2 (str "STARTS_WITH") expr, EVAL_OPERATOR_STARTSWITH);
   (call2 (str "ENDS_WITH") expr, EVAL_OPERATOR_ENDSWITH);
   (call1 (str "IS_NULL") expr, EVAL_OPERATOR_ISNULL)].

Fixpoint try_operators (texts : list bytes) (l : list (option (bytes * option bytes) * eEvalOperator)) (a : AtomicExpression) : bool * AtomicExpression :=
  match l with
  | [] => (false, mkAtomic (m_left a) (m_right a) EVAL_OPERATOR_UNDEFINED false (m_ignoreCase a))
  | (found, op) :: l =>
      let (ok, a) := substractExpressions texts found op a in
      if ok then (true, a) else try_operators texts l a
  end.

Definition atomic_compile (texts : list bytes) (expr : bytes) : bool * AtomicExpression :=
  let negative := starts_with expr (str "!") in
  let expr := if negative then zdrop 1 expr else expr in
  let ignoreCase := starts_with expr (str "i") in
  let expr := if ignoreCase then zdrop 1 expr else expr in
  try_operators texts (operators expr) (mkAtomic Side_new Side_new EVAL_OPERATOR_UNDEFINED negative ignoreCase).

Definition any_pair (f : bytes -> bytes -> bool) (ls rs : list bytes) : bool := existsb (fun l => existsb (f l) rs) ls.

Definition atomic_evaluate (texts : list bytes) (values : V) (a : AtomicExpression) : res bool :=
  let regex := bool_decide (m_evalOperator a = EVAL_OPERATOR_REGEXMATCH) in
  let? left_ := resolve texts values regex (m_ignoreCase a) (m_left a) in
  let? right_ := resolve texts values regex (m_ignoreCase a) (m_right a) in
  let lvalues := fst left_ in
  let rvalues := fst right_ in
  Ret (xorb (m_negativeExpression a)
    match m_evalOperator a with
    | EVAL_OPERATOR_UNDEFINED => false
    | EVAL_OPERATOR_ENDSWITH => any_pair (if m_ignoreCase a then iends_with else ends_with) lvalues rvalues
    | EVAL_OPERATOR_STARTSWITH => any_pair (if m_ignoreCase a then istarts_with else starts_with) lvalues rvalues
    | EVAL_OPERATOR_ISEQUAL => any_pair (fun r l => if m_ignoreCase a then iequals r l else bool_decide (r = l)) rvalues lvalues
    | EVAL_OPERATOR_ISNULL => bool_decide (lvalues = [])
    | EVAL_OPERATOR_CONTAINS => any_pair (if m_ignoreCase a then icontains else contains) lvalues rvalues
    | EVAL_OPERATOR_REGEXMATCH =>
        match snd right_ with
        | Some r => existsb (fun l => regex_match r (c_str l)) lvalues
        | None => false
        end
    end).

(** ** An expression (jsoneval.cpp) *)

Inductive eEvalMode : Type := EVAL_MODE_OR | EVAL_MODE_AND | EVAL_MODE_UNDEFINED.

(** An item is a call, or the place of an expression among the subexpressions. *)
Inductive JSONEval : Type := mkEval {
  negative_ : bool;
  m_evaluationMode : eEvalMode;
  m_subExpressions : list JSONEval;
  m_atomExpressions : list (AtomicExpression + Z);
  m_isCompiled : bool;
  m_lastError : bytes
}.

(** *** Compiling *)

(** [expr.find(text) != std::string::npos] *)
Definition occurs (expr text : bytes) : bool := contains_run expr text.

(** The texts between quotes go to the vector, the first one first, and a name
    with their place takes the place of each occurrence. *)
Definition static_name (pos : Z) : bytes := ztake 127 (STATIC_ ++ to_string pos).
Definition in_quotes (text : bytes) : bytes := [QUOTE_CHAR] ++ text ++ [QUOTE_CHAR].
Fixpoint put_statics (fuel : nat) (texts : list bytes) (expr : bytes) : res (list bytes * bytes) :=
  match fuel with
  | O => Exc diverges
  | S fuel =>
      match search_quoted expr with
      | None => Ret (texts, expr)
      | Some text => put_statics fuel (texts ++ [text]) (replace_all expr (in_quotes text) (static_name (zlen texts)))
      end
  end.

Fixpoint compress_spaces (fuel : nat) (expr : bytes) : res bytes :=
  match fuel with
  | O => Exc diverges
  | S fuel => if occurs expr (str "  ") then compress_spaces fuel (replace_all expr (str "  ") (str " ")) else Ret expr
  end.

(** detectSubExpr up to the parenthesis that closes the first one it opens: the
    end of the text, a parenthesis that closes nothing, or the two places. *)
Inductive scan_result : Type := AtEnd | Unbalanced | Between (firstByte i : Z).

Fixpoint scan (s : bytes) (i level firstByte : Z) : scan_result :=
  match s with
  | [] => AtEnd
  | c :: s =>
      if bool_decide (c = "("%char) then scan s (i + 1) (level + 1) (if level =? 0 then i else firstByte)
      else if bool_decide (c = ")"%char) then
        if level =? 0 then Unbalanced
        else if level =? 1 then Between firstByte i
        else scan s (i + 1) (level - 1) firstByte
      else scan s (i + 1) level firstByte
  end.

Definition subexpr_name (pos : Z) : bytes := ztake 127 (SUBEXPR_ ++ to_string pos).

Section Compile.
(** The constructor with its shared texts, for a subexpression. *)
Variable sub_new : list bytes -> bool -> bytes -> res (list bytes * JSONEval).

(** The text, the texts between quotes and the subexpressions so far. *)
Record compiling : Type := mkCompiling { c_expr : bytes; c_texts : list bytes; c_subs : list JSONEval }.

Definition add_sub (x : compiling) (negative : bool) (sub whole : bytes) : res compiling :=
  let? r := sub_new (c_texts x) negative sub in
  Ret (mkCompiling (replace_once (c_expr x) whole (subexpr_name (zlen (c_subs x)))) (fst r) (c_subs x ++ [snd r])).

(** [detectSubExpr]: where to go on, [zlen expr] and [zlen expr + 1] to stop. *)
Definition detectSubExpr (start : Z) (x : compiling) : res (Z * compiling) :=
  let expr := c_expr x in
  match scan (zdrop start expr) start 0 0 with
  | AtEnd => Ret (zlen expr, x)
  | Unbalanced => Ret (zlen expr + 1, x)
  | Between firstByte i =>
      let subexpr := slice (firstByte + 1) (i - firstByte - 1) expr in
      let before := if 0 <? firstByte then expr !! Z.to_nat (firstByte - 1) else None in
      match before with
      | Some c =>
          if isalnum c then Ret (i + 1, x)
          else if bool_decide (c = "!"%char) then
            let? x := add_sub x true subexpr (str "!(" ++ subexpr ++ str ")") in Ret (0, x)
          else let? x := add_sub x false subexpr (str "(" ++ subexpr ++ str ")") in Ret (0, x)
      | None => let? x := add_sub x false subexpr (str "(" ++ subexpr ++ str ")") in Ret (0, x)
      end
  end.

(** The loop over detectSubExpr; the answer is whether the text is balanced. *)
Fixpoint detect_loop (fuel : nat) (sePos : Z) (x : compiling) : res (bool * compiling) :=
  match fuel with
  | O => Exc diverges
  | S fuel =>
      let? r := detectSubExpr sePos x in
      let (sePos, x) := r in
      if sePos =? zlen (c_expr x) then Ret (true, x)
      else if sePos =? zlen (c_expr x) + 1 then Ret (false, x)
      else detect_loop fuel sePos x
  end.

(** The items, until one that is wrong: its error, the mode it leaves, and the
    items before it. *)
Fixpoint items (texts : list bytes) (subs : Z) (mode : eEvalMode) (l : list bytes) (done_ : list (AtomicExpression + Z))
  : option bytes * eEvalMode * list (AtomicExpression + Z) :=
  match l with
  | [] => (None, mode, done_)
  | atomicExpr :: l =>
      if starts_with atomicExpr SUBEXPR_ then
        let subexpr_pos := strtoul10 (c_str (zdrop 9 atomicExpr)) in
        if subexpr_pos >=? subs then (Some (str "Invalid Sub Expression #"), mode, done_)
        else items texts subs mode l (done_ ++ [inr subexpr_pos])
      else
        let (ok, a) := atomic_compile texts atomicExpr in
        if ok then items texts subs mode l (done_ ++ [inl a])
        else (Some (str "Invalid Atomic Expression"), EVAL_MODE_UNDEFINED, done_)
  end.

Definition NEWLINE : bytes := [LF].
Definition AND_ : bytes := str " && ".
Definition OR_ : bytes := str " || ".

(** From the text with its subexpressions replaced. *)
Definition compile_items (negative : bool) (x : compiling) : JSONEval :=
  let expr := c_expr x in
  let fails mode error atoms := mkEval negative mode (c_subs x) atoms false error in
  if occurs expr AND_ && occurs expr OR_ then
    fails EVAL_MODE_UNDEFINED (str "Expression with both and/or and no precedence order") []
  else
    let mode := if occurs expr AND_ then EVAL_MODE_AND else EVAL_MODE_OR in
    let expr := if occurs expr AND_ then replace_all expr AND_ NEWLINE else replace_all expr OR_ NEWLINE in
    if occurs expr (str " ") then fails mode (str "Invalid Operator (only and/or is admitted)") []
    else
      match items (c_texts x) (zlen (c_subs x)) mode (split_each NEWLINE expr) [] with
      | (Some error, mode, atoms) => fails mode error atoms
      | (None, mode, atoms) => mkEval negative mode (c_subs x) atoms true []
      end.

(** A round for each parenthesis that opens, after each replacement. *)
Definition detect_fuel (expr : bytes) : nat := let n := S (length (filter (fun c => c = "("%char) expr)) in n * n.

(** With the names of the texts between quotes in their places. *)
Definition compile_named (texts : list bytes) (negative : bool) (expr : bytes) : res (list bytes * JSONEval) :=
  let fails error := Ret (texts, mkEval negative EVAL_MODE_UNDEFINED [] [] false error) in
  if occurs expr [QUOTE_CHAR] then fails (str "bad quoting in text")
  else if occurs expr NEWLINE then fails (str "Mutiline expression not supported")
  else if occurs expr SUBEXPR_ then fails (str "Invalid keyword _SUBEXPR_")
  else
    let? expr := compress_spaces (S (length expr)) expr in
    let? r := detect_loop (detect_fuel expr) 0 (mkCompiling expr texts []) in
    let (balanced, x) := r in
    if negb balanced then Ret (c_texts x, mkEval negative EVAL_MODE_UNDEFINED (c_subs x) [] false (str "bad parenthesis balancing"))
    else Ret (c_texts x, compile_items negative x).

Definition compile_with (texts : list bytes) (negative : bool) (expr : bytes) : res (list bytes * JSONEval) :=
  let expr := trim expr in
  let? r := put_statics (S (length expr)) texts expr in
  compile_named (fst r) negative (snd r).
End Compile.

(** A level of parentheses for each unit of fuel. *)
Fixpoint compile (fuel : nat) (texts : list bytes) (negative : bool) (expr : bytes) : res (list bytes * JSONEval) :=
  match fuel with
  | O => Exc diverges
  | S fuel => compile_with (compile fuel) texts negative expr
  end.

(** The constructor: the texts it leaves and the expression. *)
Definition JSONEval_of (expr : bytes) : res (list bytes * JSONEval) := compile (S (length expr)) [] false expr.

(** *** Evaluating *)

(** The items in their order, until one that is [stop]. *)
Fixpoint short_circuit (stop : bool) (l : list (res bool)) : res bool :=
  match l with
  | [] => Ret (negb stop)
  | r :: l => let? b := r in if Bool.eqb b stop then Ret stop else short_circuit stop l
  end.

Fixpoint evaluate (texts : list bytes) (values : V) (e : JSONEval) : res bool :=
  match e with
  | mkEval negative mode subs atoms _ _ =>
      let sub_values := map (evaluate texts values) subs in
      let value (i : AtomicExpression + Z) : res bool :=
        match i with
        | inl a => atomic_evaluate texts values a
        | inr pos => default (Exc (undefined "beyond the end of a vector")) (sub_values !! Z.to_nat pos)
        end in
      let calcNegative (m : res bool) : res bool := let? b := m in Ret (xorb negative b) in
      match mode with
      | EVAL_MODE_AND => calcNegative (short_circuit false (map value atoms))
      | EVAL_MODE_OR => calcNegative (short_circuit true (map value atoms))
      | EVAL_MODE_UNDEFINED => Ret false
      end
  end.
End Side.
