(* ===== verification/JsonEvalSpec.v ===== *)
(** * Expressions over JSON: the compiler and the meaning of the text

    Trees of calls and groups have a text and a meaning. Compiling the text and
    evaluating what it gives is the meaning of the tree, on every value. *)

From S2P Require Import Prelude CText BoostText Json JsonModel JsonEval.

(** ** What the documentation of Boost says *)

(** Letters and underscores, of the names of the operators. *)
Definition name_chars (s : bytes) : Prop := Forall (fun c => isalpha c || bool_decide (c = "_"%char) = true) s.

Class BoostExprLaws (R : Type) `{BoostExpr R} : Prop := {
  split_each_one cs w : free_of cs w -> split_each cs w = [w];
  split_each_at cs w c rest : free_of cs w -> c ∈ cs -> split_each cs (w ++ c :: rest) = w :: split_each cs rest;
  replace_once_first a p b f : p <> [] -> first_at a p -> replace_once (a ++ p ++ b) p f = a ++ f ++ b;
  call2_found name l r : name_chars name -> l <> [] -> r <> [] -> free_of [","%char] l -> free_of [")"%char] r ->
    search_call2 name (name ++ str "(" ++ l ++ str "," ++ r ++ str ")") = Some (l, r);
  call2_other name s : name_chars name -> LF ∉ s -> ~ (exists t, s = name ++ str "(" ++ t) -> search_call2 name s = None;
  call1_found name r : name_chars name -> r <> [] -> free_of [")"%char] r ->
    search_call1 name (name ++ str "(" ++ r ++ str ")") = Some r;
  call1_other name s : name_chars name -> LF ∉ s -> ~ (exists t, s = name ++ str "(" ++ t) -> search_call1 name s = None
}.

(** *** An instance: its regular expressions are the texts themselves *)

Fixpoint split_each_run (cs tok s : bytes) : list bytes :=
  match s with
  | [] => [rev tok]
  | c :: s => if bool_decide (c ∈ cs) then rev tok :: split_each_run cs [] s else split_each_run cs (c :: tok) s
  end.

Fixpoint replace_once_run (p f s : bytes) : bytes :=
  if is_prefix p s then f ++ drop (length p) s
  else match s with [] => [] | c :: s => c :: replace_once_run p f s end.

(** The text of the parentheses that follow the name. *)
Definition arguments (name s : bytes) : option bytes :=
  if is_prefix (name ++ str "(") s then
    let t := drop (length name + 1) s in
    match last t with Some c => if decide (c = ")"%char) then Some (removelast t) else None | None => None end
  else None.

Definition call1_run (name s : bytes) : option bytes :=
  match arguments name s with
  | Some r => if bool_decide (r = []) || bool_decide (")"%char ∈ r) then None else Some r
  | None => None
  end.
Definition call2_run (name s : bytes) : option (bytes * bytes) :=
  match arguments name s with
  | Some t =>
      match memchr ","%char t with
      | Some i => let l := ztake i t in let r := zdrop (i + 1) t in
                  if bool_decide (l = []) || bool_decide (r = []) || bool_decide (")"%char ∈ r) then None else Some (l, r)
      | None => None
      end
  | None => None
  end.

#[export] Instance reference_expr : BoostExpr (bool * bytes) := {
  split_each cs s := split_each_run cs [] s;
  replace_once s p f := replace_once_run p f s;
  ends_with s p := bool_decide (drop (length s - length p) s = p);
  iends_with s p := bool_decide (map toupper (drop (length s - length p) s) = map toupper p);
  search_call2 := call2_run;
  search_call1 := call1_run;
  regex_new ic s := Ret (ic, s);
  regex_match r s := if fst r then bool_decide (map toupper (snd r) = map toupper s) else bool_decide (snd r = s)
}.

Lemma arguments_call name t : arguments name (name ++ str "(" ++ t ++ str ")") = Some t.
Proof.
  unfold arguments. replace (is_prefix (name ++ str "(") (name ++ str "(" ++ t ++ str ")")) with true.
  2: { symmetry. apply is_prefix_app. exists (t ++ str ")"). by rewrite <- app_assoc. }
  rewrite app_assoc. replace (length name + 1)%nat with (length (name ++ str "(")) by (rewrite length_app; done).
  rewrite drop_app_length. change (str ")") with [")"%char]. rewrite last_snoc, decide_True by done. by rewrite removelast_last.
Qed.

Lemma arguments_other name s : ~ (exists t, s = name ++ str "(" ++ t) -> arguments name s = None.
Proof.
  intros Hn. unfold arguments. destruct (is_prefix _ s) eqn:E; [|done]. exfalso. apply Hn. apply is_prefix_app in E as [b ->].
  exists b. by rewrite <- app_assoc.
Qed.

Lemma split_each_run_word cs tok w s : free_of cs w -> split_each_run cs tok (w ++ s) = split_each_run cs (rev w ++ tok) s.
Proof.
  revert tok. induction w as [|c w IH]; intros tok Hw; [done|]. inversion Hw as [|? ? Hc Hrest]; subst. cbn [app split_each_run rev].
  rewrite bool_decide_eq_false_2 by done. rewrite IH by done. by rewrite <- app_assoc.
Qed.

Lemma replace_once_run_first p f a b : p <> [] -> first_at a p -> replace_once_run p f (a ++ p ++ b) = a ++ f ++ b.
Proof.
  intros Hne. induction a as [|c a IH]; intros Hf.
  - destruct p as [|x p]; [done|]. cbn [app replace_once_run].
    replace (is_prefix (x :: p) (x :: p ++ b)) with true by (symmetry; apply is_prefix_app; by exists b).
    f_equal. exact (drop_app_length (x :: p) b).
  - cbn [app replace_once_run]. destruct (is_prefix p (c :: a ++ p ++ b)) eqn:E.
    + exfalso. by apply (first_at_start p c a b).
    + f_equal. apply IH. intros a' b' He. apply (Hf (c :: a') b'). simpl. by rewrite He.
Qed.

#[export] Instance reference_expr_laws : BoostExprLaws (bool * bytes).
Proof.
  split; cbn [split_each replace_once search_call2 search_call1 reference_expr].
  - intros cs w Hw. rewrite <- (app_nil_r w) at 1. rewrite split_each_run_word by done. cbn. rewrite app_nil_r. by rewrite rev_involutive.
  - intros cs w c rest Hw Hc. rewrite split_each_run_word by done. cbn. rewrite bool_decide_eq_true_2 by done. by rewrite app_nil_r, rev_involutive.
  - intros a p b f. apply replace_once_run_first.
  - intros name l r _ Hl Hr Hfl Hfr. unfold call2_run. rewrite (app_assoc l), (app_assoc (l ++ _)), arguments_call.
    change (str ",") with [","%char]. rewrite <- app_assoc. cbn [app]. rewrite memchr_free by by apply free_of_one.
    rewrite ztake_length_app, zdrop_app_ge by lia. replace (zlen l + 1 - zlen l) with (0 + 1) by lia. rewrite zdrop_succ, zdrop_le0 by lia.
    rewrite !bool_decide_eq_false_2; [done|by apply free_of_one|done|done].
  - intros name s _ _ Hn. unfold call2_run. by rewrite arguments_other.
  - intros name r _ Hr Hfr. unfold call1_run. rewrite arguments_call. rewrite !bool_decide_eq_false_2; [done|by apply free_of_one|done].
  - intros name s _ _ Hn. unfold call1_run. by rewrite arguments_other.
Qed.

(** ** Trees *)

Inductive operand : Type := Path (p : bytes) | Number (n : bytes) | Quoted (t : bytes).

(** The right side of IS_NULL is not written. *)
Record call : Type := mkCall { negated : bool; icase : bool; c_op : eEvalOperator; c_left : operand; c_right : operand }.

Inductive tree : Type :=
| Call (c : call)
| Group (negated : bool) (all : bool) (items : list tree).

Definition op_name (op : eEvalOperator) : bytes :=
  match op with
  | EVAL_OPERATOR_ISEQUAL => str "IS_EQUAL"
  | EVAL_OPERATOR_REGEXMATCH => str "REGEX_MATCH"
  | EVAL_OPERATOR_CONTAINS => str "CONTAINS"
  | EVAL_OPERATOR_STARTSWITH => str "STARTS_WITH"
  | EVAL_OPERATOR_ENDSWITH => str "ENDS_WITH"
  | EVAL_OPERATOR_ISNULL => str "IS_NULL"
  | EVAL_OPERATOR_UNDEFINED => []
  end.

(** A character of a path: none of those that the compiler takes for structure. *)
Definition plain_char (c : ascii) : bool :=
  negb (isspace c) && bool_decide (c ∉ ["("; ")"; ","; "&"; "|"]%char) && negb (bool_decide (c = QUOTE_CHAR)).

Section Texts.
(** The texts that have a number already: their names take their places. *)
Variable texts : list bytes.

Definition operand_text (o : operand) : bytes :=
  match o with
  | Path p => "$"%char :: p
  | Number n => n
  | Quoted t => match list_find (eq t) texts with Some (k, _) => STATIC_ ++ to_string (Z.of_nat k) | None => in_quotes t end
  end.

Definition args_text (c : call) : bytes :=
  match c_op c with
  | EVAL_OPERATOR_ISNULL => operand_text (c_left c)
  | _ => operand_text (c_left c) ++ str "," ++ operand_text (c_right c)
  end.
Definition head_text (c : call) : bytes :=
  (if negated c then str "!" else []) ++ (if icase c then str "i" else []) ++ op_name (c_op c).
Definition call_text (c : call) : bytes := head_text c ++ str "(" ++ args_text c ++ str ")".

Definition connective (all : bool) : bytes := if all then AND_ else OR_.

Fixpoint tree_text (t : tree) : bytes :=
  match t with
  | Call c => call_text c
  | Group n all l => (if n then str "!" else []) ++ str "(" ++ join (connective all) (map tree_text l) ++ str ")"
  end.
Definition list_text (all : bool) (l : list tree) : bytes := join (connective all) (map tree_text l).

Definition operand_ok (o : operand) : Prop :=
  match o with
  | Path p => forallb plain_char p = true
  | Number n => n <> [] /\ forallb isdigit n = true
  | Quoted t => t ∈ texts /\ zlen texts <= SIZE_MAX
  end.

Definition call_ok (c : call) : Prop := c_op c <> EVAL_OPERATOR_UNDEFINED /\ operand_ok (c_left c) /\ operand_ok (c_right c).

Fixpoint tree_ok (t : tree) : Prop :=
  match t with
  | Call c => call_ok c
  | Group _ _ l => l <> [] /\ Forall id (map tree_ok l)
  end.

(** What the compiler makes of a call. *)
Definition operand_side (o : operand) : AtomicExpressionSide :=
  mkSide (operand_text o) (match o with Path _ => EXPR_MODE_JSONPATH | Number _ => EXPR_MODE_NUMERIC | Quoted _ => EXPR_MODE_STATIC_STRING end).
Definition call_atomic (c : call) : AtomicExpression :=
  mkAtomic (operand_side (c_left c))
    (match c_op c with EVAL_OPERATOR_ISNULL => mkSide [] EXPR_MODE_NULL | _ => operand_side (c_right c) end)
    (c_op c) (negated c) (icase c).
End Texts.

(** ** The meaning *)

Section Meaning.
Context {V : Type} `{JsonCpp V, JsonPath V} {R : Type} `{BoostExpr R, BoostText, BoostSearch}.

Definition operand_values (v : V) (resolveRegex ignoreCase : bool) (o : operand) : res (list bytes * option R) :=
  match o with
  | Path p => let? result := path_resolve p v in let? l := path_values result in Ret (set_of l, None)
  | Number n => constant n resolveRegex ignoreCase
  | Quoted t => constant t resolveRegex ignoreCase
  end.

Definition call_meaning (v : V) (c : call) : res bool :=
  let regex := bool_decide (c_op c = EVAL_OPERATOR_REGEXMATCH) in
  let? l := operand_values v regex (icase c) (c_left c) in
  let? r := match c_op c with EVAL_OPERATOR_ISNULL => Ret ([], None) | _ => operand_values v regex (icase c) (c_right c) end in
  let some f := any_pair f (fst l) (fst r) in
  Ret (xorb (negated c)
    match c_op c with
    | EVAL_OPERATOR_ISEQUAL => any_pair (fun a b => if icase c then iequals a b else bool_decide (a = b)) (fst r) (fst l)
    | EVAL_OPERATOR_CONTAINS => some (if icase c then icontains else contains)
    | EVAL_OPERATOR_STARTSWITH => some (if icase c then istarts_with else starts_with)
    | EVAL_OPERATOR_ENDSWITH => some (if icase c then iends_with else ends_with)
    | EVAL_OPERATOR_REGEXMATCH => match snd r with Some e => existsb (fun a => regex_match e (c_str a)) (fst l) | None => false end
    | EVAL_OPERATOR_ISNULL => bool_decide (fst l = [])
    | EVAL_OPERATOR_UNDEFINED => false
    end).

Fixpoint meaning (v : V) (t : tree) : res bool :=
  match t with
  | Call c => call_meaning v c
  | Group n all l => let? b := short_circuit (negb all) (map (meaning v) l) in Ret (xorb n b)
  end.
Definition list_meaning (v : V) (all : bool) (l : list tree) : res bool := short_circuit (negb all) (map (meaning v) l).
End Meaning.

(** Induction on trees. *)
Lemma tree_induction (P : tree -> Prop) :
  (forall c, P (Call c)) -> (forall n all l, Forall P l -> P (Group n all l)) -> forall t, P t.
Proof.
  intros Hc Hg. fix IH 1. intros [c|n all l]; [apply Hc|]. apply Hg. induction l as [|t l IHl]; constructor; [apply IH|exact IHl].
Qed.

(** ** Characters of the texts *)

Definition no_paren (s : bytes) : Prop := "("%char ∉ s /\ ")"%char ∉ s.

(** All the characters of [s] satisfy a test. *)
Lemma not_in_chars (f : ascii -> bool) (s : bytes) c : forallb f s = true -> f c = false -> c ∉ s.
Proof. rewrite forallb_forall. intros Hf Hc Hin%list_elem_of_In. rewrite Hf in Hc; done. Qed.

(** What the text of an operand is made of. *)
Definition operand_char (c : ascii) : bool := plain_char c || isdigit c || bool_decide (c ∈ "$"%char :: STATIC_).

(** The name of a text that has a number. *)
Lemma quoted_name texts t : t ∈ texts ->
  exists k, operand_text texts (Quoted t) = STATIC_ ++ to_string (Z.of_nat k) /\ texts !! k = Some t /\ Z.of_nat k < zlen texts.
Proof.
  intros Ht. cbn [operand_text]. destruct (list_find_elem_of (eq t) texts t Ht eq_refl) as [[k t'] E]. rewrite E.
  apply list_find_Some in E as (Hk & <- & _). exists k. apply lookup_lt_Some in Hk as Hlt. unfold zlen. repeat split; [done|lia].
Qed.

Lemma operand_chars texts o : operand_ok texts o -> forallb operand_char (operand_text texts o) = true.
Proof.
  unfold operand_char. destruct o as [p|n|t]; cbn [operand_text operand_ok].
  - intros Hp. cbn [forallb]. apply andb_true_iff. split; [done|]. rewrite forallb_forall in *. intros c Hc. by rewrite Hp.
  - intros [_ Hn]. rewrite forallb_forall in *. intros c Hc. rewrite Hn by done. by rewrite orb_true_r.
  - intros [Ht _]. destruct (quoted_name _ _ Ht) as (k & E & _ & Hk). cbn [operand_text] in E. rewrite E, forallb_app. apply andb_true_iff. split; [vm_compute; reflexivity|].
    pose proof (to_string_digits (Z.of_nat k) ltac:(lia)) as Hd. rewrite forallb_forall in *. intros c Hc. rewrite Hd by done. by rewrite orb_true_r.
Qed.

Lemma operand_nonempty texts o : operand_ok texts o -> operand_text texts o <> [].
Proof. destruct o; [done|by intros [? _]|]. intros [Ht _]. by destruct (quoted_name _ _ Ht) as (k & -> & _). Qed.

Lemma operand_char_space c : operand_char c = true -> isspace c = false.
Proof.
  assert (Hf : (fun c => implb (operand_char c) (negb (isspace c))) c = true) by (apply (forall_chars (fun c => implb (operand_char c) (negb (isspace c)))); vm_compute; reflexivity).
  cbn beta in Hf. intros Hc. rewrite Hc in Hf. cbn in Hf. by apply negb_true_iff in Hf.
Qed.

Lemma operand_free texts o c : operand_ok texts o -> operand_char c = false -> c ∉ operand_text texts o.
Proof. intros Ho. by apply not_in_chars, (operand_chars texts). Qed.

Lemma operand_tight texts o : operand_ok texts o -> tight (operand_text texts o).
Proof.
  intros Ho. pose proof (operand_chars texts o Ho) as Hc.
  assert (Hs : forall c, c ∈ operand_text texts o -> isspace c = false).
  { intros c Hin%list_elem_of_In. apply operand_char_space. rewrite forallb_forall in Hc. by apply Hc. }
  destruct (operand_text texts o) as [|c s] eqn:E; [done|]. split; [apply Hs; by left|].
  destruct (rev (c :: s)) as [|d r] eqn:Er; [done|]. apply Hs. apply list_elem_of_In. rewrite in_rev, Er. by left.
Qed.

(** ** Calls *)

Section Calls.
Context {V : Type} `{JsonCpp V, JsonPath V} {R : Type} `{BoostExprLaws R, BoostLaws, BoostSearchLaws}.

Lemma static_index_name k : 0 <= k <= SIZE_MAX -> static_index (STATIC_ ++ to_string k) = k.
Proof.
  intros Hk. unfold static_index. change 8 with (zlen STATIC_). rewrite zdrop_length_app. rewrite c_str_dec by (apply to_string_dec; lia).
  apply strtoul_to_string. unfold SIZE_MAX in Hk. lia.
Qed.

Lemma calcMode_operand texts o m :
  operand_ok texts o -> calcMode texts (mkSide (operand_text texts o) m) = (true, operand_side texts o).
Proof.
  intros Ho. unfold calcMode. cbn [side_expr]. destruct o as [p|n|t].
  - cbn [operand_text]. by rewrite bool_decide_eq_true_2.
  - destruct Ho as [Hne Hd]. cbn [operand_text]. destruct n as [|c n]; [done|]. rewrite bool_decide_eq_false_2; [by rewrite Hd|].
    intros ->. cbn in Hd. done.
  - destruct Ho as [Ht Hmax]. destruct (quoted_name _ _ Ht) as (k & E & _ & Hk). unfold operand_side. rewrite E.
    change (STATIC_ ++ to_string (Z.of_nat k)) with ("_"%char :: str "STATIC_" ++ to_string (Z.of_nat k)). cbv beta iota zeta.
    rewrite bool_decide_eq_false_2 by done. cbn [forallb]. change (isdigit "_"%char) with false. cbn [andb].
    change ("_"%char :: str "STATIC_" ++ to_string (Z.of_nat k)) with (STATIC_ ++ to_string (Z.of_nat k)).
    rewrite static_index_name by lia. rewrite starts_with_prefix, take_app_length, bool_decide_eq_true_2 by done.
    replace (zlen texts >? Z.of_nat k) with true by lia. done.
Qed.

Lemma setExpr_operand texts o x : operand_ok texts o -> setExpr (operand_text texts o) x = mkSide (operand_text texts o) (m_mode x).
Proof. intros Ho. unfold setExpr. by rewrite trim_tight by (by eapply operand_tight). Qed.

Lemma substract_call2 texts l r op a :
  operand_ok texts l -> operand_ok texts r ->
  substractExpressions texts (Some (operand_text texts l, Some (operand_text texts r))) op a =
  (true, mkAtomic (operand_side texts l) (operand_side texts r) op (m_negativeExpression a) (m_ignoreCase a)).
Proof.
  intros Hl Hr. unfold substractExpressions. rewrite (setExpr_operand texts), (setExpr_operand texts) by done.
  by rewrite !calcMode_operand.
Qed.

Lemma substract_call1 texts l op a :
  operand_ok texts l ->
  substractExpressions texts (Some (operand_text texts l, None)) op a =
  (true, mkAtomic (operand_side texts l) (mkSide [] EXPR_MODE_NULL) op (m_negativeExpression a) (m_ignoreCase a)).
Proof.
  intros Hl. unfold substractExpressions. rewrite (setExpr_operand texts) by done. rewrite calcMode_operand by done. cbn [negb].
  unfold setExpr at 1. rewrite trim_blank by constructor. done.
Qed.

Lemma name_chars_op op : name_chars (op_name op).
Proof. destruct op; apply Forall_forall; intros c Hc; apply list_elem_of_In in Hc; cbn in Hc; intuition; subst; done. Qed.

Lemma call_no_LF texts c : call_ok texts c -> LF ∉ op_name (c_op c) ++ str "(" ++ args_text texts c ++ str ")".
Proof.
  intros (Hop & Hl & Hr). assert (Hn : LF ∉ op_name (c_op c)) by (destruct (c_op c); vm_compute; set_solver).
  assert (HLl : LF ∉ operand_text texts (c_left c)) by (by eapply operand_free). assert (HLr : LF ∉ operand_text texts (c_right c)) by (by eapply operand_free).
  rewrite !not_elem_of_app. repeat split; [done|by vm_compute; set_solver| |by vm_compute; set_solver].
  unfold args_text. destruct (c_op c); rewrite ?not_elem_of_app; repeat split; try done; vm_compute; set_solver.
Qed.

(** The body of a call: its operator is the one that is found. *)
Definition body_text texts (c : call) : bytes := op_name (c_op c) ++ str "(" ++ args_text texts c ++ str ")".

Lemma try_operators_call texts c a :
  call_ok texts c -> m_left a = Side_new -> m_right a = Side_new ->
  try_operators texts (operators (body_text texts c)) a =
  (true, mkAtomic (m_left (call_atomic texts c)) (m_right (call_atomic texts c)) (c_op c) (m_negativeExpression a) (m_ignoreCase a)).
Proof.
  intros Hok Hla Hra. pose proof (call_no_LF _ c Hok) as HLF. destruct Hok as (Hop & Hl & Hr).
  assert (Hother2 : forall op', op' <> c_op c -> call2 (op_name op') (body_text texts c) = None).
  { intros op' Hne. unfold call2. rewrite call2_other; [done|apply name_chars_op|exact HLF|].
    unfold body_text. intros [t E]. destruct op', (c_op c); try done; cbn in E; congruence. }
  assert (Hother1 : EVAL_OPERATOR_ISNULL <> c_op c -> call1 (op_name EVAL_OPERATOR_ISNULL) (body_text texts c) = None).
  { intros Hne. unfold call1. rewrite call1_other; [done|apply name_chars_op|exact HLF|].
    unfold body_text. intros [t E]. destruct (c_op c); try done; cbn in E; congruence. }
  assert (Hfound : c_op c <> EVAL_OPERATOR_ISNULL ->
    call2 (op_name (c_op c)) (body_text texts c) = Some (operand_text texts (c_left c), Some (operand_text texts (c_right c)))).
  { intros Hne. unfold call2, body_text, args_text.
    assert (E : match c_op c with EVAL_OPERATOR_ISNULL => operand_text texts (c_left c) | _ => operand_text texts (c_left c) ++ str "," ++ operand_text texts (c_right c) end
                = operand_text texts (c_left c) ++ str "," ++ operand_text texts (c_right c)) by (by destruct (c_op c)).
    rewrite E, <- !app_assoc. rewrite call2_found; [done|apply name_chars_op|by eapply operand_nonempty..| |].
    - apply Forall_forall. intros x Hx ->%list_elem_of_singleton. exact (operand_free _ _ ","%char Hl eq_refl Hx).
    - apply Forall_forall. intros x Hx ->%list_elem_of_singleton. exact (operand_free _ _ ")"%char Hr eq_refl Hx). }
  assert (Hnull : c_op c = EVAL_OPERATOR_ISNULL -> call1 (op_name (c_op c)) (body_text texts c) = Some (operand_text texts (c_left c), None)).
  { intros E. unfold call1, body_text, args_text. rewrite E. rewrite call1_found; [done|apply name_chars_op|by eapply operand_nonempty|].
    apply Forall_forall. intros x Hx ->%list_elem_of_singleton. exact (operand_free _ _ ")"%char Hl eq_refl Hx). }
  unfold operators.
  change (str "IS_EQUAL") with (op_name EVAL_OPERATOR_ISEQUAL). change (str "REGEX_MATCH") with (op_name EVAL_OPERATOR_REGEXMATCH).
  change (str "CONTAINS") with (op_name EVAL_OPERATOR_CONTAINS). change (str "STARTS_WITH") with (op_name EVAL_OPERATOR_STARTSWITH).
  change (str "ENDS_WITH") with (op_name EVAL_OPERATOR_ENDSWITH). change (str "IS_NULL") with (op_name EVAL_OPERATOR_ISNULL).
  assert (Hnone : forall op l, try_operators texts ((None, op) :: l) a = try_operators texts l a) by done.
  unfold call_atomic. destruct (c_op c) eqn:Eo; cbn [m_left m_right];
    repeat first [rewrite Hother2 by done; rewrite Hnone | rewrite Hother1 by done; rewrite Hnone | rewrite Hfound by done | rewrite Hnull by done];
    cbn [try_operators]; [rewrite substract_call2 by done; done..|rewrite substract_call1 by done; done|done].
Qed.

Lemma starts_with_head texts c :
  call_ok texts c ->
  starts_with (call_text texts c) (str "!") = negated c /\
  (if negated c then zdrop 1 (call_text texts c) else call_text texts c) = (if icase c then str "i" else []) ++ body_text texts c /\
  starts_with ((if icase c then str "i" else []) ++ body_text texts c) (str "i") = icase c /\
  (if icase c then zdrop 1 ((if icase c then str "i" else []) ++ body_text texts c) else (if icase c then str "i" else []) ++ body_text texts c) = body_text texts c.
Proof.
  intros (Hop & _). rewrite !starts_with_prefix. unfold call_text, head_text, body_text. destruct (c_op c) eqn:Eo; [..|done];
    destruct (negated c), (icase c); repeat split; try reflexivity; cbn [app op_name str String.list_ascii_of_string]; rewrite ?zdrop_drop; reflexivity.
Qed.

Lemma atomic_compile_call texts c : call_ok texts c -> atomic_compile texts (call_text texts c) = (true, call_atomic texts c).
Proof.
  intros Hok. destruct (starts_with_head _ c Hok) as (E1 & E2 & E3 & E4). unfold atomic_compile. rewrite E1, E2, E3, E4.
  rewrite try_operators_call by done. by unfold call_atomic.
Qed.

(** No call looks like the name of a subexpression. *)
Lemma call_not_sub texts c : call_ok texts c -> starts_with (call_text texts c) SUBEXPR_ = false.
Proof.
  intros (Hop & _). rewrite starts_with_prefix. unfold call_text, head_text. apply bool_decide_eq_false_2.
  destruct (c_op c) eqn:Eo; [..|done]; destruct (negated c), (icase c); cbn; congruence.
Qed.
(** The values of a side are those of its operand. *)
Lemma resolve_operand texts o (v : V) rx ic : operand_ok texts o -> resolve texts v rx ic (operand_side texts o) = operand_values v rx ic o.
Proof.
  intros Ho. unfold resolve, operand_side. destruct o as [p|n|t]; cbn [m_mode side_expr operand_values].
  - cbn [operand_text]. change 1 with (0 + 1). rewrite zdrop_succ, zdrop_le0 by lia. done.
  - done.
  - destruct Ho as [Ht Hmax]. destruct (quoted_name _ _ Ht) as (k & -> & Hk & Hlt). rewrite static_index_name by lia. by rewrite Nat2Z.id, Hk.
Qed.

Lemma evaluate_call texts c (v : V) : call_ok texts c -> atomic_evaluate texts v (call_atomic texts c) = call_meaning v c.
Proof.
  intros (Hop & Hl & Hr). unfold atomic_evaluate, call_meaning, call_atomic. cbn [m_evalOperator m_left m_right m_ignoreCase m_negativeExpression].
  rewrite resolve_operand by done. destruct (c_op c); rewrite ?resolve_operand by done; try done. 
Qed.
End Calls.
