(* ===== verification/JsonEvalTree.v ===== *)
(** * Expressions over JSON: from the text of a tree to its meaning

    detectSubExpr replaces the groups of a text one after the other; what is
    left is a list of words, calls and names of subexpressions. The section
    [Loop] is about any text made of calls; the theorem is the last. *)

From S2P Require Import Prelude CText BoostText Json JsonModel JsonEval JsonEvalSpec.

(** ** Parentheses *)

(** Texts where a parenthesis only opens after a letter, to close before
    another one opens: [n] calls. *)
Definition word_end (p : bytes) : Prop := match last p with Some c => isalnum c = true | None => False end.

Inductive flat : nat -> bytes -> Prop :=
| flat_free s : no_paren s -> flat 0 s
| flat_call n f a s : no_paren f -> word_end f -> no_paren a -> flat n s ->
    flat (S n) (f ++ str "(" ++ a ++ str ")" ++ s).

(** Texts that do not end a parenthesis open before them. *)
Definition balanced (s : bytes) : Prop :=
  forall t i level firstByte, 1 <= level -> scan (s ++ t) i level firstByte = scan t (i + zlen s) level firstByte.

Lemma no_paren_app a b : no_paren (a ++ b) <-> no_paren a /\ no_paren b.
Proof. unfold no_paren. rewrite !not_elem_of_app. tauto. Qed.

Lemma no_paren_cons c s : no_paren (c :: s) <-> (c <> "("%char /\ c <> ")"%char) /\ no_paren s.
Proof. unfold no_paren. rewrite !not_elem_of_cons. naive_solver. Qed.

Lemma word_end_after p q : word_end q -> word_end (p ++ q).
Proof. unfold word_end. rewrite last_app. by destruct (last q). Qed.

Lemma flat_after f n s : no_paren f -> flat n s -> flat n (f ++ s).
Proof.
  intros Hf Hs. destruct Hs as [s Hs|n g a s Hg Hx Ha Hs].
  - constructor. by apply no_paren_app.
  - rewrite app_assoc. constructor; [by apply no_paren_app|by apply word_end_after|done..].
Qed.

Lemma flat_app n m a b : flat n a -> flat m b -> flat (n + m) (a ++ b).
Proof.
  intros Ha Hb. induction Ha as [s Hs|n f c s Hf Hx Hc Hs IH]; [by apply flat_after|].
  rewrite <- !app_assoc. by constructor.
Qed.

Lemma scan_free f s i level fb : no_paren f -> scan (f ++ s) i level fb = scan s (i + zlen f) level fb.
Proof.
  revert i. induction f as [|c f IH]; intros i Hf; [by rewrite zlen_nil, Z.add_0_r|].
  apply no_paren_cons in Hf as [[H1 H2] Hf]. cbn [app scan]. rewrite !bool_decide_eq_false_2 by done. rewrite IH by done.
  rewrite zlen_cons. by rewrite Z.add_assoc.
Qed.

Lemma balanced_free s : no_paren s -> balanced s.
Proof. intros Hs t i level fb _. by apply scan_free. Qed.

Lemma balanced_app a b : balanced a -> balanced b -> balanced (a ++ b).
Proof. intros Ha Hb t i level fb Hl. rewrite <- app_assoc, Ha, Hb by done. by rewrite zlen_app, Z.add_assoc. Qed.

Lemma balanced_paren s : balanced s -> balanced (str "(" ++ s ++ str ")").
Proof.
  intros Hs t i level fb Hl. rewrite <- !app_assoc. change (str "(") with ["("%char]. change (str ")") with [")"%char]. cbn [app scan].
  rewrite bool_decide_eq_true_2 by done. replace (level =? 0) with false by lia. rewrite Hs by lia. cbn [app scan].
  rewrite bool_decide_eq_false_2, bool_decide_eq_true_2 by done. replace (level + 1 =? 0) with false by lia. replace (level + 1 =? 1) with false by lia.
  f_equal; [|lia]. rewrite zlen_cons, zlen_app. change (zlen [")"%char]) with 1. lia.
Qed.

(** The first parenthesis of a text. *)
Lemma scan_group f s rest i :
  no_paren f -> balanced s ->
  scan (f ++ str "(" ++ s ++ str ")" ++ rest) i 0 0 = Between (i + zlen f) (i + zlen f + 1 + zlen s).
Proof.
  intros Hf Hs. rewrite scan_free by done. change (str "(") with ["("%char]. change (str ")") with [")"%char]. cbn [app scan].
  rewrite bool_decide_eq_true_2 by done. cbn [Z.eqb]. rewrite Hs by lia. cbn [app scan].
  by rewrite bool_decide_eq_false_2, bool_decide_eq_true_2.
Qed.

(** ** No group begins in a call *)

(** After an opening parenthesis of a flat text the next one closes. *)
Fixpoint next_paren (s : bytes) : option ascii :=
  match s with
  | [] => None
  | c :: s => if bool_decide (c = "("%char) || bool_decide (c = ")"%char) then Some c else next_paren s
  end.

Lemma next_paren_free f s : no_paren f -> next_paren (f ++ s) = next_paren s.
Proof.
  induction f as [|c f IH]; intros Hf; [done|]. apply no_paren_cons in Hf as [[H1 H2] Hf]. cbn [app next_paren].
  rewrite !bool_decide_eq_false_2 by done. by apply IH.
Qed.

Lemma flat_next n a : flat n a -> forall s p b, a ++ s = p ++ "("%char :: b -> (length p < length a)%nat -> next_paren b = Some ")"%char.
Proof.
  assert (Hskip : forall (f : bytes) s p b, no_paren f -> f ++ s = p ++ "("%char :: b -> exists q, p = f ++ q /\ s = q ++ "("%char :: b).
  { induction f as [|c f IH]; intros s p b Hf He; [by exists p|]. apply no_paren_cons in Hf as [[H1 _] Hf].
    destruct p as [|d p]; [by injection He as -> _|]. injection He as -> He. destruct (IH _ _ _ Hf He) as (q & -> & ->). by exists q. }
  induction 1 as [f Hf|n f c t Hf Hx Hc Ht IH]; intros s p b He Hlen.
  - destruct (Hskip _ _ _ _ Hf He) as (q & -> & _). rewrite length_app in Hlen. lia.
  - rewrite <- !app_assoc in He. destruct (Hskip _ _ _ _ Hf He) as (q & -> & He').
    change (str "(") with ["("%char] in He'. cbn [app] in He'. destruct q as [|z q].
    + injection He' as <-. rewrite next_paren_free by done. done.
    + injection He' as <- He'. destruct (Hskip _ _ _ _ Hc He') as (r & -> & He2). change (str ")") with [")"%char] in He2.
      destruct r as [|w r]; [done|]. injection He2 as <- He2. apply (IH s r b); [done|].
      repeat (rewrite length_app in Hlen || cbn in Hlen). lia.
Qed.

(** A group is the first place of its text. *)
Lemma group_first n a s : flat n a -> next_paren (s ++ str ")") = Some "("%char -> first_at a (str "(" ++ s ++ str ")").
Proof.
  intros Ha Hs a' b' He. destruct (decide (length a' < length a)%nat) as [Hlt|Hge].
  - exfalso. change (str "(") with ["("%char] in He. cbn [app] in He. pose proof (flat_next _ _ Ha _ _ _ He Hlt) as Hn.
    clear He. revert Hs Hn. generalize (s ++ str ")"). intros t. induction t as [|c t IH]; [done|]. cbn [app next_paren]. destruct (_ || _); [congruence|done].
  - apply (f_equal length) in He. rewrite !length_app in He. destruct b'; [done|]. cbn in He. lia.
Qed.

Lemma first_at_snoc a c p : first_at (a ++ [c]) p -> first_at a (c :: p).
Proof. intros Hf a' b' He. apply (Hf (a' ++ [c])). by rewrite <- !app_assoc. Qed.

(** ** The loop over the groups *)

Definition bang (negative : bool) : bytes := if negative then str "!" else [].
Definition group_text (negative : bool) (s : bytes) : bytes := bang negative ++ str "(" ++ s ++ str ")".

(** What may be before a group that is not negated. *)
Definition may_open (p : bytes) : Prop := match last p with Some c => isalnum c = false /\ c <> "!"%char | None => True end.

Section Loop.
Context {V : Type} `{JsonCpp V, JsonPath V} {R : Type} `{BoostExprLaws R, BoostLaws, BoostSearchLaws}.
Variable sub_new : list bytes -> bool -> bytes -> res (list bytes * JSONEval).

Lemma detect_end pre s texts subs :
  no_paren s -> detectSubExpr sub_new (zlen pre) (mkCompiling (pre ++ s) texts subs) = Ret (zlen (pre ++ s), mkCompiling (pre ++ s) texts subs).
Proof. intros Hs. unfold detectSubExpr. cbn [c_expr]. rewrite zdrop_length_app. rewrite <- (app_nil_r s) at 1. by rewrite scan_free. Qed.

(** What the function sees of a parenthesis that opens after [p]. *)
Lemma detect_paren pre f s rest texts subs :
  no_paren f -> balanced s ->
  let x := mkCompiling (pre ++ f ++ str "(" ++ s ++ str ")" ++ rest) texts subs in
  detectSubExpr sub_new (zlen pre) x =
  match last (pre ++ f) with
  | Some c => if isalnum c then Ret (zlen (pre ++ f) + 1 + zlen s + 1, x)
              else if bool_decide (c = "!"%char) then let? y := add_sub sub_new x true s (str "!(" ++ s ++ str ")") in Ret (0, y)
              else let? y := add_sub sub_new x false s (str "(" ++ s ++ str ")") in Ret (0, y)
  | None => let? y := add_sub sub_new x false s (str "(" ++ s ++ str ")") in Ret (0, y)
  end.
Proof.
  intros Hf Hs x. unfold detectSubExpr. subst x. cbn [c_expr]. rewrite zdrop_length_app, scan_group by done. rewrite <- zlen_app.
  replace (zlen (pre ++ f) + 1 + zlen s - zlen (pre ++ f) - 1) with (zlen s) by lia.
  assert (Hsub : slice (zlen (pre ++ f) + 1) (zlen s) (pre ++ f ++ str "(" ++ s ++ str ")" ++ rest) = s).
  { unfold slice. rewrite app_assoc, zdrop_app_ge by lia. replace (zlen (pre ++ f) + 1 - zlen (pre ++ f)) with (0 + 1) by lia.
    change (str "(") with ["("%char]. cbn [app]. rewrite zdrop_succ, zdrop_le0 by lia. by rewrite ztake_length_app. }
  rewrite Hsub. assert (Hbefore : (if 0 <? zlen (pre ++ f) then (pre ++ f ++ str "(" ++ s ++ str ")" ++ rest) !! Z.to_nat (zlen (pre ++ f) - 1) else None) = last (pre ++ f)).
  { rewrite app_assoc. generalize (pre ++ f). intros p. destruct p as [|c p _] using rev_ind; [done|].
    rewrite last_snoc. replace (0 <? _) with true by (rewrite zlen_app; change (zlen [c]) with 1; pose proof (zlen_nonneg p); lia).
    replace (Z.to_nat (zlen (p ++ [c]) - 1)) with (length p) by (unfold zlen; rewrite length_app; cbn; lia).
    rewrite <- app_assoc, lookup_app_r, Nat.sub_diag by lia. done. }
  by rewrite Hbefore.
Qed.

(** A call is left where it is. *)
Lemma detect_call pre f a rest texts subs :
  no_paren f -> word_end f -> no_paren a ->
  let call := f ++ str "(" ++ a ++ str ")" in
  let x := mkCompiling (pre ++ call ++ rest) texts subs in
  detectSubExpr sub_new (zlen pre) x = Ret (zlen (pre ++ call), x).
Proof.
  intros Hf Hx Ha call x. subst x call. rewrite <- !app_assoc, detect_paren by (try apply balanced_free; done).
  pose proof (word_end_after pre f Hx) as Hend. unfold word_end in Hend. destruct (last (pre ++ f)); [|done]. rewrite Hend.
  do 2 f_equal. rewrite !zlen_app. change (zlen (str "(")) with 1. change (zlen (str ")")) with 1. lia.
Qed.

(** The end is reached after the calls. *)
Lemma loop_end n s fuel pre texts subs :
  flat n s -> (n < fuel)%nat ->
  detect_loop sub_new fuel (zlen pre) (mkCompiling (pre ++ s) texts subs) = Ret (true, mkCompiling (pre ++ s) texts subs).
Proof.
  intros Hs. revert fuel pre. induction Hs as [s Hs|n f a s Hf Hx Ha Hs IH]; intros [|fuel] pre Hn; [lia| |lia|]; cbn [detect_loop].
  - rewrite detect_end by done. cbn. by rewrite Z.eqb_refl.
  - replace (f ++ str "(" ++ a ++ str ")" ++ s) with ((f ++ str "(" ++ a ++ str ")") ++ s) by (by rewrite <- !app_assoc).
    rewrite detect_call by done. cbn [res_bind c_expr]. set (call := f ++ str "(" ++ a ++ str ")").
    destruct (zlen (pre ++ call) =? zlen (pre ++ call ++ s)); [done|].
    replace (_ =? _ + 1) with false by (rewrite app_assoc, (zlen_app (pre ++ call)); pose proof (zlen_nonneg s); lia).
    rewrite app_assoc. apply IH. lia.
Qed.

Lemma add_group p negative s rest texts subs texts' e :
  first_at (p ++ bang negative) (str "(" ++ s ++ str ")") -> sub_new texts negative s = Ret (texts', e) ->
  add_sub sub_new (mkCompiling (p ++ group_text negative s ++ rest) texts subs) negative s (group_text negative s) =
  Ret (mkCompiling (p ++ subexpr_name (zlen subs) ++ rest) texts' (subs ++ [e])).
Proof.
  intros Hfirst Hnew. unfold add_sub. cbn [c_expr c_texts c_subs]. rewrite Hnew. cbn [res_bind fst snd].
  rewrite replace_once_first; [done|by destruct negative|]. unfold group_text. destruct negative; cbn [bang] in *.
  - by apply first_at_snoc.
  - by rewrite app_nil_r in Hfirst.
Qed.

Lemma subexpr_name_cons k : exists s, subexpr_name k = "_"%char :: s.
Proof. unfold subexpr_name. rewrite ztake_app_ge by (vm_compute; done). by eexists. Qed.

(** A group is replaced, and the function answers 0. *)
Lemma detect_group pre f negative s rest texts subs texts' e :
  no_paren f -> balanced s -> may_open (pre ++ f) -> first_at ((pre ++ f) ++ bang negative) (str "(" ++ s ++ str ")") ->
  sub_new texts negative s = Ret (texts', e) ->
  detectSubExpr sub_new (zlen pre) (mkCompiling (pre ++ f ++ group_text negative s ++ rest) texts subs) =
  Ret (0, mkCompiling (pre ++ f ++ subexpr_name (zlen subs) ++ rest) texts' (subs ++ [e])).
Proof.
  intros Hf Hs Hopen Hfirst Hnew. pose proof (add_group (pre ++ f) negative s rest texts subs texts' e Hfirst Hnew) as Hadd.
  rewrite <- !app_assoc in Hadd.
  assert (E : pre ++ f ++ group_text negative s ++ rest = pre ++ (f ++ bang negative) ++ str "(" ++ s ++ str ")" ++ rest)
    by (unfold group_text; by rewrite <- !app_assoc).
  assert (Hbang : no_paren (f ++ bang negative)) by (apply no_paren_app; split; [done|]; destruct negative; vm_compute; split; set_solver).
  rewrite E in *. rewrite detect_paren by done.
  rewrite (app_assoc pre f (bang negative)). unfold group_text in Hadd. destruct negative; cbn [bang app] in *.
  - rewrite last_app. change (last (str "!")) with (Some "!"%char). change (isalnum "!"%char) with false. cbv iota.
    rewrite bool_decide_eq_true_2 by done.
    change (str "!(" ++ s ++ str ")") with (str "!" ++ str "(" ++ s ++ str ")"). by rewrite Hadd.
  - rewrite ?app_nil_r in *. rewrite ?(app_nil_r f). unfold may_open in Hopen. destruct (last (pre ++ f)) as [c|]; [|by rewrite Hadd].
    destruct Hopen as [-> Hc]. rewrite bool_decide_eq_false_2 by done. by rewrite Hadd.
Qed.

(** A group after some calls is replaced, and the loop starts again. *)
Lemma loop_group n a fuel pre negative s rest texts subs texts' e :
  flat n a -> balanced s -> may_open (pre ++ a) -> first_at ((pre ++ a) ++ bang negative) (str "(" ++ s ++ str ")") ->
  sub_new texts negative s = Ret (texts', e) ->
  detect_loop sub_new (S n + fuel) (zlen pre) (mkCompiling (pre ++ a ++ group_text negative s ++ rest) texts subs) =
  detect_loop sub_new fuel 0 (mkCompiling (pre ++ a ++ subexpr_name (zlen subs) ++ rest) texts' (subs ++ [e])).
Proof.
  intros Ha Hs. revert pre. induction Ha as [f Hf|n f c t Hf Hx Hc Ht IH]; intros pre Hopen Hfirst Hnew.
  - cbn [Nat.add detect_loop]. rewrite (detect_group _ _ _ _ _ _ _ texts' e) by done. cbn [res_bind c_expr].
    replace (0 =? zlen _) with false; [replace (0 =? _) with false; [done|]|];
      destruct (subexpr_name_cons (zlen subs)) as [m ->]; rewrite !zlen_app, zlen_cons;
      pose proof (zlen_nonneg pre); pose proof (zlen_nonneg f); pose proof (zlen_nonneg m); pose proof (zlen_nonneg rest); lia.
  - set (call := f ++ str "(" ++ c ++ str ")").
    assert (E : forall r, (f ++ str "(" ++ c ++ str ")" ++ t) ++ r = call ++ t ++ r) by (intros r; unfold call; by rewrite <- !app_assoc).
    assert (E0 : f ++ str "(" ++ c ++ str ")" ++ t = call ++ t) by (unfold call; by rewrite <- !app_assoc).
    rewrite !E. change (S (S n) + fuel)%nat with (S (S n + fuel)). cbn [detect_loop]. subst call. rewrite detect_call by done. cbn [res_bind c_expr].
    set (call := f ++ str "(" ++ c ++ str ")") in *. rewrite E0, app_assoc in Hopen. rewrite E0, (app_assoc pre) in Hfirst.
    rewrite (app_assoc pre).
    assert (Hpos : zlen (pre ++ call) < zlen ((pre ++ call) ++ t ++ group_text negative s ++ rest)).
    { rewrite (zlen_app (pre ++ call)). unfold group_text. rewrite !zlen_app. change (zlen (str "(")) with 1. pose proof (zlen_nonneg t).
      pose proof (zlen_nonneg s). pose proof (zlen_nonneg rest). pose proof (zlen_nonneg (bang negative)). change (zlen (str ")")) with 1. lia. }
    replace (zlen (pre ++ call) =? zlen _) with false by lia. replace (zlen (pre ++ call) =? zlen _ + 1) with false by lia.
    rewrite IH by done. by rewrite <- (app_assoc pre).
Qed.
End Loop.

(** ** Words *)

(** A tree as it is written, or the name that replaces a group. *)
Inductive word : Type := Todo (t : tree) | Sub (k : Z).
Definition word_text (texts : list bytes) (w : word) : bytes := match w with Todo t => tree_text texts t | Sub k => subexpr_name k end.

(** The groups of a list get the numbers from [k]. *)
Fixpoint numbered (k : Z) (l : list tree) : list word :=
  match l with
  | [] => []
  | Call c :: l => Todo (Call c) :: numbered k l
  | Group _ _ _ :: l => Sub k :: numbered (k + 1) l
  end.

(** The words that the loop has passed: calls and names. *)
Definition passed (texts : list bytes) (w : word) : Prop :=
  match w with Todo (Call c) => call_ok texts c | Todo (Group _ _ _) => False | Sub k => 0 <= k end.
Definition is_call (w : word) : nat := match w with Todo (Call _) => 1 | _ => 0 end.
Definition calls (l : list word) : nat := sum_list_with is_call l.
Definition groups (l : list tree) : nat := sum_list_with (fun t => match t with Call _ => 0 | Group _ _ _ => 1 end)%nat l.

(** A list of words, and the places before and after one of them. *)
Definition before (sep : bytes) (ws : list bytes) : bytes := concat (map (fun w => w ++ sep) ws).
Definition after (sep : bytes) (ws : list bytes) : bytes := concat (map (app sep) ws).

Lemma join_after sep w ws : join sep (w :: ws) = w ++ after sep ws.
Proof. revert w. induction ws as [|v ws IH]; intros w; [by rewrite app_nil_r|]. change (join sep (w :: v :: ws)) with (w ++ sep ++ join sep (v :: ws)). rewrite IH. unfold after. cbn. by rewrite <- !app_assoc. Qed.

Lemma join_at sep ws w ws' : join sep (ws ++ w :: ws') = before sep ws ++ w ++ after sep ws'.
Proof.
  induction ws as [|v ws IH]; [apply join_after|]. cbn [app]. replace (join sep (v :: ws ++ w :: ws')) with (v ++ sep ++ join sep (ws ++ w :: ws')) by (by destruct ws).
  rewrite IH. unfold before. cbn. by rewrite <- !app_assoc.
Qed.

Lemma connective_free all : no_paren (connective all).
Proof. destruct all; vm_compute; split; set_solver. Qed.

Lemma digits_no_paren s : forallb isdigit s = true -> no_paren s.
Proof. intros Hs. split; by eapply not_in_chars. Qed.

Lemma subexpr_name_all k : 0 <= k <= SIZE_MAX -> subexpr_name k = SUBEXPR_ ++ to_string k.
Proof.
  intros Hk. unfold subexpr_name. apply ztake_ge. rewrite zlen_app. change (zlen SUBEXPR_) with 9.
  pose proof (to_string_length k). lia.
Qed.

Lemma name_no_paren k : 0 <= k -> no_paren (subexpr_name k).
Proof.
  intros Hk. unfold subexpr_name. rewrite ztake_app_ge by (vm_compute; done). apply no_paren_app. split; [vm_compute; split; set_solver|].
  apply digits_no_paren. rewrite ztake_take. pose proof (to_string_digits k Hk) as Hd. rewrite forallb_forall in *. intros c Hc. apply Hd.
  apply list_elem_of_In. apply list_elem_of_In in Hc. by apply elem_of_take in Hc as (i & Hi & _); eapply list_elem_of_lookup_2.
Qed.

Lemma operand_no_paren texts o : operand_ok texts o -> no_paren (operand_text texts o).
Proof. intros Ho. split; by eapply operand_free. Qed.

Lemma args_no_paren texts c : call_ok texts c -> no_paren (args_text texts c).
Proof.
  intros (_ & Hl%operand_no_paren & Hr%operand_no_paren). assert (Hc : no_paren (str ",")) by (vm_compute; split; set_solver).
  unfold args_text. by destruct (c_op c); rewrite ?no_paren_app.
Qed.

Lemma head_no_paren texts c : call_ok texts c -> no_paren (head_text c) /\ word_end (head_text c).
Proof.
  intros (Hop & _). unfold head_text. split.
  - destruct (negated c), (icase c), (c_op c); vm_compute; split; set_solver.
  - apply word_end_after, word_end_after. by destruct (c_op c).
Qed.

Lemma call_flat texts c : call_ok texts c -> flat 1 (call_text texts c).
Proof.
  intros Hc. destruct (head_no_paren _ _ Hc) as [Hh He]. unfold call_text. rewrite <- (app_nil_r (str ")")).
  apply flat_call; [done|done|by eapply args_no_paren|]. constructor. vm_compute; split; set_solver.
Qed.

Lemma before_flat texts all ws : Forall (passed texts) ws -> flat (calls ws) (before (connective all) (map (word_text texts) ws)).
Proof.
  induction 1 as [|w ws Hw _ IH]; [constructor; vm_compute; split; set_solver|]. unfold before. cbn [map concat].
  apply (flat_app (is_call w) (calls ws)); [|exact IH]. destruct w as [[c|]|k]; [|done|]; cbn [word_text tree_text is_call passed] in *.
  - apply (flat_app 1 0); [by eapply call_flat|]. constructor. apply connective_free.
  - constructor. apply no_paren_app. split; [by apply name_no_paren|apply connective_free].
Qed.

Lemma before_may_open all ws : may_open (before (connective all) ws).
Proof.
  unfold may_open, before. destruct ws as [|w ws _] using rev_ind; [done|]. rewrite map_app, concat_app. cbn. rewrite app_nil_r, !last_app.
  by destruct all.
Qed.

(** ** The whole loop *)

Section Detect.
Context {V : Type} `{JsonCpp V, JsonPath V} {R : Type} `{BoostExprLaws R, BoostLaws, BoostSearchLaws}.
Variable sub_new : list bytes -> bool -> bytes -> res (list bytes * JSONEval).
Variables (texts : list bytes) (all : bool).

(** What the groups of a list give, in their order. *)
Fixpoint subs_of (l : list tree) (es : list JSONEval) : Prop :=
  match l with
  | [] => es = []
  | Call _ :: l => subs_of l es
  | Group n a items :: l => exists e es', es = e :: es' /\ sub_new texts n (list_text texts a items) = Ret (texts, e) /\ subs_of l es'
  end.

Definition group_ok (t : tree) : Prop :=
  match t with
  | Call c => call_ok texts c
  | Group _ a items => balanced (list_text texts a items) /\ next_paren (list_text texts a items ++ str ")") = Some "("%char
  end.

Definition words_text (ws : list word) : bytes := join (connective all) (map (word_text texts) ws).

Lemma words_flat ws : Forall (passed texts) ws -> flat (calls ws) (words_text ws).
Proof.
  intros Hws. destruct ws as [|w ws _] using rev_ind; [constructor; vm_compute; split; set_solver|].
  apply Forall_app in Hws as [Hws Hw]. inversion Hw as [|? ? Hw0 _]; subst. unfold words_text. rewrite map_app. cbn [map]. rewrite join_at. unfold after. cbn [map concat]. rewrite app_nil_r.
  unfold calls. rewrite sum_list_with_app. apply flat_app; [by eapply before_flat|]. cbn [sum_list_with]. rewrite Nat.add_0_r.
  destruct w as [[c|]|k]; [by eapply call_flat|done|]. constructor. by apply name_no_paren.
Qed.

Lemma detect_all l : forall ws subs es fuel,
  Forall (passed texts) ws -> Forall group_ok l -> subs_of l es ->
  ((calls ws + calls (map Todo l) + 1) * (groups l + 1) <= fuel)%nat ->
  detect_loop sub_new fuel 0 (mkCompiling (words_text (ws ++ map Todo l)) texts subs) =
  Ret (true, mkCompiling (words_text (ws ++ numbered (zlen subs) l)) texts (subs ++ es)).
Proof.
  induction l as [|[c|n a items] l IH]; intros ws subs es fuel Hws Hl Hes Hfuel.
  - cbn in Hes, Hfuel. subst. cbn [map numbered]. rewrite !app_nil_r. change 0 with (zlen (@nil ascii)).
    apply (loop_end sub_new (calls ws) (words_text ws) fuel []); [by apply words_flat|]. unfold calls in *. lia.
  - inversion Hl as [|? ? Hc Hl']; subst. cbn [map numbered subs_of] in *.
    change (ws ++ Todo (Call c) :: map Todo l) with (ws ++ [Todo (Call c)] ++ map Todo l).
    change (ws ++ Todo (Call c) :: numbered (zlen subs) l) with (ws ++ [Todo (Call c)] ++ numbered (zlen subs) l). rewrite !app_assoc.
    apply IH; [by apply Forall_app; split; [|constructor]|done|done|]. unfold calls, groups in *. rewrite sum_list_with_app. cbn [sum_list_with is_call] in *. nia.
  - inversion Hl as [|? ? Hg Hl']; subst. cbn [group_ok] in Hg. destruct Hg as [Hbal Hnext]. cbn [map numbered subs_of] in *. destruct Hes as (e & es' & -> & Hnew & Hes).
    unfold words_text at 1. rewrite map_app. cbn [map word_text]. rewrite join_at.
    set (A := before (connective all) (map (word_text texts) ws)). set (B := after _ _).
    assert (HA : flat (calls ws) A) by (by eapply before_flat).
    assert (Hbang : flat (calls ws) (A ++ bang n)).
    { replace (calls ws) with (calls ws + 0)%nat by lia. apply flat_app; [done|]. constructor. destruct n; vm_compute; split; set_solver. }
    destruct (Nat.le_exists_sub (S (calls ws)) fuel) as (fuel' & -> & _); [unfold calls, groups in *; cbn [sum_list_with is_call] in *; nia|].
    rewrite Nat.add_comm. change 0 with (zlen (@nil ascii)).
    pose proof (loop_group sub_new (calls ws) A fuel' [] n (list_text texts a items) B texts subs texts e HA Hbal (before_may_open _ _) (group_first _ _ _ Hbang Hnext) Hnew) as Hstep.
    cbn [app] in Hstep. change (tree_text texts (Group n a items)) with (group_text n (list_text texts a items)). etransitivity; [exact Hstep|].
    assert (E : forall r, words_text (ws ++ Sub (zlen subs) :: r) = A ++ subexpr_name (zlen subs) ++ after (connective all) (map (word_text texts) r)).
    { intros r. unfold words_text. rewrite map_app. cbn [map word_text]. by rewrite join_at. }
    specialize (E (map Todo l)) as E'. unfold B. rewrite <- E'.
    change (ws ++ Sub (zlen subs) :: map Todo l) with (ws ++ [Sub (zlen subs)] ++ map Todo l).
    change (ws ++ Sub (zlen subs) :: numbered (zlen subs + 1) l) with (ws ++ [Sub (zlen subs)] ++ numbered (zlen subs + 1) l). rewrite !app_assoc.
    replace (subs ++ e :: es') with ((subs ++ [e]) ++ es') by (by rewrite <- app_assoc).
    replace (zlen subs + 1) with (zlen (subs ++ [e])) by (by rewrite zlen_app).
    apply IH; [|done|done|].
    + apply Forall_app; split; [done|]. constructor; [cbn; apply zlen_nonneg|constructor].
    + unfold calls, groups in *. rewrite sum_list_with_app. cbn [sum_list_with is_call] in *. nia.
Qed.
End Detect.

(** ** The items of the text that is left *)

(** None of the characters that join the items. *)
Definition solid (s : bytes) : Prop := free_of [" "; "&"; "|"; LF]%char s.

Lemma solid_app a b : solid (a ++ b) <-> solid a /\ solid b.
Proof. apply free_of_app. Qed.

Lemma solid_not c s : solid s -> c ∈ [" "; "&"; "|"; LF]%char -> c ∉ s.
Proof. unfold solid, free_of. rewrite Forall_forall. intros Hs Hc Hin. exact (Hs c Hin Hc). Qed.

Lemma solid_chars (f : ascii -> bool) s : forallb f s = true -> forallb (fun c => negb (f c)) [" "; "&"; "|"; LF]%char = true -> solid s.
Proof.
  intros Hs Hf. apply Forall_forall. intros c Hc%list_elem_of_In Hin%list_elem_of_In. rewrite forallb_forall in Hs, Hf.
  specialize (Hs c Hc). specialize (Hf c Hin). by rewrite Hs in Hf.
Qed.

Lemma operand_solid texts o : operand_ok texts o -> solid (operand_text texts o).
Proof. intros Ho. by apply (solid_chars operand_char); [eapply operand_chars|]. Qed.

Lemma call_solid texts c : call_ok texts c -> solid (call_text texts c).
Proof.
  intros (Hop & Hl%operand_solid & Hr%operand_solid). unfold call_text, head_text, args_text. rewrite !solid_app. repeat split.
  1-3: apply free_of_checked; by destruct (negated c), (icase c), (c_op c).
  1,3: by apply free_of_checked.
  destruct (c_op c); rewrite ?solid_app; repeat split; try done; by apply free_of_checked.
Qed.

Lemma name_solid k : 0 <= k <= SIZE_MAX -> solid (subexpr_name k).
Proof.
  intros Hk. rewrite subexpr_name_all by done. apply solid_app. split; [by apply free_of_checked|].
  apply (solid_chars isdigit); [apply to_string_digits; lia|done].
Qed.

(** A text that is joined contains its connective, and what replaces it joins
    the same words. *)
Lemma occurs_infix s p : occurs s p = true <-> infix_of p s.
Proof. apply contains_run_infix. Qed.

Lemma occurs_not s p c : c ∈ p -> c ∉ s -> occurs s p = false.
Proof.
  intros Hp Hs. apply not_true_iff_false. rewrite occurs_infix. intros (a & b & ->). apply Hs. rewrite !elem_of_app. tauto.
Qed.

Lemma join_not c (sep : bytes) ws : c ∉ sep -> Forall (fun w => c ∉ w) ws -> c ∉ join sep ws.
Proof.
  intros Hc. induction 1 as [|w ws Hw Hws IH]; [by apply not_elem_of_nil|]. destruct ws; [done|].
  change (join sep (w :: l :: ws)) with (w ++ sep ++ join sep (l :: ws)). rewrite !not_elem_of_app. done.
Qed.

(** A connective is first at its place after a word without spaces. *)
Lemma connective_first all w : solid w -> first_at w (connective all).
Proof.
  intros Hw a b He. destruct (decide (length a < length w)%nat) as [Hlt|Hge].
  - exfalso. apply (solid_not " "%char w Hw); [by left|].
    assert (Hc : (w ++ connective all) !! length a = Some " "%char) by (rewrite He, lookup_app_r, Nat.sub_diag by lia; by destruct all).
    rewrite lookup_app_l in Hc by done. by eapply list_elem_of_lookup_2.
  - apply (f_equal length) in He. rewrite !length_app in He. destruct b; [done|]. cbn in He. lia.
Qed.

Section Items.
Context {V : Type} `{JsonCpp V, JsonPath V} {R : Type} `{BoostExprLaws R, BoostLaws, BoostSearchLaws}.
Variables (texts : list bytes) (all : bool).

Lemma replace_connective ws : Forall solid ws -> replace_all (join (connective all) ws) (connective all) NEWLINE = join NEWLINE ws.
Proof.
  induction 1 as [|w ws Hw Hws IH].
  { apply replace_none. rewrite <- contains_run_infix. by destruct all. }
  destruct ws as [|v ws].
  - apply replace_none. rewrite <- contains_run_infix. change (contains_run w ?p) with (occurs w p).
    rewrite (occurs_not w _ " "%char); [done|by destruct all; left|]. apply (solid_not _ _ Hw). by left.
  - change (join (connective all) (w :: v :: ws)) with (w ++ connective all ++ join (connective all) (v :: ws)).
    rewrite replace_first; [|by destruct all|by apply connective_first]. by rewrite IH.
Qed.

Lemma split_items ws : ws <> [] -> Forall solid ws -> split_each NEWLINE (join NEWLINE ws) = ws.
Proof.
  assert (Hlf : forall w, solid w -> free_of NEWLINE w).
  { intros w Hw. apply Forall_forall. intros c Hc ->%list_elem_of_singleton. revert Hc. apply (solid_not _ _ Hw). do 3 right. by left. }
  intros Hne Hws. destruct ws as [|w ws]; [done|]. clear Hne. revert w Hws. induction ws as [|v ws IH]; intros w Hws; inversion Hws as [|? ? Hw Hr]; subst.
  - apply split_each_one. by apply Hlf.
  - change (join NEWLINE (w :: v :: ws)) with (w ++ LF :: join NEWLINE (v :: ws)). rewrite split_each_at; [by rewrite IH|by apply Hlf|by left].
Qed.

Definition word_atom (w : word) : AtomicExpression + Z := match w with Todo (Call c) => inl (call_atomic texts c) | Todo _ => inr 0 | Sub k => inr k end.

Definition word_ok (subs : Z) (w : word) : Prop :=
  match w with Todo (Call c) => call_ok texts c | Todo (Group _ _ _) => False | Sub k => 0 <= k < subs end.

Lemma items_words subs mode ws done_ :
  subs <= SIZE_MAX -> Forall (word_ok subs) ws -> items texts subs mode (map (word_text texts) ws) done_ = (None, mode, done_ ++ map word_atom ws).
Proof.
  intros Hsubs Hws. revert done_. induction Hws as [|w ws Hw _ IH]; intros done_; [by rewrite app_nil_r|].
  cbn [map items]. destruct w as [[c|]|k]; [|done|]; cbn [word_text tree_text word_atom word_ok] in *.
  - rewrite (call_not_sub texts) by done. rewrite atomic_compile_call by done. rewrite IH. by rewrite <- app_assoc.
  - rewrite subexpr_name_all by lia. rewrite starts_with_prefix, take_app_length, bool_decide_eq_true_2 by done.
    change 9 with (zlen SUBEXPR_). rewrite zdrop_length_app. rewrite c_str_dec by (unfold to_string; replace (k <? 0) with false by lia; apply dec_digits_chars; [lia|constructor]).
    rewrite strtoul_to_string by (unfold SIZE_MAX in Hsubs; lia). replace (k >=? subs) with false by lia. rewrite IH. by rewrite <- app_assoc.
Qed.

Definition mode_of (n : nat) : eEvalMode := if all && (2 <=? n)%nat then EVAL_MODE_AND else EVAL_MODE_OR.

Lemma occurs_connective b ws : Forall solid ws -> occurs (join (connective all) ws) (connective b) = Bool.eqb all b && (2 <=? length ws)%nat.
Proof.
  intros Hws. destruct ws as [|w [|v ws]]; [by destruct all, b| |]; cbn [length Nat.leb].
  - inversion Hws as [|? ? Hw _]; subst. rewrite andb_false_r. apply (occurs_not _ _ " "%char); [destruct b; by left|].
    apply (solid_not _ _ Hw). by left.
  - rewrite andb_true_r. destruct (Bool.eqb all b) eqn:E.
    + apply eqb_prop in E as <-. apply occurs_infix. exists w. eexists. reflexivity.
    + assert (Hc : exists c, c ∈ connective b /\ c ∉ connective all /\ c ∈ [" "; "&"; "|"; LF]%char).
      { exists (if b then "&"%char else "|"%char). destruct all, b; try done; vm_compute; set_solver. }
      destruct Hc as (c & Hb & Ha & Hin). apply (occurs_not _ _ c); [done|]. apply join_not; [done|].
      eapply Forall_impl; [exact Hws|]. intros u Hu. by apply (solid_not _ _ Hu).
Qed.

Lemma word_solid subs w : subs <= SIZE_MAX -> word_ok subs w -> solid (word_text texts w).
Proof. intros Hs. destruct w as [[c|]|k]; [apply call_solid|done|]. intros Hk. apply name_solid. cbn in Hk. lia. Qed.

Lemma replaced_words ws :
  Forall solid ws -> (if all && (2 <=? length ws)%nat then replace_all (join (connective all) ws) AND_ NEWLINE else replace_all (join (connective all) ws) OR_ NEWLINE) = join NEWLINE ws.
Proof.
  intros Hws. change AND_ with (connective true). change OR_ with (connective false). destruct ws as [|w [|v ws]]; cbn [length Nat.leb].
  - rewrite andb_false_r. by apply replace_none; rewrite <- occurs_infix.
  - rewrite andb_false_r. apply replace_none. rewrite <- occurs_infix. change (join _ [w]) with w. inversion Hws as [|? ? Hw _]; subst.
    rewrite (occurs_not _ _ " "%char); [done|by left|]. apply (solid_not _ _ Hw). by left.
  - rewrite andb_true_r, <- replace_connective by done. by destruct all.
Qed.

Lemma compile_words negative ws subs :
  ws <> [] -> zlen subs <= SIZE_MAX -> Forall (word_ok (zlen subs)) ws ->
  compile_items negative (mkCompiling (words_text texts all ws) texts subs) =
  mkEval negative (mode_of (length ws)) subs (map word_atom ws) true [].
Proof.
  intros Hne Hsubs Hws. assert (Hsolid : Forall solid (map (word_text texts) ws)).
  { apply Forall_fmap. eapply Forall_impl; [exact Hws|]. intros w. by apply word_solid. }
  pose proof (occurs_connective true _ Hsolid) as Hand. pose proof (occurs_connective false _ Hsolid) as Hor.
  pose proof (replaced_words _ Hsolid) as Hrep. rewrite length_map in *. change (connective true) with AND_ in Hand. change (connective false) with OR_ in Hor.
  assert (Hspace : occurs (join NEWLINE (map (word_text texts) ws)) (str " ") = false).
  { apply (occurs_not _ _ " "%char); [by left|]. apply join_not; [vm_compute; set_solver|]. eapply Forall_impl; [exact Hsolid|].
    intros u Hu. apply (solid_not _ _ Hu). by left. }
  assert (Hsplit : split_each NEWLINE (join NEWLINE (map (word_text texts) ws)) = map (word_text texts) ws) by (apply split_items; [by destruct ws|done]).
  unfold compile_items. cbn [c_expr c_texts c_subs]. unfold words_text. rewrite Hand, Hor.
  replace (Bool.eqb all true) with all by (by destruct all). replace (_ && (Bool.eqb all false && _)) with false by (by destruct all, (2 <=? _)%nat).
  rewrite Hrep, Hspace, Hsplit. rewrite items_words by done. cbn [app]. unfold mode_of. reflexivity.
Qed.
End Items.

(** ** Evaluating the items *)

Section Evaluation.
Context {V : Type} `{JsonCpp V, JsonPath V} {R : Type} `{BoostExprLaws R, BoostLaws, BoostSearchLaws}.
Variables (texts : list bytes) (values : V).

(** A subexpression for each group, with its meaning. *)
Fixpoint subs_mean (l : list tree) (es : list JSONEval) : Prop :=
  match l with
  | [] => es = []
  | Call _ :: l => subs_mean l es
  | Group _ _ _ as t :: l => exists e es', es = e :: es' /\ evaluate texts values e = meaning values t /\ subs_mean l es'
  end.

Definition atom_value (subs : list (res bool)) (i : AtomicExpression + Z) : res bool :=
  match i with
  | inl a => atomic_evaluate texts values a
  | inr pos => default (Exc (undefined "beyond the end of a vector")) (subs !! Z.to_nat pos)
  end.

Lemma numbered_values l : forall first es,
  Forall (tree_ok texts) l -> subs_mean l es ->
  map (atom_value (map (evaluate texts values) (first ++ es))) (map (word_atom texts) (numbered (zlen first) l)) = map (meaning values) l.
Proof.
  induction l as [|[c|n a items] l IH]; intros first es Hl Hes; [done| |]; inversion Hl as [|? ? Hc Hl']; subst; cbn [numbered map subs_mean] in *.
  - f_equal; [by apply evaluate_call|]. by apply IH.
  - destruct Hes as (e & es' & -> & He & Hes). f_equal.
    + cbn [word_atom atom_value]. replace (Z.to_nat (zlen first)) with (length (map (evaluate texts values) first)) by (rewrite length_map; unfold zlen; lia).
      rewrite map_app, lookup_app_r, Nat.sub_diag by lia. cbn. exact He.
    + replace (first ++ e :: es') with ((first ++ [e]) ++ es') by (by rewrite <- app_assoc).
      replace (zlen first + 1) with (zlen (first ++ [e])) by (by rewrite zlen_app). by apply IH.
Qed.

(** With one item, the two connectives agree. *)
Lemma short_circuit_one b (r : res bool) : short_circuit b [r] = short_circuit (negb b) [r].
Proof. destruct r as [[]|], b; done. Qed.

Lemma evaluate_words negative all l es :
  l <> [] -> Forall (tree_ok texts) l -> subs_mean l es ->
  evaluate texts values (mkEval negative (mode_of all (length l)) es (map (word_atom texts) (numbered 0 l)) true []) =
  (let? b := list_meaning values all l in Ret (xorb negative b)).
Proof.
  intros Hne Hl Hes. pose proof (numbered_values l [] es Hl Hes) as Hv. change (zlen (@nil JSONEval)) with 0 in Hv. cbn [app] in Hv.
  unfold list_meaning. rewrite <- Hv. assert (Hlen : length (map (word_atom texts) (numbered 0 l)) = length l).
  { rewrite length_map. generalize 0. clear. induction l as [|[c|n a i] l IH]; intros k; cbn; [done|by rewrite IH..]. }
  clear Hv Hes. revert Hlen. generalize (map (word_atom texts) (numbered 0 l)). intros atoms Hlen. rewrite <- Hlen.
  unfold mode_of. cbn [evaluate]. change (fun i : AtomicExpression + Z => match i with inl a => atomic_evaluate texts values a | inr pos => default (Exc (undefined "beyond the end of a vector")) (map (evaluate texts values) es !! Z.to_nat pos) end) with (atom_value (map (evaluate texts values) es)).
  destruct all; cbn [andb negb]; [|done]. destruct (2 <=? length atoms)%nat eqn:E; [done|].
  destruct atoms as [|a [|b atoms]]; [by destruct l| |done]. cbn [map]. by rewrite (short_circuit_one true).
Qed.
End Evaluation.

(** ** What the compiler looks for before the groups *)

(** The spaces of a text: [None] after two of them. *)
Fixpoint spaces (after_space : bool) (s : bytes) : option bool :=
  match s with
  | [] => Some after_space
  | c :: s => if bool_decide (c = " "%char) then if after_space then None else spaces true s else spaces false s
  end.

Lemma spaces_app b s t : spaces b (s ++ t) = match spaces b s with Some b => spaces b t | None => None end.
Proof. revert b. induction s as [|c s IH]; intros b; [done|]. cbn [app spaces]. destruct (bool_decide _); [destruct b; [done|]|]; apply IH. Qed.

Lemma spaces_none b s : " "%char ∉ s -> s <> [] -> spaces b s = Some false.
Proof.
  assert (Hf : forall s b, " "%char ∉ s -> spaces b s = match s with [] => Some b | _ :: _ => Some false end).
  { clear. induction s as [|c s IH]; intros b Hs; [done|]. apply not_elem_of_cons in Hs as [Hc Hs]. cbn [spaces]. rewrite bool_decide_eq_false_2 by done.
    rewrite IH by done. by destruct s. }
  intros Hs Hne. rewrite Hf by done. by destruct s.
Qed.

Lemma spaces_single s b : spaces false s = Some b -> occurs s (str "  ") = false.
Proof.
  intros Hs. apply not_true_iff_false. rewrite occurs_infix. intros (p & q & ->). rewrite !spaces_app in Hs.
  destruct (spaces false p) as [[]|]; done.
Qed.

Lemma compress_single fuel s b : spaces false s = Some b -> (0 < fuel)%nat -> forall `{BoostSearch}, compress_spaces fuel s = Ret s.
Proof. intros Hs Hf ?. destruct fuel; [lia|]. cbn [compress_spaces]. by rewrite (spaces_single _ _ Hs). Qed.

(** The ends of the text of a tree and of the list of a group. *)
Definition edges (s : bytes) : Prop := (exists c r, s = c :: r /\ isspace c = false) /\ exists r, s = r ++ str ")".

Lemma edges_parens n s : edges (group_text n s).
Proof. unfold group_text. split; [destruct n; by do 2 eexists|]. eexists. by rewrite !(app_assoc _ _ (str ")")). Qed.

Lemma edges_join s sep t : edges s -> edges t -> edges (s ++ sep ++ t).
Proof. intros [(c & r & -> & Hc) _] [_ (q & ->)]. split; [by do 2 eexists|]. eexists. by rewrite !(app_assoc _ _ (str ")")). Qed.

Lemma edges_call texts c : c_op c <> EVAL_OPERATOR_UNDEFINED -> edges (call_text texts c).
Proof.
  intros Hop. unfold call_text. split; [|eexists; by rewrite !(app_assoc _ _ (str ")"))].
  assert (Hhead : exists d r, head_text c = d :: r /\ isspace d = false) by (unfold head_text; destruct (negated c), (icase c), (c_op c); try done; by do 2 eexists).
  destruct Hhead as (d & r & -> & Hd). by do 2 eexists.
Qed.

Lemma edges_tight s : edges s -> tight s.
Proof. intros [(c & r & -> & Hc) (q & Hq)]. split; [done|]. by rewrite Hq, rev_app_distr. Qed.

(** What is true of the same texts when all the texts between quotes have names. *)
Record shape (s : bytes) : Prop := mkShape {
  shape_balanced : balanced s;
  shape_opens t : next_paren (s ++ t) = Some "("%char;
  shape_spaces b : spaces b s = Some false;
  shape_edges : edges s;
  shape_line : LF ∉ s;
  shape_quote : QUOTE_CHAR ∉ s
}.

Lemma shape_parens s : shape s -> forall n, shape (group_text n s).
Proof.
  intros Hs n. unfold group_text. assert (Hb : no_paren (bang n)) by (destruct n; vm_compute; split; set_solver). split.
  - apply balanced_app; [by apply balanced_free|]. apply balanced_paren. apply (shape_balanced _ Hs).
  - intros t. rewrite <- !app_assoc. by rewrite next_paren_free.
  - intros b. rewrite !spaces_app. assert (E : (match spaces b (bang n) with Some b => spaces b (str "(") | None => None end) = Some false) by (by destruct n).
    destruct (spaces b (bang n)); [|done]. rewrite spaces_app, E, spaces_app. by rewrite (shape_spaces _ Hs).
  - apply (edges_parens n s).
  - pose proof (shape_line _ Hs). rewrite !not_elem_of_app. destruct n; vm_compute; set_solver.
  - pose proof (shape_quote _ Hs). rewrite !not_elem_of_app. destruct n; vm_compute; set_solver.
Qed.

Lemma shape_join s all t : shape s -> shape t -> shape (s ++ connective all ++ t).
Proof.
  intros Hs Ht. split.
  - apply balanced_app; [apply (shape_balanced _ Hs)|]. apply balanced_app; [apply balanced_free, connective_free|apply (shape_balanced _ Ht)].
  - intros r. rewrite <- !app_assoc. apply (shape_opens _ Hs).
  - intros b. rewrite spaces_app, (shape_spaces _ Hs), spaces_app. replace (spaces false (connective all)) with (Some true) by (by destruct all). apply (shape_spaces _ Ht).
  - apply edges_join; [apply (shape_edges _ Hs)|apply (shape_edges _ Ht)].
  - pose proof (shape_line _ Hs). pose proof (shape_line _ Ht). rewrite !not_elem_of_app. destruct all; vm_compute; set_solver.
  - pose proof (shape_quote _ Hs). pose proof (shape_quote _ Ht). rewrite !not_elem_of_app. destruct all; vm_compute; set_solver.
Qed.

Lemma shape_list all ws : ws <> [] -> Forall shape ws -> shape (join (connective all) ws).
Proof.
  intros Hne Hws. induction Hws as [|w ws Hw Hws IH]; [done|]. destruct ws as [|v ws]; [done|].
  change (join (connective all) (w :: v :: ws)) with (w ++ connective all ++ join (connective all) (v :: ws)). apply shape_join; [done|by apply IH].
Qed.

Lemma call_shape texts c : call_ok texts c -> shape (call_text texts c).
Proof.
  intros Hc. destruct (head_no_paren _ _ Hc) as [Hh He]. pose proof (args_no_paren _ _ Hc) as Ha. pose proof (call_solid _ _ Hc) as Hsolid.
  destruct (edges_call texts c (proj1 Hc)) as [(d & r & Hd & _) _].
  split; [..|by apply edges_call; destruct Hc| |]; unfold call_text in *.
  - apply balanced_app; [by apply balanced_free|]. by apply balanced_paren, balanced_free.
  - intros t. rewrite <- !app_assoc. by rewrite next_paren_free.
  - intros b. apply spaces_none; [apply (solid_not _ _ Hsolid); by left|]. by rewrite Hd.
  - apply (solid_not _ _ Hsolid). do 3 right. by left.
  - destruct Hc as (Hop & Hl & Hr). assert (Hql : QUOTE_CHAR ∉ operand_text texts (c_left c)) by (by eapply operand_free).
    assert (Hqr : QUOTE_CHAR ∉ operand_text texts (c_right c)) by (by eapply operand_free).
    rewrite !not_elem_of_app. repeat split; [|vm_compute; set_solver| |vm_compute; set_solver].
    + unfold head_text. destruct (negated c), (icase c), (c_op c); vm_compute; set_solver.
    + unfold args_text. destruct (c_op c); rewrite ?not_elem_of_app; repeat split; try done; vm_compute; set_solver.
Qed.

Lemma tree_ok_group texts n all l : tree_ok texts (Group n all l) <-> l <> [] /\ Forall (tree_ok texts) l.
Proof. cbn [tree_ok]. rewrite Forall_map. done. Qed.

Lemma tree_shape texts t : tree_ok texts t -> shape (tree_text texts t).
Proof.
  induction t as [c|n all l IH] using tree_induction; [apply call_shape|]. rewrite tree_ok_group. intros [Hne Hl].
  apply (shape_parens (join (connective all) (map (tree_text texts) l))). apply shape_list; [by destruct l|]. apply Forall_map.
  rewrite Forall_forall in *. auto.
Qed.

Lemma list_shape texts all l : l <> [] -> Forall (tree_ok texts) l -> shape (list_text texts all l).
Proof. intros Hne Hl. apply shape_list; [by destruct l|]. apply Forall_map. eapply Forall_impl; [exact Hl|]. intros t. apply tree_shape. Qed.

(** ** The theorem *)

Definition opens (s : bytes) : nat := length (filter (fun c => c = "("%char) s).

Lemma opens_app a b : opens (a ++ b) = (opens a + opens b)%nat.
Proof. unfold opens. by rewrite filter_app, length_app. Qed.

Lemma shape_opens_one s : shape s -> (1 <= opens s)%nat.
Proof.
  intros Hs. pose proof (shape_opens _ Hs []) as Ho. rewrite app_nil_r in Ho. clear Hs. induction s as [|c s IH]; [done|]. unfold opens in *.
  rewrite filter_cons. cbn [next_paren] in Ho. destruct (decide (c = "("%char)) as [->|Hc]; [cbn; lia|].
  rewrite bool_decide_eq_false_2 in Ho by done. destruct (bool_decide (c = ")"%char)); cbn in Ho; [congruence|by apply IH].
Qed.

Lemma opens_join (sep : bytes) ws : Forall shape ws -> (length ws <= opens (join sep ws))%nat.
Proof.
  induction 1 as [|w ws Hw Hws IH]; [cbn; lia|]. pose proof (shape_opens_one _ Hw) as Ho. destruct ws as [|v ws]; [exact Ho|].
  change (join sep (w :: v :: ws)) with (w ++ sep ++ join sep (v :: ws)). rewrite !opens_app. cbn [length] in *. lia.
Qed.

Lemma calls_and_groups l : (calls (map Todo l) + groups l = length l)%nat.
Proof. unfold calls, groups. induction l as [|[c|n a i] l IH]; cbn in *; lia. Qed.

Lemma infix_join (sep : bytes) ws w : w ∈ ws -> infix_of w (join sep ws).
Proof. intros (a & b & ->)%list_elem_of_split. exists (before sep a), (after sep b). apply join_at. Qed.

Lemma infix_trans a b c : infix_of a b -> infix_of b c -> infix_of a c.
Proof. intros (p & q & ->) (p' & q' & ->). exists (p' ++ p), (q ++ q'). by rewrite <- !app_assoc. Qed.

Lemma infix_zlen a b : infix_of a b -> zlen a <= zlen b.
Proof. intros (p & q & ->). rewrite !zlen_app. pose proof (zlen_nonneg p). pose proof (zlen_nonneg q). lia. Qed.

Lemma infix_opens a b : infix_of a b -> (opens a <= opens b)%nat.
Proof. intros (p & q & ->). rewrite !opens_app. lia. Qed.

Section Compiles.
Context {V : Type} `{JsonCpp V, JsonPath V} {R : Type} `{BoostExprLaws R, BoostLaws, BoostSearchLaws}.
Variable texts : list bytes.

(** The compiler accepts a text and gives an expression with this meaning. *)
Definition compiles (fuel : nat) (n : bool) (s : bytes) (m : V -> res bool) : Prop :=
  exists e, compile fuel texts n s = Ret (texts, e) /\ m_isCompiled e = true /\ forall values, evaluate texts values e = m values.

Lemma subs_exist fuel l :
  (forall n a items, Group n a items ∈ l -> compiles fuel n (list_text texts a items) (fun values => meaning values (Group n a items))) ->
  exists es, subs_of (compile fuel) texts l es /\ (forall values, subs_mean texts values l es) /\ length es = groups l.
Proof.
  induction l as [|[c|n a items] l IH]; intros Hl; [by exists []| |].
  - destruct IH as (es & Hs & Hm & Hlen); [intros; apply Hl; by right|]. by exists es.
  - destruct IH as (es & Hs & Hm & Hlen); [intros; apply Hl; by right|]. destruct (Hl n a items) as (e & He & _ & Hv); [by left|].
    exists (e :: es). split; [by exists e, es|]. split; [intros values; by exists e, es|]. unfold groups in *. cbn. by rewrite Hlen.
Qed.

Lemma numbered_ok l : forall k total, Forall (tree_ok texts) l -> 0 <= k -> k + Z.of_nat (groups l) <= total -> Forall (word_ok texts total) (numbered k l).
Proof.
  induction l as [|[c|n a items] l IH]; intros k total Hl Hk Htotal; [constructor| |]; inversion Hl; subst; unfold groups in *; cbn in Htotal |- *.
  - constructor; [done|]. apply IH; [done|done|lia].
  - constructor; [cbn; lia|]. apply IH; [done|lia|lia].
Qed.

Lemma list_opens all l : Forall shape (map (tree_text texts) l) -> (length l <= opens (list_text texts all l))%nat.
Proof. intros Hl. pose proof (opens_join (connective all) _ Hl) as Ho. by rewrite length_map in Ho. Qed.

Lemma numbered_length k l : length (numbered k l) = length l.
Proof. revert k. induction l as [|[c|n a i] l IH]; intros k; cbn; [done|by rewrite IH..]. Qed.

(** The fuel of the loop is enough, and the groups are replaced. *)
Lemma detect_list fuel all l es :
  Forall (tree_ok texts) l -> Forall shape (map (tree_text texts) l) -> subs_of (compile fuel) texts l es ->
  detect_loop (compile fuel) (detect_fuel (list_text texts all l)) 0 (mkCompiling (list_text texts all l) texts []) =
  Ret (true, mkCompiling (words_text texts all (numbered 0 l)) texts es).
Proof.
  intros Hl Hshapes Hes. pose proof (detect_all (compile fuel) texts all l [] [] es (detect_fuel (list_text texts all l))) as Hd.
  cbn [app] in Hd. assert (E : words_text texts all (map Todo l) = list_text texts all l) by (unfold words_text, list_text; by rewrite map_map).
  rewrite E in Hd. apply Hd; [constructor| |done|].
  - eapply Forall_impl; [exact Hl|]. intros [c|n a items]; [done|]. rewrite tree_ok_group. intros [Hne Hok].
    pose proof (list_shape _ a items Hne Hok) as Hs. split; [apply (shape_balanced _ Hs)|apply (shape_opens _ Hs)].
  - pose proof (list_opens all l Hshapes) as Ho. pose proof (calls_and_groups l) as Hc. unfold detect_fuel. fold (opens (list_text texts all l)).
    change (calls []) with 0%nat. nia.
Qed.

Definition list_result (n all : bool) (l : list tree) (values : V) : res bool := let? b := list_meaning values all l in Ret (xorb n b).

Lemma list_zlen all l : Forall (tree_ok texts) l -> zlen l <= zlen (list_text texts all l).
Proof.
  intros Hl. assert (Hs : Forall shape (map (tree_text texts) l)) by (apply Forall_map; eapply Forall_impl; [exact Hl|]; intros t; apply tree_shape).
  pose proof (list_opens all l Hs) as Ho. unfold opens in Ho. pose proof (length_filter (fun c => c = "("%char) (list_text texts all l)). unfold zlen. lia.
Qed.

(** After the texts between quotes. *)
Lemma compile_named_list fuel n all l es :
  l <> [] -> Forall (tree_ok texts) l -> ~ infix_of SUBEXPR_ (list_text texts all l) -> zlen l <= SIZE_MAX ->
  subs_of (compile fuel) texts l es -> length es = groups l ->
  compile_named (compile fuel) texts n (list_text texts all l) =
  Ret (texts, mkEval n (mode_of all (length l)) es (map (word_atom texts) (numbered 0 l)) true []).
Proof.
  intros Hne Hl Hsub Hmax Hes Hlen. pose proof (list_shape _ all l Hne Hl) as Hshape. assert (Hshapes : Forall shape (map (tree_text texts) l)).
  { apply Forall_map. eapply Forall_impl; [exact Hl|]. intros t. apply tree_shape. }
  unfold compile_named. rewrite (occurs_not _ [QUOTE_CHAR] QUOTE_CHAR) by (first [by left|by apply shape_quote]).
  rewrite (occurs_not _ NEWLINE LF) by (first [by left|by apply shape_line]).
  replace (occurs (list_text texts all l) SUBEXPR_) with false by (symmetry; apply not_true_iff_false; by rewrite occurs_infix).
  rewrite (compress_single _ _ false) by (first [apply (shape_spaces _ Hshape)|lia]). cbn [res_bind].
  rewrite (detect_list fuel all l es) by done. cbn [res_bind negb c_texts]. pose proof (calls_and_groups l).
  rewrite compile_words; [by rewrite numbered_length| | |].
  - destruct l as [|[]]; done.
  - unfold zlen in *. lia.
  - apply numbered_ok; [done|lia|]. unfold zlen. lia.
Qed.

Lemma put_statics_none fuel s : QUOTE_CHAR ∉ s -> (0 < fuel)%nat -> put_statics fuel texts s = Ret (texts, s).
Proof.
  intros Hs Hf. destruct fuel; [lia|]. cbn [put_statics]. rewrite quoted_none; [done|]. apply Forall_forall. by intros c Hc ->%list_elem_of_singleton.
Qed.

(** The subexpressions of a list mean its groups, with a level of fuel each. *)
Lemma list_subs fuel : forall l all,
  Forall (tree_ok texts) l -> ~ infix_of SUBEXPR_ (list_text texts all l) -> zlen (list_text texts all l) <= SIZE_MAX ->
  (opens (list_text texts all l) <= fuel)%nat ->
  exists es, subs_of (compile fuel) texts l es /\ (forall values, subs_mean texts values l es) /\ length es = groups l.
Proof.
  induction fuel as [|fuel IH]; intros l all Hl Hsub Hmax Hfuel; apply subs_exist; intros n a items Hin;
    pose proof (proj1 (Forall_forall _ l) Hl _ Hin) as Hok; apply tree_ok_group in Hok as [Hne Hok];
    assert (Hinfix : infix_of (group_text n (list_text texts a items)) (list_text texts all l))
      by (apply (infix_join _ _ (tree_text texts (Group n a items))); apply list_elem_of_fmap; by eexists);
    pose proof (infix_opens _ _ Hinfix) as Hopens; unfold group_text in Hopens; rewrite !opens_app in Hopens; change (opens (str "(")) with 1%nat in Hopens; [lia|].
  assert (Hinner : infix_of (list_text texts a items) (list_text texts all l)).
  { eapply infix_trans; [|exact Hinfix]. exists (bang n ++ str "("), (str ")"). unfold group_text. by rewrite <- !app_assoc. }
  assert (Hsub' : ~ infix_of SUBEXPR_ (list_text texts a items)) by (intros Hi; apply Hsub; by eapply infix_trans).
  assert (Hmax' : zlen (list_text texts a items) <= SIZE_MAX) by (etransitivity; [by apply infix_zlen|done]).
  destruct (IH items a Hok Hsub' Hmax' ltac:(lia)) as (es & Hes & Hmean & Hlen). pose proof (list_shape _ a items Hne Hok) as Hshape.
  exists (mkEval n (mode_of a (length items)) es (map (word_atom texts) (numbered 0 items)) true []).
  split; [|split; [reflexivity|intros values; by apply evaluate_words]]. cbn [compile]. unfold compile_with.
  rewrite trim_tight by (apply edges_tight, (shape_edges _ Hshape)). rewrite put_statics_none by (first [apply (shape_quote _ Hshape)|lia]).
  cbn [res_bind fst snd]. apply compile_named_list; [done|done|done| |done|done]. etransitivity; [by apply (list_zlen a)|done].
Qed.
End Compiles.
