(* ===== verification/JsonEvalText.v ===== *)
(** * Expressions over JSON: the texts between quotes

    The text of a tree as it is written, with its texts between quotes, and the
    first pass of the compiler, that gives them numbers. At the end, the
    constructor: the expression it makes means the tree. *)

From S2P Require Import Prelude CText BoostText Json JsonModel JsonEval JsonEvalSpec JsonEvalTree.

(** ** Replacing every occurrence *)

Section Replacing.
Context `{BoostSearchLaws}.

(** There is a first occurrence. *)
Lemma first_exists p s : p <> [] -> infix_of p s -> exists a b, s = a ++ p ++ b /\ first_at a p.
Proof.
  intros Hp. induction s as [|c s IH]; intros (a & b & E).
  - symmetry in E. apply app_eq_nil in E as [_ E]. by apply app_eq_nil in E as [-> _].
  - destruct (is_prefix p (c :: s)) eqn:Epre.
    + apply is_prefix_app in Epre as [b' Eb]. exists [], b'. split; [done|]. intros x y Exy. cbn [app] in Exy.
      apply (f_equal length) in Exy. rewrite !length_app in Exy. destruct y; [done|]. cbn in Exy. lia.
    + destruct a as [|d a]; [exfalso; assert (is_prefix p (c :: s) = true) by (apply is_prefix_app; by exists b); congruence|].
      injection E as <- E. destruct IH as (a' & b' & -> & Hf); [by exists a, b|]. exists (c :: a'), b'. split; [done|].
      intros x y Exy. destruct x as [|d x]; [|injection Exy as <- Exy; by apply (Hf x y)].
      exfalso. assert (is_prefix p (c :: a' ++ p ++ b') = true); [|congruence]. apply is_prefix_app. exists (y ++ b').
      cbn [app] in Exy. rewrite (app_assoc p), <- Exy. cbn [app]. by rewrite <- app_assoc.
Qed.

(** A beginning where no occurrence begins is left as it is. *)
Lemma replace_skip p name f s :
  p <> [] -> (forall x y, f ++ s = x ++ p ++ y -> (length f <= length x)%nat) ->
  replace_all (f ++ s) p name = f ++ replace_all s p name.
Proof.
  intros Hp Hf. destruct (decide (occurs s p = true)) as [Hi|Hi].
  - rewrite occurs_infix in Hi. destruct (first_exists p s Hp Hi) as (a & b & -> & Hfirst). rewrite app_assoc.
    rewrite !replace_first; [by rewrite <- app_assoc|done..|]. intros x y Exy.
    assert (Hx : (length f <= length x)%nat) by (apply (Hf x (y ++ b)); rewrite (app_assoc p), (app_assoc x), <- Exy; by rewrite <- !app_assoc).
    assert (E : exists z, x = f ++ z).
    { exists (drop (length f) x). rewrite <- (take_drop (length f) x) at 1. f_equal. apply (f_equal (take (length f))) in Exy.
      rewrite <- app_assoc, take_app_length in Exy. by rewrite take_app_le in Exy by done. }
    destruct E as [z ->]. apply (Hfirst z y). rewrite <- !app_assoc in Exy. by apply app_inv_head in Exy.
  - rewrite occurs_infix in Hi. rewrite !replace_none; [done|done|]. intros (x & y & Exy). apply Hi. pose proof (Hf x y Exy) as Hx.
    exists (drop (length f) x), y. apply (f_equal (drop (length f))) in Exy. rewrite drop_app_length in Exy. rewrite Exy. by apply drop_app_le.
Qed.
End Replacing.

(** ** The parts of a text *)

(** What is between two quotes, and the rest. *)
Definition token : Type := bytes + bytes.

Definition token_text (texts : list bytes) (k : token) : bytes := match k with inl s => s | inr t => operand_text texts (Quoted t) end.
Definition render (texts : list bytes) (l : list token) : bytes := concat (map (token_text texts) l).

Definition operand_token (o : operand) : token := match o with Quoted t => inr t | _ => inl (operand_text [] o) end.
Definition args_tokens (c : call) : list token :=
  match c_op c with
  | EVAL_OPERATOR_ISNULL => [operand_token (c_left c)]
  | _ => [operand_token (c_left c); inl (str ","); operand_token (c_right c)]
  end.
Definition call_tokens (c : call) : list token := inl (head_text c ++ str "(") :: args_tokens c ++ [inl (str ")")].
Fixpoint tree_tokens (t : tree) : list token :=
  match t with
  | Call c => call_tokens c
  | Group n all l => inl (bang n ++ str "(") :: join [inl (connective all)] (map tree_tokens l) ++ [inl (str ")")]
  end.
Definition list_tokens (all : bool) (l : list tree) : list token := join [inl (connective all)] (map tree_tokens l).

Lemma render_app texts a b : render texts (a ++ b) = render texts a ++ render texts b.
Proof. unfold render. by rewrite map_app, concat_app. Qed.

Lemma render_join texts sep ls : render texts (join [inl sep] ls) = join sep (map (render texts) ls).
Proof.
  induction ls as [|l [|m ls] IH]; [done|done|]. change (join [inl sep] (l :: m :: ls)) with (l ++ [inl sep] ++ join [inl sep] (m :: ls)).
  rewrite !render_app, IH. unfold render at 2. cbn. by rewrite app_nil_r.
Qed.

Lemma render_cons texts k l : render texts (k :: l) = token_text texts k ++ render texts l.
Proof. done. Qed.

Lemma operand_token_text texts o : token_text texts (operand_token o) = operand_text texts o.
Proof. by destruct o. Qed.

Lemma call_tokens_text texts c : render texts (call_tokens c) = call_text texts c.
Proof.
  unfold call_tokens, call_text, args_tokens, args_text. rewrite render_cons, render_app. cbn [token_text]. rewrite <- app_assoc. do 2 f_equal.
  destruct (c_op c); rewrite !render_cons, !operand_token_text; unfold render; cbn; by rewrite ?app_nil_r, <- ?app_assoc.
Qed.

Lemma tree_tokens_text texts t : render texts (tree_tokens t) = tree_text texts t.
Proof.
  induction t as [c|n all l IH] using tree_induction; [apply call_tokens_text|]. cbn [tree_tokens tree_text]. rewrite render_cons, render_app, render_join.
  cbn [token_text]. rewrite <- app_assoc. fold (bang n). do 3 f_equal. rewrite map_map. f_equal. apply map_ext_in. intros t Ht%list_elem_of_In. by apply (proj1 (Forall_forall _ l) IH).
Qed.

Lemma list_tokens_text texts all l : render texts (list_tokens all l) = list_text texts all l.
Proof. unfold list_tokens, list_text. rewrite render_join, map_map. f_equal. apply map_ext. apply tree_tokens_text. Qed.

(** A text between quotes has no quote, and is not what may follow one. *)
Definition quoted_ok (t : bytes) : Prop := QUOTE_CHAR ∉ t /\ match t with c :: _ => c <> ","%char /\ c <> ")"%char | [] => True end.

(** A text between quotes ends a side. *)
Fixpoint quotes_ok (l : list token) : Prop :=
  match l with
  | [] => True
  | inl s :: l => QUOTE_CHAR ∉ s /\ quotes_ok l
  | inr t :: l => quoted_ok t /\ match l with inl (c :: _) :: _ => c = ","%char \/ c = ")"%char | _ => False end /\ quotes_ok l
  end.

Lemma quotes_ok_app a b : quotes_ok a -> quotes_ok b -> quotes_ok (a ++ b).
Proof.
  intros Ha Hb. induction a as [|[s|t] a IH]; [done|..]; cbn [app quotes_ok] in *; [naive_solver|].
  destruct Ha as (Ht & Hn & Ha). split; [done|]. split; [by destruct a|by apply IH].
Qed.

Lemma quotes_ok_drop a b : quotes_ok (a ++ b) -> quotes_ok b.
Proof. induction a as [|[s|t] a IH]; [done|..]; cbn [app quotes_ok]; naive_solver. Qed.

(** What may be written: the trees of the theorem. *)
Definition operand_written (o : operand) : Prop :=
  match o with
  | Path p => forallb plain_char p = true
  | Number n => n <> [] /\ forallb isdigit n = true
  | Quoted t => quoted_ok t
  end.
(** The right side of IS_NULL, which is not written, is always the same. *)
Definition call_written (c : call) : Prop :=
  c_op c <> EVAL_OPERATOR_UNDEFINED /\ operand_written (c_left c) /\ operand_written (c_right c) /\
  (c_op c = EVAL_OPERATOR_ISNULL -> c_right c = Number (str "0")).
Fixpoint written (t : tree) : Prop :=
  match t with
  | Call c => call_written c
  | Group _ _ l => l <> [] /\ Forall id (map written l)
  end.

Lemma written_group n all l : written (Group n all l) <-> l <> [] /\ Forall written l.
Proof. cbn [written]. rewrite Forall_map. done. Qed.

Lemma operand_quotes o c l : operand_written o -> (c = ","%char \/ c = ")"%char) -> quotes_ok l -> quotes_ok (operand_token o :: inl [c] :: l).
Proof.
  intros Ho Hc Hl. assert (Hq : QUOTE_CHAR ∉ [c]) by (by destruct Hc as [-> | ->]; vm_compute; set_solver). destruct o as [p|n|t]; cbn [operand_token quotes_ok].
  - split; [|done]. by apply (operand_free [] (Path p) QUOTE_CHAR).
  - split; [|done]. by apply (operand_free [] (Number n) QUOTE_CHAR).
  - done.
Qed.

Lemma call_quotes c : call_written c -> quotes_ok (call_tokens c).
Proof.
  intros (Hop & Hl & Hr & _). unfold call_tokens. cbn [quotes_ok]. split.
  { unfold head_text. destruct (negated c), (icase c), (c_op c); vm_compute; set_solver. }
  assert (Hend : quotes_ok []) by done. change (str ")") with [")"%char]. unfold args_tokens. change (str ",") with [","%char].
  destruct (c_op c); cbn [app]; repeat (apply operand_quotes; [done|auto|]); done.
Qed.

Lemma join_quotes all ls : Forall quotes_ok ls -> quotes_ok (join [inl (connective all)] ls).
Proof.
  induction 1 as [|l ls Hl Hls IH]; [done|]. destruct ls as [|m ls]; [done|].
  change (join [inl (connective all)] (l :: m :: ls)) with (l ++ [inl (connective all)] ++ join [inl (connective all)] (m :: ls)).
  apply quotes_ok_app; [done|]. apply quotes_ok_app; [|done]. cbn [quotes_ok]. split; [|done]. destruct all; vm_compute; set_solver.
Qed.

Lemma tree_quotes t : written t -> quotes_ok (tree_tokens t).
Proof.
  induction t as [c|n all l IH] using tree_induction; [apply call_quotes|]. rewrite written_group. intros [Hne Hl]. cbn [tree_tokens quotes_ok].
  split; [destruct n; vm_compute; set_solver|]. apply quotes_ok_app.
  - apply join_quotes, Forall_map. rewrite Forall_forall in *. auto.
  - cbn [quotes_ok]. split; [|done]. vm_compute; set_solver.
Qed.

Lemma list_quotes all l : Forall written l -> quotes_ok (list_tokens all l).
Proof. intros Hl. apply join_quotes, Forall_map. eapply Forall_impl; [exact Hl|]. apply tree_quotes. Qed.

(** ** Giving numbers to the texts *)

Lemma static_name_all k : 0 <= k -> static_name k = STATIC_ ++ to_string k.
Proof. intros Hk. unfold static_name. apply ztake_ge. rewrite zlen_app. change (zlen STATIC_) with 8. pose proof (to_string_length k Hk). lia. Qed.

Lemma not_found (T : list bytes) t : t ∉ T -> list_find (eq t) T = None.
Proof. intros Ht. apply list_find_None, Forall_forall. intros x Hx <-. done. Qed.

Lemma quoted_unseen T t : t ∉ T -> operand_text T (Quoted t) = in_quotes t.
Proof. intros Ht. cbn [operand_text]. by rewrite not_found. Qed.

Lemma quoted_seen T T' t : t ∈ T -> operand_text (T ++ T') (Quoted t) = operand_text T (Quoted t).
Proof.
  intros Ht. cbn [operand_text]. destruct (list_find_elem_of (eq t) T t Ht eq_refl) as [[k x] E]. rewrite E. by rewrite (list_find_app_l _ _ _ _ _ E).
Qed.

Lemma quoted_new T t : t ∉ T -> operand_text (T ++ [t]) (Quoted t) = static_name (zlen T).
Proof.
  intros Ht. cbn [operand_text]. rewrite list_find_app_r by by apply not_found. cbn [list_find]. rewrite decide_True by done. cbn.
  rewrite static_name_all by apply zlen_nonneg. done.
Qed.

Lemma name_no_quote T t : t ∈ T -> QUOTE_CHAR ∉ operand_text T (Quoted t).
Proof.
  intros Ht. destruct (quoted_name _ _ Ht) as (k & -> & _). apply not_elem_of_app. split; [vm_compute; set_solver|].
  eapply not_in_chars; [by apply to_string_digits, Nat2Z.is_nonneg|done].
Qed.

(** A text of quotes where [t] does not begin. *)
Lemma quoted_elsewhere u t s x y :
  QUOTE_CHAR ∉ u -> quoted_ok t -> u <> t -> match s with c :: _ => c = ","%char \/ c = ")"%char | [] => False end ->
  in_quotes u ++ s = x ++ in_quotes t ++ y -> (length (in_quotes u) <= length x)%nat.
Proof.
  intros Hu [Ht Hhead] Hne Hs E. destruct x as [|c x].
  - exfalso. unfold in_quotes in E. cbn [app] in E. injection E as E. rewrite <- !app_assoc in E. cbn [app] in E.
    pose proof (f_equal (memchr QUOTE_CHAR) E) as Em. rewrite !memchr_free in Em by done. injection Em as Em.
    apply Hne. apply (f_equal (ztake (zlen u))) in E. rewrite ztake_length_app in E. by rewrite Em, ztake_length_app in E.
  - unfold in_quotes in E. cbn [app] in E. injection E as <- E. rewrite <- !app_assoc in E. cbn [app] in E.
    destruct (decide (length x < length u)%nat) as [Hlt|Hge].
    { exfalso. apply Hu. assert (Hc : (u ++ QUOTE_CHAR :: s) !! length x = Some QUOTE_CHAR) by (rewrite E; by rewrite lookup_app_r, Nat.sub_diag by lia).
      rewrite lookup_app_l in Hc by done. by eapply list_elem_of_lookup_2. }
    destruct (decide (length x = length u)) as [Hx|Hx].
    + exfalso. symmetry in Hx. apply app_inj_1 in E as [_ E]; [|done]. injection E as E. destruct s as [|c s]; [done|].
      destruct t as [|d t]; injection E as -> _; [by destruct Hs|]. destruct Hhead as [H1 H2]. by destruct Hs.
    + unfold in_quotes. cbn. rewrite length_app. cbn. lia.
Qed.

Section Numbers.
Context `{BoostSearchLaws}.

Lemma in_quotes_cons t : in_quotes t = QUOTE_CHAR :: t ++ [QUOTE_CHAR].
Proof. done. Qed.

Lemma skip_free t name f s : QUOTE_CHAR ∉ f -> replace_all (f ++ s) (in_quotes t) name = f ++ replace_all s (in_quotes t) name.
Proof.
  intros Hf. apply replace_skip; [done|]. intros x y E. destruct (decide (length x < length f)%nat) as [Hlt|?]; [|lia]. exfalso.
  apply Hf. assert (Hc : (f ++ s) !! length x = Some QUOTE_CHAR) by (rewrite E; by rewrite lookup_app_r, Nat.sub_diag by lia).
  rewrite lookup_app_l in Hc by done. by eapply list_elem_of_lookup_2.
Qed.

Lemma replace_render T t l :
  t ∉ T -> quoted_ok t -> quotes_ok l -> replace_all (render T l) (in_quotes t) (static_name (zlen T)) = render (T ++ [t]) l.
Proof.
  intros Ht Hok. induction l as [|[s|u] l IH]; cbn [quotes_ok]; intros Hl.
  - apply replace_none. intros (a & b & E). symmetry in E. apply app_eq_nil in E as [_ E]. done.
  - destruct Hl as [Hs Hl]. rewrite !render_cons. cbn [token_text]. rewrite skip_free by done. by rewrite IH.
  - destruct Hl as (Hu & Hnext & Hl). rewrite !render_cons. cbn [token_text]. destruct (decide (u ∈ T)) as [Hin|Hin].
    + rewrite skip_free by by apply name_no_quote. rewrite IH by done. by rewrite quoted_seen.
    + rewrite (quoted_unseen T u) by done. destruct (decide (u = t)) as [->|Hne].
      * change (in_quotes t ++ render T l) with ([] ++ in_quotes t ++ render T l). rewrite replace_first; [|done|].
        { rewrite IH by done. by rewrite quoted_new. }
        intros x y E. cbn [app] in E. apply (f_equal length) in E. rewrite !length_app in E. destruct y; [done|]. cbn in E. lia.
      * rewrite replace_skip; [|done|].
        { rewrite IH by done. rewrite quoted_unseen; [done|]. rewrite not_elem_of_app, list_elem_of_singleton. done. }
        intros x y. apply quoted_elsewhere; [apply Hu|done|done|]. destruct l as [|[[|c s]|] l]; done.
Qed.

Fixpoint quotes (l : list token) : nat := match l with [] => 0 | inl _ :: l => quotes l | inr _ :: l => S (quotes l) end.

(** The texts in the order of their numbers. *)
Fixpoint intern (T : list bytes) (l : list token) : list bytes :=
  match l with
  | [] => T
  | inl _ :: l => intern T l
  | inr t :: l => intern (if decide (t ∈ T) then T else T ++ [t]) l
  end.

Definition texts_in (T : list bytes) (l : list token) : Prop := Forall (fun k => match k with inr t => t ∈ T | inl _ => True end) l.

Lemma render_no_quote T l rest : quotes_ok (l ++ rest) -> texts_in T l -> QUOTE_CHAR ∉ render T l.
Proof.
  intros Hl HT. induction HT as [|[s|t] l Hk _ IH]; [by apply not_elem_of_nil|..]; rewrite render_cons, not_elem_of_app; cbn [app quotes_ok] in Hl; (split; [|naive_solver]).
  - by destruct Hl.
  - by apply name_no_quote.
Qed.

Lemma put_statics_step fuel T expr t :
  search_quoted expr = Some t ->
  put_statics (S fuel) T expr = put_statics fuel (T ++ [t]) (replace_all expr (in_quotes t) (static_name (zlen T))).
Proof. intros E. cbn [put_statics]. by rewrite E. Qed.

Lemma put_statics_render fuel : forall rest pre T,
  quotes_ok (pre ++ rest) -> texts_in T pre -> (quotes rest < fuel)%nat ->
  put_statics fuel T (render T (pre ++ rest)) = Ret (intern T rest, render (intern T rest) (pre ++ rest)).
Proof.
  intros rest. revert fuel. induction rest as [|[s|t] rest IH]; intros fuel pre T Hok HT Hfuel; cbn [intern].
  - rewrite app_nil_r in *. destruct fuel; [cbn in Hfuel; lia|]. cbn [put_statics]. rewrite quoted_none; [done|].
    apply Forall_forall. intros c Hc ->%list_elem_of_singleton. apply (render_no_quote T pre []); [by rewrite app_nil_r|done|done].
  - change (pre ++ inl s :: rest) with (pre ++ [inl s] ++ rest) in *. rewrite app_assoc in *. cbn [quotes] in Hfuel. apply IH; [done| |lia].
    apply Forall_app; split; [done|by constructor].
  - destruct (decide (t ∈ T)) as [Hin|Hin].
    + change (pre ++ inr t :: rest) with (pre ++ [inr t] ++ rest) in *. rewrite app_assoc in *. cbn [quotes] in Hfuel. apply IH; [done| |lia].
      apply Forall_app; split; [done|by constructor].
    + destruct fuel; [lia|]. cbn [quotes] in Hfuel. assert (Hrest : quotes_ok (inr t :: rest)) by (by eapply quotes_ok_drop). pose proof (proj1 Hrest) as Ht.
      assert (Hpre : QUOTE_CHAR ∉ render T pre) by (by eapply render_no_quote).
      assert (Hsearch : search_quoted (render T (pre ++ inr t :: rest)) = Some t).
      { rewrite render_app, render_cons. cbn [token_text]. rewrite quoted_unseen, in_quotes_cons by done. cbn [app]. rewrite <- app_assoc.
        destruct Ht as [Ht _]. apply quoted_some; apply Forall_forall; by intros c Hc ->%list_elem_of_singleton. }
      rewrite (put_statics_step _ _ _ t) by done. rewrite replace_render by done.
      change (pre ++ inr t :: rest) with (pre ++ [inr t] ++ rest) in *. rewrite app_assoc in *. apply IH; [done| |lia].
      apply Forall_app; split; [|constructor; [|constructor]; apply elem_of_app; right; by left].
      eapply Forall_impl; [exact HT|]. intros [?|u]; [done|]. intros Hu. apply elem_of_app. by left.
Qed.
End Numbers.

(** ** The texts of a tree have numbers *)

Lemma intern_keeps T l t : t ∈ T -> t ∈ intern T l.
Proof.
  revert T. induction l as [|[s|u] l IH]; intros T Ht; [done|by apply IH|]. cbn [intern]. apply IH. case_decide; [done|]. apply elem_of_app. by left.
Qed.

Lemma intern_texts T l : texts_in (intern T l) l.
Proof.
  revert T. induction l as [|[s|u] l IH]; intros T; constructor; cbn [intern]; try apply IH; [done|]. apply intern_keeps.
  case_decide; [done|]. apply elem_of_app. right. by left.
Qed.

Lemma intern_length T l : (length (intern T l) <= length T + quotes l)%nat.
Proof.
  revert T. induction l as [|[s|u] l IH]; intros T; cbn [intern quotes]; [lia|apply IH|].
  etransitivity; [apply IH|]. case_decide; rewrite ?length_app; cbn [length]; lia.
Qed.

Lemma quotes_render T l : (quotes l <= length (render T l))%nat.
Proof.
  induction l as [|[s|t] l IH]; [done|..]; rewrite render_cons, length_app; cbn [quotes]; [lia|]. cbn [token_text].
  assert (Hne : operand_text T (Quoted t) <> []) by (cbn [operand_text]; destruct (list_find _ T) as [[]|]; done).
  destruct (operand_text T (Quoted t)); [done|]. cbn [length]. lia.
Qed.

Lemma opens_render T l : texts_in T l -> (opens (render T l) <= length (render [] l))%nat.
Proof.
  induction 1 as [|[s|t] l Hk _ IH]; [cbn; lia|..]; rewrite !render_cons, opens_app, length_app; cbn [token_text].
  - pose proof (length_filter (fun c => c = "("%char) s). unfold opens in *. lia.
  - destruct (quoted_name _ _ Hk) as (k & -> & _). rewrite opens_app. change (opens STATIC_) with 0%nat.
    assert (Hd : opens (to_string (Z.of_nat k)) = 0%nat).
    { destruct (digits_no_paren _ (to_string_digits (Z.of_nat k) ltac:(lia))) as [Ho _]. unfold opens. induction (to_string (Z.of_nat k)) as [|c s IHs]; [done|].
      apply not_elem_of_cons in Ho as [Hc Ho]. rewrite filter_cons_False by done. by apply IHs. }
    lia.
Qed.

Section TextsOf.
Variable T : list bytes.
Hypothesis HT : zlen T <= SIZE_MAX.

Lemma operand_texts o : operand_written o -> texts_in T [operand_token o] -> operand_ok T o.
Proof. destruct o as [p|n|t]; [done|done|]. cbn. intros _ Ht. inversion Ht; subst. done. Qed.

Lemma call_texts c : call_written c -> texts_in T (call_tokens c) -> call_ok T c.
Proof.
  intros (Hop & Hl & Hr & Hnull) Ht. split; [done|]. unfold call_tokens, args_tokens in Ht. inversion Ht as [|? ? _ Ht']; subst.
  apply Forall_app in Ht' as [Ha _]. destruct (c_op c) eqn:E; try done; inversion Ha as [|? ? Ha1 Ha2]; subst; (split; [by apply operand_texts; [|constructor]|]);
    try (inversion Ha2 as [|? ? _ Ha3]; subst; inversion Ha3 as [|? ? Ha4 _]; subst; by apply operand_texts; [|constructor]).
  by rewrite Hnull.
Qed.

Lemma join_texts (sep : list token) ls l : l ∈ ls -> texts_in T (join sep ls) -> texts_in T l.
Proof.
  induction ls as [|m ls IH]; [by intros ?%not_elem_of_nil|]. intros Hin Ht. destruct ls as [|m' ls]; [by apply list_elem_of_singleton in Hin as ->|].
  change (join sep (m :: m' :: ls)) with (m ++ sep ++ join sep (m' :: ls)) in Ht. apply Forall_app in Ht as [Hm Ht]. apply Forall_app in Ht as [_ Ht].
  apply elem_of_cons in Hin as [->|Hin]; [done|by apply IH].
Qed.

Lemma tree_texts t : written t -> texts_in T (tree_tokens t) -> tree_ok T t.
Proof.
  induction t as [c|n all l IH] using tree_induction; [apply call_texts|]. rewrite written_group, tree_ok_group. intros [Hne Hl] Ht. split; [done|].
  cbn [tree_tokens] in Ht. inversion Ht as [|? ? _ Ht']; subst. apply Forall_app in Ht' as [Hj _]. rewrite Forall_forall in *. intros t Hin.
  apply IH; [done|by apply Hl|]. eapply join_texts; [|exact Hj]. apply list_elem_of_fmap. by eexists.
Qed.

Lemma list_texts all l : Forall written l -> texts_in T (list_tokens all l) -> Forall (tree_ok T) l.
Proof.
  intros Hl Ht. rewrite Forall_forall in *. intros t Hin. apply tree_texts; [by apply Hl|]. eapply join_texts; [|exact Ht]. apply list_elem_of_fmap. by eexists.
Qed.
End TextsOf.

Lemma tree_edges texts t : written t -> edges (tree_text texts t).
Proof. destruct t as [c|n all l]; [intros Hc; apply edges_call, Hc|]. intros _. apply (edges_parens n (list_text texts all l)). Qed.

Lemma list_edges texts all l : l <> [] -> Forall written l -> edges (list_text texts all l).
Proof.
  intros Hne Hl. unfold list_text. induction Hl as [|t l Ht Hl IH]; [done|]. destruct l as [|u l]; [by apply tree_edges|].
  change (map (tree_text texts) (t :: u :: l)) with (tree_text texts t :: tree_text texts u :: map (tree_text texts) l).
  change (join (connective all) (tree_text texts t :: tree_text texts u :: map (tree_text texts) l)) with
    (tree_text texts t ++ connective all ++ join (connective all) (map (tree_text texts) (u :: l))).
  apply edges_join; [by apply tree_edges|by apply IH].
Qed.

(** ** The theorem *)

Section Meaning.
Context {V : Type} `{JsonCpp V, JsonPath V} {R : Type} `{BoostExprLaws R, BoostLaws, BoostSearchLaws}.

(** The text as it is written, the texts between its quotes, and the text with
    their names. *)
Definition source_text (all : bool) (l : list tree) : bytes := list_text [] all l.
Definition source_texts (all : bool) (l : list tree) : list bytes := intern [] (list_tokens all l).
Definition named_text (all : bool) (l : list tree) : bytes := list_text (source_texts all l) all l.

(** C12: The constructor compiles the text of every list of trees joined by && or
    by || whose paths have no spaces, quotes, parentheses, commas, & or |, whose
    numbers are digits, whose texts between quotes have none of their own and do not begin
    with a comma or a closing parenthesis, and which does not contain _SUBEXPR_,
    the name the library gives to groups; and the expression it makes means that
    list on every value: exceptions of the paths and of the regular expressions,
    and the order in which the items are evaluated, included. *)
Theorem text_means_its_trees all l :
  l <> [] -> Forall written l -> ~ infix_of SUBEXPR_ (named_text all l) -> zlen (named_text all l) <= SIZE_MAX ->
  exists e, JSONEval_of (source_text all l) = Ret (source_texts all l, e) /\ m_isCompiled e = true /\
    forall values, evaluate (source_texts all l) values e = list_meaning values all l.
Proof.
  intros Hne Hl Hsub Hmax. unfold named_text, source_text in *. set (T := source_texts all l) in *. pose proof (intern_texts [] (list_tokens all l)) as HT. fold (source_texts all l) in HT. fold T in HT.
  assert (HTmax : zlen T <= SIZE_MAX).
  { pose proof (intern_length [] (list_tokens all l)) as Hn. fold (source_texts all l) in Hn. fold T in Hn. pose proof (quotes_render T (list_tokens all l)) as Hq.
    rewrite list_tokens_text in Hq. cbn [length] in Hn. unfold zlen in *. lia. }
  pose proof (list_texts T HTmax all l Hl HT) as Hok. pose proof (opens_render _ _ HT) as Hopens. rewrite !list_tokens_text in Hopens.
  destruct (list_subs T (length (list_text [] all l)) l all Hok Hsub Hmax Hopens) as (es & Hes & Hmean & Hlen).
  exists (mkEval false (mode_of all (length l)) es (map (word_atom T) (numbered 0 l)) true []). split; [|split; [done|]].
  - unfold JSONEval_of. cbn [compile]. unfold compile_with. rewrite trim_tight by (by apply edges_tight, list_edges).
    pose proof (put_statics_render (S (length (list_text [] all l))) (list_tokens all l) [] []) as Hput. cbn [app] in Hput.
    fold (source_texts all l) in Hput. fold T in Hput. rewrite !list_tokens_text in Hput. rewrite Hput; [|by apply list_quotes|constructor|].
    + cbn [res_bind fst snd]. apply compile_named_list; [done|done|done| |done|done]. etransitivity; [by apply (list_zlen T all)|done].
    + pose proof (quotes_render [] (list_tokens all l)) as Hq. rewrite list_tokens_text in Hq. lia.
  - intros values. rewrite evaluate_words by done. destruct (list_meaning values all l) as [[]|]; done.
Qed.
End Meaning.

(** *** A text *)

#[export] Instance model_path : JsonPath value := fun p v => Ret (default Null (find (zdrop 1 p) v)).

(** IS_EQUAL($.user,"root") && !(IS_NULL($.tags) || iCONTAINS($.tags,"A && (b")) *)
Definition example_trees : list tree :=
  [Call (mkCall false false EVAL_OPERATOR_ISEQUAL (Path (str ".user")) (Quoted (str "root")));
   Group true false
     [Call (mkCall false false EVAL_OPERATOR_ISNULL (Path (str ".tags")) (Number (str "0")));
      Call (mkCall false true EVAL_OPERATOR_CONTAINS (Path (str ".tags")) (Quoted (str "A && (b")))]].
Definition example_user (tag : bytes) : value :=
  Member (str "user") (Text (str "root")) (Member (str "tags") (Element (Text (str "x")) (Element (Text tag) NoElements)) NoMembers).

Lemma text_means_its_trees_witness :
  source_text true example_trees =
    str "IS_EQUAL($.user," ++ in_quotes (str "root") ++ str ") && !(IS_NULL($.tags) || iCONTAINS($.tags," ++ in_quotes (str "A && (b") ++ str "))" /\
  (exists e : JSONEval, JSONEval_of (source_text true example_trees) = Ret ([str "root"; str "A && (b"], e) /\ m_isCompiled e = true /\
    forall values : value, evaluate [str "root"; str "A && (b"] values e = list_meaning values true example_trees) /\
  list_meaning (example_user (str "y")) true example_trees = Ret true /\
  list_meaning (example_user (str "<a && (B>")) true example_trees = Ret false.
Proof.
  split; [reflexivity|]. split; [|split; reflexivity].
  apply (text_means_its_trees true example_trees); [discriminate| | |].
  - repeat constructor; cbn; try discriminate; try (by intros [] ); try (vm_compute; set_solver).
  - intros Hi. apply contains_run_infix in Hi. vm_compute in Hi. discriminate.
  - vm_compute. discriminate.
Defined.

(** *** A group that is wrong

    The constructor of a group keeps its error to itself: the expression around
    it is compiled, and a group that was left with && and no items is true. *)
Lemma wrong_group_is_true :
  exists e : JSONEval, JSONEval_of (str "IS_NULL($.a) && (IS_NULL($.b) && a b)") = Ret ([], e) /\ m_isCompiled e = true /\
    map m_lastError (m_subExpressions e) = [str "Invalid Operator (only and/or is admitted)"] /\
    evaluate [] Null e = Ret true.
Proof. eexists. repeat split. Qed.
