(* ===== verification/ApiReturn.v ===== *)
(** * The answer of an API method (Protocol_HTTP/api_return.h)

    A status code and a JSON body, with the cookies and headers to add. The
    body is always there: the constructors make it and nothing resets it; the
    objects of this model do not share it. *)

From S2P Require Import Prelude CText BoostText StreamableObject HttpLines HttpCookies Json StreamableJson.

Section APIReturn.
Context {V : Type} `{JsonCpp V}.

(** The code is a number: [fromJSON] takes any. *)
Record APIReturn : Type := mkReturn {
  httpResponseCode : Z;
  body : StreamableJSON V;
  cookiesMap : list (bytes * Cookie.t);
  httpExtraHeaders : list (bytes * bytes);
  redirectURL : bytes
}.
Implicit Types r : APIReturn.

Definition set_code (code : Z) r : APIReturn := mkReturn code (body r) (cookiesMap r) (httpExtraHeaders r) (redirectURL r).
Definition set_body (b : StreamableJSON V) r : APIReturn := mkReturn (httpResponseCode r) b (cookiesMap r) (httpExtraHeaders r) (redirectURL r).
Definition set_cookie (name : bytes) (c : Cookie.t) r : APIReturn :=
  mkReturn (httpResponseCode r) (body r) (map_assign (name, c) (cookiesMap r)) (httpExtraHeaders r) (redirectURL r).
Definition set_header (name value : bytes) r : APIReturn :=
  mkReturn (httpResponseCode r) (body r) (cookiesMap r) (map_assign (name, value) (httpExtraHeaders r)) (redirectURL r).

Definition APIReturn_new : APIReturn := mkReturn (Status.code_value Status.S_200_OK) StreamableJSON_new [] [] [].
Definition APIReturn_of_code (code : Status.Codes) : APIReturn := set_code (Status.code_value code) APIReturn_new.

(** The value of the body. *)
Definition assign (value : V) r : APIReturn := set_body (setValue value (body r)) r.
Definition APIReturn_of_body (value : V) : APIReturn := assign value APIReturn_new.

(** A member of the value of the body. *)
Definition body_set (name : bytes) (value : V) : st APIReturn unit := fun r =>
  match set_member name value (m_root (body r)) with
  | Ret x => (Ret tt, assign x r)
  | Exc e => (Exc e, r)
  end.

Definition setError (code : Status.Codes) (error message : bytes) : st APIReturn unit :=
  do! modify (set_code (Status.code_value code)) in
  do! body_set (str "error") (of_string error) in
  body_set (str "message") (of_string message).

Definition setReasons (reasons : V) : st APIReturn unit := body_set (str "reasons") reasons.
Definition responseJSON r : V := m_root (body r).

Definition getErrorString r : res bytes :=
  let errorString := to_string (httpResponseCode r) ++ str " - " in
  if negb (httpResponseCode r =? Status.code_value Status.S_200_OK) then
    let? message := JSON_ASSTRING (m_root (body r)) (str "message") (str "UNKNOWN ERROR.") in
    Ret (errorString ++ message)
  else Ret (errorString ++ str "OK").

(** [root[outer][...] = ...]: the inner value is made if it is not there. *)
Definition set_inside (outer : bytes) (set : V -> res V) (root : V) : res V :=
  let? inner := member outer root in
  let? inner := set inner in
  set_member outer inner root.

Fixpoint put_extra (headers : list (bytes * bytes)) (root : V) : res V :=
  match headers with
  | [] => Ret root
  | (name, value) :: headers =>
      let? root := set_inside (str "extraHeaders") (set_member name (of_string value)) root in
      put_extra headers root
  end.

Fixpoint put_cookies (i : Z) (cookies : list (bytes * Cookie.t)) (root : V) : res V :=
  match cookies with
  | [] => Ret root
  | (name, cookie) :: cookies =>
      let? text := Cookie.toSetCookieString name cookie in
      let? root := set_inside (str "cookies") (set_index i (of_string text)) root in
      put_cookies (i + 1) cookies root
  end.

Definition toJSON r : res V :=
  let? root := set_member (str "httpResponseCode") (of_int64 (httpResponseCode r)) nullValue in
  let? root := set_member (str "body") (m_root (body r)) root in
  let? root := put_extra (httpExtraHeaders r) root in
  put_cookies 0 (cookiesMap r) root.

Section FromJSON.
Context `{BoostText, Date.TimeText}.

(** The elements that [size()] and [operator[](int)] give: the members of an
    object are counted, and asking for one by a number is refused. *)
Definition by_index (v : V) : res (list V) :=
  if isArray v then Ret (elements v)
  else if isObject v then
    let? names := getMemberNames v in
    match names with [] => Ret [] | _ :: _ => Exc LogicError end
  else Ret [].

Fixpoint take_extra (extra : V) (names : list bytes) : st APIReturn unit :=
  match names with
  | [] => ret tt
  | header :: names =>
      let! value := lift_res (JSON_ASSTRING extra header []) in
      do! modify (set_header header value) in
      take_extra extra names
  end.

Fixpoint take_cookies (cookies : list V) : st APIReturn unit :=
  match cookies with
  | [] => ret tt
  | v :: cookies =>
      let! cookieString := lift_res (asString v) in
      let (cookie, cookieName) := Cookie.fromSetCookieString cookieString in
      do! modify (set_cookie cookieName cookie) in
      take_cookies cookies
  end.

(** A member that is there goes to [k]. *)
Definition when_member (name : bytes) (jsonValue : V) (k : V -> st APIReturn unit) : st APIReturn unit :=
  let! has := lift_res (isMember name jsonValue) in
  if has then let! v := lift_res (member name jsonValue) in k v else ret tt.

Definition fromJSON (jsonValue : V) : st APIReturn unit :=
  let! code := lift_res (JSON_ASUINT jsonValue (str "httpResponseCode") (Status.code_value Status.S_500_INTERNAL_SERVER_ERROR)) in
  do! modify (set_code code) in
  do! when_member (str "body") jsonValue (fun v => modify (assign v)) in
  do! when_member (str "extraHeaders") jsonValue (fun v =>
        let! names := lift_res (getMemberNames v) in take_extra v names) in
  when_member (str "cookies") jsonValue (fun v =>
        let! cookies := lift_res (by_index v) in take_cookies cookies).
End FromJSON.

(** ** Errors *)

(** The body can take members: it is an object, or nothing yet. *)
Definition open_body r : Prop := isObject (m_root (body r)) = true \/ m_root (body r) = nullValue.

Context `{!JsonLaws V}.

Lemma body_set_open name v r : open_body r -> exists r', body_set name v r = (Ret tt, r') /\ isObject (m_root (body r')) = true /\
  httpResponseCode r' = httpResponseCode r /\ set_member name v (m_root (body r)) = Ret (m_root (body r')).
Proof.
  intros Hr. unfold body_set.
  assert (exists x, set_member name v (m_root (body r)) = Ret x) as [x E].
  { destruct Hr as [Hr | ->]; [by apply set_object|apply set_null]. }
  rewrite E. eexists. split; [done|]. cbn. split; [|done]. by eapply isObject_set.
Qed.

(** An error gives its code and its texts. *)
Lemma setError_sets code error message r :
  open_body r -> exists r', setError code error message r = (Ret tt, r') /\
    httpResponseCode r' = Status.code_value code /\
    JSON_ASSTRING (responseJSON r') (str "error") [] = Ret error /\
    JSON_ASSTRING (responseJSON r') (str "message") [] = Ret message /\ isObject (responseJSON r') = true.
Proof.
  intros Hr. unfold setError, bind, modify.
  destruct (body_set_open (str "error") (of_string error) (set_code (Status.code_value code) r) Hr) as (r1 & E1 & H1 & Hc1 & Es1).
  rewrite E1. destruct (body_set_open (str "message") (of_string message) r1 (or_introl H1)) as (r2 & E2 & H2 & Hc2 & Es2).
  exists r2. split; [exact E2|]. split; [by rewrite Hc2, Hc1|]. unfold responseJSON. repeat split; [|by eapply JSON_ASSTRING_set|done].
  unfold JSON_ASSTRING. rewrite (member_as_other _ _ _ _ _ _ _ _ H1 Es2) by (vm_compute; congruence). by eapply JSON_ASSTRING_set.
Qed.
End APIReturn.
Arguments APIReturn : clear implicits.
