(* ===== verification/Jwt.v ===== *)
(** * JSON Web Tokens (DataFormat_JWT)

    The algorithms, the token, the cache of verified tokens, the list of the
    revoked ones, and the object that signs and verifies. The clock is an
    argument; JsonCpp, the base64 filter and OpenSSL are classes. The table of
    the cache is a map, the queue, the multimap and the set of the revocation
    are lists in their order. *)

From stdpp Require Import gmap.
From S2P Require Import Prelude CText Mem SafeInt Encoders Json.

(** ** Algorithms (jwt_algorithmdetails.cpp) *)

Inductive Algorithm : Type := HS256 | HS384 | HS512 | RS256 | RS384 | RS512.

#[export] Instance Algorithm_eq_dec : EqDecision Algorithm.
Proof. solve_decision. Defined.

Module AlgorithmDetails.
Record t : Type := mk { nid : Z; isUsingHMAC : bool; usingRSA : bool; algorithmStr : bytes; algorithm : Algorithm }.

(** The identifiers that OpenSSL gives to the digests. *)
Definition NID_sha256 : Z := 672.
Definition NID_sha384 : Z := 673.
Definition NID_sha512 : Z := 674.

Definition of_algorithm (a : Algorithm) : t :=
  match a with
  | HS256 => mk NID_sha256 true false (str "HS256") a
  | HS384 => mk NID_sha384 true false (str "HS384") a
  | HS512 => mk NID_sha512 true false (str "HS512") a
  | RS256 => mk NID_sha256 false true (str "RS256") a
  | RS384 => mk NID_sha384 false true (str "RS384") a
  | RS512 => mk NID_sha512 false true (str "RS512") a
  end.

(** [strncmp(a, b, 16) == 0]. *)
Definition strncmp16 (a b : bytes) : bool := bool_decide (take 16 (c_str a) = take 16 (c_str b)).

Definition of_name (algorithm : bytes) : t :=
  if strncmp16 algorithm (str "HS256") then of_algorithm HS256
  else if strncmp16 algorithm (str "HS384") then of_algorithm HS384
  else if strncmp16 algorithm (str "HS512") then of_algorithm HS512
  else if strncmp16 algorithm (str "RS256") then of_algorithm RS256
  else if strncmp16 algorithm (str "RS384") then of_algorithm RS384
  else if strncmp16 algorithm (str "RS512") then of_algorithm RS512
  else of_algorithm RS512.
End AlgorithmDetails.

(** ** The token (jwt_token.cpp) *)

Module Token.
Record t (V : Type) : Type := mk { m_claims : V; m_signatureVerified : bool; m_revoked : bool }.
Arguments mk {V} _ _ _. Arguments m_claims {V} _. Arguments m_signatureVerified {V} _. Arguments m_revoked {V} _.

Section Token.
Context {V : Type} `{JsonCpp V}.
Implicit Types x : t V.

Definition new : t V := mk nullValue false false.
Definition setSignatureVerified (newVerified : bool) x : t V := mk (m_claims x) newVerified (m_revoked x).
Definition setRevoked (newRevoked : bool) x : t V := mk (m_claims x) (m_signatureVerified x) newRevoked.
Definition set_claims (claims : V) x : t V := mk claims (m_signatureVerified x) (m_revoked x).

(** [m_claims[name] = value]. *)
Definition addClaim (name : bytes) (value : V) : st (t V) unit := fun x =>
  match set_member name value (m_claims x) with
  | Ret claims => (Ret tt, set_claims claims x)
  | Exc e => (Exc e, x)
  end.

Definition setIssuer (issuer : bytes) : st (t V) unit := addClaim (str "iss") (of_string issuer).
Definition setSubject (subject : bytes) : st (t V) unit := addClaim (str "sub") (of_string subject).
Definition setDomain (domain : bytes) : st (t V) unit := addClaim (str "domain") (of_string domain).
Definition setAudience (audience : bytes) : st (t V) unit := addClaim (str "aud") (of_string audience).
Definition setExpirationTime (exp : Z) : st (t V) unit := addClaim (str "exp") (of_int64 exp).
Definition setNotBefore (nbf : Z) : st (t V) unit := addClaim (str "nbf") (of_int64 nbf).
Definition setIssuedAt (iat : Z) : st (t V) unit := addClaim (str "iat") (of_int64 iat).
Definition setJwtId (jti : bytes) : st (t V) unit := addClaim (str "jti") (of_string jti).

Definition exportPayload x : bytes := writeString (m_claims x).

(** The claims are what the parser leaves, also when it fails. *)
Definition decodePayload (payload : bytes) x : bool * t V :=
  let (ok, claims) := parse payload (m_claims x) in (ok, set_claims claims x).

Definition of_payload (payload : bytes) : t V := snd (decodePayload payload new).

Definition getIssuer x : res bytes := JSON_ASSTRING (m_claims x) (str "iss") [].
Definition getImpersonator x : res bytes := JSON_ASSTRING (m_claims x) (str "impersonator") [].
Definition getSubject x : res bytes := JSON_ASSTRING (m_claims x) (str "sub") [].
Definition getDomain x : res bytes := JSON_ASSTRING (m_claims x) (str "domain") [].
Definition getAudience x : res bytes := JSON_ASSTRING (m_claims x) (str "aud") [].
Definition getJwtId x : res bytes := JSON_ASSTRING (m_claims x) (str "jti") [].

(** [static_cast<std::time_t>] of an unsigned number. *)
Definition time_claim (name : bytes) (def : Z) x : res Z :=
  let? v := JSON_ASUINT64 (m_claims x) name def in Ret (cast (Signed 64) v).
Definition getExpirationTime : t V -> res Z := time_claim (str "exp") (2 ^ 64 - 1).
Definition getNotBefore : t V -> res Z := time_claim (str "nbf") 0.
Definition getIssuedAt : t V -> res Z := time_claim (str "iat") 0.

(** *** Roles and permissions: an array of texts in a claim *)

(** The values of the array, with an empty text for those of another type. *)
Fixpoint texts_of (l : list V) : res (list bytes) :=
  match l with
  | [] => Ret []
  | v :: l => let? s := JSON_ASSTRING_D v [] in let? r := texts_of l in Ret (s :: r)
  end.

Definition claim_texts (name : bytes) x : res (list bytes) :=
  let? has := isMember name (m_claims x) in
  if has then
    let? claims := member name (m_claims x) in
    if isArray claims then texts_of (elements claims) else Ret []
  else Ret [].

Definition getAllRoles x : res (list bytes) := let? l := claim_texts (str "roles") x in Ret (set_of l).
Definition getAllPermissions x : res (list bytes) := let? l := claim_texts (str "permissions") x in Ret (set_of l).

Definition claim_or_null (name : bytes) x : res V :=
  let? has := isMember name (m_claims x) in if has then member name (m_claims x) else Ret nullValue.
Definition getAllRolesAsJSON : t V -> res V := claim_or_null (str "roles").
Definition getAllPermissionsAsJSON : t V -> res V := claim_or_null (str "permissions").

(** [m_claims[name].append(value)], of a new array if the claim is not there. *)
Definition append_claim (name value : bytes) : st (t V) unit := fun x =>
  match isMember name (m_claims x) with
  | Exc e => (Exc e, x)
  | Ret has =>
      let (r, x) := if has then (Ret tt, x) else addClaim name arrayValue x in
      match r with
      | Exc e => (Exc e, x)
      | Ret _ =>
          match res_bind (member name (m_claims x)) (fun a => append_value (of_string value) a) with
          | Exc e => (Exc e, x)
          | Ret a => addClaim name a x
          end
      end
  end.
Definition addRole (roleId : bytes) : st (t V) unit := append_claim (str "roles") roleId.
Definition addPermission (permissionId : bytes) : st (t V) unit := append_claim (str "permissions") permissionId.

(** The search stops at the first text that is equal. *)
Fixpoint has_text (value : bytes) (l : list V) : res bool :=
  match l with
  | [] => Ret false
  | v :: l => let? s := JSON_ASSTRING_D v [] in if bool_decide (s = value) then Ret true else has_text value l
  end.
Definition claim_has (name value : bytes) x : res bool :=
  let? has := isMember name (m_claims x) in
  if has then
    let? claims := member name (m_claims x) in
    if isArray claims then has_text value (elements claims) else Ret false
  else Ret false.
Definition hasRole (roleId : bytes) : t V -> res bool := claim_has (str "roles") roleId.
Definition hasPermission (permissionId : bytes) : t V -> res bool := claim_has (str "permissions") permissionId.

Fixpoint claims_map (names : list bytes) x : res (list (bytes * V)) :=
  match names with
  | [] => Ret []
  | key :: names =>
      let? v := member key (m_claims x) in
      let? r := claims_map names x in Ret (map_assign (key, v) r)
  end.
Definition getAllClaims x : res (list (bytes * V)) := let? names := getMemberNames (m_claims x) in claims_map names x.

Definition getClaim (name : bytes) x : res V := member name (m_claims x).
Definition hasClaim (name : bytes) x : res bool := isMember name (m_claims x).
Definition isAdmin x : res bool :=
  let? has := isMember (str "isAdmin") (m_claims x) in
  if has then let? v := getClaim (str "isAdmin") x in JSON_ASBOOL_D v false else Ret false.

Definition isValid (currentTime : Z) x : res bool :=
  let? exp := isMember (str "exp") (m_claims x) in
  let? expired := if exp then let? e := getExpirationTime x in Ret (currentTime >=? e) else Ret false in
  if expired then Ret false
  else
    let? nbf := isMember (str "nbf") (m_claims x) in
    let? early := if nbf then let? n := getNotBefore x in Ret (currentTime <? n) else Ret false in
    if early then Ret false
    else Ret (m_signatureVerified x && negb (m_revoked x)).
End Token.
End Token.

(** ** The cache of verified tokens (jwt_cache.cpp) *)

Module Cache.
Record t : Type := mk {
  m_cacheMaxByteCount : Z;
  m_cacheCurrentByteCount : Z;
  m_enabled : bool;
  m_tokenCache : gmap bytes bool;
  m_cacheQueue : list bytes
}.
Implicit Types c : t.

(** The constructor leaves [m_enabled] without a value. *)
Definition new (indeterminate : bool) : t := mk (1024 * 1024) 0 indeterminate ∅ [].

(** The copy constructor and the assignment. *)
Definition copy c : t := mk (m_cacheMaxByteCount c) (m_cacheCurrentByteCount c) (m_enabled c) (m_tokenCache c) (m_cacheQueue c).

(** The oldest tokens are removed while there are more bytes than the limit;
    the front of an empty queue has no meaning. *)
Fixpoint evict_loop (max current : Z) (table : gmap bytes bool) (queue : list bytes) : res unit * (Z * gmap bytes bool * list bytes) :=
  if current >? max then
    match queue with
    | [] => (Exc (undefined "front of an empty queue"), (current, table, queue))
    | evictedToken :: queue => evict_loop max (u64 (current - zlen evictedToken)) (delete evictedToken table) queue
    end
  else (Ret tt, (current, table, queue)).

Definition evictCache : st t unit := fun c =>
  let '(r, (current, table, queue)) := evict_loop (m_cacheMaxByteCount c) (m_cacheCurrentByteCount c) (m_tokenCache c) (m_cacheQueue c) in
  (r, mk (m_cacheMaxByteCount c) current (m_enabled c) table queue).

Definition setCacheMaxByteCount (maxByteCount : Z) : st t unit := fun c =>
  evictCache (mk maxByteCount (m_cacheCurrentByteCount c) (m_enabled c) (m_tokenCache c) (m_cacheQueue c)).
Definition getCacheMaxByteCount c : Z := m_cacheMaxByteCount c.

Definition clear c : t := mk (m_cacheMaxByteCount c) (m_cacheCurrentByteCount c) (m_enabled c) ∅ [].
Definition isEnabled c : bool := m_enabled c.
Definition setEnabled (newEnabled : bool) c : t :=
  let c := if newEnabled then c else clear c in
  mk (m_cacheMaxByteCount c) (m_cacheCurrentByteCount c) newEnabled (m_tokenCache c) (m_cacheQueue c).

Definition checkToken (payload : bytes) c : bool := m_enabled c && bool_decide (is_Some (m_tokenCache c !! payload)).

Definition add (payload : bytes) : st t unit := fun c =>
  if m_enabled c then
    evictCache (mk (m_cacheMaxByteCount c) (u64 (m_cacheCurrentByteCount c + zlen payload)) (m_enabled c)
                  (<[payload := true]> (m_tokenCache c)) (m_cacheQueue c ++ [payload]))
  else (Ret tt, c).
End Cache.

(** ** Revoked tokens (jwt_revocation.cpp) *)

Module Revocation.
Record t : Type := mk {
  m_expirationSignatures : list (Z * bytes);
  m_revokedTokens : gset bytes;
  m_stopGarbageCollector : bool;
  m_garbageCollectorInterval : Z
}.
Implicit Types r : t.

(** The constructor starts the collector, whose turns are [garbageCollector_round]. *)
Definition new : t := mk [] ∅ false 10.
Definition copy r : t := mk (m_expirationSignatures r) (m_revokedTokens r) (m_stopGarbageCollector r) (m_garbageCollectorInterval r).
Definition stop r : t := mk (m_expirationSignatures r) (m_revokedTokens r) true (m_garbageCollectorInterval r).

(** [std::multimap::insert]: after the entries of the same time. *)
Fixpoint multimap_insert_time (entry : Z * bytes) (m : list (Z * bytes)) : list (Z * bytes) :=
  match m with
  | [] => [entry]
  | x :: m' => if fst x <=? fst entry then x :: multimap_insert_time entry m' else entry :: m
  end.

Definition addToRevocationList (signature : bytes) (expirationTime : Z) r : t :=
  mk (multimap_insert_time (expirationTime, signature) (m_expirationSignatures r)) ({[signature]} ∪ m_revokedTokens r)
    (m_stopGarbageCollector r) (m_garbageCollectorInterval r).

Definition isSignatureRevoked (signature : bytes) r : bool := bool_decide (signature ∈ m_revokedTokens r).

(** The entries before [upper_bound(now)] and those from it on. *)
Fixpoint upper_bound (now : Z) (m : list (Z * bytes)) : list (Z * bytes) * list (Z * bytes) :=
  match m with
  | [] => ([], [])
  | x :: m' => if fst x <=? now then let (before, after) := upper_bound now m' in (x :: before, after) else ([], m)
  end.

Definition removeExpiredTokensFromRevocationList (now : Z) r : t :=
  let (expired, rest) := upper_bound now (m_expirationSignatures r) in
  mk rest (foldl (fun revoked e => revoked ∖ {[snd e]}) (m_revokedTokens r) expired)
    (m_stopGarbageCollector r) (m_garbageCollectorInterval r).

Definition garbageCollectorInterval r : Z := m_garbageCollectorInterval r.
Definition setGarbageCollectorInterval (interval : Z) r : t :=
  mk (m_expirationSignatures r) (m_revokedTokens r) (m_stopGarbageCollector r) interval.

(** What the collector does after a wait; [None]: it ends. *)
Definition garbageCollector_round (now : Z) r : option t :=
  if m_stopGarbageCollector r then None else Some (removeExpiredTokensFromRevocationList now r).
End Revocation.

(** ** Signing and verifying (jwt.cpp) *)

(** What the library uses of OpenSSL: whether a memory buffer and a digest
    context can be made, the reading of keys, the keyed digest, the buffer that
    the two calls of the signature leave, and the verdict on a signature. *)
Class OpenSSL (KEY : Type) : Type := {
  BIO_new_mem_buf : bytes -> bool;
  EVP_MD_CTX_new : bool;
  PEM_read_bio_PrivateKey : bytes -> option KEY;
  PEM_read_bio_PUBKEY : bytes -> option KEY;
  HMAC : Z -> bytes -> bytes -> bytes;
  EVP_DigestSignInit : Z -> KEY -> bool;
  EVP_DigestSignFinal : Z -> KEY -> bytes -> bytes;
  EVP_DigestVerifyFinal : Z -> KEY -> bytes -> bytes -> Z
}.

Inductive Result : Type := SIG_OK | SIG_EMPTY_KEY | SIG_ERROR_CREATING_SIGNATURE | SIG_ERROR_CREATING_RSA_OBJECT | SIG_ERROR_READING_KEY.

#[export] Instance Result_eq_dec : EqDecision Result.
Proof. solve_decision. Defined.

(** The digest with its size; the buffer made for an empty key, which nothing
    fills or reads, is left out. *)
Record RAWSignature : Type := mkRAWSignature { m_result : Result; m_digest : bytes }.

Definition isHMACAlgorithm (algorithm : bytes) : bool :=
  bool_decide (algorithm = str "HS256") || bool_decide (algorithm = str "HS384") || bool_decide (algorithm = str "HS512").
Definition isRSAAlgorithm (algorithm : bytes) : bool :=
  bool_decide (algorithm = str "RS256") || bool_decide (algorithm = str "RS384") || bool_decide (algorithm = str "RS512").
Definition isAlgorithmSupported (algorithm : bytes) : bool :=
  bool_decide (algorithm = str "HS256") || bool_decide (algorithm = str "RS256") || bool_decide (algorithm = str "HS384") ||
  bool_decide (algorithm = str "RS384") || bool_decide (algorithm = str "HS512") || bool_decide (algorithm = str "RS512").

Definition DOT : ascii := chr 46.

(** std::string::rfind. *)
Fixpoint rfind_char (c : ascii) (s : bytes) : option Z :=
  match s with
  | [] => None
  | x :: s => match rfind_char c s with
              | Some i => Some (i + 1)
              | None => if decide (x = c) then Some 0 else None
              end
  end.

(** The three parts of a token: before the first dot, up to the last one, and
    after it. *)
Definition split_token (fullSignedToken : bytes) : option (bytes * bytes * bytes) :=
  match memchr DOT fullSignedToken, rfind_char DOT fullSignedToken with
  | Some pos_header, Some pos_payload =>
      if pos_header >=? pos_payload then None
      else Some (ztake pos_header fullSignedToken, slice (pos_header + 1) (pos_payload - pos_header - 1) fullSignedToken,
                 zdrop (pos_payload + 1) fullSignedToken)
  | _, _ => None
  end.

Record JWT : Type := mkJWT {
  m_algorithm : Algorithm;
  m_sharedSecret : bytes;
  m_publicSecret : bytes;
  m_privateSecret : bytes;
  m_defaultExpirationTimeInSeconds : Z;
  m_defaultMaxTimeBeforeInSeconds : Z;
  verificationCallback : option (bytes -> bool);
  m_cache : Cache.t;
  m_revocation : Revocation.t
}.
Implicit Types j : JWT.

Definition JWT_new (indeterminate : bool) (algorithm : Algorithm) : JWT :=
  mkJWT algorithm [] [] [] 300 60 None (Cache.new indeterminate) Revocation.new.

Definition set_cache (c : Cache.t) j : JWT :=
  mkJWT (m_algorithm j) (m_sharedSecret j) (m_publicSecret j) (m_privateSecret j) (m_defaultExpirationTimeInSeconds j)
    (m_defaultMaxTimeBeforeInSeconds j) (verificationCallback j) c (m_revocation j).
Definition set_revocation (r : Revocation.t) j : JWT :=
  mkJWT (m_algorithm j) (m_sharedSecret j) (m_publicSecret j) (m_privateSecret j) (m_defaultExpirationTimeInSeconds j)
    (m_defaultMaxTimeBeforeInSeconds j) (verificationCallback j) (m_cache j) r.
Definition set_callback (f : option (bytes -> bool)) j : JWT :=
  mkJWT (m_algorithm j) (m_sharedSecret j) (m_publicSecret j) (m_privateSecret j) (m_defaultExpirationTimeInSeconds j)
    (m_defaultMaxTimeBeforeInSeconds j) f (m_cache j) (m_revocation j).
Definition setPrivateSecret (newPrivateSecret : bytes) j : JWT :=
  mkJWT (m_algorithm j) (m_sharedSecret j) (m_publicSecret j) newPrivateSecret (m_defaultExpirationTimeInSeconds j)
    (m_defaultMaxTimeBeforeInSeconds j) (verificationCallback j) (m_cache j) (m_revocation j).
Definition setPublicSecret (newPublicSecret : bytes) j : JWT :=
  mkJWT (m_algorithm j) (m_sharedSecret j) newPublicSecret (m_privateSecret j) (m_defaultExpirationTimeInSeconds j)
    (m_defaultMaxTimeBeforeInSeconds j) (verificationCallback j) (Cache.clear (m_cache j)) (m_revocation j).
Definition setSharedSecret (newSharedSecret : bytes) j : JWT :=
  mkJWT (m_algorithm j) newSharedSecret (m_publicSecret j) (m_privateSecret j) (m_defaultExpirationTimeInSeconds j)
    (m_defaultMaxTimeBeforeInSeconds j) (verificationCallback j) (Cache.clear (m_cache j)) (m_revocation j).
Definition setDefaultMaxTimeBeforeInSeconds (value : Z) j : JWT :=
  mkJWT (m_algorithm j) (m_sharedSecret j) (m_publicSecret j) (m_privateSecret j) (m_defaultExpirationTimeInSeconds j)
    value (verificationCallback j) (m_cache j) (m_revocation j).
Definition setDefaultMaxExpirationTimeInSeconds (value : Z) j : JWT :=
  mkJWT (m_algorithm j) (m_sharedSecret j) (m_publicSecret j) (m_privateSecret j) value
    (m_defaultMaxTimeBeforeInSeconds j) (verificationCallback j) (m_cache j) (m_revocation j).

Definition getHashTypeNumber j : Z := AlgorithmDetails.nid (AlgorithmDetails.of_algorithm (m_algorithm j)).

Section JWT.
Context {V : Type} `{JsonCpp V} {KEY : Type} `{OpenSSL KEY} `{Base64Encoder, Base64Decoder}.

Definition createHeader j : res bytes :=
  let? header := set_member (str "typ") (of_string (str "JWT")) nullValue in
  let? header := set_member (str "alg") (of_string (AlgorithmDetails.algorithmStr (AlgorithmDetails.of_algorithm (m_algorithm j)))) header in
  Ret (encodeToBase64 b64_encode (writeString header) true).

Definition createHMACSignature (hashType : Z) (data : bytes) j : RAWSignature :=
  match m_sharedSecret j with
  | [] => mkRAWSignature SIG_EMPTY_KEY []
  | secret => mkRAWSignature SIG_OK (HMAC hashType secret data)
  end.

(** A buffer that cannot be made leaves an empty signature that is called good. *)
Definition createRSASignature (hashType : Z) (data : bytes) j : RAWSignature :=
  if BIO_new_mem_buf (m_privateSecret j) then
    match PEM_read_bio_PrivateKey (m_privateSecret j) with
    | None => mkRAWSignature SIG_ERROR_READING_KEY []
    | Some pkey =>
        if negb EVP_MD_CTX_new then mkRAWSignature SIG_ERROR_CREATING_SIGNATURE []
        else if negb (EVP_DigestSignInit hashType pkey) then mkRAWSignature SIG_ERROR_CREATING_SIGNATURE []
        else match EVP_DigestSignFinal hashType pkey data with
             | [] => mkRAWSignature SIG_ERROR_CREATING_SIGNATURE []
             | digest => mkRAWSignature SIG_OK digest
             end
    end
  else mkRAWSignature SIG_OK [].

Definition createSignature (data : bytes) j : RAWSignature :=
  let algorithmDetails := AlgorithmDetails.of_algorithm (m_algorithm j) in
  if AlgorithmDetails.isUsingHMAC algorithmDetails then createHMACSignature (AlgorithmDetails.nid algorithmDetails) data j
  else createRSASignature (AlgorithmDetails.nid algorithmDetails) data j.

(** 0 for a valid signature, and also when a buffer or a context cannot be made. *)
Definition validateRSASignature (hashType : Z) (data signature : bytes) j : Z :=
  if BIO_new_mem_buf (m_publicSecret j) then
    match PEM_read_bio_PUBKEY (m_publicSecret j) with
    | None => -3
    | Some pkey =>
        if EVP_MD_CTX_new then
          if EVP_DigestVerifyFinal hashType pkey data (ztake (cast (Unsigned 32) (zlen signature)) signature) =? 1 then 0 else -1
        else 0
    end
  else 0.

Definition sign (payload : V) j : res bytes :=
  let payload_str := writeString payload in
  let? header_str := createHeader j in
  let payload_b64 := encodeToBase64 b64_encode payload_str true in
  let eSignature := createSignature (header_str ++ [DOT] ++ payload_b64) j in
  let signature := if decide (m_result eSignature = SIG_OK) then encodeToBase64 b64_encode (m_digest eSignature) true else [] in
  Ret (header_str ++ [DOT] ++ payload_b64 ++ [DOT] ++ signature).

(** The clock is read three times. *)
Definition signFromToken (updateDefaultTimeValues : bool) (time1 time2 time3 : Z) j : st (Token.t V) bytes :=
  do! (if updateDefaultTimeValues then
         do! Token.setExpirationTime (time1 + m_defaultExpirationTimeInSeconds j) in
         do! Token.setIssuedAt time2 in
         Token.setNotBefore (time3 - m_defaultMaxTimeBeforeInSeconds j)
       else ret tt) in
  fun token => (sign (Token.m_claims token) j, token).

(** The payload of a token that is trusted already. *)
Definition accept (now : Z) (payload_str : bytes) : st (JWT * Token.t V) bool := fun '(j, token) =>
  let token := Token.setSignatureVerified true (snd (Token.decodePayload payload_str token)) in
  (Token.isValid now token, (j, token)).

(** What follows the check of the signature. *)
Definition conclude (now : Z) (isSignatureVerified : bool) (payload_str signature_str : bytes) : st (JWT * Token.t V) bool :=
  fun '(j, token) =>
    let '(r, j, token) :=
      if isSignatureVerified then
        let (r, c) := Cache.add payload_str (m_cache j) in (r, set_cache c j, snd (Token.decodePayload payload_str token))
      else (Ret tt, j, token) in
    match r with
    | Exc e => (Exc e, (j, token))
    | Ret _ =>
        let token := Token.setRevoked (Revocation.isSignatureRevoked signature_str (m_revocation j)) (Token.setSignatureVerified isSignatureVerified token) in
        (Token.isValid now token, (j, token))
    end.

(** The signature against the algorithm that the header names. *)
Definition check_signature (alg header_b64 payload_b64 signature_str : bytes) j : option bool :=
  let data := header_b64 ++ [DOT] ++ payload_b64 in
  if isHMACAlgorithm alg then
    let computed_signature := createSignature data j in
    if decide (m_result computed_signature = SIG_OK) then
      Some ((zlen (m_digest computed_signature) >? 0) && (zlen (m_digest computed_signature) =? zlen signature_str) &&
            (memcmp (m_digest computed_signature) signature_str =? 0))
    else None
  else if isRSAAlgorithm alg then Some (validateRSASignature (getHashTypeNumber j) data signature_str j =? 0)
  else Some false.

Definition verify (now : Z) (fullSignedToken : bytes) : st (JWT * Token.t V) bool := fun s =>
  match split_token fullSignedToken with
  | None => (Ret false, s)
  | Some (header_b64, payload_b64, signature_b64) =>
      let header_str := decodeFromBase64 b64_decode header_b64 true in
      let payload_str := decodeFromBase64 b64_decode payload_b64 true in
      let signature_str := decodeFromBase64 b64_decode signature_b64 true in
      match verificationCallback (fst s) with
      | Some callback => if callback fullSignedToken then accept now payload_str s else (Ret false, s)
      | None =>
          if Cache.checkToken payload_str (m_cache (fst s)) then accept now payload_str s
          else
            let (parsed, header_json) := parse header_str nullValue in
            if negb parsed then (Ret false, s)
            else
              match JSON_ASSTRING header_json (str "alg") [] with
              | Exc e => (Exc e, s)
              | Ret incomingAlgorithm =>
                  if negb (isAlgorithmSupported incomingAlgorithm) then (Ret false, s)
                  else
                    match check_signature incomingAlgorithm header_b64 payload_b64 signature_str (fst s) with
                    | None => (Ret false, s)
                    | Some isSignatureVerified => conclude now isSignatureVerified payload_str signature_str s
                    end
              end
      end
  end.

Definition decodeNoVerify (fullSignedToken : bytes) (token : Token.t V) : bool * Token.t V :=
  match split_token fullSignedToken with
  | None => (false, token)
  | Some (_, payload_b64, _) => Token.decodePayload (decodeFromBase64 b64_decode payload_b64 true) token
  end.

Definition verifyAndDecodeTokenPayload (now : Z) (fullSignedToken : bytes) : st JWT (Token.t V) := fun j =>
  match verify now fullSignedToken (j, Token.new) with
  | (Ret true, (j, r)) => (Ret r, j)
  | (Ret false, (j, _)) => (Ret Token.new, j)
  | (Exc e, (j, _)) => (Exc e, j)
  end.
End JWT.
