(* ===== verification/Restful.v ===== *)
(** * Methods of a RESTful API (API_RESTful/methodshandler.h, methodshandler.cpp)

    Methods are registered by mode and name with what they require of the
    caller; [invokeResource] tests it, reads the JSON of the request, and calls
    the method. A method is a function on the context it was registered with,
    the request and the client: it may change its answer and the rest of the
    program, [W], and throw. The lock only orders the calls. *)

From stdpp Require Import gmap.
From S2P Require Import Prelude CText StreamableObject HttpLines HttpBase Json JsonModel StreamableJson ApiReturn Jwt.

(** ** The client (Sessions/session.h) *)

Module ClientDetails.
Record t : Type := mk { ipAddress : bytes; extraData : bytes; tlsCommonName : bytes; userAgent : bytes }.
Definition new : t := mk [] [] [] [].
End ClientDetails.

Inductive MethodMode : Type := GET | POST | PUT | DELETE.
#[export] Instance MethodMode_eq_dec : EqDecision MethodMode.
Proof. solve_decision. Defined.

Definition methodModeToString (mode : MethodMode) : bytes :=
  match mode with GET => str "GET" | POST => str "POST" | PUT => str "PUT" | DELETE => str "DELETE" end.
Definition stringToMethodMode (s : bytes) : MethodMode :=
  if bool_decide (s = str "GET") then GET
  else if bool_decide (s = str "POST") then POST
  else if bool_decide (s = str "PUT") then PUT
  else if bool_decide (s = str "DELETE") then DELETE
  else POST.

Inductive ErrorCodes : Type :=
  SUCCESS | INVALID_METHOD_MODE | RESOURCE_NOT_FOUND | AUTHENTICATION_REQUIRED | INSUFFICIENT_PERMISSIONS | INTERNAL_ERROR.
#[export] Instance ErrorCodes_eq_dec : EqDecision ErrorCodes.
Proof. solve_decision. Defined.

Definition REQUIRE_JWT_HEADER_AUTH : Z := 1.
Definition REQUIRE_JWT_COOKIE_AUTH : Z := 2.

Record SecurityParameters : Type := mkSecurity { haveJWTAuthHeader : bool; haveJWTAuthCookie : bool }.

(** Where [inputJSON] points: to the empty value of the parameters, to the
    value of the stream of the request, or nowhere. *)
Inductive input_pointer : Type := EMPTY_JSON | REQUEST_JSON | NULL_JSON.

Section Restful.
Context {V : Type} `{JsonCpp V} {J C W : Type}.

Definition getJSON (p : SecurityParameters) : res V :=
  let? j := set_member (str "haveJWTAuthHeader") (of_bool (haveJWTAuthHeader p)) nullValue in
  set_member (str "haveJWTAuthCookie") (of_bool (haveJWTAuthCookie p)) j.
Definition setJSON (j : V) : res SecurityParameters :=
  let? header := JSON_ASBOOL j (str "haveJWTAuthHeader") false in
  let? cookie := JSON_ASBOOL j (str "haveJWTAuthCookie") false in
  Ret (mkSecurity header cookie).

(** What the handler uses of a request of the server: the stream of its body
    when the content is JSON, the client, its agent. *)
Record ClientRequest : Type := mkRequest {
  getJSONStreamerContent : option (StreamableJSON V);
  rq_networkClientInfo : NetworkClientInfo;
  rq_userAgent : bytes
}.

Record RequestParameters : Type := mkParameters {
  clientRequest : option ClientRequest;
  pathParameters : V;
  emptyJSON : V;
  inputJSON : input_pointer;
  jwtToken : Token.t V;
  jwtValidator : option J;
  jwtSigner : option J
}.

Definition RequestParameters_new : RequestParameters := mkParameters None nullValue nullValue EMPTY_JSON Token.new None None.

Definition set_streamer (s : StreamableJSON V) (p : RequestParameters) : RequestParameters :=
  mkParameters (option_map (fun q => mkRequest (Some s) (rq_networkClientInfo q) (rq_userAgent q)) (clientRequest p))
    (pathParameters p) (emptyJSON p) (inputJSON p) (jwtToken p) (jwtValidator p) (jwtSigner p).
Definition set_input (x : input_pointer) (p : RequestParameters) : RequestParameters :=
  mkParameters (clientRequest p) (pathParameters p) (emptyJSON p) x (jwtToken p) (jwtValidator p) (jwtSigner p).

(** [*inputJSON], for the methods. *)
Definition input_value (p : RequestParameters) : option V :=
  match inputJSON p with
  | EMPTY_JSON => Some (emptyJSON p)
  | REQUEST_JSON => match clientRequest p with Some q => option_map m_root (getJSONStreamerContent q) | None => None end
  | NULL_JSON => None
  end.

Definition MethodType : Type := C -> RequestParameters -> ClientDetails.t -> st (W * APIReturn V) unit.

(** The permissions are those of the set, in its order. *)
Record RESTfulAPIDefinition : Type := mkDefinition {
  method : option MethodType;
  context : option C;
  requireJWTHeaderAuthentication : bool;
  requireJWTCookieAuthentication : bool;
  requiredPermissions : list bytes
}.

Definition RESTfulAPIDefinition_new : RESTfulAPIDefinition := mkDefinition None None true true [].

Record MethodsHandler : Type := mkHandler {
  m_methodsGET : gmap bytes RESTfulAPIDefinition;
  m_methodsPOST : gmap bytes RESTfulAPIDefinition;
  m_methodsPUT : gmap bytes RESTfulAPIDefinition;
  m_methodsDELETE : gmap bytes RESTfulAPIDefinition
}.
Implicit Types h : MethodsHandler.

Definition MethodsHandler_new : MethodsHandler := mkHandler ∅ ∅ ∅ ∅.

Definition methods (mode : MethodMode) h : gmap bytes RESTfulAPIDefinition :=
  match mode with GET => m_methodsGET h | POST => m_methodsPOST h | PUT => m_methodsPUT h | DELETE => m_methodsDELETE h end.

(** A mode has no other values, so nothing answers [false]. *)
Definition addResource (mode : MethodMode) (resourceName : bytes) (d : RESTfulAPIDefinition) h : bool * MethodsHandler :=
  (true,
   match mode with
   | GET => mkHandler (<[resourceName := d]> (m_methodsGET h)) (m_methodsPOST h) (m_methodsPUT h) (m_methodsDELETE h)
   | POST => mkHandler (m_methodsGET h) (<[resourceName := d]> (m_methodsPOST h)) (m_methodsPUT h) (m_methodsDELETE h)
   | PUT => mkHandler (m_methodsGET h) (m_methodsPOST h) (<[resourceName := d]> (m_methodsPUT h)) (m_methodsDELETE h)
   | DELETE => mkHandler (m_methodsGET h) (m_methodsPOST h) (m_methodsPUT h) (<[resourceName := d]> (m_methodsDELETE h))
   end).

Definition addResource_options (mode : MethodMode) (resourceName : bytes) (f : option MethodType) (ctx : option C)
    (SecurityOptions : Z) (permissions : list bytes) h : bool * MethodsHandler :=
  addResource mode resourceName
    (mkDefinition f ctx (negb (Z.land SecurityOptions REQUIRE_JWT_HEADER_AUTH =? 0))
       (negb (Z.land SecurityOptions REQUIRE_JWT_COOKIE_AUTH =? 0)) permissions) h.

(** REMOTE_ADDR is an array of characters. *)
Definition extractClientDetails (q : ClientRequest) : ClientDetails.t :=
  ClientDetails.mk (c_str (REMOTE_ADDR (rq_networkClientInfo q))) [] (tlsCommonName (rq_networkClientInfo q)) (rq_userAgent q).

(** *** The search

    The maps have their own ends; [it] is compared with that of the GET map. *)

Inductive iterator : Type := End (mode : MethodMode) | At (mode : MethodMode) (name : bytes).
#[export] Instance iterator_eq_dec : EqDecision iterator.
Proof. solve_decision. Defined.

Definition find_resource (mode : MethodMode) (resourceName : bytes) h : iterator * RESTfulAPIDefinition :=
  match methods mode h !! resourceName with
  | Some d => (At mode resourceName, d)
  | None => (End mode, RESTfulAPIDefinition_new)
  end.

(** *** The call *)

Record Invocation : Type := mkInvocation { world : W; parameters : RequestParameters; apiResponse : option (APIReturn V) }.

Definition on_parameters (f : RequestParameters -> RequestParameters) : st Invocation unit :=
  modify (fun i => mkInvocation (world i) (f (parameters i)) (apiResponse i)).

(** [apiResponse->f], where the pointer was not tested. *)
Definition on_response (f : st (APIReturn V) unit) : st Invocation unit := fun i =>
  match apiResponse i with
  | Some r => let (x, r) := f r in (x, mkInvocation (world i) (parameters i) (Some r))
  | None => (Exc (undefined "null apiResponse"), i)
  end.

(** The refusals: the error goes to the response if there is one. *)
Definition refuse (result : ErrorCodes) (code : Status.Codes) (message : bytes) : st Invocation ErrorCodes :=
  let! response := gets apiResponse in
  do! match response with
      | Some _ => on_response (setError code (str "invalid_invokation") message)
      | None => ret tt
      end in
  ret result.

(** The JSON of the request is read when its text is not empty; the answer is
    whether to go on. *)
Definition read_input (s : StreamableJSON V) : st Invocation bool :=
  let (text, s) := sj_toString s in
  do! on_parameters (set_streamer s) in
  let! text := lift_res text in
  match text with
  | [] => ret true
  | _ :: _ =>
      let (ok, s) := processValue s in
      do! on_parameters (set_streamer s) in
      if ok then do! on_parameters (set_input REQUEST_JSON) in ret true
      else
        do! on_parameters (set_input NULL_JSON) in
        do! on_response (setError Status.S_400_BAD_REQUEST (str "invalid_invokation") (str "Bad Input JSON Parsing")) in
        do! on_parameters (set_input EMPTY_JSON) in
        ret false
  end.

Definition run_method (f : MethodType) (ctx : C) (q : ClientRequest) (r : APIReturn V) : st Invocation unit := fun i =>
  let '(x, (w, r)) := f ctx (parameters i) (extractClientDetails q) (world i, r) in
  (x, mkInvocation w (parameters i) (Some r)).

(** [context] is null when nothing was given: the method gets what it was
    registered with. *)
Context (nullptr : C).

Definition get_request : st Invocation ClientRequest := fun i =>
  match clientRequest (parameters i) with
  | Some q => (Ret q, i)
  | None => (Exc (undefined "null clientRequest"), i)
  end.

(** What follows the tests of the caller. *)
Definition call_method (d : RESTfulAPIDefinition) : st Invocation ErrorCodes :=
  let! q := get_request in
  let! go_on := match getJSONStreamerContent q with Some s => read_input s | None => ret true end in
  if negb go_on then ret INTERNAL_ERROR
  else
    let! response := gets apiResponse in
    match method d, response with
    | Some f, Some r =>
        let! q := get_request in
        do! run_method f (default nullptr (context d)) q r in
        ret SUCCESS
    | _, _ => refuse INTERNAL_ERROR Status.S_500_INTERNAL_SERVER_ERROR (str "Internal error")
    end.

Definition invokeResource (mode : MethodMode) (resourceName : bytes) (currentPermissions : gset bytes)
    (securityParameters : SecurityParameters) h : st Invocation ErrorCodes :=
  let (it, d) := find_resource mode resourceName h in
  if bool_decide (it = End GET) then
    refuse RESOURCE_NOT_FOUND Status.S_404_NOT_FOUND (str "Resource not found")
  else if requireJWTHeaderAuthentication d && negb (haveJWTAuthHeader securityParameters) then
    refuse AUTHENTICATION_REQUIRED Status.S_403_FORBIDDEN (str "JWT Authentication Header Required")
  else if requireJWTCookieAuthentication d && negb (haveJWTAuthCookie securityParameters) then
    refuse AUTHENTICATION_REQUIRED Status.S_403_FORBIDDEN (str "JWT Authentication Cookie Required")
  else if negb (forallb (fun attr => bool_decide (attr ∈ currentPermissions)) (requiredPermissions d)) then
    refuse INSUFFICIENT_PERMISSIONS Status.S_401_UNAUTHORIZED (str "Insufficient permissions")
  else call_method d.

Definition mode_of (modeStr : bytes) : option MethodMode :=
  if bool_decide (modeStr = str "GET") then Some GET
  else if bool_decide (modeStr = str "POST") then Some POST
  else if bool_decide (modeStr = str "PUT") then Some PUT
  else if bool_decide (modeStr = str "DELETE") then Some DELETE
  else None.

Definition invokeResource_text (modeStr resourceName : bytes) (currentPermissions : gset bytes)
    (securityParameters : SecurityParameters) h : st Invocation ErrorCodes :=
  match mode_of modeStr with
  | Some mode => invokeResource mode resourceName currentPermissions securityParameters h
  | None => refuse INVALID_METHOD_MODE Status.S_400_BAD_REQUEST (str "Invalid method mode string")
  end.
End Restful.
Arguments ClientRequest : clear implicits.
Arguments RequestParameters : clear implicits.
Arguments MethodType : clear implicits.
Arguments RESTfulAPIDefinition : clear implicits.
Arguments MethodsHandler : clear implicits.
Arguments Invocation : clear implicits.

(** * Which methods of a RESTful API are called, and what refusals answer *)

Section Spec.
Context {V : Type} `{JsonCpp V} {J C W : Type} (nullptr : C).

Abbreviation Def := (RESTfulAPIDefinition V J C W).
Abbreviation Handler := (MethodsHandler V J C W).
Abbreviation Call := (Invocation V J W).

(** ** The abstract registry: the last registration of a mode and a name *)

Definition registration : Type := (MethodMode * bytes * Def)%type.

Definition register (h : Handler) (x : registration) : Handler :=
  let '(mode, name, d) := x in snd (addResource mode name d h).
Definition handler_of (regs : list registration) : Handler := foldl register MethodsHandler_new regs.

Definition registered (mode : MethodMode) (name : bytes) (regs : list registration) : option Def :=
  foldl (fun found (x : registration) => let '(m, n, d) := x in if decide (m = mode /\ n = name) then Some d else found) None regs.

Lemma methods_register mode name h m n d :
  methods mode (register h (m, n, d)) !! name = if decide (m = mode /\ n = name) then Some d else methods mode h !! name.
Proof.
  cbn [register]. destruct m, mode; cbn; rewrite ?lookup_insert; repeat case_decide; naive_solver.
Qed.

Lemma methods_handler_of mode name regs : methods mode (handler_of regs) !! name = registered mode name regs.
Proof.
  unfold handler_of, registered. induction regs as [|[[m n] d] regs IH] using rev_ind; [by destruct mode|].
  rewrite !foldl_app. cbn [foldl]. by rewrite methods_register, IH.
Qed.

(** What the caller needs for a method. *)
Definition allowed (sec : SecurityParameters) (perms : gset bytes) (d : Def) : Prop :=
  (requireJWTHeaderAuthentication d = true -> haveJWTAuthHeader sec = true) /\
  (requireJWTCookieAuthentication d = true -> haveJWTAuthCookie sec = true) /\
  Forall (fun p => p ∈ perms) (requiredPermissions d).

(** ** The parts of a call *)

(** A part that leaves the rest of the program and the response's presence alone. *)
Definition keeps_world {A} (m : st Call A) : Prop := forall i, world (snd (m i)) = world i.

Lemma keeps_bind {A B} (m : st Call A) (k : A -> st Call B) :
  keeps_world m -> (forall a, keeps_world (k a)) -> keeps_world (bind m k).
Proof. intros Hm Hk i. unfold bind. specialize (Hm i). destruct (m i) as [[a|e] i']; cbn in *; [by rewrite Hk|done]. Qed.

Lemma keeps_on_response f : keeps_world (on_response f).
Proof. intros i. unfold on_response. destruct (apiResponse i) as [r|]; [|done]. by destruct (f r). Qed.

Lemma keeps_refuse result code message : keeps_world (refuse result code message).
Proof.
  unfold refuse. apply keeps_bind; [done|]. intros response. apply keeps_bind; [|done].
  destruct response; [apply keeps_on_response|done].
Qed.

Lemma keeps_on_parameters f : keeps_world (on_parameters f).
Proof. done. Qed.

Lemma keeps_ret {A} (a : A) : keeps_world (ret a).
Proof. done. Qed.

#[local] Hint Resolve keeps_ret keeps_bind keeps_on_response keeps_refuse keeps_on_parameters : core.

Lemma keeps_read_input s : keeps_world (read_input s).
Proof.
  unfold read_input. destruct (sj_toString s) as [text s1]. apply keeps_bind; [done|]. intros _. apply keeps_bind; [done|].
  intros [|c text']; [done|]. destruct (processValue s1) as [[] s2]; auto 10.
Qed.

(** A refusal never answers that the method ran. *)
Lemma refuse_result result code message (i : Call) :
  result <> SUCCESS -> fst (refuse result code message i) <> Ret SUCCESS.
Proof.
  intros Hr. unfold refuse, bind, gets, ret. destruct (apiResponse i); [|by intros [= ?]].
  destruct (on_response _ i) as [[[]|e] i']; [by intros [= ?]|done].
Qed.

Lemma refuse_not_called result code message (i : Call) :
  result <> SUCCESS ->
  let (r, i') := refuse result code message i in world i' = world i /\ r <> Ret SUCCESS.
Proof.
  intros Hr. pose proof (keeps_refuse result code message i). pose proof (refuse_result result code message i Hr).
  by destruct (refuse result code message i).
Qed.

(** What calling [d] does: nothing but refuse, or the method on the world as it was. *)
Definition called (d : Def) (i : Call) (r : res ErrorCodes) (i' : Call) : Prop :=
  exists f p (q : ClientRequest V) a,
    method d = Some f /\
    let '(x, (w, a')) := f (default nullptr (context d)) p (extractClientDetails q) (world i, a) in
    world i' = w /\ apiResponse i' = Some a' /\ r = match x with Ret _ => Ret SUCCESS | Exc e => Exc e end.

Lemma call_method_called d (i : Call) :
  let (r, i') := call_method nullptr d i in
  (world i' = world i /\ r <> Ret SUCCESS) \/ called d i r i'.
Proof.
  unfold call_method. unfold bind at 1, get_request. destruct (clientRequest (parameters i)) as [q|] eqn:Eq; [|by left].
  unfold bind at 1.
  assert (Hw : keeps_world (match getJSONStreamerContent q with Some s => read_input s | None => ret true end))
    by (destruct (getJSONStreamerContent q); [apply keeps_read_input|done]).
  specialize (Hw i). destruct ((match getJSONStreamerContent q with Some s => read_input s | None => ret true end) i) as [[[]|e] i1];
    cbn [snd] in Hw; [|by left|by left]. cbn [negb]. unfold bind at 1, gets.
  destruct (method d) as [f|] eqn:Ef, (apiResponse i1) as [a|];
    try (pose proof (refuse_not_called INTERNAL_ERROR Status.S_500_INTERNAL_SERVER_ERROR (str "Internal error") i1 ltac:(done)) as Hr;
         destruct (refuse _ _ _ i1) as [r i']; left; by rewrite <- Hw).
  unfold bind at 1, get_request. destruct (clientRequest (parameters i1)) as [q1|]; [|by left].
  unfold bind, run_method, ret. rewrite Hw.
  destruct (f (default nullptr (context d)) (parameters i1) (extractClientDetails q1) (world i, a)) as [[[]|e] [w a']] eqn:Ex;
    right; exists f, (parameters i1), q1, a; by rewrite Ex.
Qed.

Lemma forallb_perms (perms : gset bytes) l :
  forallb (fun attr => bool_decide (attr ∈ perms)) l = true -> Forall (fun p => p ∈ perms) l.
Proof. intros Hl. apply Forall_forall. intros p Hp%list_elem_of_In. rewrite forallb_forall in Hl. by eapply bool_decide_eq_true, Hl. Qed.

Lemma perms_forallb (perms : gset bytes) l :
  Forall (fun p => p ∈ perms) l -> forallb (fun attr => bool_decide (attr ∈ perms)) l = true.
Proof. induction 1 as [|p l Hp _ IH]; [done|]. cbn [forallb]. by rewrite bool_decide_true, IH. Qed.

(** A caller with the rights of a method that is registered gets to it. *)
Lemma invoke_allowed mode name perms sec regs d (i : Call) :
  registered mode name regs = Some d -> allowed sec perms d ->
  invokeResource nullptr mode name perms sec (handler_of regs) i = call_method nullptr d i.
Proof.
  intros Hr (Hh & Hc & Hp). unfold invokeResource, find_resource. rewrite methods_handler_of, Hr, bool_decide_false by done.
  rewrite perms_forallb by done.
  destruct (requireJWTHeaderAuthentication d); [rewrite Hh by done|]; (destruct (requireJWTCookieAuthentication d); [rewrite Hc by done|]); done.
Qed.

(** A resource that is missing: the answer of each mode. *)
Lemma missing_get name perms sec regs (i : Call) :
  registered GET name regs = None ->
  invokeResource nullptr GET name perms sec (handler_of regs) i =
  refuse RESOURCE_NOT_FOUND Status.S_404_NOT_FOUND (str "Resource not found") i.
Proof. intros Hr. unfold invokeResource, find_resource. by rewrite methods_handler_of, Hr. Qed.

Lemma missing_other_is_not_found mode name perms regs (i : Call) :
  mode <> GET -> registered mode name regs = None ->
  invokeResource nullptr mode name perms (mkSecurity false false) (handler_of regs) i =
  refuse AUTHENTICATION_REQUIRED Status.S_403_FORBIDDEN (str "JWT Authentication Header Required") i.
Proof.
  intros Hm Hr. unfold invokeResource, find_resource. rewrite methods_handler_of, Hr.
  rewrite bool_decide_false by (intros E; congruence). done.
Qed.

(** ** A method that is called *)

Lemma call_method_json d (i : Call) f a q s v :
  method d = Some f -> apiResponse i = Some a -> clientRequest (parameters i) = Some q ->
  getJSONStreamerContent q = Some s -> m_root s = v -> m_formatted s = true -> m_isFull s = false ->
  zlen (toStyledString v) <= SSIZE_MAX ->
  parse (toStyledString v) v = (true, v) -> toStyledString v <> [] ->
  exists p, input_value p = Some v /\ pathParameters p = pathParameters (parameters i) /\ jwtToken p = jwtToken (parameters i) /\
    call_method nullptr d i =
    (let '(x, (w, a')) := f (default nullptr (context d)) p (extractClientDetails q) (world i, a) in
     (match x with Ret _ => Ret SUCCESS | Exc e => Exc e end, mkInvocation w p (Some a'))).
Proof.
  intros Hf Ha Hq Hs Hv Hfm Hfull Hl Hp Hne. unfold call_method. unfold bind at 1, get_request. rewrite Hq. unfold bind at 1. rewrite Hs.
  assert (Ht : sj_text s = toStyledString v) by (unfold sj_text; by rewrite Hfm, Hv).
  unfold read_input. rewrite sj_toString_text, Ht by (by rewrite Ht).
  unfold processValue. cbn [m_isFull m_strValue m_root set_strValue]. rewrite Hfull, Hv, Hp.
  destruct (toStyledString v) as [|c rest] eqn:Et; [done|].
  unfold bind at 1, on_parameters at 1, modify. cbn [world parameters apiResponse]. unfold bind at 1, lift_res. unfold bind at 1, on_parameters at 1, modify.
  cbn [world parameters apiResponse]. unfold bind at 1, on_parameters at 1, modify. cbn [world parameters apiResponse]. unfold ret at 1. cbn [negb].
  unfold bind at 1, gets. cbn [world parameters apiResponse]. rewrite Hf, Ha. unfold bind at 1, get_request.
  destruct (parameters i) as [cr pp ej ij jt jv js]. cbn [clientRequest] in Hq. subst cr.
  set (s1 := set_strValue (c :: rest) s). set (p := mkParameters (Some q) pp ej ij jt jv js).
  exists (set_input REQUEST_JSON (set_streamer (setValue v s1) (set_streamer s1 p))). split; [done|]. split; [done|]. split; [done|].
  cbn [set_streamer set_input clientRequest option_map parameters p]. unfold bind, run_method, ret, extractClientDetails.
  cbn [parameters world rq_networkClientInfo rq_userAgent].
  by match goal with |- context [f ?a ?b ?c ?d] => destruct (f a b c d) as [[[]|e] [w a']] end.
Qed.
End Spec.

Ltac refused :=
  match goal with
  | |- context [refuse ?a ?b ?c ?j] =>
      let Hr := fresh in pose proof (refuse_not_called a b c j ltac:(done)) as Hr; destruct (refuse a b c j); by left
  end.

(** C9: a method of the API changes the program only when it was registered
    under the mode and the name that are asked for, the last registration
    counting, and the caller has what it requires: the header token, the cookie
    token and every permission. It then acts on the program as it is before the
    call, and the answer tells whether it ran; otherwise nothing is changed and
    the answer is not that of success. *)
Theorem methods_are_called_with_rights {V J C W} `{JsonCpp V} (nullptr : C) (regs : list (registration (V := V) (J := J) (C := C) (W := W)))
    mode name perms sec i :
  let (r, i') := invokeResource nullptr mode name perms sec (handler_of regs) i in
  (world i' = world i /\ r <> Ret SUCCESS) \/
  exists d, registered mode name regs = Some d /\ allowed sec perms d /\ called nullptr d i r i'.
Proof.
  unfold invokeResource, find_resource. rewrite methods_handler_of.
  destruct (registered mode name regs) as [d|]; cycle 1.
  - cbn [requireJWTHeaderAuthentication requireJWTCookieAuthentication requiredPermissions RESTfulAPIDefinition_new andb forallb].
    case_bool_decide; [refused|]. do 2 (case_cond; [refused|]). cbn [negb].
    pose proof (call_method_called nullptr RESTfulAPIDefinition_new i) as Hc. destruct (call_method nullptr RESTfulAPIDefinition_new i) as [r i'].
    destruct Hc as [Hc|(f & ? & ? & ? & Hf & _)]; [by left|done].
  - rewrite bool_decide_false by done.
    repeat case_cond; zbool.
    1-3: refused.
    pose proof (call_method_called nullptr d i) as Hc. destruct (call_method nullptr d i) as [r i'].
    destruct Hc as [Hc|Hc]; [by left|]. right. exists d. split; [done|]. split; [|done].
    split; [|split; [|by apply forallb_perms]].
    all: intros Hreq; rewrite Hreq in *; cbn [andb] in *; by zbool.
Qed.

(** C10: a caller with the rights that a method requires, whose request carries a
    JSON value and who gives a place for the answer, has the method called once,
    with that value as its input, the path and the token of the request and the
    address of the client, on the program as it is. *)
Theorem authorised_calls_run {V J C W} `{JsonLaws V} (nullptr : C) (regs : list (registration (V := V) (J := J) (C := C) (W := W)))
    mode name perms sec (i : Invocation V J W) d f a q s v :
  registered mode name regs = Some d -> allowed sec perms d -> method d = Some f ->
  apiResponse i = Some a -> clientRequest (parameters i) = Some q ->
  getJSONStreamerContent q = Some s -> m_root s = v -> plain v -> m_formatted s = true -> m_isFull s = false ->
  zlen (toStyledString v) <= SSIZE_MAX ->
  exists p, input_value p = Some v /\ pathParameters p = pathParameters (parameters i) /\ jwtToken p = jwtToken (parameters i) /\
    invokeResource nullptr mode name perms sec (handler_of regs) i =
    (let '(x, (w, a')) := f (default nullptr (context d)) p (extractClientDetails q) (world i, a) in
     (match x with Ret _ => Ret SUCCESS | Exc e => Exc e end, mkInvocation w p (Some a'))).
Proof.
  intros Hr Hal Hf Ha Hq Hs Hv Hp Hfm Hfull Hl. rewrite (invoke_allowed nullptr mode name perms sec regs d i Hr Hal).
  eapply call_method_json; try done; [by apply parse_styled|apply styled_text].
Qed.

(** ** An example: a counter with two methods *)

Module Example.
Definition add_one : MethodType value unit unit Z := fun _ p _ => fun wr => let (w, r) := wr in (Ret tt, (w + 1, r)).
Definition regs : list (registration (V := value) (J := unit) (C := unit) (W := Z)) :=
  [(GET, str "count", mkDefinition None None false false []);
   (POST, str "count", mkDefinition (Some add_one) None true false [str "write"])].
Definition stream : StreamableJSON value := setValue (Text (str "x")) StreamableJSON_new.
Definition request : ClientRequest value := mkRequest (Some stream) (mkClientInfo (str "10.0.0.1") false []) (str "agent").
Definition call : Invocation value unit Z :=
  mkInvocation 7 (mkParameters (Some request) Null Null EMPTY_JSON Token.new None None) (Some APIReturn_new).
Definition writer : SecurityParameters := mkSecurity true false.
End Example.

Lemma methods_are_called_with_rights_witness :
  let (r, i') := invokeResource tt POST (str "count") ∅ Example.writer (handler_of Example.regs) Example.call in
  (world i' = 7 /\ r <> Ret SUCCESS) \/
  exists d, registered POST (str "count") Example.regs = Some d /\ allowed Example.writer ∅ d /\ called tt d Example.call r i'.
Proof. exact (methods_are_called_with_rights tt Example.regs POST (str "count") ∅ Example.writer Example.call). Defined.

Lemma authorised_calls_run_witness :
  exists p : RequestParameters value unit, input_value p = Some (Text (str "x")) /\
    fst (invokeResource tt POST (str "count") {[str "write"]} Example.writer (handler_of Example.regs) Example.call) = Ret SUCCESS /\
    world (snd (invokeResource tt POST (str "count") {[str "write"]} Example.writer (handler_of Example.regs) Example.call)) = 8.
Proof.
  destruct (authorised_calls_run tt Example.regs POST (str "count") {[str "write"]} Example.writer Example.call
              (mkDefinition (Some Example.add_one) None true false [str "write"]) Example.add_one APIReturn_new Example.request
              Example.stream (Text (str "x")) eq_refl) as (p & Hv & _ & _ & E).
  - split; [done|]. split; [done|]. constructor; [by apply elem_of_singleton|constructor].
  - done.
  - done.
  - done.
  - done.
  - done.
  - done.
  - done.
  - done.
  - by vm_compute.
  - exists p. split; [exact Hv|]. by rewrite E.
Defined.
