(* ===== verification/Sessions.v ===== *)
(** * Sessions and the methods of a monolithic API (Sessions/, API_Monolith/)

    A session is made from a verified token and keeps the time of its last use
    and variables of its own. [MethodsRequirements_Map] is the table of the
    permissions and roles each method requires, [MonolithHandler] the methods.
    Each call of a clock is an argument; the locks only order the calls. *)

From stdpp Require Import gmap.
From stdpp Require Import gmap sorting.
From S2P Require Import Prelude SafeInt CText Multimap Json JsonModel Jwt.

Section Session.
Context {V : Type} `{JsonCpp V}.

(** ** Session variables (session_vars.cpp) and the session (session.cpp) *)

Record Session : Type := mkSession {
  m_jwtAuthenticatedInfo : Token.t V;
  m_user : bytes;
  m_domain : bytes;
  m_impersonator : bytes;
  m_firstActivityTimestamp : Z;
  m_lastActivityTimestamp : Z;
  m_sessionVariables : gmap bytes V
}.
Implicit Types s : Session.

Definition set_variables (m : gmap bytes V) s : Session :=
  mkSession (m_jwtAuthenticatedInfo s) (m_user s) (m_domain s) (m_impersonator s) (m_firstActivityTimestamp s) (m_lastActivityTimestamp s) m.

Definition setSessionVariable (varName : bytes) (varValue : V) s : Session := set_variables (<[varName := varValue]> (m_sessionVariables s)) s.
Definition getSessionVariableValue (varName : bytes) s : V := default nullValue (m_sessionVariables s !! varName).
Definition doesSessionVariableExist (varName : bytes) s : bool := bool_decide (is_Some (m_sessionVariables s !! varName)).
Definition clearSessionVariable (varName : bytes) s : Session := set_variables (delete varName (m_sessionVariables s)) s.

(** The constructor reads the clock twice. *)
Definition Session_of (first last : Z) (jwt : Token.t V) : res Session :=
  let? impersonator := Token.getImpersonator jwt in
  let? domain := Token.getDomain jwt in
  let? user := Token.getSubject jwt in
  Ret (mkSession jwt user domain impersonator first last ∅).

Definition setLastActivity (value : Z) s : Session :=
  mkSession (m_jwtAuthenticatedInfo s) (m_user s) (m_domain s) (m_impersonator s) (m_firstActivityTimestamp s) value (m_sessionVariables s).
Definition updateLastActivity (now : Z) s : Session := setLastActivity now s.

Definition isLastActivityExpired (curTime expSeconds : Z) s : bool :=
  if m_lastActivityTimestamp s >? curTime then true
  else cast (Unsigned 32) (curTime - m_lastActivityTimestamp s) >? expSeconds.

(** ** What methods require (methodsrequirements_map.cpp) *)

Record MethodsRequirements_Map : Type := mkRequirements {
  m_methodRequiredPermissions : list (bytes * bytes);
  m_methodRequiredRoles : list (bytes * bytes)
}.
Implicit Types r : MethodsRequirements_Map.

Definition Requirements_new : MethodsRequirements_Map := mkRequirements [] [].

Definition insert_all (methodName : bytes) (names : list bytes) (m : list (bytes * bytes)) : list (bytes * bytes) :=
  foldl (fun m name => multimap_insert (methodName, name) m) m names.

Definition addMethodRequiredPermissions (methodName : bytes) (permissions : list bytes) r : MethodsRequirements_Map :=
  mkRequirements (insert_all methodName permissions (m_methodRequiredPermissions r)) (m_methodRequiredRoles r).
Definition addMethodRequiredRoles (methodName : bytes) (roles : list bytes) r : MethodsRequirements_Map :=
  mkRequirements (m_methodRequiredPermissions r) (insert_all methodName roles (m_methodRequiredRoles r)).

Definition getMethodRequiredPermissions (methodName : bytes) r : list bytes :=
  set_of (map snd (equal_range methodName (m_methodRequiredPermissions r))).
Definition getMethodRequiredRoles (methodName : bytes) r : list bytes :=
  set_of (map snd (equal_range methodName (m_methodRequiredRoles r))).

Definition erase (name : bytes) (set : list bytes) : list bytes := filter (fun x => x <> name) set.

(** The names that the token has are erased from [left]. *)
Fixpoint erase_held (held : bytes -> res bool) (required left : list bytes) : res (list bytes) :=
  match required with
  | [] => Ret left
  | name :: required =>
      let? has := held name in
      erase_held held required (if has then erase name left else left)
  end.

(** The answer, [rolesLeft] and [permissionsLeft]. The required roles are never
    put in [rolesLeft], which is assigned to itself. *)
Definition validateMethod (session : option Session) (methodName : bytes) (rolesLeft permissionsLeft : list bytes) r
  : res (bool * list bytes * list bytes) :=
  match session with
  | None => Ret (false, rolesLeft, permissionsLeft)
  | Some s =>
      let token := m_jwtAuthenticatedInfo s in
      let? isAdmin := Token.isAdmin token in
      let? authedRoles := Token.getAllRoles token in
      if (isAdmin : bool) then Ret (true, [], [])
      else
        let requiredRoles := getMethodRequiredRoles methodName r in
        let requiredPermissions := getMethodRequiredPermissions methodName r in
        let? permissionsLeft := erase_held (fun p => Token.hasPermission p token) requiredPermissions requiredPermissions in
        let? permissionsLeft := erase_held (fun p => Token.hasRole p token) requiredRoles permissionsLeft in
        Ret (bool_decide (rolesLeft = []) && bool_decide (permissionsLeft = []), rolesLeft, permissionsLeft)
  end.

(** ** The methods (methodshandler.cpp) *)

Inductive eMethodValidationCodes : Type := VALIDATION_OK | VALIDATION_METHODNOTFOUND | VALIDATION_NOTAUTHORIZED.

Definition METHOD_RET_CODE_SUCCESS : Z := 0.
Definition METHOD_RET_CODE_METHODNOTFOUND : Z := -9999.

Context {C W : Type}.

(** A method acts on the rest of the program and on the session it is given. *)
Record MonolithAPIMethod : Type := mkMethod {
  method : C -> V -> st (W * option Session) V;
  context : C
}.

Record MethodDefinition : Type := mkMethodDefinition {
  d_method : MonolithAPIMethod;
  methodName : bytes;
  reqPermissions : list bytes;
  reqRoles : list bytes;
  doUsageUpdateLastSessionActivity : bool;
  isActiveSessionRequired : bool
}.

Record MonolithHandler : Type := mkMonolith {
  m_methods : gmap bytes MonolithAPIMethod;
  m_methodRequireActiveSession : gmap bytes bool;
  m_methodUpdateSessionLastActivityOnUsage : gmap bytes bool;
  m_methodsPermissions : MethodsRequirements_Map
}.
Implicit Types h : MonolithHandler.

Definition MonolithHandler_new : MonolithHandler := mkMonolith ∅ ∅ ∅ Requirements_new.

Definition addMethod (d : MethodDefinition) h : bool * MonolithHandler :=
  match m_methods h !! methodName d with
  | Some _ => (false, h)
  | None =>
      (true, mkMonolith (<[methodName d := d_method d]> (m_methods h))
               (<[methodName d := isActiveSessionRequired d]> (m_methodRequireActiveSession h))
               (<[methodName d := doUsageUpdateLastSessionActivity d]> (m_methodUpdateSessionLastActivityOnUsage h))
               (addMethodRequiredRoles (methodName d) (reqRoles d)
                  (addMethodRequiredPermissions (methodName d) (reqPermissions d) (m_methodsPermissions h))))
  end.

(** [map[name]] of booleans: it adds what is missing. *)
Definition flag (name : bytes) (m : gmap bytes bool) : bool * gmap bytes bool :=
  match m !! name with Some b => (b, m) | None => (false, <[name := false]> m) end.

Definition set_require (m : gmap bytes bool) h : MonolithHandler :=
  mkMonolith (m_methods h) m (m_methodUpdateSessionLastActivityOnUsage h) (m_methodsPermissions h).
Definition set_update (m : gmap bytes bool) h : MonolithHandler :=
  mkMonolith (m_methods h) (m_methodRequireActiveSession h) m (m_methodsPermissions h).

Definition doesMethodRequireActiveSession (name : bytes) h : bool * MonolithHandler :=
  let (b, m) := flag name (m_methodRequireActiveSession h) in (b, set_require m h).

(** The code of the result and what the method answers; the rest of the
    program, the session and the handler are the state. *)
Definition invoke (now : Z) (name : bytes) (payload : V) : st (W * option Session * MonolithHandler) (Z * option V) := fun x =>
  let '(w, session, h) := x in
  match m_methods h !! name with
  | None => (Ret (METHOD_RET_CODE_METHODNOTFOUND, None), x)
  | Some f =>
      let '(r, (w, session)) := method f (context f) payload (w, session) in
      match r with
      | Exc e => (Exc e, (w, session, h))
      | Ret payloadOut =>
          let (update, m) := flag name (m_methodUpdateSessionLastActivityOnUsage h) in
          let h := set_update m h in
          if update then
            match session with
            | Some s => (Ret (METHOD_RET_CODE_SUCCESS, Some payloadOut), (w, Some (updateLastActivity now s), h))
            | None => (Exc (undefined "null session"), (w, None, h))
            end
          else (Ret (METHOD_RET_CODE_SUCCESS, Some payloadOut), (w, session, h))
      end
  end.

(** The answer, and the reasons where they are given. *)
Definition validateMethodRequirements (session : option Session) (name : bytes) (reasons : V) h
  : res (eMethodValidationCodes * V) * MonolithHandler :=
  match m_methods h !! name with
  | None => (Ret (VALIDATION_METHODNOTFOUND, reasons), h)
  | Some _ =>
      let (required, h) := doesMethodRequireActiveSession name h in
      if required && negb (bool_decide (is_Some session)) then (Ret (VALIDATION_NOTAUTHORIZED, reasons), h)
      else
        (let? answer := validateMethod session name [] [] (m_methodsPermissions h) in
         let '(ok, rolesLeft, permissionsLeft) := answer in
         if (ok : bool) then Ret (VALIDATION_OK, reasons)
         else
           let? roles := setToJSON rolesLeft in
           let? reasons := set_member (str "rolesLeft") roles reasons in
           let? permissions := setToJSON permissionsLeft in
           let? reasons := set_member (str "permissionsLeft") permissions reasons in
           Ret (VALIDATION_NOTAUTHORIZED, reasons), h)
  end.
End Session.
Arguments Session : clear implicits.
Arguments MonolithAPIMethod : clear implicits.
Arguments MethodDefinition : clear implicits.
Arguments MonolithHandler : clear implicits.

(** * What the validation of a method enforces, and the expiration of sessions *)

(** ** Sets as lists *)

Lemma elem_of_set_of x (l : list bytes) : x ∈ set_of l <-> x ∈ l.
Proof. unfold set_of. by rewrite (merge_sort_Permutation name_le), elem_of_remove_dups. Qed.

Lemma elem_of_equal_range {A} key (v : A) m : v ∈ map snd (equal_range key m) <-> (key, v) ∈ m.
Proof.
  rewrite list_elem_of_fmap. unfold equal_range. split.
  - intros ([k w] & -> & [Hk Hin]%list_elem_of_filter). cbn in Hk. by subst k.
  - intros Hin. exists (key, v). split; [done|]. by apply list_elem_of_filter.
Qed.

Lemma elem_of_insert_all x name names (m : list (bytes * bytes)) :
  x ∈ insert_all name names m <-> x ∈ m \/ exists v, v ∈ names /\ x = (name, v).
Proof.
  unfold insert_all. revert m. induction names as [|n names IH]; intros m; cbn [foldl].
  - split; [by left|]. intros [?|(v & Hv%elem_of_nil & _)]; done.
  - rewrite IH, insert_in. setoid_rewrite elem_of_cons. naive_solver.
Qed.

(** ** The registered methods: the first definition of a name counts *)

Section Registered.
Context {V : Type} `{JsonCpp V} {C W : Type}.
Abbreviation Def := (MethodDefinition V C W).

Definition register (h : MonolithHandler V C W) (d : Def) : MonolithHandler V C W := snd (addMethod d h).
Definition monolith_of (defs : list Def) : MonolithHandler V C W := foldl register MonolithHandler_new defs.

Definition first_definition (name : bytes) (defs : list Def) : option Def :=
  head (filter (fun d => methodName d = name) defs).

(** What the handler keeps of the definitions. *)
Definition agrees (h : MonolithHandler V C W) (defs : list Def) : Prop := forall name,
  m_methods h !! name = d_method <$> first_definition name defs /\
  m_methodRequireActiveSession h !! name = isActiveSessionRequired <$> first_definition name defs /\
  (forall p, (name, p) ∈ m_methodRequiredPermissions (m_methodsPermissions h) <->
     exists d, first_definition name defs = Some d /\ p ∈ reqPermissions d) /\
  (forall p, (name, p) ∈ m_methodRequiredRoles (m_methodsPermissions h) <->
     exists d, first_definition name defs = Some d /\ p ∈ reqRoles d).

Lemma first_definition_snoc name defs (d : Def) :
  first_definition name (defs ++ [d]) =
  match first_definition name defs with Some d' => Some d' | None => if decide (methodName d = name) then Some d else None end.
Proof.
  unfold first_definition. rewrite filter_app, filter_cons, filter_nil.
  destruct (filter (fun d => methodName d = name) defs); [cbn; by destruct (decide _)|done].
Qed.

Lemma agrees_register h defs d : agrees h defs -> agrees (register h d) (defs ++ [d]).
Proof.
  intros Ha name. destruct (Ha name) as (Hm & Hs & Hp & Hr). rewrite first_definition_snoc. unfold register, addMethod.
  destruct (Ha (methodName d)) as (Hm' & _ & Hp' & Hr'). destruct (m_methods h !! methodName d) as [f|] eqn:Ef.
  { cbn [snd]. destruct (first_definition name defs) as [d'|] eqn:Ed; [by split|].
    rewrite decide_False; [by split|]. intros <-. rewrite Ed in Hm'. done. }
  cbn [snd m_methods m_methodRequireActiveSession m_methodsPermissions addMethodRequiredRoles addMethodRequiredPermissions
       m_methodRequiredPermissions m_methodRequiredRoles].
  rewrite !lookup_insert. setoid_rewrite elem_of_insert_all. destruct (decide (methodName d = name)) as [<-|Hne].
  - destruct (first_definition (methodName d) defs) eqn:Ed; [done|]. cbn [fmap option_fmap option_map].
    split; [done|]. split; [done|]. split; intros p; rewrite ?Hp', ?Hr'; naive_solver.
  - destruct (first_definition name defs) eqn:Ed; (split; [done|]; split; [done|]; split; intros p; rewrite ?Hp, ?Hr; naive_solver).
Qed.

Lemma agrees_monolith_of defs : agrees (monolith_of defs) defs.
Proof.
  unfold monolith_of. induction defs as [|d defs IH] using rev_ind.
  - intros name. repeat split; intros Hin; [by apply elem_of_nil in Hin|naive_solver|by apply elem_of_nil in Hin|naive_solver].
  - rewrite foldl_app. by apply agrees_register.
Qed.

(** ** The token *)

(** What a token says of its owner. *)
Definition token_grants (token : Token.t V) (admin : bool) (permissions roles : list bytes) : Prop :=
  Token.isAdmin token = Ret admin /\ (exists l, Token.getAllRoles token = Ret l) /\
  (forall p, Token.hasPermission p token = Ret (bool_decide (p ∈ permissions))) /\
  (forall r, Token.hasRole r token = Ret (bool_decide (r ∈ roles))).

Lemma erase_held_spec held (has : list bytes) required left :
  (forall p, held p = Ret (bool_decide (p ∈ has))) ->
  erase_held held required left = Ret (filter (fun x => ~ (x ∈ required /\ x ∈ has)) left).
Proof.
  intros Hh. revert left. induction required as [|r required IH]; intros left; cbn [erase_held].
  - f_equal. symmetry. induction left as [|x left IH]; [done|]. rewrite filter_cons_True, IH; [done|]. by intros [?%elem_of_nil _].
  - rewrite Hh. cbn [res_bind]. rewrite IH. f_equal. case_bool_decide as Hr; [unfold erase; rewrite list_filter_filter|]; apply list_filter_iff; intros x;
      rewrite elem_of_cons; naive_solver.
Qed.

Lemma filter_nil_iff {A} (P : A -> Prop) `{!forall x, Decision (P x)} (l : list A) : filter P l = [] <-> forall x, x ∈ l -> ~ P x.
Proof.
  split.
  - intros E x Hx HP. assert (Hin : x ∈ filter P l) by (by apply list_elem_of_filter). rewrite E in Hin. by apply elem_of_nil in Hin.
  - intros Hn. destruct (filter P l) as [|x l'] eqn:E; [done|]. exfalso.
    assert (Hin : x ∈ filter P l) by (rewrite E; apply elem_of_cons; by left). apply list_elem_of_filter in Hin as [HP Hx]. by apply (Hn x).
Qed.

Lemma validateMethod_answer defs d s admin permissions roles :
  let name := methodName d in
  first_definition name defs = Some d -> token_grants (m_jwtAuthenticatedInfo s) admin permissions roles ->
  exists left, validateMethod (Some s) name [] [] (m_methodsPermissions (monolith_of defs)) =
    Ret (admin || bool_decide (left = []), [], left) /\
    (admin = true -> left = []) /\
    (left = [] <-> admin = true \/ forall p, p ∈ reqPermissions d -> p ∈ permissions \/ (p ∈ reqRoles d /\ p ∈ roles)).
Proof.
  intros name Hd (Hadmin & [l Hl] & Hp & Hr). destruct (agrees_monolith_of defs name) as (_ & _ & Hperms & Hroles).
  unfold validateMethod. rewrite Hadmin, Hl. cbn [res_bind]. destruct admin.
  { exists []. split; [done|]. split; [done|]. naive_solver. }
  rewrite (erase_held_spec _ permissions) by done. cbn [res_bind]. rewrite (erase_held_spec _ roles) by done. cbn [res_bind].
  eexists. split; [by rewrite (bool_decide_true ([] = [])) by done|]. split; [done|].
  assert (Hep : forall p, p ∈ getMethodRequiredPermissions name (m_methodsPermissions (monolith_of defs)) <-> p ∈ reqPermissions d).
  { intros p. unfold getMethodRequiredPermissions. rewrite elem_of_set_of, elem_of_equal_range, Hperms. naive_solver. }
  assert (Her : forall p, p ∈ getMethodRequiredRoles name (m_methodsPermissions (monolith_of defs)) <-> p ∈ reqRoles d).
  { intros p. unfold getMethodRequiredRoles. rewrite elem_of_set_of, elem_of_equal_range, Hroles. naive_solver. }
  rewrite filter_nil_iff. setoid_rewrite list_elem_of_filter. setoid_rewrite Hep. setoid_rewrite Her. split.
  - intros Hall. right. intros p Hin. destruct (decide (p ∈ permissions)) as [|Hno]; [by left|]. right.
    apply dec_stable. intros Hnr. apply (Hall p); [|done]. split; [naive_solver|done].
  - intros [|Hall]; [done|]. intros p [Hno Hin]. destruct (Hall p Hin); naive_solver.
Qed.
End Registered.

Lemma first_definition_name {V C W} name (defs : list (MethodDefinition V C W)) d : first_definition name defs = Some d -> methodName d = name.
Proof.
  unfold first_definition. intros Ed. assert (Hin : d ∈ filter (fun d => methodName d = name) defs).
  { destruct (filter _ defs); [done|]. injection Ed as ->. apply elem_of_cons. by left. }
  by apply list_elem_of_filter in Hin as [? _].
Qed.

(** When the code validates a call: the method is registered, a session is there,
    and its token is that of an administrator or has each permission the first
    definition of the method requires. A required role is never missed, against
    what the comments say: all it does is to stand for the permission of the
    same name; and a method that needs no session is refused without one. *)
Theorem validation_enforces_permissions {V C W} `{JsonLaws V} (defs : list (MethodDefinition V C W)) name session reasons :
  (forall s, session = Some s -> exists admin permissions roles, token_grants (m_jwtAuthenticatedInfo s) admin permissions roles) ->
  fst (validateMethodRequirements session name reasons (monolith_of defs)) = Ret (VALIDATION_OK, reasons) <->
  exists d s admin permissions roles,
    first_definition name defs = Some d /\ session = Some s /\ token_grants (m_jwtAuthenticatedInfo s) admin permissions roles /\
    (admin = true \/ forall p, p ∈ reqPermissions d -> p ∈ permissions \/ (p ∈ reqRoles d /\ p ∈ roles)).
Proof.
  intros Hs. destruct (agrees_monolith_of defs name) as (Hm & Hq & _). unfold validateMethodRequirements. rewrite Hm.
  destruct (first_definition name defs) as [d|] eqn:Ed; cbn [fmap option_fmap option_map]; cycle 1.
  { split; [intros [=]|]. intros (? & ? & ? & ? & ? & [=] & _). }
  pose proof (first_definition_name name defs d Ed) as Hn.
  unfold doesMethodRequireActiveSession, flag. rewrite Hq, ?Ed. cbn [fmap option_fmap option_map].
  destruct session as [s|].
  2: { split; [|naive_solver]. rewrite bool_decide_false by (intros [? [=]]). destruct (isActiveSessionRequired d); cbn; [by intros [=]|].
       intros E. exfalso. repeat (match type of E with context [res_bind ?m _] => destruct m; cbn [res_bind] in E; [|done] end). done. }
  rewrite bool_decide_true, andb_false_r by (by eexists). cbn [fst set_require m_methodsPermissions].
  destruct (Hs s eq_refl) as (admin & permissions & roles & Hg). subst name.
  destruct (validateMethod_answer defs d s admin permissions roles Ed Hg) as (left & E & Hadm & Hleft). rewrite E. cbn [res_bind].
  split.
  - intros Hok. exists d, s, admin, permissions, roles. split; [done|]. split; [done|]. split; [done|]. apply Hleft.
    destruct admin; [by apply Hadm|]. cbn [orb] in Hok. case_bool_decide; [done|].
    repeat (match type of Hok with context [res_bind ?m _] => destruct m; cbn [res_bind] in Hok; [|done] end). done.
  - intros (d' & s' & admin' & permissions' & roles' & [= <-] & [= <-] & Hg' & Hall).
    destruct (validateMethod_answer defs d s admin' permissions' roles' Ed Hg') as (left' & E' & _ & Hleft').
    rewrite E in E'. injection E' as E1 E2. subst left'. apply Hleft' in Hall as ->. by destruct admin.
Qed.

(** C11: what a monolithic handler answers for a call, by the first definition of
    its method: not found, when there is none; not authorized without a session,
    when the definition requires one; with a session, authorized when its token
    is that of an administrator or has every permission and every role that the
    definition requires, and not authorized when it is not an administrator's
    and lacks a required permission (the name of which is not that of a required
    role too). What is answered to a token that lacks required roles only, or
    without a session for a method that requires none, is not part of it. *)
Theorem permissions_are_enforced {V C W} `{JsonLaws V} (defs : list (MethodDefinition V C W)) name session :
  let answer := fst (validateMethodRequirements session name nullValue (monolith_of defs)) in
  match first_definition name defs, session with
  | None, _ => answer = Ret (VALIDATION_METHODNOTFOUND, nullValue)
  | Some d, None => isActiveSessionRequired d = true -> answer = Ret (VALIDATION_NOTAUTHORIZED, nullValue)
  | Some d, Some s => forall admin permissions roles, token_grants (m_jwtAuthenticatedInfo s) admin permissions roles ->
      (admin = true \/ reqPermissions d ⊆ permissions /\ reqRoles d ⊆ roles -> answer = Ret (VALIDATION_OK, nullValue)) /\
      (forall p, admin = false -> p ∈ reqPermissions d -> p ∉ permissions -> p ∉ reqRoles d ->
         match answer with Ret (code, _) => code = VALIDATION_NOTAUTHORIZED | Exc _ => True end)
  end.
Proof.
  destruct (agrees_monolith_of defs name) as (Hm & Hq & _). unfold validateMethodRequirements. rewrite Hm.
  destruct (first_definition name defs) as [d|] eqn:Ed; cbn [fmap option_fmap option_map]; [|done].
  pose proof (first_definition_name name defs d Ed) as Hn. unfold doesMethodRequireActiveSession, flag. rewrite Hq. cbn [fmap option_fmap option_map].
  destruct session as [s|]; cycle 1.
  { intros ->. by rewrite bool_decide_false by by intros []. }
  intros admin permissions roles Hg. rewrite bool_decide_true, andb_false_r by (by eexists). cbn [fst set_require m_methodsPermissions]. subst name.
  destruct (validateMethod_answer defs d s admin permissions roles Ed Hg) as (left & E & Hadm & Hleft). rewrite E. cbn [res_bind]. split.
  - intros Hok. assert (Hl : left = []) by (apply Hleft; destruct Hok as [|[Hp _]]; [by left|right; intros p ?%Hp; by left]).
    rewrite Hl, bool_decide_true, orb_true_r by done. done.
  - intros p -> Hp Hno Hrole. cbn [orb]. case_bool_decide as Hl; [|by repeat (match goal with |- context [res_bind ?m _] => destruct m; cbn [res_bind]; [|done] end)].
    apply Hleft in Hl as [|Hl]; [done|]. by destruct (Hl p Hp) as [|[]].
Qed.

(** ** An example *)

Module Example.
Definition list_of (texts : list bytes) : value := foldr (fun s r => Element (Text s) r) NoElements texts.
Definition claims : value := put (str "permissions") (list_of [str "read"]) (put (str "roles") (list_of [str "dev"]) NoMembers).
Definition session : Session value := mkSession (Token.mk claims true false) (str "ann") [] [] 0 0 ∅.

Definition answer (_ : unit) (payload : value) : st (Z * option (Session value)) value := fun x => (Ret payload, x).
Definition defs : list (MethodDefinition value unit Z) :=
  [mkMethodDefinition (mkMethod answer tt) (str "show") [str "read"] [str "admin"] false true;
   mkMethodDefinition (mkMethod answer tt) (str "drop") [str "write"] [] false true].

Lemma grants : token_grants (m_jwtAuthenticatedInfo session) false [str "read"] [str "dev"].
Proof.
  split; [done|]. split; [by eexists|]. split.
  - intros p. change (Token.hasPermission p (m_jwtAuthenticatedInfo session)) with (if bool_decide (str "read" = p) then Ret true else Ret false).
    do 2 case_bool_decide; subst; set_solver.
  - intros p. change (Token.hasRole p (m_jwtAuthenticatedInfo session)) with (if bool_decide (str "dev" = p) then Ret true else Ret false).
    do 2 case_bool_decide; subst; set_solver.
Qed.
End Example.

(** The method asks for the role admin, which the token does not have. *)
Lemma permissions_are_enforced_witness :
  fst (validateMethodRequirements (Some Example.session) (str "drop") nullValue (monolith_of Example.defs)) <> Ret (VALIDATION_OK, Null) /\
  fst (validateMethodRequirements None (str "drop") nullValue (monolith_of Example.defs)) = Ret (VALIDATION_NOTAUTHORIZED, Null).
Proof.
  split; [|exact (permissions_are_enforced Example.defs (str "drop") None eq_refl)].
  pose proof (permissions_are_enforced Example.defs (str "drop") (Some Example.session) false [str "read"] [str "dev"] Example.grants) as [_ Hno].
  specialize (Hno (str "write") eq_refl). intros E. rewrite E in Hno.
  assert (VALIDATION_OK = VALIDATION_NOTAUTHORIZED); [|discriminate]. apply Hno.
  - by apply list_elem_of_singleton.
  - intros Hin%list_elem_of_singleton. discriminate Hin.
  - by intros Hin%elem_of_nil.
Defined.

(** ** Expiration *)

(** A session is expired when its last use is in the future or longer ago than
    the limit, for times that are less than 136 years apart. *)
Lemma expired_spec {V} (s : Session V) now limit :
  now - m_lastActivityTimestamp s < 2 ^ 32 ->
  isLastActivityExpired now limit s = true <-> now < m_lastActivityTimestamp s \/ limit < now - m_lastActivityTimestamp s.
Proof.
  intros Hb. unfold isLastActivityExpired. case_cond; zbool; [naive_solver lia|].
  change (cast (Unsigned 32) ?z) with (z mod 2 ^ 32). rewrite Z.mod_small by lia. rewrite Z.gtb_ltb, Z.ltb_lt. naive_solver lia.
Qed.
