(* ===== verification/WebSessions.v ===== *)
(** * Web sessions (Server_MonolithWebAPI/sessionsmanager.h, sessionsmanager.cpp)

    The manager keeps its sessions in the map of SafeMap.v and, under a mutex of
    its own, the identifiers that each user has. [exec] is the system of the
    threads that create, open, destroy and collect sessions; between two
    critical sections any other thread may run. A step that locks the map is a
    step of the system of SafeMap.v. Identifiers are random, and the model lets
    none come twice. *)

From stdpp Require Import gmap sorting.
From S2P Require Import Prelude SafeInt CText Random Json Interleave SafeMap Sessions.

(** The text is that of the regular expression: nothing, or twelve letters and
    digits, a colon, and twelve more. *)
Definition validateSessionIDFormat (sessionID : bytes) : bool :=
  bool_decide (sessionID = []) ||
  ((zlen sessionID =? 25) && forallb isalnum (ztake 12 sessionID) &&
   bool_decide (ztake 1 (zdrop 12 sessionID) = str ":") && forallb isalnum (zdrop 13 sessionID)).

Definition new_session_id `{RandomSource} : st nat bytes :=
  let! a := createRandomString 12 in
  let! b := createRandomString 12 in
  ret (a ++ str ":" ++ b).

(** RPCLog::truncateSessionId *)
Definition truncateSessionId (sSessionId : bytes) : bytes :=
  if zlen sSessionId >? 12 then ztake 12 sSessionId else sSessionId.

Section WebSessions.
Context {V : Type} `{JsonCpp V}.

(** The session of a web session is shared: it is known by its place. *)
Record WebSession : Type := mkWebSession { authSession : positive; networkClientInfo : V }.

Definition compareUserAgent (agent : bytes) (w : WebSession) : res bool :=
  let? a := JSON_ASSTRING (networkClientInfo w) (str "userAgent") [] in Ret (bool_decide (a = agent)).
Definition compareRemoteAddress (address : bytes) (w : WebSession) : res bool :=
  let? a := JSON_ASSTRING (networkClientInfo w) (str "remoteAddress") [] in Ret (bool_decide (a = address)).

(** ** The identifiers of the users *)

Abbreviation client_info := (gmap bytes (gmap bytes V)) (only parsing).

(** [None] when the user has too many. *)
Definition register (max : Z) (user id : bytes) (info : V) (m : client_info) : option client_info :=
  match m !! user with
  | None => Some (<[user := {[id := info]}]> m)
  | Some ids => if Z.of_nat (size ids) >=? max then None else Some (<[user := <[id := info]> ids]> m)
  end.

Definition unregister (user id : bytes) (m : client_info) : res client_info :=
  match m !! user with
  | None => Exc (runtime_error "Unregistered Session??")
  | Some ids =>
      match ids !! id with
      | None => Exc (runtime_error "Unregistered Session??")
      | Some _ => let ids := delete id ids in Ret (if decide (ids = ∅) then delete user m else <[user := ids]> m)
      end
  end.

(** The sessions of a user in the order of their identifiers; asking for a user
    without any makes an entry for him. *)
Fixpoint put_infos (l : list (bytes * V)) (r : V) : res V :=
  match l with
  | [] => Ret r
  | (id, info) :: l => let? r := set_member (truncateSessionId id) info r in put_infos l r
  end.
Definition in_order (ids : gmap bytes V) : list (bytes * V) :=
  foldr (fun id l => match ids !! id with Some v => (id, v) :: l | None => l end) [] (merge_sort name_le (base.elements (dom ids))).
Definition getUserSessionsInfo (effectiveUserName : bytes) (m : client_info) : res V * client_info :=
  match m !! effectiveUserName with
  | Some ids => (put_infos (in_order ids) nullValue, m)
  | None => (Ret nullValue, <[effectiveUserName := ∅]> m)
  end.

(** [*maxAge] of a session that is opened, from the two times it reads. *)
Definition session_maxAge (m_MaxInactiveSeconds now1 now2 : Z) (s : Session V) : Z :=
  let lastActivity := u64 (m_lastActivityTimestamp s) in
  if isLastActivityExpired now1 m_MaxInactiveSeconds s then 0
  else
    let expirationTime := u64 (lastActivity + m_MaxInactiveSeconds) in
    let currentTime := u64 now2 in
    if expirationTime >? currentTime then u64 (expirationTime - currentTime) else 0.

(** ** The threads *)

(** Where a thread is between two critical sections. *)
Inductive mthread : Type :=
| Creating (id : bytes) (p : positive)                   (** createSession, registered *)
| Opened (id : bytes) (p : positive) (user : bytes)      (** destroySession, with the session open *)
| Released (id : bytes) (user : bytes)                   (** before destroyElement *)
| Asleep (id : bytes) (user : option bytes) (keys : list bytes)
    (** in destroyElement, of destroySession or of the collector *)
| Unregistering (id : bytes) (user : bytes)
| Reading (id : bytes) (p : positive)                    (** after openSession *)
| Collecting (keys : list bytes)                         (** gc, with the keys left *)
| Looking (id : bytes) (p : positive) (keys : list bytes)
| Expired (id : bytes) (keys : list bytes).

Record manager : Type := mkManager {
  m_sessions : SafeMap.state (K := bytes);
  webSessions : gmap positive WebSession;
  sessions : gmap positive (Session V);
  m_sessionClientInfo : client_info;
  mthreads : gmap tid mthread;
  issued : gmap bytes bytes;      (** the identifiers given so far, with their users *)
  failures : list exc             (** what threads threw *)
}.
Implicit Types s : manager.

Context (m_MaxInactiveSeconds m_maxSessionsPerUser : Z).

Definition initial s : Prop := exists ss, s = mkManager (SafeMap.mkState ∅ (mkHeap ∅ ∅ []) ∅ [] ∅) ∅ ss ∅ ∅ ∅ [].

Definition with_map (m : SafeMap.state) s : manager :=
  mkManager m (webSessions s) (sessions s) (m_sessionClientInfo s) (mthreads s) (issued s) (failures s).
Definition with_info (m : client_info) s : manager :=
  mkManager (m_sessions s) (webSessions s) (sessions s) m (mthreads s) (issued s) (failures s).
Definition with_thread (t : tid) (th : mthread) s : manager :=
  mkManager (m_sessions s) (webSessions s) (sessions s) (m_sessionClientInfo s) (<[t := th]> (mthreads s)) (issued s) (failures s).
Definition without_thread (t : tid) s : manager :=
  mkManager (m_sessions s) (webSessions s) (sessions s) (m_sessionClientInfo s) (delete t (mthreads s)) (issued s) (failures s).
Definition with_failure (e : exc) s : manager :=
  mkManager (m_sessions s) (webSessions s) (sessions s) (m_sessionClientInfo s) (mthreads s) (issued s) (e :: failures s).

(** The session of an item, and its user. *)
Definition session_at (p : positive) s : option (Session V) :=
  match webSessions s !! p with Some w => sessions s !! authSession w | None => None end.
Definition user_at (p : positive) s : option bytes := option_map m_user (session_at p s).

(** An operation of the map by a thread. *)
Definition on_map (l : SafeMap.label (K := bytes)) (k : manager -> option manager) s : option manager :=
  match SafeMap.exec l (m_sessions s) with Some m => k (with_map m s) | None => None end.

Definition elements_of_map s : gmap bytes MapElement := m_keyValueMap (m_sessions s).

Inductive label : Type :=
| NewSession (r : positive) (x : Session V)
| Touch (r : positive) (now : Z)                         (** updateLastActivity *)
| Create (t : tid) (r : positive) (id : bytes) (info : V) (p : positive)
| DestroySession (t : tid) (id : bytes)
| OpenSession (t : tid) (id : bytes)
| Gc (t : tid)
| Info (user : bytes)
| Continue (t : tid) (choice : option tid) (now : Z)
| Wake (t : tid).                                        (** a spurious wake-up *)

(** createSession up to the insertion in the map; [None] is returned as the
    empty identifier. *)
Definition create (t : tid) (id : bytes) (info : V) (p r : positive) s : option manager :=
  match sessions s !! r with
  | None => None
  | Some x =>
      match register m_maxSessionsPerUser (m_user x) id info (m_sessionClientInfo s) with
      | None => Some s
      | Some m =>
          on_map (New p) (fun s =>
            Some (mkManager (m_sessions s) (<[p := mkWebSession r info]> (webSessions s)) (sessions s) m
                    (<[t := Creating id p]> (mthreads s)) (<[id := m_user x]> (issued s)) (failures s))) s
      end
  end.

(** openElement, and what is done with what it finds. *)
Definition open_then (id : bytes) (found : positive -> manager -> option manager) (none : manager -> option manager) s : option manager :=
  let r := fst (openElement id (elements_of_map s)) in
  on_map (Open id) (fun s => match r with Some p => found p s | None => none s end) s.

(** destroyElement: nothing to destroy, asleep until the readers are gone, or done. *)
Definition destroy_then (t : tid) (id : bytes) (choice : option tid)
    (nothing asleep done : manager -> option manager) s : option manager :=
  let r := fst (destroyElement_begin id (elements_of_map s)) in
  on_map (Destroy t id choice) (fun s =>
    match r with
    | None => nothing s
    | Some _ => if bool_decide (is_Some (threads (m_sessions s) !! t)) then asleep s else done s
    end) s.

Definition after_destroy (t : tid) (id : bytes) (user : option bytes) (keys : list bytes) s : option manager :=
  Some (with_thread t (match user with Some u => Unregistering id u | None => Collecting keys end) s).

(** The end of createSession: the insertion, or the deletion where there is an
    element under the identifier. *)
Definition insert_session (t : tid) (id : bytes) (p : positive) s : option manager :=
  if isMember id (elements_of_map s) then
    let m := m_sessions s in
    Some (without_thread t (with_map (mkState (m_keyValueMap m) (deleteItem p (heap m)) (threads m) (handles m) (owned m ∖ {[p]})) s))
  else on_map (Add id (Some p)) (fun s => Some (without_thread t s)) s.

Definition openSession (t : tid) (id : bytes) s : option manager :=
  open_then id (fun p s =>
    match session_at p s with
    | Some _ => Some (with_thread t (Reading id p) s)
    | None => Some (with_failure (undefined "no such session") s)
    end) Some s.

Definition releaseSession (t : tid) (id : bytes) (p : positive) (choice : option tid) s : option manager :=
  on_map (Release id p choice) (fun s => Some (without_thread t s)) s.

(** destroySession: the session is opened for its user, released, destroyed and
    unregistered. *)
Definition destroySession (t : tid) (id : bytes) s : option manager :=
  open_then id (fun p s =>
    match user_at p s with
    | Some user => Some (with_thread t (Opened id p user) s)
    | None => Some (with_failure (undefined "no such session") s)
    end) Some s.
Definition destroy_release (t : tid) (id : bytes) (p : positive) (user : bytes) (choice : option tid) s : option manager :=
  on_map (Release id p choice) (fun s => Some (with_thread t (Released id user) s)) s.
Definition destroy_element (t : tid) (id user : bytes) (choice : option tid) s : option manager :=
  destroy_then t id choice (fun s => Some (without_thread t s)) (fun s => Some (with_thread t (Asleep id (Some user) []) s))
    (after_destroy t id (Some user) []) s.
Definition destroy_resume (t : tid) (id : bytes) (user : option bytes) (keys : list bytes) (choice : option tid) s : option manager :=
  on_map (Resume t choice) (fun s =>
    if bool_decide (is_Some (threads (m_sessions s) !! t)) then Some s else after_destroy t id user keys s) s.
Definition destroy_unregister (t : tid) (id user : bytes) s : option manager :=
  match unregister user id (m_sessionClientInfo s) with
  | Ret m => Some (without_thread t (with_info m s))
  | Exc e => Some (without_thread t (with_failure e s))
  end.

(** gc: each key is opened, looked at and released, and the session is destroyed
    if it had expired. *)
Definition gc (t : tid) s : option manager :=
  Some (with_thread t (Collecting (merge_sort name_le (base.elements (getKeys (elements_of_map s))))) s).
Definition gc_open (t : tid) (keys : list bytes) s : option manager :=
  match keys with
  | [] => Some (without_thread t s)
  | k :: keys =>
      open_then k (fun p s => Some (with_thread t (Looking k p keys) s)) (fun s => Some (with_thread t (Collecting keys) s)) s
  end.
Definition gc_look (t : tid) (id : bytes) (p : positive) (keys : list bytes) (choice : option tid) (now : Z) s : option manager :=
  match session_at p s with
  | None => Some (without_thread t (with_failure (undefined "no such session") s))
  | Some x =>
      let expired := isLastActivityExpired now m_MaxInactiveSeconds x in
      on_map (Release id p choice) (fun s => Some (with_thread t (if expired then Expired id keys else Collecting keys) s)) s
  end.
Definition gc_destroy (t : tid) (id : bytes) (keys : list bytes) (choice : option tid) s : option manager :=
  destroy_then t id choice (fun s => Some (with_thread t (Collecting keys) s)) (fun s => Some (with_thread t (Asleep id None keys) s))
    (after_destroy t id None keys) s.

(** The next critical section of a thread. *)
Definition continue (t : tid) (choice : option tid) (now : Z) (th : mthread) s : option manager :=
  match th with
  | Creating id p => insert_session t id p s
  | Opened id p user => destroy_release t id p user choice s
  | Released id user => destroy_element t id user choice s
  | Asleep id user keys => destroy_resume t id user keys choice s
  | Unregistering id user => destroy_unregister t id user s
  | Reading id p => releaseSession t id p choice s
  | Collecting keys => gc_open t keys s
  | Looking id p keys => gc_look t id p keys choice now s
  | Expired id keys => gc_destroy t id keys choice s
  end.

Definition exec (l : label) s : option manager :=
  match l with
  | NewSession r x =>
      match sessions s !! r with
      | Some _ => None
      | None => Some (mkManager (m_sessions s) (webSessions s) (<[r := x]> (sessions s)) (m_sessionClientInfo s) (mthreads s) (issued s) (failures s))
      end
  | Touch r now =>
      Some (mkManager (m_sessions s) (webSessions s) (alter (updateLastActivity now) r (sessions s)) (m_sessionClientInfo s) (mthreads s) (issued s) (failures s))
  | Create t r id info p =>
      if decide (mthreads s !! t = None /\ issued s !! id = None) then create t id info p r s else None
  | DestroySession t id =>
      if decide (mthreads s !! t = None) then destroySession t id s else None
  | OpenSession t id =>
      if decide (mthreads s !! t = None) then openSession t id s else None
  | Gc t =>
      if decide (mthreads s !! t = None) then gc t s else None
  | Info user => Some (with_info (snd (getUserSessionsInfo user (m_sessionClientInfo s))) s)
  | Continue t choice now =>
      match mthreads s !! t with Some th => continue t choice now th s | None => None end
  | Wake t => on_map (Spurious t) Some s
  end.
End WebSessions.
Arguments WebSession : clear implicits.
Arguments manager : clear implicits.
Arguments label : clear implicits.
