(* ===== verification/WebSessionsSpec.v ===== *)
(** * Web sessions and their identifiers

    In every interleaving the sessions that can be opened are registered for
    their users, who have no more than their limit, and a session that is
    destroyed is unregistered once. Sessions that the collector destroys are
    not unregistered: their places are never free again. *)

From stdpp Require Import gmap sorting.
From S2P Require Import Prelude SafeInt CText Random Json JsonModel Jwt Interleave SafeMap SafeMapSpec Sessions WebSessions.

(** ** Steps of the map *)

Section Map.
Context {K : Type} `{Countable K}.
Implicit Types m : SafeMap.state (K := K).

(** The item that can be opened under a key. *)
Definition live m (key : K) (p : positive) : Prop := exists n, m_keyValueMap m !! key = Some (mkMapElement (Some p) n).

(** Only an insertion makes an item available, or takes it from its creator. *)
Definition quiet m m' : Prop :=
  (forall key p, live m' key p -> live m key p) /\
  (forall key, m_keyValueMap m !! key = None -> m_keyValueMap m' !! key = None) /\
  owned m ⊆ owned m'.

Lemma quiet_refl m : quiet m m.
Proof. by split. Qed.

Lemma quiet_alter m m' key e e' :
  m_keyValueMap m !! key = Some e -> (item e' = item e \/ item e' = None) -> m_keyValueMap m' = <[key := e']> (m_keyValueMap m) ->
  owned m' = owned m -> quiet m m'.
Proof.
  intros He Hi Hm Ho. unfold quiet, live. rewrite Hm, Ho. split; [|split; [|done]].
  - intros key' p [n Hn]. apply lookup_insert_Some in Hn as [[<- ->]|[_ Hn]]; [|by exists n].
    destruct e as [i k]. cbn in Hi. destruct Hi as [<-|]; [by exists k|done].
  - intros key' Hn. rewrite lookup_insert_None. split; [done|]. intros <-. congruence.
Qed.

Lemma quiet_delete m m' key : m_keyValueMap m' = delete key (m_keyValueMap m) -> owned m' = owned m -> quiet m m'.
Proof.
  intros Hm Ho. unfold quiet, live. rewrite Hm, Ho. split; [|split; [|done]].
  - intros key' p [n [_ Hn]%lookup_delete_Some]. by exists n.
  - intros key' Hn. apply lookup_delete_None. by right.
Qed.

Lemma quiet_same m m' : m_keyValueMap m' = m_keyValueMap m -> owned m ⊆ owned m' -> quiet m m'.
Proof. intros Hm Ho. unfold quiet, live. by rewrite Hm. Qed.

Lemma quiet_trans m1 m2 m3 : quiet m1 m2 -> quiet m2 m3 -> quiet m1 m3.
Proof. intros (A & B & D) (A' & B' & D'). split; [|split]; naive_solver set_solver. Qed.

Lemma destroy_step_quiet t key p choice m m' e :
  m_keyValueMap m !! key = Some e -> SafeMap.destroy_step t key p choice m = Some m' -> quiet m m'.
Proof.
  intros He. unfold SafeMap.destroy_step. destruct e as [i n]. rewrite (destroyElement_round_spec key p (m_keyValueMap m) (heap m) i n He).
  destruct (n =? 0); [|intros [= <-]; by apply quiet_same].
  intros Hs. destruct (if bool_decide (delete key (m_keyValueMap m) = ∅) then _ else _) as [ths|]; [|done]. injection Hs as <-. by eapply quiet_delete.
Qed.

Lemma exec_quiet l m m' :
  SafeMapSpec.inv m -> SafeMap.exec l m = Some m' -> (forall key e, l <> Add key e) -> quiet m m'.
Proof.
  destruct m as [mp h ths hs ow]. intros Hinv Hs Hl.
  destruct l as [p|key i|key|key p|key p choice|t key choice|t|t choice|t]; cbn [SafeMap.exec] in Hs.
  - case_decide; [done|]. injection Hs as <-. apply quiet_same; [done|]. cbn. set_solver.
  - by destruct (Hl key i).
  - case_decide; [|done]. rewrite openElement_spec in Hs. destruct (mp !! key) as [[[p|] n]|] eqn:E; injection Hs as <-; [|by apply quiet_same..].
    eapply quiet_alter; [exact E| |done..]. by left.
  - case_decide; [|done]. injection Hs as <-. by apply quiet_same.
  - case_decide as Hin; [|done]. rewrite releaseElement_spec in Hs. destruct (mp !! key) as [[i n]|] eqn:E; [|injection Hs as <-; by apply quiet_same].
    destruct (n =? 0); [injection Hs as <-; by apply quiet_same|].
    destruct (u32 (n - 1) =? 0).
    + destruct (notify_one _ _ _); [|done]. injection Hs as <-. eapply quiet_alter; [exact E| |done..]. by left.
    + injection Hs as <-. eapply quiet_alter; [exact E| |done..]. by left.
  - destruct (ths !! t); [done|]. rewrite destroyElement_begin_spec in Hs.
    destruct (mp !! key) as [[[p|] n]|] eqn:E; [|injection Hs as <-; by apply quiet_same..].
    eapply quiet_trans; [eapply (quiet_alter _ (mkState (<[key := mkMapElement None n]> mp) h ths hs ow)); [exact E| |done..]; by right|].
    eapply destroy_step_quiet; [|exact Hs]. apply lookup_insert_eq.
  - destruct (ths !! t); [done|]. injection Hs as <-. by apply quiet_same.
  - destruct (ths !! t) as [[key p []|[]]|] eqn:Et; try done.
    + destruct (inv_slot _ Hinv t key p) as [n Hn]; [by exists true|]. by eapply destroy_step_quiet.
    + injection Hs as <-. by apply quiet_same.
  - destruct (ths !! t) as [[key p []|[]]|] eqn:Et; try done; injection Hs as <-; by apply quiet_same.
Qed.

Lemma destroy_not_live t key choice m m' p : SafeMap.exec (Destroy t key choice) m = Some m' -> ~ live m' key p.
Proof.
  destruct m as [mp h ths hs ow]. cbn [SafeMap.exec]. destruct (ths !! t); [done|]. rewrite destroyElement_begin_spec. intros Hs [n Hn].
  destruct (mp !! key) as [[[q|] k]|] eqn:E; [|injection Hs as <-; cbn in Hn; congruence..].
  unfold SafeMap.destroy_step in Hs. cbn in Hs. erewrite destroyElement_round_spec in Hs by apply lookup_insert_eq.
  destruct (k =? 0); [|injection Hs as <-; cbn in Hn; rewrite lookup_insert_eq in Hn; done].
  destruct (if bool_decide _ then _ else _) as [ths'|]; [|done]. injection Hs as <-. cbn in Hn. by rewrite lookup_delete_eq in Hn.
Qed.

Lemma live_alive m key p : SafeMapSpec.inv m -> live m key p -> p ∈ alive (heap m).
Proof. intros Hi [n Hn]. apply (inv_alive m Hi key p). left. by exists n. Qed.

Lemma open_found m key p : fst (openElement key (m_keyValueMap m)) = Some p -> live m key p.
Proof. rewrite openElement_spec. destruct (m_keyValueMap m !! key) as [[[q|] n]|] eqn:E; [|done..]. intros [= <-]. by exists n. Qed.

Lemma destroy_found m key p : fst (destroyElement_begin key (m_keyValueMap m)) = Some p -> live m key p.
Proof. rewrite destroyElement_begin_spec. destruct (m_keyValueMap m !! key) as [[[q|] n]|] eqn:E; [|done..]. intros [= <-]. by exists n. Qed.
End Map.

Ltac unfold_step H :=
  unfold insert_session, openSession, releaseSession, destroySession, destroy_release, destroy_element, destroy_resume,
    destroy_unregister, gc, gc_open, gc_look, gc_destroy in H.

(** ** The identifiers of the users *)

Section Info.
Context {V : Type}.
Implicit Types m : gmap bytes (gmap bytes V).

Definition has m (user id : bytes) : Prop := exists ids, m !! user = Some ids /\ is_Some (ids !! id).
Definition bounded (max : Z) m : Prop := forall user ids, m !! user = Some ids -> Z.of_nat (size ids) <= Z.max 1 max.

Lemma register_has max user id info m m' :
  register max user id info m = Some m' -> has m' user id /\ (forall u i, has m u i -> has m' u i) /\ (bounded max m -> bounded max m').
Proof.
  unfold register, has, bounded. destruct (m !! user) as [ids|] eqn:E.
  - case_cond; [done|]. zbool. intros [= <-]. split; [|split].
    + exists (<[id := info]> ids). rewrite !lookup_insert_eq. by split.
    + intros u i (ids' & Hu & Hi). destruct (decide (u = user)) as [->|Hne]; [|exists ids'; by rewrite lookup_insert_ne].
      exists (<[id := info]> ids). rewrite lookup_insert_eq. split; [done|]. assert (ids' = ids) as -> by congruence.
      destruct (decide (i = id)) as [->|]; [by rewrite lookup_insert_eq|by rewrite lookup_insert_ne].
    + intros Hb u ids' [[<- <-]|[Hne Hu]]%lookup_insert_Some; [|by eapply Hb].
      rewrite map_size_insert. destruct (ids !! id); cbn; lia.
  - intros [= <-]. split; [|split].
    + exists {[id := info]}. rewrite lookup_insert_eq, lookup_singleton_eq. by split.
    + intros u i (ids' & Hu & Hi). exists ids'. rewrite lookup_insert_ne; [done|]. congruence.
    + intros Hb u ids' [[<- <-]|[Hne Hu]]%lookup_insert_Some; [|by eapply Hb]. rewrite map_size_singleton. lia.
Qed.

Lemma unregister_has user id m :
  has m user id -> exists m', unregister user id m = Ret m' /\
    (forall u i, has m u i -> i <> id -> has m' u i) /\ (forall max, bounded max m -> bounded max m').
Proof.
  intros (ids & Hu & [v Hv]). unfold unregister. rewrite Hu, Hv. eexists. split; [done|].
  split.
  - intros u i (ids' & Hu' & Hi) Hne. destruct (decide (u = user)) as [->|Hnu].
    + assert (ids' = ids) as -> by congruence. assert (Hd : delete id ids !! i = ids !! i) by (by apply lookup_delete_ne).
      case_decide as Hem; [rewrite Hem, lookup_empty in Hd; rewrite <- Hd in Hi; by destruct Hi|].
      exists (delete id ids). rewrite lookup_insert_eq, Hd. by split.
    + exists ids'. case_decide; [rewrite lookup_delete_ne by congruence|rewrite lookup_insert_ne by congruence]; by split.
  - intros max Hb u ids'. case_decide; [intros [_ Hu']%lookup_delete_Some; by eapply Hb|].
    intros [[<- <-]|[_ Hu']]%lookup_insert_Some; [|by eapply Hb].
    rewrite map_size_delete. pose proof (Hb _ _ Hu). destruct (ids !! id); cbn; lia.
Qed.

Lemma unregister_other user id m m' u i :
  unregister user id m = Ret m' -> i <> id -> has m u i -> has m' u i.
Proof.
  intros E Hne Hh. assert (Hid : has m user id).
  { unfold unregister in E. destruct (m !! user) as [ids|] eqn:Eu; [|done]. destruct (ids !! id) eqn:Ei; [|done]. exists ids. split; [done|]. by eexists. }
  destruct (unregister_has user id m Hid) as (m'' & E' & Hk & _). rewrite E in E'. injection E' as ->. by apply Hk.
Qed.

Lemma info_has `{JsonCpp V} user m u i : has m u i -> has (snd (getUserSessionsInfo user m)) u i.
Proof.
  intros (ids & Hu & Hi). unfold getUserSessionsInfo. destruct (m !! user) eqn:E; [by exists ids|].
  exists ids. cbn. rewrite lookup_insert_ne; [done|]. congruence.
Qed.

Lemma info_bounded `{JsonCpp V} max user m : bounded max m -> bounded max (snd (getUserSessionsInfo user m)).
Proof.
  intros Hb. unfold getUserSessionsInfo. destruct (m !! user) eqn:E; [done|].
  cbn [snd]. intros u ids [[<- <-]|[_ Hu]]%lookup_insert_Some; [rewrite map_size_empty; lia|by eapply Hb].
Qed.
End Info.

(** ** The invariant *)

Section Manager.
Context {V : Type} `{JsonCpp V} (maxInactive maxPerUser : Z).
Implicit Types s : manager V.

(** The identifier a thread answers for. *)
Definition claim (th : mthread) : option bytes :=
  match th with
  | Creating id _ => Some id
  | Asleep id (Some _) _ => Some id
  | Unregistering id _ => Some id
  | _ => None
  end.

Definition gone s (id : bytes) : Prop := forall p, ~ live (m_sessions s) id p.
Definition placed s (id user : bytes) : Prop := issued s !! id = Some user /\ has (m_sessionClientInfo s) user id.

Definition thread_ok s (th : mthread) : Prop :=
  match th with
  | Creating id p =>
      elements_of_map s !! id = None /\ p ∈ owned (m_sessions s) /\ exists user, placed s id user /\ user_at p s = Some user
  | Opened id _ user | Released id user => issued s !! id = Some user
  | Asleep id (Some user) _ | Unregistering id user => placed s id user /\ gone s id
  | Looking _ p _ => is_Some (session_at p s)
  | _ => True
  end.

Record winv s : Prop := {
  w_map : SafeMapSpec.inv (m_sessions s);
  w_key : forall id, is_Some (elements_of_map s !! id) -> is_Some (issued s !! id);
  w_live : forall id p, live (m_sessions s) id p -> exists user, placed s id user /\ user_at p s = Some user;
  w_thread : forall t th, mthreads s !! t = Some th -> thread_ok s th;
  w_one : forall t1 t2 th1 th2 id, mthreads s !! t1 = Some th1 -> mthreads s !! t2 = Some th2 ->
    claim th1 = Some id -> claim th2 = Some id -> t1 = t2;
  w_item : forall t1 t2 id1 id2 p, mthreads s !! t1 = Some (Creating id1 p) -> mthreads s !! t2 = Some (Creating id2 p) -> t1 = t2;
  w_count : bounded maxPerUser (m_sessionClientInfo s);
  w_failures : failures s = []
}.

Lemma winv_initial s : initial s -> winv s.
Proof.
  intros [ss ->]. split; cbn; try done.
  - by apply inv_initial.
  - intros id. cbn. rewrite lookup_empty. by intros [? ?].
  - intros id p [n Hn]. done.
Qed.

(** Nobody answers for what can be opened. *)
Lemma live_unclaimed s id p t th : winv s -> live (m_sessions s) id p -> mthreads s !! t = Some th -> claim th <> Some id.
Proof.
  intros Hw Hl Ht Hc. pose proof (w_thread s Hw t th Ht) as Hok.
  destruct th as [i q|i q u|i u|i [u|] ks|i u|i q|ks|i q ks|i ks]; cbn in Hc; simplify_eq; cbn in Hok.
  - destruct Hok as (Hn & _). destruct Hl as [n Hl]. unfold elements_of_map in Hn. congruence.
  - by apply (proj2 Hok p).
  - by apply (proj2 Hok p).
Qed.

(** *** Changes of the map, of the threads *)

Lemma winv_quiet s l m :
  winv s -> SafeMap.exec l (m_sessions s) = Some m -> (forall key e, l <> Add key e) -> winv (with_map m s).
Proof.
  intros Hw Hs Hl. pose proof (w_map s Hw) as Hm. destruct (exec_quiet _ _ _ Hm Hs Hl) as (Hlive & Hnone & Hown).
  split.
  - by eapply inv_exec.
  - intros id [e He]. apply (w_key s Hw). destruct (elements_of_map s !! id) eqn:E; [by eexists|].
    apply Hnone in E. unfold elements_of_map in He. cbn in He. congruence.
  - intros id p Hp. by apply (w_live s Hw), Hlive.
  - intros t th Ht. pose proof (w_thread s Hw t th Ht) as Hok. destruct th as [i q|i q u|i u|i [u|] ks|i u|i q|ks|i q ks|i ks]; cbn in Hok |- *; try done.
    + destruct Hok as (Hn & Ho & Hu). split; [by apply Hnone|]. split; [by apply Hown|done].
    + destruct Hok as [Hp Hg]. split; [done|]. intros p Hp'. by apply (Hg p), Hlive.
    + destruct Hok as [Hp Hg]. split; [done|]. intros p Hp'. by apply (Hg p), Hlive.
  - apply (w_one s Hw).
  - apply (w_item s Hw).
  - apply (w_count s Hw).
  - apply (w_failures s Hw).
Qed.

Lemma winv_thread s t th :
  winv s -> thread_ok s th -> (forall id p, th <> Creating id p) ->
  (forall id t' th', claim th = Some id -> mthreads s !! t' = Some th' -> t' <> t -> claim th' <> Some id) ->
  winv (with_thread t th s).
Proof.
  intros Hw Hok Hcr Hcl. split; try apply Hw.
  - intros t' th'. cbn. rewrite lookup_insert_Some. intros [[<- <-]|[_ Ht']]; [exact Hok|exact (w_thread s Hw t' th' Ht')].
  - intros t1 t2 th1 th2 id. cbn. rewrite !lookup_insert_Some.
    intros [[<- <-]|[Hn1 H1]] [[<- <-]|[Hn2 H2]] Hc1 Hc2; [done| | |by eapply (w_one s Hw)].
    + exfalso. by eapply (Hcl id t2 th2).
    + exfalso. by eapply (Hcl id t1 th1).
  - intros t1 t2 id1 id2 p. cbn. rewrite !lookup_insert_Some.
    intros [[<- E]|[Hn1 H1]] [[<- E']|[Hn2 H2]]; [done|by destruct (Hcr id1 p)|by destruct (Hcr id2 p)|by eapply (w_item s Hw)].
Qed.

(** A thread that answers for nothing. *)
Lemma winv_idle s t th : winv s -> thread_ok s th -> claim th = None -> winv (with_thread t th s).
Proof.
  intros Hw Hok Hc. apply winv_thread; [done..| |].
  - intros id p ->. done.
  - intros id t' th' E. congruence.
Qed.

Lemma winv_done s t : winv s -> winv (without_thread t s).
Proof.
  intros Hw. split; try apply Hw.
  - cbn [without_thread mthreads]. intros t' th' [_ Ht]%lookup_delete_Some. by apply (w_thread s Hw t').
  - cbn [without_thread mthreads]. intros t1 t2 th1 th2 id [_ H1]%lookup_delete_Some [_ H2]%lookup_delete_Some. by eapply (w_one s Hw).
  - cbn [without_thread mthreads]. intros t1 t2 id1 id2 p [_ H1]%lookup_delete_Some [_ H2]%lookup_delete_Some. by eapply (w_item s Hw).
Qed.

(** *** The operations of the map in the steps *)

Lemma on_map_quiet l k s s' :
  winv s -> (forall key e, l <> Add key e) -> on_map l k s = Some s' ->
  exists m, SafeMap.exec l (m_sessions s) = Some m /\ winv (with_map m s) /\ k (with_map m s) = Some s'.
Proof.
  intros Hw Hl. unfold on_map. destruct (SafeMap.exec l (m_sessions s)) as [m|] eqn:E; [|done]. intros Hk.
  exists m. split; [done|]. split; [by eapply winv_quiet|done].
Qed.

Lemma winv_open id found none s s' :
  winv s -> open_then id found none s = Some s' ->
  (forall p m, live (m_sessions s) id p -> winv (with_map m s) -> found p (with_map m s) = Some s' -> winv s') ->
  (forall m, winv (with_map m s) -> none (with_map m s) = Some s' -> winv s') ->
  winv s'.
Proof.
  intros Hw Ho Hf Hn. unfold open_then in Ho. apply on_map_quiet in Ho as (m & _ & Hw' & Hk); [|done..].
  destruct (fst (openElement id (elements_of_map s))) as [p|] eqn:E; [|by eapply Hn].
  eapply Hf; [|done..]. by apply open_found.
Qed.

Lemma winv_destroy t id choice nothing asleep done_ s s' :
  winv s -> destroy_then t id choice nothing asleep done_ s = Some s' ->
  (forall m, winv (with_map m s) -> nothing (with_map m s) = Some s' -> winv s') ->
  (forall p m, live (m_sessions s) id p -> winv (with_map m s) -> gone (with_map m s) id ->
     asleep (with_map m s) = Some s' \/ done_ (with_map m s) = Some s' -> winv s') ->
  winv s'.
Proof.
  intros Hw Hd Hn Hf. unfold destroy_then in Hd. apply on_map_quiet in Hd as (m & Hm & Hw' & Hk); [|done..].
  destruct (fst (destroyElement_begin id (elements_of_map s))) as [p|] eqn:E; [|by eapply Hn].
  eapply (Hf p m); [by apply destroy_found|done| |].
  - intros q. cbn. by eapply destroy_not_live.
  - case_bool_decide; [by left|by right].
Qed.

(** A thread that has just destroyed the session of an identifier answers for it. *)
Lemma winv_destroyed s m t th id p user :
  winv s -> live (m_sessions s) id p -> winv (with_map m s) -> gone (with_map m s) id -> issued s !! id = Some user ->
  th = Unregistering id user \/ (exists keys, th = Asleep id (Some user) keys) ->
  winv (with_thread t th (with_map m s)).
Proof.
  intros Hw Hl Hw' Hg Hi Hth. destruct (w_live s Hw id p Hl) as (user' & [Hi' Hh] & _). rewrite Hi in Hi'. injection Hi' as <-.
  apply winv_thread; [done| |by destruct Hth as [->|[? ->]]|].
  - destruct Hth as [->|[keys ->]]; by split.
  - intros id' t' th' Hc Ht' _. assert (id' = id) as -> by (destruct Hth as [->|[? ->]]; cbn in Hc; congruence).
    by apply (live_unclaimed s id p t').
Qed.

Lemma winv_unregister s t id user m :
  winv s -> mthreads s !! t = Some (Unregistering id user) -> unregister user id (m_sessionClientInfo s) = Ret m ->
  winv (without_thread t (with_info m s)).
Proof.
  intros Hw Ht Em. destruct (w_thread s Hw _ _ Ht) as [[Hi Hh] Hg]. destruct (unregister_has user id _ Hh) as (m' & E & Hk & Hb).
  rewrite Em in E. injection E as <-.
  assert (Hp : forall i u, i <> id -> placed s i u -> placed (without_thread t (with_info m s)) i u) by (intros i u Hne [A B]; split; [done|by apply Hk]).
  split; try apply Hw.
  - intros i p Hl. destruct (w_live s Hw i p Hl) as (u & Hpl & Hu). exists u. split; [|done]. apply Hp; [|done]. intros ->. by apply (Hg p).
  - cbn [without_thread with_info mthreads]. intros t' th' [Hne Ht']%lookup_delete_Some. pose proof (w_thread s Hw t' th' Ht') as Hok.
    assert (Hc : claim th' <> Some id) by (intros Hc; apply Hne; eapply (w_one s Hw); [exact Ht|exact Ht'|done|exact Hc]).
    destruct th' as [i q|i q u|i u|i [u|] ks|i u|i q|ks|i q ks|i ks]; cbn in Hok, Hc |- *; try done.
    + destruct Hok as (Hn & Ho & u & Hpl & Hu). split; [done|]. split; [done|]. exists u. split; [|done]. apply Hp; [congruence|done].
    + destruct Hok as [Hpl Hg']. split; [|done]. apply Hp; [congruence|done].
    + destruct Hok as [Hpl Hg']. split; [|done]. apply Hp; [congruence|done].
  - cbn [without_thread with_info mthreads]. intros t1 t2 th1 th2 i [_ H1]%lookup_delete_Some [_ H2]%lookup_delete_Some. by eapply (w_one s Hw).
  - cbn [without_thread with_info mthreads]. intros t1 t2 id1 id2 p [_ H1]%lookup_delete_Some [_ H2]%lookup_delete_Some. by eapply (w_item s Hw).
  - apply Hb, Hw.
Qed.

(** *** createSession *)

Lemma claim_issued s t th id : winv s -> mthreads s !! t = Some th -> claim th = Some id -> is_Some (issued s !! id).
Proof.
  intros Hw Ht Hc. pose proof (w_thread s Hw t th Ht) as Hok. unfold thread_ok, placed in Hok.
  destruct th as [i q|i q u|i u|i [u|] ks|i u|i q|ks|i q ks|i ks]; cbn in Hc; simplify_eq; naive_solver.
Qed.

Lemma winv_create s t r id info p x m mp :
  winv s -> mthreads s !! t = None -> issued s !! id = None -> sessions s !! r = Some x ->
  register maxPerUser (m_user x) id info (m_sessionClientInfo s) = Some m ->
  SafeMap.exec (New p) (m_sessions s) = Some mp ->
  winv (mkManager mp (<[p := mkWebSession r info]> (webSessions s)) (sessions s) m (<[t := Creating id p]> (mthreads s))
          (<[id := m_user x]> (issued s)) (failures s)).
Proof.
  intros Hw Ht Hid Hx Hm Hmp. set (s' := mkManager _ _ _ _ _ _ _). pose proof (w_map s Hw) as Hi.
  destruct (register_has _ _ _ _ _ _ Hm) as (Hnew & Hkeep & Hcount).
  pose proof (inv_exec _ _ _ Hi Hmp) as Hi'.
  assert (Hmap : m_keyValueMap mp = elements_of_map s /\ owned mp = {[p]} ∪ owned (m_sessions s) /\ p ∉ alive (heap (m_sessions s))).
  { unfold elements_of_map. destruct (m_sessions s) as [mm h ths hs ow]. cbn in Hmp |- *. case_decide; [done|]. by injection Hmp as <-. }
  destruct Hmap as (Hmap & Hown & Hp). clear Hmp.
  assert (Hlive : forall i q, live mp i q -> live (m_sessions s) i q) by (intros i q [n Hn]; rewrite Hmap in Hn; by exists n).
  assert (Hnone : elements_of_map s !! id = None) by (destruct (elements_of_map s !! id) eqn:E; [|done]; destruct (w_key s Hw id) as [? ?]; [by eexists|congruence]).
  assert (Hiss : forall i u, issued s !! i = Some u -> issued s' !! i = Some u) by (intros i u E; cbn; rewrite lookup_insert_ne; [done|congruence]).
  assert (Hpl : forall i u, placed s i u -> placed s' i u) by (intros i u [A B]; split; [by apply Hiss|by apply Hkeep]).
  assert (Hat : forall q, p <> q -> user_at q s' = user_at q s) by (intros q Hne; unfold user_at, session_at; cbn; by rewrite lookup_insert_ne).
  assert (Hpq : forall q, q ∈ owned (m_sessions s) -> p <> q) by (intros q Hq ->; apply Hp, (inv_owned _ Hi), Hq).
  assert (Hissued : forall t' th i, mthreads s !! t' = Some th -> claim th = Some i -> id <> i).
  { intros t' th i H1 H2 ->. destruct (claim_issued s t' th i Hw H1 H2) as [? ?]. congruence. }
  split; try done.
  - intros i Hs. cbn in *. unfold elements_of_map in Hs. cbn in Hs. rewrite Hmap in Hs. apply lookup_insert_is_Some.
    destruct (decide (id = i)); [by left|right; split; [done|by apply (w_key s Hw)]].
  - intros i q Hl%Hlive. destruct (w_live s Hw i q Hl) as (u & A & B). exists u. split; [by apply Hpl|]. rewrite Hat; [done|].
    intros ->. by apply Hp, (live_alive _ i).
  - cbn [s' mthreads]. intros t' th [[<- <-]|[_ Ht']]%lookup_insert_Some.
    + split; [by unfold elements_of_map; cbn; rewrite Hmap|]. split; [cbn; rewrite Hown; set_solver|]. exists (m_user x).
      split; [split; [apply lookup_insert_eq|done]|]. unfold user_at, session_at. cbn. rewrite lookup_insert_eq. cbn. by rewrite Hx.
    + pose proof (w_thread s Hw t' th Ht') as Hok. destruct th as [i q|i q u|i u|i [u|] ks|i u|i q|ks|i q ks|i ks]; cbn in Hok; try done.
      * destruct Hok as (A & B & u & D & E). split; [unfold elements_of_map; cbn; by rewrite Hmap|]. split; [cbn; rewrite Hown; set_solver|].
        exists u. split; [by apply Hpl|]. rewrite Hat; [done|by apply Hpq].
      * by apply Hiss.
      * by apply Hiss.
      * destruct Hok as [A B]. split; [by apply Hpl|]. intros q Hq. by apply (B q), Hlive.
      * destruct Hok as [A B]. split; [by apply Hpl|]. intros q Hq. by apply (B q), Hlive.
      * cbn. unfold session_at in *. cbn. destruct (decide (p = q)) as [->|]; [rewrite lookup_insert_eq; by eexists|by rewrite lookup_insert_ne].
  - cbn [s' mthreads]. intros t1 t2 th1 th2 i. rewrite !lookup_insert_Some.
    intros [[<- <-]|[Hn1 H1]] [[<- <-]|[Hn2 H2]] Hc1 Hc2; [done|..|by eapply (w_one s Hw)].
    + cbn in Hc1. injection Hc1 as ->. by destruct (Hissued t2 th2 i).
    + cbn in Hc2. injection Hc2 as ->. by destruct (Hissued t1 th1 i).
  - cbn [s' mthreads]. intros t1 t2 i1 i2 q. rewrite !lookup_insert_Some.
    intros [[<- E]|[Hn1 H1]] [[<- E']|[Hn2 H2]]; [done|..|by eapply (w_item s Hw)].
    + injection E as <- <-. destruct (w_thread s Hw _ _ H2) as (_ & B & _). by destruct (Hpq p B).
    + injection E' as <- <-. destruct (w_thread s Hw _ _ H1) as (_ & B & _). by destruct (Hpq p B).
  - by apply Hcount, Hw.
  - apply Hw.
Qed.

Lemma winv_add s t id p m :
  winv s -> mthreads s !! t = Some (Creating id p) -> SafeMap.exec (Add id (Some p)) (m_sessions s) = Some m ->
  winv (without_thread t (with_map m s)).
Proof.
  intros Hw Ht Hm. destruct (w_thread s Hw _ _ Ht) as (Hnone & Ho & user & Hpl & Hu).
  pose proof (inv_exec _ _ _ (w_map s Hw) Hm) as Hi'.
  assert (Hmap : m_keyValueMap m = <[id := mkMapElement (Some p) 0]> (elements_of_map s) /\ owned m = owned (m_sessions s) ∖ {[p]}).
  { unfold elements_of_map in *. destruct (m_sessions s) as [mm h ths hs ow]. cbn in Hm, Hnone |- *. case_decide; [|done].
    rewrite addElement_spec, Hnone in Hm. by injection Hm as <-. }
  destruct Hmap as [Hmap Hown]. clear Hm.
  assert (Hlive : forall i q, live m i q -> (i = id /\ q = p) \/ live (m_sessions s) i q).
  { intros i q [n Hn]. rewrite Hmap in Hn. apply lookup_insert_Some in Hn as [[<- E]|[_ Hn]]; [left; by injection E as <- _|right; by exists n]. }
  assert (Hother : forall t' th, t <> t' -> mthreads s !! t' = Some th -> claim th <> Some id).
  { intros t' th Hne Ht' Hc. apply Hne. by eapply (w_one s Hw). }
  split; try done; try apply Hw.
  - intros i. unfold elements_of_map. cbn. rewrite Hmap, lookup_insert_is_Some. intros [->|[_ Hs]]; [destruct Hpl as [-> _]; by eexists|by apply (w_key s Hw)].
  - intros i q [[-> ->]|Hl]%Hlive; [by exists user|by apply (w_live s Hw)].
  - cbn [without_thread with_map mthreads]. intros t' th [Hne Ht']%lookup_delete_Some. pose proof (w_thread s Hw t' th Ht') as Hok.
    pose proof (Hother t' th Hne Ht') as Hc.
    destruct th as [i q|i q u|i u|i [u|] ks|i u|i q|ks|i q ks|i ks]; cbn in Hok, Hc; try done.
    + destruct Hok as (A & B & D). split; [unfold elements_of_map; cbn; rewrite Hmap; rewrite lookup_insert_ne; [done|congruence]|].
      split; [|done]. cbn. rewrite Hown. assert (q <> p) by (intros ->; apply Hne; by eapply (w_item s Hw)). set_solver.
    + destruct Hok as [A B]. split; [done|]. intros q [[-> _]|Hq]%Hlive; [done|by apply (B q)].
    + destruct Hok as [A B]. split; [done|]. intros q [[-> _]|Hq]%Hlive; [done|by apply (B q)].
  - cbn [without_thread with_map mthreads]. intros t1 t2 th1 th2 i [_ H1]%lookup_delete_Some [_ H2]%lookup_delete_Some. by eapply (w_one s Hw).
  - cbn [without_thread with_map mthreads]. intros t1 t2 id1 id2 q [_ H1]%lookup_delete_Some [_ H2]%lookup_delete_Some. by eapply (w_item s Hw).
Qed.

(** *** Every step *)

(** The sessions themselves change without their users. *)
Lemma winv_sessions s ss :
  winv s -> (forall r x, sessions s !! r = Some x -> exists x', ss !! r = Some x' /\ m_user x' = m_user x) ->
  winv (mkManager (m_sessions s) (webSessions s) ss (m_sessionClientInfo s) (mthreads s) (issued s) (failures s)).
Proof.
  intros Hw Hss. set (s' := mkManager _ _ _ _ _ _ _).
  assert (Hat : forall q u, user_at q s = Some u -> user_at q s' = Some u).
  { intros q u. unfold user_at, session_at. cbn. destruct (webSessions s !! q) as [w|]; [|done]. destruct (sessions s !! authSession w) as [x|] eqn:E; [|done].
    destruct (Hss _ _ E) as (x' & -> & Hx). cbn. by rewrite Hx. }
  split; try apply Hw.
  - intros i q Hl. destruct (w_live s Hw i q Hl) as (u & A & B). exists u. split; [done|by apply Hat].
  - intros t th Ht. pose proof (w_thread s Hw t th Ht) as Hok.
    destruct th as [i q|i q u|i u|i [u|] ks|i u|i q|ks|i q ks|i ks]; cbn in Hok; try done.
    + destruct Hok as (A & B & u & D & E). split; [done|]. split; [done|]. exists u. split; [done|by apply Hat].
    + destruct Hok as [x Hx]. specialize (Hat q (m_user x)). unfold user_at in Hat. rewrite Hx in Hat. specialize (Hat eq_refl). cbn.
      destruct (session_at q s'); [by eexists|done].
Qed.

Lemma winv_info s m : winv s -> (forall u i, has (m_sessionClientInfo s) u i -> has m u i) -> bounded maxPerUser m -> winv (with_info m s).
Proof.
  intros Hw Hh Hb. assert (Hpl : forall i u, placed s i u -> placed (with_info m s) i u) by (intros i u [A B]; split; [done|by apply Hh]).
  split; try apply Hw; [|..|done].
  - intros i q Hl. destruct (w_live s Hw i q Hl) as (u & A & B). exists u. split; [by apply Hpl|done].
  - intros t th Ht. pose proof (w_thread s Hw t th Ht) as Hok.
    destruct th as [i q|i q u|i u|i [u|] ks|i u|i q|ks|i q ks|i ks]; cbn in Hok; try done; unfold thread_ok; naive_solver.
Qed.

Lemma winv_continue s t choice now th s' :
  winv s -> mthreads s !! t = Some th -> continue maxInactive t choice now th s = Some s' -> winv s'.
Proof.
  intros Hw Ht Hs. pose proof (w_thread s Hw t th Ht) as Hok.
  destruct th as [i q|i q u|i u|i [u|] ks|i u|i q|[|k ks]|i q ks|i ks]; cbn [continue] in Hs; unfold_step Hs.
  - destruct Hok as (Hn & _). rewrite isMember_spec, Hn in Hs. unfold on_map in Hs.
    destruct (SafeMap.exec _ _) as [m|] eqn:E; [|done]. injection Hs as <-. by eapply winv_add.
  - apply on_map_quiet in Hs as (m & _ & Hw' & Hk); [|done..]. injection Hk as <-. by apply winv_idle.
  - eapply (winv_destroy _ _ _ _ _ _ _ _ Hw Hs).
    + intros m Hw' Hk. injection Hk as <-. by apply winv_done.
    + intros p m Hl Hw' Hg [Hk|Hk]; injection Hk as <-; eapply winv_destroyed; try done; [right; by eexists|by left].
  - apply on_map_quiet in Hs as (m & _ & Hw' & Hk); [|done..].
    case_bool_decide; injection Hk as <-; [done|]. cbn [after_destroy].
    apply winv_thread; [done| |done|].
    + destruct (w_thread _ Hw' t (Asleep i (Some u) ks) Ht) as [A B]. by split.
    + intros id t' th' [= <-] Ht' Hne Hc. apply Hne. by eapply (w_one _ Hw').
  - apply on_map_quiet in Hs as (m & _ & Hw' & Hk); [|done..].
    case_bool_decide; injection Hk as <-; [done|]. by apply winv_idle.
  - destruct Hok as [[_ Hh] _]. destruct (unregister_has _ _ _ Hh) as (m & E & _). rewrite E in Hs. injection Hs as <-. by eapply winv_unregister.
  - apply on_map_quiet in Hs as (m & _ & Hw' & Hk); [|done..]. injection Hk as <-. by apply winv_done.
  - injection Hs as <-. by apply winv_done.
  - eapply (winv_open _ _ _ _ _ Hw Hs).
    + intros p m Hl Hw' Hk. injection Hk as <-. apply winv_idle; [done| |done].
      destruct (w_live s Hw k p Hl) as (u & _ & Hu). unfold user_at in Hu. cbn. unfold session_at in *. cbn.
      by destruct (match webSessions s !! p with Some w => _ | None => None end).
    + intros m Hw' Hk. injection Hk as <-. by apply winv_idle.
  - cbn in Hok. destruct Hok as [x Hx]. rewrite Hx in Hs. apply on_map_quiet in Hs as (m & _ & Hw' & Hk); [|done..].
    injection Hk as <-. by apply winv_idle; [|destruct (isLastActivityExpired _ _ _)..].
  - eapply (winv_destroy _ _ _ _ _ _ _ _ Hw Hs).
    + intros m Hw' Hk. injection Hk as <-. by apply winv_idle.
    + intros p m Hl Hw' Hg [Hk|Hk]; injection Hk as <-; by apply winv_idle.
Qed.

Lemma winv_exec s l s' : winv s -> exec maxInactive maxPerUser l s = Some s' -> winv s'.
Proof.
  intros Hw Hs. destruct l as [r x|r now|t r id info p|t id|t id|t|user|t choice now|t]; cbn [exec] in Hs; unfold_step Hs.
  - destruct (sessions s !! r) eqn:E; [done|]. injection Hs as <-. apply winv_sessions; [done|].
    intros r' x' Hx. exists x'. rewrite lookup_insert_ne; [done|congruence].
  - injection Hs as <-. apply winv_sessions; [done|]. intros r' x' Hx. destruct (decide (r = r')) as [->|Hne].
    + exists (updateLastActivity now x'). by rewrite lookup_alter_eq, Hx.
    + exists x'. by rewrite lookup_alter_ne.
  - case_decide as Hd; [|done]. destruct Hd as [Ht Hid]. unfold create in Hs. destruct (sessions s !! r) as [x|] eqn:Ex; [|done].
    destruct (register _ _ _ _ _) as [m|] eqn:Em; [|by injection Hs as <-]. unfold on_map in Hs.
    destruct (SafeMap.exec _ _) as [mp|] eqn:Emp; [|done]. injection Hs as <-. by eapply winv_create.
  - case_decide as Hd; [|done]. eapply (winv_open _ _ _ _ _ Hw Hs).
    + intros p m Hl Hw' Hk. destruct (w_live s Hw id p Hl) as (u & [Hi _] & Hu).
      change (user_at p (with_map m s)) with (user_at p s) in Hk. rewrite Hu in Hk. injection Hk as <-. by apply winv_idle.
    + intros m Hw' Hk. by injection Hk as <-.
  - case_decide as Hd; [|done]. eapply (winv_open _ _ _ _ _ Hw Hs).
    + intros p m Hl Hw' Hk. destruct (w_live s Hw id p Hl) as (u & _ & Hu). unfold user_at in Hu.
      change (session_at p (with_map m s)) with (session_at p s) in Hk. destruct (session_at p s); [|done]. injection Hk as <-. by apply winv_idle.
    + intros m Hw' Hk. by injection Hk as <-.
  - case_decide; [|done]. injection Hs as <-. by apply winv_idle.
  - injection Hs as <-. apply winv_info; [done| |].
    + intros u i. apply info_has.
    + apply info_bounded, Hw.
  - destruct (mthreads s !! t) as [th|] eqn:Ht; [|done]. by eapply winv_continue.
  - apply on_map_quiet in Hs as (m & _ & Hw' & Hk); [|done..]. by injection Hk as <-.
Qed.

Lemma winv_reachable s : reachable initial (exec maxInactive maxPerUser) s -> winv s.
Proof. apply (reachable_invariant initial (exec maxInactive maxPerUser) winv); [apply winv_initial|intros ???; apply winv_exec]. Qed.

(** ** Places that are lost *)

(** The user has the identifier, nobody can open its session, and no thread will
    take it away. *)
Definition lost s (user id : bytes) : Prop :=
  has (m_sessionClientInfo s) user id /\ gone s id /\ is_Some (issued s !! id) /\
  forall t th, mthreads s !! t = Some th -> claim th <> Some id.

Lemma lost_map s m user id : (forall i q, live m i q -> live (m_sessions s) i q) -> lost s user id -> lost (with_map m s) user id.
Proof. intros Hl (Hh & Hg & Hi & Hc). split; [done|]. split; [|done]. intros q Hq. by apply (Hg q), Hl. Qed.

Lemma lost_quiet s l m user id :
  winv s -> SafeMap.exec l (m_sessions s) = Some m -> (forall key e, l <> Add key e) -> lost s user id -> lost (with_map m s) user id.
Proof. intros Hw Hs Hl. apply lost_map. by destruct (exec_quiet _ _ _ (w_map s Hw) Hs Hl). Qed.

Lemma lost_thread s t th user id : claim th <> Some id -> lost s user id -> lost (with_thread t th s) user id.
Proof.
  intros Hth (Hh & Hg & Hi & Hc). split; [done|]. split; [done|]. split; [done|].
  intros t' th'. cbn. intros [[<- <-]|[_ Ht]]%lookup_insert_Some; [done|by eapply Hc].
Qed.

Lemma lost_done s t user id : lost s user id -> lost (without_thread t s) user id.
Proof. intros (Hh & Hg & Hi & Hc). split; [done|]. split; [done|]. split; [done|]. cbn [without_thread mthreads]. intros t' th' [_ Ht]%lookup_delete_Some. by eapply Hc. Qed.

(** A claim of a thread that has just destroyed another session. *)
Lemma lost_destroyed s id' p user id :
  live (m_sessions s) id' p -> lost s user id -> id' <> id.
Proof. intros Hl (_ & Hg & _) ->. by apply (Hg p). Qed.

Lemma lost_continue s t choice now th s' user id :
  winv s -> lost s user id -> mthreads s !! t = Some th -> continue maxInactive t choice now th s = Some s' -> lost s' user id.
Proof.
  intros Hw Hlost Ht Hs. pose proof (w_thread s Hw t th Ht) as Hok. pose proof Hlost as (_ & Hg & _ & Hcl). specialize (Hcl t th Ht).
  assert (Hq : forall l m, SafeMap.exec l (m_sessions s) = Some m -> (forall key e, l <> Add key e) -> lost (with_map m s) user id)
    by (intros; by eapply lost_quiet).
  assert (Hon : forall l k, (forall key e, l <> Add key e) -> on_map l k s = Some s' -> (forall m, lost (with_map m s) user id -> k (with_map m s) = Some s' -> lost s' user id) -> lost s' user id).
  { intros l k Hl Ho Hk. unfold on_map in Ho. destruct (SafeMap.exec l (m_sessions s)) as [m|] eqn:E; [|done]. eapply Hk; [|exact Ho]. by eapply Hq. }
  assert (Hdestroy : forall i choice nothing asleep done_, destroy_then t i choice nothing asleep done_ s = Some s' ->
    (forall m, lost (with_map m s) user id -> nothing (with_map m s) = Some s' -> lost s' user id) ->
    (forall m, i <> id -> lost (with_map m s) user id -> asleep (with_map m s) = Some s' \/ done_ (with_map m s) = Some s' -> lost s' user id) -> lost s' user id).
  { intros i c nothing asleep done_ Hd Hn Hf. unfold destroy_then in Hd. eapply Hon; [|exact Hd|]; [done|]. intros m Hm Hk.
    destruct (fst (destroyElement_begin i (elements_of_map s))) as [p|] eqn:E; [|by eapply Hn].
    assert (Hne : i <> id) by (eapply lost_destroyed; [by apply destroy_found|exact Hlost]).
    apply (Hf m Hne Hm). destruct (bool_decide (is_Some (threads (m_sessions (with_map m s)) !! t))); [by left|by right]. }
  destruct th as [i q|i q u|i u|i [u|] ks|i u|i q|[|k ks]|i q ks|i ks]; cbn [continue] in Hs; unfold_step Hs; cbn [claim] in Hcl.
  - destruct Hok as (Hn & _). rewrite isMember_spec, Hn in Hs. unfold on_map in Hs.
    destruct (SafeMap.exec _ _) as [m|] eqn:E; [|done]. injection Hs as <-. apply lost_done.
    destruct Hlost as (Hh & _ & Hi & Hc). split; [done|]. split; [|done]. intros p [n Hp]. cbn in Hp. apply (Hg p).
    unfold elements_of_map in Hn. destruct (m_sessions s) as [mm h ths hs ow]. cbn in E, Hn |- *. case_decide; [|done].
    rewrite addElement_spec, Hn in E. injection E as <-. cbn in Hp. rewrite lookup_insert_ne in Hp by congruence. by exists n.
  - eapply Hon; [|exact Hs|]; [done|]. intros m Hm Hk. injection Hk as <-. by apply lost_thread.
  - eapply Hdestroy; [exact Hs|..].
    + intros m Hm Hk. injection Hk as <-. by apply lost_done.
    + intros m Hne Hm [Hk|Hk]; injection Hk as <-; apply lost_thread; try done; cbn; congruence.
  - eapply Hon; [|exact Hs|]; [done|]. intros m Hm Hk. cbn beta in Hk. destruct (bool_decide (is_Some (threads (m_sessions (with_map m s)) !! t))); injection Hk as <-; [done|]. by apply lost_thread.
  - eapply Hon; [|exact Hs|]; [done|]. intros m Hm Hk. cbn beta in Hk. destruct (bool_decide (is_Some (threads (m_sessions (with_map m s)) !! t))); injection Hk as <-; [done|]. by apply lost_thread.
  - destruct (unregister u i _) as [m|e] eqn:E; injection Hs as <-; apply lost_done; [|done].
    destruct Hlost as (Hh & _ & Hi & Hc). split; [|done]. eapply unregister_other; [exact E|congruence|done].
  - eapply Hon; [|exact Hs|]; [done|]. intros m Hm Hk. injection Hk as <-. by apply lost_done.
  - injection Hs as <-. by apply lost_done.
  - eapply Hon; [|exact Hs|]; [done|]. intros m Hm Hk. destruct (fst _); injection Hk as <-; by apply lost_thread.
  - destruct (session_at q s) as [x|]; [|injection Hs as <-; by apply lost_done]. eapply Hon; [|exact Hs|]; [done|]. intros m Hm Hk.
    injection Hk as <-. apply lost_thread; [by destruct (isLastActivityExpired _ _ _)|done].
  - eapply Hdestroy; [exact Hs|..].
    + intros m Hm Hk. injection Hk as <-. by apply lost_thread.
    + intros m Hne Hm [Hk|Hk]; injection Hk as <-; by apply lost_thread.
Qed.

Lemma lost_exec s l s' user id : winv s -> lost s user id -> exec maxInactive maxPerUser l s = Some s' -> lost s' user id.
Proof.
  intros Hw Hlost Hs. pose proof Hlost as (Hh & Hg & Hi & Hc).
  assert (Hopen : forall i found none, open_then i found none s = Some s' ->
    (forall p m, lost (with_map m s) user id -> found p (with_map m s) = Some s' -> lost s' user id) ->
    (forall m, lost (with_map m s) user id -> none (with_map m s) = Some s' -> lost s' user id) -> lost s' user id).
  { intros i found none Ho Hf Hn. unfold open_then, on_map in Ho. destruct (SafeMap.exec _ _) as [m|] eqn:E; [|done].
    assert (Hm : lost (with_map m s) user id) by (by eapply lost_quiet). destruct (fst _); [by eapply Hf|by eapply Hn]. }
  destruct l as [r x|r now|t r i info p|t i|t i|t|u|t choice now|t]; cbn [exec] in Hs; unfold_step Hs.
  - destruct (sessions s !! r) eqn:E; [done|]. by injection Hs as <-.
  - by injection Hs as <-.
  - case_decide as Hd; [|done]. destruct Hd as [Ht Hid]. unfold create in Hs. destruct (sessions s !! r) as [x|] eqn:Ex; [|done].
    destruct (register _ _ _ _ _) as [m|] eqn:Em; [|by injection Hs as <-]. unfold on_map in Hs.
    destruct (SafeMap.exec _ _) as [mp|] eqn:Emp; [|done]. injection Hs as <-.
    destruct (register_has _ _ _ _ _ _ Em) as (_ & Hkeep & _). assert (Hne : i <> id) by (intros ->; destruct Hi; congruence).
    split; [by apply Hkeep|]. split; [by apply (lost_quiet s (New p) mp user id Hw Emp)|]. split; [cbn; rewrite lookup_insert_ne by done; done|].
    intros t' th'. cbn. intros [[<- <-]|[_ Ht']]%lookup_insert_Some; [cbn; congruence|by eapply Hc].
  - case_decide as Hd; [|done]. eapply Hopen; [exact Hs|..].
    + intros p m Hm Hk. cbn beta in Hk. destruct (user_at _ _); injection Hk as <-; [by apply lost_thread|done].
    + intros m Hm Hk. by injection Hk as <-.
  - case_decide as Hd; [|done]. eapply Hopen; [exact Hs|..].
    + intros p m Hm Hk. cbn beta in Hk. destruct (session_at _ _); injection Hk as <-; [by apply lost_thread|done].
    + intros m Hm Hk. by injection Hk as <-.
  - case_decide; [|done]. injection Hs as <-. by apply lost_thread.
  - injection Hs as <-. split; [by apply info_has|done].
  - destruct (mthreads s !! t) as [th|] eqn:Ht; [|done]. by eapply lost_continue.
  - unfold on_map in Hs. destruct (SafeMap.exec _ _) as [m|] eqn:E; [|done]. injection Hs as <-. by eapply lost_quiet.
Qed.

(** What the collector destroys is lost. *)
Lemma collected_is_lost s t choice now id keys p user s' :
  winv s -> mthreads s !! t = Some (Expired id keys) -> live (m_sessions s) id p -> user_at p s = Some user ->
  exec maxInactive maxPerUser (Continue t choice now) s = Some s' -> lost s' user id.
Proof.
  intros Hw Ht Hl Hu Hs. cbn [exec] in Hs. rewrite Ht in Hs. cbn [continue] in Hs. unfold gc_destroy, destroy_then, on_map in Hs.
  destruct (SafeMap.exec _ _) as [m|] eqn:E; [|done].
  destruct (w_live s Hw id p Hl) as (u & [Hi Hh] & Hu'). rewrite Hu in Hu'. injection Hu' as <-.
  assert (Hm : lost (with_map m s) user id).
  { split; [done|]. split; [intros q; by eapply destroy_not_live|]. split; [by eexists|]. intros t' th' Ht'. by eapply live_unclaimed. }
  destruct (fst _); [case_bool_decide|]; injection Hs as <-; by apply lost_thread.
Qed.

(** The identifiers of a list that a user has. *)
Lemma has_count user (l : list bytes) m ids :
  NoDup l -> Forall (has m user) l -> m !! user = Some ids -> (length l <= size (ids : gmap bytes V))%nat.
Proof.
  intros Hd Hf Hu. assert (Hs : (list_to_set l : gset bytes) ⊆ dom ids).
  { intros id Hid%elem_of_list_to_set. rewrite Forall_forall in Hf. destruct (Hf id Hid) as (ids' & Hu' & Hi).
    assert (ids' = ids) as -> by congruence. by apply elem_of_dom. }
  apply subseteq_size in Hs. rewrite size_dom in Hs. by rewrite size_list_to_set in Hs.
Qed.
End Manager.

(** C19: in every interleaving of the threads that create, open, destroy and
    collect web sessions: nothing is thrown, no session is used after it was
    deleted; what can be opened is registered for its user; and a user never has
    more sessions than the limit, or one where the limit is zero. *)
Theorem sessions_are_registered {V} `{JsonCpp V} maxInactive maxPerUser (s : manager V) :
  reachable initial (exec maxInactive maxPerUser) s ->
  failures s = [] /\ faults (heap (m_sessions s)) = [] /\
  (forall id p, live (m_sessions s) id p -> exists user, user_at p s = Some user /\ has (m_sessionClientInfo s) user id) /\
  (forall user ids, NoDup ids -> Forall (fun id => exists p, live (m_sessions s) id p /\ user_at p s = Some user) ids ->
     zlen ids <= Z.max 1 maxPerUser).
Proof.
  intros Hw%winv_reachable. split; [apply Hw|]. split; [apply inv_faults, Hw|].
  assert (Hlive : forall id p, live (m_sessions s) id p -> exists user, user_at p s = Some user /\ has (m_sessionClientInfo s) user id).
  { intros id p Hl. destruct (w_live _ s Hw id p Hl) as (u & [_ Hh] & Hu). by exists u. }
  split; [done|]. intros user ids Hd Hf.
  assert (Hh : Forall (has (m_sessionClientInfo s) user) ids).
  { eapply Forall_impl; [exact Hf|]. intros id (p & Hl & Hu). destruct (Hlive id p Hl) as (u & Hu' & Hh). congruence. }
  destruct ids as [|id ids]; [unfold zlen; cbn; lia|]. inversion Hh as [|? ? (m & Hm & _) _]; subst.
  pose proof (has_count user (id :: ids) _ m Hd Hh Hm). pose proof (w_count _ s Hw user m Hm). unfold zlen. lia.
Qed.

(** What the collector destroys stays registered for its user whatever
    happens later: once as many sessions of a user as the limit have been
    collected, every attempt to create one for him is refused, and changes
    nothing. *)
Theorem collected_sessions_lock_out {V} `{JsonCpp V} maxInactive maxPerUser (s : manager V) user ids ls s' t r id info p x :
  reachable initial (exec maxInactive maxPerUser) s ->
  NoDup ids -> ids <> [] -> maxPerUser <= zlen ids -> Forall (lost s user) ids ->
  run (exec maxInactive maxPerUser) ls s = Some s' ->
  sessions s' !! r = Some x -> m_user x = user -> mthreads s' !! t = None -> issued s' !! id = None ->
  exec maxInactive maxPerUser (Create t r id info p) s' = Some s'.
Proof.
  intros Hw%winv_reachable Hd Hne Hmax Hl Hrun Hx Hu Ht Hid.
  assert (Hl' : winv maxPerUser s' /\ Forall (lost s' user) ids).
  { revert s Hw Hl Hrun. induction ls as [|l ls IH]; intros s Hw Hl Hrun; cbn in Hrun; [by injection Hrun as <-|].
    destruct (exec maxInactive maxPerUser l s) as [s1|] eqn:E; [|done]. apply (IH s1); [by eapply winv_exec| |done].
    eapply Forall_impl; [exact Hl|]. intros i Hi. by eapply lost_exec. }
  destruct Hl' as [_ Hl']. cbn [exec]. rewrite decide_True by done. unfold create. rewrite Hx, Hu.
  assert (Hh : Forall (has (m_sessionClientInfo s') user) ids) by (eapply Forall_impl; [exact Hl'|]; by intros i (? & _)).
  unfold register. destruct ids as [|i ids]; [done|]. inversion Hh as [|? ? (m & Hm & _) _]; subst.
  pose proof (has_count _ (i :: ids) _ m Hd Hh Hm). rewrite Hm. unfold zlen in Hmax. case_cond; zbool; [done|lia].
Qed.

(** ** An example: one session for each user, ten seconds *)

Module Example.
Definition session : Session value := mkSession Token.new (str "u") [] [] 0 0 ∅.
Definition start : manager value := mkManager (SafeMap.mkState ∅ (mkHeap ∅ ∅ []) ∅ [] ∅) ∅ {[1%positive := session; 2%positive := session]} ∅ ∅ ∅ [].
Definition created : list (label value) := [Create 0 1 (str "a") Null 1; Continue 0 None 0].
Definition looked : list (label value) := created ++ [Gc 1; Continue 1 None 100; Continue 1 None 100].
Definition after (ls : list (label value)) : manager value := default start (run (exec 10 1) ls start).

Lemma reached ls : is_Some (run (exec 10 1) ls start) -> reachable initial (exec 10 1) (after ls).
Proof.
  intros [s E]. unfold after. rewrite E. eapply run_reachable; [|exact E]. apply reachable_initial. by eexists.
Qed.
Lemma reached_created : reachable initial (exec 10 1) (after created).
Proof. apply reached. vm_compute. by eexists. Qed.
Lemma reached_looked : reachable initial (exec 10 1) (after looked).
Proof. apply reached. vm_compute. by eexists. Qed.

(** The collector destroys the session. *)
Definition collected : manager value := default start (exec 10 1 (Continue 1 None 100) (after looked)).
Lemma collected_step : exec 10 1 (Continue 1 None 100) (after looked) = Some collected.
Proof. vm_compute. reflexivity. Qed.
Lemma reached_collected : reachable initial (exec 10 1) collected.
Proof. eapply reachable_step; [exact reached_looked|exact collected_step]. Qed.
Lemma collected_lost : lost collected (str "u") (str "a").
Proof.
  eapply (collected_is_lost 10 1 (after looked) 1 None 100 (str "a") [] 1%positive (str "u")); [by eapply winv_reachable, reached_looked|..|exact collected_step].
  - by vm_compute.
  - exists 0. by vm_compute.
  - by vm_compute.
Qed.
End Example.

Lemma sessions_are_registered_witness :
  exists p, live (m_sessions (Example.after Example.created)) (str "a") p /\
    exists user, user_at p (Example.after Example.created) = Some user /\ has (m_sessionClientInfo (Example.after Example.created)) user (str "a").
Proof.
  assert (Hl : live (m_sessions (Example.after Example.created)) (str "a") 1%positive) by (exists 0; vm_compute; reflexivity).
  exists 1%positive. split; [exact Hl|].
  exact (proj1 (proj2 (proj2 (sessions_are_registered 10 1 _ Example.reached_created))) _ _ Hl).
Defined.

Lemma collected_sessions_lock_out_witness :
  exec 10 1 (Create 5 2 (str "b") Null 2) Example.collected = Some Example.collected.
Proof.
  apply (collected_sessions_lock_out 10 1 Example.collected (str "u") [str "a"] [] Example.collected 5%nat 2%positive (str "b") Null 2%positive Example.session).
  - exact Example.reached_collected.
  - apply NoDup_singleton.
  - discriminate.
  - vm_compute. discriminate.
  - constructor; [exact Example.collected_lost|constructor].
  - reflexivity.
  - vm_compute. reflexivity.
  - reflexivity.
  - vm_compute. reflexivity.
  - vm_compute. reflexivity.
Defined.

(** ** The identifiers that are made *)

Lemma charset_alnum c : c ∈ charset -> isalnum c = true.
Proof.
  assert (Hf : forallb isalnum charset = true) by (vm_compute; reflexivity). rewrite forallb_forall in Hf. intros Hc%list_elem_of_In. by apply Hf.
Qed.

Lemma made_alnum s : made_from charset s -> forallb isalnum s = true.
Proof. intros Hm. apply forallb_forall. intros c Hc%list_elem_of_In. unfold made_from in Hm. rewrite Forall_forall in Hm. by apply charset_alnum, Hm. Qed.

(** They pass the test of the format. *)
Lemma new_session_id_valid `{RandomLaws} n :
  exists id, new_session_id n = (Ret id, S (S n)) /\ validateSessionIDFormat id = true /\ zlen id = 25.
Proof.
  destruct (createRandomString_text 12 n ltac:(lia)) as (a & Ea & La & Ma). destruct (createRandomString_text 12 (S n) ltac:(lia)) as (b & Eb & Lb & Mb).
  exists (a ++ str ":" ++ b). unfold new_session_id, bind. rewrite Ea, Eb. split; [done|].
  assert (Hl : zlen (a ++ str ":" ++ b) = 25) by (rewrite !zlen_app, La, Lb; done).
  split; [|done]. unfold validateSessionIDFormat. rewrite Hl. apply orb_true_iff. right.
  assert (Ha : ztake 12 (a ++ str ":" ++ b) = a) by (rewrite <- La; apply ztake_length_app).
  assert (Hd : zdrop 12 (a ++ str ":" ++ b) = str ":" ++ b) by (rewrite <- La; apply zdrop_length_app). rewrite Ha, Hd.
  replace (zdrop 13 (a ++ str ":" ++ b)) with b.
  { pose proof (ztake_length_app (str ":") b) as Hc. change (zlen (str ":")) with 1 in Hc.
    rewrite Hc, (made_alnum a Ma), (made_alnum b Mb). done. }
  rewrite zdrop_app_ge by lia. rewrite La. by rewrite (zdrop_app_ge _ (str ":")), zdrop_le0.
Qed.
