(* ===== verification/JwtSpec.v ===== *)
(** * What JSON Web Tokens promise

    The bounds of the cache, how long a revocation lasts, who can make a token
    that is accepted, and that a signed token is. *)

From stdpp Require Import gmap sorting.
From S2P Require Import Prelude CText Mem SafeInt Encoders Json JsonModel Jwt.

(** ** The cache *)

Definition total (queue : list bytes) : Z := foldr (fun p n => zlen p + n) 0 queue.

Lemma total_app a b : total (a ++ b) = total a + total b.
Proof. induction a as [|x a IH]; [done|]. cbn [app total foldr]. fold (total (a ++ b)) (total a). lia. Qed.

Lemma total_nonneg q : 0 <= total q.
Proof. induction q as [|x q IH]; [done|]. cbn [total foldr]. fold (total q). pose proof (zlen_nonneg x). lia. Qed.

(** The bytes are counted, and the table holds tokens of the queue. *)
Definition counted (c : Cache.t) : Prop :=
  Cache.m_cacheCurrentByteCount c = total (Cache.m_cacheQueue c) /\ total (Cache.m_cacheQueue c) <= SIZE_MAX /\
  forall p, is_Some (Cache.m_tokenCache c !! p) -> p ∈ Cache.m_cacheQueue c.

(** The longest end of the queue that fits. *)
Fixpoint newest (max : Z) (queue : list bytes) : list bytes :=
  match queue with
  | [] => []
  | p :: rest => if total queue >? max then newest max rest else queue
  end.

Lemma newest_fits max q : 0 <= max -> total (newest max q) <= max.
Proof. intros Hm. induction q as [|p q IH]; [done|]. cbn [newest]. case_cond; zbool; [done|lia]. Qed.

Lemma newest_suffix max q : newest max q `suffix_of` q.
Proof. induction q as [|p q IH]; [done|]. cbn [newest]. case_cond; [by apply suffix_cons_r|done]. Qed.

Lemma evict_newest max table queue :
  0 <= max -> total queue <= SIZE_MAX -> (forall p, is_Some (table !! p) -> p ∈ queue) ->
  exists table', Cache.evict_loop max (total queue) table queue = (Ret tt, (total (newest max queue), table', newest max queue)) /\
    (forall p, is_Some (table' !! p) -> p ∈ newest max queue /\ is_Some (table !! p)).
Proof.
  intros Hmax. revert table. induction queue as [|p queue IH]; intros table Hs Ht; cbn [Cache.evict_loop newest].
  - replace (total [] >? max) with false by (cbn; lia). exists table. split; [done|]. eauto.
  - case_cond; zbool; [|exists table; split; [done|]; eauto].
    cbn [total foldr] in Hs |- *. fold (total queue) in Hs |- *. pose proof (zlen_nonneg p). pose proof (total_nonneg queue).
    replace (u64 (zlen p + total queue - zlen p)) with (total queue) by (unfold u64; rewrite Z.mod_small; unfold SIZE_MAX in *; lia).
    destruct (IH (delete p table)) as (table' & -> & Ht'); [lia| |].
    { intros k Hk. destruct (decide (k = p)) as [->|Hn]; [by rewrite lookup_delete_eq in Hk; destruct Hk|].
      rewrite lookup_delete_ne in Hk by done. specialize (Ht k Hk). by apply elem_of_cons in Ht as [|]. }
    exists table'. split; [done|]. intros k Hk. destruct (Ht' k Hk) as [Hin Hd]. split; [done|].
    destruct (decide (k = p)) as [->|Hn]; [by rewrite lookup_delete_eq in Hd; destruct Hd|]. by rewrite lookup_delete_ne in Hd.
Qed.

Lemma evictCache_newest c :
  0 <= Cache.m_cacheMaxByteCount c -> counted c ->
  exists c', Cache.evictCache c = (Ret tt, c') /\ counted c' /\
    Cache.m_cacheQueue c' = newest (Cache.m_cacheMaxByteCount c) (Cache.m_cacheQueue c) /\
    Cache.m_cacheMaxByteCount c' = Cache.m_cacheMaxByteCount c /\ Cache.m_enabled c' = Cache.m_enabled c /\
    (forall p, is_Some (Cache.m_tokenCache c' !! p) -> is_Some (Cache.m_tokenCache c !! p)).
Proof.
  intros Hm (Hc & Hs & Ht). unfold Cache.evictCache. rewrite Hc.
  destruct (evict_newest _ _ _ Hm Hs Ht) as (table' & -> & Ht'). eexists. split; [done|].
  split; [split; [done|]|split; [done|split; [done|split; [done|]]]]; [|intros p Hp; by apply Ht'].
  split; [|intros p Hp; by apply Ht'].
  cbn [Cache.m_cacheQueue]. destruct (newest_suffix (Cache.m_cacheMaxByteCount c) (Cache.m_cacheQueue c)) as [k Hk].
  rewrite Hk, total_app in Hs. pose proof (total_nonneg k). lia.
Qed.

(** What is done with a cache. *)
Inductive cache_op : Type := CacheAdd (payload : bytes) | CacheLimit (maxByteCount : Z).

Definition cache_step (c : Cache.t) (op : cache_op) : res unit * Cache.t :=
  match op with CacheAdd p => Cache.add p c | CacheLimit n => Cache.setCacheMaxByteCount n c end.

Definition cache_op_ok (op : cache_op) : Prop := match op with CacheAdd p => zlen p < 2 ^ 62 | CacheLimit n => 0 <= n < 2 ^ 62 end.

Definition cache_run (ops : list cache_op) (c : Cache.t) : res unit * Cache.t :=
  foldl (fun s op => match fst s with Ret _ => cache_step (snd s) op | Exc _ => s end) (Ret tt, c) ops.

(** The abstract cache: its limit and its tokens, the oldest first. *)
Definition abstract_step (enabled : bool) (a : Z * list bytes) (op : cache_op) : Z * list bytes :=
  match op with
  | CacheAdd p => if enabled then (a.1, newest a.1 (a.2 ++ [p])) else a
  | CacheLimit n => (n, newest n a.2)
  end.

Definition abstraction (c : Cache.t) : Z * list bytes := (Cache.m_cacheMaxByteCount c, Cache.m_cacheQueue c).

Definition cache_bounded (c : Cache.t) : Prop :=
  counted c /\ total (Cache.m_cacheQueue c) <= Cache.m_cacheMaxByteCount c < 2 ^ 62.

Lemma cache_step_refines c op :
  cache_bounded c -> cache_op_ok op ->
  exists c', cache_step c op = (Ret tt, c') /\ cache_bounded c' /\ Cache.m_enabled c' = Cache.m_enabled c /\
    abstraction c' = abstract_step (Cache.m_enabled c) (abstraction c) op.
Proof.
  intros [(Hc & Hs & Ht) Hb] Hop. pose proof (total_nonneg (Cache.m_cacheQueue c)) as H0. destruct op as [p|n]; cbn [cache_step cache_op_ok] in *.
  - unfold Cache.add. cbn [abstract_step]. destruct (Cache.m_enabled c) eqn:Een.
    2: { exists c. split; [done|]. split; [by split|]. by rewrite Een. }
    pose proof (zlen_nonneg p). assert (Htot : total (Cache.m_cacheQueue c ++ [p]) = total (Cache.m_cacheQueue c) + zlen p)
      by (rewrite total_app; cbn [total foldr]; lia).
    match goal with |- context [Cache.evictCache ?c1] => destruct (evictCache_newest c1) as (c' & -> & Hc' & Hq & Hm & He & _) end; cbn in *.
    + lia.
    + split; [|split]; cbn [Cache.m_cacheCurrentByteCount Cache.m_cacheQueue Cache.m_tokenCache].
      * rewrite Hc, Htot. unfold u64. apply Z.mod_small. lia.
      * rewrite Htot. unfold SIZE_MAX. lia.
      * intros k Hk. rewrite elem_of_app, list_elem_of_singleton. destruct (decide (k = p)) as [->|Hn]; [by right|left].
        rewrite lookup_insert_ne in Hk by done. by apply Ht.
    + exists c'. split; [done|]. unfold abstraction. cbn. rewrite Hm, Hq, He. split; [|done].
      split; [done|]. rewrite Hm, Hq. split; [apply newest_fits; lia|lia].
  - unfold Cache.setCacheMaxByteCount.
    match goal with |- context [Cache.evictCache ?c1] => destruct (evictCache_newest c1) as (c' & -> & Hc' & Hq & Hm & He & _) end; cbn in *.
    + lia.
    + by split.
    + exists c'. split; [done|]. unfold abstraction. cbn. rewrite Hm, Hq, He. split; [|done].
      split; [done|]. rewrite Hm, Hq. split; [apply newest_fits; lia|lia].
Qed.

(** C7: with any tokens added and any limits set, the cache is a queue that
    drops its oldest tokens until the others fit in the limit: no operation takes
    from an empty queue, and it never holds more bytes than its limit. *)
Theorem cache_keeps_the_newest ops c :
  cache_bounded c -> Forall cache_op_ok ops ->
  exists c', cache_run ops c = (Ret tt, c') /\ cache_bounded c' /\
    abstraction c' = foldl (abstract_step (Cache.m_enabled c)) (abstraction c) ops.
Proof.
  intros Hc Hops. revert c Hc. induction Hops as [|op ops Hop _ IH]; intros c Hc; [by exists c|].
  destruct (cache_step_refines c op Hc Hop) as (c1 & E1 & Hc1 & He1 & Ha1). destruct (IH c1 Hc1) as (c2 & E2 & Hc2 & Ha2).
  exists c2. unfold cache_run in E2 |- *. cbn [foldl fst snd]. rewrite E1, E2. split; [done|]. split; [done|]. by rewrite Ha2, He1, Ha1.
Qed.

Lemma cache_keeps_the_newest_witness :
  let c := Cache.setEnabled true (Cache.new false) in
  let ops := [CacheLimit 5; CacheAdd (str "one"); CacheAdd (str "to"); CacheAdd (str "x")] in
  cache_bounded c /\ abstraction (snd (cache_run ops c)) = (5, [str "to"; str "x"]).
Proof.
  assert (Hc : cache_bounded (Cache.setEnabled true (Cache.new false))).
  { split; [split; [reflexivity|split; [vm_compute; discriminate|intros p [b Hp]; discriminate Hp]]|].
    split; vm_compute; congruence. }
  split; [exact Hc|].
  destruct (cache_keeps_the_newest [CacheLimit 5; CacheAdd (str "one"); CacheAdd (str "to"); CacheAdd (str "x")] _ Hc) as (c' & -> & _ & Ha).
  - repeat constructor; vm_compute; congruence.
  - cbn [snd]. rewrite Ha. vm_compute. reflexivity.
Defined.

(** Emptying the cache does not set the count of its bytes back, so the next
    tokens are removed as if the old ones were there, and then the front of an
    empty queue is taken. *)
Lemma emptied_cache_fails :
  let c := snd (Cache.add (str "abcd") (Cache.setEnabled true (Cache.new false))) in
  let c := Cache.clear c in
  fst (Cache.setCacheMaxByteCount 3 c) = Exc (undefined "front of an empty queue").
Proof. vm_compute. reflexivity. Qed.

(** ** Revocation *)

Inductive revocation_op : Type := Revoke (signature : bytes) (expirationTime : Z) | Collect (now : Z).

Definition revocation_step (r : Revocation.t) (op : revocation_op) : Revocation.t :=
  match op with
  | Revoke s e => Revocation.addToRevocationList s e r
  | Collect now => Revocation.removeExpiredTokensFromRevocationList now r
  end.
Definition revocation_run (ops : list revocation_op) : Revocation.t := foldl revocation_step Revocation.new ops.

Abbreviation entries := Revocation.m_expirationSignatures.
Abbreviation revoked := Revocation.m_revokedTokens.

Definition time_le (x y : Z * bytes) : Prop := fst x <= fst y.

Lemma insert_time_in e m x : x ∈ Revocation.multimap_insert_time e m <-> x = e \/ x ∈ m.
Proof.
  induction m as [|y m IH]; cbn [Revocation.multimap_insert_time]; [by rewrite elem_of_cons|].
  case_cond; rewrite !elem_of_cons; [rewrite IH|]; tauto.
Qed.

Lemma insert_time_sorted e m : StronglySorted time_le m -> StronglySorted time_le (Revocation.multimap_insert_time e m).
Proof.
  induction 1 as [|y m Hm IH Hy]; cbn [Revocation.multimap_insert_time]; [by repeat constructor|]. rewrite Forall_forall in Hy.
  case_cond; zbool; constructor.
  - done.
  - apply Forall_forall. intros x [->|Hx]%insert_time_in; [done|by apply Hy].
  - by constructor; [|apply Forall_forall].
  - constructor; [unfold time_le; lia|]. apply Forall_forall. intros x Hx. specialize (Hy x Hx). unfold time_le in *. lia.
Qed.

(** [upper_bound] parts the entries of a sorted multimap by their time. *)
Lemma upper_bound_parts now m :
  StronglySorted time_le m ->
  let (before, after) := Revocation.upper_bound now m in
  m = before ++ after /\ Forall (fun x => fst x <= now) before /\ Forall (fun x => now < fst x) after.
Proof.
  induction 1 as [|y m Hm IH Hy]; cbn [Revocation.upper_bound]; [done|].
  destruct (Revocation.upper_bound now m) as [before after]. destruct IH as (-> & Hb & Ha). case_cond; zbool.
  - split; [done|]. by split; [constructor|].
  - split; [done|]. split; [done|]. constructor; [done|]. eapply Forall_impl; [exact Hy|]. intros x Hx. unfold time_le in Hx. lia.
Qed.

Lemma erased_in (s : bytes) (l : list (Z * bytes)) (revoked0 : gset bytes) :
  s ∈ foldl (fun revoked e => revoked ∖ {[snd (e : Z * bytes)]}) revoked0 l <-> s ∈ revoked0 /\ Forall (fun e => snd e <> s) l.
Proof.
  revert revoked0. induction l as [|e l IH]; intros revoked0; cbn [foldl]; [by rewrite Forall_nil; tauto|].
  rewrite IH, Forall_cons. set_solver.
Qed.

(** The invariant: the entries are in order, come from revocations, and every
    revoked signature has one. *)
Definition listed (ops : list revocation_op) (r : Revocation.t) : Prop :=
  StronglySorted time_le (entries r) /\ (forall e s, (e, s) ∈ entries r -> Revoke s e ∈ ops) /\
  forall s, s ∈ revoked r -> exists e, (e, s) ∈ entries r.

Lemma listed_run ops : listed ops (revocation_run ops).
Proof.
  induction ops as [|op ops IH] using rev_ind.
  { split; [constructor|]. split; [intros e s []%not_elem_of_nil|intros s Hs; set_solver]. }
  unfold revocation_run in *. rewrite foldl_app. cbn [foldl]. set (r := foldl revocation_step Revocation.new ops) in *.
  destruct IH as (Hsort & Hfrom & Hhas). destruct op as [s e|now]; cbn [revocation_step].
  - unfold Revocation.addToRevocationList. cbn. split; [by apply insert_time_sorted|]. split.
    + intros e' s' [[= -> ->]|Hin]%insert_time_in; rewrite elem_of_app; [right; by apply list_elem_of_singleton|left; auto].
    + intros s' Hs'. cbn in Hs'. destruct (decide (s' = s)) as [->|Hn]; [exists e; apply insert_time_in; auto|].
      destruct (Hhas s') as [e' He']; [set_solver|]. exists e'. apply insert_time_in. auto.
  - unfold Revocation.removeExpiredTokensFromRevocationList. pose proof (upper_bound_parts now _ Hsort) as Hp.
    destruct (Revocation.upper_bound now (entries r)) as [before after]. destruct Hp as (E & Hb & Ha). cbn.
    rewrite E in Hsort. split; [by apply StronglySorted_app_1_r in Hsort|]. split.
    + intros e s Hin. rewrite elem_of_app. left. apply Hfrom. cbn in Hin. rewrite E. set_solver.
    + intros s [Hs Hn]%erased_in. destruct (Hhas s Hs) as [e He]. exists e. cbn. rewrite E in He. apply elem_of_app in He as [He|He]; [|done].
      rewrite Forall_forall in Hn. by destruct (Hn _ He).
Qed.

(** A signature with no expiration reached stays. *)
Lemma stays_revoked pre s e post :
  (forall e' t, Revoke s e' ∈ pre ++ Revoke s e :: post -> Collect t ∈ post -> t < e') ->
  s ∈ revoked (revocation_run (pre ++ Revoke s e :: post)).
Proof.
  induction post as [|op post IH] using rev_ind; intros Ht.
  - unfold revocation_run. rewrite foldl_app. cbn. set_solver.
  - rewrite app_comm_cons, app_assoc. unfold revocation_run. rewrite foldl_app. cbn [foldl].
    pose proof (listed_run (pre ++ Revoke s e :: post)) as (Hsort & Hfrom & _). unfold revocation_run in Hsort, Hfrom, IH.
    set (r := foldl revocation_step Revocation.new (pre ++ Revoke s e :: post)) in *.
    assert (Hin : s ∈ revoked r). { apply IH. intros e' t He' Ht'. apply Ht; set_solver. }
    destruct op as [s' e'|now]; cbn [revocation_step]; [cbn; set_solver|].
    unfold Revocation.removeExpiredTokensFromRevocationList. pose proof (upper_bound_parts now _ Hsort) as Hp.
    destruct (Revocation.upper_bound now (entries r)) as [before after]. destruct Hp as (E & Hb & Ha). cbn. apply erased_in. split; [done|].
    apply Forall_forall. intros [e1 s1] He1 Hs1. cbn in Hs1. subst s1.
    assert (Hlt : now < e1). { apply Ht; [|set_solver]. assert (Revoke s e1 ∈ pre ++ Revoke s e :: post) by (apply Hfrom; rewrite E; set_solver). set_solver. }
    rewrite Forall_forall in Hb. specialize (Hb _ He1). cbn in Hb. lia.
Qed.

(** A second revocation does not make the first one longer: the signature is
    dropped at the first expiration. *)
Lemma second_revocation_is_lost :
  Revocation.isSignatureRevoked (str "s") (revocation_run [Revoke (str "s") 100; Revoke (str "s") 200; Collect 150]) = false.
Proof. vm_compute. reflexivity. Qed.

(** ** Who can make a token that is accepted *)

Section Tokens.
Context {V : Type} `{JsonCpp V} {KEY : Type} `{OpenSSL KEY} `{Base64Encoder, Base64Decoder}.
(** Buffers and contexts can be made. *)
Context (Hbio : forall text, BIO_new_mem_buf text = true) (Hctx : EVP_MD_CTX_new = true).
Implicit Types j : JWT.

Abbreviation decoded text := (decodeFromBase64 b64_decode text true).
Abbreviation details j := (AlgorithmDetails.of_algorithm (m_algorithm j)).

(** A signature that only who knows a secret of the object could make: the
    keyed digest of the data, a signature that the public key verifies, or one
    made with a private key that the object has had. *)
Definition genuine (pems : list bytes) j (data signature : bytes) : Prop :=
  (AlgorithmDetails.isUsingHMAC (details j) = true /\ m_sharedSecret j <> [] /\
   signature = HMAC (AlgorithmDetails.nid (details j)) (m_sharedSecret j) data) \/
  (exists key, PEM_read_bio_PUBKEY (m_publicSecret j) = Some key /\
   EVP_DigestVerifyFinal (AlgorithmDetails.nid (details j)) key data (ztake (cast (Unsigned 32) (zlen signature)) signature) = 1) \/
  (AlgorithmDetails.usingRSA (details j) = true /\ exists pem key, pem ∈ pems /\ PEM_read_bio_PrivateKey pem = Some key /\
   signature = EVP_DigestSignFinal (AlgorithmDetails.nid (details j)) key data).

(** A payload that was signed, under any header. *)
Definition signed_payload (pems : list bytes) j (payload : bytes) : Prop :=
  exists header_b64 payload_b64 signature,
    payload = decoded payload_b64 /\ genuine pems j (header_b64 ++ [DOT] ++ payload_b64) signature.

(** The check of a signature accepts the genuine ones only. *)
Lemma check_genuine pems alg h p s j :
  m_privateSecret j ∈ pems -> check_signature alg h p s j = Some true -> genuine pems j (h ++ [DOT] ++ p) s.
Proof.
  intros Hpem. unfold check_signature. set (data := h ++ [DOT] ++ p). destruct (isHMACAlgorithm alg).
  - case_decide as Hok; [|done]. intros [= Hb]. apply andb_true_iff in Hb as [[Hpos Hlen]%andb_true_iff Hcmp]. zbool.
    apply memcmp_0 in Hcmp; [|unfold zlen in *; lia]. rewrite <- Hcmp.
    revert Hok Hpos. unfold createSignature. destruct (AlgorithmDetails.isUsingHMAC (details j)) eqn:Eh.
    + unfold createHMACSignature. destruct (m_sharedSecret j) as [|c secret] eqn:Es; [done|]. intros _ _. left. by rewrite Es.
    + unfold createRSASignature. rewrite Hbio, Hctx. cbn [negb]. destruct (PEM_read_bio_PrivateKey _) as [key|] eqn:Ek; [|done].
      destruct (EVP_DigestSignInit _ key); [|done]. cbn [negb]. destruct (EVP_DigestSignFinal _ key data) as [|d ds] eqn:Ed; [done|].
      intros _ _. right. right. split; [by destruct (m_algorithm j)|]. exists (m_privateSecret j), key. by rewrite Ed.
  - destruct (isRSAAlgorithm alg); [|done]. unfold validateRSASignature. rewrite Hbio, Hctx.
    destruct (PEM_read_bio_PUBKEY _) as [key|] eqn:Ek; [|done]. case_cond; zbool; [|done]. intros _. right. left. by exists key.
Qed.

(** What can be done with the object, the callback apart. *)
Inductive event : Type :=
| Verify (now : Z) (text : bytes) (token : Token.t V)
| SharedSecret (secret : bytes)
| PublicSecret (secret : bytes)
| PrivateSecret (secret : bytes)
| RevokeSignature (signature : bytes) (expirationTime : Z)
| CollectExpired (now : Z)
| LimitCache (maxByteCount : Z)
| EnableCache (enabled : bool)
| ClearCache.

Definition after j (e : event) : JWT :=
  match e with
  | Verify now text token => fst (snd (verify now text (j, token)))
  | SharedSecret secret => setSharedSecret secret j
  | PublicSecret secret => setPublicSecret secret j
  | PrivateSecret secret => setPrivateSecret secret j
  | RevokeSignature s t => set_revocation (Revocation.addToRevocationList s t (m_revocation j)) j
  | CollectExpired now => set_revocation (Revocation.removeExpiredTokensFromRevocationList now (m_revocation j)) j
  | LimitCache n => set_cache (snd (Cache.setCacheMaxByteCount n (m_cache j))) j
  | EnableCache b => set_cache (Cache.setEnabled b (m_cache j)) j
  | ClearCache => set_cache (Cache.clear (m_cache j)) j
  end.

(** The private secrets set so far; the first one is empty. *)
Definition private_secrets (events : list event) : list bytes :=
  [] :: omap (fun e => match e with PrivateSecret secret => Some secret | _ => None end) events.

(** The cache holds signed payloads only. *)
Definition trusted (pems : list bytes) j : Prop :=
  verificationCallback j = None /\ m_privateSecret j ∈ pems /\
  forall p, is_Some (Cache.m_tokenCache (m_cache j) !! p) -> signed_payload pems j p.

Lemma evict_subset max current table queue p :
  is_Some ((snd (fst (snd (Cache.evict_loop max current table queue)))) !! p) -> is_Some (table !! p).
Proof.
  revert current table. induction queue as [|q queue IH]; intros current table; cbn [Cache.evict_loop]; case_cond; try done.
  intros Hp%IH. destruct (decide (q = p)) as [->|]; [by rewrite lookup_delete_eq in Hp; destruct Hp|by rewrite lookup_delete_ne in Hp].
Qed.

Lemma evictCache_subset c p : is_Some (Cache.m_tokenCache (snd (Cache.evictCache c)) !! p) -> is_Some (Cache.m_tokenCache c !! p).
Proof.
  unfold Cache.evictCache. pose proof (evict_subset (Cache.m_cacheMaxByteCount c) (Cache.m_cacheCurrentByteCount c) (Cache.m_tokenCache c) (Cache.m_cacheQueue c) p) as He.
  destruct (Cache.evict_loop _ _ _ _) as [r [[cur table] q]]. exact He.
Qed.

Lemma add_subset payload c p :
  is_Some (Cache.m_tokenCache (snd (Cache.add payload c)) !! p) -> p = payload \/ is_Some (Cache.m_tokenCache c !! p).
Proof.
  unfold Cache.add. destruct (Cache.m_enabled c); [|by right]. intros Hp%evictCache_subset. cbn in Hp.
  destruct (decide (payload = p)) as [->|]; [by left|right; by rewrite lookup_insert_ne in Hp].
Qed.

Lemma genuine_ext pems pems' j j' data s :
  m_algorithm j' = m_algorithm j -> m_sharedSecret j' = m_sharedSecret j -> m_publicSecret j' = m_publicSecret j ->
  pems ⊆ pems' -> genuine pems j data s -> genuine pems' j' data s.
Proof.
  unfold genuine. intros -> -> -> Hp [?|[?|(? & pem & key & Hin & ?)]]; [by left|by right; left|]. right. right. split; [done|]. exists pem, key. auto.
Qed.

(** An object with the same keys, whose cache holds nothing new. *)
Lemma trusted_ext pems pems' j j' :
  trusted pems j -> m_algorithm j' = m_algorithm j -> m_sharedSecret j' = m_sharedSecret j -> m_publicSecret j' = m_publicSecret j ->
  verificationCallback j' = verificationCallback j -> pems ⊆ pems' -> m_privateSecret j' ∈ pems' ->
  (forall p, is_Some (Cache.m_tokenCache (m_cache j') !! p) -> signed_payload pems j p) -> trusted pems' j'.
Proof.
  intros (Hcb & _ & _) Ha Hs Hp Hv Hpems Hpriv Hc. split; [congruence|]. split; [done|]. intros p Hin.
  destruct (Hc p Hin) as (h & p64 & s & -> & Hg). exists h, p64, s. split; [done|]. by apply (genuine_ext pems pems' j).
Qed.

(** A verification leaves the object as it was, or adds the payload of a genuine
    token to the cache. *)
Lemma verify_state pems now text j token :
  verificationCallback j = None -> m_privateSecret j ∈ pems ->
  fst (snd (verify now text (j, token))) = j \/
  exists p, signed_payload pems j p /\ fst (snd (verify now text (j, token))) = set_cache (snd (Cache.add p (m_cache j))) j.
Proof.
  intros Hcb Hpem. unfold verify. destruct (split_token text) as [[[h p] s]|]; [|by left]. cbn [fst]. rewrite Hcb.
  destruct (Cache.checkToken _ _); [by left|]. destruct (parse _ nullValue) as [[] header]; [|by left]. cbn [negb].
  destruct (JSON_ASSTRING header _ _) as [alg|]; [|by left]. destruct (isAlgorithmSupported alg); [|by left]. cbn [negb].
  destruct (check_signature alg h p (decoded s) j) as [b|] eqn:Ec; [|by left]. unfold conclude. destruct b; [|by left].
  right. exists (decoded p). split; [exists h, p, (decoded s); split; [done|by apply (check_genuine pems alg)]|].
  destruct (Cache.add (decoded p) (m_cache j)) as [[] c]; done.
Qed.

Lemma after_trusted pems j e :
  trusted pems j -> trusted (pems ++ omap (fun e => match e with PrivateSecret secret => Some secret | _ => None end) [e]) (after j e).
Proof.
  intros Ht. pose proof Ht as (Hcb & Hpem & Hc).
  destruct e; cbn [omap list_omap after]; rewrite ?app_nil_r;
    try (apply (trusted_ext pems _ j); cbn; auto; set_solver).
  - destruct (verify_state pems now text j token Hcb Hpem) as [->|(p & Hp & ->)]; [done|].
    apply (trusted_ext pems _ j); [done..|set_solver|done|]. cbn. intros p' [->|Hin]%add_subset; auto.
  - split; [done|]. split; [done|]. intros p [b Hp]. discriminate Hp.
  - split; [done|]. split; [done|]. intros p [b Hp]. discriminate Hp.
  - apply (trusted_ext pems _ j); [done..|set_solver|done|]. cbn. intros p Hp%evictCache_subset. auto.
  - apply (trusted_ext pems _ j); [done..|set_solver|done|]. unfold Cache.setEnabled. destruct enabled; cbn; [auto|]. intros p [b Hp]. discriminate Hp.
  - apply (trusted_ext pems _ j); [done..|set_solver|done|]. cbn. intros p [b Hp]. discriminate Hp.
Qed.

Lemma trusted_run indeterminate algorithm events :
  trusted (private_secrets events) (foldl after (JWT_new indeterminate algorithm) events).
Proof.
  induction events as [|e events IH] using rev_ind.
  - split; [done|]. split; [apply list_elem_of_singleton; done|]. intros p [b Hp]. discriminate Hp.
  - rewrite foldl_app. unfold private_secrets. rewrite omap_app. rewrite app_comm_cons. by apply after_trusted.
Qed.

(** The claims that limit the time of a token. *)
Definition in_time (now : Z) (token : Token.t V) : Prop :=
  (isMember (str "exp") (Token.m_claims token) = Ret true -> exists e, Token.getExpirationTime token = Ret e /\ now < e) /\
  (isMember (str "nbf") (Token.m_claims token) = Ret true -> exists n, Token.getNotBefore token = Ret n /\ n <= now).

Lemma isValid_true now token :
  Token.isValid now token = Ret true ->
  in_time now token /\ Token.m_signatureVerified token = true /\ Token.m_revoked token = false.
Proof.
  unfold Token.isValid, in_time. destruct (isMember (str "exp") _) as [exp|]; [|done]. cbn [res_bind].
  destruct exp; cbn [res_bind].
  - destruct (Token.getExpirationTime token) as [e|]; [|done]. cbn [res_bind]. case_cond; zbool; [done|].
    destruct (isMember (str "nbf") _) as [nbf|]; [|done]. cbn [res_bind]. destruct nbf; cbn [res_bind].
    + destruct (Token.getNotBefore token) as [n|]; [|done]. cbn [res_bind]. case_cond; zbool; [done|].
      intros [= [? ?%negb_true_iff]%andb_true_iff]. split; [split; eauto with lia|done].
    + intros [= [? ?%negb_true_iff]%andb_true_iff]. split; [split; [eauto with lia|done]|done].
  - destruct (isMember (str "nbf") _) as [nbf|]; [|done]. cbn [res_bind]. destruct nbf; cbn [res_bind].
    + destruct (Token.getNotBefore token) as [n|]; [|done]. cbn [res_bind]. case_cond; zbool; [done|].
      intros [= [? ?%negb_true_iff]%andb_true_iff]. split; [split; [done|eauto with lia]|done].
    + by intros [= [? ?%negb_true_iff]%andb_true_iff].
Qed.

Lemma verify_true now text j token j' token' :
  verificationCallback j = None -> verify now text (j, token) = (Ret true, (j', token')) ->
  exists h p s, split_token text = Some (h, p, s) /\ Token.m_claims token' = snd (parse (decoded p) (Token.m_claims token)) /\ in_time now token' /\
    (Cache.checkToken (decoded p) (m_cache j) = true \/
     forall pems, m_privateSecret j ∈ pems ->
       genuine pems j (h ++ [DOT] ++ p) (decoded s) /\ Revocation.isSignatureRevoked (decoded s) (m_revocation j) = false).
Proof.
  intros Hcb. unfold verify. destruct (split_token text) as [[[h p] s]|]; [|done]. cbn [fst]. rewrite Hcb. intros E. exists h, p, s. split; [done|].
  assert (Hclaims : forall t, Token.m_claims (snd (Token.decodePayload (decoded p) t)) = snd (parse (decoded p) (Token.m_claims t)))
    by (intros t; unfold Token.decodePayload; by destruct (parse (decoded p) (Token.m_claims t))).
  destruct (Cache.checkToken _ _).
  - unfold accept in E. injection E as Hv _ <-. apply isValid_true in Hv as [Hin _]. split; [apply Hclaims|]. split; [exact Hin|by left].
  - destruct (parse _ nullValue) as [[] header]; [|done]. cbn [negb] in E. destruct (JSON_ASSTRING header _ _) as [alg|]; [|done].
    destruct (isAlgorithmSupported alg); [|done]. cbn [negb] in E.
    destruct (check_signature alg h p (decoded s) j) as [b|] eqn:Ec; [|done]. unfold conclude in E.
    destruct b; [|injection E as Hv _ _; by apply isValid_true in Hv as (_ & Hb & _)].
    destruct (Cache.add (decoded p) (m_cache j)) as [[u|e] c]; [|done]. injection E as Hv _ <-. apply isValid_true in Hv as (Hin & _ & Hr).
    split; [apply Hclaims|]. split; [exact Hin|]. right. intros pems Hp. split; [by apply (check_genuine pems alg)|exact Hr].
Qed.
(** A signature in the list is not accepted, unless its payload is in the cache. *)
Lemma revoked_is_refused now text j (token : Token.t V) h p s :
  verificationCallback j = None -> split_token text = Some (h, p, s) -> Cache.checkToken (decoded p) (m_cache j) = false ->
  Revocation.isSignatureRevoked (decoded s) (m_revocation j) = true -> fst (verify now text (j, token)) <> Ret true.
Proof.
  intros Hcb Hs Hc Hr. unfold verify. rewrite Hs. cbn [fst]. rewrite Hcb, Hc. destruct (parse _ nullValue) as [[] header]; [|done]. cbn [negb].
  destruct (JSON_ASSTRING header _ _) as [alg|]; [|done]. destruct (isAlgorithmSupported alg); [|done]. cbn [negb].
  destruct (check_signature alg h p (decoded s) j) as [b|]; [|done]. unfold conclude. intros E. destruct b.
  - destruct (Cache.add (decoded p) (m_cache j)) as [[u|e] c]; [|done]. apply isValid_true in E as (_ & _ & Ho).
    change (Revocation.isSignatureRevoked (decoded s) (m_revocation j) = false) in Ho. by rewrite Hr in Ho.
  - by apply isValid_true in E as (_ & Hv & _).
Qed.
End Tokens.

(** C5: after any verifications, changes of the secrets, revocations and settings
    of the cache, when no callback decides: a token that is accepted has a
    payload that was signed with a current secret (or with a private key the
    object has had), its claims are those of that payload, it has not expired and
    its time has come; and if the payload was not in the cache, the signature is
    that of this very token and is not revoked. *)
Theorem accepted_tokens_are_genuine {V} `{JsonCpp V} {KEY} `{OpenSSL KEY} `{Base64Encoder, Base64Decoder} indeterminate algorithm events now text token j' token' :
  (forall text, BIO_new_mem_buf text = true) -> EVP_MD_CTX_new = true ->
  let j := foldl after (JWT_new indeterminate algorithm) events in
  let pems := private_secrets events in
  verify now text (j, token) = (Ret true, (j', token')) ->
  exists header_b64 payload_b64 signature_b64,
    split_token text = Some (header_b64, payload_b64, signature_b64) /\
    let payload := decodeFromBase64 b64_decode payload_b64 true in
    let signature := decodeFromBase64 b64_decode signature_b64 true in
    signed_payload pems j payload /\ Token.m_claims token' = snd (parse payload (Token.m_claims token)) /\ in_time now token' /\
    (Cache.checkToken payload (m_cache j) = false ->
     genuine pems j (header_b64 ++ [DOT] ++ payload_b64) signature /\ Revocation.isSignatureRevoked signature (m_revocation j) = false).
Proof.
  intros Hbio Hctx j pems E. destruct (trusted_run Hbio Hctx indeterminate algorithm events) as (Hcb & Hpem & Hc).
  destruct (verify_true Hbio Hctx _ _ _ _ _ _ Hcb E) as (h & p & s & Hs & Hclaims & Hin & Hg). exists h, p, s. split; [done|]. cbv zeta.
  split; [|split; [done|split; [done|intros Hcheck; destruct Hg as [Hg|Hg]; [unfold j in Hcheck; by rewrite Hcheck in Hg|by apply Hg]]]].
  destruct Hg as [Hg|Hg].
  - apply Hc. unfold Cache.checkToken in Hg. apply andb_true_iff in Hg as [_ Hg%bool_decide_eq_true]. exact Hg.
  - exists h, p, (decodeFromBase64 b64_decode s true). split; [done|]. by apply Hg.
Qed.

(** C8: a signature that was revoked is in the list of revoked signatures as long
    as no collection happens at or after an expiration it was revoked with; while
    it is there, a token with this signature is not accepted by an object that
    has this list, when no callback decides and the payload of the token is not
    in the cache (one that is in the cache is accepted without a look at the
    list); and after a collection only signatures revoked with an expiration
    that is still to come are in the list. *)
Theorem revocations_last {V} `{JsonCpp V} {KEY} `{OpenSSL KEY} `{Base64Encoder, Base64Decoder} pre s e post now :
  (forall e' t, Revoke s e' ∈ pre ++ Revoke s e :: post -> Collect t ∈ post -> t < e') ->
  let run := revocation_run (pre ++ Revoke s e :: post) in
  Revocation.isSignatureRevoked s run = true /\
  (forall time text j (token : Token.t V) h p s64,
     m_revocation j = run -> verificationCallback j = None -> split_token text = Some (h, p, s64) -> decodeFromBase64 b64_decode s64 true = s ->
     Cache.checkToken (decodeFromBase64 b64_decode p true) (m_cache j) = false -> fst (verify time text (j, token)) <> Ret true) /\
  forall s', Revocation.isSignatureRevoked s' (revocation_run (pre ++ Revoke s e :: post ++ [Collect now])) = true ->
    exists e', Revoke s' e' ∈ pre ++ Revoke s e :: post /\ now < e'.
Proof.
  intros Ht run. assert (Hr : Revocation.isSignatureRevoked s run = true) by by apply bool_decide_eq_true, stays_revoked.
  split; [exact Hr|]. split.
  { intros time text j token h p s64 Hj Hcb Hs Hsig Hc. subst s. apply (revoked_is_refused time text j token h p s64 Hcb Hs Hc). by rewrite Hj. }
  clear run Hr. unfold Revocation.isSignatureRevoked.
  intros s' Hs'%bool_decide_eq_true. set (ops := pre ++ Revoke s e :: post) in *.
  replace (pre ++ Revoke s e :: post ++ [Collect now]) with (ops ++ [Collect now]) in Hs' by (unfold ops; by rewrite <- app_assoc).
  pose proof (listed_run ops) as (Hsort & Hfrom & Hhas). unfold revocation_run in Hs'. rewrite foldl_app in Hs'. cbn [foldl revocation_step] in Hs'.
  fold (revocation_run ops) in Hs'. unfold Revocation.removeExpiredTokensFromRevocationList in Hs'.
  pose proof (upper_bound_parts now _ Hsort) as Hp. destruct (Revocation.upper_bound now _) as [before after]. destruct Hp as (E & Hb & Ha).
  cbn in Hs'. apply erased_in in Hs' as [Hin Hn]. destruct (Hhas s' Hin) as [e' He']. exists e'. split; [by apply Hfrom|].
  rewrite E in He'. rewrite Forall_forall in Hn, Ha. apply elem_of_app in He' as [He'|He']; [by destruct (Hn _ He')|by apply (Ha _ He')].
Qed.


(** ** Signed tokens are accepted *)

Lemma rfind_none c s : c ∉ s -> rfind_char c s = None.
Proof.
  induction s as [|x s IH]; [done|]. rewrite not_elem_of_cons. intros [Hx Hs]. cbn [rfind_char]. rewrite IH by done. by rewrite decide_False.
Qed.

Lemma rfind_last c u v : c ∉ v -> rfind_char c (u ++ c :: v) = Some (zlen u).
Proof.
  intros Hv. induction u as [|x u IH]; cbn [app rfind_char]; [rewrite rfind_none by done; by rewrite decide_True|].
  rewrite IH, zlen_cons. f_equal. lia.
Qed.

Lemma split_parts h p s : DOT ∉ h -> DOT ∉ s -> split_token (h ++ [DOT] ++ p ++ [DOT] ++ s) = Some (h, p, s).
Proof.
  intros Hh Hs. unfold split_token. cbn [app]. rewrite memchr_free by done.
  assert (E : h ++ DOT :: p ++ DOT :: s = (h ++ DOT :: p) ++ DOT :: s) by (by rewrite <- app_assoc).
  rewrite E, rfind_last by done. rewrite zlen_app, zlen_cons. pose proof (zlen_nonneg h). pose proof (zlen_nonneg p).
  case_cond; zbool; [lia|]. rewrite <- E. do 2 f_equal; [f_equal|].
  - apply ztake_length_app.
  - unfold slice. replace (zlen h + (1 + zlen p) - zlen h - 1) with (zlen p) by lia.
    replace (h ++ DOT :: p ++ DOT :: s) with ((h ++ [DOT]) ++ p ++ DOT :: s) by (by rewrite <- app_assoc).
    replace (zlen h + 1) with (zlen (h ++ [DOT])) by (rewrite zlen_app; done). by rewrite zdrop_length_app, ztake_length_app.
  - rewrite E. replace ((h ++ DOT :: p) ++ DOT :: s) with ((h ++ DOT :: p ++ [DOT]) ++ s) by (by rewrite <- !app_assoc; cbn; rewrite <- app_assoc).
    replace (zlen h + (1 + zlen p) + 1) with (zlen (h ++ DOT :: p ++ [DOT])) by (rewrite !zlen_app, !zlen_cons, !zlen_app, !zlen_cons, zlen_nil; lia).
    apply zdrop_length_app.
Qed.

Section Signing.
Context {V : Type} `{JsonLaws V} {KEY : Type} `{OpenSSL KEY} `{Base64Laws}.
Context (Hbio : forall text, BIO_new_mem_buf text = true) (Hctx : EVP_MD_CTX_new = true).
Implicit Types j : JWT.

Abbreviation details j := (AlgorithmDetails.of_algorithm (m_algorithm j)).

(** What [j] signs, [j'] verifies: they have the same shared secret, or the two
    keys of a pair. *)
Definition paired j j' : Prop :=
  m_algorithm j' = m_algorithm j /\
  if AlgorithmDetails.isUsingHMAC (details j) then
    m_sharedSecret j <> [] /\ m_sharedSecret j' = m_sharedSecret j /\
    forall data, HMAC (AlgorithmDetails.nid (details j)) (m_sharedSecret j) data <> []
  else
    exists private public,
      PEM_read_bio_PrivateKey (m_privateSecret j) = Some private /\ PEM_read_bio_PUBKEY (m_publicSecret j') = Some public /\
      EVP_DigestSignInit (AlgorithmDetails.nid (details j)) private = true /\
      forall data, let signature := EVP_DigestSignFinal (AlgorithmDetails.nid (details j)) private data in
        0 < zlen signature < 2 ^ 32 /\ EVP_DigestVerifyFinal (AlgorithmDetails.nid (details j)) public data signature = 1.

Lemma paired_check j j' header_b64 payload_b64 :
  paired j j' ->
  let signature := createSignature (header_b64 ++ [DOT] ++ payload_b64) j in
  m_result signature = SIG_OK /\
  check_signature (AlgorithmDetails.algorithmStr (details j)) header_b64 payload_b64 (m_digest signature) j' = Some true.
Proof.
  intros [Ha Hk]. unfold check_signature. cbv zeta. set (data := header_b64 ++ [DOT] ++ payload_b64).
  assert (Hh : isHMACAlgorithm (AlgorithmDetails.algorithmStr (details j)) = AlgorithmDetails.isUsingHMAC (details j)) by (by destruct (m_algorithm j)).
  assert (Hr : AlgorithmDetails.isUsingHMAC (details j) = false -> isRSAAlgorithm (AlgorithmDetails.algorithmStr (details j)) = true) by (by destruct (m_algorithm j)).
  rewrite Hh. unfold createSignature. rewrite Ha. destruct (AlgorithmDetails.isUsingHMAC (details j)).
  - destruct Hk as (Hs & Es & Hd). specialize (Hd data). unfold createHMACSignature. rewrite Es.
    destruct (m_sharedSecret j) as [|c secret]; [done|]. cbn [m_result m_digest]. split; [done|]. rewrite decide_True by done. do 2 f_equal.
    set (d := HMAC _ _ data) in *. pose proof (zlen_nonneg d). assert (zlen d <> 0) by (intros ->%zlen_0_nil; done).
    rewrite (proj2 (memcmp_0 d d eq_refl) eq_refl). rewrite Z.eqb_refl. by replace (zlen d >? 0) with true by lia.
  - destruct Hk as (private & public & Hpriv & Hpub & Hi & Hv). destruct (Hv data) as [Hl Hok]. unfold createRSASignature.
    rewrite Hbio, Hctx, Hpriv, Hi. cbn [negb]. set (sig := EVP_DigestSignFinal _ private data) in *.
    clearbody sig. destruct sig as [|d ds]; [by destruct Hl|]. set (sig := d :: ds) in *. cbn [m_result m_digest]. split; [done|]. rewrite Hr by done.
    do 2 f_equal. unfold validateRSASignature, getHashTypeNumber. rewrite Hbio, Hctx, Hpub, Ha.
    replace (cast (Unsigned 32) (zlen sig)) with (zlen sig) by (cbn; rewrite Z.mod_small; lia). rewrite ztake_ge by lia. by rewrite Hok.
Qed.

Lemma header_names_algorithm j :
  exists header, createHeader j = Ret (encodeToBase64 b64_encode (writeString header) true) /\ plain header /\
    JSON_ASSTRING header (str "alg") [] = Ret (AlgorithmDetails.algorithmStr (details j)).
Proof.
  unfold createHeader. destruct (set_null (str "typ") (of_string (str "JWT"))) as [h1 E1]. rewrite E1. cbn [res_bind].
  destruct (set_object (str "alg") (of_string (AlgorithmDetails.algorithmStr (details j))) h1 (isObject_set _ _ _ _ E1)) as [h2 E2].
  rewrite E2. cbn [res_bind]. exists h2. split; [done|]. split; [|by apply (JSON_ASSTRING_set _ _ _ _ _ E2)].
  eapply plain_set; [|apply plain_string|exact E2]. eapply plain_set; [apply plain_null|apply plain_string|exact E1].
Qed.

(** The text of a signed token, in its three parts. *)
Lemma sign_parts j j' payload :
  paired j j' ->
  exists header s,
    let h := encodeToBase64 b64_encode (writeString header) true in
    let p := encodeToBase64 b64_encode (writeString payload) true in
    plain header /\ JSON_ASSTRING header (str "alg") [] = Ret (AlgorithmDetails.algorithmStr (details j)) /\
    sign payload j = Ret (h ++ [DOT] ++ p ++ [DOT] ++ encodeToBase64 b64_encode s true) /\
    split_token (h ++ [DOT] ++ p ++ [DOT] ++ encodeToBase64 b64_encode s true) = Some (h, p, encodeToBase64 b64_encode s true) /\
    check_signature (AlgorithmDetails.algorithmStr (details j)) h p s j' = Some true.
Proof.
  intros Hpair. destruct (header_names_algorithm j) as (header & Eh & Hplain & Halg).
  exists header. unfold sign. rewrite Eh. cbn [res_bind]. set (h := encodeToBase64 b64_encode (writeString header) true).
  set (p := encodeToBase64 b64_encode (writeString payload) true). destruct (paired_check j j' h p Hpair) as [Hok Hcheck].
  exists (m_digest (createSignature (h ++ [DOT] ++ p) j)). cbv zeta. split; [done|]. split; [done|]. rewrite decide_True by done.
  split; [done|]. split; [|done]. apply split_parts; apply url_variant.
Qed.

(** A token whose claims an object or nothing can hold. *)
Definition open_claims (token : Token.t V) : Prop :=
  plain (Token.m_claims token) /\ (Token.m_claims token = nullValue \/ isObject (Token.m_claims token) = true).

Lemma addClaim_open name v token :
  open_claims token -> plain v ->
  exists token', Token.addClaim name v token = (Ret tt, token') /\ open_claims token' /\
    set_member name v (Token.m_claims token) = Ret (Token.m_claims token').
Proof.
  intros [Hp Ho] Hv. assert (He : exists x, set_member name v (Token.m_claims token) = Ret x).
  { destruct Ho as [->|Ho]; [apply set_null|by apply set_object]. }
  destruct He as [x E]. unfold Token.addClaim. rewrite E. exists (Token.set_claims x token). split; [done|]. split; [|done].
  split; [by eapply plain_set; [..|exact E]|right; by eapply isObject_set].
Qed.

(** The times of the claims, after they were set. *)
Lemma timed_claims exp iat nbf token :
  open_claims token -> 0 <= exp < 2 ^ 63 -> 0 <= nbf < 2 ^ 63 ->
  exists token', (do! Token.setExpirationTime exp in do! Token.setIssuedAt iat in Token.setNotBefore nbf) token = (Ret tt, token') /\
    open_claims token' /\ (forall now f, exp > now -> nbf <= now ->
      Token.isValid now (Token.mk (Token.m_claims token') f false) = Ret f).
Proof.
  intros Ho He Hn. unfold Token.setExpirationTime, Token.setIssuedAt, Token.setNotBefore.
  destruct (addClaim_open (str "exp") (of_int64 exp) token Ho) as (t1 & E1 & Op1 & S1); [apply plain_int64|].
  destruct (addClaim_open (str "iat") (of_int64 iat) t1 Op1) as (t2 & E2 & Op2 & S2); [apply plain_int64|].
  destruct (addClaim_open (str "nbf") (of_int64 nbf) t2 Op2) as (t3 & E3 & Op3 & S3); [apply plain_int64|].
  exists t3. unfold bind. rewrite E1, E2, E3. split; [done|]. split; [done|]. intros now f Hexp Hnbf.
  assert (O1 : isObject (Token.m_claims t1) = true) by (by eapply isObject_set).
  assert (O2 : isObject (Token.m_claims t2) = true) by (by eapply isObject_set).
  unfold Token.isValid, Token.getExpirationTime, Token.getNotBefore, Token.time_claim. cbn [Token.m_claims Token.m_signatureVerified Token.m_revoked].
  rewrite (isMember_other _ _ _ _ _ S3), (isMember_other _ _ _ _ _ S2), (isMember_set _ _ _ _ S1), (isMember_set _ _ _ _ S3) by done.
  assert (Eexp : JSON_ASUINT64 (Token.m_claims t3) (str "exp") (2 ^ 64 - 1) = Ret exp).
  { unfold JSON_ASUINT64. rewrite (member_as_other _ _ _ _ _ _ _ _ O2 S3), (member_as_other _ _ _ _ _ _ _ _ O1 S2) by done.
    by apply (JSON_ASUINT64_set _ _ _ _ _ He S1). }
  rewrite Eexp, (JSON_ASUINT64_set _ _ _ _ _ Hn S3). cbn [res_bind]. rewrite !cast_id by (cbn; unfold in_type; cbn; lia).
  case_cond; zbool; [lia|]. case_cond; zbool; [lia|]. by rewrite andb_true_r.
Qed.
End Signing.


(** ** A concrete signer *)

#[export] Instance rfc_encoder : Base64Encoder := rfc4648_base64.
#[export] Instance rfc_decoder : Base64Decoder := fun s => Some (decodeFromBase64Obf (fun _ _ => 0) s 0).

#[export] Instance rfc_laws : Base64Laws.
Proof.
  split; [done|]. intros d. unfold b64_decode, rfc_decoder, decodeFromBase64Obf. rewrite (decode_rfc4648 _ (length d)) by lia.
  f_equal. assert (Hu : forall i, unmask (fun _ _ => 0) 0 i (map uchar d) = d); [|apply Hu].
  induction d as [|c d IH]; intros i; [done|]. cbn [map unmask]. rewrite IH, Z.lxor_0_r. by rewrite chr_uchar.
Qed.

(** Keys are their texts, and a signature shows the key and the data. *)
Definition shown (nid : Z) (key data : bytes) : bytes := to_string nid ++ str ":" ++ key ++ str ":" ++ data.
#[export] Instance shown_keys : OpenSSL bytes := {
  BIO_new_mem_buf _ := true;
  EVP_MD_CTX_new := true;
  PEM_read_bio_PrivateKey text := Some text;
  PEM_read_bio_PUBKEY text := Some text;
  HMAC := shown;
  EVP_DigestSignInit _ _ := true;
  EVP_DigestSignFinal := shown;
  EVP_DigestVerifyFinal nid key data signature := if bool_decide (signature = shown nid key data) then 1 else 0
}.

Definition signer : JWT := set_cache (Cache.setEnabled true (Cache.new false)) (setSharedSecret (str "key") (JWT_new false HS256)).
Definition signed_text : bytes :=
  match fst (signFromToken true 1000 1000 1000 signer (snd (Token.setSubject (str "me") (Token.new (V := value))))) with Ret text => text | Exc _ => [] end.


(** An object that revoked the signature of [signed_text], after another one. *)
Definition signed_signature : bytes := match split_token signed_text with Some (_, _, s) => decodeFromBase64 b64_decode s true | None => [] end.
Definition revoker : JWT := set_revocation (revocation_run ([Revoke (str "t") 5] ++ Revoke signed_signature 2000 :: [Collect 10])) signer.

Lemma revocations_last_witness :
  fst (verify 1100 signed_text (revoker, Token.new (V := value))) <> Ret true /\
  Revocation.isSignatureRevoked (str "t") (m_revocation revoker) = false.
Proof.
  split; [|vm_compute; reflexivity].
  destruct (revocations_last (V := value) (KEY := bytes) [Revoke (str "t") 5] signed_signature 2000 [Collect 10] 0) as (_ & Hv & _).
  - intros e' t He' Ht'. apply list_elem_of_singleton in Ht'. injection Ht' as ->.
    assert (Hne : signed_signature <> str "t") by (vm_compute; discriminate). revert He' Hne. generalize signed_signature. intros sg He' Hne.
    apply elem_of_cons in He' as [He'|He']; [by injection He'|]. apply elem_of_cons in He' as [He'|He']; [injection He' as ->; lia|].
    apply list_elem_of_singleton in He'. discriminate He'.
  - destruct (split_token signed_text) as [[[h p] s]|] eqn:E; [|vm_compute in E; discriminate E].
    apply (Hv 1100 signed_text revoker Token.new h p s); [reflexivity|reflexivity|exact E| |].
    + unfold signed_signature. by rewrite E.
    + vm_compute. reflexivity.
Defined.

Definition signer_events : list (event (V := value)) :=
  [SharedSecret (str "key"); EnableCache true; Verify 1100 signed_text Token.new; RevokeSignature (str "other") 2000].

Definition signer_after : JWT := foldl after (JWT_new false HS256) signer_events.
Definition verified : res bool * (JWT * Token.t value) := verify 1200 signed_text (signer_after, Token.new).

Lemma outcome_of {A B C} (v : res A * (B * C)) a : fst v = Ret a -> v = (Ret a, (fst (snd v), snd (snd v))).
Proof. destruct v as [r [b c]]. cbn. by intros ->. Qed.

Lemma accepted_tokens_are_genuine_witness :
  fst verified = Ret true /\
  exists h p s, split_token signed_text = Some (h, p, s) /\
    signed_payload (private_secrets signer_events) signer_after (decodeFromBase64 b64_decode p true) /\ in_time 1200 (snd (snd verified)).
Proof.
  assert (E : fst verified = Ret true) by (vm_compute; reflexivity). split; [exact E|].
  assert (Hbio : forall text, BIO_new_mem_buf (KEY := bytes) text = true) by done.
  destruct (accepted_tokens_are_genuine false HS256 signer_events 1200 signed_text Token.new _ _ Hbio eq_refl (outcome_of verified true E))
    as (h & p & s & Hs & Hp & _ & Ht & _).
  exists h, p, s. exact (conj Hs (conj Hp Ht)).
Defined.

(** A payload in the cache is accepted with any header and any signature, also
    when the signature it came with has been revoked since. *)
Lemma cached_payload_needs_no_signature :
  let j := foldl after (JWT_new false HS256) signer_events in
  match split_token signed_text with
  | Some (h, p, s) =>
      let j := after (V := value) j (RevokeSignature (decodeFromBase64 b64_decode s true) 5000) in
      fst (verify 1200 signed_text (j, Token.new (V := value))) = Ret true /\
      fst (verify 1200 (str "." ++ p ++ str ".") (j, Token.new (V := value))) = Ret true
  | None => False
  end.
Proof. vm_compute. split; reflexivity. Qed.

(** A token without an expiration is revoked with the time -1, so the first
    collection forgets it. *)
Lemma revocation_without_expiration_is_lost :
  Token.getExpirationTime (Token.new (V := value)) = Ret (-1) /\
  Revocation.isSignatureRevoked (str "s") (revocation_run [Revoke (str "s") (-1); Collect 0]) = false.
Proof. split; vm_compute; reflexivity. Qed.
