(* ===== verification/FastRpc.v ===== *)
(** * Remote procedure calls (Protocol_FastRPC3/)

    The messages of a connection on the wire, the local tasks that answer the
    requests of the peer (fastrpc3_localrpctasks.cpp, sessionptr.cpp) and the
    answers a connection keeps for its callers (fastrpc3.cpp,
    fastrpc3_remotemethods.cpp). The threads that run them are in
    FastRpcThreads.v. Sessions are shared objects: they live in a store, and a
    task keeps the session it found although the connection drops it. Each call
    of a clock is an argument. *)

From stdpp Require Import gmap.
From S2P Require Import Prelude SafeInt CText ByteOrder StreamableObject SocketStream Encoders BoostText Json JsonModel Jwt JwtSpec Sessions.

(** ** Constants (fastrpc3.h) *)

Definition CONNECTION_SHUTDOWN_OK : Z := 0.
Definition CONNECTION_READ_TIMEOUT : Z := -101.
Definition CONNECTION_INVALID_PROTOCOL : Z := -100.
Definition CONNECTION_FAILED_READING_REQUESTID : Z := -1.
Definition CONNECTION_FAILED_READING_FLAGS : Z := -2.
Definition CONNECTION_FAILED_READING_METHOD_NAME : Z := -3.
Definition CONNECTION_FAILED_READING_PAYLOAD : Z := -4.
Definition CONNECTION_FAILED_READING_EXTRAAUTH : Z := -5.
Definition CONNECTION_FAILED_PARSING_PAYLOAD : Z := -6.
Definition CONNECTION_CONTINUE : Z := 1.

Definition EXEC_FLAG_NORMAL : Z := 1.
Definition EXEC_FLAG_EXTRAAUTH : Z := 2.

Definition EXEC_STATUS_SUCCESS : Z := 2.
Definition EXEC_STATUS_ERR_REMOTE_QUEUE_OVERFLOW : Z := 3.
Definition EXEC_STATUS_ERR_METHOD_NOT_FOUND : Z := 4.

Definition ELT_RET_SUCCESS : Z := 0.
Definition ELT_RET_TOKENFAILED : Z := 1.
Definition ELT_RET_INVALIDIMPERSONATOR : Z := 2.
Definition ELT_RET_REQSESSION : Z := 3.
Definition ELT_RET_METHODNOTIMPLEMENTED : Z := 404.
Definition ELT_RET_NOTAUTHORIZED : Z := 403.
Definition ELT_RET_INTERNALERROR : Z := 500.

(** ** The wire *)

Definition TYPE_ANSWER : Z := 65.
Definition TYPE_QUERY : Z := 81.

Section Wire.
Context {D : Type} `{StreamSocket D}.
Variable big_endian : bool.
Abbreviation socket := (Socket_Stream D) (only parsing).

(** [a && b]: the second write only after the first one succeeds. *)
Definition and_then (a b : st socket bool) : st socket bool := let! ok := a in if ok then b else ret false.

(** sendRPCAnswer, under the mutex of the socket; the result is not used. *)
Definition sendRPCAnswer (maxMessageSize requestId : Z) (answer : bytes) (executionStatus : Z) : st socket bool :=
  and_then (writeU big_endian 1 TYPE_ANSWER)
  (and_then (writeU big_endian 8 requestId)
  (and_then (writeU big_endian 1 executionStatus)
  (writeStringEx big_endian 4 (if zlen answer <=? maxMessageSize then answer else []) maxMessageSize))).

Definition request_flags (extraJWTTokenAuth : bytes) : Z :=
  if bool_decide (extraJWTTokenAuth = []) then EXEC_FLAG_NORMAL else Z.lor EXEC_FLAG_NORMAL EXEC_FLAG_EXTRAAUTH.

(** The request of executeTask: whether it was transmitted. *)
Definition send_request (maxMessageSize requestId : Z) (methodName output extraJWTTokenAuth : bytes) : st socket bool :=
  let flags := request_flags extraJWTTokenAuth in
  let! dataTransmitOK :=
    and_then (writeU big_endian 1 TYPE_QUERY)
    (and_then (writeU big_endian 8 requestId)
    (and_then (writeU big_endian 1 flags)
    (and_then (writeStringEx big_endian 1 methodName (max_value 1 - 1))
    (writeStringEx big_endian 4 output maxMessageSize)))) in
  if negb (Z.land flags EXEC_FLAG_EXTRAAUTH =? 0) then
    if dataTransmitOK then writeStringEx big_endian 4 (c_str extraJWTTokenAuth) (zlen extraJWTTokenAuth) else ret false
  else ret dataTransmitOK.

(** What processIncomingExecutionRequest reads, or the value it returns. The
    limit of the token is what is left in maxAlloc: the size of the payload. *)
Record request : Type := mkRequest { q_requestId : Z; q_methodName : bytes; q_payload : bytes; q_extra : option bytes }.

Definition read_request (maxMessageSize : Z) : st socket (Z + request) :=
  let! requestId := readU big_endian 8 in
  if fst requestId =? 0 then ret (inl CONNECTION_FAILED_READING_REQUESTID)
  else
    let! flags := readU big_endian 1 in
    if fst flags =? 0 then ret (inl CONNECTION_FAILED_READING_FLAGS)
    else
      let! methodName := readStringEx big_endian 1 (max_value 1 - 1) in
      if negb (snd methodName) then ret (inl CONNECTION_FAILED_READING_METHOD_NAME)
      else
        let! payload := readBlockWAllocEx big_endian 4 (Some maxMessageSize) in
        match payload with
        | (None, _) => ret (inl CONNECTION_FAILED_READING_PAYLOAD)
        | (Some payloadBytes, maxAlloc) =>
            if negb (Z.land (fst flags) EXEC_FLAG_EXTRAAUTH =? 0) then
              let! extra := readBlockWAllocEx big_endian 4 (Some maxAlloc) in
              match fst extra with
              | None => ret (inl CONNECTION_FAILED_READING_EXTRAAUTH)
              | Some token => ret (inr (mkRequest (fst requestId) (fst methodName) (c_str payloadBytes) (Some (c_str token))))
              end
            else ret (inr (mkRequest (fst requestId) (fst methodName) (c_str payloadBytes) None))
        end.

(** What processIncomingAnswer reads: the request, the status and the payload. *)
Definition read_answer (maxMessageSize : Z) : st socket (Z + (Z * Z * bytes)) :=
  let! requestId := readU big_endian 8 in
  if fst requestId =? 0 then ret (inl (-1))
  else
    let! executionStatus := readU big_endian 1 in
    let! payload := readBlockWAllocEx big_endian 4 (Some maxMessageSize) in
    match fst payload with
    | None => ret (inl (-3))
    | Some payloadBytes => ret (inr (fst requestId, fst executionStatus, c_str payloadBytes))
    end.
End Wire.

(** ** The answers of a connection *)

Section Answers.
Context {V : Type} `{JsonCpp V}.

Record Connection : Type := mkConnection {
  requestIdCounter : Z;
  answers : gmap Z V;
  executionStatus : gmap Z Z;
  pendingRequests : gset Z;
  terminated : bool
}.
Implicit Types c : Connection.

Definition Connection_new : Connection := mkConnection 1 ∅ ∅ ∅ false.

(** [requestIdCounter++] *)
Definition next_request c : Z * Connection :=
  (requestIdCounter c, mkConnection (u64 (requestIdCounter c + 1)) (answers c) (executionStatus c) (pendingRequests c) (terminated c)).
Definition expect (requestId : Z) c : Connection :=
  mkConnection (requestIdCounter c) (answers c) (executionStatus c) ({[requestId]} ∪ pendingRequests c) (terminated c).
Definition forget (requestId : Z) c : Connection :=
  mkConnection (requestIdCounter c) (delete requestId (answers c)) (delete requestId (executionStatus c)) (pendingRequests c ∖ {[requestId]}) (terminated c).
Definition terminate c : Connection := mkConnection (requestIdCounter c) (answers c) (executionStatus c) (pendingRequests c) true.

(** An answer that nobody asked for, one that is kept (the callers are
    notified), one that cannot be read. *)
Inductive incoming : Type := Unexpected | Kept | Malformed.

Definition put_answer (requestId status : Z) (payload : bytes) c : incoming * Connection :=
  if bool_decide (requestId ∈ pendingRequests c) then
    let (ok, v) := parse payload (default nullValue (answers c !! requestId)) in
    if (ok : bool) then
      (Kept, mkConnection (requestIdCounter c) (<[requestId := v]> (answers c)) (<[requestId := status]> (executionStatus c)) (pendingRequests c) (terminated c))
    else (Malformed, forget requestId c)
  else (Unexpected, c).

(** ** What executeTask answers *)

Inductive call_error : Type :=
  EXEC_SUCCESS | EXEC_ERR_PAYLOAD_TOO_LARGE | EXEC_ERR_PEER_NOT_FOUND | EXEC_ERR_DATA_TRANSMISSION_FAILURE | EXEC_ERR_TIMEOUT
| EXEC_ERR_REMOTE_QUEUE_OVERFLOW | EXEC_ERR_METHOD_NOT_FOUND | EXEC_ERR_CONNECTION_LOST.

Definition error_number (e : call_error) : Z :=
  match e with
  | EXEC_SUCCESS => 0 | EXEC_ERR_PAYLOAD_TOO_LARGE => 1 | EXEC_ERR_PEER_NOT_FOUND => 2 | EXEC_ERR_DATA_TRANSMISSION_FAILURE => 3
  | EXEC_ERR_TIMEOUT => 4 | EXEC_ERR_REMOTE_QUEUE_OVERFLOW => 5 | EXEC_ERR_METHOD_NOT_FOUND => 6 | EXEC_ERR_CONNECTION_LOST => 7
  end.
Definition error_message (e : call_error) : bytes :=
  match e with
  | EXEC_SUCCESS => str "Execution OK."
  | EXEC_ERR_PAYLOAD_TOO_LARGE => str "Payload exceed the Maximum Message Size."
  | EXEC_ERR_PEER_NOT_FOUND => str "Abort after remote peer not found/connected."
  | EXEC_ERR_DATA_TRANSMISSION_FAILURE => str "Connection Failed."
  | EXEC_ERR_TIMEOUT => str "Remote Execution Timed Out: No Answer Received."
  | EXEC_ERR_REMOTE_QUEUE_OVERFLOW => str "Remote Execution Failed: Full Queue."
  | EXEC_ERR_METHOD_NOT_FOUND => str "Remote Execution Failed: Method Not Found."
  | EXEC_ERR_CONNECTION_LOST => str "Connection is terminated: No Answer Received."
  end.

(** How the wait ends: an answer with its status, or not. *)
Inductive outcome : Type := Answered (r : V) (status : Z) | Failed (e : call_error).

(** The error of a status; [None] leaves only that it did not succeed. *)
Definition status_error (status : Z) : option call_error :=
  if status =? EXEC_STATUS_SUCCESS then Some EXEC_SUCCESS
  else if status =? EXEC_STATUS_ERR_REMOTE_QUEUE_OVERFLOW then Some EXEC_ERR_REMOTE_QUEUE_OVERFLOW
  else if status =? EXEC_STATUS_ERR_METHOD_NOT_FOUND then Some EXEC_ERR_METHOD_NOT_FOUND
  else None.

Definition outcome_value (o : outcome) : V := match o with Answered r _ => r | Failed _ => nullValue end.

Definition put_error (e : call_error) (error : V) : res V :=
  let? error := set_member (str "succeed") (of_bool (bool_decide (error_number e = 0))) error in
  let? error := set_member (str "errorId") (of_int64 (error_number e)) error in
  set_member (str "errorMessage") (of_string (error_message e)) error.

(** The value of [*error] after the call. *)
Definition outcome_error (o : outcome) (error : V) : res V :=
  match o with
  | Failed e => put_error e error
  | Answered _ status =>
      match status_error status with
      | Some e => put_error e error
      | None => set_member (str "succeed") (of_bool false) error
      end
  end.
End Answers.
Arguments Connection : clear implicits.
Arguments outcome : clear implicits.

(** ** The local tasks *)

(** The callbacks of the program, with what they are told. *)
Inductive token_error : Type := TOKEN_VALIDATION_ERROR | EXTRATOKEN_VALIDATION_ERROR | EXTRATOKEN_IMPERSONATION_ERROR | EXTRATOKEN_NOTREQUIRED_ERROR | TOKEN_REVOKED.

Record TaskParameters (V : Type) : Type := mkTask {
  t_requestId : Z;
  t_methodName : bytes;
  t_payload : V;
  t_extraTokenAuth : option bytes;
  t_userId : bytes;
  t_domain : bytes
}.
Arguments mkTask {V} t_requestId t_methodName t_payload t_extraTokenAuth t_userId t_domain.
Arguments t_requestId {V} t.
Arguments t_methodName {V} t.
Arguments t_payload {V} t.
Arguments t_extraTokenAuth {V} t.
Arguments t_userId {V} t.
Arguments t_domain {V} t.

Inductive event (V : Type) : Type :=
| onMethodExecutionSessionMissing (p : TaskParameters V)
| onMethodExecutionStart (p : TaskParameters V) (payloadIn : V)
| onMethodExecutionNotAuthorized (p : TaskParameters V) (reasons : V)
| onMethodExecutionNotFound (p : TaskParameters V)
| onMethodExecutionSuccess (p : TaskParameters V) (payloadOut : V)
| onMethodExecutionUnknownError (p : TaskParameters V)
| onTokenValidationSuccess (p : TaskParameters V) (jwtToken : bytes)
| onTokenValidationFailure (p : TaskParameters V) (jwtToken : bytes) (err : token_error)
| onProtocolUnexpectedResponse (answer : bytes)
| onOutgoingTaskFailureDisconnectedPeer (methodName : bytes) (payload : V)
| onOutgoingTaskFailureTimeout (methodName : bytes) (payload : V)
| onIncomingTaskDroppedQueueFull (p : TaskParameters V).
Arguments onMethodExecutionSessionMissing {V} p.
Arguments onMethodExecutionStart {V} p payloadIn.
Arguments onMethodExecutionNotAuthorized {V} p reasons.
Arguments onMethodExecutionNotFound {V} p.
Arguments onMethodExecutionSuccess {V} p payloadOut.
Arguments onMethodExecutionUnknownError {V} p.
Arguments onTokenValidationSuccess {V} p jwtToken.
Arguments onTokenValidationFailure {V} p jwtToken err.
Arguments onProtocolUnexpectedResponse {V} answer.
Arguments onOutgoingTaskFailureDisconnectedPeer {V} methodName payload.
Arguments onOutgoingTaskFailureTimeout {V} methodName payload.
Arguments onIncomingTaskDroppedQueueFull {V} p.

Record Config : Type := mkConfig { maxMessageSize : Z; loginURL : bytes; returnURI : bytes; ignoreSSLCertForSSO : bool }.

Section Tasks.
Context {V : Type} `{JsonCpp V} {KEY : Type} `{OpenSSL KEY} `{Base64Encoder, Base64Decoder} {C W : Type}.
(** The program's callbacks act on the rest of the program. *)
Variable on_event : event V -> W -> W.

(** What the tasks of a connection share. [holder] is its SessionPTR. *)
Record Server : Type := mkServer {
  methodHandlers : MonolithHandler V C W;
  jwtValidator : JWT;
  sessions : gmap positive (Session V);
  holder : option positive;
  world : W
}.

Definition emit (e : event V) : st Server unit := fun s =>
  (Ret tt, mkServer (methodHandlers s) (jwtValidator s) (sessions s) (holder s) (on_event e (world s))).
Definition on_jwt {A} (f : st JWT A) : st Server A := fun s =>
  let (r, j) := f (jwtValidator s) in (r, mkServer (methodHandlers s) j (sessions s) (holder s) (world s)).
Definition on_handlers {A} (f : MonolithHandler V C W -> A * MonolithHandler V C W) : st Server A := fun s =>
  let (r, h) := f (methodHandlers s) in (Ret r, mkServer h (jwtValidator s) (sessions s) (holder s) (world s)).
Definition set_session (place : option positive) (x : Session V) : st Server unit := fun s =>
  (Ret tt, match place with
           | Some i => mkServer (methodHandlers s) (jwtValidator s) (<[i := x]> (sessions s)) (holder s) (world s)
           | None => s
           end).

(** *** SessionPTR (sessionptr.cpp) *)

Definition getSharedPointer (s : Server) : option positive := holder s.

Definition session_destroy : st Server bool := fun s =>
  match holder s with
  | None => (Ret false, s)
  | Some _ => (Ret true, mkServer (methodHandlers s) (jwtValidator s) (sessions s) None (world s))
  end.

(** [fresh] is the address of the new session, [time] reads the clock. *)
Definition session_create (fresh : positive) (time : nat -> Z) (jwt : Token.t V) : st Server (option positive) := fun s =>
  match holder s with
  | Some _ => (Ret None, s)
  | None =>
      match Session_of (time 0%nat) (time 1%nat) jwt with
      | Exc e => (Exc e, s)
      | Ret x => (Ret (Some fresh), mkServer (methodHandlers s) (jwtValidator s) (<[fresh := x]> (sessions s)) (Some fresh) (world s))
      end
  end.

(** isSessionRevoked of session.h. *)
Definition isSessionRevoked (x : Session V) : bool := false.

(** *** executeLocalTask *)

Definition set_status (code : Z) (fullResponse : V) : res V := set_member (str "statusCode") (of_int64 code) fullResponse.

(** Its variables: the session, its place when it is shared, sessionFailed and
    fullResponse. *)
Record current : Type := mkCurrent { c_session : option (Session V); c_place : option positive; sessionFailed : bool; fullResponse : V }.

Definition reject (p : TaskParameters V) (token : bytes) (err : token_error) (code : Z) (x : current) : st Server current :=
  do! emit (onTokenValidationFailure p token err) in
  let! full := lift_res (set_status code (fullResponse x)) in
  ret (mkCurrent (c_session x) (c_place x) true full).

(** A session of the token for this task alone. *)
Definition virtual_session (time : nat -> Z) (extraJWT : Token.t V) (x : current) : st Server current :=
  let! s := lift_res (Session_of (time 0%nat) (time 1%nat) extraJWT) in
  ret (mkCurrent (Some s) None (sessionFailed x) (fullResponse x)).

Definition check_extra_token (time : nat -> Z) (p : TaskParameters V) (x : current) : st Server current :=
  match t_extraTokenAuth p with
  | None => ret x
  | Some extraTokenAuth =>
      let! extraJWT := on_jwt (verifyAndDecodeTokenPayload (time 2%nat) extraTokenAuth) in
      let! valid := lift_res (Token.isValid (time 3%nat) extraJWT) in
      if (valid : bool) then
        let! impersonator := lift_res (Token.getImpersonator extraJWT) in
        if bool_decide (impersonator = []) then
          match c_session x with
          | None => virtual_session time extraJWT x
          | Some _ => reject p extraTokenAuth EXTRATOKEN_NOTREQUIRED_ERROR ELT_RET_TOKENFAILED x
          end
        else
          match c_session x with
          | None => throw (undefined "null session")
          | Some s =>
              let! domain := lift_res (Token.getDomain extraJWT) in
              if bool_decide (m_user s = impersonator) && bool_decide (domain = m_domain s) then virtual_session time extraJWT x
              else reject p extraTokenAuth EXTRATOKEN_IMPERSONATION_ERROR ELT_RET_INVALIDIMPERSONATOR x
          end
      else reject p extraTokenAuth EXTRATOKEN_VALIDATION_ERROR ELT_RET_TOKENFAILED x
  end.

Definition check_revoked (p : TaskParameters V) (x : current) : st Server current :=
  match c_session x with
  | Some s =>
      if negb (sessionFailed x) && isSessionRevoked s then
        reject p (default [] (t_extraTokenAuth p)) TOKEN_REVOKED ELT_RET_TOKENFAILED (mkCurrent None None (sessionFailed x) (fullResponse x))
      else ret x
  | None => ret x
  end.

(** The call of the method: functionFound, the payload of the response and
    fullResponse. *)
Definition invoke_method (time : nat -> Z) (p : TaskParameters V) (x : current) : st Server (bool * V * V) := fun s =>
  let '(r, (w, session, h)) := invoke (time 5%nat) (t_methodName p) (t_payload p) (world s, c_session x, methodHandlers s) in
  let s := mkServer h (jwtValidator s) (match session, c_place x with Some s', Some i => <[i := s']> (sessions s) | _, _ => sessions s end) (holder s) w in
  match r with
  | Exc e => (Exc e, s)
  | Ret (code, payloadOut) =>
      if code =? METHOD_RET_CODE_SUCCESS then
        let responsePayload := default nullValue payloadOut in
        (do! emit (onMethodExecutionSuccess p responsePayload) in
         let! full := lift_res (set_status 200 (fullResponse x)) in ret (true, responsePayload, full)) s
      else if code =? METHOD_RET_CODE_METHODNOTFOUND then
        (do! emit (onMethodExecutionNotFound p) in
         let! full := lift_res (set_status ELT_RET_METHODNOTIMPLEMENTED (fullResponse x)) in ret (false, nullValue, full)) s
      else
        (do! emit (onMethodExecutionUnknownError p) in
         let! full := lift_res (set_status ELT_RET_INTERNALERROR (fullResponse x)) in ret (false, nullValue, full)) s
  end.

(** [fullResponse["auth"]["reasons"] = reasons] *)
Definition put_reasons (reasons full : V) : res V :=
  let? auth := member (str "auth") full in
  let? auth := set_member (str "reasons") reasons auth in
  set_member (str "auth") auth full.

Definition validate_and_invoke (time : nat -> Z) (p : TaskParameters V) (x : current) : st Server (bool * V * V) :=
  let! answer := on_handlers (validateMethodRequirements (c_session x) (t_methodName p) nullValue) in
  let! answer := lift_res answer in
  let '(code, reasons) := answer in
  match code with
  | VALIDATION_OK =>
      let updated := match c_session x with Some s => Some (updateLastActivity (time 4%nat) s) | None => None end in
      do! match updated with Some s => set_session (c_place x) s | None => ret tt end in
      do! emit (onMethodExecutionStart p (t_payload p)) in
      invoke_method time p (mkCurrent updated (c_place x) (sessionFailed x) (fullResponse x))
  | VALIDATION_NOTAUTHORIZED =>
      do! emit (onMethodExecutionNotAuthorized p reasons) in
      let! full := lift_res (put_reasons reasons (fullResponse x)) in
      let! full := lift_res (set_status ELT_RET_NOTAUTHORIZED full) in
      ret (false, nullValue, full)
  | VALIDATION_METHODNOTFOUND =>
      do! emit (onMethodExecutionNotFound p) in
      let! full := lift_res (set_status ELT_RET_METHODNOTIMPLEMENTED (fullResponse x)) in
      ret (false, nullValue, full)
  end.

(** The second test asks the handler again. *)
Definition may_go_on (p : TaskParameters V) (x : current) : st Server bool :=
  let! required := on_handlers (doesMethodRequireActiveSession (t_methodName p)) in
  if (required : bool) then
    let! required := on_handlers (doesMethodRequireActiveSession (t_methodName p)) in
    ret (required && bool_decide (is_Some (c_session x)))
  else ret true.

(** The answer and its status. [place] is the session the task found. *)
Definition executeLocalTask (time : nat -> Z) (place : option positive) (p : TaskParameters V) : st Server (bytes * Z) := fun s =>
  let session := match place with Some i => sessions s !! i | None => None end in
  (let! full := lift_res (set_status ELT_RET_SUCCESS nullValue) in
   let! x := check_extra_token time p (mkCurrent session place false full) in
   let! x := check_revoked p x in
   let! go := may_go_on p x in
   let! r :=
     if (go : bool) then
       if sessionFailed x then ret (false, nullValue, fullResponse x) else validate_and_invoke time p x
     else
       do! emit (onMethodExecutionSessionMissing p) in
       let! full := lift_res (set_status ELT_RET_REQSESSION (fullResponse x)) in
       ret (false, nullValue, full) in
   let '(functionFound, responsePayload, full) := (r : bool * V * V) in
   let! full := lift_res (set_member (str "payload") responsePayload full) in
   ret (toStyledString full, if functionFound then EXEC_STATUS_SUCCESS else EXEC_STATUS_ERR_METHOD_NOT_FOUND)) s.

(** *** The tasks of the sessions *)

Inductive LoginReason : Type := INTERNAL_ERROR | SESSION_DUPLICATE | TOKEN_VALIDATED | TOKEN_FAILED.

Definition login_number (r : LoginReason) : Z :=
  match r with INTERNAL_ERROR => 0 | SESSION_DUPLICATE => 1 | TOKEN_VALIDATED => 2 | TOKEN_FAILED => 3 end.
Definition login_text (r : LoginReason) : bytes :=
  match r with
  | INTERNAL_ERROR => str "An internal error occurred. Please try again later."
  | SESSION_DUPLICATE => str "A duplicate session was detected. Ensure only one active session exists for each token."
  | TOKEN_VALIDATED => str "The JWT token has been successfully validated."
  | TOKEN_FAILED => str "JWT token validation failed. Please check the token configuration and try again."
  end.
Definition toJsonResponse (r : LoginReason) : res V :=
  let? response := set_member (str "val") (of_int64 (login_number r)) nullValue in
  set_member (str "txt") (of_string (login_text r)) response.

(** [place] is the session the task found when it started; the connection may
    have another one when it creates its own. *)
Definition login_reason (fresh : positive) (time : nat -> Z) (place : option positive) (p : TaskParameters V) : st Server LoginReason :=
  let! sJWTToken := lift_res (JSON_ASSTRING (t_payload p) (str "jwtToken") []) in
  match place with
  | Some _ => ret SESSION_DUPLICATE
  | None =>
      let! token := on_jwt (verifyAndDecodeTokenPayload (time 2%nat) sJWTToken) in
      let! valid := lift_res (Token.isValid (time 3%nat) token) in
      if (valid : bool) then
        let! created := session_create fresh time token in
        match created with
        | Some i =>
            let! x := gets (fun s => sessions s !! i) in
            do! match x with Some x => set_session (Some i) (updateLastActivity (time 4%nat) x) | None => ret tt end in
            do! emit (onTokenValidationSuccess p sJWTToken) in
            ret TOKEN_VALIDATED
        | None =>
            do! emit (onMethodExecutionUnknownError p) in
            ret INTERNAL_ERROR
        end
      else
        do! emit (onTokenValidationFailure p sJWTToken TOKEN_VALIDATION_ERROR) in
        ret TOKEN_FAILED
  end.

Definition login (fresh : positive) (time : nat -> Z) (place : option positive) (p : TaskParameters V) : st Server (bytes * Z) :=
  let! reason := login_reason fresh time place p in
  let! response := lift_res (toJsonResponse reason) in
  ret (toStyledString response, EXEC_STATUS_SUCCESS).

Definition logout : st Server (bytes * Z) :=
  let! response := session_destroy in
  ret (toStyledString (of_bool response), EXEC_STATUS_SUCCESS).

Definition getSSOData (config : Config) : st Server (bytes * Z) :=
  let! data := lift_res (
    let? data := set_member (str "loginURL") (of_string (loginURL config)) nullValue in
    let? data := set_member (str "returnURI") (of_string (returnURI config)) data in
    set_member (str "ignoreSSLCertForSSO") (of_bool (ignoreSSLCertForSSO config)) data) in
  ret (toStyledString data, EXEC_STATUS_SUCCESS).

(** The task that the name of the method chooses. *)
Definition currentTask (config : Config) (fresh : positive) (time : nat -> Z) (place : option positive) (p : TaskParameters V) : st Server (bytes * Z) :=
  if bool_decide (t_methodName p = str "SESSION.LOGIN") then login fresh time place p
  else if bool_decide (t_methodName p = str "SESSION.LOGOUT") then logout
  else if bool_decide (t_methodName p = str "SESSION.GETSSODATA") then getSSOData config
  else executeLocalTask time place p.

(** The parameters of a request, once its payload is read. *)
Definition task_of (r : request) (payload : V) (s : Server) : TaskParameters V :=
  let session := match holder s with Some i => sessions s !! i | None => None end in
  mkTask (q_requestId r) (q_methodName r) payload (q_extra r)
    (match session with Some x => m_user x | None => [] end) (match session with Some x => m_domain x | None => [] end).
End Tasks.
Arguments Server : clear implicits.

(** * Messages cross the wire *)

Section Written.
Context {D : Type} `{Outgoing D}.
Variable big : bool.
Implicit Types s : Socket_Stream D.

(** [f] sends [wire] on a socket that takes it. *)
Definition sends (f : st (Socket_Stream D) bool) (wire : bytes) : Prop := forall s, writable (dev s) ->
  exists s', f s = (Ret true, s') /\ writable (dev s') /\ outbox (dev s') = outbox (dev s) ++ wire.

Lemma sends_and_then a b x y : sends a x -> sends b y -> sends (and_then a b) (x ++ y).
Proof.
  intros Ha Hb s Hw. destruct (Ha s Hw) as (s1 & E1 & Hw1 & Ho1), (Hb s1 Hw1) as (s2 & E2 & Hw2 & Ho2).
  exists s2. unfold and_then, bind. rewrite E1. split; [done|]. split; [done|]. by rewrite Ho2, Ho1, app_assoc.
Qed.

Lemma sends_integer w x : width w -> 0 <= x <= max_value w -> sends (writeU big w x) (be_bytes w x).
Proof. intros Hw Hx s Hs. destruct (writeU_network_order big w x s Hw Hx Hs) as (s' & ? & ? & ?). by exists s'. Qed.

Lemma sends_string w text maxSize : width w -> zlen text <= maxSize -> zlen text <= max_value w -> zlen text <= SSIZE_MAX ->
  sends (writeStringEx big w text maxSize) (frame w text).
Proof. intros ? ? ? ? s Hs. by apply writeStringEx_frame. Qed.
End Written.

Section Read.
Context {D : Type} `{Incoming D}.
Variable big : bool.
Implicit Types s : Socket_Stream D.

Lemma readU_frame w x rest s : width w -> 0 <= x <= max_value w -> healthy (dev s) -> inbox (dev s) = be_bytes w x ++ rest ->
  exists s', readU big w s = (Ret (x, true), s') /\ inbox (dev s') = rest /\ healthy (dev s').
Proof.
  intros Hw Hx Hh Hin. pose proof (zlen_be_bytes w x) as Hb. pose proof (zlen_nonneg rest). pose proof (max_value_pow w).
  destruct (readU_spec big w s Hw) as (v & ok & s' & Hs & Hok & Hbad). exists s'. rewrite Hin in *. destruct ok.
  - destruct (Hok eq_refl) as (_ & -> & Hi & Hhd). rewrite Hs, Hi. split; [|split; [|by apply Hhd]].
    + repeat f_equal. unfold header. rewrite ztake_app_le, ztake_ge, be_int_be_bytes, Z.mod_small by lia. done.
    + rewrite zdrop_app_ge, Hb, Z.sub_diag, zdrop_le0 by lia. done.
  - exfalso. specialize (Hbad Hh eq_refl). rewrite zlen_app in Hbad. lia.
Qed.

(** A block comes back with a zero after it, or is refused by its size. *)
Lemma readBlock_frame w limit text rest s : width w -> 0 <= limit < max_value w -> zlen text <= max_value w -> healthy (dev s) ->
  inbox (dev s) = frame w text ++ rest ->
  exists s', if zlen text <=? limit then readBlockWAllocEx big w (Some limit) s = (Ret (Some (text ++ [chr 0]), zlen text), s') /\ inbox (dev s') = rest /\ healthy (dev s')
             else readBlockWAllocEx big w (Some limit) s = (Ret (None, 0), s').
Proof.
  intros Hw Hl Hx Hh Hin. pose proof (zlen_nonneg text). pose proof (zlen_nonneg rest). pose proof (zlen_be_bytes w (zlen text)) as Hb. pose proof (max_value_pow w).
  assert (Hhead : header w (inbox (dev s)) = zlen text).
  { unfold header. rewrite Hin. unfold frame. rewrite <- app_assoc, ztake_app_le, ztake_ge, be_int_be_bytes, Z.mod_small by lia. done. }
  assert (Hlen : zlen (inbox (dev s)) = Z.of_nat w + zlen text + zlen rest) by (rewrite Hin; unfold frame; rewrite !zlen_app, Hb; lia).
  destruct (readBlockWAllocEx_spec big w (Some limit) s Hw) as ([[block|] n] & s' & Hs & Hr); [by intros ? [= <-]| |]; cbv zeta in Hr; exists s'; rewrite Hs.
  - destruct Hr as ((_ & Hle & _) & -> & -> & Hi & Hhd). rewrite Hhead in *. replace (zlen text <=? limit) with true by lia. split; [|split; [|by apply Hhd]].
    + repeat f_equal. rewrite Hin. unfold slice, frame. rewrite <- app_assoc, zdrop_app_ge, Hb, Z.sub_diag, zdrop_le0 by lia. apply ztake_length_app.
    + rewrite Hi, Hin. unfold frame. rewrite zdrop_app_ge; rewrite zlen_app, Hb; [|lia]. apply zdrop_le0. lia.
  - destruct Hr as [-> Hr]. destruct (zlen text <=? limit) eqn:E; [|done]. zbool. exfalso. apply Hr; [done|]. unfold block_ready. rewrite Hhead, Hlen. lia.
Qed.
End Read.

(** The receiver takes a block as a C string. *)
Lemma block_c_str text : c_str text = text -> c_str (text ++ [chr 0]) = text.
Proof. intros Ht. by rewrite c_str_terminated. Qed.

Section RoundTrip.
Context {D1 : Type} `{Outgoing D1} {D2 : Type} `{Incoming D2}.
Variables big1 big2 : bool.

(** What follows the type of a request. *)
Definition request_wire (requestId : Z) (methodName output extraJWTTokenAuth : bytes) : bytes :=
  be_bytes 8 requestId ++ be_bytes 1 (request_flags extraJWTTokenAuth) ++ frame 1 methodName ++ frame 4 output ++
  (if bool_decide (extraJWTTokenAuth = []) then [] else frame 4 extraJWTTokenAuth).

Lemma sends_request M requestId methodName output extra :
  0 <= M < max_value 4 -> 0 <= requestId <= max_value 8 -> zlen methodName < max_value 1 -> zlen output <= M ->
  c_str extra = extra -> zlen extra <= max_value 4 ->
  sends (D := D1) (send_request big1 M requestId methodName output extra) (be_bytes 1 TYPE_QUERY ++ request_wire requestId methodName output extra).
Proof.
  intros HM Hid Hname Hout Hplain Hextra. assert (Hbig : max_value 4 <= SSIZE_MAX) by (vm_compute; discriminate).
  assert (Hflags : 0 <= request_flags extra <= max_value 1) by (unfold request_flags; case_bool_decide; vm_compute; split; discriminate).
  assert (Hmain : sends (D := D1) (and_then (writeU big1 1 TYPE_QUERY) (and_then (writeU big1 8 requestId) (and_then (writeU big1 1 (request_flags extra))
    (and_then (writeStringEx big1 1 methodName (max_value 1 - 1)) (writeStringEx big1 4 output M)))))
    (be_bytes 1 TYPE_QUERY ++ be_bytes 8 requestId ++ be_bytes 1 (request_flags extra) ++ frame 1 methodName ++ frame 4 output)).
  { assert (max_value 1 <= SSIZE_MAX) by (vm_compute; discriminate).
    repeat apply sends_and_then; first [apply sends_integer | apply sends_string]; unfold width; try lia; cbn; tauto. }
  unfold send_request, request_wire. unfold request_flags in *. case_bool_decide as He.
  - rewrite app_nil_r. intros s Hs. destruct (Hmain s Hs) as (s' & E & Hs' & Ho). exists s'. unfold bind. rewrite E. done.
  - intros s Hs. destruct (Hmain s Hs) as (s1 & E1 & Hs1 & Ho1). unfold bind. rewrite E1. cbn [Z.land negb].
    rewrite Hplain. destruct (sends_string big1 4 extra (zlen extra) ltac:(cbn; tauto) ltac:(lia) ltac:(lia) ltac:(lia) s1 Hs1) as (s2 & E2 & Hs2 & Ho2).
    exists s2. split; [exact E2|]. split; [done|]. by rewrite Ho2, Ho1, <- !app_assoc.
Qed.

Lemma reads_request M requestId methodName output extra rest s :
  0 <= M < max_value 4 -> 0 < requestId <= max_value 8 -> zlen methodName < max_value 1 -> zlen output <= M ->
  c_str output = output -> c_str extra = extra -> zlen extra <= max_value 4 -> healthy (dev s) ->
  inbox (dev s) = request_wire requestId methodName output extra ++ rest ->
  exists s', if bool_decide (extra = []) then read_request big2 M s = (Ret (inr (mkRequest requestId methodName output None)), s') /\ inbox (dev s') = rest
             else if zlen extra <=? zlen output then read_request big2 M s = (Ret (inr (mkRequest requestId methodName output (Some extra))), s') /\ inbox (dev s') = rest
             else read_request big2 M s = (Ret (inl CONNECTION_FAILED_READING_EXTRAAUTH), s').
Proof.
  intros HM Hid Hname Hout Hpo Hpe Hextra Hh Hin. unfold request_wire in Hin. rewrite <- !app_assoc in Hin.
  assert (Hflags : 0 < request_flags extra <= max_value 1) by (unfold request_flags; case_bool_decide; vm_compute; split; try discriminate; done).
  destruct (readU_frame big2 8 requestId _ s ltac:(cbn; tauto) ltac:(lia) Hh Hin) as (s1 & E1 & Hi1 & Hh1).
  destruct (readU_frame big2 1 (request_flags extra) _ s1 ltac:(cbn; tauto) ltac:(lia) Hh1 Hi1) as (s2 & E2 & Hi2 & Hh2).
  destruct (readStringEx_frame big2 1 (max_value 1 - 1) methodName _ s2 ltac:(cbn; tauto) ltac:(lia) Hh2 Hi2) as (s3 & E3 & Hi3 & Hh3).
  destruct (readBlock_frame big2 4 M output _ s3 ltac:(cbn; tauto) HM ltac:(lia) Hh3 Hi3) as (s4 & E4).
  replace (zlen output <=? M) with true in E4 by lia. destruct E4 as (E4 & Hi4 & Hh4).
  unfold read_request, bind. rewrite E1. cbn [fst]. replace (requestId =? 0) with false by lia. rewrite E2. cbn [fst].
  replace (request_flags extra =? 0) with false by lia. rewrite E3. cbn [snd negb fst]. rewrite E4, (block_c_str _ Hpo).
  unfold request_flags. case_bool_decide as He; cbn [Z.land negb].
  - exists s4. done.
  - destruct (readBlock_frame big2 4 (zlen output) extra rest s4 ltac:(cbn; tauto) ltac:(pose proof (zlen_nonneg output); lia) Hextra Hh4 Hi4) as (s5 & E5).
    exists s5. destruct (zlen extra <=? zlen output); [|change (Z.land (Z.lor EXEC_FLAG_NORMAL EXEC_FLAG_EXTRAAUTH) EXEC_FLAG_EXTRAAUTH =? 0) with false; cbn [negb]; by rewrite E5].
    destruct E5 as (E5 & Hi5 & _). change (Z.land (Z.lor EXEC_FLAG_NORMAL EXEC_FLAG_EXTRAAUTH) EXEC_FLAG_EXTRAAUTH =? 0) with false. cbn [negb]. rewrite E5. cbn [fst]. by rewrite (block_c_str _ Hpe).
Qed.

Lemma sends_answer M requestId answer status :
  0 <= M < max_value 4 -> 0 <= requestId <= max_value 8 -> 0 <= status <= max_value 1 ->
  sends (D := D1) (sendRPCAnswer big1 M requestId answer status)
    (be_bytes 1 TYPE_ANSWER ++ be_bytes 8 requestId ++ be_bytes 1 status ++ frame 4 (if zlen answer <=? M then answer else [])).
Proof.
  intros HM Hid Hst. assert (max_value 4 <= SSIZE_MAX) by (vm_compute; discriminate). assert (0 <= TYPE_ANSWER <= max_value 1) by (vm_compute; split; discriminate).
  assert (Hl : zlen (if zlen answer <=? M then answer else []) <= M) by (case_cond; zbool; [done|rewrite zlen_nil; lia]).
  repeat apply sends_and_then; first [apply sends_integer | apply sends_string]; unfold width; try lia; cbn; tauto.
Qed.

(** C17: A request that executeTask sends (its number is not 0, the name of its
    method has less than 255 bytes, its payload is within the size of a message
    of both sides, and payload and token have no NUL) is the request that the
    peer reads, whatever the pieces the two sockets take and give and the byte
    orders of the hosts, and leaves what follows it in the stream; but a token
    that is longer than the payload is refused. *)
Theorem requests_cross_the_wire M requestId methodName output extra (s1 : Socket_Stream D1) :
  0 <= M < max_value 4 -> 0 < requestId <= max_value 8 -> zlen methodName < max_value 1 -> zlen output <= M ->
  c_str output = output -> c_str extra = extra -> zlen extra <= max_value 4 -> writable (dev s1) ->
  exists wire s1', send_request big1 M requestId methodName output extra s1 = (Ret true, s1') /\ outbox (dev s1') = outbox (dev s1) ++ wire /\
    forall (s2 : Socket_Stream D2) rest, healthy (dev s2) -> inbox (dev s2) = wire ++ rest ->
    exists s3, readU big2 1 s2 = (Ret (TYPE_QUERY, true), s3) /\
      (extra = [] \/ zlen extra <= zlen output -> exists s4,
         read_request big2 M s3 = (Ret (inr (mkRequest requestId methodName output (if bool_decide (extra = []) then None else Some extra))), s4) /\ inbox (dev s4) = rest) /\
      (zlen output < zlen extra -> exists s4, read_request big2 M s3 = (Ret (inl CONNECTION_FAILED_READING_EXTRAAUTH), s4)).
Proof.
  intros HM Hid Hname Hout Hpo Hpe Hextra Hw.
  destruct (sends_request M requestId methodName output extra HM ltac:(lia) Hname Hout Hpe Hextra s1 Hw) as (s1' & E & _ & Ho).
  eexists _, s1'. split; [exact E|]. split; [exact Ho|]. intros s2 rest Hh Hin. rewrite <- app_assoc in Hin.
  destruct (readU_frame big2 1 TYPE_QUERY _ s2 ltac:(cbn; tauto) ltac:(vm_compute; split; discriminate) Hh Hin) as (s3 & E3 & Hi3 & Hh3).
  exists s3. split; [exact E3|]. destruct (reads_request M requestId methodName output extra rest s3) as (s4 & E4); [done..|].
  pose proof (zlen_nonneg output). case_bool_decide as He.
  - subst extra. rewrite zlen_nil. split; [intros _; by exists s4|lia].
  - destruct (zlen extra <=? zlen output) eqn:El; zbool; (split; [|try lia]); [by exists s4|by intros [?|?]; [|lia]|by exists s4].
Qed.

(** C18: What sendRPCAnswer sends for a request (its number is not 0, its status a
    byte, its text without NUL) is what the connection of the caller reads as an
    answer, whatever the pieces the two sockets take and give and the byte orders
    of the hosts: the number, the status, and the text when it is within the size
    of a message of both sides (less than UINT32_MAX), an empty text when it is
    longer; and what follows it is left in the stream. *)
Theorem answers_cross_the_wire M requestId answer status (s1 : Socket_Stream D1) :
  0 <= M < max_value 4 -> 0 < requestId <= max_value 8 -> 0 <= status <= max_value 1 -> c_str answer = answer -> writable (dev s1) ->
  exists wire s1', sendRPCAnswer big1 M requestId answer status s1 = (Ret true, s1') /\ outbox (dev s1') = outbox (dev s1) ++ wire /\
    forall (s2 : Socket_Stream D2) rest, healthy (dev s2) -> inbox (dev s2) = wire ++ rest ->
    exists s3 s4, readU big2 1 s2 = (Ret (TYPE_ANSWER, true), s3) /\
      read_answer big2 M s3 = (Ret (inr (requestId, status, if zlen answer <=? M then answer else [])), s4) /\ inbox (dev s4) = rest.
Proof.
  intros HM Hid Hst Hp Hw. destruct (sends_answer M requestId answer status HM ltac:(lia) Hst s1 Hw) as (s1' & E & _ & Ho).
  set (text := if zlen answer <=? M then answer else []) in *.
  assert (Ht : c_str text = text /\ zlen text <= M) by (unfold text; case_cond; zbool; [done|split; [done|rewrite zlen_nil; lia]]). destruct Ht as [Ht Hl]. clearbody text.
  eexists _, s1'. split; [exact E|]. split; [exact Ho|]. intros s2 rest Hh Hin. rewrite <- !app_assoc in Hin.
  destruct (readU_frame big2 1 TYPE_ANSWER _ s2 ltac:(cbn; tauto) ltac:(vm_compute; split; discriminate) Hh Hin) as (s3 & E3 & Hi3 & Hh3).
  destruct (readU_frame big2 8 requestId _ s3 ltac:(cbn; tauto) ltac:(lia) Hh3 Hi3) as (s4 & E4 & Hi4 & Hh4).
  destruct (readU_frame big2 1 status _ s4 ltac:(cbn; tauto) ltac:(lia) Hh4 Hi4) as (s5 & E5 & Hi5 & Hh5).
  destruct (readBlock_frame big2 4 M text rest s5 ltac:(cbn; tauto) HM ltac:(lia) Hh5 Hi5) as (s6 & E6).
  replace (zlen text <=? M) with true in E6 by lia. destruct E6 as (E6 & Hi6 & _).
  exists s3, s6. split; [exact E3|]. split; [|exact Hi6]. unfold read_answer, bind. rewrite E4. cbn [fst]. replace (requestId =? 0) with false by lia.
  rewrite E5, E6. cbn [fst]. by rewrite (block_c_str _ Ht).
Qed.
End RoundTrip.

(** * Which calls of the peer run *)

Section Authorised.
Context {V : Type} `{JsonCpp V} {KEY : Type} `{OpenSSL KEY} `{Base64Encoder, Base64Decoder} {C W : Type}.
Variable on_event : event V -> W -> W.
Implicit Types (s : Server V C W) (p : TaskParameters V).

Lemma flag_value name m : fst (flag name (snd (flag name m))) = fst (flag name m).
Proof. unfold flag. destruct (m !! name) eqn:E; cbn [snd]; [by rewrite E|]. by rewrite lookup_insert_eq. Qed.

(** Asking whether a method requires a session does not change what follows. *)
Lemma validate_asked (x : option (Session V)) name reasons (h : MonolithHandler V C W) :
  fst (validateMethodRequirements x name reasons (snd (doesMethodRequireActiveSession name h))) = fst (validateMethodRequirements x name reasons h).
Proof.
  unfold validateMethodRequirements, doesMethodRequireActiveSession. pose proof (flag_value name (m_methodRequireActiveSession h)) as Hf.
  destruct (flag name (m_methodRequireActiveSession h)) as [b m] eqn:E. cbn in Hf |- *. destruct (m_methods h !! name); [|done].
  destruct (flag name m) as [b' m'] eqn:E'. cbn in Hf. subst b'. by destruct (b && _).
Qed.

(** The session that a call runs with, when the task found [found]. *)
Inductive call_session (time : nat -> Z) p (j : JWT) (found : option (Session V)) : option (Session V) -> Prop :=
| of_connection : t_extraTokenAuth p = None -> call_session time p j found found
| of_token extra token j' y : t_extraTokenAuth p = Some extra ->
    verifyAndDecodeTokenPayload (time 2%nat) extra j = (Ret token, j') -> Token.isValid (time 3%nat) token = Ret true ->
    Session_of (time 0%nat) (time 1%nat) token = Ret y ->
    match found with
    | None => m_impersonator y = []
    | Some z => m_impersonator y = m_user z /\ m_domain y = m_domain z /\ m_impersonator y <> []
    end -> call_session time p j found (Some y).

Lemma Session_of_fields first last (token : Token.t V) y : Session_of first last token = Ret y ->
  Token.getImpersonator token = Ret (m_impersonator y) /\ Token.getDomain token = Ret (m_domain y).
Proof.
  unfold Session_of. destruct (Token.getImpersonator token); [|done]. cbn. destruct (Token.getDomain token); [|done]. cbn.
  destruct (Token.getSubject token); [|done]. cbn. by intros [= <-].
Qed.

(** What the check of the token leaves: the answer so far fails, or the session
    of the call is known. *)
Lemma check_extra_token_spec time p (found : option (Session V)) place full s x s' :
  check_extra_token on_event time p (mkCurrent found place false full) s = (Ret x, s') ->
  methodHandlers s' = methodHandlers s /\ (sessionFailed x = true \/ call_session time p (jwtValidator s) found (c_session x)).
Proof.
  unfold check_extra_token. destruct (t_extraTokenAuth p) as [extra|] eqn:Ep; [|intros [= <- <-]; split; [done|right; by constructor]].
  unfold bind, on_jwt, lift_res, reject, virtual_session, emit, ret, throw. destruct (verifyAndDecodeTokenPayload _ _ _) as [[token|] j'] eqn:Ev; cbn; [|done].
  destruct (Token.isValid (time 3%nat) token) as [valid|] eqn:Evalid; cbn; [|done].
  destruct (Token.getImpersonator token) as [imp|] eqn:Ei; [|destruct valid; [done|]; unfold lift_res; cbn; destruct (set_status _ _); [|done]; intros [= <- <-]; split; [done|by left]].
  destruct valid; cbn; [|destruct (set_status _ _); [|done]; intros [= <- <-]; split; [done|by left]].
  case_bool_decide as Hi; cbn.
  - destruct found as [z|]; cbn; [destruct (set_status _ _); [|done]; intros [= <- <-]; split; [done|by left]|].
    destruct (Session_of _ _ _) as [y|] eqn:Ey; [|done]. intros [= <- <-]. split; [done|]. right. cbn. eapply of_token; [done..|].
    apply Session_of_fields in Ey as [Ey _]. rewrite Ei in Ey. by injection Ey as <-.
  - destruct found as [z|]; cbn; [|done]. destruct (Token.getDomain token) as [domain|] eqn:Ed; [|done].
    destruct (bool_decide (m_user z = imp) && bool_decide (domain = m_domain z)) eqn:Eb; cbn; [|destruct (set_status _ _); [|done]; intros [= <- <-]; split; [done|by left]].
    destruct (Session_of _ _ _) as [y|] eqn:Ey; [|done]. intros [= <- <-]. split; [done|]. right. cbn. eapply of_token; [done..|].
    apply Session_of_fields in Ey as [Ey1 Ey2]. rewrite Ei in Ey1. rewrite Ed in Ey2. simplify_eq. apply andb_true_iff in Eb as [->%bool_decide_eq_true_1 ->%bool_decide_eq_true_1]. done.
Qed.

Lemma may_go_on_spec p x s go s' : may_go_on p x s = (Ret go, s') ->
  jwtValidator s' = jwtValidator s /\ m_methods (methodHandlers s') = m_methods (methodHandlers s) /\
  forall y name reasons, name = t_methodName p -> fst (validateMethodRequirements y name reasons (methodHandlers s')) = fst (validateMethodRequirements y name reasons (methodHandlers s)).
Proof.
  unfold may_go_on, bind, on_handlers, ret.
  assert (Hask : forall h : MonolithHandler V C W, m_methods (snd (doesMethodRequireActiveSession (t_methodName p) h)) = m_methods h)
    by (intros h; unfold doesMethodRequireActiveSession; by destruct (flag _ _)).
  pose proof (fun (y : option (Session V)) (r : V) => validate_asked y (t_methodName p) r (methodHandlers s)) as V1.
  pose proof (Hask (methodHandlers s)) as M1. destruct (doesMethodRequireActiveSession _ (methodHandlers s)) as [b h] eqn:E1. cbn in V1, M1 |- *. destruct b; cbn.
  - pose proof (fun (y : option (Session V)) (r : V) => validate_asked y (t_methodName p) r h) as V2. pose proof (Hask h) as M2.
    destruct (doesMethodRequireActiveSession _ h) as [b' h'] eqn:E2. cbn in V2, M2 |- *. intros [= <- <-]. cbn.
    split; [done|]. split; [congruence|]. intros y name r ->. by rewrite V2, V1.
  - intros [= <- <-]. cbn. split; [done|]. split; [done|]. by intros y name r ->.
Qed.

Lemma validate_and_invoke_spec time p x s v full s' : validate_and_invoke on_event time p x s = (Ret (true, v, full), s') ->
  exists reasons, fst (validateMethodRequirements (c_session x) (t_methodName p) nullValue (methodHandlers s)) = Ret (VALIDATION_OK, reasons).
Proof.
  unfold validate_and_invoke, bind, on_handlers, lift_res, ret. destruct (validateMethodRequirements _ _ _ _) as [r h]. cbn.
  destruct r as [[[] reasons]|]; cbn; [by exists reasons|unfold emit; cbn; by repeat (case_match; try done)..|done].
Qed.

Lemma local_call_authorised time place p s answer s' :
  executeLocalTask on_event time place p s = (Ret (answer, EXEC_STATUS_SUCCESS), s') ->
  exists x reasons, call_session time p (jwtValidator s) (match place with Some i => sessions s !! i | None => None end) x /\
    fst (validateMethodRequirements x (t_methodName p) nullValue (methodHandlers s)) = Ret (VALIDATION_OK, reasons).
Proof.
  unfold executeLocalTask. set (found := match place with Some i => sessions s !! i | None => None end). unfold bind at 1, lift_res at 1.
  destruct (set_status _ _) as [full|]; [|done]. unfold bind at 1. destruct (check_extra_token _ _ _ _ _) as [[x|] s1] eqn:E1; [|done].
  apply check_extra_token_spec in E1 as [Hh Hx]. unfold bind at 1. assert (Er : check_revoked on_event p x s1 = (Ret x, s1)).
  { unfold check_revoked, isSessionRevoked, ret. rewrite andb_false_r. by destruct (c_session x). }
  rewrite Er. unfold bind at 1. destruct (may_go_on p x s1) as [[go|] s2] eqn:E2; [|done]. apply may_go_on_spec in E2 as (_ & _ & Hv).
  unfold bind at 1. destruct go; [|unfold bind, emit, lift_res, ret; cbn; destruct (set_status _ _); cbn; [|done]; by destruct (set_member _ _ _)].
  destruct (sessionFailed x) eqn:Ef; [unfold bind, lift_res, ret; cbn; by destruct (set_member _ _ _)|]. destruct Hx as [|Hx]; [done|].
  destruct (validate_and_invoke _ _ _ _ _) as [[[[found' payload] full']|] s3] eqn:E3; [|done]. destruct found'; [|unfold bind, lift_res, ret; cbn; by destruct (set_member _ _ _)].
  intros _. apply validate_and_invoke_spec in E3 as [reasons E3]. exists (c_session x), reasons. split; [done|]. rewrite <- Hh. by rewrite <- (Hv _ (t_methodName p)).
Qed.

(** The commands of the session have tasks of their own and need no rights. *)
Definition session_commands : list bytes := [str "SESSION.LOGIN"; str "SESSION.LOGOUT"; str "SESSION.GETSSODATA"].

(** C13: A request of the peer that is not one of the three commands of the
    session (which need no rights) is answered with success only when its method is registered and is validated for the session of the
    call: that of the connection when the request has no token of its own; with
    one, a session of that token, which the validator accepted, and which names
    as impersonator the user and the domain of the connection's session, or no
    impersonator when the connection has no session. *)
Theorem remote_calls_are_authorised config fresh time place p s answer s' :
  currentTask on_event config fresh time place p s = (Ret (answer, EXEC_STATUS_SUCCESS), s') ->
  t_methodName p ∈ session_commands \/
  exists x reasons, is_Some (m_methods (methodHandlers s) !! t_methodName p) /\
    call_session time p (jwtValidator s) (match place with Some i => sessions s !! i | None => None end) x /\
    fst (validateMethodRequirements x (t_methodName p) nullValue (methodHandlers s)) = Ret (VALIDATION_OK, reasons).
Proof.
  unfold currentTask, session_commands. rewrite !elem_of_cons. do 3 (case_bool_decide; [tauto|]). intros E. right.
  apply local_call_authorised in E as (x & reasons & Hx & Hv). exists x, reasons. split; [|done].
  unfold validateMethodRequirements in Hv. destruct (m_methods (methodHandlers s) !! t_methodName p); [by eexists|done].
Qed.
End Authorised.

(** * An example: a method that answers its payload *)

Module RpcExample.
Definition echo : MonolithAPIMethod value unit nat := mkMethod (fun _ payload x => (Ret payload, (S (fst x), snd x))) tt.
Definition methods : MonolithHandler value unit nat := monolith_of [mkMethodDefinition echo (str "echo") [] [] true false].
Definition server0 : Server value unit nat := mkServer methods signer ∅ None 0%nat.
Definition told (v : event value) (w : nat) : nat := w.
Definition clock (n : nat) : Z := 1100.

(** A call that comes with a token, on a connection without a session. *)
Definition call0 : TaskParameters value := mkTask 1 (str "echo") Null (Some signed_text) [] [].
Definition config0 : Config := mkConfig 10000 [] [] false.
Definition called := currentTask (KEY := bytes) told config0 1 clock None call0 server0.
End RpcExample.

Lemma remote_calls_are_authorised_witness :
  exists x reasons, call_session RpcExample.clock RpcExample.call0 (jwtValidator RpcExample.server0) None x /\
    fst (validateMethodRequirements x (str "echo") nullValue (methodHandlers RpcExample.server0)) = Ret (VALIDATION_OK, reasons).
Proof.
  assert (Hs : (snd <$> match fst RpcExample.called with Ret r => Some r | Exc _ => None end) = Some EXEC_STATUS_SUCCESS) by (vm_compute; reflexivity).
  destruct RpcExample.called as [r s'] eqn:E. destruct r as [[answer status]|]; [|discriminate Hs]. injection Hs as ->.
  destruct (remote_calls_are_authorised RpcExample.told RpcExample.config0 1 RpcExample.clock None RpcExample.call0 RpcExample.server0 answer s' E) as [Hc|(x & reasons & _ & Hx & Hv)].
  - exfalso. repeat (apply elem_of_cons in Hc as [Hc|Hc]; [discriminate Hc|]). by apply not_elem_of_nil in Hc.
  - exists x, reasons. exact (conj Hx Hv).
Defined.

Lemma requests_cross_the_wire_witness :
  exists text s1', send_request false 1000 7 (str "echo") (str "{}") [] (wire [] true) = (Ret true, s1') /\ outbox (dev s1') = text /\
    exists s3 s4, readU true 1 (wire (text ++ str "!") true) = (Ret (TYPE_QUERY, true), s3) /\
      read_request true 1000 s3 = (Ret (inr (mkRequest 7 (str "echo") (str "{}") None)), s4) /\ inbox (dev s4) = str "!".
Proof.
  destruct (requests_cross_the_wire (D1 := Wire) (D2 := Wire) false true 1000 7 (str "echo") (str "{}") [] (wire [] true)) as (text & s1' & E & Ho & Hback);
    [vm_compute; split; congruence|vm_compute; split; congruence|reflexivity|vm_compute; congruence|reflexivity|reflexivity|vm_compute; congruence|reflexivity|].
  exists text, s1'. split; [exact E|]. split; [exact Ho|]. destruct (Hback (wire (text ++ str "!") true) (str "!") I eq_refl) as (s3 & E3 & Hgood & _).
  destruct (Hgood (or_introl eq_refl)) as (s4 & E4 & Hi). exists s3, s4. split; [exact E3|]. split; [exact E4|exact Hi].
Defined.

Lemma answers_cross_the_wire_witness :
  exists text s1', sendRPCAnswer false 1000 7 (str "{}") EXEC_STATUS_SUCCESS (wire [] true) = (Ret true, s1') /\ outbox (dev s1') = text /\
    exists s3 s4, readU true 1 (wire (text ++ str "!") true) = (Ret (TYPE_ANSWER, true), s3) /\
      read_answer true 1000 s3 = (Ret (inr (7, EXEC_STATUS_SUCCESS, str "{}")), s4) /\ inbox (dev s4) = str "!".
Proof.
  destruct (answers_cross_the_wire (D1 := Wire) (D2 := Wire) false true 1000 7 (str "{}") EXEC_STATUS_SUCCESS (wire [] true)) as (text & s1' & E & Ho & Hback);
    [vm_compute; split; congruence|vm_compute; split; congruence|vm_compute; split; congruence|reflexivity|reflexivity|].
  exists text, s1'. split; [exact E|]. split; [exact Ho|]. exact (Hback (wire (text ++ str "!") true) (str "!") I eq_refl).
Defined.
