(* ===== verification/FastRpcThreads.v ===== *)
(** * The threads of a connection of FastRPC3

    A connection is used by the thread of handleConnection, which reads the
    messages of the peer, by the threads of the pool, which run the local tasks,
    and by the callers of executeTask. A step is what a thread does between two
    places where it waits for another; a message is read in one step, since only
    the handler reads, and a task is three: it finds the session, runs, and
    answers under the mutex of the socket.

    A call is a thread of its own: its number is not used again. [answered],
    [received] and [kept] are histories, that no step reads.

    The pool is seen from the connection: it takes a task or refuses it, and
    starts the tasks it took in any order. An exception that leaves a thread
    ends the program: [crashed]. *)

From stdpp Require Import gmap.
From S2P Require Import Prelude Interleave SafeInt ByteOrder CText Encoders StreamableObject SocketStream Preserves BoostText Json JsonModel Jwt Sessions JwtSpec FastRpc.

(** ** The callers of executeTask *)

(** The arguments of a call that found its connection, its payload as text. *)
Record call_request (V : Type) : Type := mkCall {
  r_methodName : bytes;
  r_payload : V;
  r_output : bytes;
  r_extra : bytes
}.
Arguments mkCall {V} r_methodName r_payload r_output r_extra.
Arguments r_methodName {V} c.
Arguments r_payload {V} c.
Arguments r_output {V} c.
Arguments r_extra {V} c.

(** Where a caller is. Between two rounds of its loop it is [Looping], with no
    mutex; in [Waiting] it sleeps on answersCondition or was woken. *)
Inductive caller (V : Type) : Type :=
| Opened (r : call_request V)
| Numbered (r : call_request V) (requestId : Z)
| Registered (r : call_request V) (requestId : Z)
| Looping (r : call_request V) (requestId : Z)
| Waiting (r : call_request V) (requestId : Z) (woken : bool)
| Leaving (requestId : Z) (o : outcome V)
| Releasing (requestId : Z) (o : outcome V)
| Returned (requestId : Z) (o : outcome V)
| NotSent (requestId : Z).
Arguments Opened {V} r.
Arguments Numbered {V} r requestId.
Arguments Registered {V} r requestId.
Arguments Looping {V} r requestId.
Arguments Waiting {V} r requestId woken.
Arguments Leaving {V} requestId o.
Arguments Releasing {V} requestId o.
Arguments Returned {V} requestId o.
Arguments NotSent {V} requestId.

Definition answersCondition {V} (c : caller V) : option (caller V) :=
  match c with Waiting r i false => Some (Waiting r i true) | _ => None end.

(** ** What executeTask does before it has a connection *)

Section Begin.
Context {V : Type} `{JsonCpp V} `{BoostText}.

(** The rounds of the loop over openElement: [connected n] is whether the n-th
    look finds the connection. *)
Fixpoint open_connection (disconnectedTries : Z) (retryIfDisconnected : bool) (connected : nat -> bool) (fuel n : nat) : res bool :=
  match fuel with
  | O => Exc diverges
  | S fuel =>
      if connected n then Ret true
      else if (Z.of_nat n + 1 >=? disconnectedTries) || negb retryIfDisconnected then Ret false
      else open_connection disconnectedTries retryIfDisconnected connected fuel (S n)
  end.

Inductive beginning : Type := NothingDone | Refused (e : call_error) | Begins (r : call_request V).

Definition begin_task (config_max disconnectedTries : Z) (methodName : bytes) (payload : V) (retryIfDisconnected passSessionCommands : bool)
  (extraJWTTokenAuth : bytes) (connected : nat -> bool) : res beginning :=
  if negb passSessionCommands && starts_with methodName (str "SESSION.") then Ret NothingDone
  else
    let output := writeString_compact payload in
    if zlen output >? config_max then Ret (Refused EXEC_ERR_PAYLOAD_TOO_LARGE)
    else
      let? found := open_connection disconnectedTries retryIfDisconnected connected (S (Z.to_nat disconnectedTries)) 0 in
      Ret (if (found : bool) then Begins (mkCall methodName payload output extraJWTTokenAuth) else Refused EXEC_ERR_PEER_NOT_FOUND).

(** The calls of the session commands. *)
Definition login_payload (jwtToken : bytes) : res V := set_member (str "jwtToken") (of_string jwtToken) nullValue.
End Begin.
Arguments beginning : clear implicits.

Section Threads.
Context {V : Type} `{JsonCpp V} {KEY : Type} `{OpenSSL KEY} `{Base64Encoder, Base64Decoder} {C W : Type} {D : Type} `{StreamSocket D}.
Variable on_event : event V -> W -> W.
Variable big_endian : bool.
Variable config : Config.

(** Where the thread of handleConnection is: it reads, it answers for a task
    the pool refused, it waits for the tasks, it has told the callers that the
    connection ends, it waits for them in destroyElement, it has returned. *)
Inductive handler : Type :=
| Reading
| Refusing (p : TaskParameters V)
| Draining (code : Z)
| Ending (code : Z)
| Destroying (code : Z)
| Closed (code : Z).

(** A task of the pool: it has its session, or it has its answer. *)
Inductive task : Type :=
| Started (p : TaskParameters V) (place : option positive)
| Answering (p : TaskParameters V) (answer : bytes) (status : Z).

Record Endpoint : Type := mkEndpoint {
  stream : Socket_Stream D;
  server : Server V C W;
  connection : Connection V;
  handling : handler;
  queued : list (TaskParameters V);
  tasks : gmap tid task;
  doneShared : Z;                      (** the readers of mtDone *)
  socketLocked : bool;                 (** a call that was not sent keeps the mutex *)
  callers : gmap tid (caller V);
  answered : list (TaskParameters V);      (** the requests that sendRPCAnswer was called for *)
  received : list (TaskParameters V);      (** the requests read from the peer *)
  kept : list (Z * Z * V);                 (** the answers that were kept for a caller *)
  crashed : option exc
}.

Definition set_stream x (e : Endpoint) := mkEndpoint x (server e) (connection e) (handling e) (queued e) (tasks e) (doneShared e) (socketLocked e) (callers e) (answered e) (received e) (kept e) (crashed e).
Definition set_server x (e : Endpoint) := mkEndpoint (stream e) x (connection e) (handling e) (queued e) (tasks e) (doneShared e) (socketLocked e) (callers e) (answered e) (received e) (kept e) (crashed e).
Definition set_connection x (e : Endpoint) := mkEndpoint (stream e) (server e) x (handling e) (queued e) (tasks e) (doneShared e) (socketLocked e) (callers e) (answered e) (received e) (kept e) (crashed e).
Definition set_handling x (e : Endpoint) := mkEndpoint (stream e) (server e) (connection e) x (queued e) (tasks e) (doneShared e) (socketLocked e) (callers e) (answered e) (received e) (kept e) (crashed e).
Definition set_queued x (e : Endpoint) := mkEndpoint (stream e) (server e) (connection e) (handling e) x (tasks e) (doneShared e) (socketLocked e) (callers e) (answered e) (received e) (kept e) (crashed e).
Definition set_tasks x (e : Endpoint) := mkEndpoint (stream e) (server e) (connection e) (handling e) (queued e) x (doneShared e) (socketLocked e) (callers e) (answered e) (received e) (kept e) (crashed e).
Definition set_doneShared x (e : Endpoint) := mkEndpoint (stream e) (server e) (connection e) (handling e) (queued e) (tasks e) x (socketLocked e) (callers e) (answered e) (received e) (kept e) (crashed e).
Definition lock_socket (e : Endpoint) := mkEndpoint (stream e) (server e) (connection e) (handling e) (queued e) (tasks e) (doneShared e) true (callers e) (answered e) (received e) (kept e) (crashed e).
Definition set_callers x (e : Endpoint) := mkEndpoint (stream e) (server e) (connection e) (handling e) (queued e) (tasks e) (doneShared e) (socketLocked e) x (answered e) (received e) (kept e) (crashed e).
Definition add_answered x (e : Endpoint) := mkEndpoint (stream e) (server e) (connection e) (handling e) (queued e) (tasks e) (doneShared e) (socketLocked e) (callers e) (answered e ++ [x]) (received e) (kept e) (crashed e).
Definition add_received x (e : Endpoint) := mkEndpoint (stream e) (server e) (connection e) (handling e) (queued e) (tasks e) (doneShared e) (socketLocked e) (callers e) (answered e) (received e ++ [x]) (kept e) (crashed e).
Definition add_kept x (e : Endpoint) := mkEndpoint (stream e) (server e) (connection e) (handling e) (queued e) (tasks e) (doneShared e) (socketLocked e) (callers e) (answered e) (received e) (kept e ++ [x]) (crashed e).
Definition crash x (e : Endpoint) := mkEndpoint (stream e) (server e) (connection e) (handling e) (queued e) (tasks e) (doneShared e) (socketLocked e) (callers e) (answered e) (received e) (kept e) (Some x).

Definition notify_callers (e : Endpoint) : Endpoint := set_callers (notify_all answersCondition (callers e)) e.
Definition emit_event (v : event V) (e : Endpoint) : Endpoint := set_server (snd (emit on_event v (server e))) e.

(** ** The thread of handleConnection *)

(** Its loop goes on with a value of CONNECTION_CONTINUE. *)
Definition next (ret : Z) (e : Endpoint) : Endpoint := if ret =? CONNECTION_CONTINUE then e else set_handling (Draining ret) e.

Definition processIncomingAnswer (e : Endpoint) : Endpoint :=
  let (r, s) := read_answer big_endian (maxMessageSize config) (stream e) in
  let e := set_stream s e in
  match r with
  | Exc x => crash x e
  | Ret (inl code) => next code e
  | Ret (inr (requestId, status, payload)) =>
      match put_answer requestId status payload (connection e) with
      | (Unexpected, _) => next 1 (emit_event (onProtocolUnexpectedResponse payload) e)
      | (Kept, c) => next 1 (notify_callers (add_kept (requestId, status, default nullValue (answers c !! requestId)) (set_connection c e)))
      | (Malformed, c) => next 1 (set_connection c e)
      end
  end.

(** [accepted]: pushTask finds a place in the queues before its timeout. *)
Definition processIncomingExecutionRequest (accepted : bool) (e : Endpoint) : Endpoint :=
  let (r, s) := read_request big_endian (maxMessageSize config) (stream e) in
  let e := set_stream s e in
  match r with
  | Exc x => crash x e
  | Ret (inl code) => next code e
  | Ret (inr q) =>
      let (ok, payload) := parse (q_payload q) nullValue in
      if negb ok then next CONNECTION_FAILED_PARSING_PAYLOAD e
      else
        let p := task_of q payload (server e) in
        let e := add_received p (set_doneShared (doneShared e + 1) e) in
        if accepted then next CONNECTION_CONTINUE (set_queued (queued e ++ [p]) e)
        else set_handling (Refusing p) (emit_event (onIncomingTaskDroppedQueueFull p) e)
  end.

(** A round of the loop of handleConnection. *)
Definition handle_message (accepted : bool) (e : Endpoint) : Endpoint :=
  let (r, s) := readU big_endian 1 (stream e) in
  let e := set_stream s e in
  match r with
  | Exc x => crash x e
  | Ret (type, readOK) =>
      if type =? TYPE_ANSWER then processIncomingAnswer e
      else if type =? TYPE_QUERY then processIncomingExecutionRequest accepted e
      else if type =? 0 then next (if readOK then CONNECTION_SHUTDOWN_OK else CONNECTION_READ_TIMEOUT) e
      else next CONNECTION_INVALID_PROTOCOL e
  end.

(** sendRPCAnswer, and unlockShared. *)
Definition answer_request (p : TaskParameters V) (answer : bytes) (status : Z) (e : Endpoint) : Endpoint :=
  let (r, s) := sendRPCAnswer big_endian (maxMessageSize config) (t_requestId p) answer status (stream e) in
  let e := add_answered p (set_stream s e) in
  match r with
  | Exc x => crash x e
  | Ret _ => set_doneShared (doneShared e - 1) e
  end.

(** ** The threads of the pool *)

Definition run_task (fresh : positive) (time : nat -> Z) (p : TaskParameters V) (place : option positive) (t : tid) (e : Endpoint) : Endpoint :=
  let (r, s) := currentTask on_event config fresh time place p (server e) in
  let e := set_server s e in
  match r with
  | Exc x => crash x e
  | Ret (answer, status) => set_tasks (<[t := Answering p answer status]> (tasks e)) e
  end.

(** ** The callers *)

Definition set_caller (t : tid) (c : caller V) (e : Endpoint) : Endpoint := set_callers (<[t := c]> (callers e)) e.

(** The writes of executeTask, under the mutex of the socket: when they fail it
    returns without unlocking it. *)
Definition transmit (t : tid) (r : call_request V) (requestId : Z) (e : Endpoint) : Endpoint :=
  let (ok, s) := send_request big_endian (maxMessageSize config) requestId (r_methodName r) (r_output r) (r_extra r) (stream e) in
  let e := set_stream s e in
  match ok with
  | Exc x => crash x e
  | Ret true => set_caller t (Looping r requestId) e
  | Ret false => set_caller t (NotSent requestId) (lock_socket e)
  end.

(** A round of the loop after wait_for. *)
Definition look (t : tid) (timeout : bool) (r : call_request V) (requestId : Z) (e : Endpoint) : Endpoint :=
  let c := connection e in
  if timeout then set_caller t (Leaving requestId (Failed EXEC_ERR_TIMEOUT)) (emit_event (onOutgoingTaskFailureTimeout (r_methodName r) (r_payload r)) e)
  else
    match answers c !! requestId with
    | Some v => set_caller t (Leaving requestId (Answered v (default 0 (executionStatus c !! requestId)))) e
    | None => if terminated c then set_caller t (Leaving requestId (Failed EXEC_ERR_CONNECTION_LOST)) e
              else set_caller t (Looping r requestId) e
    end.

(** Whether a caller holds the connection open in the map. *)
Definition holds_connection (c : caller V) : bool := match c with Returned _ _ => false | _ => true end.
Definition numReaders (e : Endpoint) : Z := count holds_connection (callers e).

(** ** The steps *)

Inductive label : Type :=
| Message (accepted : bool)
| Refuse
| Drain
| Unmap
| Erase
| Start (t : tid) (i : nat)
| Run (t : tid) (fresh : positive) (time : nat -> Z)
| Answer (t : tid)
| Call (t : tid) (r : call_request V)
| Number (t : tid)
| Register (t : tid)
| Transmit (t : tid)
| Sleep (t : tid)
| Wake (t : tid)
| Look (t : tid) (timeout : bool)
| Clean (t : tid)
| Release (t : tid).

Definition exec_handler (l : label) (e : Endpoint) : option Endpoint :=
  match l, handling e with
  | Message accepted, Reading => Some (handle_message accepted e)
  | Refuse, Refusing p => if socketLocked e then None else Some (set_handling Reading (answer_request p [] EXEC_STATUS_ERR_REMOTE_QUEUE_OVERFLOW e))
  | Drain, Draining code =>
      if doneShared e =? 0 then
        let s := snd (shutdown (stream e)) in
        Some (set_handling (Ending code) (notify_callers (set_connection (terminate (connection e)) (set_stream s e))))
      else None
  | Unmap, Ending code => Some (set_handling (Destroying code) e)
  | Erase, Destroying code => if numReaders e =? 0 then Some (set_handling (Closed code) e) else None
  | _, _ => None
  end.

Definition exec_pool (l : label) (e : Endpoint) : option Endpoint :=
  match l with
  | Start t i =>
      match tasks e !! t, queued e !! i with
      | None, Some p => Some (set_tasks (<[t := Started p (getSharedPointer (server e))]> (tasks e)) (set_queued (delete i (queued e)) e))
      | _, _ => None
      end
  | Run t fresh time =>
      match tasks e !! t with
      | Some (Started p place) => if bool_decide (sessions (server e) !! fresh = None) then Some (run_task fresh time p place t e) else None
      | _ => None
      end
  | Answer t =>
      match tasks e !! t with
      | Some (Answering p answer status) =>
          if socketLocked e then None else Some (answer_request p answer status (set_tasks (delete t (tasks e)) e))
      | _ => None
      end
  | _ => None
  end.

Definition exec_caller (l : label) (e : Endpoint) : option Endpoint :=
  match l with
  | Call t r =>
      match callers e !! t, handling e with
      | None, (Reading | Refusing _ | Draining _ | Ending _) => Some (set_caller t (Opened r) e)
      | _, _ => None
      end
  | Number t =>
      match callers e !! t with
      | Some (Opened r) => let (i, c) := next_request (connection e) in Some (set_caller t (Numbered r i) (set_connection c e))
      | _ => None
      end
  | Register t =>
      match callers e !! t with
      | Some (Numbered r i) => Some (set_caller t (Registered r i) (set_connection (expect i (connection e)) e))
      | _ => None
      end
  | Transmit t =>
      match callers e !! t with
      | Some (Registered r i) => if socketLocked e then None else Some (transmit t r i e)
      | _ => None
      end
  | Sleep t => match callers e !! t with Some (Looping r i) => Some (set_caller t (Waiting r i false) e) | _ => None end
  | Wake t => match callers e !! t with Some (Waiting r i false) => Some (set_caller t (Waiting r i true) e) | _ => None end
  | Look t timeout =>
      match callers e !! t with
      | Some (Waiting r i woken) => if woken || timeout then Some (look t timeout r i e) else None
      | _ => None
      end
  | Clean t => match callers e !! t with Some (Leaving i o) => Some (set_caller t (Releasing i o) (set_connection (forget i (connection e)) e)) | _ => None end
  | Release t => match callers e !! t with Some (Releasing i o) => Some (set_caller t (Returned i o) e) | _ => None end
  | _ => None
  end.

Definition exec (l : label) (e : Endpoint) : option Endpoint :=
  match crashed e with
  | Some _ => None
  | None =>
      match l with
      | Message _ | Refuse | Drain | Unmap | Erase => exec_handler l e
      | Start _ _ | Run _ _ _ | Answer _ => exec_pool l e
      | _ => exec_caller l e
      end
  end.
End Threads.

(** * The threads of FastRPC3: requests, answers and sessions

    Invariants of every schedule: each request of the peer is answered once and
    before the connection ends, a caller only gets what was sent for its own
    request and leaves nothing behind, and sessions come from verified tokens. *)

Section Invariants.
Context {V : Type} `{JsonCpp V} {KEY : Type} `{OpenSSL KEY} `{Base64Encoder, Base64Decoder} {C W : Type} {D : Type} `{StreamSocket D}.
Variable on_event : event V -> W -> W.
Variable big_endian : bool.
Variable config : Config.
Abbreviation Endpoint := (@Endpoint V C W D) (only parsing).
Abbreviation step := (exec (KEY := KEY) on_event big_endian config) (only parsing).
Implicit Types e : Endpoint.

(** ** The requests of the peer *)

Definition task_params (x : task) : TaskParameters V := match x with Started p _ => p | Answering p _ _ => p end.
Definition task_list (m : gmap tid task) : list (TaskParameters V) := (fun x => task_params x.2) <$> map_to_list m.

(** The requests that wait for their answer. *)
Definition outstanding e : list (TaskParameters V) :=
  match handling e with Refusing p => [p] | _ => [] end ++ queued e ++ task_list (tasks e).

Lemma task_list_fresh m t x : m !! t = None -> task_list (<[t := x]> m) ≡ₚ task_params x :: task_list m.
Proof. intros Ht. unfold task_list. by rewrite map_to_list_insert. Qed.

Lemma task_list_delete m t x : m !! t = Some x -> task_list m ≡ₚ task_params x :: task_list (delete t m).
Proof. intros Ht. rewrite <- (insert_delete_id m t x) at 1 by done. by rewrite task_list_fresh by apply lookup_delete_eq. Qed.

Lemma task_list_same m t x y : m !! t = Some x -> task_params y = task_params x -> task_list (<[t := y]> m) ≡ₚ task_list m.
Proof. intros Ht Hp. rewrite <- insert_delete_eq, task_list_fresh by apply lookup_delete_eq. by rewrite (task_list_delete m t x), Hp by done. Qed.

Definition ended e : Prop := match handling e with Ending _ | Destroying _ | Closed _ => True | _ => False end.

Record accounted e : Prop := {
  acc_received : received e ≡ₚ answered e ++ outstanding e;
  acc_count : crashed e = None -> doneShared e = zlen (outstanding e);
  acc_ended : ended e -> outstanding e = []
}.

(** A step of the callers does not touch the requests. *)
Definition same_requests e e' : Prop :=
  received e' = received e /\ answered e' = answered e /\ handling e' = handling e /\ queued e' = queued e /\ tasks e' = tasks e /\ doneShared e' = doneShared e.

Lemma exec_caller_requests l e e' : exec_caller on_event big_endian config l e = Some e' -> same_requests e e'.
Proof.
  unfold same_requests. destruct l; cbn [exec_caller]; try done; intros E; repeat (case_match; try done); simplify_eq; try done.
  - unfold transmit. repeat case_match; done.
  - unfold look. repeat case_match; done.
Qed.

Lemma accounted_same e e' : same_requests e e' -> (crashed e' = None -> crashed e = None) -> accounted e -> accounted e'.
Proof.
  intros (Er & Ea & Eh & Eq & Et & Ed) Hc [A1 A2 A3]. split; unfold outstanding, ended in *; rewrite ?Er, ?Ea, ?Eh, ?Eq, ?Et, ?Ed; auto.
Qed.

(** A round of the handler: it reads nothing, or a request. *)
Lemma handle_message_requests accepted e :
  handling e = Reading ->
  let e' := handle_message on_event big_endian config accepted e in
  answered e' = answered e /\ tasks e' = tasks e /\
  ((received e' = received e /\ queued e' = queued e /\ doneShared e' = doneShared e /\ (handling e' = Reading \/ exists code, handling e' = Draining code)) \/
   (exists p, received e' = received e ++ [p] /\ doneShared e' = doneShared e + 1 /\
      ((handling e' = Reading /\ queued e' = queued e ++ [p]) \/ (handling e' = Refusing p /\ queued e' = queued e)))).
Proof.
  intros Hh. unfold handle_message, processIncomingAnswer, processIncomingExecutionRequest, next, put_answer.
  repeat case_match; cbn; simplify_eq; (split; [done|]); (split; [done|]); first [left; by eauto 10 | right; eexists; by eauto 10].
Qed.

Lemma answer_request_requests p answer status e :
  let e' := answer_request big_endian config p answer status e in
  received e' = received e /\ answered e' = answered e ++ [p] /\ handling e' = handling e /\ queued e' = queued e /\ tasks e' = tasks e /\
  (crashed e' = None -> doneShared e' = doneShared e - 1).
Proof. unfold answer_request. destruct (sendRPCAnswer _ _ _ _ _ _) as [[]]; done. Qed.

Lemma run_task_requests fresh time p place t e :
  tasks e !! t = Some (Started p place) ->
  let e' := run_task on_event config fresh time p place t e in
  received e' = received e /\ answered e' = answered e /\ handling e' = handling e /\ queued e' = queued e /\ doneShared e' = doneShared e /\
  task_list (tasks e') ≡ₚ task_list (tasks e).
Proof.
  intros Ht. unfold run_task. destruct (currentTask _ _ _ _ _ _ _) as [[[]|]]; cbn; repeat (split; [done|]); [|done].
  by eapply task_list_same.
Qed.

Lemma accounted_handler e l e' : crashed e = None -> accounted e -> exec_handler on_event big_endian config l e = Some e' -> accounted e'.
Proof.
  intros Hc [A1 A2 A3] E. specialize (A2 Hc). unfold ended, outstanding in *. destruct l; cbn [exec_handler] in E; try done; destruct (handling e) eqn:Eh; try done.
  - injection E as <-. pose proof (handle_message_requests accepted e Eh) as (Ha & Ht & Hcase). set (e' := handle_message _ _ _ _ _) in *. clearbody e'.
    destruct Hcase as [(Hr & Hq & Hd & Hh)|(p & Hr & Hd & Hh)].
    + split; unfold outstanding, ended; rewrite ?Ha, ?Ht, ?Hr, ?Hq, ?Hd; destruct Hh as [->|[code ->]]; done.
    + assert (Hout : outstanding e' ≡ₚ outstanding e ++ [p]).
      { unfold outstanding. rewrite Ht, Eh. destruct Hh as [[-> ->]|[-> ->]]; cbn [app]; solve_Permutation. }
      split; [|intros _|].
      * rewrite Hr, Ha, Hout, A1. unfold outstanding. rewrite Eh. cbn [app]. solve_Permutation.
      * rewrite Hd, A2. unfold zlen. rewrite Hout. unfold outstanding. rewrite Eh, !length_app. cbn [length]. lia.
      * unfold ended. destruct Hh as [[-> _]|[-> _]]; done.
  - destruct (socketLocked e); [done|]. injection E as <-.
    pose proof (answer_request_requests p [] EXEC_STATUS_ERR_REMOTE_QUEUE_OVERFLOW e) as (Hr & Ha & _ & Hq & Ht & Hd).
    set (e' := answer_request _ _ _ _ _ _) in *. clearbody e'. split; unfold outstanding, ended; cbn; [|intros Hcr; rewrite Hd by done|done].
    + rewrite Hr, Ha, Hq, Ht, A1. cbn [app]. by rewrite <- app_assoc.
    + rewrite Hq, Ht, A2. cbn [app]. rewrite zlen_cons. lia.
  - destruct (doneShared e =? 0) eqn:E0; [|done]. injection E as <-. zbool. cbn [app] in *. assert (Hnil : queued e ++ task_list (tasks e) = []) by (apply zlen_0_nil; lia).
    split; unfold outstanding, ended; cbn; by rewrite ?A1, ?A2, ?Hnil.
  - injection E as <-. split; unfold outstanding, ended; cbn; auto.
  - destruct (numReaders e =? 0); [|done]. injection E as <-. split; unfold outstanding, ended; cbn; auto.
Qed.

Lemma accounted_pool e l e' : crashed e = None -> accounted e -> exec_pool on_event big_endian config l e = Some e' -> accounted e'.
Proof.
  intros Hc [A1 A2 A3] E. specialize (A2 Hc). destruct l; cbn [exec_pool] in E; try done.
  - destruct (tasks e !! t) eqn:Et; [done|]. destruct (queued e !! i) as [p|] eqn:Eq; [|done]. injection E as <-.
    assert (Hout : outstanding (set_tasks (<[t:=Started p (getSharedPointer (server e))]> (tasks e)) (set_queued (delete i (queued e)) e)) ≡ₚ outstanding e).
    { unfold outstanding. cbn. rewrite task_list_fresh by done. cbn [task_params]. apply Permutation_app_head. rewrite <- Permutation_middle, app_comm_cons. by rewrite <- (delete_Permutation (queued e) i p). }
    split; cbn; [by rewrite A1, Hout|intros _; rewrite A2; unfold zlen; by rewrite Hout|]. intros He. assert (Hnil : outstanding e = []) by (by apply A3).
    rewrite Hnil in Hout. by apply Permutation_nil_r in Hout.
  - destruct (tasks e !! t) as [[p place|]|] eqn:Et; try done. destruct (bool_decide _); [|done]. injection E as <-.
    pose proof (run_task_requests fresh time p place t e Et) as (Hr & Ha & Hh & Hq & Hd & Ht). set (e' := run_task _ _ _ _ _ _ _ _) in *. clearbody e'.
    assert (Hout : outstanding e' ≡ₚ outstanding e) by (unfold outstanding; by rewrite Hh, Hq, Ht).
    split; [by rewrite Hr, Ha, A1, Hout|intros _; rewrite Hd, A2; unfold zlen; by rewrite Hout|]. unfold ended. rewrite Hh. intros He.
    rewrite A3 in Hout by done. by apply Permutation_nil_r in Hout.
  - destruct (tasks e !! t) as [[|p answer status]|] eqn:Et; try done. destruct (socketLocked e); [done|]. injection E as <-.
    pose proof (answer_request_requests p answer status (set_tasks (delete t (tasks e)) e)) as (Hr & Ha & Hh & Hq & Ht & Hd). set (e' := answer_request _ _ _ _ _ _) in *. clearbody e'.
    assert (Hout : outstanding e ≡ₚ p :: outstanding e').
    { unfold outstanding. rewrite Hh, Hq, Ht. cbn. rewrite (task_list_delete (tasks e) t (Answering p answer status)) by done. cbn [task_params]. solve_Permutation. }
    split.
    + rewrite Hr, Ha. cbn. rewrite A1, Hout. by rewrite <- app_assoc.
    + intros Hcr. rewrite Hd by done. cbn. rewrite A2. unfold zlen. rewrite Hout. cbn [length]. lia.
    + unfold ended. rewrite Hh. cbn. intros He. rewrite A3 in Hout by done. by apply Permutation_nil_cons in Hout.
Qed.

Lemma accounted_step e l e' : accounted e -> step l e = Some e' -> accounted e'.
Proof.
  intros Hacc. unfold exec. destruct (crashed e) eqn:Ec; [done|]. destruct l; intros E;
    first [by eapply accounted_handler | by eapply accounted_pool | by apply (accounted_same e); [by eapply exec_caller_requests| |]].
Qed.

(** A connection begins with no tasks and no callers. *)
Definition fresh_endpoint (s : Socket_Stream D) (v : Server V C W) : Endpoint :=
  mkEndpoint s v Connection_new Reading [] ∅ 0 false ∅ [] [] [] None.
Definition begins (ok : Server V C W -> Prop) e : Prop := exists s v, e = fresh_endpoint s v /\ ok v.

(** C14: On every schedule of a connection, each request that was read from the
    peer is answered once: the requests answered, the one the handler refuses,
    those in the queues of the pool and those that run are the requests
    received; and when the callers are told that the connection ends, none is
    left to answer, so no task uses the connection after it. *)
Theorem requests_are_answered_once ok e :
  reachable (begins ok) step e ->
  received e ≡ₚ answered e ++ outstanding e /\ (ended e -> received e ≡ₚ answered e /\ queued e = [] /\ tasks e = ∅).
Proof.
  intros Hr. assert (Hacc : accounted e).
  { revert e Hr. apply reachable_invariant; [|intros; by eapply accounted_step]. intros e (s & v & -> & _). split; cbn; [done|done|by intros []]. }
  destruct Hacc as [A1 _ A3]. split; [done|]. intros He. specialize (A3 He). rewrite A1, A3, app_nil_r. split; [done|].
  unfold outstanding in A3. unfold ended in He. destruct (handling e); try done; cbn [app] in A3; apply app_eq_nil in A3 as [-> Ht]; (split; [done|]);
    unfold task_list in Ht; apply fmap_nil_inv in Ht; by apply map_to_list_empty_iff in Ht.
Qed.
(** ** The callers *)

Definition caller_id (c : caller V) : option Z :=
  match c with
  | Opened _ => None
  | Numbered _ i | Registered _ i | Looping _ i | Waiting _ i _ | Leaving i _ | Releasing i _ | Returned i _ | NotSent i => Some i
  end.
Definition is_numbered (c : caller V) : bool := match caller_id c with Some _ => true | None => false end.

(** The request whose answer a caller waits for, or left to be waited for. *)
Definition expecting (c : caller V) : option Z :=
  match c with Registered _ i | Looping _ i | Waiting _ i _ | Leaving i _ | NotSent i => Some i | _ => None end.

Definition caller_outcome (c : caller V) : option (Z * outcome V) :=
  match c with Leaving i o | Releasing i o | Returned i o => Some (i, o) | _ => None end.

(** What a connection keeps belongs to a caller, and what a caller has was kept. *)
Record answers_ok e : Prop := {
  ans_dom : forall i, is_Some (answers (connection e) !! i) <-> is_Some (executionStatus (connection e) !! i);
  ans_pending : forall i, is_Some (answers (connection e) !! i) -> i ∈ pendingRequests (connection e);
  ans_expected : forall i, i ∈ pendingRequests (connection e) -> exists t c, callers e !! t = Some c /\ expecting c = Some i;
  ans_kept : forall i v status, answers (connection e) !! i = Some v -> executionStatus (connection e) !! i = Some status -> (i, status, v) ∈ kept e;
  ans_outcome : forall t c i v status, callers e !! t = Some c -> caller_outcome c = Some (i, Answered v status) -> (i, status, v) ∈ kept e
}.

(** A step of the handler on the answers: nothing, an answer, one that cannot be
    read, the end. *)
Inductive answers_step e e' : Prop :=
| answers_same : connection e' = connection e -> callers e' = callers e -> kept e' = kept e -> answers_step e e'
| answers_kept i status v :
    connection e' = mkConnection (requestIdCounter (connection e)) (<[i := v]> (answers (connection e))) (<[i := status]> (executionStatus (connection e)))
                      (pendingRequests (connection e)) (terminated (connection e)) ->
    i ∈ pendingRequests (connection e) -> callers e' = notify_all answersCondition (callers e) -> kept e' = kept e ++ [(i, status, v)] -> answers_step e e'
| answers_malformed i : connection e' = forget i (connection e) -> callers e' = callers e -> kept e' = kept e -> answers_step e e'
| answers_terminated : connection e' = terminate (connection e) -> callers e' = notify_all answersCondition (callers e) -> kept e' = kept e -> answers_step e e'.

Lemma handler_answers l e e' : exec_handler on_event big_endian config l e = Some e' -> answers_step e e'.
Proof.
  destruct l; cbn [exec_handler]; try done; destruct (handling e); try done.
  - intros [= <-]. unfold handle_message, processIncomingAnswer, processIncomingExecutionRequest, next, put_answer.
    repeat case_match; simplify_eq; try (by apply answers_same);
      lazymatch goal with
      | |- context [notify_callers (add_kept (?i, ?st, default nullValue (_ (connection _ ) !! _)) _)] => fail
      | |- context [forget ?i _] => by apply (answers_malformed _ _ i)
      | |- context [add_kept (?i, ?status, _) (set_connection (mkConnection _ (<[_ := ?v]> _) _ _ _) _)] => apply (answers_kept _ _ i status v);
          [reflexivity|by eapply bool_decide_eq_true_1|reflexivity|cbn; by rewrite lookup_insert_eq]
      end.
  - destruct (socketLocked e); [done|]. intros [= <-]. unfold answer_request. destruct (sendRPCAnswer _ _ _ _ _ _) as [[]]; by apply answers_same.
  - destruct (doneShared e =? 0); [|done]. intros [= <-]. by apply answers_terminated.
  - intros [= <-]. by apply answers_same.
  - destruct (numReaders e =? 0); [|done]. intros [= <-]. by apply answers_same.
Qed.

Lemma pool_answers l e e' : exec_pool on_event big_endian config l e = Some e' -> connection e' = connection e /\ callers e' = callers e /\ kept e' = kept e.
Proof.
  destruct l; cbn [exec_pool]; try done; intros E; repeat (case_match; try done); simplify_eq; try done.
  - unfold run_task. repeat case_match; done.
  - unfold answer_request. repeat case_match; done.
Qed.

Lemma notified t (m : gmap tid (caller V)) c' :
  notify_all answersCondition m !! t = Some c' -> exists c, m !! t = Some c /\ expecting c' = expecting c /\ caller_outcome c' = caller_outcome c /\ caller_id c' = caller_id c.
Proof.
  rewrite notify_all_lookup. intros (c & -> & Hc)%fmap_Some. exists c. split; [done|]. destruct c as [| | | |? ? []| | | |]; simplify_eq/=; done.
Qed.

Lemma notified_expecting t (m : gmap tid (caller V)) c i :
  m !! t = Some c -> expecting c = Some i -> exists c', notify_all answersCondition m !! t = Some c' /\ expecting c' = Some i.
Proof.
  intros Ht Hc. rewrite notify_all_lookup, Ht. eexists. split; [reflexivity|]. destruct c as [| | | |? ? []| | | |]; done.
Qed.

Lemma answers_ok_handler e e' : answers_step e e' -> answers_ok e -> answers_ok e'.
Proof.
  intros Hs [K1 K2 K3 K4 K5]. destruct Hs as [Ec Eu Ek|i status v Ec Hi Eu Ek|i Ec Eu Ek|Ec Eu Ek].
  - split; rewrite ?Ec, ?Eu, ?Ek; done.
  - split; rewrite ?Ec, ?Eu, ?Ek; cbn.
    + intros j. rewrite !lookup_insert. destruct (decide (i = j)); [|apply K1]. split; by eexists.
    + intros j. rewrite lookup_insert. destruct (decide (i = j)) as [<-|]; [done|apply K2].
    + intros j Hj. destruct (K3 j Hj) as (t & c & Ht & Hc). destruct (notified_expecting _ _ _ _ Ht Hc) as (c' & ? & ?). by exists t, c'.
    + intros j w st. rewrite !lookup_insert. destruct (decide (i = j)) as [<-|]; intros; simplify_eq; apply elem_of_app; [right; by left|left; by eapply K4].
    + intros t c' j w st Ht Hc. destruct (notified _ _ _ Ht) as (c & Hm & _ & Ho & _). rewrite Ho in Hc. apply elem_of_app. left. by eapply K5.
  - split; rewrite ?Ec, ?Eu, ?Ek; cbn.
    + intros j. rewrite !lookup_delete. destruct (decide (i = j)); [|apply K1]. by split; intros [].
    + intros j. rewrite lookup_delete. destruct (decide (i = j)) as [|Hne]; [by intros []|]. intros Hj%K2. set_solver.
    + intros j Hj. apply K3. set_solver.
    + intros j w st. rewrite !lookup_delete. destruct (decide (i = j)); [done|apply K4].
    + done.
  - split; rewrite ?Ec, ?Eu, ?Ek; cbn; [done..| |done|].
    + intros j Hj. destruct (K3 j Hj) as (t & c & Ht & Hc). destruct (notified_expecting _ _ _ _ Ht Hc) as (c' & ? & ?). by exists t, c'.
    + intros t c' j w st Ht Hc. destruct (notified _ _ _ Ht) as (c & Hm & _ & Ho & _). rewrite Ho in Hc. by eapply K5.
Qed.

(** A step of the caller [t], which becomes [c']. *)
Record caller_step e e' t (c' : caller V) : Prop := {
  cs_callers : callers e' = <[t := c']> (callers e);
  cs_kept : kept e' = kept e;
  cs_answers : (answers (connection e') = answers (connection e) /\ executionStatus (connection e') = executionStatus (connection e) /\
                pendingRequests (connection e) ⊆ pendingRequests (connection e')) \/
               exists i, answers (connection e') = delete i (answers (connection e)) /\ executionStatus (connection e') = delete i (executionStatus (connection e)) /\
                 pendingRequests (connection e') = pendingRequests (connection e) ∖ {[i]};
  cs_new : forall i, i ∈ pendingRequests (connection e') -> i ∈ pendingRequests (connection e) \/ expecting c' = Some i;
  cs_old : forall i c, callers e !! t = Some c -> expecting c = Some i -> i ∈ pendingRequests (connection e') -> expecting c' = Some i;
  cs_outcome : forall i v status, caller_outcome c' = Some (i, Answered v status) -> (i, status, v) ∈ kept e
}.

Lemma answers_ok_caller e e' t c' : caller_step e e' t c' -> answers_ok e -> answers_ok e'.
Proof.
  intros [Eu Ek Ha Hnew Hold Hout] [K1 K2 K3 K4 K5]. split; rewrite ?Ek, ?Eu.
  - intros j. destruct Ha as [(-> & -> & _)|(i & -> & -> & _)]; [apply K1|]. rewrite !lookup_delete. destruct (decide (i = j)); [|apply K1]. by split; intros [].
  - intros j. destruct Ha as [(-> & _ & Hp)|(i & -> & _ & ->)]; [by intros ?%K2%Hp|]. rewrite lookup_delete. destruct (decide (i = j)); [by intros []|].
    intros ?%K2. set_solver.
  - intros j Hj. destruct (Hnew j Hj) as [Hin|Hc]; [|exists t, c'; by rewrite lookup_insert_eq]. destruct (K3 j Hin) as (u & c & Hu & Hc).
    destruct (decide (t = u)) as [<-|Hne]; [|exists u, c; by rewrite lookup_insert_ne]. exists t, c'. rewrite lookup_insert_eq. split; [done|]. by eapply Hold.
  - intros j v st. destruct Ha as [(-> & -> & _)|(i & -> & -> & _)]; [apply K4|]. rewrite !lookup_delete. destruct (decide (i = j)); [done|apply K4].
  - intros u c j v st. rewrite lookup_insert. destruct (decide (t = u)); [intros [= <-]; apply Hout|apply K5].
Qed.

Lemma caller_steps l e e' : answers_ok e -> exec_caller on_event big_endian config l e = Some e' ->
  (exists t c', caller_step e e' t c') \/ answers_step e e'.
Proof.
  intros [K1 K2 K3 K4 K5]. destruct l; cbn [exec_caller]; try done; intros E; repeat (case_match; try done); simplify_eq;
    try (left; exists t; eexists; split; [reflexivity|done|by left|intros; by left|intros; simplify_eq/=; done|done]).
  - left; exists t; eexists; split; [reflexivity|done|left; unfold next_request in *; by simplify_eq|unfold next_request in *; simplify_eq; by left|intros; simplify_eq/=; done|done].
  - left; exists t; eexists; split; [reflexivity|done|left; cbn; set_solver|cbn; set_solver|intros; simplify_eq/=; done|done].
  - unfold transmit in *. repeat (case_match; try done); simplify_eq;
      first [by right; apply answers_same | left; exists t; eexists; split; [reflexivity|done|by left|intros; by left|intros; simplify_eq/=; done|done]].
  - unfold look in *. repeat case_match; simplify_eq;
      (left; exists t; eexists; split; [reflexivity|done|by left|intros; by left|intros; simplify_eq/=; done|]); try done.
    intros j v0 st Ho. simplify_eq/=. eapply K4; [done|]. destruct (proj1 (K1 j)) as [st Hst]; [by eexists|]. by rewrite Hst.
  - left; exists t; eexists; split; [reflexivity|done|right; by exists requestId|cbn; set_solver|intros; simplify_eq/=; set_solver|].
    intros; simplify_eq/=. by eapply K5.
  - left; exists t; eexists; split; [reflexivity|done|by left|intros; by left|intros; simplify_eq/=; done|]. intros; simplify_eq/=. by eapply K5.
Qed.

(** *** The numbers of the requests *)

Inductive ids_step e e' : Prop :=
| ids_same : callers e' = callers e \/ callers e' = notify_all answersCondition (callers e) -> requestIdCounter (connection e') = requestIdCounter (connection e) -> ids_step e e'
| ids_call t r : callers e !! t = None -> callers e' = <[t := Opened r]> (callers e) -> requestIdCounter (connection e') = requestIdCounter (connection e) -> ids_step e e'
| ids_kept t c c' : callers e !! t = Some c -> caller_id c' = caller_id c -> callers e' = <[t := c']> (callers e) ->
    requestIdCounter (connection e') = requestIdCounter (connection e) -> ids_step e e'
| ids_number t r : callers e !! t = Some (Opened r) -> callers e' = <[t := Numbered r (requestIdCounter (connection e))]> (callers e) ->
    requestIdCounter (connection e') = u64 (requestIdCounter (connection e) + 1) -> ids_step e e'.

Lemma handler_ids e e' : answers_step e e' -> ids_step e e'.
Proof. intros [Ec Eu _|i status v Ec _ Eu _|i Ec Eu _|Ec Eu _]; apply ids_same; rewrite ?Ec; auto. Qed.

Ltac same_id t := eapply (ids_kept _ _ t); cycle 2; [reflexivity|reflexivity|eassumption|reflexivity].

Lemma caller_ids l e e' : exec_caller on_event big_endian config l e = Some e' -> ids_step e e'.
Proof.
  destruct l; cbn [exec_caller]; try done; intros E; repeat (case_match; try done); simplify_eq; try (by eapply ids_call); try same_id t.
  - unfold next_request in *. simplify_eq. by eapply ids_number.
  - unfold transmit in *. repeat (case_match; try done); simplify_eq; first [same_id t | by apply ids_same; [left|]].
  - unfold look in *. repeat case_match; simplify_eq; same_id t.
Qed.

Definition few e : Prop := Z.of_nat (size (callers e)) + 2 < 2 ^ 64.

Record ids_ok e : Prop := {
  ids_counter : requestIdCounter (connection e) = 1 + count is_numbered (callers e);
  ids_range t c i : callers e !! t = Some c -> caller_id c = Some i -> 1 <= i < requestIdCounter (connection e);
  ids_unique t u c d i : callers e !! t = Some c -> callers e !! u = Some d -> caller_id c = Some i -> caller_id d = Some i -> t = u
}.

Lemma count_size (m : gmap tid (caller V)) : count is_numbered m <= Z.of_nat (size m).
Proof.
  induction m as [|t c m Ht IH] using map_ind; [done|]. rewrite count_fresh, map_size_insert_None by done. destruct (is_numbered c); cbn [b2z]; lia.
Qed.

Lemma count_notified (m : gmap tid (caller V)) : count is_numbered (notify_all answersCondition m) = count is_numbered m.
Proof.
  induction m as [|t c m Ht IH] using map_ind; [done|]. unfold notify_all in *. rewrite fmap_insert, !count_fresh, IH by (try rewrite lookup_fmap, Ht; done).
  f_equal. by destruct c as [| | | |? ? []| | | |].
Qed.

Lemma ids_step_few e e' : ids_step e e' -> few e' -> few e.
Proof.
  unfold few. intros [[->| ->] _|t r Ht -> _|t c c' Ht _ -> _|t r Ht -> _]; [done|unfold notify_all; by rewrite map_size_fmap| | |].
  - rewrite map_size_insert_None by done. lia.
  - rewrite map_size_insert_Some by (by eexists). done.
  - rewrite map_size_insert_Some by (by eexists). done.
Qed.

Lemma ids_ok_step e e' : ids_step e e' -> few e -> ids_ok e -> ids_ok e'.
Proof.
  intros Hs Hfew [I1 I2 I3]. destruct Hs as [[Eu|Eu] Ec|t r Ht Eu Ec|t c c' Ht Hid Eu Ec|t r Ht Eu Ec]; rewrite ?Eu, ?Ec.
  - split; rewrite ?Eu, ?Ec; done.
  - split; rewrite ?Eu, ?Ec; [by rewrite count_notified|..].
    + intros t c i Ht Hi. destruct (notified _ _ _ Ht) as (d & Hd & _ & _ & E). rewrite E in Hi. by eapply I2.
    + intros t u c d i Ht Hu Hc Hd. destruct (notified _ _ _ Ht) as (c1 & Hc1 & _ & _ & E1), (notified _ _ _ Hu) as (d1 & Hd1 & _ & _ & E2).
      rewrite E1 in Hc. rewrite E2 in Hd. by eapply I3.
  - split; rewrite ?Eu, ?Ec.
    + by rewrite count_fresh.
    + intros u c i. rewrite lookup_insert. destruct (decide (t = u)); [by intros [= <-]|apply I2].
    + intros u w c d i. rewrite !lookup_insert. destruct (decide (t = u)); [by intros [= <-]|]. destruct (decide (t = w)); [by intros _ [= <-]|apply I3].
  - assert (Hn : is_numbered c' = is_numbered c) by (unfold is_numbered; by rewrite Hid). split; rewrite ?Eu, ?Ec.
    + rewrite (count_insert _ _ _ c), Hn, I1 by done. lia.
    + intros u d i. rewrite lookup_insert. destruct (decide (t = u)) as [<-|]; [|apply I2]. intros [= <-] Hi. rewrite Hid in Hi. by apply (I2 t c).
    + intros u w d f i. rewrite !lookup_insert. destruct (decide (t = u)) as [<-|], (decide (t = w)) as [<-|]; [done|..|apply I3].
      * intros [= <-] Hw Hc Hf. rewrite Hid in Hc. by apply (I3 t w c f i).
      * intros Hu [= <-] Hd Hc. rewrite Hid in Hc. by apply (I3 u t d c i).
  - pose proof (count_size (callers e)) as Hsize. pose proof (count_nonneg is_numbered (callers e)). unfold few in Hfew.
    assert (E : u64 (requestIdCounter (connection e) + 1) = requestIdCounter (connection e) + 1) by (apply u64_small; unfold is_size, SIZE_MAX; lia).
    rewrite E in Ec. assert (Hlt : forall u c i, callers e !! u = Some c -> caller_id c = Some i -> i <> requestIdCounter (connection e)).
    { intros u c i Hu Hc ->. specialize (I2 u c _ Hu Hc). lia. }
    split; rewrite ?Eu, ?Ec.
    + rewrite (count_insert _ _ _ (Opened r)), I1 by done. cbn. lia.
    + intros u c i. rewrite lookup_insert. destruct (decide (t = u)); [intros [= <-] [= <-]; lia|]. intros Hu Hc. specialize (I2 u c i Hu Hc). lia.
    + intros u w c d i. rewrite !lookup_insert. destruct (decide (t = u)) as [<-|], (decide (t = w)) as [<-|]; [done|..|apply I3].
      * intros [= <-] Hw [= <-] Hd. by destruct (Hlt _ _ _ Hw Hd).
      * intros Hu [= <-] Hc [= <-]. by destruct (Hlt _ _ _ Hu Hc).
Qed.

Lemma step_answers l e e' : answers_ok e -> step l e = Some e' -> answers_ok e' /\ ids_step e e'.
Proof.
  intros Hok. unfold exec. destruct (crashed e); [done|].
  assert (Hh : forall l, exec_handler on_event big_endian config l e = Some e' -> answers_ok e' /\ ids_step e e').
  { intros ? Hs%handler_answers. split; [by eapply answers_ok_handler|by apply handler_ids]. }
  assert (Hp : forall l, exec_pool on_event big_endian config l e = Some e' -> answers_ok e' /\ ids_step e e').
  { intros ? (Ec & Eu & Ek)%pool_answers. split; [by eapply answers_ok_handler; [apply answers_same|]|]. by apply ids_same; [left|rewrite Ec]. }
  assert (Hc : forall l, exec_caller on_event big_endian config l e = Some e' -> answers_ok e' /\ ids_step e e').
  { intros ? Hs. split; [|by eapply caller_ids]. apply caller_steps in Hs as [(t & c & Hs)|Hs]; [by eapply answers_ok_caller|by eapply answers_ok_handler|done]. }
  destruct l; first [apply Hh | apply Hp | apply Hc].
Qed.

Lemma begins_ok ok e : begins ok e -> answers_ok e /\ ids_ok e.
Proof.
  intros (s & v & -> & _). split; split; cbn; try done.
  - by split; intros [].
  - by intros i [].
Qed.

Lemma reachable_answers ok e : reachable (begins ok) step e -> answers_ok e.
Proof. apply reachable_invariant; [by intros ? []%begins_ok|by intros ? ? ? ? []%step_answers]. Qed.

Lemma reachable_ids ok e : reachable (begins ok) step e -> few e -> ids_ok e.
Proof.
  intros Hr. induction Hr as [e Hb|e l e' Hr IH Hs]; [by apply begins_ok in Hb as []|]. intros Hfew.
  destruct (step_answers _ _ _ (reachable_answers _ _ Hr) Hs) as [_ Hids]. pose proof (ids_step_few _ _ Hids Hfew). by eapply ids_ok_step; [done| |apply IH].
Qed.

(** C15: On every schedule of fewer than 2^64 - 2 calls, the value and the status
    of a call of executeTask that returns with an answer are those of an answer
    of the peer that was kept for its own request, whose number no other call
    has; and when every call has returned, with its outcome or because its
    request could not be sent, all that the connection still keeps (answers,
    statuses, pending requests) is for requests that could not be sent, which
    executeTask leaves pending. *)
Theorem callers_get_their_answers ok e :
  reachable (begins ok) step e -> few e ->
  (forall t i v status, callers e !! t = Some (Returned i (Answered v status)) ->
     (i, status, v) ∈ kept e /\ forall u c, callers e !! u = Some c -> caller_id c = Some i -> u = t) /\
  ((forall t c, callers e !! t = Some c -> exists i, c = NotSent i \/ exists o, c = Returned i o) ->
   forall i, i ∈ pendingRequests (connection e) \/ is_Some (answers (connection e) !! i) \/ is_Some (executionStatus (connection e) !! i) ->
     exists t, callers e !! t = Some (NotSent i)).
Proof.
  intros Hr Hfew. destruct (reachable_answers _ _ Hr) as [K1 K2 K3 _ K5], (reachable_ids _ _ Hr Hfew) as [_ _ I3]. split.
  - intros t i v status Ht. split; [by eapply K5|]. intros u c Hu Hc. by eapply I3.
  - intros Hall i Hi. assert (Hp : i ∈ pendingRequests (connection e)) by (destruct Hi as [?|[?%K2|?%K1%K2]]; done).
    destruct (K3 i Hp) as (t & c & Ht & Hc). exists t. destruct (Hall t c Ht) as (j & [->|[o ->]]); [|done]. by injection Hc as ->.
Qed.
End Invariants.

(** ** Sessions come from verified tokens *)

Section Sessions.
Context {V : Type} `{JsonCpp V} {KEY : Type} `{OpenSSL KEY} `{Base64Encoder, Base64Decoder} {C W : Type} {D : Type} `{StreamSocket D}.
Variable on_event : event V -> W -> W.
Variable big_endian : bool.
Variable config : Config.
Abbreviation Endpoint := (@Endpoint V C W D) (only parsing).
Abbreviation step := (exec (KEY := KEY) on_event big_endian config) (only parsing).
Implicit Types (e : Endpoint) (s : Server V C W) (x : Session V).

Definition verified x : Prop := Token.m_signatureVerified (m_jwtAuthenticatedInfo x) = true.

(** The methods of the program cannot change the token of a session, which has
    no member that does. *)
Definition methods_keep_tokens (m : gmap bytes (MonolithAPIMethod V C W)) : Prop :=
  forall name f payload w x, m !! name = Some f ->
  match method f (context f) payload (w, Some x) with
  | (_, (_, Some x')) => m_jwtAuthenticatedInfo x' = m_jwtAuthenticatedInfo x
  | (_, (_, None)) => True
  end.

Record server_ok (places : gset positive) s : Prop := {
  ok_methods : methods_keep_tokens (m_methods (methodHandlers s));
  ok_verified i x : sessions s !! i = Some x -> verified x;
  ok_holder i : holder s = Some i -> is_Some (sessions s !! i);
  ok_places i : i ∈ places -> is_Some (sessions s !! i)
}.

Lemma preserves_emit P v : preserves (server_ok P) (emit (C := C) on_event v).
Proof. intros s [? ? ? ?]. by split. Qed.

Lemma preserves_on_jwt P {A} (f : st JWT A) : preserves (server_ok P) (on_jwt (V := V) (C := C) (W := W) f).
Proof. intros s [? ? ? ?]. unfold on_jwt. destruct (f _). by split. Qed.

Lemma preserves_on_handlers P {A} (f : MonolithHandler V C W -> A * MonolithHandler V C W) :
  (forall h, m_methods (snd (f h)) = m_methods h) -> preserves (server_ok P) (on_handlers f).
Proof. intros Hf s [Hm ? ? ?]. unfold on_handlers. pose proof (Hf (methodHandlers s)) as E. destruct (f _). split; cbn in *; by rewrite ?E. Qed.

Lemma asked_methods name (h : MonolithHandler V C W) : m_methods (snd (doesMethodRequireActiveSession name h)) = m_methods h.
Proof. unfold doesMethodRequireActiveSession. by destruct (flag _ _). Qed.

Lemma validated_methods (o : option (Session V)) name reasons (h : MonolithHandler V C W) : m_methods (snd (validateMethodRequirements o name reasons h)) = m_methods h.
Proof.
  unfold validateMethodRequirements. destruct (m_methods h !! name); [|done]. pose proof (asked_methods name h) as E.
  destruct (doesMethodRequireActiveSession name h). by destruct (_ && _).
Qed.

Lemma preserves_set_session P place x : verified x -> preserves (server_ok P) (set_session (C := C) (W := W) place x).
Proof.
  intros Hx s [? Hv Hh Hp]. destruct place as [i|]; [|done]. split; cbn; [done|..].
  - intros j y. rewrite lookup_insert. destruct (decide (i = j)); [by intros [= <-]|apply Hv].
  - intros j Hj. rewrite lookup_insert. destruct (decide (i = j)); [by eexists|by apply Hh].
  - intros j Hj. rewrite lookup_insert. destruct (decide (i = j)); [by eexists|by apply Hp].
Qed.
#[local] Hint Resolve preserves_emit preserves_on_jwt : preserved.

(** A task that has a session of the connection knows it. *)
Definition current_ok (c : current) : Prop := forall i, c_place c = Some i -> exists x, c_session c = Some x /\ verified x.

Lemma preserves_check_extra_token P time p c : preserves (server_ok P) (check_extra_token (C := C) on_event time p c).
Proof. unfold check_extra_token, reject, virtual_session. preserve. Qed.

Lemma check_extra_token_ok time p c s c' s' : current_ok c -> check_extra_token on_event time p c s = (Ret c', s') -> current_ok c'.
Proof.
  intros Hc. unfold check_extra_token. destruct (t_extraTokenAuth p); [|by intros [= <- <-]]. unfold reject, virtual_session, emit, bind, on_jwt, lift_res, ret, throw.
  intros E. repeat (case_match; simplify_eq/=; try done); intros i Hi; destruct (Hc i Hi) as (x & ? & ?); simplify_eq/=; by eexists.
Qed.

Lemma preserves_may_go_on P p c : preserves (server_ok P) (may_go_on (C := C) (W := W) p c).
Proof. unfold may_go_on. assert (Hq := fun n => preserves_on_handlers P _ (asked_methods n)). preserve; apply Hq. Qed.

Lemma invoke_keeps now name payload w o h r w' o' h' :
  methods_keep_tokens (m_methods h) -> invoke now name payload (w, o, h) = (r, (w', o', h')) ->
  m_methods h' = m_methods h /\ forall x x', o = Some x -> o' = Some x' -> m_jwtAuthenticatedInfo x' = m_jwtAuthenticatedInfo x.
Proof.
  intros Hm. unfold invoke. destruct (m_methods h !! name) as [f|] eqn:Ef; [|by intros [= <- <- <- <-]; split; [|intros; simplify_eq]].
  pose proof (fun x => Hm name f payload w x Ef) as Hk. destruct (method f (context f) payload (w, o)) as [[v|] [w1 o1]] eqn:E; cycle 1.
  { intros [= <- <- <- <-]. split; [done|]. intros x x' -> ->. specialize (Hk x). by rewrite E in Hk. }
  destruct (flag name _) as [update m]. assert (Ho : forall x x', o = Some x -> o1 = Some x' -> m_jwtAuthenticatedInfo x' = m_jwtAuthenticatedInfo x).
  { intros x x' -> ->. specialize (Hk x). by rewrite E in Hk. }
  destruct update; [destruct o1 as [y|]|]; intros [= <- <- <- <-]; (split; [done|]); [|done..].
  intros x x' -> [= <-]. by apply (Ho x y).
Qed.

(** The state after a computation keeps what the computation preserves. *)
Ltac computes :=
  lazymatch goal with |- server_ok ?P (snd (?m ?s)) => let Hm := fresh in assert (Hm : preserves (server_ok P) m); [|by apply Hm] end.

Lemma preserves_invoke P time p c : current_ok c -> preserves (server_ok P) (invoke_method (C := C) on_event time p c).
Proof.
  intros Hc s Hs. unfold invoke_method. destruct (invoke _ _ _ _) as [r [[w o] h]] eqn:E. destruct (invoke_keeps _ _ _ _ _ _ _ _ _ _ (ok_methods _ _ Hs) E) as [Hm Ho].
  set (s1 := mkServer h _ _ _ w). assert (Hs1 : server_ok P s1).
  { assert (Hset : server_ok P (mkServer h (jwtValidator s) (sessions s) (holder s) w)) by (destruct Hs; split; cbn; by rewrite ?Hm).
    unfold s1. destruct o as [x'|]; [|done]. destruct (c_place c) as [i|] eqn:Ei; [|done]. destruct (Hc i Ei) as (x & Hx & Hv).
    assert (Hv' : verified x') by (unfold verified; by rewrite (Ho x x' Hx eq_refl)). exact (preserves_set_session P (Some i) x' Hv' _ Hset). }
  clearbody s1. destruct r as [[code out]|]; [|done].
  destruct (code =? METHOD_RET_CODE_SUCCESS); [|destruct (code =? METHOD_RET_CODE_METHODNOTFOUND)]; computes; preserve.
Qed.

Lemma preserves_validate P time p c : current_ok c -> preserves (server_ok P) (validate_and_invoke (C := C) on_event time p c).
Proof.
  intros Hc. unfold validate_and_invoke. assert (Hq := fun o n r => preserves_on_handlers P _ (validated_methods o n r)).
  assert (Hi := fun u f v => preserves_invoke P time p (mkCurrent u (c_place c) f v)).
  apply preserves_bind; [apply Hq|]. intros a. apply preserves_bind; [auto with preserved|]. intros [code reasons]. destruct code; [|preserve..].
  apply preserves_bind.
  - destruct (c_session c) as [x|] eqn:Ex; [|auto with preserved]. intros s Hs. destruct (c_place c) as [i|] eqn:Ei; [|done].
    destruct (Hc i Ei) as (y & Hy & Hv). rewrite Ex in Hy. injection Hy as <-. by apply (preserves_set_session P (Some i)).
  - intros _. apply preserves_bind; [auto with preserved|]. intros _. apply preserves_invoke. intros i Hi'. destruct (Hc i Hi') as (y & -> & Hv). by eexists.
Qed.

Lemma preserves_executeLocalTask P time place p : (forall i, place = Some i -> i ∈ P) -> preserves (server_ok P) (executeLocalTask (C := C) on_event time place p).
Proof.
  intros Hplace s Hs. unfold executeLocalTask. set (found := match place with Some i => sessions s !! i | None => None end).
  assert (Hc0 : forall full, current_ok (mkCurrent found place false full)).
  { intros full i Hi. cbn in *. unfold found. rewrite Hi. destruct (ok_places _ _ Hs i (Hplace i Hi)) as [x Hx]. exists x. split; [done|]. by eapply ok_verified. }
  clearbody found. unfold bind at 1, lift_res at 1. destruct (set_status _ _) as [full|]; [|done]. unfold bind at 1.
  pose proof (preserves_check_extra_token P time p (mkCurrent found place false full) s Hs) as Hs1.
  destruct (check_extra_token _ _ _ _ s) as [[c|] s1] eqn:E1; [|done]. apply check_extra_token_ok in E1; [|done]. cbn in Hs1. clear Hs.
  assert (Er : check_revoked on_event p c s1 = (Ret c, s1)).
  { unfold check_revoked, isSessionRevoked, ret. rewrite andb_false_r. by destruct (c_session c). }
  unfold bind at 1. rewrite Er. computes.
  apply preserves_bind; [apply preserves_may_go_on|]. intros go. apply preserves_bind.
  - destruct go; [destruct (sessionFailed c); [auto with preserved|by apply preserves_validate]|preserve].
  - intros [[ff v] f]. preserve.
Qed.

Lemma preserves_lift_bind P {A B} (r : res A) (k : A -> st (Server V C W) B) :
  (forall a, r = Ret a -> preserves (server_ok P) (k a)) -> preserves (server_ok P) (bind (lift_res r) k).
Proof. intros Hk s Hs. unfold bind, lift_res. destruct r as [a|]; [by apply Hk|done]. Qed.

Lemma preserves_session_create P fresh time token :
  Token.m_signatureVerified token = true -> preserves (server_ok P) (session_create (C := C) (W := W) fresh time token).
Proof.
  intros Ht s Hs. unfold session_create. destruct (holder s) eqn:Eh; [done|]. unfold Session_of.
  destruct (Token.getImpersonator token) as [imp|]; [|done]. cbn. destruct (Token.getDomain token) as [domain|]; [|done]. cbn.
  destruct (Token.getSubject token) as [user|]; [|done]. cbn. set (x := mkSession _ _ _ _ _ _ _). assert (Hx : verified x) by done.
  destruct (preserves_set_session P (Some fresh) x Hx s Hs) as [Hm Hv Hh Hp]. split; cbn in *; [done|done| |done].
  intros i [= <-]. rewrite lookup_insert_eq. by eexists.
Qed.

Lemma preserves_touch P i now {A} (k : st (Server V C W) A) : preserves (server_ok P) k -> preserves (server_ok P)
  (let! o := gets (fun s : Server V C W => sessions s !! i) in do! match o with Some x => set_session (Some i) (updateLastActivity now x) | None => ret tt end in k).
Proof.
  intros Hk s Hs. unfold bind at 1, gets. cbv beta iota. destruct (sessions s !! i) as [x|] eqn:E; [|by apply Hk].
  apply Hk. apply (preserves_set_session P (Some i)); [|done]. by apply (ok_verified _ _ Hs) in E.
Qed.

Lemma preserves_login_reason P fresh time place p : preserves (server_ok P) (login_reason (C := C) on_event fresh time place p).
Proof.
  unfold login_reason. apply preserves_bind; [auto with preserved|]. intros text. destruct place; [auto with preserved|].
  apply preserves_bind; [auto with preserved|]. intros token. apply preserves_lift_bind. intros [] Hvalid; [|preserve].
  apply isValid_true in Hvalid as (_ & Hv & _). apply preserves_bind; [by apply preserves_session_create|]. intros [i|]; [|preserve].
  apply preserves_touch. preserve.
Qed.

Lemma preserves_currentTask P fresh time place p : (forall i, place = Some i -> i ∈ P) ->
  preserves (server_ok P) (currentTask (C := C) on_event config fresh time place p).
Proof.
  intros Hp. unfold currentTask, login, logout, getSSOData. pose proof (preserves_login_reason P fresh time place p). repeat apply preserves_if.
  - preserve.
  - apply preserves_bind; [|preserve]. intros s Hs. unfold session_destroy. destruct (holder s); [|done]. destruct Hs. by split.
  - preserve.
  - by apply preserves_executeLocalTask.
Qed.

(** ** On every schedule *)

Record sessions_ok e : Prop := {
  so_server : server_ok (dom (sessions (server e))) (server e);
  so_tasks t p i : tasks e !! t = Some (Started p (Some i)) -> is_Some (sessions (server e) !! i)
}.

Definition server_kept e e' : Prop := tasks e' = tasks e /\ (server e' = server e \/ exists v, server e' = snd (emit on_event v (server e))).

Lemma sessions_ok_kept e e' : server_kept e e' -> sessions_ok e -> sessions_ok e'.
Proof.
  intros [Et Es] [Hs Ht]. assert (E : sessions (server e') = sessions (server e)) by (by destruct Es as [->|[v ->]]).
  split; rewrite E, ?Et; [|done]. destruct Es as [->|[v ->]]; [done|]. by apply preserves_emit.
Qed.

Lemma handler_server l e e' : exec_handler on_event big_endian config l e = Some e' -> server_kept e e'.
Proof.
  unfold server_kept. destruct l; cbn [exec_handler]; try done; destruct (handling e); try done.
  - intros [= <-]. unfold handle_message, processIncomingAnswer, processIncomingExecutionRequest, next.
    repeat case_match; cbn; (split; [done|]); first [by left | by right; eexists].
  - destruct (socketLocked e); [done|]. intros [= <-]. unfold answer_request. destruct (sendRPCAnswer _ _ _ _ _ _) as [[]]; by auto.
  - destruct (doneShared e =? 0); [|done]. intros [= <-]. by auto.
  - intros [= <-]. by auto.
  - destruct (numReaders e =? 0); [|done]. intros [= <-]. by auto.
Qed.

Lemma caller_server l e e' : exec_caller on_event big_endian config l e = Some e' -> server_kept e e'.
Proof.
  unfold server_kept. destruct l; cbn [exec_caller]; try done; intros E; repeat (case_match; try done); simplify_eq; try by auto.
  - unfold transmit. repeat case_match; by auto.
  - unfold look. repeat case_match; cbn; (split; [done|]); first [by left | by right; eexists].
Qed.

Lemma server_ok_dom P s : server_ok P s -> server_ok (dom (sessions s)) s.
Proof. intros [Hm Hv Hh _]. split; [done..|]. intros i. by rewrite elem_of_dom. Qed.

Lemma pool_sessions l e e' : exec_pool on_event big_endian config l e = Some e' -> sessions_ok e -> sessions_ok e'.
Proof.
  intros E [Hs Ht]. destruct l; cbn [exec_pool] in E; try done.
  - destruct (tasks e !! t); [done|]. destruct (queued e !! i) as [p|]; [|done]. injection E as <-. split; [done|]. cbn. intros u q j.
    rewrite lookup_insert. destruct (decide (t = u)); [|apply Ht]. intros [= _ Hj]. by apply (ok_holder _ _ Hs).
  - destruct (tasks e !! t) as [[p place|]|] eqn:Et; try done. destruct (bool_decide _); [|done]. injection E as <-. unfold run_task.
    assert (Hplace : forall i, place = Some i -> i ∈ dom (sessions (server e))) by (intros i ->; apply elem_of_dom; by eapply Ht).
    pose proof (preserves_currentTask (dom (sessions (server e))) fresh time place p Hplace _ Hs) as Hs'.
    destruct (currentTask _ _ _ _ _ _ _) as [r s']. cbn in Hs'. assert (Hgrow : forall i, is_Some (sessions (server e) !! i) -> is_Some (sessions s' !! i)).
    { intros i Hi%elem_of_dom. by apply (ok_places _ _ Hs'). }
    assert (Hok : server_ok (dom (sessions s')) s') by by eapply server_ok_dom.
    destruct r as [[answer status]|]; (split; [done|]); cbn; intros u q j; [|by intros Hu%Ht; apply Hgrow].
    rewrite lookup_insert. destruct (decide (t = u)); [done|]. intros Hu%Ht. by apply Hgrow.
  - destruct (tasks e !! t) as [[|p answer status]|] eqn:Et; try done. destruct (socketLocked e); [done|]. injection E as <-. unfold answer_request.
    destruct (sendRPCAnswer _ _ _ _ _ _) as [[]]; (split; [done|]); cbn; intros u q j; rewrite lookup_delete; (destruct (decide (t = u)); [done|apply Ht]).
Qed.

(** The program starts a connection without sessions. *)
Definition no_session s : Prop := methods_keep_tokens (m_methods (methodHandlers s)) /\ sessions s = ∅ /\ holder s = None.

End Sessions.

(** * An example

    The peer logs in, calls a method that answers its payload, and answers the
    call of a thread of the program. *)

Module Example.
Import RpcExample.
Definition step0 : label (V := value) -> Endpoint (V := value) -> option (Endpoint (C := unit) (W := nat) (D := Wire)) :=
  exec (KEY := bytes) told false (mkConfig 10000 [] [] false).
Definition login_text0 : bytes := match login_payload signed_text with Ret v => writeString_compact (v : value) | Exc _ => [] end.
Definition incoming : bytes :=
  be_bytes 1 TYPE_QUERY ++ request_wire 5 (str "SESSION.LOGIN") login_text0 [] ++
  be_bytes 1 TYPE_QUERY ++ request_wire 6 (str "echo") (writeString_compact (Null : value)) [] ++
  be_bytes 1 TYPE_ANSWER ++ be_bytes 8 1 ++ be_bytes 1 EXEC_STATUS_SUCCESS ++ frame 4 (writeString_compact (Text (str "done") : value)).
Definition begin0 : Endpoint (V := value) := fresh_endpoint (wire incoming true) server0.
Definition answering : list (label (V := value)) :=
  [Message true; Start 1 0; Run 1 1 clock; Answer 1; Message true; Start 2 0; Run 2 2 clock; Answer 2].
Definition calling : list (label (V := value)) :=
  [Call 9 (mkCall (str "m") Null (writeString_compact (Null : value)) []); Number 9; Register 9; Transmit 9; Sleep 9; Message true; Look 9 false; Clean 9; Release 9].
Definition all : option (Endpoint (V := value)) := run step0 (answering ++ calling) begin0.

Lemma begins0 : begins no_session begin0.
Proof.
  exists (wire incoming true), server0. split; [reflexivity|]. split; [|by split]. intros name f payload w x.
  change (m_methods (methodHandlers server0)) with ({[str "echo" := echo]} : gmap bytes (MonolithAPIMethod value unit nat)).
  intros [_ <-]%lookup_singleton_Some. reflexivity.
Qed.

Lemma reaches e : all = Some e -> reachable (begins no_session) step0 e.
Proof. apply run_reachable, reachable_initial, begins0. Qed.

(** What the schedule ends with. *)
Definition summary (e : Endpoint (V := value) (C := unit) (W := nat) (D := Wire)) :=
  (zlen (received e), zlen (answered e), holder (server e), world (server e), callers e !! 9%nat, size (callers e)).
Lemma ends : summary <$> all = Some (2, 2, Some 1%positive, 1%nat, Some (Returned 1 (Answered (Text (str "done")) EXEC_STATUS_SUCCESS)), 1%nat).
Proof. vm_compute. reflexivity. Qed.
End Example.

Lemma requests_are_answered_once_witness :
  exists e, Example.all = Some e /\ zlen (received e) = 2 /\ received e ≡ₚ answered e ++ outstanding e.
Proof.
  pose proof Example.ends as Hends. destruct Example.all as [e|] eqn:E; [|discriminate Hends].
  exists e. split; [reflexivity|]. split; [by injection Hends|]. exact (proj1 (requests_are_answered_once _ _ _ no_session e (Example.reaches e E))).
Defined.

Lemma callers_get_their_answers_witness :
  exists e, Example.all = Some e /\ callers e !! 9%nat = Some (Returned 1 (Answered (Text (str "done")) EXEC_STATUS_SUCCESS)) /\
    (1, EXEC_STATUS_SUCCESS, Text (str "done")) ∈ kept e.
Proof.
  pose proof Example.ends as Hends. destruct Example.all as [e|] eqn:E; [|discriminate Hends]. injection Hends as _ _ _ _ Hc Hsize.
  exists e. split; [reflexivity|]. split; [exact Hc|]. assert (Hfew : few e) by (unfold few; rewrite Hsize; reflexivity).
  exact (proj1 (proj1 (callers_get_their_answers _ _ _ no_session e (Example.reaches e E) Hfew) 9%nat 1 _ _ Hc)).
Defined.

